(* ===== verification/_CoqProject ===== *)
-Q . S2P
Prelude.v
GoLib.v
IncStr.v
GoText.v
Errors.v
APIErrors.v
Metadata.v
GoTime.v
GoDate.v
Base64.v
NsLock.v
Pool.v
Drive.v
World.v
HashReader.v
Client.v
HttpRange.v
Names.v
Buckets.v
Reference.v
Objects.v
ObjectsSpec.v
Listing.v
ListingSpec.v
Multipart.v
MultipartSpec.v
Encodable.v
ReadSpec.v
GetSpec.v
RoundTrip.v
Session.v
MultipartGet.v
UploadSpec.v
Scenario.v
Guarantees.v
Proto.v
Wire.v
WireSpec.v
Wildcard.v
Condition.v
Policy.v
Locker.v
Dsync.v
Bufio.v
Streaming.v
StreamingSpec.v
Credentials.v
SignV4.v
SignV4Parse.v
SignV4Canon.v
SignV4Spec.v
SignedUpload.v
IamPolicy.v
Iam.v
IamSpec.v
AuthHeader.v
SignV2.v
PolicySys.v
Jwt.v
JwtSpec.v
Auth.v
AuthSpec.v
AccessFindings.v
ObjectLock.v
ObjectLockSpec.v
LockHandlers.v
LockHandlersSpec.v
Lifecycle.v
LifecycleSpec.v
LifecycleOps.v
LifecycleOpsSpec.v
Crypto.v
CryptoSpec.v
Encryption.v
EncryptionSpec.v
GetHandler.v
GetHandlerSpec.v
PutHandler.v
HandlerFindings.v
Findings.v
