(* ===== verification/Prelude.v ===== *)
(** * Verification of the Kinetic object layer of S3-Kinetic

    S3-Kinetic is a MinIO server whose object layer keeps buckets and objects on
    a Kinetic drive.  This library models the layer and the parts of the server
    around it that carry logic of their own, and proves what they guarantee.

    ** The program and its parts

    An S3 request passes two middlewares and is then authenticated: by the
    signature of version 4 or 2 in its header or query, made with the secret of
    the server or of one of its users (cmd/auth-handler.go, cmd/signature-v4*.go,
    cmd/signature-v2.go, pkg/auth), with a signed token for temporary credentials
    (cmd/jwt.go, cmd/jwt).  It is authorised by the policies of its user and of
    the user's groups (cmd/iam.go, pkg/iam/policy), or, without credentials, by
    the policy of its bucket (cmd/policy.go).  It reaches the object layer
    ([KineticObjects] in cmd/kinetic.go and cmd/kinetic-multipart.go) through the
    HTTP handlers; errors become the codes of cmd/api-errors.go.  A PUT may arrive as
    signed chunks (cmd/streaming-signature-v4.go) and passes through a reader that
    checks its length and sums (pkg/hash).  The layer checks names
    (cmd/object-api-input-checks.go, cmd/object-api-utils.go), takes a namespace
    lock (cmd/namespace-lock.go; in a cluster a quorum lock, pkg/dsync over
    cmd/local-locker.go), takes one of a fixed number of pooled clients, and calls
    the store through cmd/client.go: in library mode by cgo, in protocol mode by
    protobuf messages over a socket (pkg/kinetic_proto).  A bucket is a key
    "bucket.NAME"; an object is a key "BUCKET/OBJECT" whose metadata is the JSON
    text of an [fsMetaV1] (cmd/fs-v1-metadata.go); the parts of an upload are
    hidden keys "BUCKET/OBJECT.VERSION.NUMBER.ETAG.SIZE".  Listings turn a prefix
    into a key range (common/util.go).  Bucket policies (pkg/bucket/policy) decide
    requests, matching resources by wildcards (pkg/wildcard).  Objects may be
    locked against deletion and overwriting (pkg/bucket/object/lock,
    cmd/object-lock.go), and buckets may have rules after which their objects are
    deleted (pkg/bucket/lifecycle, cmd/daily-lifecycle-ops.go); both keep their
    configurations as objects of the server's own bucket (cmd/config-common.go).
    Objects may be encrypted with keys that are sealed into their metadata
    (cmd/crypto, cmd/encryption-v1.go), and compressed.

    ** Files

    Foundations.  Prelude: byte strings, machine integers, tactics, hints, list
    lemmas.  GoLib: the parts of strings, strconv, path, utf8 and hex that are
    used; GoText: replacing, splitting at spaces, sorting, header maps and query
    strings; GoTime: calendar dates and durations; GoDate: the RFC 3339 and HTTP
    forms of dates; Base64: both decoders.
    Bufio: bufio.Reader and io.ReadFull over a body that arrives in pieces.
    Errors: error values, [toKineticError], [toObjectErr]; APIErrors
    (cmd/api-errors.go): the codes and responses of the interface.  Reference, Scenario:
    one concrete instance of every interface, and small states for the witnesses.

    The object layer.
    - IncStr (common/util.go): key order and the key range of a prefix.
    - Metadata (cmd/fs-v1-metadata.go, cmd/object-api-utils.go): [fsMetaV1],
      [ObjectInfo] and their encodings; Encodable: what the JSON text reproduces.
    - NsLock (cmd/namespace-lock.go): [nsLockMap] and local lock instances.
    - Pool (cmd/kinetic.go): [KConnsPool] and its interleavings.
    - Drive (C_Operations.h): the store library as an interface, its
      specification over a finite map of keys, and a reference drive.
    - World: the state of the process, the monad of its operations (a result, a
      panic, a block on a lock, exhausted fuel, or a branch that is not modelled)
      and its program logic.
    - HashReader (pkg/hash/reader.go): streams with announced sums.
    - HttpRange (cmd/httprange.go), Names (name checks).
    - Client (cmd/client.go, library mode): store calls and [Client.Read].
    - Buckets, Objects, Listing (cmd/kinetic.go), Multipart
      (cmd/kinetic-multipart.go): one definition per operation, with its early
      returns, locks and connections in the order of the code.
    - ObjectsSpec, ListingSpec, MultipartSpec, ReadSpec, GetSpec, RoundTrip,
      UploadSpec, MultipartGet, Session: what each operation does to the view of
      the store, composed into whole requests; Guarantees: the theorems.

    The rest of the server.
    - Proto (pkg/kinetic_proto), Wire and WireSpec (cmd/client.go, protocol mode).
    - Wildcard (pkg/wildcard), Condition (pkg/bucket/policy/condition), Policy
      (pkg/bucket/policy).
    - Locker (cmd/local-locker.go), Dsync (pkg/dsync/drwmutex.go).
    - Streaming and StreamingSpec (cmd/streaming-signature-v4.go).

    Authentication and access.
    - Credentials (pkg/auth).
    - SignV4 (cmd/signature-v4*.go): parsing, canonical request, checks;
      SignV4Parse, SignV4Canon, SignV4Spec: what a client writes is read back, what
      a signature covers; SignedUpload: chunked and presigned requests.
    - SignV2 (cmd/signature-v2.go).  Jwt, JwtSpec (cmd/jwt, cmd/jwt.go).
    - IamPolicy (pkg/iam/policy), Iam (cmd/iam.go, cmd/iam-object-store.go),
      IamSpec: the operations as a step relation, its invariant, the decisions.
    - PolicySys (cmd/policy.go, pkg/handlers/proxy.go).
    - Auth (cmd/auth-handler.go and the middlewares); AuthHeader: the two parsers
      of an Authorization header agree; AuthSpec: whose request it is.

    Locks and lifecycle.
    - ObjectLock (pkg/bucket/object/lock, cmd/object-lock.go): modes, dates and
      configurations, and the checks of requests; ObjectLockSpec: what they decide.
    - LockHandlers (cmd/config-common.go, cmd/object-handlers.go,
      cmd/bucket-handlers.go): configuration files, deleting an object, the
      requests of object locking; LockHandlersSpec: what they do to the store.
    - Lifecycle (pkg/bucket/lifecycle, pkg/bucket/object/tagging): rules, their
      validation and evaluation; LifecycleSpec.
    - LifecycleOps (cmd/lifecycle.go, cmd/bucket-lifecycle-handler.go,
      cmd/daily-lifecycle-ops.go): the table of the server, its requests and the
      round that deletes; LifecycleOpsSpec.

    Encryption and the requests on one object.
    - Crypto (cmd/crypto, cmd/encryption-v1.go): headers and metadata of
      encryption, sealed keys, the key service with a master key, key rotation;
      CryptoSpec.
    - Encryption (cmd/encryption-v1.go, cmd/object-api-utils.go): the ranges of
      encrypted and compressed objects, [DecryptBlocksReader], checksums;
      EncryptionSpec.
    - GetHandler (cmd/object-handlers.go, cmd/object-handlers-common.go,
      cmd/api-headers.go, cmd/api-response.go): GET and HEAD of an object, from the
      checks of the request to status, headers and body; GetHandlerSpec.
    - PutHandler (cmd/object-handlers.go, cmd/handler-utils.go): PUT of an object,
      from its checks and the metadata in its headers to the object layer and the
      answer, with the theorem that a GET shows what was put.

    - Findings, AccessFindings, HandlerFindings and the Modules
      [LockFindings] (LockHandlersSpec) and [LifecycleFindings] (LifecycleOpsSpec):
      evaluated examples of behaviours that callers do not expect; HandlerFindings
      also holds a cipher and a stream format with the laws, and the witnesses of
      encryption, GET and PUT.

    ** What the theorems show

    Refinement.  [session_refines]: any session of bucket, PUT, ranged GET, HEAD
    and DELETE requests answers like a map from names to contents.
    [lock_instance_refines]: locks over several names are all or nothing.
    [requests_on_wire]: the device decodes the commands that were issued, except
    those with a PIN, under the connection identifier the client has by then.
    [locker_refines]: a lock server answers like a table of writers and readers.

    Access.  [authenticated_identity]: a request that gets through is allowed to
    everybody, or verifies with the one key that is authorised;
    [authenticated_body]: its body has the sum that was signed;
    [replayed_signature]: two requests with one signature agree in all that is
    signed, the date included, or two given texts collide; [client_request_accepted] and [chunked_upload]:
    the requests of a client that follows the reference are accepted and read
    back; [presigned_window]: when a presigned request is good; [iam_decision]:
    what users may do after any sequence of administration, with the invariant of
    the group memberships by rule induction; [session_decision]: what a
    temporary credential may do, with the tokens of LDAP; [issued_token]: tokens until their expiry.

    Locks.  [locked_object_survives]: an object put with a lock that stands is
    there after any DELETE; [delete_allowed] and [overwrite_allowed]: when a
    request gets past a lock; [retention_request_decision]: which
    requests to change a retention are answered with success, and that none is
    stored; [default_retention_period]: what a configuration gives without
    overflow.

    Lifecycle.  [lifecycle_decision]: when the rules delete an object, periods
    that overflow included;
    [lcp_longest]: the prefix that is listed; [lifecycle_survives_restart] and
    [lock_config_survives_restart]: configurations are read back by a new server.

    Encryption.  [encrypted_put_get]: what is put encrypted is read back, range
    by range, with the same key; [encrypted_range_covers]: which packages a range
    needs, over any list of parts; [rotation_keeps_key]: a new sealing key finds the
    same object key; [sealed_key_bound]: a sealed key opens for its own path;
    [compressed_range_get]: ranges of compressed objects.

    Requests.  [put_get_requests]: a GET after a PUT answers with the bytes and the
    metadata that were put; [get_describes_content]: the headers of a GET describe its body, for an object
    stored as one value;
    [head_agrees]: HEAD is GET without content; [revalidation]: a client that sends
    the validators of a response back is told that nothing has changed.

    Round trips.  PUT then GET with any range; upload then GET of the whole object,
    from the part a pooled client was left at ([upload_then_get]); chunked uploads,
    ranges, tokens; as lemmas: part names, checksums, policy resources, base64,
    query strings, dates.

    Effects on every branch, errors included, and frames: PUT, HEAD, GET, DELETE,
    bucket operations, the operations of uploads, GET over the wire.  [delete_frame]:
    what a DELETE leaves, and that the parts go with the object.

    Listings and decision procedures against declarative specifications:
    [list_objects_recursive] and [list_objects_delimited], for any marker and any
    number of keys asked for; [prefix_is_key_range], [bucket_name_decides],
    [match_decides], [policy_decision].

    Concurrency, over step relations.  [pool_exclusive] and [pool_progress] for
    the connection pool; [dsync_exclusive] for quorum locks with lost messages
    and time-outs.

    Streams.  [chunked_integrity]: what a chunked body yields was signed, and
    every read returns; [read_outcome]: what a read of the wire client takes from
    its connection, and when it returns, fails or waits.

    ** Interfaces

    Code outside the repository enters as classes with the laws that are relied
    on: the store ([KineticDrive], [KineticDriveSpec]), the read/write mutex of
    lsync ([LRWMutex]), the JSON and gob codecs ([MetaCodec]), the clock, digests
    and random bytes ([OSEnv]), the protobuf codec ([ProtoCodec]), HMAC and SHA-256
    ([SigEnv]), HMAC-SHA1 ([SignV2Env]), case folding and IP networks
    ([PolicyEnv]), lower case beyond ASCII ([UnicodeEnv]), floating-point fractions
    of durations ([FloatEnv]), [fmt.Fscanf] ([ScanEnv]), the order of a string set
    ([StringSetEnv]), Open Policy Agent and the parser of policies ([IamEnv]),
    jwt-go and JSON ([JwtEnv]), the configuration and XML ([AuthEnv]), upper case
    beyond ASCII ([UpperEnv]), XML of the configurations ([LockXML],
    [LifecycleXML]), the cipher of sio for keys and streams ([SioEnv], [DareEnv]),
    the s2 format ([S2Env]); the order in which a Go map is iterated, the bytes of
    crypto/rand, the document of an error response and the
    reading of the time server are arguments, and so are, for the handlers, the
    decisions of [Auth] and the errors of [url.ParseQuery].  Components
    meet through [KeyStore], the keys a signature is checked with, which [keys_at]
    implements by the users of a server.  Each has an instance
    that satisfies its laws, in which the witnesses are evaluated.

    ** Bounds and fuel

    Loops over keys take fuel and report its exhaustion as a result of its own,
    which the theorems exclude: a listing takes at most one turn more than the
    keys it may run over, since every turn but the last takes a key; bucket
    listings and part listings are stated for stores within the 800 keys the code asks for; the
    copy loop of a GET needs one turn more than the parts of the object.
    [Wire.read_loop] takes one turn more than the bytes that arrive,
    [write_loop] one more than the writes needed; [Streaming.Read] computes its
    bound from the body ([turns]) and is shown never to reach it.  The lock and
    pool models are relations and need no fuel.

    ** Not modelled

    The composition of the readers of encrypted and compressed objects with the
    store: [Objects.NewGetObjectReader] stops in a result of its own for such an
    object, which the theorems on the object layer and on GET exclude, and the
    theorems of EncryptionSpec are about the stream that the store gives; the
    clients of Vault and KES; the erasure-coded, file-system and gateway backends
    and the cache, which the Kinetic layer does not use; HTTP routing, the body of
    a PUT that is encrypted or compressed (a result of its own in [PutObjectHandler]),
    the handlers of copies, uploads and listings, and their documents; generated marshalling
    code; the JSON form of policies and the constructors of conditions from it;
    the etcd store of users and the migration of its old formats; REST transport,
    expiry and back-off of quorum locks, and releases that arrive late; the
    reloading of all users ([loadAll]) as a step of [iam_decision], whose invariant
    it breaks ([stale_membership]); notifications, the web interface and
    administration.  In presigned requests of version 2 the
    key that is verified need not be the one authorised, so
    [authenticated_identity] leaves them out (AccessFindings). *)
From Stdlib Require Export Ascii ZArith NArith Lia.
From Stdlib Require Strings.String.
From stdpp Require Export base strings gmap list sorting.
#[global] Open Scope Z_scope.
#[global] Open Scope list_scope.

(** ** Byte strings.  A Go [string] and a Go [[]byte] are both sequences of
    bytes; the model uses lists of [ascii]. *)
Abbreviation bytes := (list ascii).

(** A Go string literal. *)
Definition str (s : String.string) : bytes := String.list_ascii_of_string s.
Arguments str s%_string : simpl never.

(** ** Machine integers.  [int] is 64 bits wide on every platform the server
    is built for; conversions and additions wrap. *)
Definition wrap_u (w : Z) (x : Z) : Z := x `mod` 2 ^ w.
Definition wrap_s (w : Z) (x : Z) : Z :=
  (x + 2 ^ (w - 1)) `mod` 2 ^ w - 2 ^ (w - 1).
Definition int64_min : Z := - 2 ^ 63.
Definition int64_max : Z := 2 ^ 63 - 1.
Definition in_int64 (x : Z) : Prop := int64_min <= x <= int64_max.

Lemma wrap_s_id w x : 0 < w -> - 2 ^ (w - 1) <= x < 2 ^ (w - 1) -> wrap_s w x = x.
Proof.
  intros Hw Hx. unfold wrap_s.
  assert (2 ^ w = 2 * 2 ^ (w - 1)) as E.
  { rewrite <- Z.pow_succ_r by lia. f_equal. lia. }
  rewrite Z.mod_small by lia. lia.
Qed.

Lemma wrap_u_id w x : 0 <= x < 2 ^ w -> wrap_u w x = x.
Proof. intros. unfold wrap_u. by rewrite Z.mod_small. Qed.

(** ** Hint databases and tactics of the development. *)
Create HintDb go discriminated.
#[export] Hint Resolve prefix_app_r : go.

(** Case analysis on the scrutinee of the first [match] of the goal. *)
Ltac dmatch :=
  match goal with
  | |- context [match ?x with _ => _ end] => destruct x eqn:?; simplify_eq/=
  end.

(** Turn the boolean comparisons of the context and the goal into
    propositions. *)
Ltac zbool :=
  repeat match goal with
  | H : (_ =? _) = true |- _ => apply Z.eqb_eq in H
  | H : (_ =? _) = false |- _ => apply Z.eqb_neq in H
  | H : (_ <? _) = true |- _ => apply Z.ltb_lt in H
  | H : (_ <? _) = false |- _ => apply Z.ltb_ge in H
  | H : (_ <=? _) = true |- _ => apply Z.leb_le in H
  | H : (_ <=? _) = false |- _ => apply Z.leb_gt in H
  | H : (_ && _)%bool = true |- _ => apply andb_prop in H as [? ?]
  | H : (_ || _)%bool = false |- _ => apply orb_false_elim in H as [? ?]
  | H : negb _ = true |- _ => apply negb_true_iff in H
  | H : negb _ = false |- _ => apply negb_false_iff in H
  | H : bool_decide _ = true |- _ => apply bool_decide_eq_true in H
  | H : bool_decide _ = false |- _ => apply bool_decide_eq_false in H
  end.

(** ** Bytes. *)
Lemma N_of_ascii_inj a b : N_of_ascii a = N_of_ascii b -> a = b.
Proof.
  intros E. apply (f_equal ascii_of_N) in E. by rewrite !ascii_N_embedding in E.
Qed.

#[export] Instance N_of_ascii_Inj : Inj (=) (=) N_of_ascii.
Proof. exact N_of_ascii_inj. Qed.

(** ** Generic list lemmas. *)
Section lists.
Context {A : Type}.
Implicit Types l : list A.

Lemma drop_app_length' l1 l2 n : n = length l1 -> drop n (l1 ++ l2) = l2.
Proof. intros ->. apply drop_app_length. Qed.

Lemma take_app_length' l1 l2 n : n = length l1 -> take n (l1 ++ l2) = l1.
Proof. intros ->. apply take_app_length. Qed.

Lemma filter_all (P : A -> Prop) `{!∀ x, Decision (P x)} l : Forall P l -> filter P l = l.
Proof.
  induction 1 as [|x l Hx Hl IH]; [done|]. by rewrite filter_cons_True, IH.
Qed.

Lemma filter_ext_in (P Q : A -> Prop) `{!∀ x, Decision (P x)} `{!∀ x, Decision (Q x)} l :
  Forall (λ x, P x <-> Q x) l -> filter P l = filter Q l.
Proof.
  induction 1 as [|x l Hx Hl IH]; [done|]. rewrite !filter_cons, IH.
  repeat case_decide; tauto || done.
Qed.

Lemma prefix_drop l1 l2 : l1 `prefix_of` l2 -> l2 = l1 ++ drop (length l1) l2.
Proof. intros [k ->]. by rewrite drop_app_length. Qed.
End lists.
