(* ===== verification/GoLib.v ===== *)
(** * The part of the Go standard library the modelled code calls

    [strings], [strconv], [fmt]'s [%d] verbs, [path] and [unicode/utf8], on
    byte strings.  Each definition is executable; the lemmas are the facts the
    components rely on (decimal round trips, splitting and joining). *)
From S2P Require Import Prelude.

(** ** strings *)
Module strings.

(** [strings.HasPrefix], [strings.HasSuffix]. *)
Definition HasPrefix (s p : bytes) : bool := bool_decide (p `prefix_of` s).
Definition HasSuffix (s p : bytes) : bool := bool_decide (p `suffix_of` s).

(** [strings.Split(s, sep)] for a separator of one byte, the only kind the
    code uses: the pieces between separators, never an empty list. *)
Fixpoint Split (s : bytes) (sep : ascii) : list bytes :=
  match s with
  | [] => [[]]
  | c :: s' =>
      if decide (c = sep) then [] :: Split s' sep
      else match Split s' sep with
           | [] => [[c]]
           | p :: ps => (c :: p) :: ps
           end
  end.

Fixpoint Join (ps : list bytes) (sep : bytes) : bytes :=
  match ps with
  | [] => []
  | [p] => p
  | p :: ps' => p ++ sep ++ Join ps' sep
  end.

(** [strings.Index] and [strings.LastIndex] of a one-byte substring. *)
Fixpoint Index (s : bytes) (c : ascii) : option nat :=
  match s with
  | [] => None
  | d :: s' => if decide (d = c) then Some 0%nat else S <$> Index s' c
  end.

Fixpoint LastIndex (s : bytes) (c : ascii) : option nat :=
  match s with
  | [] => None
  | d :: s' =>
      match LastIndex s' c with
      | Some n => Some (S n)
      | None => if decide (d = c) then Some 0%nat else None
      end
  end.

(** [strings.Contains(s, sub)]. *)
Fixpoint Contains (s sub : bytes) : bool :=
  HasPrefix s sub || match s with [] => false | _ :: s' => Contains s' sub end.

(** [strings.TrimSuffix]. *)
Definition TrimSuffix (s p : bytes) : bytes :=
  if HasSuffix s p then take (length s - length p) s else s.

(** [strings.TrimPrefix]. *)
Definition TrimPrefix (s p : bytes) : bytes :=
  if HasPrefix s p then drop (length p) s else s.

Lemma HasPrefix_spec s p : HasPrefix s p = true <-> p `prefix_of` s.
Proof. apply bool_decide_eq_true. Qed.

Lemma HasPrefix_app p s : HasPrefix (p ++ s) p = true.
Proof. apply HasPrefix_spec. by exists s. Qed.

Lemma Split_nonempty s c : Split s c <> [].
Proof. destruct s; simpl; [done|]. case_decide; [done|]. by destruct (Split s c). Qed.

(** A piece without separators splits to itself. *)
Lemma Split_no_sep s c : c ∉ s -> Split s c = [s].
Proof.
  induction s as [|d s IH]; intros H; simpl; [done|].
  apply not_elem_of_cons in H as [H1 H2].
  rewrite decide_False by done. by rewrite IH.
Qed.

(** Splitting undoes joining with a separator no piece contains. *)
Lemma Split_app_sep p c s : c ∉ p -> Split (p ++ c :: s) c = p :: Split s c.
Proof.
  induction p as [|d p IH]; intros H; simpl.
  - by rewrite decide_True.
  - apply not_elem_of_cons in H as [H1 H2].
    rewrite decide_False by done. by rewrite IH.
Qed.

Lemma Split_Join ps c :
  ps <> [] -> Forall (λ p, c ∉ p) ps -> Split (Join ps [c]) c = ps.
Proof.
  intros Hne H. induction H as [|p ps Hp H IH]; [done|].
  destruct ps as [|q ps]; [by apply Split_no_sep|].
  simpl. rewrite Split_app_sep by done. f_equal. by apply IH.
Qed.

Lemma Split_length s c : (1 <= length (Split s c))%nat.
Proof. pose proof (Split_nonempty s c). destruct (Split s c); simpl; [done|lia]. Qed.

(** A string has more than one piece exactly when it has the separator. *)
Lemma Split_length_sep s c : (1 <? length (Split s c))%nat = bool_decide (c ∈ s).
Proof.
  case_bool_decide as Hc.
  - apply Nat.ltb_lt. induction s as [|d s IH]; [by apply elem_of_nil in Hc|]. simpl.
    pose proof (Split_length s c). case_decide; simpl; [lia|].
    apply elem_of_cons in Hc as [->|Hc]; [done|]. specialize (IH Hc).
    destruct (Split s c); simpl in *; lia.
  - by rewrite Split_no_sep.
Qed.

End strings.
Export strings.

(** ** strconv and fmt *)
Module strconv.

Definition digit (d : N) : ascii := ascii_of_N (48 + d).

(** Decimal digits of [n], least significant last; [fuel] bounds the number
    of digits. *)
Fixpoint dec_digits (fuel : nat) (n : N) (acc : bytes) : bytes :=
  match fuel with
  | O => acc
  | S f =>
      let acc' := digit (n mod 10)%N :: acc in
      if (n <? 10)%N then acc' else dec_digits f (n / 10)%N acc'
  end.

(** The binary size of [n] bounds its number of decimal digits. *)
Definition FormatUint (n : N) : bytes := dec_digits (S (N.size_nat n)) n [].

(** [strconv.FormatInt(z, 10)], also the verb [%d]. *)
Definition FormatInt (z : Z) : bytes :=
  if z <? 0 then "-"%char :: FormatUint (Z.to_N (- z)) else FormatUint (Z.to_N z).

(** The verb [%.5d]: at least five digits, padded with zeros. *)
Definition pad5 (ds : bytes) : bytes := replicate (5 - length ds) "0"%char ++ ds.
Definition Format5d (z : Z) : bytes :=
  if z <? 0 then "-"%char :: pad5 (FormatUint (Z.to_N (- z)))
  else pad5 (FormatUint (Z.to_N z)).

Definition digit_val (c : ascii) : option N :=
  let n := N_of_ascii c in
  if ((48 <=? n) && (n <=? 57))%N then Some (n - 48)%N else None.

(** All characters are digits: the number, else [None]. *)
Fixpoint parse_digits (s : bytes) (acc : N) : option N :=
  match s with
  | [] => Some acc
  | c :: s' =>
      match digit_val c with
      | Some d => parse_digits s' (acc * 10 + d)%N
      | None => None
      end
  end.

Definition ParseUint (s : bytes) : option N :=
  match s with [] => None | _ => parse_digits s 0 end.

(** [strconv.ParseInt(s, 10, 64)] and [strconv.Atoi]: the value and whether
    there was an error.  A syntax error gives 0, a value out of range the
    nearest bound. *)
Definition clamp64 (z : Z) : Z * bool :=
  if z <? int64_min then (int64_min, true)
  else if int64_max <? z then (int64_max, true) else (z, false).

Definition ParseInt (s : bytes) : Z * bool :=
  match s with
  | [] => (0, true)
  | c :: s' =>
      if decide (c = "-"%char) then
        match ParseUint s' with
        | Some n => clamp64 (- Z.of_N n)
        | None => (0, true)
        end
      else
        match ParseUint (if decide (c = "+"%char) then s' else s) with
        | Some n => clamp64 (Z.of_N n)
        | None => (0, true)
        end
  end.

Definition Atoi : bytes -> Z * bool := ParseInt.

(** *** Decimal round trips *)
Definition is_digit (c : ascii) : Prop := (48 <= N_of_ascii c <= 57)%N.

Lemma digit_N d : (d < 10)%N -> N_of_ascii (digit d) = (48 + d)%N.
Proof. intros. unfold digit. apply N_ascii_embedding. lia. Qed.

Lemma digit_is_digit d : (d < 10)%N -> is_digit (digit d).
Proof. intros. unfold is_digit. rewrite digit_N by done. lia. Qed.

Lemma digit_val_digit d : (d < 10)%N -> digit_val (digit d) = Some d.
Proof.
  intros H. unfold digit_val. rewrite digit_N by done.
  replace ((48 <=? 48 + d)%N && (48 + d <=? 57)%N)%bool with true.
  - f_equal. lia.
  - symmetry. apply andb_true_iff; split; apply N.leb_le; lia.
Qed.

Lemma dec_digits_all_digits fuel n acc :
  Forall is_digit acc -> Forall is_digit (dec_digits fuel n acc).
Proof.
  revert n acc. induction fuel as [|f IH]; intros n acc H; simpl; [done|].
  assert (Forall is_digit (digit (n mod 10) :: acc)).
  { constructor; [|done]. apply digit_is_digit. by apply N.mod_lt. }
  destruct (n <? 10)%N; auto.
Qed.

Lemma parse_dec_digits fuel n acc :
  (n < 2 ^ N.of_nat fuel)%N -> (0 < fuel)%nat ->
  parse_digits (dec_digits fuel n acc) 0 = parse_digits acc n.
Proof.
  revert n acc. induction fuel as [|f IH]; intros n acc Hn Hf; [lia|]. simpl.
  destruct (N.ltb_spec n 10) as [Hlt|Hge].
  - simpl. rewrite N.mod_small, digit_val_digit by done. f_equal.
  - rewrite Nat2N.inj_succ, N.pow_succ_r' in Hn.
    destruct f as [|f]; [simpl in Hn; lia|].
    rewrite IH; [|apply N.Div0.div_lt_upper_bound; lia|lia].
    simpl. rewrite digit_val_digit by (by apply N.mod_lt). f_equal.
    pose proof (N.div_mod' n 10). lia.
Qed.

Lemma size_nat_bound n : (n < 2 ^ N.of_nat (S (N.size_nat n)))%N.
Proof.
  pose proof (N.size_gt n).
  assert (N.of_nat (N.size_nat n) = N.size n) as E'.
  { destruct n as [|p]; [done|]. simpl. clear.
    induction p as [p IH|p IH|]; cbn [Pos.size_nat Pos.size]; [..|done];
      rewrite Nat2N.inj_succ, IH; lia. }
  rewrite Nat2N.inj_succ, E', N.pow_succ_r'. lia.
Qed.

Lemma dec_digits_nonempty fuel n acc : (0 < fuel)%nat -> dec_digits fuel n acc <> [].
Proof.
  intros Hf. destruct fuel as [|f]; [lia|]. clear Hf. revert n acc.
  induction f as [|f IH]; intros n acc; simpl; [by destruct (n <? 10)%N|].
  destruct (n <? 10)%N; [done|]. apply IH.
Qed.

Lemma FormatUint_digits n : Forall is_digit (FormatUint n).
Proof. by apply dec_digits_all_digits. Qed.

Lemma ParseUint_FormatUint n : ParseUint (FormatUint n) = Some n.
Proof.
  unfold ParseUint, FormatUint.
  destruct (dec_digits _ n []) as [|c s] eqn:E.
  - exfalso. revert E. apply dec_digits_nonempty. lia.
  - rewrite <- E, parse_dec_digits; [done|apply size_nat_bound|lia].
Qed.

Lemma parse_zeros k s : parse_digits (replicate k "0"%char ++ s) 0 = parse_digits s 0.
Proof. induction k; [done|]. simpl. done. Qed.

Lemma ParseUint_pad5 n : ParseUint (pad5 (FormatUint n)) = Some n.
Proof.
  pose proof (ParseUint_FormatUint n) as H. unfold ParseUint, pad5 in *.
  destruct (FormatUint n) as [|c s] eqn:E; [done|].
  destruct (replicate _ _ ++ _) eqn:E2.
  - apply app_eq_nil in E2 as [_ ?]. done.
  - by rewrite <- E2, parse_zeros.
Qed.

Lemma is_digit_not c d : is_digit c -> ~ is_digit d -> c <> d.
Proof. intros ? ? ->. done. Qed.

Lemma digit_head s : Forall is_digit s -> head s <> Some "-"%char /\ head s <> Some "+"%char.
Proof.
  intros H. destruct H as [|c s Hc H]; [done|]. simpl.
  split; intros [= ->]; unfold is_digit in Hc; vm_compute in Hc; destruct Hc; done.
Qed.

(** A string of digits parses to its value, clamped. *)
Lemma ParseInt_digits s n :
  Forall is_digit s -> ParseUint s = Some n -> ParseInt s = clamp64 (Z.of_N n).
Proof.
  intros H Hn. destruct (digit_head s H) as [H1 H2].
  destruct s as [|c s]; [done|]. unfold ParseInt.
  rewrite decide_False by (intros ->; done).
  rewrite decide_False by (intros ->; done). by rewrite Hn.
Qed.

Lemma clamp64_id z : in_int64 z -> clamp64 z = (z, false).
Proof.
  intros [? ?]. unfold clamp64.
  destruct (Z.ltb_spec z int64_min); [lia|].
  destruct (Z.ltb_spec int64_max z); [lia|done].
Qed.

Lemma ParseInt_FormatInt z : in_int64 z -> ParseInt (FormatInt z) = (z, false).
Proof.
  intros Hz. unfold FormatInt. destruct (Z.ltb_spec z 0).
  - unfold ParseInt. rewrite decide_True by done.
    rewrite ParseUint_FormatUint, Z2N.id by lia. rewrite Z.opp_involutive.
    by apply clamp64_id.
  - rewrite (ParseInt_digits _ (Z.to_N z)); [|apply FormatUint_digits|apply ParseUint_FormatUint].
    rewrite Z2N.id by lia. by apply clamp64_id.
Qed.

Lemma pad5_digits n : Forall is_digit (pad5 (FormatUint n)).
Proof.
  apply Forall_app; split; [|apply FormatUint_digits].
  apply Forall_replicate. unfold is_digit. vm_compute. split; done.
Qed.

Lemma ParseInt_Format5d z : 0 <= z <= int64_max -> ParseInt (Format5d z) = (z, false).
Proof.
  intros Hz. unfold Format5d. destruct (Z.ltb_spec z 0); [lia|].
  rewrite (ParseInt_digits _ (Z.to_N z)); [|apply pad5_digits|apply ParseUint_pad5].
  rewrite Z2N.id by lia. apply clamp64_id. unfold in_int64, int64_min. lia.
Qed.

Lemma digits_no_char c s : Forall is_digit s -> ~ is_digit c -> c ∉ s.
Proof. intros H Hc Hin. rewrite Forall_forall in H. by apply Hc, H. Qed.

Lemma dot_not_digit : ~ is_digit "."%char.
Proof. unfold is_digit. vm_compute. by intros []. Qed.

Lemma Format5d_no_dot z : 0 <= z -> "."%char ∉ Format5d z.
Proof.
  intros. unfold Format5d. destruct (Z.ltb_spec z 0); [lia|].
  apply digits_no_char; [apply pad5_digits|apply dot_not_digit].
Qed.

Lemma FormatInt_no_dot z : "."%char ∉ FormatInt z.
Proof.
  unfold FormatInt. destruct (z <? 0).
  - apply not_elem_of_cons; split; [done|].
    apply digits_no_char; [apply FormatUint_digits|apply dot_not_digit].
  - apply digits_no_char; [apply FormatUint_digits|apply dot_not_digit].
Qed.

Lemma dec_digits_length fuel n acc k :
  (n < 10 ^ N.of_nat k)%N -> (0 < k)%nat ->
  (length (dec_digits fuel n acc) <= k + length acc)%nat.
Proof.
  revert n acc k. induction fuel as [|f IH]; intros n acc k Hn Hk; simpl; [lia|].
  destruct (N.ltb_spec n 10) as [Hlt|Hge]; [simpl; lia|].
  destruct k as [|k]; [lia|]. rewrite Nat2N.inj_succ, N.pow_succ_r' in Hn.
  destruct k as [|k]; [simpl in Hn; lia|].
  etrans; [apply (IH _ _ (S k)); [apply N.Div0.div_lt_upper_bound; lia|lia]|]. simpl. lia.
Qed.

(** [%.5d] of a number below 100000 has exactly five characters. *)
Lemma Format5d_length z : 0 <= z < 100000 -> length (Format5d z) = 5%nat.
Proof.
  intros Hz. unfold Format5d. destruct (Z.ltb_spec z 0); [lia|].
  unfold pad5. rewrite length_app, length_replicate.
  assert (length (FormatUint (Z.to_N z)) <= 5)%nat; [|lia].
  unfold FormatUint. etrans; [apply (dec_digits_length _ _ _ 5); [|lia]|simpl; lia].
  change (10 ^ N.of_nat 5)%N with 100000%N. lia.
Qed.

End strconv.
Export strconv.

(** ** path *)
Module path.

Definition slash : ascii := "/"%char.

(** One element of a slash-separated path processed against the elements kept
    so far, most recent first. *)
Definition clean_elem (rooted : bool) (stack : list bytes) (e : bytes) : list bytes :=
  if decide (e = []) then stack
  else if decide (e = str ".") then stack
  else if decide (e = str "..") then
    match stack with
    | top :: rest => if decide (top = str "..") then e :: stack else rest
    | [] => if rooted then [] else [e]
    end
  else e :: stack.

(** [path.Clean]. *)
Definition Clean (p : bytes) : bytes :=
  let rooted := HasPrefix p (str "/") in
  let kept := reverse (foldl (clean_elem rooted) [] (Split p slash)) in
  let body := strings.Join kept (str "/") in
  if rooted then str "/" ++ body
  else if decide (body = []) then str "." else body.

(** [path.Join]: empty elements are ignored. *)
Definition Join (elems : list bytes) : bytes :=
  match filter (λ e, e <> []) elems with
  | [] => []
  | es => Clean (strings.Join es (str "/"))
  end.

(** [path.Ext]: the suffix from the last dot of the last element. *)
Fixpoint Ext (p : bytes) : bytes :=
  match p with
  | [] => []
  | c :: p' =>
      match Ext p' with
      | [] => if decide (c = "."%char) then
                (if decide (slash ∈ p') then [] else p) else []
      | e => e
      end
  end.

End path.

(** ** unicode/utf8 and the Unicode part of strings.TrimSpace *)
Module utf8.

Definition inr (c : ascii) (lo hi : N) : bool :=
  ((lo <=? N_of_ascii c) && (N_of_ascii c <=? hi))%N.
Definition cont (c : ascii) : bool := inr c 128 191.

(** [utf8.ValidString]: well-formed UTF-8 without surrogates and overlong
    forms. *)
Fixpoint ValidString (s : bytes) : bool :=
  match s with
  | [] => true
  | a :: s1 =>
      if inr a 0 127 then ValidString s1
      else match s1 with
      | [] => false
      | b :: s2 =>
          if inr a 194 223 then cont b && ValidString s2
          else match s2 with
          | [] => false
          | c :: s3 =>
              if (inr a 224 224 && inr b 160 191) || (inr a 225 236 && cont b)
                 || (inr a 237 237 && inr b 128 159) || (inr a 238 239 && cont b)
              then cont c && ValidString s3
              else match s3 with
              | [] => false
              | d :: s4 =>
                  if (inr a 240 240 && inr b 144 191) || (inr a 241 243 && cont b)
                     || (inr a 244 244 && inr b 128 143)
                  then cont c && cont d && ValidString s4
                  else false
              end
          end
      end
  end.

Definition b (n : N) : ascii := ascii_of_N n.

(** The UTF-8 encodings of the characters of [unicode.IsSpace]. *)
Definition space_encodings : list bytes :=
  ((λ n, [b n]) <$> [9; 10; 11; 12; 13; 32]%N)
  ++ [[b 194; b 133]; [b 194; b 160]; [b 225; b 154; b 128]]
  ++ ((λ n, [b 226; b 128; b n]) <$> [128; 129; 130; 131; 132; 133; 134; 135; 136; 137; 138; 168; 169; 175]%N)
  ++ [[b 226; b 129; b 159]; [b 227; b 128; b 128]].

(** Remove one leading space character of [sps], if there is one. *)
Fixpoint trim_one (sps : list bytes) (s : bytes) : option bytes :=
  match sps with
  | [] => None
  | sp :: sps' => if HasPrefix s sp then Some (drop (length sp) s) else trim_one sps' s
  end.

(** Each round removes at least one byte, so the length bounds the rounds. *)
Fixpoint trim_left (fuel : nat) (sps : list bytes) (s : bytes) : bytes :=
  match fuel with
  | O => s
  | S f => match trim_one sps s with Some s' => trim_left f sps s' | None => s end
  end.

(** [strings.TrimSpace]. *)
Definition TrimSpace (s : bytes) : bytes :=
  let l := trim_left (length s) space_encodings s in
  reverse (trim_left (length l) (reverse <$> space_encodings) (reverse l)).

End utf8.

(** ** encoding/hex *)
Module hex.

Definition hexdigit (n : N) : ascii :=
  if (n <? 10)%N then ascii_of_N (48 + n) else ascii_of_N (87 + n).

Definition unhex (c : ascii) : option N :=
  let n := N_of_ascii c in
  if ((48 <=? n) && (n <=? 57))%N then Some (n - 48)%N
  else if ((97 <=? n) && (n <=? 102))%N then Some (n - 87)%N
  else if ((65 <=? n) && (n <=? 70))%N then Some (n - 55)%N
  else None.

(** [hex.EncodeToString]. *)
Definition EncodeToString (src : bytes) : bytes :=
  flat_map (λ c, [hexdigit (N_of_ascii c / 16); hexdigit (N_of_ascii c mod 16)]) src.

(** [hex.DecodeString]; [None] on an odd length or a character that is not a
    hexadecimal digit. *)
Fixpoint DecodeString (s : bytes) : option bytes :=
  match s with
  | [] => Some []
  | [_] => None
  | a :: b :: s' =>
      match unhex a, unhex b, DecodeString s' with
      | Some x, Some y, Some r => Some (ascii_of_N (16 * x + y) :: r)
      | _, _, _ => None
      end
  end.

Lemma unhex_hexdigit n : (n < 16)%N -> unhex (hexdigit n) = Some n.
Proof.
  intros H. unfold hexdigit, unhex.
  destruct (N.ltb_spec n 10) as [H1|H1]; rewrite N_ascii_embedding by lia;
    repeat match goal with |- context [(?a <=? ?b)%N] => destruct (N.leb_spec a b); [|try lia] end;
    simpl; f_equal; lia.
Qed.

Lemma Decode_Encode src : DecodeString (EncodeToString src) = Some src.
Proof.
  induction src as [|c src IH]; [done|]. cbn [EncodeToString flat_map app DecodeString].
  fold (EncodeToString src). pose proof (N_ascii_bounded c).
  rewrite !unhex_hexdigit, IH by (apply N.mod_lt || apply N.Div0.div_lt_upper_bound; lia).
  do 2 f_equal. rewrite <- N.div_mod' . apply ascii_N_embedding.
Qed.

End hex.

Example Clean_ex : path.Clean (str "a//b/./c/../d/") = str "a/b/d".
Proof. vm_compute. reflexivity. Qed.
Example Join_ex : path.Join [str "bucket"; str ""] = str "bucket".
Proof. vm_compute. reflexivity. Qed.
Example Ext_ex : path.Ext (str "a.b/c.tar.gz") = str ".gz" /\ path.Ext (str "a.b/c") = [].
Proof. vm_compute. split; reflexivity. Qed.
Example TrimSpace_ex : utf8.TrimSpace (str " .. ") = str "..".
Proof. vm_compute. reflexivity. Qed.
Example Format5d_ex : Format5d 42 = str "00042" /\ Format5d 123456 = str "123456".
Proof. vm_compute. split; reflexivity. Qed.
