(* ===== verification/IncStr.v ===== *)
(** * common/util.go: [IncStr], and the key order of the drive

    The Kinetic drive keeps its keys in bytewise lexicographic order; the
    object layer turns a key prefix into a key range by incrementing the last
    byte of the prefix ([common.IncStr]).  This file models both and shows that
    the half-open range from a prefix to its increment holds exactly the keys
    with that prefix. *)
From S2P Require Import Prelude GoLib.

(** ** Bytewise order of keys *)
Fixpoint bytes_ltb (s t : bytes) : bool :=
  match s, t with
  | _, [] => false
  | [], _ :: _ => true
  | a :: s', b :: t' =>
      if (N_of_ascii a <? N_of_ascii b)%N then true
      else if (N_of_ascii a =? N_of_ascii b)%N then bytes_ltb s' t' else false
  end.

Definition blt (s t : bytes) : Prop := bytes_ltb s t = true.
Definition ble (s t : bytes) : Prop := bytes_ltb t s = false.

#[export] Instance blt_dec : RelDecision blt.
Proof. intros s t. unfold blt. apply _. Defined.
#[export] Instance ble_dec : RelDecision ble.
Proof. intros s t. unfold ble. apply _. Defined.

(** Case analysis on the comparison of the head bytes. *)
Ltac head_cases :=
  repeat match goal with
  | H : context [N.ltb ?a ?b] |- _ => destruct (N.ltb_spec a b); simplify_eq/=
  | H : context [N.eqb ?a ?b] |- _ => destruct (N.eqb_spec a b); simplify_eq/=
  | |- context [N.ltb ?a ?b] => destruct (N.ltb_spec a b); simplify_eq/=
  | |- context [N.eqb ?a ?b] => destruct (N.eqb_spec a b); simplify_eq/=
  end.

Lemma bytes_ltb_irrefl s : bytes_ltb s s = false.
Proof. induction s as [|a s IH]; simpl; [done|]. by rewrite N.ltb_irrefl, N.eqb_refl. Qed.

Lemma bytes_ltb_cons_same a s t : bytes_ltb (a :: s) (a :: t) = bytes_ltb s t.
Proof. simpl. by rewrite N.ltb_irrefl, N.eqb_refl. Qed.

Lemma bytes_ltb_app_same p s t : bytes_ltb (p ++ s) (p ++ t) = bytes_ltb s t.
Proof. induction p as [|a p IH]; [done|]. cbn [app]. by rewrite bytes_ltb_cons_same. Qed.

Lemma bytes_ltb_trans s t u :
  bytes_ltb s t = true -> bytes_ltb t u = true -> bytes_ltb s u = true.
Proof.
  revert t u. induction s as [|a s IH]; intros [|b t] [|c u]; simpl; try done.
  intros H1 H2. head_cases; eauto; try lia.
Qed.

Lemma bytes_ltb_total s t : bytes_ltb s t = true \/ s = t \/ bytes_ltb t s = true.
Proof.
  revert t. induction s as [|a s IH]; intros [|b t]; simpl; auto.
  head_cases; auto; try lia.
  destruct (IH t) as [?|[->|?]]; auto.
Qed.

#[export] Instance blt_strict : StrictOrder blt.
Proof.
  split.
  - intros s H. unfold blt in H. by rewrite bytes_ltb_irrefl in H.
  - intros s t u. apply bytes_ltb_trans.
Qed.

Lemma ble_iff s t : ble s t <-> blt s t \/ s = t.
Proof.
  unfold ble, blt. split.
  - intros H. destruct (bytes_ltb_total s t) as [?|[?|?]]; auto. congruence.
  - intros [H|H]; [|subst; apply bytes_ltb_irrefl].
    destruct (bytes_ltb t s) eqn:E; [|done].
    pose proof (bytes_ltb_trans _ _ _ H E) as F. by rewrite bytes_ltb_irrefl in F.
Qed.

#[export] Instance ble_preorder : PreOrder ble.
Proof.
  split.
  - intros s. apply ble_iff. by right.
  - intros s t u. rewrite !ble_iff. intros [H1| ->] [H2| ->]; auto.
    left. by transitivity t.
Qed.

#[export] Instance ble_antisymm : AntiSymm (=) ble.
Proof.
  intros s t. rewrite !ble_iff. intros [H1|H1] [H2|H2]; auto.
  exfalso. exact (irreflexivity blt s (transitivity H1 H2)).
Qed.

#[export] Instance ble_total : Total ble.
Proof.
  intros s t. rewrite !ble_iff. destruct (bytes_ltb_total s t) as [?|[?|?]]; auto.
Qed.

Lemma ble_app s t : ble s (s ++ t).
Proof.
  rewrite <- (app_nil_r s) at 1. unfold ble. rewrite bytes_ltb_app_same.
  by destruct t.
Qed.

(** ** common.IncByte and common.IncStr *)

(** [bytes[idx]++] on an unsigned byte. *)
Definition byte_succ (c : ascii) : ascii := ascii_of_N ((N_of_ascii c + 1) mod 256).

(** The loop of [IncByte] over the reversed slice: it stops at the first byte
    that does not wrap to zero. *)
Fixpoint inc_loop (rev_bytes : bytes) : bytes :=
  match rev_bytes with
  | [] => []
  | c :: rest =>
      let c' := byte_succ c in
      if (0 <? N_of_ascii c')%N then c' :: rest else c' :: inc_loop rest
  end.

Definition IncByte (bs : bytes) : bytes := reverse (inc_loop (reverse bs)).

Definition IncStr (s : bytes) : bytes := IncByte s.

Lemma byte_succ_N c :
  N_of_ascii c <> 255%N -> N_of_ascii (byte_succ c) = (N_of_ascii c + 1)%N.
Proof.
  intros Hc. pose proof (N_ascii_bounded c). unfold byte_succ.
  rewrite N.mod_small by lia. apply N_ascii_embedding. lia.
Qed.

Lemma byte_succ_max : byte_succ (ascii_of_N 255) = ascii_of_N 0.
Proof. reflexivity. Qed.

Lemma IncStr_snoc s c :
  N_of_ascii c <> 255%N -> IncStr (s ++ [c]) = s ++ [byte_succ c].
Proof.
  intros Hc. unfold IncStr, IncByte. rewrite reverse_app. simpl.
  rewrite byte_succ_N by done.
  destruct (N.ltb_spec 0 (N_of_ascii c + 1)); [|lia].
  by rewrite reverse_cons, reverse_involutive.
Qed.

Lemma IncStr_snoc_max s :
  IncStr (s ++ [ascii_of_N 255]) = IncStr s ++ [ascii_of_N 0].
Proof.
  unfold IncStr, IncByte. rewrite reverse_app. simpl. by rewrite reverse_cons.
Qed.

Lemma inc_loop_length l : length (inc_loop l) = length l.
Proof. induction l as [|d l IH]; [done|]. simpl. dmatch; simpl; auto. Qed.

Lemma IncStr_length s : length (IncStr s) = length s.
Proof.
  unfold IncStr, IncByte. by rewrite length_reverse, inc_loop_length, length_reverse.
Qed.

(** Keys between [s ++ [c]] and [s ++ [c+1]] are those that extend
    [s ++ [c]]. *)
Lemma snoc_range s c k :
  N_of_ascii c <> 255%N ->
  (ble (s ++ [c]) k /\ blt k (s ++ [byte_succ c])) <-> (s ++ [c]) `prefix_of` k.
Proof.
  intros Hc. pose proof (byte_succ_N c Hc) as Hs. split.
  - revert k. induction s as [|a s IH]; intros k [H1 H2].
    + destruct k as [|d k]; [by unfold ble in H1; simpl in H1|].
      unfold ble, blt in *. simpl in H1, H2. rewrite Hs in H2.
      assert (d = c) as ->.
      { apply (inj N_of_ascii). destruct k; head_cases; try done; lia. }
      simpl. apply prefix_cons, prefix_nil.
    + destruct k as [|d k]; [by unfold ble in H1; simpl in H1|].
      unfold ble, blt in *. simpl in H1, H2. head_cases; try done; try lia.
      simpl. apply prefix_cons. apply IH. done.
  - intros [r ->]. split; [apply ble_app|].
    unfold blt. rewrite <- app_assoc, bytes_ltb_app_same. simpl. rewrite Hs.
    head_cases; try done; lia.
Qed.

(** ** Key ranges of the drive *)
Definition in_range (start stop : bytes) (startIncl stopIncl : bool) (k : bytes) : bool :=
  (if startIncl then bool_decide (ble start k) else bool_decide (blt start k)) &&
  (if stopIncl then bool_decide (ble k stop) else bool_decide (blt k stop)).

(** The half-open range from a prefix that does not end in the byte 255 to its
    increment holds exactly the keys that extend the prefix. *)
Lemma prefix_range s c k :
  N_of_ascii c <> 255%N ->
  in_range (s ++ [c]) (IncStr (s ++ [c])) true false k = true
  <-> (s ++ [c]) `prefix_of` k.
Proof.
  intros Hc. rewrite IncStr_snoc by done. rewrite <- snoc_range by done.
  unfold in_range. rewrite andb_true_iff, !bool_decide_eq_true. done.
Qed.

(** With the end of the range included, as [ListObjects] asks for it, the key
    that equals the increment is in the range as well. *)
Lemma prefix_range_inclusive s c k :
  N_of_ascii c <> 255%N ->
  in_range (s ++ [c]) (IncStr (s ++ [c])) true true k = true
  <-> (s ++ [c]) `prefix_of` k \/ k = IncStr (s ++ [c]).
Proof.
  intros Hc. rewrite IncStr_snoc by done. rewrite <- snoc_range by done.
  unfold in_range. rewrite andb_true_iff, !bool_decide_eq_true.
  rewrite (ble_iff k). split.
  - intros [? [?| ->]]; auto.
  - intros [[? ?]| ->]; auto. split; [|by right].
    apply ble_iff. left. unfold blt. rewrite bytes_ltb_app_same. simpl.
    rewrite byte_succ_N by done. head_cases; try done; lia.
Qed.

(** The keys that extend a prefix are exactly the keys from the prefix up to,
    and without, its increment [IncStr], as long as the prefix does not end in the
    byte 255; a range that includes its end holds them and the increment
    itself. *)
Theorem prefix_is_key_range s c k :
  N_of_ascii c <> 255%N ->
  (in_range (s ++ [c]) (IncStr (s ++ [c])) true false k = true <-> (s ++ [c]) `prefix_of` k) /\
  (in_range (s ++ [c]) (IncStr (s ++ [c])) true true k = true <->
     (s ++ [c]) `prefix_of` k \/ k = IncStr (s ++ [c])).
Proof. intros Hc. split; [by apply prefix_range|by apply prefix_range_inclusive]. Qed.

Lemma prefix_is_key_range_witness :
  (in_range (str "bkt/") (IncStr (str "bkt/")) true false (str "bkt/obj") = true <->
     str "bkt/" `prefix_of` str "bkt/obj") /\
  in_range (str "bkt/") (IncStr (str "bkt/")) true false (str "bkt/obj") = true.
Proof.
  split; [apply (prefix_is_key_range (str "bkt") "/"%char (str "bkt/obj")); done|reflexivity].
Defined.
