(* ===== verification/GoText.v ===== *)
(** * Text of requests: more of strings, net/url and net/http

    The functions the request handling uses on header values and query strings:
    replacing, trimming and splitting, the encoding of query strings and its
    inverse, and headers as maps from canonical names to lists of values. *)
From S2P Require Import Prelude GoLib IncStr.

(** ** strings *)

(** [strings.Replace(s, old, new, -1)] for a non-empty [old]; [skip] bytes of an
    occurrence are still to be passed over. *)
Fixpoint Replace_from (skip : nat) (s old new : bytes) : bytes :=
  match s with
  | [] => []
  | c :: s' =>
      match skip with
      | S k => Replace_from k s' old new
      | O => if HasPrefix s old then new ++ Replace_from (length old - 1) s' old new
             else c :: Replace_from 0 s' old new
      end
  end.
Definition Replace (s old new : bytes) : bytes := Replace_from 0 s old new.

(** [strings.SplitN(s, c, 2)] for a separator of one byte. *)
Definition SplitN2 (s : bytes) (c : ascii) : list bytes :=
  match strings.Index s c with
  | Some i => [take i s; drop (S i) s]
  | None => [s]
  end.

(** [strings.Fields]: the runs of characters that are not spaces.  [cur] is the
    run so far, and [skip] bytes of a space are still to be passed over. *)
Definition emit (cur : bytes) : list bytes := if decide (cur = []) then [] else [cur].
Fixpoint Fields_from (skip : nat) (cur s : bytes) : list bytes :=
  match s with
  | [] => emit cur
  | c :: s' =>
      match skip with
      | S k => Fields_from k cur s'
      | O => match utf8.trim_one utf8.space_encodings s with
             | Some rest => emit cur ++ Fields_from (length s' - length rest) [] s'
             | None => Fields_from 0 (cur ++ [c]) s'
             end
      end
  end.
Definition Fields (s : bytes) : list bytes := Fields_from 0 [] s.

(** [sort.Strings], and the printing of a slice of strings by [%v]. *)
Definition sort_Strings (l : list bytes) : list bytes := merge_sort ble l.
Definition print_strings (l : list bytes) : bytes := str "[" ++ strings.Join l (str " ") ++ str "]".

(** [strings.ToLower].  The case tables of Unicode are an interface: they are
    used for strings that are not ASCII. *)
Definition is_upper (c : ascii) : bool := utf8.inr c 65 90.
Definition is_lower (c : ascii) : bool := utf8.inr c 97 122.
Definition is_ascii (c : ascii) : bool := utf8.inr c 0 127.
Definition to_upper (c : ascii) : ascii :=
  if is_lower c then ascii_of_N (N_of_ascii c - 32) else c.
Definition to_lower (c : ascii) : ascii :=
  if is_upper c then ascii_of_N (N_of_ascii c + 32) else c.

Class UnicodeEnv := { unicode_ToLower : bytes -> bytes }.
Definition ToLower `{UnicodeEnv} (s : bytes) : bytes :=
  if forallb is_ascii s then to_lower <$> s else unicode_ToLower s.

(** ** net/http: headers *)

(** [http.CanonicalHeaderKey]: a name of token characters gets capitals at its
    start and after each hyphen, and small letters elsewhere. *)
Definition token_byte (c : ascii) : bool :=
  is_upper c || is_lower c || utf8.inr c 48 57
  || bool_decide (c ∈ str "!#$%&'*+-.^_`|~").
Fixpoint canonical_from (upper : bool) (s : bytes) : bytes :=
  match s with
  | [] => []
  | c :: s' => (if upper then to_upper c else to_lower c)
                 :: canonical_from (bool_decide (c = "-"%char)) s'
  end.
Definition CanonicalHeaderKey (s : bytes) : bytes :=
  if forallb token_byte s then canonical_from true s else s.

(** A header, and the values of a query: names with their lists of values. *)
Abbreviation multimap := (gmap bytes (list bytes)).

(** [url.Values.Get], [url.Values.Set] and the methods of [http.Header], which
    make the name canonical. *)
Definition Values_Get (v : multimap) (key : bytes) : bytes := default [] (v !! key ≫= head).
Definition Values_Set (key value : bytes) (v : multimap) : multimap := <[key := [value]]> v.
Definition multimap_add (key value : bytes) (v : multimap) : multimap :=
  <[key := default [] (v !! key) ++ [value]]> v.
Definition Header_Get (h : multimap) (key : bytes) : bytes := Values_Get h (CanonicalHeaderKey key).
Definition Header_Set (key value : bytes) (h : multimap) : multimap :=
  Values_Set (CanonicalHeaderKey key) value h.
Definition Header_Add (key value : bytes) (h : multimap) : multimap :=
  multimap_add (CanonicalHeaderKey key) value h.

(** ** net/url: query strings *)
Definition hexdigit_upper (n : N) : ascii :=
  if (n <? 10)%N then ascii_of_N (48 + n) else ascii_of_N (55 + n).
Definition unreserved (c : ascii) : bool :=
  is_upper c || is_lower c || utf8.inr c 48 57 || bool_decide (c ∈ str "-_.~").

(** A byte escaped, with [sp] for a space. *)
Definition escape (sp : bytes) (c : ascii) : bytes :=
  if unreserved c then [c]
  else if decide (c = " "%char) then sp
  else ["%"%char; hexdigit_upper (N_of_ascii c / 16); hexdigit_upper (N_of_ascii c mod 16)].
Definition QueryEscape (s : bytes) : bytes := flat_map (escape (str "+")) s.

Fixpoint QueryUnescape (s : bytes) : option bytes :=
  match s with
  | [] => Some []
  | c :: s' =>
      if decide (c = "%"%char) then
        match s' with
        | a :: b :: s'' =>
            x ← hex.unhex a; y ← hex.unhex b;
            cons (ascii_of_N (16 * x + y)) <$> QueryUnescape s''
        | _ => None
        end
      else cons (if decide (c = "+"%char) then " "%char else c) <$> QueryUnescape s'
  end.

(** The pairs of a query in the order of [Encode]: the names sorted. *)
Definition encode_pairs (v : multimap) : list (bytes * bytes) :=
  k ← sort_Strings (map_to_list v).*1; (λ x, (k, x)) <$> default [] (v !! k).
Definition encode_pair (sp : bytes) (p : bytes * bytes) : bytes :=
  flat_map (escape sp) p.1 ++ "="%char :: flat_map (escape sp) p.2.
Definition Values_Encode (v : multimap) : bytes :=
  strings.Join (encode_pair (str "+") <$> encode_pairs v) (str "&").

(** [url.ParseQuery]: a pair that does not parse is left out. *)
Definition parse_pair (p : bytes) : option (bytes * bytes) :=
  if decide (p = []) then None
  else if decide (";"%char ∈ p) then None
  else
    let '(k, x) := match SplitN2 p "="%char with [k; x] => (k, x) | _ => (p, []) end in
    k ← QueryUnescape k; x ← QueryUnescape x; Some (k, x).
Definition add_pair (v : multimap) (p : bytes) : multimap :=
  match parse_pair p with Some (k, x) => multimap_add k x v | None => v end.
Definition ParseQuery (q : bytes) : multimap := foldl add_pair ∅ (strings.Split q "&"%char).

Example query_ex :
  ParseQuery (str "a=1&b=x+y%2F&a=2&;c=1&&d") =
    {[ str "a" := [str "1"; str "2"]; str "b" := [str "x y/"]; str "d" := [[]] ]} /\
  Values_Encode {[ str "b" := [str "x y/"]; str "a" := [str "1"; str "2"] ]} = str "a=1&a=2&b=x+y%2F".
Proof. split; vm_compute; reflexivity. Qed.

Example text_ex :
  Fields (str "  two  words ") = [str "two"; str "words"] /\
  CanonicalHeaderKey (str "x-amz-dATE") = str "X-Amz-Date".
Proof. split; vm_compute; reflexivity. Qed.

(** ** Replacing one byte *)
Lemma Replace_single s c new :
  Replace s [c] new = flat_map (λ x, if decide (x = c) then new else [x]) s.
Proof.
  unfold Replace. induction s as [|x s IH]; [done|]. cbn [Replace_from flat_map].
  replace (HasPrefix (x :: s) [c]) with (bool_decide (x = c)).
  - destruct (decide (x = c)); rewrite ?bool_decide_true, ?bool_decide_false by done; cbn [length Nat.sub]; by rewrite IH.
  - unfold HasPrefix. apply bool_decide_ext. split; [intros ->; by exists s|].
    intros [k E]. by injection E.
Qed.

(** ** Splitting at the first separator *)
Lemma Index_app p c s : c ∉ p -> strings.Index (p ++ c :: s) c = Some (length p).
Proof.
  induction p as [|d p IH]; intros H; simpl; [by rewrite decide_True|].
  apply not_elem_of_cons in H as [H1 H2]. rewrite decide_False by done. by rewrite IH.
Qed.

Lemma SplitN2_app p c s : c ∉ p -> SplitN2 (p ++ c :: s) c = [p; s].
Proof.
  intros H. unfold SplitN2. rewrite Index_app by done. rewrite take_app_length.
  replace (S (length p)) with (length (p ++ [c])) by (rewrite length_app; simpl; lia).
  change (c :: s) with ([c] ++ s). by rewrite app_assoc, drop_app_length.
Qed.

(** ** Escaping *)

(** What holds of every byte can be checked on all of them. *)
Lemma all_bytes (f : ascii -> bool) :
  forallb (λ n, f (ascii_of_nat n)) (seq 0 256) = true -> ∀ c, f c = true.
Proof.
  intros H c. rewrite forallb_forall in H. rewrite <- (ascii_nat_embedding c). apply H, in_seq.
  pose proof (nat_ascii_bounded c). lia.
Qed.

(** The forms a space may take. *)
Definition space_form (sp : bytes) : Prop := sp = str "+" \/ sp = str "%20".

(** The bytes of an escaped string. *)
Definition escaped_byte (c : ascii) : bool := unreserved c || bool_decide (c ∈ str "%+").

Definition unescape_one (c : ascii) : bool :=
  bool_decide (QueryUnescape (escape (str "+") c) = Some [c]) &&
  bool_decide (QueryUnescape (escape (str "%20") c) = Some [c]) &&
  forallb escaped_byte (escape (str "+") c) && forallb escaped_byte (escape (str "%20") c).
Lemma unescape_one_all c : unescape_one c = true.
Proof. revert c. apply all_bytes. vm_compute. reflexivity. Qed.

Lemma escape_shape sp c :
  space_form sp ->
  (∃ d, escape sp c = [d] /\ d <> "%"%char) \/ (∃ a b, escape sp c = ["%"%char; a; b]).
Proof.
  intros Hsp. unfold escape. destruct (unreserved c) eqn:E.
  { left. exists c. split; [done|]. by intros ->. }
  case_decide; [|by eauto]. destruct Hsp as [-> | ->]; [left|right]; by eauto.
Qed.

Lemma unescape_escape_app sp c s :
  space_form sp -> QueryUnescape (escape sp c ++ s) = cons c <$> QueryUnescape s.
Proof.
  intros Hsp. pose proof (unescape_one_all c) as H. unfold unescape_one in H. zbool.
  assert (QueryUnescape (escape sp c) = Some [c]) as Hc by (destruct Hsp as [-> | ->]; done).
  destruct (escape_shape sp c Hsp) as [(d & E & Hd)|(a & b & E)]; rewrite E in *; cbn [app QueryUnescape] in *.
  - rewrite decide_False in * by done. by injection Hc as ->.
  - rewrite decide_True in * by done. destruct (hex.unhex a), (hex.unhex b); try done. simpl in *.
    by injection Hc as ->.
Qed.

Lemma QueryUnescape_escape sp s : space_form sp -> QueryUnescape (flat_map (escape sp) s) = Some s.
Proof.
  intros Hsp. induction s as [|c s IH]; [done|]. cbn [flat_map]. rewrite unescape_escape_app, IH by done. done.
Qed.

Lemma escaped_bytes sp s : space_form sp -> Forall (λ c, escaped_byte c = true) (flat_map (escape sp) s).
Proof.
  intros Hsp. induction s as [|c s IH]; [by constructor|]. cbn [flat_map]. apply Forall_app. split; [|done].
  pose proof (unescape_one_all c) as H. unfold unescape_one in H. zbool. apply Forall_forall. intros x Hx.
  rewrite !forallb_forall in *. rewrite list_elem_of_In in Hx. destruct Hsp as [-> | ->]; eauto.
Qed.

Lemma escaped_not_in sp s c : space_form sp -> escaped_byte c = false -> c ∉ flat_map (escape sp) s.
Proof.
  intros Hsp Hc Hin. pose proof (escaped_bytes sp s Hsp) as H. rewrite Forall_forall in H.
  specialize (H c Hin). congruence.
Qed.

Lemma pair_not_in sp p c :
  space_form sp -> escaped_byte c = false -> c <> "="%char -> c ∉ encode_pair sp p.
Proof.
  intros Hsp Hc Hne. unfold encode_pair. rewrite elem_of_app, elem_of_cons.
  pose proof (escaped_not_in sp p.1 c Hsp Hc). pose proof (escaped_not_in sp p.2 c Hsp Hc). tauto.
Qed.

Lemma parse_pair_encode sp p : space_form sp -> parse_pair (encode_pair sp p) = Some p.
Proof.
  intros Hsp. unfold parse_pair. rewrite decide_False by (unfold encode_pair; by destruct (flat_map _ p.1)).
  rewrite decide_False by (by apply pair_not_in). unfold encode_pair.
  rewrite SplitN2_app by (by apply escaped_not_in). rewrite !QueryUnescape_escape by done. by destruct p.
Qed.

(** ** Parsing inverts encoding *)
Lemma foldl_add_pairs sp ps v :
  space_form sp -> foldl add_pair v (encode_pair sp <$> ps) = foldl (λ v p, multimap_add p.1 p.2 v) v ps.
Proof.
  intros Hsp. revert v. induction ps as [|p ps IH]; intros v; [done|]. cbn [fmap list_fmap foldl].
  unfold add_pair at 2. rewrite parse_pair_encode by done. destruct p as [k x]. apply IH.
Qed.

Lemma foldl_same_key k xs l v :
  v !! k = Some l ->
  foldl (λ v p, multimap_add p.1 p.2 v) v ((λ x, (k, x)) <$> xs) = <[k := l ++ xs]> v.
Proof.
  revert l v. induction xs as [|x xs IH]; intros l v Hk; cbn [fmap list_fmap foldl fst snd].
  - rewrite app_nil_r. symmetry. by apply insert_id.
  - unfold multimap_add at 2. rewrite Hk. cbn [default]. rewrite (IH (l ++ [x])) by apply lookup_insert_eq.
    rewrite insert_insert_eq. by rewrite <- app_assoc.
Qed.

Lemma foldl_new_key k xs v :
  v !! k = None -> xs <> [] ->
  foldl (λ v p, multimap_add p.1 p.2 v) v ((λ x, (k, x)) <$> xs) = <[k := xs]> v.
Proof.
  intros Hk Hne. destruct xs as [|x xs]; [done|]. cbn [fmap list_fmap foldl fst snd].
  unfold multimap_add at 2. rewrite Hk. cbn [default app].
  rewrite (foldl_same_key k xs [x]) by apply lookup_insert_eq. by rewrite insert_insert_eq.
Qed.

Definition no_empty_values (v : multimap) : Prop := ∀ k l, v !! k = Some l -> l <> [].

Lemma foldl_keys (v : multimap) ks acc :
  NoDup ks -> (∀ k, k ∈ ks -> is_Some (v !! k) /\ acc !! k = None) -> no_empty_values v ->
  ∀ j, foldl (λ v p, multimap_add p.1 p.2 v) acc (k ← ks; (λ x, (k, x)) <$> default [] (v !! k)) !! j =
       if decide (j ∈ ks) then v !! j else acc !! j.
Proof.
  intros Hnd Hks Hne. revert acc Hks. induction Hnd as [|k ks Hk Hnd IH]; intros acc Hks j; [done|].
  rewrite bind_cons, foldl_app.
  destruct (Hks k) as [[l Hl] Ha]; [apply elem_of_cons; by left|]. rewrite Hl. cbn [default].
  rewrite foldl_new_key; [|done|by apply (Hne k)]. rewrite IH.
  - destruct (decide (j = k)) as [->|Hj].
    + rewrite decide_False by done. rewrite decide_True by (apply elem_of_cons; by left).
      by rewrite lookup_insert_eq.
    + rewrite lookup_insert_ne by done. destruct (decide (j ∈ ks)).
      * by rewrite decide_True by (apply elem_of_cons; by right).
      * rewrite decide_False; [done|]. rewrite elem_of_cons. tauto.
  - intros i Hi. destruct (Hks i) as [? ?]; [apply elem_of_cons; by right|]. split; [done|].
    rewrite lookup_insert_ne; [done|]. by intros <-.
Qed.

Lemma sort_Strings_perm l : sort_Strings l ≡ₚ l.
Proof. apply merge_sort_Permutation. Qed.

Lemma foldl_encode_pairs v :
  no_empty_values v -> foldl (λ v p, multimap_add p.1 p.2 v) ∅ (encode_pairs v) = v.
Proof.
  intros Hne. apply map_eq. intros j. unfold encode_pairs.
  assert (∀ i, i ∈ sort_Strings (map_to_list v).*1 <-> is_Some (v !! i)) as Hin.
  { intros i. rewrite (sort_Strings_perm _), list_elem_of_fmap. split.
    - intros ([k l] & -> & H). apply elem_of_map_to_list in H. by eexists.
    - intros [l H]. exists (i, l). split; [done|]. by apply elem_of_map_to_list. }
  rewrite foldl_keys; [|rewrite (sort_Strings_perm _); apply NoDup_fst_map_to_list|..|done].
  - destruct (decide _) as [|Hj]; [done|]. rewrite Hin in Hj. rewrite lookup_empty. symmetry.
    by apply eq_None_not_Some.
  - intros k Hk. split; [by apply Hin|apply lookup_empty].
Qed.

(** Parsing an encoded query gives the values back, also when a space was
    written as [%20]. *)
Lemma ParseQuery_encode sp v :
  space_form sp -> no_empty_values v ->
  ParseQuery (strings.Join (encode_pair sp <$> encode_pairs v) (str "&")) = v.
Proof.
  intros Hsp Hne. unfold ParseQuery. pose proof (foldl_encode_pairs v Hne) as Hf.
  destruct (encode_pairs v) as [|p ps] eqn:E; [done|].
  change (str "&") with ["&"%char].
  rewrite strings.Split_Join; [by rewrite foldl_add_pairs|done|].
  apply Forall_fmap, Forall_true. intros q. by apply pair_not_in.
Qed.

(** The values of a parsed query are never empty lists. *)
Lemma ParseQuery_nonempty q : no_empty_values (ParseQuery q).
Proof.
  unfold ParseQuery. generalize (strings.Split q "&"%char). intros ps.
  assert (no_empty_values ∅) as H0 by (intros k l; by rewrite lookup_empty).
  revert H0. generalize (∅ : multimap). induction ps as [|p ps IH]; intros v Hv; [done|].
  cbn [foldl]. apply IH. unfold add_pair. destruct (parse_pair p) as [[k x]|]; [|done].
  unfold multimap_add. intros j l. rewrite lookup_insert_Some. intros [[<- <-]|[_ H]]; [|by eapply Hv].
  by destruct (default [] (v !! k)).
Qed.
