(* ===== verification/Errors.v ===== *)
(** * Errors of the storage and object layers

    The error values the modelled code returns and compares: the sentinel
    errors of cmd/storage-errors.go and cmd/typed-errors.go, the status codes of
    the Kinetic store (cmd/kinetic-errors.go) and the structured errors of
    cmd/object-api-errors.go, with [toKineticError] and [toObjectErr].  A Go
    [error] that may be nil is an [option error]. *)
From S2P Require Import Prelude.

Inductive error : Type :=
  (* sentinels *)
  | errVolumeNotFound | errVolumeNotEmpty | errVolumeExists | errDiskFull
  | errTooManyOpenFiles | errFileAccessDenied | errFileParentIsFile
  | errIsNotRegular | errFileNotFound | errFileNameTooLong | errDataTooLarge
  | errDataTooSmall | errXLReadQuorum | errXLWriteQuorum | errUnexpected
  | errInvalidArgument | errInvalidRange | errCorruptedFormat | errBucketNotEmpty
  | io_EOF | io_ErrUnexpectedEOF | io_ErrShortWrite
  | errAuthentication | errServerNotInitialized | errIAMActionNotAllowed
  | errNoSuchUser | errNoSuchGroup | errGroupNotEmpty | errNoSuchPolicy | errConfigNotFound
  (* pkg/bucket/object/lock *)
  | objectlock_ErrInvalidRetentionDate | objectlock_ErrPastObjectLockRetainDate
  | objectlock_ErrUnknownWORMModeDirective | objectlock_ErrObjectLockMissingContentMD5
  | objectlock_ErrObjectLockInvalidHeaders | objectlock_ErrMalformedXML
  (* encryption and compression: cmd/encryption-v1.go, cmd/object-api-utils.go, cmd/crypto/error.go *)
  | errEncryptedObject | errInvalidSSEParameters | errKMSNotConfigured | errObjectTampered
  | errInvalidEncryptionParameters | errInvalidDecompressedSize
  | crypto_ErrInvalidEncryptionMethod | crypto_ErrInvalidCustomerAlgorithm | crypto_ErrMissingCustomerKey
  | crypto_ErrMissingCustomerKeyMD5 | crypto_ErrInvalidCustomerKey | crypto_ErrSecretKeyMismatch
  | crypto_ErrCustomerKeyMD5Mismatch | crypto_ErrIncompatibleEncryptionMethod | crypto_Error (msg : bytes)
  (* kinetic-errors.go *)
  | errKineticNotFound | errKineticVersionMismatch | errKineticAuthorizationFailure
  | errKineticNoSpace | errKineticFrozen | errKineticMediaFault
  | errKineticInvalidError
  (* errors built with errors.New or fmt.Errorf at the place of use *)
  | errText (msg : bytes)
  (* pkg/hash/errors.go *)
  | SHA256Mismatch (expected calculated : bytes) | BadDigest (expected calculated : bytes)
  (* a decoding error of encoding/json *)
  | errJSON
  (* errors of encoding/xml, net/url and of the packages under pkg/bucket *)
  | xml_SyntaxError (msg : bytes) | url_EscapeError (msg : bytes)
  | lifecycle_Error (msg : bytes) | tagging_Error (code msg : bytes) | policy_Error (msg : bytes)
  (* object-api-errors.go *)
  | BucketNotFound (bucket : bytes) | BucketNotEmpty (bucket : bytes)
  | BucketExists (bucket : bytes) | BucketNameInvalid (bucket : bytes)
  | StorageFull | SlowDown | InsufficientReadQuorum | InsufficientWriteQuorum
  | IncompleteBody | NotImplemented | OperationTimedOut | PreConditionFailed
  | PrefixAccessDenied (bucket object : bytes) | ParentIsObject (bucket object : bytes)
  | ObjectExistsAsDirectory (bucket object : bytes) | ObjectNotFound (bucket object : bytes)
  | InvalidUploadID (bucket object uploadID : bytes)
  | ObjectNameInvalid (bucket object : bytes) | ObjectNameTooLong (bucket object : bytes)
  | ObjectNamePrefixAsSlash (bucket object : bytes)
  | ObjectTooLarge (bucket object : bytes) | ObjectTooSmall (bucket object : bytes)
  | InvalidMarkerPrefixCombination (marker prefix : bytes)
  | InvalidRange (offsetBegin offsetEnd resourceSize : Z)
  | InvalidPart (partNumber : Z) (expETag gotETag : bytes)
  | PartTooSmall (partSize partNumber : Z) (partETag : bytes)
  | BucketPolicyNotFound (bucket : bytes) | BucketLifecycleNotFound (bucket : bytes).

#[export] Instance error_eq_dec : EqDecision error.
Proof. solve_decision. Defined.

(** ** kinetic-errors.go *)
Module KineticError.

(** The values of the [iota] constants of type [KineticError]. *)
Definition SUCCESS : Z := 0.
Definition NOT_FOUND : Z := 1.
Definition VERSION_MISMATCH : Z := 2.
Definition AUTHORIZATION_FAILURE : Z := 3.
Definition NO_SPACE : Z := 4.
Definition FROZEN : Z := 5.
Definition MEDIA_FAULT : Z := 6.

Definition toKineticError (err : Z) : option error :=
  if err =? SUCCESS then None
  else if err =? NOT_FOUND then Some errKineticNotFound
  else if err =? VERSION_MISMATCH then Some errKineticVersionMismatch
  else if err =? AUTHORIZATION_FAILURE then Some errKineticAuthorizationFailure
  else if err =? NO_SPACE then Some errKineticNoSpace
  else if err =? FROZEN then Some errKineticFrozen
  else if err =? MEDIA_FAULT then Some errKineticMediaFault
  else Some errKineticInvalidError.

Lemma toKineticError_None s : toKineticError s = None <-> s = 0.
Proof. unfold toKineticError. split; [|by intros ->]. repeat dmatch; intros; zbool; done. Qed.

Lemma toKineticError_0 : toKineticError 0 = None.
Proof. done. Qed.

Lemma toKineticError_nonzero s : s <> 0 -> exists e, toKineticError s = Some e.
Proof.
  intros H. destruct (toKineticError s) as [e|] eqn:E; [eauto|].
  by apply toKineticError_None in E.
Qed.

End KineticError.
Export KineticError.

(** ** object-api-errors.go *)

(** [toObjectErr err params...]: storage errors become object-layer errors;
    every other value, nil included, is returned unchanged. *)
Definition toObjectErr (err : option error) (params : list bytes) : option error :=
  match err with
  | Some e =>
      Some match e, params with
      | errVolumeNotFound, b :: _ => BucketNotFound b
      | errVolumeNotEmpty, b :: _ => BucketNotEmpty b
      | errVolumeExists, b :: _ => BucketExists b
      | errDiskFull, _ => StorageFull
      | errTooManyOpenFiles, _ => SlowDown
      | errFileAccessDenied, b :: o :: _ => PrefixAccessDenied b o
      | errFileParentIsFile, b :: o :: _ => ParentIsObject b o
      | errIsNotRegular, b :: o :: _ => ObjectExistsAsDirectory b o
      | errFileNotFound, [b; o] => ObjectNotFound b o
      | errFileNotFound, [b; o; u] => InvalidUploadID b o u
      | errFileNameTooLong, b :: o :: _ => ObjectNameInvalid b o
      | errDataTooLarge, b :: o :: _ => ObjectTooLarge b o
      | errDataTooSmall, b :: o :: _ => ObjectTooSmall b o
      | errXLReadQuorum, _ => InsufficientReadQuorum
      | errXLWriteQuorum, _ => InsufficientWriteQuorum
      | io_ErrUnexpectedEOF, _ => IncompleteBody
      | io_ErrShortWrite, _ => IncompleteBody
      | e, _ => e
      end
  | None => None
  end.

(** Translation never turns a failure into a success or the other way. *)
Lemma toObjectErr_None err ps : toObjectErr err ps = None <-> err = None.
Proof. by destruct err. Qed.

Lemma toObjectErr_Some e ps : exists e', toObjectErr (Some e) ps = Some e'.
Proof. simpl. eauto. Qed.
