(* ===== verification/APIErrors.v ===== *)
(** * cmd/api-errors.go: the errors of the S3 interface

    The codes in the order of the source, the table of the responses, and the
    translation of the errors of the lower layers.  [errorCodes] is the Go map
    literal, entry by entry. *)
From S2P Require Import Prelude GoLib Errors.

Inductive APIErrorCode : Type :=
  | ErrNone | ErrAccessDenied | ErrBadDigest | ErrEntityTooSmall | ErrEntityTooLarge
  | ErrPolicyTooLarge | ErrIncompleteBody | ErrInternalError | ErrInvalidAccessKeyID
  | ErrInvalidBucketName | ErrInvalidDigest | ErrInvalidRange | ErrInvalidCopyPartRange
  | ErrInvalidCopyPartRangeSource | ErrInvalidMaxKeys | ErrInvalidEncodingMethod
  | ErrInvalidMaxUploads | ErrInvalidMaxParts | ErrInvalidPartNumberMarker
  | ErrInvalidRequestBody | ErrInvalidCopySource | ErrInvalidMetadataDirective
  | ErrInvalidCopyDest | ErrInvalidPolicyDocument | ErrInvalidObjectState | ErrMalformedXML
  | ErrMissingContentLength | ErrMissingContentMD5 | ErrMissingRequestBodyError
  | ErrMissingSecurityHeader | ErrNoSuchBucket | ErrNoSuchBucketPolicy
  | ErrNoSuchBucketLifecycle | ErrNoSuchLifecycleConfiguration | ErrNoSuchBucketSSEConfig
  | ErrNoSuchKey | ErrNoSuchUpload | ErrNoSuchVersion | ErrNotImplemented
  | ErrPreconditionFailed | ErrRequestTimeTooSkewed | ErrSignatureDoesNotMatch
  | ErrMethodNotAllowed | ErrInvalidPart | ErrInvalidPartOrder
  | ErrAuthorizationHeaderMalformed | ErrMalformedPOSTRequest | ErrPOSTFileRequired
  | ErrSignatureVersionNotSupported | ErrBucketNotEmpty | ErrAllAccessDisabled
  | ErrMalformedPolicy | ErrMissingFields | ErrMissingCredTag | ErrCredMalformed
  | ErrInvalidRegion | ErrInvalidService | ErrInvalidRequestVersion | ErrMissingSignTag
  | ErrMissingSignHeadersTag | ErrMalformedDate | ErrMalformedPresignedDate
  | ErrMalformedCredentialDate | ErrMalformedCredentialRegion | ErrMalformedExpires
  | ErrNegativeExpires | ErrAuthHeaderEmpty | ErrExpiredPresignRequest | ErrRequestNotReadyYet
  | ErrUnsignedHeaders | ErrMissingDateHeader | ErrInvalidQuerySignatureAlgo
  | ErrInvalidQueryParams | ErrBucketAlreadyOwnedByYou | ErrInvalidDuration
  | ErrBucketAlreadyExists | ErrMetadataTooLarge | ErrUnsupportedMetadata | ErrMaximumExpires
  | ErrSlowDown | ErrInvalidPrefixMarker | ErrBadRequest | ErrKeyTooLongError
  | ErrInvalidBucketObjectLockConfiguration | ErrObjectLockConfigurationNotAllowed
  | ErrNoSuchObjectLockConfiguration | ErrObjectLocked | ErrInvalidRetentionDate
  | ErrPastObjectLockRetainDate | ErrUnknownWORMModeDirective | ErrObjectLockInvalidHeaders
  | ErrInvalidTagDirective | ErrInvalidEncryptionMethod | ErrInsecureSSECustomerRequest
  | ErrSSEMultipartEncrypted | ErrSSEEncryptedObject | ErrInvalidEncryptionParameters
  | ErrInvalidSSECustomerAlgorithm | ErrInvalidSSECustomerKey | ErrMissingSSECustomerKey
  | ErrMissingSSECustomerKeyMD5 | ErrSSECustomerKeyMD5Mismatch
  | ErrInvalidSSECustomerParameters | ErrIncompatibleEncryptionMethod | ErrKMSNotConfigured
  | ErrKMSAuthFailure | ErrNoAccessKey | ErrInvalidToken | ErrEventNotification
  | ErrARNNotification | ErrRegionNotification | ErrOverlappingFilterNotification
  | ErrFilterNameInvalid | ErrFilterNamePrefix | ErrFilterNameSuffix | ErrFilterValueInvalid
  | ErrOverlappingConfigs | ErrUnsupportedNotification | ErrContentSHA256Mismatch
  | ErrReadQuorum | ErrWriteQuorum | ErrParentIsObject | ErrStorageFull | ErrRequestBodyParse
  | ErrObjectExistsAsDirectory | ErrInvalidObjectName | ErrInvalidObjectNamePrefixSlash
  | ErrInvalidResourceName | ErrServerNotInitialized | ErrOperationTimedOut | ErrInvalidRequest
  | ErrInvalidStorageClass | ErrBackendDown | ErrMalformedJSON | ErrAdminNoSuchUser
  | ErrAdminNoSuchGroup | ErrAdminGroupNotEmpty | ErrAdminNoSuchPolicy
  | ErrAdminInvalidArgument | ErrAdminInvalidAccessKey | ErrAdminInvalidSecretKey
  | ErrAdminConfigNoQuorum | ErrAdminConfigTooLarge | ErrAdminConfigBadJSON
  | ErrAdminConfigDuplicateKeys | ErrAdminCredentialsMismatch | ErrInsecureClientRequest
  | ErrObjectTampered | ErrHealNotImplemented | ErrHealNoSuchProcess
  | ErrHealInvalidClientToken | ErrHealMissingBucket | ErrHealAlreadyRunning
  | ErrHealOverlappingPaths | ErrIncorrectContinuationToken | ErrEmptyRequestBody
  | ErrUnsupportedFunction | ErrInvalidExpressionType | ErrBusy | ErrUnauthorizedAccess
  | ErrExpressionTooLong | ErrIllegalSQLFunctionArgument | ErrInvalidKeyPath
  | ErrInvalidCompressionFormat | ErrInvalidFileHeaderInfo | ErrInvalidJSONType
  | ErrInvalidQuoteFields | ErrInvalidRequestParameter | ErrInvalidDataType
  | ErrInvalidTextEncoding | ErrInvalidDataSource | ErrInvalidTableAlias
  | ErrMissingRequiredParameter | ErrObjectSerializationConflict | ErrUnsupportedSQLOperation
  | ErrUnsupportedSQLStructure | ErrUnsupportedSyntax | ErrUnsupportedRangeHeader
  | ErrLexerInvalidChar | ErrLexerInvalidOperator | ErrLexerInvalidLiteral
  | ErrLexerInvalidIONLiteral | ErrParseExpectedDatePart | ErrParseExpectedKeyword
  | ErrParseExpectedTokenType | ErrParseExpected2TokenTypes | ErrParseExpectedNumber
  | ErrParseExpectedRightParenBuiltinFunctionCall | ErrParseExpectedTypeName
  | ErrParseExpectedWhenClause | ErrParseUnsupportedToken | ErrParseUnsupportedLiteralsGroupBy
  | ErrParseExpectedMember | ErrParseUnsupportedSelect | ErrParseUnsupportedCase
  | ErrParseUnsupportedCaseClause | ErrParseUnsupportedAlias | ErrParseUnsupportedSyntax
  | ErrParseUnknownOperator | ErrParseMissingIdentAfterAt | ErrParseUnexpectedOperator
  | ErrParseUnexpectedTerm | ErrParseUnexpectedToken | ErrParseUnexpectedKeyword
  | ErrParseExpectedExpression | ErrParseExpectedLeftParenAfterCast
  | ErrParseExpectedLeftParenValueConstructor | ErrParseExpectedLeftParenBuiltinFunctionCall
  | ErrParseExpectedArgumentDelimiter | ErrParseCastArity | ErrParseInvalidTypeParam
  | ErrParseEmptySelect | ErrParseSelectMissingFrom | ErrParseExpectedIdentForGroupName
  | ErrParseExpectedIdentForAlias | ErrParseUnsupportedCallWithStar
  | ErrParseNonUnaryAgregateFunctionCall | ErrParseMalformedJoin | ErrParseExpectedIdentForAt
  | ErrParseAsteriskIsNotAloneInSelectList | ErrParseCannotMixSqbAndWildcardInSelectList
  | ErrParseInvalidContextForWildcardInSelectList | ErrIncorrectSQLFunctionArgumentType
  | ErrValueParseFailure | ErrEvaluatorInvalidArguments | ErrIntegerOverflow
  | ErrLikeInvalidInputs | ErrCastFailed | ErrInvalidCast
  | ErrEvaluatorInvalidTimestampFormatPattern
  | ErrEvaluatorInvalidTimestampFormatPatternSymbolForParsing
  | ErrEvaluatorTimestampFormatPatternDuplicateFields
  | ErrEvaluatorTimestampFormatPatternHourClockAmPmMismatch
  | ErrEvaluatorUnterminatedTimestampFormatPatternToken
  | ErrEvaluatorInvalidTimestampFormatPatternToken
  | ErrEvaluatorInvalidTimestampFormatPatternSymbol | ErrEvaluatorBindingDoesNotExist
  | ErrMissingHeaders | ErrInvalidColumnIndex | ErrAdminConfigNotificationTargetsFailed
  | ErrAdminProfilerNotEnabled | ErrInvalidDecompressedSize | ErrAddUserInvalidArgument
  | ErrPostPolicyConditionInvalidFormat | ErrFileNotFound.

(** The [iota] value of a code, and that codes are compared by it. *)
Definition allAPIErrorCodes : list APIErrorCode :=
  [ErrNone; ErrAccessDenied; ErrBadDigest; ErrEntityTooSmall; ErrEntityTooLarge;
   ErrPolicyTooLarge; ErrIncompleteBody; ErrInternalError; ErrInvalidAccessKeyID;
   ErrInvalidBucketName; ErrInvalidDigest; ErrInvalidRange; ErrInvalidCopyPartRange;
   ErrInvalidCopyPartRangeSource; ErrInvalidMaxKeys; ErrInvalidEncodingMethod;
   ErrInvalidMaxUploads; ErrInvalidMaxParts; ErrInvalidPartNumberMarker; ErrInvalidRequestBody;
   ErrInvalidCopySource; ErrInvalidMetadataDirective; ErrInvalidCopyDest;
   ErrInvalidPolicyDocument; ErrInvalidObjectState; ErrMalformedXML; ErrMissingContentLength;
   ErrMissingContentMD5; ErrMissingRequestBodyError; ErrMissingSecurityHeader; ErrNoSuchBucket;
   ErrNoSuchBucketPolicy; ErrNoSuchBucketLifecycle; ErrNoSuchLifecycleConfiguration;
   ErrNoSuchBucketSSEConfig; ErrNoSuchKey; ErrNoSuchUpload; ErrNoSuchVersion;
   ErrNotImplemented; ErrPreconditionFailed; ErrRequestTimeTooSkewed; ErrSignatureDoesNotMatch;
   ErrMethodNotAllowed; ErrInvalidPart; ErrInvalidPartOrder; ErrAuthorizationHeaderMalformed;
   ErrMalformedPOSTRequest; ErrPOSTFileRequired; ErrSignatureVersionNotSupported;
   ErrBucketNotEmpty; ErrAllAccessDisabled; ErrMalformedPolicy; ErrMissingFields;
   ErrMissingCredTag; ErrCredMalformed; ErrInvalidRegion; ErrInvalidService;
   ErrInvalidRequestVersion; ErrMissingSignTag; ErrMissingSignHeadersTag; ErrMalformedDate;
   ErrMalformedPresignedDate; ErrMalformedCredentialDate; ErrMalformedCredentialRegion;
   ErrMalformedExpires; ErrNegativeExpires; ErrAuthHeaderEmpty; ErrExpiredPresignRequest;
   ErrRequestNotReadyYet; ErrUnsignedHeaders; ErrMissingDateHeader;
   ErrInvalidQuerySignatureAlgo; ErrInvalidQueryParams; ErrBucketAlreadyOwnedByYou;
   ErrInvalidDuration; ErrBucketAlreadyExists; ErrMetadataTooLarge; ErrUnsupportedMetadata;
   ErrMaximumExpires; ErrSlowDown; ErrInvalidPrefixMarker; ErrBadRequest; ErrKeyTooLongError;
   ErrInvalidBucketObjectLockConfiguration; ErrObjectLockConfigurationNotAllowed;
   ErrNoSuchObjectLockConfiguration; ErrObjectLocked; ErrInvalidRetentionDate;
   ErrPastObjectLockRetainDate; ErrUnknownWORMModeDirective; ErrObjectLockInvalidHeaders;
   ErrInvalidTagDirective; ErrInvalidEncryptionMethod; ErrInsecureSSECustomerRequest;
   ErrSSEMultipartEncrypted; ErrSSEEncryptedObject; ErrInvalidEncryptionParameters;
   ErrInvalidSSECustomerAlgorithm; ErrInvalidSSECustomerKey; ErrMissingSSECustomerKey;
   ErrMissingSSECustomerKeyMD5; ErrSSECustomerKeyMD5Mismatch; ErrInvalidSSECustomerParameters;
   ErrIncompatibleEncryptionMethod; ErrKMSNotConfigured; ErrKMSAuthFailure; ErrNoAccessKey;
   ErrInvalidToken; ErrEventNotification; ErrARNNotification; ErrRegionNotification;
   ErrOverlappingFilterNotification; ErrFilterNameInvalid; ErrFilterNamePrefix;
   ErrFilterNameSuffix; ErrFilterValueInvalid; ErrOverlappingConfigs;
   ErrUnsupportedNotification; ErrContentSHA256Mismatch; ErrReadQuorum; ErrWriteQuorum;
   ErrParentIsObject; ErrStorageFull; ErrRequestBodyParse; ErrObjectExistsAsDirectory;
   ErrInvalidObjectName; ErrInvalidObjectNamePrefixSlash; ErrInvalidResourceName;
   ErrServerNotInitialized; ErrOperationTimedOut; ErrInvalidRequest; ErrInvalidStorageClass;
   ErrBackendDown; ErrMalformedJSON; ErrAdminNoSuchUser; ErrAdminNoSuchGroup;
   ErrAdminGroupNotEmpty; ErrAdminNoSuchPolicy; ErrAdminInvalidArgument;
   ErrAdminInvalidAccessKey; ErrAdminInvalidSecretKey; ErrAdminConfigNoQuorum;
   ErrAdminConfigTooLarge; ErrAdminConfigBadJSON; ErrAdminConfigDuplicateKeys;
   ErrAdminCredentialsMismatch; ErrInsecureClientRequest; ErrObjectTampered;
   ErrHealNotImplemented; ErrHealNoSuchProcess; ErrHealInvalidClientToken;
   ErrHealMissingBucket; ErrHealAlreadyRunning; ErrHealOverlappingPaths;
   ErrIncorrectContinuationToken; ErrEmptyRequestBody; ErrUnsupportedFunction;
   ErrInvalidExpressionType; ErrBusy; ErrUnauthorizedAccess; ErrExpressionTooLong;
   ErrIllegalSQLFunctionArgument; ErrInvalidKeyPath; ErrInvalidCompressionFormat;
   ErrInvalidFileHeaderInfo; ErrInvalidJSONType; ErrInvalidQuoteFields;
   ErrInvalidRequestParameter; ErrInvalidDataType; ErrInvalidTextEncoding;
   ErrInvalidDataSource; ErrInvalidTableAlias; ErrMissingRequiredParameter;
   ErrObjectSerializationConflict; ErrUnsupportedSQLOperation; ErrUnsupportedSQLStructure;
   ErrUnsupportedSyntax; ErrUnsupportedRangeHeader; ErrLexerInvalidChar;
   ErrLexerInvalidOperator; ErrLexerInvalidLiteral; ErrLexerInvalidIONLiteral;
   ErrParseExpectedDatePart; ErrParseExpectedKeyword; ErrParseExpectedTokenType;
   ErrParseExpected2TokenTypes; ErrParseExpectedNumber;
   ErrParseExpectedRightParenBuiltinFunctionCall; ErrParseExpectedTypeName;
   ErrParseExpectedWhenClause; ErrParseUnsupportedToken; ErrParseUnsupportedLiteralsGroupBy;
   ErrParseExpectedMember; ErrParseUnsupportedSelect; ErrParseUnsupportedCase;
   ErrParseUnsupportedCaseClause; ErrParseUnsupportedAlias; ErrParseUnsupportedSyntax;
   ErrParseUnknownOperator; ErrParseMissingIdentAfterAt; ErrParseUnexpectedOperator;
   ErrParseUnexpectedTerm; ErrParseUnexpectedToken; ErrParseUnexpectedKeyword;
   ErrParseExpectedExpression; ErrParseExpectedLeftParenAfterCast;
   ErrParseExpectedLeftParenValueConstructor; ErrParseExpectedLeftParenBuiltinFunctionCall;
   ErrParseExpectedArgumentDelimiter; ErrParseCastArity; ErrParseInvalidTypeParam;
   ErrParseEmptySelect; ErrParseSelectMissingFrom; ErrParseExpectedIdentForGroupName;
   ErrParseExpectedIdentForAlias; ErrParseUnsupportedCallWithStar;
   ErrParseNonUnaryAgregateFunctionCall; ErrParseMalformedJoin; ErrParseExpectedIdentForAt;
   ErrParseAsteriskIsNotAloneInSelectList; ErrParseCannotMixSqbAndWildcardInSelectList;
   ErrParseInvalidContextForWildcardInSelectList; ErrIncorrectSQLFunctionArgumentType;
   ErrValueParseFailure; ErrEvaluatorInvalidArguments; ErrIntegerOverflow;
   ErrLikeInvalidInputs; ErrCastFailed; ErrInvalidCast;
   ErrEvaluatorInvalidTimestampFormatPattern;
   ErrEvaluatorInvalidTimestampFormatPatternSymbolForParsing;
   ErrEvaluatorTimestampFormatPatternDuplicateFields;
   ErrEvaluatorTimestampFormatPatternHourClockAmPmMismatch;
   ErrEvaluatorUnterminatedTimestampFormatPatternToken;
   ErrEvaluatorInvalidTimestampFormatPatternToken;
   ErrEvaluatorInvalidTimestampFormatPatternSymbol; ErrEvaluatorBindingDoesNotExist;
   ErrMissingHeaders; ErrInvalidColumnIndex; ErrAdminConfigNotificationTargetsFailed;
   ErrAdminProfilerNotEnabled; ErrInvalidDecompressedSize; ErrAddUserInvalidArgument;
   ErrPostPolicyConditionInvalidFormat; ErrFileNotFound].
Definition APIErrorCode_iota (c : APIErrorCode) : nat :=
  match c with
  | ErrNone => 0 | ErrAccessDenied => 1 | ErrBadDigest => 2 | ErrEntityTooSmall => 3
  | ErrEntityTooLarge => 4 | ErrPolicyTooLarge => 5 | ErrIncompleteBody => 6
  | ErrInternalError => 7 | ErrInvalidAccessKeyID => 8 | ErrInvalidBucketName => 9
  | ErrInvalidDigest => 10 | ErrInvalidRange => 11 | ErrInvalidCopyPartRange => 12
  | ErrInvalidCopyPartRangeSource => 13 | ErrInvalidMaxKeys => 14
  | ErrInvalidEncodingMethod => 15 | ErrInvalidMaxUploads => 16 | ErrInvalidMaxParts => 17
  | ErrInvalidPartNumberMarker => 18 | ErrInvalidRequestBody => 19 | ErrInvalidCopySource => 20
  | ErrInvalidMetadataDirective => 21 | ErrInvalidCopyDest => 22
  | ErrInvalidPolicyDocument => 23 | ErrInvalidObjectState => 24 | ErrMalformedXML => 25
  | ErrMissingContentLength => 26 | ErrMissingContentMD5 => 27
  | ErrMissingRequestBodyError => 28 | ErrMissingSecurityHeader => 29 | ErrNoSuchBucket => 30
  | ErrNoSuchBucketPolicy => 31 | ErrNoSuchBucketLifecycle => 32
  | ErrNoSuchLifecycleConfiguration => 33 | ErrNoSuchBucketSSEConfig => 34 | ErrNoSuchKey => 35
  | ErrNoSuchUpload => 36 | ErrNoSuchVersion => 37 | ErrNotImplemented => 38
  | ErrPreconditionFailed => 39 | ErrRequestTimeTooSkewed => 40
  | ErrSignatureDoesNotMatch => 41 | ErrMethodNotAllowed => 42 | ErrInvalidPart => 43
  | ErrInvalidPartOrder => 44 | ErrAuthorizationHeaderMalformed => 45
  | ErrMalformedPOSTRequest => 46 | ErrPOSTFileRequired => 47
  | ErrSignatureVersionNotSupported => 48 | ErrBucketNotEmpty => 49
  | ErrAllAccessDisabled => 50 | ErrMalformedPolicy => 51 | ErrMissingFields => 52
  | ErrMissingCredTag => 53 | ErrCredMalformed => 54 | ErrInvalidRegion => 55
  | ErrInvalidService => 56 | ErrInvalidRequestVersion => 57 | ErrMissingSignTag => 58
  | ErrMissingSignHeadersTag => 59 | ErrMalformedDate => 60 | ErrMalformedPresignedDate => 61
  | ErrMalformedCredentialDate => 62 | ErrMalformedCredentialRegion => 63
  | ErrMalformedExpires => 64 | ErrNegativeExpires => 65 | ErrAuthHeaderEmpty => 66
  | ErrExpiredPresignRequest => 67 | ErrRequestNotReadyYet => 68 | ErrUnsignedHeaders => 69
  | ErrMissingDateHeader => 70 | ErrInvalidQuerySignatureAlgo => 71
  | ErrInvalidQueryParams => 72 | ErrBucketAlreadyOwnedByYou => 73 | ErrInvalidDuration => 74
  | ErrBucketAlreadyExists => 75 | ErrMetadataTooLarge => 76 | ErrUnsupportedMetadata => 77
  | ErrMaximumExpires => 78 | ErrSlowDown => 79 | ErrInvalidPrefixMarker => 80
  | ErrBadRequest => 81 | ErrKeyTooLongError => 82
  | ErrInvalidBucketObjectLockConfiguration => 83 | ErrObjectLockConfigurationNotAllowed => 84
  | ErrNoSuchObjectLockConfiguration => 85 | ErrObjectLocked => 86
  | ErrInvalidRetentionDate => 87 | ErrPastObjectLockRetainDate => 88
  | ErrUnknownWORMModeDirective => 89 | ErrObjectLockInvalidHeaders => 90
  | ErrInvalidTagDirective => 91 | ErrInvalidEncryptionMethod => 92
  | ErrInsecureSSECustomerRequest => 93 | ErrSSEMultipartEncrypted => 94
  | ErrSSEEncryptedObject => 95 | ErrInvalidEncryptionParameters => 96
  | ErrInvalidSSECustomerAlgorithm => 97 | ErrInvalidSSECustomerKey => 98
  | ErrMissingSSECustomerKey => 99 | ErrMissingSSECustomerKeyMD5 => 100
  | ErrSSECustomerKeyMD5Mismatch => 101 | ErrInvalidSSECustomerParameters => 102
  | ErrIncompatibleEncryptionMethod => 103 | ErrKMSNotConfigured => 104
  | ErrKMSAuthFailure => 105 | ErrNoAccessKey => 106 | ErrInvalidToken => 107
  | ErrEventNotification => 108 | ErrARNNotification => 109 | ErrRegionNotification => 110
  | ErrOverlappingFilterNotification => 111 | ErrFilterNameInvalid => 112
  | ErrFilterNamePrefix => 113 | ErrFilterNameSuffix => 114 | ErrFilterValueInvalid => 115
  | ErrOverlappingConfigs => 116 | ErrUnsupportedNotification => 117
  | ErrContentSHA256Mismatch => 118 | ErrReadQuorum => 119 | ErrWriteQuorum => 120
  | ErrParentIsObject => 121 | ErrStorageFull => 122 | ErrRequestBodyParse => 123
  | ErrObjectExistsAsDirectory => 124 | ErrInvalidObjectName => 125
  | ErrInvalidObjectNamePrefixSlash => 126 | ErrInvalidResourceName => 127
  | ErrServerNotInitialized => 128 | ErrOperationTimedOut => 129 | ErrInvalidRequest => 130
  | ErrInvalidStorageClass => 131 | ErrBackendDown => 132 | ErrMalformedJSON => 133
  | ErrAdminNoSuchUser => 134 | ErrAdminNoSuchGroup => 135 | ErrAdminGroupNotEmpty => 136
  | ErrAdminNoSuchPolicy => 137 | ErrAdminInvalidArgument => 138
  | ErrAdminInvalidAccessKey => 139 | ErrAdminInvalidSecretKey => 140
  | ErrAdminConfigNoQuorum => 141 | ErrAdminConfigTooLarge => 142
  | ErrAdminConfigBadJSON => 143 | ErrAdminConfigDuplicateKeys => 144
  | ErrAdminCredentialsMismatch => 145 | ErrInsecureClientRequest => 146
  | ErrObjectTampered => 147 | ErrHealNotImplemented => 148 | ErrHealNoSuchProcess => 149
  | ErrHealInvalidClientToken => 150 | ErrHealMissingBucket => 151
  | ErrHealAlreadyRunning => 152 | ErrHealOverlappingPaths => 153
  | ErrIncorrectContinuationToken => 154 | ErrEmptyRequestBody => 155
  | ErrUnsupportedFunction => 156 | ErrInvalidExpressionType => 157 | ErrBusy => 158
  | ErrUnauthorizedAccess => 159 | ErrExpressionTooLong => 160
  | ErrIllegalSQLFunctionArgument => 161 | ErrInvalidKeyPath => 162
  | ErrInvalidCompressionFormat => 163 | ErrInvalidFileHeaderInfo => 164
  | ErrInvalidJSONType => 165 | ErrInvalidQuoteFields => 166
  | ErrInvalidRequestParameter => 167 | ErrInvalidDataType => 168
  | ErrInvalidTextEncoding => 169 | ErrInvalidDataSource => 170 | ErrInvalidTableAlias => 171
  | ErrMissingRequiredParameter => 172 | ErrObjectSerializationConflict => 173
  | ErrUnsupportedSQLOperation => 174 | ErrUnsupportedSQLStructure => 175
  | ErrUnsupportedSyntax => 176 | ErrUnsupportedRangeHeader => 177 | ErrLexerInvalidChar => 178
  | ErrLexerInvalidOperator => 179 | ErrLexerInvalidLiteral => 180
  | ErrLexerInvalidIONLiteral => 181 | ErrParseExpectedDatePart => 182
  | ErrParseExpectedKeyword => 183 | ErrParseExpectedTokenType => 184
  | ErrParseExpected2TokenTypes => 185 | ErrParseExpectedNumber => 186
  | ErrParseExpectedRightParenBuiltinFunctionCall => 187 | ErrParseExpectedTypeName => 188
  | ErrParseExpectedWhenClause => 189 | ErrParseUnsupportedToken => 190
  | ErrParseUnsupportedLiteralsGroupBy => 191 | ErrParseExpectedMember => 192
  | ErrParseUnsupportedSelect => 193 | ErrParseUnsupportedCase => 194
  | ErrParseUnsupportedCaseClause => 195 | ErrParseUnsupportedAlias => 196
  | ErrParseUnsupportedSyntax => 197 | ErrParseUnknownOperator => 198
  | ErrParseMissingIdentAfterAt => 199 | ErrParseUnexpectedOperator => 200
  | ErrParseUnexpectedTerm => 201 | ErrParseUnexpectedToken => 202
  | ErrParseUnexpectedKeyword => 203 | ErrParseExpectedExpression => 204
  | ErrParseExpectedLeftParenAfterCast => 205
  | ErrParseExpectedLeftParenValueConstructor => 206
  | ErrParseExpectedLeftParenBuiltinFunctionCall => 207
  | ErrParseExpectedArgumentDelimiter => 208 | ErrParseCastArity => 209
  | ErrParseInvalidTypeParam => 210 | ErrParseEmptySelect => 211
  | ErrParseSelectMissingFrom => 212 | ErrParseExpectedIdentForGroupName => 213
  | ErrParseExpectedIdentForAlias => 214 | ErrParseUnsupportedCallWithStar => 215
  | ErrParseNonUnaryAgregateFunctionCall => 216 | ErrParseMalformedJoin => 217
  | ErrParseExpectedIdentForAt => 218 | ErrParseAsteriskIsNotAloneInSelectList => 219
  | ErrParseCannotMixSqbAndWildcardInSelectList => 220
  | ErrParseInvalidContextForWildcardInSelectList => 221
  | ErrIncorrectSQLFunctionArgumentType => 222 | ErrValueParseFailure => 223
  | ErrEvaluatorInvalidArguments => 224 | ErrIntegerOverflow => 225
  | ErrLikeInvalidInputs => 226 | ErrCastFailed => 227 | ErrInvalidCast => 228
  | ErrEvaluatorInvalidTimestampFormatPattern => 229
  | ErrEvaluatorInvalidTimestampFormatPatternSymbolForParsing => 230
  | ErrEvaluatorTimestampFormatPatternDuplicateFields => 231
  | ErrEvaluatorTimestampFormatPatternHourClockAmPmMismatch => 232
  | ErrEvaluatorUnterminatedTimestampFormatPatternToken => 233
  | ErrEvaluatorInvalidTimestampFormatPatternToken => 234
  | ErrEvaluatorInvalidTimestampFormatPatternSymbol => 235
  | ErrEvaluatorBindingDoesNotExist => 236 | ErrMissingHeaders => 237
  | ErrInvalidColumnIndex => 238 | ErrAdminConfigNotificationTargetsFailed => 239
  | ErrAdminProfilerNotEnabled => 240 | ErrInvalidDecompressedSize => 241
  | ErrAddUserInvalidArgument => 242 | ErrPostPolicyConditionInvalidFormat => 243
  | ErrFileNotFound => 244
  end%nat.

Lemma iota_lookup c : allAPIErrorCodes !! APIErrorCode_iota c = Some c.
Proof. by destruct c. Qed.
#[export] Instance APIErrorCode_iota_inj : Inj (=) (=) APIErrorCode_iota.
Proof. intros c d E. pose proof (iota_lookup c) as H. rewrite E, iota_lookup in H. by injection H. Qed.
#[export] Instance APIErrorCode_eq_dec : EqDecision APIErrorCode.
Proof.
  refine (λ c d, cast_if (decide (APIErrorCode_iota c = APIErrorCode_iota d))); [by apply (inj _)|congruence].
Defined.

Record APIError := mkAPIError { Code : bytes; Description : bytes; HTTPStatusCode : Z }.

Definition quote : ascii := ascii_of_N 34.

(** The first of two partial tables that has an entry. *)
Definition or_else (a b : option APIError) : option APIError := match a with Some e => Some e | None => b end.

(** The codes of S3. *)
Definition errorCodes_S3_1 (c : APIErrorCode) : option APIError :=
  match c with
  | ErrInvalidCopyDest => Some (mkAPIError (str "InvalidRequest")
      (str "This copy request is illegal because it is trying to copy an object to itself without changing the object's metadata, storage class, website redirect location or encryption attributes.") 400)
  | ErrInvalidCopySource => Some (mkAPIError (str "InvalidArgument")
      (str "Copy Source must mention the source bucket and key: sourcebucket/sourcekey.") 400)
  | ErrInvalidMetadataDirective => Some (mkAPIError (str "InvalidArgument")
      (str "Unknown metadata directive.") 400)
  | ErrInvalidStorageClass => Some (mkAPIError (str "InvalidStorageClass")
      (str "Invalid storage class.") 400)
  | ErrInvalidRequestBody => Some (mkAPIError (str "InvalidArgument")
      (str "Body shouldn't be set for this request.") 400)
  | ErrInvalidMaxUploads => Some (mkAPIError (str "InvalidArgument")
      (str "Argument max-uploads must be an integer between 0 and 2147483647") 400)
  | ErrInvalidMaxKeys => Some (mkAPIError (str "InvalidArgument")
      (str "Argument maxKeys must be an integer between 0 and 2147483647") 400)
  | ErrInvalidEncodingMethod => Some (mkAPIError (str "InvalidArgument")
      (str "Invalid Encoding Method specified in Request") 400)
  | ErrInvalidMaxParts => Some (mkAPIError (str "InvalidArgument")
      (str "Argument max-parts must be an integer between 0 and 2147483647") 400)
  | ErrInvalidPartNumberMarker => Some (mkAPIError (str "InvalidArgument")
      (str "Argument partNumberMarker must be an integer.") 400)
  | ErrInvalidPolicyDocument => Some (mkAPIError (str "InvalidPolicyDocument")
      (str "The content of the form does not meet the conditions specified in the policy document.") 400)
  | ErrAccessDenied => Some (mkAPIError (str "AccessDenied")
      (str "Access Denied.") 403)
  | ErrBadDigest => Some (mkAPIError (str "BadDigest")
      (str "The Content-Md5 you specified did not match what we received.") 400)
  | ErrEntityTooSmall => Some (mkAPIError (str "EntityTooSmall")
      (str "Your proposed upload is smaller than the minimum allowed object size.") 400)
  | ErrEntityTooLarge => Some (mkAPIError (str "EntityTooLarge")
      (str "Your proposed upload exceeds the maximum allowed object size.") 400)
  | ErrPolicyTooLarge => Some (mkAPIError (str "PolicyTooLarge")
      (str "Policy exceeds the maximum allowed document size.") 400)
  | ErrIncompleteBody => Some (mkAPIError (str "IncompleteBody")
      (str "You did not provide the number of bytes specified by the Content-Length HTTP header.") 400)
  | ErrInternalError => Some (mkAPIError (str "InternalError")
      (str "We encountered an internal error, please try again.") 500)
  | ErrInvalidAccessKeyID => Some (mkAPIError (str "InvalidAccessKeyId")
      (str "The access key ID you provided does not exist in our records.") 403)
  | ErrInvalidBucketName => Some (mkAPIError (str "InvalidBucketName")
      (str "The specified bucket is not valid.") 400)
  | ErrInvalidDigest => Some (mkAPIError (str "InvalidDigest")
      (str "The Content-Md5 you specified is not valid.") 400)
  | ErrInvalidRange => Some (mkAPIError (str "InvalidRange")
      (str "The requested range is not satisfiable") 416)
  | ErrMalformedXML => Some (mkAPIError (str "MalformedXML")
      (str "The XML you provided was not well-formed or did not validate against our published schema.") 400)
  | ErrMissingContentLength => Some (mkAPIError (str "MissingContentLength")
      (str "You must provide the Content-Length HTTP header.") 411)
  | ErrMissingContentMD5 => Some (mkAPIError (str "MissingContentMD5")
      (str "Missing required header for this request: Content-Md5.") 400)
  | ErrMissingSecurityHeader => Some (mkAPIError (str "MissingSecurityHeader")
      (str "Your request was missing a required header") 400)
  | ErrMissingRequestBodyError => Some (mkAPIError (str "MissingRequestBodyError")
      (str "Request body is empty.") 411)
  | ErrNoSuchBucket => Some (mkAPIError (str "NoSuchBucket")
      (str "The specified bucket does not exist") 404)
  | ErrNoSuchBucketPolicy => Some (mkAPIError (str "NoSuchBucketPolicy")
      (str "The bucket policy does not exist") 404)
  | ErrNoSuchBucketLifecycle => Some (mkAPIError (str "NoSuchBucketLifecycle")
      (str "The bucket lifecycle configuration does not exist") 404)
  | _ => None
  end.
Definition errorCodes_S3_2 (c : APIErrorCode) : option APIError :=
  match c with
  | ErrNoSuchLifecycleConfiguration => Some (mkAPIError (str "NoSuchLifecycleConfiguration")
      (str "The lifecycle configuration does not exist") 404)
  | ErrNoSuchBucketSSEConfig => Some (mkAPIError (str "ServerSideEncryptionConfigurationNotFoundError")
      (str "The server side encryption configuration was not found") 404)
  | ErrNoSuchKey => Some (mkAPIError (str "NoSuchKey")
      (str "The specified key does not exist.") 404)
  | ErrNoSuchUpload => Some (mkAPIError (str "NoSuchUpload")
      (str "The specified multipart upload does not exist. The upload ID may be invalid, or the upload may have been aborted or completed.") 404)
  | ErrNoSuchVersion => Some (mkAPIError (str "NoSuchVersion")
      (str "Indicates that the version ID specified in the request does not match an existing version.") 404)
  | ErrNotImplemented => Some (mkAPIError (str "NotImplemented")
      (str "A header you provided implies functionality that is not implemented") 501)
  | ErrPreconditionFailed => Some (mkAPIError (str "PreconditionFailed")
      (str "At least one of the pre-conditions you specified did not hold") 412)
  | ErrRequestTimeTooSkewed => Some (mkAPIError (str "RequestTimeTooSkewed")
      (str "The difference between the request time and the server's time is too large.") 403)
  | ErrSignatureDoesNotMatch => Some (mkAPIError (str "SignatureDoesNotMatch")
      (str "The request signature we calculated does not match the signature you provided. Check your key and signing method.") 403)
  | ErrMethodNotAllowed => Some (mkAPIError (str "MethodNotAllowed")
      (str "The specified method is not allowed against this resource.") 405)
  | ErrInvalidPart => Some (mkAPIError (str "InvalidPart")
      (str "One or more of the specified parts could not be found.  The part may not have been uploaded, or the specified entity tag may not match the part's entity tag.") 400)
  | ErrInvalidPartOrder => Some (mkAPIError (str "InvalidPartOrder")
      (str "The list of parts was not in ascending order. The parts list must be specified in order by part number.") 400)
  | ErrInvalidObjectState => Some (mkAPIError (str "InvalidObjectState")
      (str "The operation is not valid for the current state of the object.") 403)
  | ErrAuthorizationHeaderMalformed => Some (mkAPIError (str "AuthorizationHeaderMalformed")
      (str "The authorization header is malformed; the region is wrong; expecting 'us-east-1'.") 400)
  | ErrMalformedPOSTRequest => Some (mkAPIError (str "MalformedPOSTRequest")
      (str "The body of your POST request is not well-formed multipart/form-data.") 400)
  | ErrPOSTFileRequired => Some (mkAPIError (str "InvalidArgument")
      (str "POST requires exactly one file upload per request.") 400)
  | ErrSignatureVersionNotSupported => Some (mkAPIError (str "InvalidRequest")
      (str "The authorization mechanism you have provided is not supported. Please use AWS4-HMAC-SHA256.") 400)
  | ErrBucketNotEmpty => Some (mkAPIError (str "BucketNotEmpty")
      (str "The bucket you tried to delete is not empty") 409)
  | ErrBucketAlreadyExists => Some (mkAPIError (str "BucketAlreadyExists")
      (str "The requested bucket name is not available. The bucket namespace is shared by all users of the system. Please select a different name and try again.") 409)
  | ErrAllAccessDisabled => Some (mkAPIError (str "AllAccessDisabled")
      (str "All access to this bucket has been disabled.") 403)
  | ErrMalformedPolicy => Some (mkAPIError (str "MalformedPolicy")
      (str "Policy has invalid resource.") 400)
  | ErrMissingFields => Some (mkAPIError (str "MissingFields")
      (str "Missing fields in request.") 400)
  | ErrMissingCredTag => Some (mkAPIError (str "InvalidRequest")
      (str "Missing Credential field for this request.") 400)
  | ErrCredMalformed => Some (mkAPIError (str "AuthorizationQueryParametersError")
      (str "Error parsing the X-Amz-Credential parameter; the Credential is mal-formed; expecting " ++ [quote] ++ str "<YOUR-AKID>/YYYYMMDD/REGION/SERVICE/aws4_request" ++ [quote] ++ str ".") 400)
  | ErrMalformedDate => Some (mkAPIError (str "MalformedDate")
      (str "Invalid date format header, expected to be in ISO8601, RFC1123 or RFC1123Z time format.") 400)
  | ErrMalformedPresignedDate => Some (mkAPIError (str "AuthorizationQueryParametersError")
      (str "X-Amz-Date must be in the ISO8601 Long Format " ++ [quote] ++ str "yyyyMMdd'T'HHmmss'Z'" ++ [quote]) 400)
  | ErrMalformedCredentialDate => Some (mkAPIError (str "AuthorizationQueryParametersError")
      (str "Error parsing the X-Amz-Credential parameter; incorrect date format " ++ [quote] ++ str "%s" ++ [quote] ++ str ". This date in the credential must be in the format " ++ [quote] ++ str "yyyyMMdd" ++ [quote] ++ str ".") 400)
  | ErrMalformedCredentialRegion => Some (mkAPIError (str "AuthorizationQueryParametersError")
      (str "Error parsing the X-Amz-Credential parameter; the region is wrong;") 400)
  | _ => None
  end.
Definition errorCodes_S3_3 (c : APIErrorCode) : option APIError :=
  match c with
  | ErrInvalidRegion => Some (mkAPIError (str "InvalidRegion")
      (str "Region does not match.") 400)
  | ErrInvalidService => Some (mkAPIError (str "AuthorizationQueryParametersError")
      (str "Error parsing the X-Amz-Credential parameter; incorrect service. This endpoint belongs to " ++ [quote] ++ str "s3" ++ [quote] ++ str ".") 400)
  | ErrInvalidRequestVersion => Some (mkAPIError (str "AuthorizationQueryParametersError")
      (str "Error parsing the X-Amz-Credential parameter; incorrect terminal. This endpoint uses " ++ [quote] ++ str "aws4_request" ++ [quote] ++ str ".") 400)
  | ErrMissingSignTag => Some (mkAPIError (str "AccessDenied")
      (str "Signature header missing Signature field.") 400)
  | ErrMissingSignHeadersTag => Some (mkAPIError (str "InvalidArgument")
      (str "Signature header missing SignedHeaders field.") 400)
  | ErrMalformedExpires => Some (mkAPIError (str "AuthorizationQueryParametersError")
      (str "X-Amz-Expires should be a number") 400)
  | ErrNegativeExpires => Some (mkAPIError (str "AuthorizationQueryParametersError")
      (str "X-Amz-Expires must be non-negative") 400)
  | ErrAuthHeaderEmpty => Some (mkAPIError (str "InvalidArgument")
      (str "Authorization header is invalid -- one and only one ' ' (space) required.") 400)
  | ErrMissingDateHeader => Some (mkAPIError (str "AccessDenied")
      (str "AWS authentication requires a valid Date or x-amz-date header") 400)
  | ErrInvalidQuerySignatureAlgo => Some (mkAPIError (str "AuthorizationQueryParametersError")
      (str "X-Amz-Algorithm only supports " ++ [quote] ++ str "AWS4-HMAC-SHA256" ++ [quote] ++ str ".") 400)
  | ErrExpiredPresignRequest => Some (mkAPIError (str "AccessDenied")
      (str "Request has expired") 403)
  | ErrRequestNotReadyYet => Some (mkAPIError (str "AccessDenied")
      (str "Request is not valid yet") 403)
  | ErrSlowDown => Some (mkAPIError (str "SlowDown")
      (str "Please reduce your request") 503)
  | ErrInvalidPrefixMarker => Some (mkAPIError (str "InvalidPrefixMarker")
      (str "Invalid marker prefix combination") 400)
  | ErrBadRequest => Some (mkAPIError (str "BadRequest")
      (str "400 BadRequest") 400)
  | ErrKeyTooLongError => Some (mkAPIError (str "KeyTooLongError")
      (str "Your key is too long") 400)
  | ErrUnsignedHeaders => Some (mkAPIError (str "AccessDenied")
      (str "There were headers present in the request which were not signed") 400)
  | ErrInvalidQueryParams => Some (mkAPIError (str "AuthorizationQueryParametersError")
      (str "Query-string authentication version 4 requires the X-Amz-Algorithm, X-Amz-Credential, X-Amz-Signature, X-Amz-Date, X-Amz-SignedHeaders, and X-Amz-Expires parameters.") 400)
  | ErrBucketAlreadyOwnedByYou => Some (mkAPIError (str "BucketAlreadyOwnedByYou")
      (str "Your previous request to create the named bucket succeeded and you already own it.") 409)
  | ErrInvalidDuration => Some (mkAPIError (str "InvalidDuration")
      (str "Duration provided in the request is invalid.") 400)
  | ErrInvalidBucketObjectLockConfiguration => Some (mkAPIError (str "InvalidRequest")
      (str "Bucket is missing ObjectLockConfiguration") 400)
  | ErrObjectLockConfigurationNotAllowed => Some (mkAPIError (str "InvalidBucketState")
      (str "Object Lock configuration cannot be enabled on existing buckets.") 409)
  | ErrNoSuchObjectLockConfiguration => Some (mkAPIError (str "NoSuchObjectLockConfiguration")
      (str "The specified object does not have a ObjectLock configuration") 400)
  | ErrObjectLocked => Some (mkAPIError (str "InvalidRequest")
      (str "Object is WORM protected and cannot be overwritten") 400)
  | ErrInvalidRetentionDate => Some (mkAPIError (str "InvalidRequest")
      (str "Date must be provided in ISO 8601 format") 400)
  | ErrPastObjectLockRetainDate => Some (mkAPIError (str "InvalidRequest")
      (str "the retain until date must be in the future") 400)
  | ErrUnknownWORMModeDirective => Some (mkAPIError (str "InvalidRequest")
      (str "unknown wormMode directive") 400)
  | ErrObjectLockInvalidHeaders => Some (mkAPIError (str "InvalidRequest")
      (str "x-amz-object-lock-retain-until-date and x-amz-object-lock-mode must both be supplied") 400)
  | _ => None
  end.
Definition errorCodes_S3 (c : APIErrorCode) : option APIError :=
  or_else (errorCodes_S3_1 c) (or_else (errorCodes_S3_2 c) (errorCodes_S3_3 c)).

(** Bucket notifications. *)
Definition errorCodes_notification (c : APIErrorCode) : option APIError :=
  match c with
  | ErrEventNotification => Some (mkAPIError (str "InvalidArgument")
      (str "A specified event is not supported for notifications.") 400)
  | ErrARNNotification => Some (mkAPIError (str "InvalidArgument")
      (str "A specified destination ARN does not exist or is not well-formed. Verify the destination ARN.") 400)
  | ErrRegionNotification => Some (mkAPIError (str "InvalidArgument")
      (str "A specified destination is in a different region than the bucket. You must use a destination that resides in the same region as the bucket.") 400)
  | ErrOverlappingFilterNotification => Some (mkAPIError (str "InvalidArgument")
      (str "An object key name filtering rule defined with overlapping prefixes, overlapping suffixes, or overlapping combinations of prefixes and suffixes for the same event types.") 400)
  | ErrFilterNameInvalid => Some (mkAPIError (str "InvalidArgument")
      (str "filter rule name must be either prefix or suffix") 400)
  | ErrFilterNamePrefix => Some (mkAPIError (str "InvalidArgument")
      (str "Cannot specify more than one prefix rule in a filter.") 400)
  | ErrFilterNameSuffix => Some (mkAPIError (str "InvalidArgument")
      (str "Cannot specify more than one suffix rule in a filter.") 400)
  | ErrFilterValueInvalid => Some (mkAPIError (str "InvalidArgument")
      (str "Size of filter rule value cannot exceed 1024 bytes in UTF-8 representation") 400)
  | ErrOverlappingConfigs => Some (mkAPIError (str "InvalidArgument")
      (str "Configurations overlap. Configurations on the same bucket cannot share a common event type.") 400)
  | ErrUnsupportedNotification => Some (mkAPIError (str "UnsupportedNotification")
      (str "MinIO server does not support Topic or Cloud Function based notifications.") 400)
  | ErrInvalidCopyPartRange => Some (mkAPIError (str "InvalidArgument")
      (str "The x-amz-copy-source-range value must be of the form bytes=first-last where first and last are the zero-based offsets of the first and last bytes to copy") 400)
  | ErrInvalidCopyPartRangeSource => Some (mkAPIError (str "InvalidArgument")
      (str "Range specified is not valid for source object") 400)
  | ErrMetadataTooLarge => Some (mkAPIError (str "InvalidArgument")
      (str "Your metadata headers exceed the maximum allowed metadata size.") 400)
  | ErrInvalidTagDirective => Some (mkAPIError (str "InvalidArgument")
      (str "Unknown tag directive.") 400)
  | ErrInvalidEncryptionMethod => Some (mkAPIError (str "InvalidRequest")
      (str "The encryption method specified is not supported") 400)
  | ErrInsecureSSECustomerRequest => Some (mkAPIError (str "InvalidRequest")
      (str "Requests specifying Server Side Encryption with Customer provided keys must be made over a secure connection.") 400)
  | ErrSSEMultipartEncrypted => Some (mkAPIError (str "InvalidRequest")
      (str "The multipart upload initiate requested encryption. Subsequent part requests must include the appropriate encryption parameters.") 400)
  | ErrSSEEncryptedObject => Some (mkAPIError (str "InvalidRequest")
      (str "The object was stored using a form of Server Side Encryption. The correct parameters must be provided to retrieve the object.") 400)
  | ErrInvalidEncryptionParameters => Some (mkAPIError (str "InvalidRequest")
      (str "The encryption parameters are not applicable to this object.") 400)
  | ErrInvalidSSECustomerAlgorithm => Some (mkAPIError (str "InvalidArgument")
      (str "Requests specifying Server Side Encryption with Customer provided keys must provide a valid encryption algorithm.") 400)
  | ErrInvalidSSECustomerKey => Some (mkAPIError (str "InvalidArgument")
      (str "The secret key was invalid for the specified algorithm.") 400)
  | ErrMissingSSECustomerKey => Some (mkAPIError (str "InvalidArgument")
      (str "Requests specifying Server Side Encryption with Customer provided keys must provide an appropriate secret key.") 400)
  | ErrMissingSSECustomerKeyMD5 => Some (mkAPIError (str "InvalidArgument")
      (str "Requests specifying Server Side Encryption with Customer provided keys must provide the client calculated MD5 of the secret key.") 400)
  | ErrSSECustomerKeyMD5Mismatch => Some (mkAPIError (str "InvalidArgument")
      (str "The calculated MD5 hash of the key did not match the hash that was provided.") 400)
  | ErrInvalidSSECustomerParameters => Some (mkAPIError (str "InvalidArgument")
      (str "The provided encryption parameters did not match the ones used originally.") 400)
  | ErrIncompatibleEncryptionMethod => Some (mkAPIError (str "InvalidArgument")
      (str "Server side encryption specified with both SSE-C and SSE-S3 headers") 400)
  | ErrKMSNotConfigured => Some (mkAPIError (str "InvalidArgument")
      (str "Server side encryption specified but KMS is not configured") 400)
  | ErrKMSAuthFailure => Some (mkAPIError (str "InvalidArgument")
      (str "Server side encryption specified but KMS authorization failed") 400)
  | ErrNoAccessKey => Some (mkAPIError (str "AccessDenied")
      (str "No AWSAccessKey was presented") 403)
  | ErrInvalidToken => Some (mkAPIError (str "InvalidTokenId")
      (str "The security token included in the request is invalid") 403)
  | _ => None
  end.

(** Extensions: of S3, of MinIO, and of the administration. *)
Definition errorCodes_extensions_1 (c : APIErrorCode) : option APIError :=
  match c with
  | ErrContentSHA256Mismatch => Some (mkAPIError (str "XAmzContentSHA256Mismatch")
      (str "The provided 'x-amz-content-sha256' header does not match what was computed.") 400)
  | ErrStorageFull => Some (mkAPIError (str "XMinioStorageFull")
      (str "Storage backend has reached its minimum free disk threshold. Please delete a few objects to proceed.") 507)
  | ErrParentIsObject => Some (mkAPIError (str "XMinioParentIsObject")
      (str "Object-prefix is already an object, please choose a different object-prefix name.") 400)
  | ErrRequestBodyParse => Some (mkAPIError (str "XMinioRequestBodyParse")
      (str "The request body failed to parse.") 400)
  | ErrObjectExistsAsDirectory => Some (mkAPIError (str "XMinioObjectExistsAsDirectory")
      (str "Object name already exists as a directory.") 409)
  | ErrInvalidObjectName => Some (mkAPIError (str "XMinioInvalidObjectName")
      (str "Object name contains unsupported characters.") 400)
  | ErrInvalidObjectNamePrefixSlash => Some (mkAPIError (str "XMinioInvalidObjectName")
      (str "Object name contains a leading slash.") 400)
  | ErrInvalidResourceName => Some (mkAPIError (str "XMinioInvalidResourceName")
      (str "Resource name contains bad components such as " ++ [quote] ++ str ".." ++ [quote] ++ str " or " ++ [quote] ++ str "." ++ [quote] ++ str ".") 400)
  | ErrServerNotInitialized => Some (mkAPIError (str "XMinioServerNotInitialized")
      (str "Server not initialized, please try again.") 503)
  | ErrMalformedJSON => Some (mkAPIError (str "XMinioMalformedJSON")
      (str "The JSON you provided was not well-formed or did not validate against our published format.") 400)
  | ErrAdminNoSuchUser => Some (mkAPIError (str "XMinioAdminNoSuchUser")
      (str "The specified user does not exist.") 404)
  | ErrAdminNoSuchGroup => Some (mkAPIError (str "XMinioAdminNoSuchGroup")
      (str "The specified group does not exist.") 404)
  | ErrAdminGroupNotEmpty => Some (mkAPIError (str "XMinioAdminGroupNotEmpty")
      (str "The specified group is not empty - cannot remove it.") 400)
  | ErrAdminNoSuchPolicy => Some (mkAPIError (str "XMinioAdminNoSuchPolicy")
      (str "The canned policy does not exist.") 404)
  | ErrAdminInvalidArgument => Some (mkAPIError (str "XMinioAdminInvalidArgument")
      (str "Invalid arguments specified.") 400)
  | ErrAdminInvalidAccessKey => Some (mkAPIError (str "XMinioAdminInvalidAccessKey")
      (str "The access key is invalid.") 400)
  | ErrAdminInvalidSecretKey => Some (mkAPIError (str "XMinioAdminInvalidSecretKey")
      (str "The secret key is invalid.") 400)
  | ErrAdminConfigNoQuorum => Some (mkAPIError (str "XMinioAdminConfigNoQuorum")
      (str "Configuration update failed because server quorum was not met") 503)
  | ErrAdminConfigTooLarge => Some (mkAPIError (str "XMinioAdminConfigTooLarge")
      (str "Configuration data provided exceeds the allowed maximum of 262272 bytes") 400)
  | ErrAdminConfigBadJSON => Some (mkAPIError (str "XMinioAdminConfigBadJSON")
      (str "JSON configuration provided is of incorrect format") 400)
  | ErrAdminConfigDuplicateKeys => Some (mkAPIError (str "XMinioAdminConfigDuplicateKeys")
      (str "JSON configuration provided has objects with duplicate keys") 400)
  | ErrAdminConfigNotificationTargetsFailed => Some (mkAPIError (str "XMinioAdminNotificationTargetsTestFailed")
      (str "Configuration update failed due an unsuccessful attempt to connect to one or more notification servers") 400)
  | ErrAdminProfilerNotEnabled => Some (mkAPIError (str "XMinioAdminProfilerNotEnabled")
      (str "Unable to perform the requested operation because profiling is not enabled") 400)
  | ErrAdminCredentialsMismatch => Some (mkAPIError (str "XMinioAdminCredentialsMismatch")
      (str "Credentials in config mismatch with server environment variables") 503)
  | ErrInsecureClientRequest => Some (mkAPIError (str "XMinioInsecureClientRequest")
      (str "Cannot respond to plain-text request from TLS-encrypted server") 400)
  | ErrOperationTimedOut => Some (mkAPIError (str "XMinioServerTimedOut")
      (str "A timeout occurred while trying to lock a resource") 408)
  | ErrUnsupportedMetadata => Some (mkAPIError (str "InvalidArgument")
      (str "Your metadata headers are not supported.") 400)
  | ErrObjectTampered => Some (mkAPIError (str "XMinioObjectTampered")
      (str "The requested object was modified and may be compromised") 206)
  | ErrMaximumExpires => Some (mkAPIError (str "AuthorizationQueryParametersError")
      (str "X-Amz-Expires must be less than a week (in seconds); that is, the given X-Amz-Expires must be less than 604800 seconds") 400)
  | _ => None
  end.
Definition errorCodes_extensions_2 (c : APIErrorCode) : option APIError :=
  match c with
  | ErrInvalidRequest => Some (mkAPIError (str "InvalidRequest")
      (str "Invalid Request") 400)
  | ErrHealNotImplemented => Some (mkAPIError (str "XMinioHealNotImplemented")
      (str "This server does not implement heal functionality.") 400)
  | ErrHealNoSuchProcess => Some (mkAPIError (str "XMinioHealNoSuchProcess")
      (str "No such heal process is running on the server") 400)
  | ErrHealInvalidClientToken => Some (mkAPIError (str "XMinioHealInvalidClientToken")
      (str "Client token mismatch") 400)
  | ErrHealMissingBucket => Some (mkAPIError (str "XMinioHealMissingBucket")
      (str "A heal start request with a non-empty object-prefix parameter requires a bucket to be specified.") 400)
  | ErrHealAlreadyRunning => Some (mkAPIError (str "XMinioHealAlreadyRunning")
      ([]) 400)
  | ErrHealOverlappingPaths => Some (mkAPIError (str "XMinioHealOverlappingPaths")
      ([]) 400)
  | ErrBackendDown => Some (mkAPIError (str "XMinioBackendDown")
      (str "Object storage backend is unreachable") 503)
  | ErrIncorrectContinuationToken => Some (mkAPIError (str "InvalidArgument")
      (str "The continuation token provided is incorrect") 400)
  | ErrEmptyRequestBody => Some (mkAPIError (str "EmptyRequestBody")
      (str "Request body cannot be empty.") 400)
  | ErrUnsupportedFunction => Some (mkAPIError (str "UnsupportedFunction")
      (str "Encountered an unsupported SQL function.") 400)
  | ErrInvalidDataSource => Some (mkAPIError (str "InvalidDataSource")
      (str "Invalid data source type. Only CSV and JSON are supported at this time.") 400)
  | ErrInvalidExpressionType => Some (mkAPIError (str "InvalidExpressionType")
      (str "The ExpressionType is invalid. Only SQL expressions are supported at this time.") 400)
  | ErrBusy => Some (mkAPIError (str "Busy")
      (str "The service is unavailable. Please retry.") 503)
  | ErrUnauthorizedAccess => Some (mkAPIError (str "UnauthorizedAccess")
      (str "You are not authorized to perform this operation") 401)
  | ErrExpressionTooLong => Some (mkAPIError (str "ExpressionTooLong")
      (str "The SQL expression is too long: The maximum byte-length for the SQL expression is 256 KB.") 400)
  | ErrIllegalSQLFunctionArgument => Some (mkAPIError (str "IllegalSqlFunctionArgument")
      (str "Illegal argument was used in the SQL function.") 400)
  | ErrInvalidKeyPath => Some (mkAPIError (str "InvalidKeyPath")
      (str "Key path in the SQL expression is invalid.") 400)
  | ErrInvalidCompressionFormat => Some (mkAPIError (str "InvalidCompressionFormat")
      (str "The file is not in a supported compression format. Only GZIP is supported at this time.") 400)
  | ErrInvalidFileHeaderInfo => Some (mkAPIError (str "InvalidFileHeaderInfo")
      (str "The FileHeaderInfo is invalid. Only NONE, USE, and IGNORE are supported.") 400)
  | ErrInvalidJSONType => Some (mkAPIError (str "InvalidJsonType")
      (str "The JsonType is invalid. Only DOCUMENT and LINES are supported at this time.") 400)
  | ErrInvalidQuoteFields => Some (mkAPIError (str "InvalidQuoteFields")
      (str "The QuoteFields is invalid. Only ALWAYS and ASNEEDED are supported.") 400)
  | ErrInvalidRequestParameter => Some (mkAPIError (str "InvalidRequestParameter")
      (str "The value of a parameter in SelectRequest element is invalid. Check the service API documentation and try again.") 400)
  | ErrInvalidDataType => Some (mkAPIError (str "InvalidDataType")
      (str "The SQL expression contains an invalid data type.") 400)
  | ErrInvalidTextEncoding => Some (mkAPIError (str "InvalidTextEncoding")
      (str "Invalid encoding type. Only UTF-8 encoding is supported at this time.") 400)
  | ErrInvalidTableAlias => Some (mkAPIError (str "InvalidTableAlias")
      (str "The SQL expression contains an invalid table alias.") 400)
  | ErrMissingRequiredParameter => Some (mkAPIError (str "MissingRequiredParameter")
      (str "The SelectRequest entity is missing a required parameter. Check the service documentation and try again.") 400)
  | ErrObjectSerializationConflict => Some (mkAPIError (str "ObjectSerializationConflict")
      (str "The SelectRequest entity can only contain one of CSV or JSON. Check the service documentation and try again.") 400)
  | ErrUnsupportedSQLOperation => Some (mkAPIError (str "UnsupportedSqlOperation")
      (str "Encountered an unsupported SQL operation.") 400)
  | _ => None
  end.
Definition errorCodes_extensions_3 (c : APIErrorCode) : option APIError :=
  match c with
  | ErrUnsupportedSQLStructure => Some (mkAPIError (str "UnsupportedSqlStructure")
      (str "Encountered an unsupported SQL structure. Check the SQL Reference.") 400)
  | ErrUnsupportedSyntax => Some (mkAPIError (str "UnsupportedSyntax")
      (str "Encountered invalid syntax.") 400)
  | ErrUnsupportedRangeHeader => Some (mkAPIError (str "UnsupportedRangeHeader")
      (str "Range header is not supported for this operation.") 400)
  | ErrLexerInvalidChar => Some (mkAPIError (str "LexerInvalidChar")
      (str "The SQL expression contains an invalid character.") 400)
  | ErrLexerInvalidOperator => Some (mkAPIError (str "LexerInvalidOperator")
      (str "The SQL expression contains an invalid literal.") 400)
  | ErrLexerInvalidLiteral => Some (mkAPIError (str "LexerInvalidLiteral")
      (str "The SQL expression contains an invalid operator.") 400)
  | ErrLexerInvalidIONLiteral => Some (mkAPIError (str "LexerInvalidIONLiteral")
      (str "The SQL expression contains an invalid operator.") 400)
  | ErrParseExpectedDatePart => Some (mkAPIError (str "ParseExpectedDatePart")
      (str "Did not find the expected date part in the SQL expression.") 400)
  | ErrParseExpectedKeyword => Some (mkAPIError (str "ParseExpectedKeyword")
      (str "Did not find the expected keyword in the SQL expression.") 400)
  | ErrParseExpectedTokenType => Some (mkAPIError (str "ParseExpectedTokenType")
      (str "Did not find the expected token in the SQL expression.") 400)
  | ErrParseExpected2TokenTypes => Some (mkAPIError (str "ParseExpected2TokenTypes")
      (str "Did not find the expected token in the SQL expression.") 400)
  | ErrParseExpectedNumber => Some (mkAPIError (str "ParseExpectedNumber")
      (str "Did not find the expected number in the SQL expression.") 400)
  | ErrParseExpectedRightParenBuiltinFunctionCall => Some (mkAPIError (str "ParseExpectedRightParenBuiltinFunctionCall")
      (str "Did not find the expected right parenthesis character in the SQL expression.") 400)
  | ErrParseExpectedTypeName => Some (mkAPIError (str "ParseExpectedTypeName")
      (str "Did not find the expected type name in the SQL expression.") 400)
  | ErrParseExpectedWhenClause => Some (mkAPIError (str "ParseExpectedWhenClause")
      (str "Did not find the expected WHEN clause in the SQL expression. CASE is not supported.") 400)
  | ErrParseUnsupportedToken => Some (mkAPIError (str "ParseUnsupportedToken")
      (str "The SQL expression contains an unsupported token.") 400)
  | ErrParseUnsupportedLiteralsGroupBy => Some (mkAPIError (str "ParseUnsupportedLiteralsGroupBy")
      (str "The SQL expression contains an unsupported use of GROUP BY.") 400)
  | ErrParseExpectedMember => Some (mkAPIError (str "ParseExpectedMember")
      (str "The SQL expression contains an unsupported use of MEMBER.") 400)
  | ErrParseUnsupportedSelect => Some (mkAPIError (str "ParseUnsupportedSelect")
      (str "The SQL expression contains an unsupported use of SELECT.") 400)
  | ErrParseUnsupportedCase => Some (mkAPIError (str "ParseUnsupportedCase")
      (str "The SQL expression contains an unsupported use of CASE.") 400)
  | ErrParseUnsupportedCaseClause => Some (mkAPIError (str "ParseUnsupportedCaseClause")
      (str "The SQL expression contains an unsupported use of CASE.") 400)
  | ErrParseUnsupportedAlias => Some (mkAPIError (str "ParseUnsupportedAlias")
      (str "The SQL expression contains an unsupported use of ALIAS.") 400)
  | ErrParseUnsupportedSyntax => Some (mkAPIError (str "ParseUnsupportedSyntax")
      (str "The SQL expression contains unsupported syntax.") 400)
  | ErrParseUnknownOperator => Some (mkAPIError (str "ParseUnknownOperator")
      (str "The SQL expression contains an invalid operator.") 400)
  | ErrParseMissingIdentAfterAt => Some (mkAPIError (str "ParseMissingIdentAfterAt")
      (str "Did not find the expected identifier after the @ symbol in the SQL expression.") 400)
  | ErrParseUnexpectedOperator => Some (mkAPIError (str "ParseUnexpectedOperator")
      (str "The SQL expression contains an unexpected operator.") 400)
  | ErrParseUnexpectedTerm => Some (mkAPIError (str "ParseUnexpectedTerm")
      (str "The SQL expression contains an unexpected term.") 400)
  | ErrParseUnexpectedToken => Some (mkAPIError (str "ParseUnexpectedToken")
      (str "The SQL expression contains an unexpected token.") 400)
  | ErrParseUnexpectedKeyword => Some (mkAPIError (str "ParseUnexpectedKeyword")
      (str "The SQL expression contains an unexpected keyword.") 400)
  | ErrParseExpectedExpression => Some (mkAPIError (str "ParseExpectedExpression")
      (str "Did not find the expected SQL expression.") 400)
  | _ => None
  end.
Definition errorCodes_extensions_4 (c : APIErrorCode) : option APIError :=
  match c with
  | ErrParseExpectedLeftParenAfterCast => Some (mkAPIError (str "ParseExpectedLeftParenAfterCast")
      (str "Did not find expected the left parenthesis in the SQL expression.") 400)
  | ErrParseExpectedLeftParenValueConstructor => Some (mkAPIError (str "ParseExpectedLeftParenValueConstructor")
      (str "Did not find expected the left parenthesis in the SQL expression.") 400)
  | ErrParseExpectedLeftParenBuiltinFunctionCall => Some (mkAPIError (str "ParseExpectedLeftParenBuiltinFunctionCall")
      (str "Did not find the expected left parenthesis in the SQL expression.") 400)
  | ErrParseExpectedArgumentDelimiter => Some (mkAPIError (str "ParseExpectedArgumentDelimiter")
      (str "Did not find the expected argument delimiter in the SQL expression.") 400)
  | ErrParseCastArity => Some (mkAPIError (str "ParseCastArity")
      (str "The SQL expression CAST has incorrect arity.") 400)
  | ErrParseInvalidTypeParam => Some (mkAPIError (str "ParseInvalidTypeParam")
      (str "The SQL expression contains an invalid parameter value.") 400)
  | ErrParseEmptySelect => Some (mkAPIError (str "ParseEmptySelect")
      (str "The SQL expression contains an empty SELECT.") 400)
  | ErrParseSelectMissingFrom => Some (mkAPIError (str "ParseSelectMissingFrom")
      (str "GROUP is not supported in the SQL expression.") 400)
  | ErrParseExpectedIdentForGroupName => Some (mkAPIError (str "ParseExpectedIdentForGroupName")
      (str "GROUP is not supported in the SQL expression.") 400)
  | ErrParseExpectedIdentForAlias => Some (mkAPIError (str "ParseExpectedIdentForAlias")
      (str "Did not find the expected identifier for the alias in the SQL expression.") 400)
  | ErrParseUnsupportedCallWithStar => Some (mkAPIError (str "ParseUnsupportedCallWithStar")
      (str "Only COUNT with (*) as a parameter is supported in the SQL expression.") 400)
  | ErrParseNonUnaryAgregateFunctionCall => Some (mkAPIError (str "ParseNonUnaryAgregateFunctionCall")
      (str "Only one argument is supported for aggregate functions in the SQL expression.") 400)
  | ErrParseMalformedJoin => Some (mkAPIError (str "ParseMalformedJoin")
      (str "JOIN is not supported in the SQL expression.") 400)
  | ErrParseExpectedIdentForAt => Some (mkAPIError (str "ParseExpectedIdentForAt")
      (str "Did not find the expected identifier for AT name in the SQL expression.") 400)
  | ErrParseAsteriskIsNotAloneInSelectList => Some (mkAPIError (str "ParseAsteriskIsNotAloneInSelectList")
      (str "Other expressions are not allowed in the SELECT list when '*' is used without dot notation in the SQL expression.") 400)
  | ErrParseCannotMixSqbAndWildcardInSelectList => Some (mkAPIError (str "ParseCannotMixSqbAndWildcardInSelectList")
      (str "Cannot mix [] and * in the same expression in a SELECT list in SQL expression.") 400)
  | ErrParseInvalidContextForWildcardInSelectList => Some (mkAPIError (str "ParseInvalidContextForWildcardInSelectList")
      (str "Invalid use of * in SELECT list in the SQL expression.") 400)
  | ErrIncorrectSQLFunctionArgumentType => Some (mkAPIError (str "IncorrectSqlFunctionArgumentType")
      (str "Incorrect type of arguments in function call in the SQL expression.") 400)
  | ErrValueParseFailure => Some (mkAPIError (str "ValueParseFailure")
      (str "Time stamp parse failure in the SQL expression.") 400)
  | ErrEvaluatorInvalidArguments => Some (mkAPIError (str "EvaluatorInvalidArguments")
      (str "Incorrect number of arguments in the function call in the SQL expression.") 400)
  | ErrIntegerOverflow => Some (mkAPIError (str "IntegerOverflow")
      (str "Int overflow or underflow in the SQL expression.") 400)
  | ErrLikeInvalidInputs => Some (mkAPIError (str "LikeInvalidInputs")
      (str "Invalid argument given to the LIKE clause in the SQL expression.") 400)
  | ErrCastFailed => Some (mkAPIError (str "CastFailed")
      (str "Attempt to convert from one data type to another using CAST failed in the SQL expression.") 400)
  | ErrInvalidCast => Some (mkAPIError (str "InvalidCast")
      (str "Attempt to convert from one data type to another using CAST failed in the SQL expression.") 400)
  | ErrEvaluatorInvalidTimestampFormatPattern => Some (mkAPIError (str "EvaluatorInvalidTimestampFormatPattern")
      (str "Time stamp format pattern requires additional fields in the SQL expression.") 400)
  | ErrEvaluatorInvalidTimestampFormatPatternSymbolForParsing => Some (mkAPIError (str "EvaluatorInvalidTimestampFormatPatternSymbolForParsing")
      (str "Time stamp format pattern contains a valid format symbol that cannot be applied to time stamp parsing in the SQL expression.") 400)
  | ErrEvaluatorTimestampFormatPatternDuplicateFields => Some (mkAPIError (str "EvaluatorTimestampFormatPatternDuplicateFields")
      (str "Time stamp format pattern contains multiple format specifiers representing the time stamp field in the SQL expression.") 400)
  | ErrEvaluatorTimestampFormatPatternHourClockAmPmMismatch => Some (mkAPIError (str "EvaluatorUnterminatedTimestampFormatPatternToken")
      (str "Time stamp format pattern contains unterminated token in the SQL expression.") 400)
  | ErrEvaluatorUnterminatedTimestampFormatPatternToken => Some (mkAPIError (str "EvaluatorInvalidTimestampFormatPatternToken")
      (str "Time stamp format pattern contains an invalid token in the SQL expression.") 400)
  | ErrEvaluatorInvalidTimestampFormatPatternToken => Some (mkAPIError (str "EvaluatorInvalidTimestampFormatPatternToken")
      (str "Time stamp format pattern contains an invalid token in the SQL expression.") 400)
  | _ => None
  end.
Definition errorCodes_extensions_5 (c : APIErrorCode) : option APIError :=
  match c with
  | ErrEvaluatorInvalidTimestampFormatPatternSymbol => Some (mkAPIError (str "EvaluatorInvalidTimestampFormatPatternSymbol")
      (str "Time stamp format pattern contains an invalid symbol in the SQL expression.") 400)
  | ErrEvaluatorBindingDoesNotExist => Some (mkAPIError (str "ErrEvaluatorBindingDoesNotExist")
      (str "A column name or a path provided does not exist in the SQL expression") 400)
  | ErrMissingHeaders => Some (mkAPIError (str "MissingHeaders")
      (str "Some headers in the query are missing from the file. Check the file and try again.") 400)
  | ErrInvalidColumnIndex => Some (mkAPIError (str "InvalidColumnIndex")
      (str "The column index is invalid. Please check the service documentation and try again.") 400)
  | ErrInvalidDecompressedSize => Some (mkAPIError (str "XMinioInvalidDecompressedSize")
      (str "The data provided is unfit for decompression") 400)
  | ErrAddUserInvalidArgument => Some (mkAPIError (str "XMinioInvalidIAMCredentials")
      (str "User is not allowed to be same as admin access key") 409)
  | ErrPostPolicyConditionInvalidFormat => Some (mkAPIError (str "PostPolicyInvalidKeyName")
      (str "Invalid according to Policy: Policy Condition failed") 403)
  | ErrFileNotFound => Some (mkAPIError (str "FileNotFound")
      (str "File not found") 404)
  | _ => None
  end.
Definition errorCodes_extensions (c : APIErrorCode) : option APIError :=
  or_else (errorCodes_extensions_1 c) (or_else (errorCodes_extensions_2 c) (or_else (errorCodes_extensions_3 c) (or_else (errorCodes_extensions_4 c) (errorCodes_extensions_5 c)))).

(** The map has no entry for [ErrNone], [ErrReadQuorum] and [ErrWriteQuorum]. *)
Definition errorCodes (c : APIErrorCode) : option APIError :=
  or_else (errorCodes_S3 c) (or_else (errorCodes_notification c) (errorCodes_extensions c)).

(** A lookup in a Go map gives the zero value when there is no entry. *)
Definition noError : APIError := mkAPIError [] [] 0.
Definition ToAPIErr (c : APIErrorCode) : APIError :=
  match errorCodes c with
  | Some e => e
  | None => default noError (errorCodes ErrInternalError)
  end.
Definition getAPIError (c : APIErrorCode) : APIError :=
  match errorCodes c with Some e => e | None => ToAPIErr ErrInternalError end.

(** [fmt.Fscanf] with the text of the error that net/http gives for a short
    body: the declared and the written number of bytes. *)
Class ScanEnv := { scan_short_body : bytes -> option (Z * Z) }.

Section translation.
Context `{ScanEnv}.

(** The default case: the text of an error that has no case of its own.  The
    other errors have texts of a different form. *)
Definition toAPIErrorCode_text (msg : bytes) : APIErrorCode :=
  match scan_short_body msg with
  | Some (ie, iw) => if iw <? ie then ErrIncompleteBody else ErrInternalError
  | None => ErrInternalError
  end.

Definition toAPIErrorCode (err : option error) : APIErrorCode :=
  match err with
  | None => ErrNone
  | Some e =>
      match e with
      | errFileNotFound => ErrFileNotFound
      | errInvalidArgument => ErrAdminInvalidArgument
      | errNoSuchUser => ErrAdminNoSuchUser
      | errNoSuchGroup => ErrAdminNoSuchGroup
      | errGroupNotEmpty => ErrAdminGroupNotEmpty
      | errNoSuchPolicy => ErrAdminNoSuchPolicy
      | errInvalidRange => ErrInvalidRange
      | errDataTooLarge => ErrEntityTooLarge
      | errDataTooSmall => ErrEntityTooSmall
      | errAuthentication => ErrAccessDenied
      | errBucketNotEmpty => ErrBucketNotEmpty
      | errInvalidEncryptionParameters => ErrInvalidEncryptionParameters
      | crypto_ErrInvalidEncryptionMethod => ErrInvalidEncryptionMethod
      | crypto_ErrInvalidCustomerAlgorithm => ErrInvalidSSECustomerAlgorithm
      | crypto_ErrMissingCustomerKey => ErrMissingSSECustomerKey
      | crypto_ErrMissingCustomerKeyMD5 => ErrMissingSSECustomerKeyMD5
      | crypto_ErrCustomerKeyMD5Mismatch => ErrSSECustomerKeyMD5Mismatch
      | errObjectTampered => ErrObjectTampered
      | errEncryptedObject => ErrSSEEncryptedObject
      | errInvalidSSEParameters => ErrInvalidSSECustomerParameters
      | crypto_ErrInvalidCustomerKey | crypto_ErrSecretKeyMismatch => ErrAccessDenied
      | crypto_ErrIncompatibleEncryptionMethod => ErrIncompatibleEncryptionMethod
      | errKMSNotConfigured => ErrKMSNotConfigured
      | errInvalidDecompressedSize => ErrInvalidDecompressedSize
      | objectlock_ErrInvalidRetentionDate => ErrInvalidRetentionDate
      | objectlock_ErrPastObjectLockRetainDate => ErrPastObjectLockRetainDate
      | objectlock_ErrUnknownWORMModeDirective => ErrUnknownWORMModeDirective
      | objectlock_ErrObjectLockInvalidHeaders => ErrObjectLockInvalidHeaders
      | objectlock_ErrMalformedXML => ErrMalformedXML
      | StorageFull => ErrStorageFull
      | BadDigest _ _ => ErrBadDigest
      | IncompleteBody => ErrIncompleteBody
      | ObjectExistsAsDirectory _ _ => ErrObjectExistsAsDirectory
      | PrefixAccessDenied _ _ => ErrAccessDenied
      | ParentIsObject _ _ => ErrParentIsObject
      | BucketNameInvalid _ => ErrInvalidBucketName
      | BucketNotFound _ => ErrNoSuchBucket
      | BucketNotEmpty _ => ErrBucketNotEmpty
      | BucketExists _ => ErrBucketAlreadyOwnedByYou
      | ObjectNotFound _ _ => ErrNoSuchKey
      | ObjectNameInvalid _ _ => ErrInvalidObjectName
      | ObjectNamePrefixAsSlash _ _ => ErrInvalidObjectNamePrefixSlash
      | InvalidUploadID _ _ _ => ErrNoSuchUpload
      | InvalidPart _ _ _ => ErrInvalidPart
      | InsufficientWriteQuorum => ErrSlowDown
      | InsufficientReadQuorum => ErrSlowDown
      | InvalidMarkerPrefixCombination _ _ => ErrNotImplemented
      | PartTooSmall _ _ _ => ErrEntityTooSmall
      | SHA256Mismatch _ _ => ErrContentSHA256Mismatch
      | ObjectTooLarge _ _ => ErrEntityTooLarge
      | ObjectTooSmall _ _ => ErrEntityTooSmall
      | NotImplemented => ErrNotImplemented
      | BucketPolicyNotFound _ => ErrNoSuchBucketPolicy
      | BucketLifecycleNotFound _ => ErrNoSuchLifecycleConfiguration
      | OperationTimedOut => ErrOperationTimedOut
      | ObjectNameTooLong _ _ => ErrKeyTooLongError
      | errText msg =>
          if decide (msg = str "Signature does not match") then ErrSignatureDoesNotMatch
          else toAPIErrorCode_text msg
      | _ => ErrInternalError
      end
  end.

(** The errors of packages that have their own type; those of the gateways
    are not errors of this layer. *)
Definition StatusBadRequest : Z := 400.
Definition typed_APIError (err : error) : option APIError :=
  let described c msg := Description (getAPIError c) ++ str " (" ++ msg ++ str ")" in
  match err with
  | xml_SyntaxError msg =>
      Some (mkAPIError (str "MalformedXML") (described ErrMalformedXML msg) (HTTPStatusCode (getAPIError ErrMalformedXML)))
  | url_EscapeError msg =>
      Some (mkAPIError (str "XMinioInvalidObjectName") (described ErrInvalidObjectName msg) StatusBadRequest)
  | lifecycle_Error msg => Some (mkAPIError (str "InvalidRequest") msg StatusBadRequest)
  | tagging_Error code msg => Some (mkAPIError (if decide (code = []) then str "BadRequest" else code) msg StatusBadRequest)
  | policy_Error msg => Some (mkAPIError (str "MalformedPolicy") msg StatusBadRequest)
  | crypto_Error msg => Some (mkAPIError (str "XMinIOEncryptionError") msg StatusBadRequest)
  | _ => None
  end.
Definition toAPIError (err : option error) : APIError :=
  match err with
  | None => noError
  | Some e =>
      let apiErr := ToAPIErr (toAPIErrorCode err) in
      if decide (Code apiErr = str "InternalError") then default apiErr (typed_APIError e) else apiErr
  end.

(** An error is never reported as a success. *)
Lemma toAPIErrorCode_None err : toAPIErrorCode err = ErrNone <-> err = None.
Proof.
  destruct err as [e|]; [|done]. split; [|done]. intros E. exfalso. revert E. unfold toAPIErrorCode, toAPIErrorCode_text.
  destruct e; try done. case_decide; [done|]. destruct (scan_short_body msg) as [[ie iw]|]; [|done].
  by destruct (iw <? ie).
Qed.
End translation.

(** Every entry of the table has a name and the status of a failed request, or
    that of a partial answer. *)
Definition entry_ok (c : APIErrorCode) : bool :=
  match errorCodes c with
  | Some e => bool_decide (Code e <> []) && ((400 <=? HTTPStatusCode e) || (HTTPStatusCode e =? 206))
  | None => bool_decide (c = ErrNone \/ c = ErrReadQuorum \/ c = ErrWriteQuorum)
  end.
Lemma errorCodes_ok c : entry_ok c = true.
Proof. destruct c; vm_compute; reflexivity. Qed.
