(* ===== verification/Metadata.v ===== *)
(** * Object metadata: cmd/fs-v1-metadata.go and cmd/object-api-utils.go

    The metadata record [fsMetaV1] stored beside every object, its encodings
    and its conversion to the [ObjectInfo] the S3 handlers see.  The text
    encodings (encoding/json, encoding/gob) are an interface, [MetaCodec], with
    their documented round-trip behaviour as laws, [MetaCodecLaws]; the merge
    behaviour of decoding into a record that already has values is written out
    in [json_overlay].  [ref_codec] is an instance. *)
From S2P Require Import Prelude GoLib Errors.

(** A point in time, in nanoseconds since the Unix epoch. *)
Definition time := Z.
(** The zero [time.Time], January 1 of year 1. *)
Definition zeroTime : time := -62135596800 * 10 ^ 9.
(** [timeSentinel = time.Unix(0, 0)]. *)
Definition timeSentinel : time := 0.

(** A [map[string]string] that may be nil. *)
Abbreviation strmap := (gmap bytes bytes).

(** Reading a missing key, or any key of a nil map, gives the empty string. *)
Definition mget (m : option strmap) (k : bytes) : bytes :=
  match m with Some m => default [] (m !! k) | None => [] end.

(** ** Records *)
Record ObjectPartInfo := mkPart {
  part_ETag : bytes; part_Number : Z; part_Size : Z; part_ActualSize : Z }.

Record KOInfo := mkKOInfo {
  ko_Name : bytes; ko_Size : Z; ko_CreatedTime : time; ko_ModTime : time }.

Record FSChecksumInfoV1 := mkChecksum {
  Algorithm : bytes; Blocksize : Z; Hashes : list bytes }.

Record fsMetaV1 := mkFsMeta {
  Version : bytes;
  Checksum : FSChecksumInfoV1;
  Meta : option strmap;
  Parts : list ObjectPartInfo;
  KoInfo : KOInfo }.

Record KVInfo := mkKVInfo {
  kv_name : bytes; kv_size : Z; kv_modTime : time; kv_hidden : bool }.

Record BucketInfo := mkBucketInfo { bi_Name : bytes; bi_Created : time }.

Record ObjectInfo := mkObjectInfo {
  oi_Bucket : bytes; oi_Name : bytes; oi_ModTime : time; oi_Size : Z;
  oi_IsDir : bool; oi_ETag : bytes; oi_ContentType : bytes;
  oi_ContentEncoding : bytes; oi_Expires : time; oi_StorageClass : bytes;
  oi_UserDefined : option strmap; oi_UserTags : bytes;
  oi_Parts : list ObjectPartInfo; oi_metadataOnly : bool; oi_Hidden : bool }.

#[export] Instance part_eq_dec : EqDecision ObjectPartInfo.
Proof. solve_decision. Defined.
#[export] Instance koinfo_eq_dec : EqDecision KOInfo.
Proof. solve_decision. Defined.
#[export] Instance checksum_eq_dec : EqDecision FSChecksumInfoV1.
Proof. solve_decision. Defined.
#[export] Instance fsmeta_eq_dec : EqDecision fsMetaV1.
Proof. solve_decision. Defined.
#[export] Instance bucketinfo_eq_dec : EqDecision BucketInfo.
Proof. solve_decision. Defined.
#[export] Instance objectinfo_eq_dec : EqDecision ObjectInfo.
Proof. solve_decision. Defined.

(** Zero values. *)
Definition zeroKOInfo : KOInfo := mkKOInfo [] 0 zeroTime zeroTime.
Definition zeroChecksum : FSChecksumInfoV1 := mkChecksum [] 0 [].
Definition zeroFsMeta : fsMetaV1 := mkFsMeta [] zeroChecksum None [] zeroKOInfo.
Definition zeroKVInfo : KVInfo := mkKVInfo [] 0 zeroTime false.
Definition zeroBucketInfo : BucketInfo := mkBucketInfo [] zeroTime.
Definition zeroObjectInfo : ObjectInfo :=
  mkObjectInfo [] [] zeroTime 0 false [] [] [] zeroTime [] None [] [] false false.

(** Field updates. *)
Definition set_Meta (m : fsMetaV1) (x : option strmap) : fsMetaV1 :=
  mkFsMeta (Version m) (Checksum m) x (Parts m) (KoInfo m).
Definition set_Parts (m : fsMetaV1) (x : list ObjectPartInfo) : fsMetaV1 :=
  mkFsMeta (Version m) (Checksum m) (Meta m) x (KoInfo m).
Definition set_KoInfo (m : fsMetaV1) (x : KOInfo) : fsMetaV1 :=
  mkFsMeta (Version m) (Checksum m) (Meta m) (Parts m) x.

(** ** Metadata constants *)
Definition fsMetaJSONFile : bytes := str "fs.json".
Definition fsMetaVersion100 : bytes := str "1.0.0".
Definition fsMetaVersion101 : bytes := str "1.0.1".
Definition fsMetaVersion : bytes := str "1.0.2".
Definition emptyETag : bytes := str "d41d8cd98f00b204e9800998ecf8427e".
Definition AmzStorageClass : bytes := str "x-amz-storage-class".
Definition AmzObjectTagging : bytes := str "X-Amz-Tagging".
Definition STANDARD : bytes := str "STANDARD".
Definition globalMinioDefaultStorageClass : bytes := STANDARD.
Definition ReservedMetadataPrefix : bytes := str "X-Minio-Internal-".

Definition newFSMetaV1 : fsMetaV1 :=
  mkFsMeta fsMetaVersion zeroChecksum None [] zeroKOInfo.

Definition isFSMetaValid (version : bytes) : bool :=
  bool_decide (version = fsMetaVersion) || bool_decide (version = fsMetaVersion100)
  || bool_decide (version = fsMetaVersion101).

Definition IsValid (m : fsMetaV1) : bool := isFSMetaValid (Version m).

(** ** FSChecksumInfoV1: the record that goes to and comes from the JSON text,
    with its hashes in hexadecimal. *)
Record checksuminfo := mkChecksuminfo {
  ci_Algorithm : bytes; ci_Blocksize : Z; ci_Hashes : list bytes }.

Definition checksum_MarshalJSON (c : FSChecksumInfoV1) : checksuminfo :=
  mkChecksuminfo (Algorithm c) (Blocksize c) (hex.EncodeToString <$> Hashes c).

Fixpoint decode_hashes (hs : list bytes) : option (list bytes) :=
  match hs with
  | [] => Some []
  | h :: hs' =>
      match hex.DecodeString h with
      | None => None
      | Some d => match decode_hashes hs' with Some ds => Some (d :: ds) | None => None end
      end
  end.

(** On a hash that is not hexadecimal the record keeps the algorithm and block
    size already stored and its old hashes. *)
Definition checksum_UnmarshalJSON (c : FSChecksumInfoV1) (info : checksuminfo)
  : FSChecksumInfoV1 * option error :=
  match decode_hashes (ci_Hashes info) with
  | Some hs => (mkChecksum (ci_Algorithm info) (ci_Blocksize info) hs, None)
  | None => (mkChecksum (ci_Algorithm info) (ci_Blocksize info) (Hashes c),
             Some (errText (str "encoding/hex: invalid byte")))
  end.

Lemma decode_encode_hashes hs : decode_hashes (hex.EncodeToString <$> hs) = Some hs.
Proof. induction hs as [|h hs IH]; [done|]. rewrite fmap_cons. cbn. by rewrite hex.Decode_Encode, IH. Qed.

(** ** The text encodings *)

(** Decoding the JSON text of [m] into [base]: a field left out of the text
    ([omitempty] on an empty map or slice) keeps its value in [base], and a
    decoded map is added to a map already there. *)
Definition json_overlay (m base : fsMetaV1) : fsMetaV1 :=
  mkFsMeta (Version m) (Checksum m)
    (match Meta m with
     | Some mm => if decide (mm = ∅) then Meta base
                  else Some (mm ∪ default ∅ (Meta base))
     | None => Meta base
     end)
    (match Parts m with [] => Parts base | ps => ps end)
    (KoInfo m).

(** The values encoding/json reproduces exactly: strings in UTF-8, integers of
    64 bits, and times RFC 3339 can write (years 0 to 9999). *)
Definition json_time (t : time) : Prop := -62167219200 * 10 ^ 9 <= t < 253402300800 * 10 ^ 9.
Definition utf8_ok (s : bytes) : Prop := utf8.ValidString s = true.
Definition json_encodable (m : fsMetaV1) : Prop :=
  utf8_ok (Version m) /\ utf8_ok (Algorithm (Checksum m)) /\ in_int64 (Blocksize (Checksum m)) /\
  (∀ k v, default ∅ (Meta m) !! k = Some v -> utf8_ok k /\ utf8_ok v) /\
  Forall (λ p, utf8_ok (part_ETag p) /\ in_int64 (part_Number p) /\
               in_int64 (part_Size p) /\ in_int64 (part_ActualSize p)) (Parts m) /\
  utf8_ok (ko_Name (KoInfo m)) /\ in_int64 (ko_Size (KoInfo m)) /\
  json_time (ko_CreatedTime (KoInfo m)) /\ json_time (ko_ModTime (KoInfo m)).

Class MetaCodec := {
  json_Marshal : fsMetaV1 -> bytes;
  json_Unmarshal : bytes -> fsMetaV1 -> fsMetaV1 * option error;
  gob_Encode : BucketInfo -> bytes;
  gob_Decode : bytes -> BucketInfo -> BucketInfo }.

Class MetaCodecLaws (C : MetaCodec) : Prop := {
  json_roundtrip m base :
    json_encodable m -> Parts m = [] \/ Parts base = [] ->
    json_Unmarshal (json_Marshal m) base = (json_overlay m base, None);
  json_Marshal_nonempty m : json_Marshal m <> [];
  gob_roundtrip b : gob_Decode (gob_Encode b) zeroBucketInfo = b;
  gob_Encode_nonempty b : gob_Encode b <> [] }.

(** Decoding into a record with no map and no parts gives the record back, up
    to an empty map, which the text leaves out. *)
Lemma json_overlay_fresh m base :
  default ∅ (Meta base) = ∅ -> Parts base = [] ->
  default ∅ (Meta (json_overlay m base)) = default ∅ (Meta m) /\
  Parts (json_overlay m base) = Parts m /\
  KoInfo (json_overlay m base) = KoInfo m /\ Version (json_overlay m base) = Version m.
Proof.
  intros H1 H2. unfold json_overlay; simpl. split_and!; try done.
  - destruct (Meta m) as [mm|]; simpl; [|done].
    case_decide; simpl; [by subst|]. by rewrite H1, map_union_empty.
  - destruct (Parts m); auto.
Qed.

Lemma mget_default m k : mget m k = default [] (default ∅ m !! k).
Proof. by destruct m. Qed.

(** ** mimedb and net/http, which the conversion to ObjectInfo consults *)
Class MetaEnv := {
  (** [DB[strings.ToLower(ext)]], the generated table of pkg/mimedb/db.go. *)
  mime_DB_lower : bytes -> option bytes;
  (** [time.Parse(http.TimeFormat, s)]. *)
  http_ParseTime : bytes -> option time }.

(** pkg/mimedb/resolve-db.go *)
Definition TypeByExtension `{MetaEnv} (ext : bytes) : bytes :=
  if decide (ext = []) then str "application/octet-stream"
  else default (str "application/octet-stream") (mime_DB_lower (TrimPrefix ext (str "."))).

(** ** object-api-utils.go: metadata helpers *)
Definition removeStandardStorageClass (metadata : strmap) : strmap :=
  if decide (metadata !! AmzStorageClass = Some STANDARD)
  then delete AmzStorageClass metadata else metadata.

Definition cleanMetadataKeys (metadata : strmap) (keyNames : list bytes) : strmap :=
  filter (λ kv, kv.1 ∉ keyNames) metadata.

Definition cleanMetadata (metadata : strmap) : strmap :=
  cleanMetadataKeys (removeStandardStorageClass metadata)
    [str "md5Sum"; str "etag"; str "expires"; AmzObjectTagging].

Definition extractETag (metadata : strmap) : bytes :=
  match metadata !! str "md5Sum" with
  | Some etag => etag
  | None => default [] (metadata !! str "etag")
  end.

(** ** Conversions of metadata to ObjectInfo *)
Section convert.
Context `{MetaEnv}.

(** The metadata map both conversions start from: a content type guessed from
    the extension, and the fixed values of a directory object. *)
Definition objectMeta (m : option strmap) (object : bytes) : strmap :=
  let meta := default ∅ m in
  let meta := if decide (default [] (meta !! str "content-type") = [])
              then <[str "content-type" := TypeByExtension (path.Ext object)]> meta
              else meta in
  if HasSuffix object (str "/")
  then <[str "content-type" := str "application/octet-stream"]>
         (<[str "etag" := emptyETag]> meta)
  else meta.

Definition metaExpires (meta : strmap) : time :=
  match meta !! str "expires" with
  | Some exp => default zeroTime (http_ParseTime exp)
  | None => zeroTime
  end.

Definition KVInfoToObjectInfo (m : fsMetaV1) (bucket object : bytes) (fi : option KVInfo)
  : ObjectInfo :=
  let meta := objectMeta (Meta m) object in
  let '(modTime, size, hidden) :=
    match fi with
    | Some fi => (kv_modTime fi, (ParseInt (default [] (meta !! str "size"))).1, kv_hidden fi)
    | None => (timeSentinel, 0, false)
    end in
  mkObjectInfo bucket object modTime size false (extractETag meta)
    (default [] (meta !! str "content-type")) (default [] (meta !! str "content-encoding"))
    (metaExpires meta) globalMinioDefaultStorageClass
    (Some (cleanMetadata meta)) [] (Parts m) false hidden.

Definition ToObjectKVInfo (m : fsMetaV1) (bucket object : bytes) (ko : KVInfo) : ObjectInfo :=
  let meta := objectMeta (Meta m) object in
  mkObjectInfo bucket object zeroTime (kv_size ko) false (extractETag meta)
    (default [] (meta !! str "content-type")) (default [] (meta !! str "content-encoding"))
    (metaExpires meta)
    (default globalMinioDefaultStorageClass (meta !! AmzStorageClass))
    (Some (cleanMetadata meta)) [] (Parts m) false (kv_hidden ko).

(** Fields other than the content type and, for a directory, the ETag are those
    of the stored metadata. *)
Lemma objectMeta_lookup m object k :
  k <> str "content-type" -> k <> str "etag" \/ HasSuffix object (str "/") = false ->
  objectMeta m object !! k = default ∅ m !! k.
Proof.
  intros H1 H2. unfold objectMeta.
  destruct (HasSuffix object (str "/")); case_decide;
    destruct H2 as [H2|H2]; try done; by rewrite ?lookup_insert_ne by congruence.
Qed.

End convert.

(** ** A reference codec, over the binary encoding of countable types *)
Fixpoint bits_of_pos (p : positive) : list bool :=
  match p with xH => [] | xO p => false :: bits_of_pos p | xI p => true :: bits_of_pos p end.

Fixpoint pos_of_bits (l : list bool) : positive :=
  match l with [] => xH | false :: l => xO (pos_of_bits l) | true :: l => xI (pos_of_bits l) end.

(** Seven bits to a byte; the bits left over have a byte each. *)
Fixpoint pack (l : list bool) : bytes :=
  match l with
  | b0 :: b1 :: b2 :: b3 :: b4 :: b5 :: b6 :: l' => Ascii b0 b1 b2 b3 b4 b5 b6 true :: pack l'
  | _ => (λ b, Ascii b false false false false false false false) <$> l
  end.

Definition unpack_byte (c : ascii) : list bool :=
  let '(Ascii b0 b1 b2 b3 b4 b5 b6 full) := c in
  if full then [b0; b1; b2; b3; b4; b5; b6] else [b0].

Lemma unpack_pack l : mbind unpack_byte (pack l) = l.
Proof.
  revert l. fix IH 1.
  intros [|b0 [|b1 [|b2 [|b3 [|b4 [|b5 [|b6 l]]]]]]]; [done..|].
  cbn [pack mbind list_bind unpack_byte app]. do 7 f_equal. apply IH.
Qed.

Definition bytes_of_pos (p : positive) : bytes := "#"%char :: pack (bits_of_pos p).

Definition pos_of_bytes (s : bytes) : option positive :=
  match s with
  | c :: s' => if decide (c = "#"%char) then Some (pos_of_bits (mbind unpack_byte s')) else None
  | [] => None
  end.

Lemma pos_of_bytes_of_pos p : pos_of_bytes (bytes_of_pos p) = Some p.
Proof.
  unfold pos_of_bytes, bytes_of_pos. rewrite decide_True by done. rewrite unpack_pack. f_equal.
  induction p as [p IH|p IH|]; simpl; by rewrite ?IH.
Qed.

#[export] Instance part_countable : Countable ObjectPartInfo.
Proof.
  refine (inj_countable' (λ p, (part_ETag p, part_Number p, part_Size p, part_ActualSize p))
    (λ '(a, b, c, d), mkPart a b c d) _). by intros [].
Defined.
#[export] Instance koinfo_countable : Countable KOInfo.
Proof.
  refine (inj_countable' (λ k, (ko_Name k, ko_Size k, ko_CreatedTime k, ko_ModTime k))
    (λ '(a, b, c, d), mkKOInfo a b c d) _). by intros [].
Defined.
#[export] Instance checksum_countable : Countable FSChecksumInfoV1.
Proof.
  refine (inj_countable' (λ k, (Algorithm k, Blocksize k, Hashes k))
    (λ '(a, b, c), mkChecksum a b c) _). by intros [].
Defined.
#[export] Instance fsmeta_countable : Countable fsMetaV1.
Proof.
  refine (inj_countable' (λ m, (Version m, Checksum m, Meta m, Parts m, KoInfo m))
    (λ '(a, b, c, d, e), mkFsMeta a b c d e) _). by intros [].
Defined.
#[export] Instance bucketinfo_countable : Countable BucketInfo.
Proof.
  refine (inj_countable' (λ b, (bi_Name b, bi_Created b)) (λ '(a, b), mkBucketInfo a b) _).
  by intros [].
Defined.

#[global] Arguments bytes_of_pos : simpl never.
#[global] Arguments pos_of_bytes : simpl never.

Definition ref_codec : MetaCodec := {|
  json_Marshal m := bytes_of_pos (encode m);
  json_Unmarshal s base :=
    match pos_of_bytes s ≫= decode with
    | Some m => (json_overlay m base, None)
    | None => (base, Some errJSON)
    end;
  gob_Encode b := bytes_of_pos (encode b);
  gob_Decode s b0 := default b0 (pos_of_bytes s ≫= decode) |}.

Lemma bytes_of_pos_nonempty p : bytes_of_pos p <> [].
Proof. done. Qed.

Lemma ref_codec_laws : MetaCodecLaws ref_codec.
Proof.
  split; cbn [json_Marshal json_Unmarshal gob_Encode gob_Decode ref_codec].
  - intros m base _ _. rewrite pos_of_bytes_of_pos. simpl. by rewrite decode_encode.
  - intros. apply bytes_of_pos_nonempty.
  - intros b. rewrite pos_of_bytes_of_pos. simpl. by rewrite decode_encode.
  - intros. apply bytes_of_pos_nonempty.
Qed.

Definition ref_env : MetaEnv := {| mime_DB_lower _ := None; http_ParseTime _ := None |}.

(** The checksum record survives its own JSON encoding: what [MarshalJSON]
    writes, with the hashes in hexadecimal, [UnmarshalJSON] reads back, whatever
    the record it decodes into held before. *)
Theorem checksum_json_roundtrip c base :
  checksum_UnmarshalJSON base (checksum_MarshalJSON c) = (c, None).
Proof.
  unfold checksum_UnmarshalJSON, checksum_MarshalJSON. cbn [ci_Hashes ci_Algorithm ci_Blocksize].
  rewrite decode_encode_hashes. by destruct c.
Qed.
