(* ===== verification/GoTime.v ===== *)
(** * Dates: time.Format and time.Parse in UTC

    The two layouts of request signatures, "20060102T150405Z" and "20060102",
    over the proleptic Gregorian calendar, and that parsing inverts printing.
    A time is a number of nanoseconds since the Unix epoch. *)
From S2P Require Import Prelude GoLib Metadata.
Import strconv.

(** ** The calendar *)

(** The date of a number of days since 1970-01-01. *)
Definition civil (days : Z) : Z * Z * Z :=
  let z := days + 719468 in
  let era := z / 146097 in
  let doe := z mod 146097 in
  let yoe := (doe - doe / 1460 + doe / 36524 - doe / 146096) / 365 in
  let doy := doe - (365 * yoe + yoe / 4 - yoe / 100) in
  let mp := (5 * doy + 2) / 153 in
  let d := doy - (153 * mp + 2) / 5 + 1 in
  let m := if mp <? 10 then mp + 3 else mp - 9 in
  (yoe + era * 400 + (if m <=? 2 then 1 else 0), m, d).

Definition days_of (y m d : Z) : Z :=
  let y' := if m <=? 2 then y - 1 else y in
  let era := y' / 400 in
  let yoe := y' mod 400 in
  let mp := (m + 9) mod 12 in
  let doy := (153 * mp + 2) / 5 + d - 1 in
  era * 146097 + (yoe * 365 + yoe / 4 - yoe / 100 + doy) - 719468.

Definition isLeap (y : Z) : bool :=
  (y mod 4 =? 0) && (negb (y mod 100 =? 0) || (y mod 400 =? 0)).
Definition daysIn (m y : Z) : Z :=
  if m =? 2 then (if isLeap y then 29 else 28)
  else if (m =? 4) || (m =? 6) || (m =? 9) || (m =? 11) then 30 else 31.

(** ** Format *)

(** [w] decimal digits. *)
Fixpoint digits (w : nat) (n : Z) : bytes :=
  match w with
  | O => []
  | S w' => digits w' (n / 10) ++ [digit (Z.to_N (n mod 10))]
  end.

Definition day_ns : Z := 86400 * 10 ^ 9.
Definition Format_yyyymmdd (t : time) : bytes :=
  let '(y, m, d) := civil (t / day_ns) in digits 4 y ++ digits 2 m ++ digits 2 d.
Definition Format_iso8601 (t : time) : bytes :=
  let s := (t / 10 ^ 9) mod 86400 in
  Format_yyyymmdd t ++ "T"%char :: digits 2 (s / 3600) ++ digits 2 (s / 60 mod 60) ++ digits 2 (s mod 60)
    ++ ["Z"%char].

(** ** Parse *)

(** [getnum]: two digits, or one when the layout does not fix the width. *)
Definition getnum (fixed : bool) (s : bytes) : option (Z * bytes) :=
  match s with
  | [] => None
  | a :: s' =>
      x ← digit_val a;
      match s' with
      | b :: s'' =>
          match digit_val b with
          | Some y => Some (Z.of_N (10 * x + y), s'')
          | None => if fixed then None else Some (Z.of_N x, s')
          end
      | [] => if fixed then None else Some (Z.of_N x, s')
      end
  end.

(** Four digits. *)
Definition getyear (s : bytes) : option (Z * bytes) :=
  if (length s <? 4)%nat then None
  else y ← ParseUint (take 4 s); Some (Z.of_N y, drop 4 s).

Definition in_bounds (lo x hi : Z) : option unit := if (lo <=? x) && (x <=? hi) then Some tt else None.

(** The year, month and day of both layouts. *)
Definition parse_date (s : bytes) : option (Z * bytes) :=
  '(y, s) ← getyear s;
  '(m, s) ← getnum true s;
  _ ← in_bounds 1 m 12;
  '(d, s) ← getnum true s;
  _ ← in_bounds 1 d (daysIn m y);
  Some (days_of y m d, s).

Definition Parse_yyyymmdd (s : bytes) : option time :=
  '(days, s) ← parse_date s;
  if decide (s = []) then Some (days * day_ns) else None.

Fixpoint span_digits (s : bytes) : bytes * bytes :=
  match s with
  | [] => ([], [])
  | c :: s' => match digit_val c with
               | Some _ => let '(l, r) := span_digits s' in (c :: l, r)
               | None => ([], s)
               end
  end.

(** A fraction of a second that the layout does not mention is accepted; digits
    after the ninth are dropped. *)
Definition parse_fraction (s : bytes) : option (Z * bytes) :=
  match s with
  | c :: s' =>
      if decide (c = "."%char \/ c = ","%char) then
        let '(ds, rest) := span_digits s' in
        if decide (ds = []) then Some (0, s)
        else
          ns ← ParseUint (take 9 ds);
          Some (Z.of_N ns * 10 ^ (Z.max 0 (9 - Z.of_nat (length ds))), rest)
      else Some (0, s)
  | [] => Some (0, s)
  end.

Definition literal (c : ascii) (s : bytes) : option bytes :=
  match s with
  | x :: s' => if decide (x = c) then Some s' else None
  | [] => None
  end.

Definition Parse_iso8601 (s : bytes) : option time :=
  '(days, s) ← parse_date s;
  s ← literal "T"%char s;
  '(h, s) ← getnum false s;
  _ ← in_bounds 0 h 23;
  '(mi, s) ← getnum true s;
  _ ← in_bounds 0 mi 59;
  '(sec, s) ← getnum true s;
  _ ← in_bounds 0 sec 59;
  '(ns, s) ← parse_fraction s;
  s ← literal "Z"%char s;
  if decide (s = []) then Some (days * day_ns + (h * 3600 + mi * 60 + sec) * 10 ^ 9 + ns) else None.

(** ** Durations: time.ParseDuration *)

(** The part of a fraction of a unit is computed in floating point, and is an
    interface: the digits of the fraction and the unit in nanoseconds. *)
Class FloatEnv := { fraction_ns : bytes -> Z -> Z }.

Definition unitMap (u : bytes) : option Z :=
  if decide (u = str "ns") then Some 1
  else if decide (u = str "us" \/ u = [ascii_of_N 194; ascii_of_N 181; "s"%char]
                  \/ u = [ascii_of_N 206; ascii_of_N 188; "s"%char]) then Some (10 ^ 3)
  else if decide (u = str "ms") then Some (10 ^ 6)
  else if decide (u = str "s") then Some (10 ^ 9)
  else if decide (u = str "m") then Some (60 * 10 ^ 9)
  else if decide (u = str "h") then Some (3600 * 10 ^ 9)
  else None.

(** The characters of a unit: up to a point or a digit. *)
Fixpoint span_unit (s : bytes) : bytes * bytes :=
  match s with
  | [] => ([], [])
  | c :: s' => if decide (c = "."%char \/ digit_val c <> None) then ([], s)
               else let '(l, r) := span_unit s' in (c :: l, r)
  end.

Section durations.
Context `{FloatEnv}.

(** One number with its unit, and what is left; [None] is an error. *)
Definition duration_part (s : bytes) : option (Z * bytes) :=
  let '(ds, s1) := span_digits s in
  let v := match ParseUint ds with Some n => Z.of_N n | None => 0 end in
  if 2 ^ 63 <? v then None
  else
    let '(point, fs, s2) :=
      match s1 with
      | c :: s1' => if decide (c = "."%char) then let '(fs, r) := span_digits s1' in (true, fs, r)
                    else (false, [], s1)
      | [] => (false, [], s1)
      end in
    if decide (ds = [] /\ fs = []) then None
    else
      let '(u, rest) := span_unit s2 in
      if decide (u = []) then None
      else
        unit ← unitMap u;
        if 2 ^ 63 / unit <? v then None
        else
          let v := v * unit + (if decide (Forall (λ c, c = "0"%char) fs) then 0 else fraction_ns fs unit) in
          if 2 ^ 63 <? v then None else Some (v, rest).

(** Each number takes at least one byte. *)
Fixpoint duration_loop (fuel : nat) (s : bytes) (d : Z) : option Z :=
  match s, fuel with
  | [], _ => Some d
  | _, O => None
  | _, S fuel' =>
      '(v, rest) ← duration_part s;
      if 2 ^ 63 <? d + v then None else duration_loop fuel' rest (d + v)
  end.

Definition ParseDuration (s : bytes) : option Z :=
  let '(neg, s) := match s with
                   | c :: s' => if decide (c = "-"%char) then (true, s')
                                else if decide (c = "+"%char) then (false, s') else (false, s)
                   | [] => (false, s)
                   end in
  if decide (s = str "0") then Some 0
  else if decide (s = []) then None
  else
    d ← duration_loop (length s) s 0;
    if (neg : bool) then Some (- d) else if 2 ^ 63 - 1 <? d then None else Some d.
End durations.

Example Format_ex :
  Format_iso8601 (1369353600 * 10 ^ 9) = str "20130524T000000Z" /\
  Format_yyyymmdd (951827696 * 10 ^ 9) = str "20000229".
Proof. split; vm_compute; reflexivity. Qed.

Example Parse_ex :
  Parse_iso8601 (str "20130524T000000Z") = Some (1369353600 * 10 ^ 9) /\
  Parse_iso8601 (str "20130524T00000.25Z") = None /\
  Parse_iso8601 (str "20130524T000001.25Z") = Some (1369353601250 * 10 ^ 6) /\
  Parse_yyyymmdd (str "20130229") = None.
Proof. split_and!; vm_compute; reflexivity. Qed.

(** ** The calendar round trip *)

(** A day of a year that starts in March: its month and its day of the month. *)
Definition year_day_ok (doy : Z) : bool :=
  let mp := (5 * doy + 2) / 153 in
  let d := doy - (153 * mp + 2) / 5 + 1 in
  let m := if mp <? 10 then mp + 3 else mp - 9 in
  ((153 * ((m + 9) mod 12) + 2) / 5 + d - 1 =? doy) && (1 <=? m) && (m <=? 12) && (1 <=? d)
  && (d <=? daysIn m (if doy =? 365 then 0 else 1)).

Lemma year_days : forallb (λ i, year_day_ok (Z.of_nat i)) (seq 0 366) = true.
Proof. vm_compute. reflexivity. Qed.

(** A day of an era of 400 years: its year, and the leap day at the year's end. *)
Lemma era_days doe :
  0 <= doe < 146097 ->
  let yoe := (doe - doe / 1460 + doe / 36524 - doe / 146096) / 365 in
  let doy := doe - (365 * yoe + yoe / 4 - yoe / 100) in
  0 <= yoe < 400 /\ 0 <= doy <= 365 /\
  (doy = 365 -> (yoe + 1) mod 4 = 0 /\ ((yoe + 1) mod 100 <> 0 \/ (yoe + 1) mod 400 = 0)).
Proof.
  intros H yoe doy. subst doy yoe. split_and!; Z.to_euclidean_division_equations; lia.
Qed.

Lemma isLeap_shift y k : isLeap (y + k * 400) = isLeap y.
Proof.
  unfold isLeap. rewrite Z.mod_add by lia.
  replace (y + k * 400) with (y + (100 * k) * 4) at 1 by lia.
  replace (y + k * 400) with (y + (4 * k) * 100) by lia. by rewrite !Z.mod_add by lia.
Qed.

(** The date of any day is valid and gives the day back. *)
Lemma civil_days days :
  let '(y, m, d) := civil days in days_of y m d = days /\ 1 <= m <= 12 /\ 1 <= d <= daysIn m y.
Proof.
  unfold civil. cbv zeta. set (z := days + 719468).
  pose proof (era_days (z mod 146097) ltac:(apply Z.mod_pos_bound; lia)) as Hera. cbv zeta in Hera.
  set (yoe := (z mod 146097 - _ + _ - _) / 365) in *. set (doy := z mod 146097 - (365 * yoe + yoe / 4 - yoe / 100)) in *.
  destruct Hera as (Hyoe & Hdoy & Hleap).
  pose proof year_days as Hy. rewrite forallb_forall in Hy. specialize (Hy (Z.to_nat doy)).
  rewrite Z2Nat.id in Hy by lia. specialize (Hy ltac:(apply in_seq; lia)). unfold year_day_ok in Hy. cbv zeta in Hy.
  set (mp := (5 * doy + 2) / 153) in *. set (d := doy - (153 * mp + 2) / 5 + 1) in *. set (m := if mp <? 10 then _ else _) in *.
  zbool. assert (doy = z mod 146097 - (365 * yoe + yoe / 4 - yoe / 100)) as Hdef by done.
  clearbody m d mp doy yoe. split; [|split; [lia|]].
  - unfold days_of. cbv zeta.
    assert ((if m <=? 2 then yoe + z / 146097 * 400 + (if m <=? 2 then 1 else 0) - 1
             else yoe + z / 146097 * 400 + (if m <=? 2 then 1 else 0)) = yoe + z / 146097 * 400) as ->
      by (destruct (m <=? 2); lia).
    rewrite Z.div_add, Z.mod_add by lia. rewrite (Z.div_small yoe), (Z.mod_small yoe) by lia.
    pose proof (Z.div_mod z 146097). unfold z in *. lia.
  - split; [lia|]. revert H0. unfold daysIn. destruct (Z.eqb_spec m 2) as [->|]; [|done]. cbn [Z.leb].
    replace (yoe + z / 146097 * 400 + (if 2 <=? 2 then 1 else 0)) with (yoe + 1 + z / 146097 * 400) by (simpl; lia).
    rewrite isLeap_shift. destruct (Z.eqb_spec doy 365) as [E|E].
    + intros Hd. destruct (Hleap E) as [H4 H5]. unfold isLeap.
      apply Z.eqb_eq in H4. rewrite H4. destruct H5 as [H5|H5]; [apply Z.eqb_neq in H5|apply Z.eqb_eq in H5];
        rewrite H5; rewrite ?orb_true_r; exact Hd.
    + replace (isLeap 1) with false by reflexivity. destruct (isLeap _); lia.
Qed.

(** ** Digits *)
Lemma digits_length w n : length (digits w n) = w.
Proof. revert n. induction w as [|w IH]; intros n; simpl; [done|]. rewrite length_app, IH. simpl. lia. Qed.

Lemma digits_digits w n : Forall is_digit (digits w n).
Proof.
  revert n. induction w as [|w IH]; intros n; simpl; [done|]. apply Forall_app. split; [done|].
  apply Forall_singleton, digit_is_digit. pose proof (Z.mod_pos_bound n 10). lia.
Qed.

Lemma parse_digits_app s t acc : parse_digits (s ++ t) acc = (n ← parse_digits s acc; parse_digits t n).
Proof. revert acc. induction s as [|c s IH]; intros acc; simpl; [done|]. by destruct (digit_val c). Qed.

Lemma parse_digits_digits w n : 0 <= n < 10 ^ Z.of_nat w -> parse_digits (digits w n) 0 = Some (Z.to_N n).
Proof.
  revert n. induction w as [|w IH]; intros n Hn; [simpl in *; f_equal; lia|].
  cbn [digits]. rewrite parse_digits_app.
  assert (10 ^ Z.of_nat (S w) = 10 * 10 ^ Z.of_nat w) as Hp by (rewrite Nat2Z.inj_succ, Z.pow_succ_r; lia).
  pose proof (Z.div_mod n 10). pose proof (Z.mod_pos_bound n 10).
  rewrite IH by lia. cbn [mbind option_bind parse_digits]. rewrite digit_val_digit by lia. f_equal. lia.
Qed.

Lemma getnum_digits fixed n s : 0 <= n < 100 -> getnum fixed (digits 2 n ++ s) = Some (n, s).
Proof.
  intros Hn. cbn [digits app getnum]. pose proof (Z.div_mod n 10). pose proof (Z.mod_pos_bound n 10).
  assert (n / 10 mod 10 = n / 10) as -> by (apply Z.mod_small; lia).
  rewrite digit_val_digit by lia. cbn [mbind option_bind app]. rewrite digit_val_digit by lia.
  cbn [mbind option_bind]. f_equal. f_equal. lia.
Qed.

Lemma getyear_digits y s : 0 <= y < 10000 -> getyear (digits 4 y ++ s) = Some (y, s).
Proof.
  intros Hy. unfold getyear. pose proof (digits_length 4 y) as Hl.
  rewrite length_app, Hl. destruct (Nat.ltb_spec (4 + length s) 4); [lia|].
  rewrite take_app_length', drop_app_length' by done. unfold ParseUint.
  rewrite parse_digits_digits by lia. destruct (digits 4 y) eqn:E; [done|]. simpl. do 2 f_equal. lia.
Qed.

Lemma in_bounds_ok lo x hi : lo <= x <= hi -> in_bounds lo x hi = Some tt.
Proof. intros. unfold in_bounds. destruct (Z.leb_spec lo x), (Z.leb_spec x hi); simpl; lia || done. Qed.

(** The times whose year has four digits. *)
Definition four_digit_year (t : time) : Prop := 0 <= (civil (t / day_ns)).1.1 < 10000.

Lemma parse_date_format t s :
  four_digit_year t -> parse_date (Format_yyyymmdd t ++ s) = Some (t / day_ns, s).
Proof.
  unfold four_digit_year, Format_yyyymmdd. pose proof (civil_days (t / day_ns)) as Hc.
  destruct (civil (t / day_ns)) as [[y m] d]. cbn [fst]. destruct Hc as (Hd & Hm & Hdd). intros Hy.
  assert (d <= 31) by (unfold daysIn in Hdd; repeat case_match; lia).
  unfold parse_date. rewrite <- !app_assoc, getyear_digits by done. cbn [mbind option_bind].
  rewrite getnum_digits by lia. cbn [mbind option_bind]. rewrite in_bounds_ok by lia. cbn [mbind option_bind].
  rewrite getnum_digits by lia. cbn [mbind option_bind]. rewrite in_bounds_ok by lia. cbn [mbind option_bind].
  by rewrite Hd.
Qed.

Lemma Parse_Format_yyyymmdd t :
  four_digit_year t -> Parse_yyyymmdd (Format_yyyymmdd t) = Some (t / day_ns * day_ns).
Proof.
  intros Ht. unfold Parse_yyyymmdd. pose proof (parse_date_format t [] Ht) as Hp. rewrite app_nil_r in Hp.
  by rewrite Hp.
Qed.

Lemma parse_fraction_Z s : parse_fraction ("Z"%char :: s) = Some (0, "Z"%char :: s).
Proof. reflexivity. Qed.

Lemma literal_cons c s : literal c (c :: s) = Some s.
Proof. unfold literal. by rewrite decide_True. Qed.

(** Parsing a printed time gives the time, cut to seconds. *)
Lemma Parse_Format_iso8601 t :
  four_digit_year t -> Parse_iso8601 (Format_iso8601 t) = Some (t / 10 ^ 9 * 10 ^ 9).
Proof.
  intros Ht. unfold Parse_iso8601, Format_iso8601. cbv zeta. rewrite parse_date_format by done.
  cbn [mbind option_bind]. rewrite literal_cons.
  set (s := (t / 10 ^ 9) mod 86400). assert (0 <= s < 86400) as Hs by (unfold s; apply Z.mod_pos_bound; lia).
  assert (0 <= s / 3600 < 24) by (split; [apply Z.div_pos; lia|apply Z.div_lt_upper_bound; lia]).
  assert (0 <= s / 60 mod 60 < 60) by (apply Z.mod_pos_bound; lia).
  assert (0 <= s mod 60 < 60) by (apply Z.mod_pos_bound; lia).
  cbn [mbind option_bind].
  do 3 (rewrite getnum_digits by lia; cbn [mbind option_bind]; rewrite in_bounds_ok by lia; cbn [mbind option_bind]).
  rewrite parse_fraction_Z. cbn [mbind option_bind]. rewrite literal_cons.
  cbn [mbind option_bind]. rewrite decide_True by done. f_equal.
  assert (t / day_ns = t / 10 ^ 9 / 86400) as ->.
  { unfold day_ns. rewrite Z.mul_comm. symmetry. apply Z.div_div; lia. }
  assert (s = s / 3600 * 3600 + s / 60 mod 60 * 60 + s mod 60) as Hsec.
  { pose proof (Z.div_mod s 60). pose proof (Z.div_mod (s / 60) 60).
    assert (s / 60 / 60 = s / 3600) by (apply Z.div_div; lia). lia. }
  pose proof (Z.div_mod (t / 10 ^ 9) 86400). fold s in H. unfold day_ns. lia.
Qed.

(** ** Durations in whole seconds *)
Lemma span_digits_app ds c s :
  Forall is_digit ds -> digit_val c = None -> span_digits (ds ++ c :: s) = (ds, c :: s).
Proof.
  intros Hd Hc. induction Hd as [|x ds Hx Hd IH]; cbn [app span_digits]; [by rewrite Hc|].
  assert (∃ d, digit_val x = Some d) as [d ->]; [|by rewrite IH].
  unfold digit_val, is_digit in *. exists (N_of_ascii x - 48)%N.
  destruct (N.leb_spec 48 (N_of_ascii x)), (N.leb_spec (N_of_ascii x) 57); simpl; lia || done.
Qed.

Lemma duration_part_seconds `{FloatEnv} n :
  0 <= n <= 9223372036 -> duration_part (FormatInt n ++ str "s") = Some (n * 10 ^ 9, []).
Proof.
  intros Hn. unfold FormatInt. destruct (Z.ltb_spec n 0); [lia|]. set (ds := FormatUint (Z.to_N n)).
  unfold duration_part. change (str "s") with ["s"%char].
  rewrite span_digits_app; [|apply FormatUint_digits|reflexivity].
  assert (ds <> []) as Hne by (unfold ds, FormatUint; apply dec_digits_nonempty; lia).
  unfold ds. rewrite ParseUint_FormatUint. fold ds. rewrite Z2N.id by lia.
  destruct (Z.ltb_spec (2 ^ 63) n); [lia|]. cbv zeta beta iota.
  rewrite (decide_False (P := "s"%char = "."%char)) by done.
  rewrite decide_False by (intros [? _]; done). cbn [span_unit].
  rewrite decide_False by (intros [?|?]; done).
  cbn [mbind option_bind]. change (unitMap ["s"%char]) with (Some (10 ^ 9)). cbn [mbind option_bind].
  rewrite decide_False by done.
  assert (2 ^ 63 / 10 ^ 9 = 9223372036) as -> by reflexivity.
  destruct (Z.ltb_spec 9223372036 n); [lia|]. rewrite decide_True by done. rewrite Z.add_0_r.
  destruct (Z.ltb_spec (2 ^ 63) (n * 10 ^ 9)); [lia|]. done.
Qed.

Lemma FormatInt_head n : 0 <= n -> ∃ c s, FormatInt n = c :: s /\ is_digit c.
Proof.
  intros Hn. unfold FormatInt. destruct (Z.ltb_spec n 0); [lia|].
  pose proof (FormatUint_digits (Z.to_N n)) as Hd.
  destruct (FormatUint (Z.to_N n)) as [|c s] eqn:E; [exfalso; revert E; apply dec_digits_nonempty; lia|].
  inversion Hd. eauto.
Qed.

(** A whole number of seconds, as X-Amz-Expires gives it. *)
Lemma ParseDuration_seconds `{FloatEnv} n :
  0 <= n <= 9223372036 -> ParseDuration (FormatInt n ++ str "s") = Some (n * 10 ^ 9).
Proof.
  intros Hn. pose proof (duration_part_seconds n Hn) as Hp. unfold ParseDuration.
  destruct (FormatInt_head n) as (c & s & E & Hc); [lia|]. rewrite E in *. cbn [app] in *.
  rewrite decide_False by (intros ->; by apply is_digit_not with (d := "-"%char) in Hc).
  rewrite decide_False by (intros ->; by apply is_digit_not with (d := "+"%char) in Hc).
  rewrite decide_False by (intros Hs; injection Hs as -> Hs; by destruct s).
  rewrite decide_False by done. cbn [length duration_loop]. rewrite Hp. cbn [mbind option_bind].
  destruct (Z.ltb_spec (2 ^ 63) (0 + n * 10 ^ 9)); [lia|].
  assert (∀ fuel d, duration_loop fuel [] d = Some d) as Hnil by (by intros []). rewrite Hnil. cbn [mbind option_bind].
  destruct (Z.ltb_spec (2 ^ 63 - 1) (0 + n * 10 ^ 9)); [lia|]. f_equal.
Qed.
