(* ===== verification/GoDate.v ===== *)
(** * Dates of headers and documents: [time.RFC3339], [http.TimeFormat], calendar arithmetic *)
From S2P Require Import Prelude GoLib GoText Metadata GoTime.
Import strconv.

(** The time of day "15:04:05" in seconds and nanoseconds. *)
Definition parse_clock (s : bytes) : option (Z * Z * bytes) :=
  '(h, s) ← getnum false s;
  _ ← in_bounds 0 h 23;
  s ← literal ":"%char s;
  '(mi, s) ← getnum true s;
  _ ← in_bounds 0 mi 59;
  s ← literal ":"%char s;
  '(sec, s) ← getnum true s;
  _ ← in_bounds 0 sec 59;
  '(ns, s) ← parse_fraction s;
  Some (h * 3600 + mi * 60 + sec, ns, s).

(** ** time.RFC3339 *)

(** "Z07:00": the offset from UTC in seconds. *)
Definition parse_zone (s : bytes) : option (Z * bytes) :=
  match s with
  | "Z"%char :: s' => Some (0, s')
  | sign :: s' =>
      if decide (sign = "+"%char \/ sign = "-"%char) then
        '(h, s) ← getnum true s';
        _ ← in_bounds 0 h 24;
        s ← literal ":"%char s;
        '(m, s) ← getnum true s;
        _ ← in_bounds 0 m 60;
        Some ((if decide (sign = "-"%char) then -1 else 1) * (h * 3600 + m * 60), s)
      else None
  | [] => None
  end.

Definition Parse_RFC3339 (s : bytes) : option time :=
  '(y, s) ← getyear s;
  s ← literal "-"%char s;
  '(m, s) ← getnum true s;
  _ ← in_bounds 1 m 12;
  s ← literal "-"%char s;
  '(d, s) ← getnum true s;
  _ ← in_bounds 1 d (daysIn m y);
  s ← literal "T"%char s;
  '(sec, ns, s) ← parse_clock s;
  '(off, s) ← parse_zone s;
  if decide (s = []) then Some (days_of y m d * day_ns + (sec - off) * 10 ^ 9 + ns) else None.

(** A year has at least four digits. *)
Definition format_year (y : Z) : bytes :=
  if (0 <=? y) && (y <? 10000) then digits 4 y
  else if y <? 0 then "-"%char :: (if y <=? -1000 then strconv.FormatInt (- y) else digits 4 (- y))
  else strconv.FormatInt y.
Lemma format_year_four y : 0 <= y < 10000 -> format_year y = digits 4 y.
Proof. intros Hy. unfold format_year. by replace ((0 <=? y) && (y <? 10000)) with true by lia. Qed.

(** A time in UTC. *)
Definition Format_RFC3339 (t : time) : bytes :=
  let '(y, m, d) := civil (t / day_ns) in
  let s := (t / 10 ^ 9) mod 86400 in
  format_year y ++ "-"%char :: digits 2 m ++ "-"%char :: digits 2 d ++ "T"%char ::
  digits 2 (s / 3600) ++ ":"%char :: digits 2 (s / 60 mod 60) ++ ":"%char :: digits 2 (s mod 60) ++ ["Z"%char].

Example rfc3339_ex :
  Parse_RFC3339 (str "2013-05-24T00:00:00Z") = Some (1369353600 * 10 ^ 9) /\
  Parse_RFC3339 (str "2013-05-24T02:30:00.5+02:30") = Some (1369353600 * 10 ^ 9 + 5 * 10 ^ 8) /\
  Parse_RFC3339 (str "2013-05-24 00:00:00Z") = None /\
  Format_RFC3339 (1369353600 * 10 ^ 9) = str "2013-05-24T00:00:00Z".
Proof. vm_compute. auto. Qed.

(** ** http.TimeFormat: "Mon, 02 Jan 2006 15:04:05 GMT" *)
Definition shortDayNames : list bytes := str <$> ["Sun"; "Mon"; "Tue"; "Wed"; "Thu"; "Fri"; "Sat"]%string.
Definition shortMonthNames : list bytes :=
  str <$> ["Jan"; "Feb"; "Mar"; "Apr"; "May"; "Jun"; "Jul"; "Aug"; "Sep"; "Oct"; "Nov"; "Dec"]%string.

(** [lookup]: the index of the first name that begins the string, in any case. *)
Fixpoint lookup_name (i : Z) (names : list bytes) (s : bytes) : option (Z * bytes) :=
  match names with
  | [] => None
  | n :: names' =>
      if decide (to_lower <$> take (length n) s = to_lower <$> n) then Some (i, drop (length n) s)
      else lookup_name (i + 1) names' s
  end.

(** A space of the layout stands for any number of spaces, but not for another
    character. *)
Fixpoint cutspace (s : bytes) : bytes :=
  match s with " "%char :: s' => cutspace s' | _ => s end.
Definition skip_space (s : bytes) : option bytes :=
  match s with
  | " "%char :: _ | [] => Some (cutspace s)
  | _ => None
  end.

Definition Parse_http (s : bytes) : option time :=
  '(_, s) ← lookup_name 0 shortDayNames s;
  s ← literal ","%char s;
  s ← skip_space s;
  '(d, s) ← getnum true s;
  s ← skip_space s;
  '(m, s) ← lookup_name 1 shortMonthNames s;
  s ← skip_space s;
  '(y, s) ← getyear s;
  s ← skip_space s;
  '(sec, ns, s) ← parse_clock s;
  s ← skip_space s;
  _ ← in_bounds 1 d (daysIn m y);
  if decide (s = str "GMT") then Some (days_of y m d * day_ns + sec * 10 ^ 9 + ns) else None.

Definition weekday (days : Z) : Z := (days + 4) mod 7.
Definition Format_http (t : time) : bytes :=
  let days := t / day_ns in
  let '(y, m, d) := civil days in
  let s := (t / 10 ^ 9) mod 86400 in
  default [] (shortDayNames !! Z.to_nat (weekday days)) ++ str ", " ++ digits 2 d ++ str " " ++
  default [] (shortMonthNames !! Z.to_nat (m - 1)) ++ str " " ++ format_year y ++ str " " ++
  digits 2 (s / 3600) ++ str ":" ++ digits 2 (s / 60 mod 60) ++ str ":" ++ digits 2 (s mod 60) ++ str " GMT".

Example http_date_ex :
  Parse_http (str "Fri, 24 May 2013 00:00:00 GMT") = Some (1369353600 * 10 ^ 9) /\
  Format_http (1369353600 * 10 ^ 9) = str "Fri, 24 May 2013 00:00:00 GMT" /\
  Parse_http (str "Fri, 24 May 2013 00:00:00") = None.
Proof. vm_compute. auto. Qed.

(** ** [time.AddDate] in UTC: the fields are added and then normalised *)
Definition AddDate (t : time) (years months days : Z) : time :=
  let '(y, m, d) := civil (t / day_ns) in
  let m0 := m - 1 + months in
  let y := y + years + m0 / 12 in
  let m := m0 mod 12 + 1 in
  (days_of y m 1 + (d - 1 + days)) * day_ns + t mod day_ns.

(** ** Parsing what was printed *)
Lemma clock_digits s rest :
  0 <= s < 86400 -> (∀ c l, rest = c :: l -> c <> "."%char /\ c <> ","%char) ->
  parse_clock (digits 2 (s / 3600) ++ ":"%char :: digits 2 (s / 60 mod 60) ++ ":"%char :: digits 2 (s mod 60) ++ rest)
  = Some (s, 0, rest).
Proof.
  intros Hs Hrest. unfold parse_clock.
  assert (0 <= s / 3600 < 24) by (split; [apply Z.div_pos; lia|apply Z.div_lt_upper_bound; lia]).
  assert (0 <= s / 60 mod 60 < 60) by (apply Z.mod_pos_bound; lia).
  assert (0 <= s mod 60 < 60) by (apply Z.mod_pos_bound; lia).
  do 2 (rewrite getnum_digits by lia; cbn [mbind option_bind]; rewrite in_bounds_ok by lia; cbn [mbind option_bind];
        rewrite literal_cons; cbn [mbind option_bind]).
  rewrite getnum_digits by lia. cbn [mbind option_bind]. rewrite in_bounds_ok by lia. cbn [mbind option_bind].
  assert (parse_fraction rest = Some (0, rest)) as ->.
  { unfold parse_fraction. destruct rest as [|c l]; [done|]. destruct (Hrest c l eq_refl). by rewrite decide_False by tauto. }
  cbn [mbind option_bind]. do 3 f_equal.
  pose proof (Z.div_mod s 60). pose proof (Z.div_mod (s / 60) 60).
  assert (s / 60 / 60 = s / 3600) by (apply Z.div_div; lia). lia.
Qed.

Lemma split_day t : t / day_ns * day_ns + (t / 10 ^ 9) mod 86400 * 10 ^ 9 = t / 10 ^ 9 * 10 ^ 9.
Proof.
  assert (t / day_ns = t / 10 ^ 9 / 86400) as ->.
  { unfold day_ns. rewrite Z.mul_comm. symmetry. apply Z.div_div; lia. }
  pose proof (Z.div_mod (t / 10 ^ 9) 86400). unfold day_ns. lia.
Qed.

Lemma Parse_Format_RFC3339 t :
  four_digit_year t -> Parse_RFC3339 (Format_RFC3339 t) = Some (t / 10 ^ 9 * 10 ^ 9).
Proof.
  unfold four_digit_year, Format_RFC3339, Parse_RFC3339. pose proof (civil_days (t / day_ns)) as Hc.
  destruct (civil (t / day_ns)) as [[y m] d]. cbn [fst]. destruct Hc as (Hd & Hm & Hdd). intros Hy. cbv zeta.
  assert (d <= 31) by (unfold daysIn in Hdd; repeat case_match; lia).
  rewrite format_year_four, getyear_digits by done. cbn [mbind option_bind]. rewrite literal_cons. cbn [mbind option_bind].
  do 2 (rewrite getnum_digits by lia; cbn [mbind option_bind]; rewrite in_bounds_ok by lia; cbn [mbind option_bind];
        rewrite literal_cons; cbn [mbind option_bind]).
  rewrite clock_digits; [|apply Z.mod_pos_bound; lia|by intros c l [= <- <-]].
  cbn [mbind option_bind parse_zone]. rewrite decide_True by done. rewrite Hd, Z.sub_0_r, Z.add_0_r. f_equal. apply split_day.
Qed.

Lemma lookup_name_found names i0 i n rest :
  names !! i = Some n -> (∀ j n', (j < i)%nat -> names !! j = Some n' ->
    to_lower <$> take (length n') (n ++ rest) <> to_lower <$> n') ->
  lookup_name i0 names (n ++ rest) = Some (i0 + Z.of_nat i, rest).
Proof.
  revert i0 i. induction names as [|x names IH]; [done|]. intros i0 [|i] Hi Hj; cbn.
  - injection Hi as ->. rewrite take_app_length, drop_app_length, decide_True by done. do 2 f_equal. lia.
  - rewrite decide_False by (apply (Hj 0%nat x); [lia|done]). rewrite (IH (i0 + 1) i Hi).
    + do 2 f_equal. lia.
    + intros j n' Hlt Hn'. apply (Hj (S j)); [lia|done].
Qed.

(** The names of a list that all have the length of [n]. *)
Lemma lookup_short (names : list bytes) i0 i n rest :
  Forall (λ x : bytes, length x = 3%nat) names -> NoDup ((λ x : bytes, (to_lower <$> x : bytes)) <$> names) -> names !! i = Some n ->
  lookup_name i0 names (n ++ rest) = Some (i0 + Z.of_nat i, rest).
Proof.
  intros Hl Hn Hi. apply lookup_name_found; [done|]. intros j n' Hlt Hj E.
  rewrite Forall_lookup in Hl. rewrite (Hl _ _ Hj), <- (Hl _ _ Hi), take_app_length in E.
  assert (i = j); [|lia]. eapply NoDup_lookup; [exact Hn| |]; rewrite list_lookup_fmap.
  - by rewrite Hi.
  - by rewrite Hj, E.
Qed.

Lemma skip_one s : (∀ l, s <> " "%char :: l) -> skip_space (" "%char :: s) = Some s.
Proof. intros H. cbn. destruct s as [|c s]; [done|]. destruct (decide (c = " "%char)) as [->|]; [by destruct (H s)|].
  destruct c as [[] [] [] [] [] [] [] []]; done.
Qed.

Lemma digits_no_space w n s l : (0 < w)%nat -> digits w n ++ s <> " "%char :: l.
Proof.
  intros Hw E. pose proof (digits_digits w n) as Hd. pose proof (digits_length w n) as Hl.
  destruct (digits w n) as [|c ds]; [cbn in Hl; lia|]. injection E as -> _. apply Forall_inv in Hd as Hc.
  unfold is_digit in Hc. cbn in Hc. lia.
Qed.

Lemma Parse_Format_http t :
  four_digit_year t -> Parse_http (Format_http t) = Some (t / 10 ^ 9 * 10 ^ 9).
Proof.
  unfold four_digit_year, Format_http, Parse_http. pose proof (civil_days (t / day_ns)) as Hc.
  destruct (civil (t / day_ns)) as [[y m] d]. cbn [fst]. destruct Hc as (Hd & Hm & Hdd). intros Hy. cbv zeta. rewrite format_year_four by done.
  assert (d <= 31) by (unfold daysIn in Hdd; repeat case_match; lia).
  assert (0 <= weekday (t / day_ns) < 7) as Hw by (apply Z.mod_pos_bound; lia).
  assert (∃ wd, shortDayNames !! Z.to_nat (weekday (t / day_ns)) = Some wd) as [wd Hwd]
    by (apply lookup_lt_is_Some; cbn; lia).
  assert (∃ mn, shortMonthNames !! Z.to_nat (m - 1) = Some mn) as [mn Hmn] by (apply lookup_lt_is_Some; cbn; lia).
  rewrite Hwd, Hmn. cbn [default]. change (str ", ") with [","%char; " "%char]. change (str " ") with [" "%char].
  change (str ":") with [":"%char]. cbn [app].
  rewrite (lookup_short shortDayNames 0 _ wd) by (done || (apply (bool_decide_eq_true_1 _); reflexivity)).
  cbn [mbind option_bind]. rewrite literal_cons. cbn [mbind option_bind].
  rewrite skip_one by (intros; by apply digits_no_space; lia). cbn [mbind option_bind].
  rewrite getnum_digits by lia. cbn [mbind option_bind].
  assert (∀ s l, mn ++ s <> " "%char :: l) as Hms.
  { assert (Forall (λ x, head x <> Some " "%char /\ x <> []) shortMonthNames) as Hf by (apply (bool_decide_eq_true_1 _); reflexivity).
    rewrite Forall_lookup in Hf. destruct (Hf _ _ Hmn) as [H1 H2]. intros s l E. destruct mn as [|c mn]; [done|].
    injection E as -> _. by apply H1. }
  rewrite skip_one by (intros; apply Hms). cbn [mbind option_bind].
  rewrite (lookup_short shortMonthNames 1 _ mn) by (done || (apply (bool_decide_eq_true_1 _); reflexivity)).
  cbn [mbind option_bind]. replace (1 + Z.of_nat (Z.to_nat (m - 1))) with m by lia.
  rewrite skip_one by (intros; by apply digits_no_space; lia). cbn [mbind option_bind].
  rewrite getyear_digits by done. cbn [mbind option_bind].
  rewrite skip_one by (intros; by apply digits_no_space; lia). cbn [mbind option_bind].
  change (str " GMT") with (" "%char :: str "GMT"). rewrite clock_digits; [|apply Z.mod_pos_bound; lia|by intros c l [= <- <-]].
  cbn [mbind option_bind]. rewrite skip_one by (intros ? [=]). cbn [mbind option_bind].
  rewrite in_bounds_ok by lia. cbn [mbind option_bind]. rewrite decide_True by done. rewrite Hd, Z.add_0_r. f_equal. apply split_day.
Qed.
