(* ===== verification/Base64.v ===== *)
(** * encoding/base64: the standard encoding with padding

    [StdEncoding] and [StdEncoding.Strict()], as the signatures of version 2, the
    Content-Md5 header and the session policies use them. *)
From S2P Require Import Prelude GoLib.

Module base64.

Definition encodeStd : bytes := str "ABCDEFGHIJKLMNOPQRSTUVWXYZabcdefghijklmnopqrstuvwxyz0123456789+/".
Definition digit (n : N) : ascii := default "="%char (encodeStd !! N.to_nat n).
Definition undigit (c : ascii) : option N :=
  let n := N_of_ascii c in
  if ((65 <=? n) && (n <=? 90))%N then Some (n - 65)%N
  else if ((97 <=? n) && (n <=? 122))%N then Some (n - 71)%N
  else if ((48 <=? n) && (n <=? 57))%N then Some (n + 4)%N
  else if (n =? 43)%N then Some 62%N
  else if (n =? 47)%N then Some 63%N
  else None.

Fixpoint EncodeToString (src : bytes) : bytes :=
  match src with
  | a :: b :: c :: s =>
      let a := N_of_ascii a in let b := N_of_ascii b in let c := N_of_ascii c in
      digit (a / 4) :: digit (a mod 4 * 16 + b / 16) :: digit (b mod 16 * 4 + c / 64) ::
      digit (c mod 64) :: EncodeToString s
  | [a; b] =>
      let a := N_of_ascii a in let b := N_of_ascii b in
      [digit (a / 4); digit (a mod 4 * 16 + b / 16); digit (b mod 16 * 4); "="%char]
  | [a] => let a := N_of_ascii a in [digit (a / 4); digit (a mod 4 * 16); "="%char; "="%char]
  | [] => []
  end.

(** [decodeQuantum] on an input without line breaks; [strict] refuses trailing
    bits that are not zero. *)
Fixpoint decode (strict : bool) (s : bytes) : option bytes :=
  match s with
  | [] => Some []
  | w :: x :: y :: z :: s' =>
      w ← undigit w; x ← undigit x;
      match undigit y with
      | None =>
          if bool_decide (y = "="%char) && bool_decide (z = "="%char) && bool_decide (s' = [])
             && negb (strict && negb (x mod 16 =? 0)%N)
          then Some [ascii_of_N (w * 4 + x / 16)] else None
      | Some y =>
          match undigit z with
          | None =>
              if bool_decide (z = "="%char) && bool_decide (s' = []) && negb (strict && negb (y mod 4 =? 0)%N)
              then Some [ascii_of_N (w * 4 + x / 16); ascii_of_N (x mod 16 * 16 + y / 4)] else None
          | Some z =>
              r ← decode strict s';
              Some (ascii_of_N (w * 4 + x / 16) :: ascii_of_N (x mod 16 * 16 + y / 4) ::
                    ascii_of_N (y mod 4 * 64 + z) :: r)
          end
      end
  | _ => None
  end.

(** Line breaks are skipped wherever they stand. *)
Definition line_break (c : ascii) : Prop := c = ascii_of_N 10 \/ c = ascii_of_N 13.
#[global] Instance line_break_dec c : Decision (line_break c).
Proof. unfold line_break. apply _. Defined.

Definition DecodeString (strict : bool) (s : bytes) : option bytes :=
  decode strict (filter (λ c, ~ line_break c) s).

Lemma undigit_digit n : (n < 64)%N -> undigit (digit n) = Some n.
Proof.
  intros H. assert (Forall (λ k, undigit (digit (N.of_nat k)) = Some (N.of_nat k)) (seq 0 64)) as Hall.
  { apply (bool_decide_eq_true_1 _). reflexivity. }
  rewrite Forall_forall in Hall. specialize (Hall (N.to_nat n)). rewrite N2Nat.id in Hall.
  apply Hall, elem_of_seq. lia.
Qed.

Lemma digit_not_break n : (n < 64)%N -> ~ line_break (digit n).
Proof. intros H%undigit_digit [E|E]; rewrite E in H; discriminate. Qed.

Lemma ascii_pack c n : n = N_of_ascii c -> ascii_of_N n = c.
Proof. intros ->. apply ascii_N_embedding. Qed.

Lemma list_ind3 {A} (P : list A -> Prop) :
  P [] -> (∀ a, P [a]) -> (∀ a b, P [a; b]) -> (∀ a b c l, P l -> P (a :: b :: c :: l)) -> ∀ l, P l.
Proof.
  intros H0 H1 H2 H3. fix IH 1. intros [|a [|b [|c l]]]; [exact H0|apply H1|apply H2|apply H3, IH].
Qed.

(** Quotients and remainders of a byte, for [lia]. *)
Ltac byte_bounds :=
  repeat match goal with
  | |- context [N_of_ascii ?a] => lazymatch goal with
      | _ : (N_of_ascii a < 256)%N |- _ => fail | _ => pose proof (N_ascii_bounded a) end
  end.

Lemma decode_encode strict src : decode strict (EncodeToString src) = Some src.
Proof.
  induction src as [|a|a b|a b c src IH] using list_ind3; cbn [EncodeToString decode]; [done|..];
    byte_bounds; rewrite !undigit_digit by (zify; Z.to_euclidean_division_equations; lia); cbn.
  - replace (_ =? 0)%N with true by (symmetry; apply N.eqb_eq; zify; Z.to_euclidean_division_equations; lia).
    rewrite andb_false_r. cbn. do 2 f_equal. apply ascii_pack. zify; Z.to_euclidean_division_equations; lia.
  - replace (_ =? 0)%N with true by (symmetry; apply N.eqb_eq; zify; Z.to_euclidean_division_equations; lia).
    rewrite andb_false_r. cbn. do 2 f_equal; [|f_equal]; apply ascii_pack; zify; Z.to_euclidean_division_equations; lia.
  - rewrite IH. cbn. do 2 f_equal; [|f_equal; [|f_equal]]; apply ascii_pack; zify; Z.to_euclidean_division_equations; lia.
Qed.

Lemma encode_no_break src : Forall (λ c, ~ line_break c) (EncodeToString src).
Proof.
  assert (~ line_break "="%char) by (intros [E|E]; discriminate E).
  induction src as [|a|a b|a b c src IH] using list_ind3; cbn [EncodeToString];
    repeat constructor; try done; byte_bounds;
    apply digit_not_break; zify; Z.to_euclidean_division_equations; lia.
Qed.

Lemma filter_Forall {A} (P : A -> Prop) `{!∀ x, Decision (P x)} l : Forall P l -> filter P l = l.
Proof. induction 1 as [|x l Hx _ IH]; [done|]. by rewrite filter_cons_True, IH. Qed.

(** Both decoders invert the encoder. *)
Lemma Std_Decode_Encode strict src : DecodeString strict (EncodeToString src) = Some src.
Proof.
  unfold DecodeString. rewrite filter_Forall by apply encode_no_break. apply decode_encode.
Qed.

(** ** [RawURLEncoding], decoded into a buffer of fixed size *)
Inductive decoded : Type :=
  | decoded_ok (b : bytes)
  | decoded_corrupt
  | decoded_overflow.   (* the buffer is too short: a write out of its range *)

Definition undigit_url (c : ascii) : option N :=
  if decide (c = "-"%char) then Some 62%N
  else if decide (c = "_"%char) then Some 63%N
  else if decide (c = "+"%char \/ c = "/"%char) then None
  else undigit c.
Definition decoded_app (b : bytes) (d : decoded) : decoded :=
  match d with decoded_ok b' => decoded_ok (b ++ b') | _ => d end.

Fixpoint decode_raw (cap : nat) (s : bytes) : decoded :=
  match s with
  | [] => decoded_ok []
  | w :: x :: y :: z :: s' =>
      match undigit_url w, undigit_url x, undigit_url y, undigit_url z with
      | Some w, Some x, Some y, Some z =>
          if (cap <? 3)%nat then decoded_overflow
          else decoded_app [ascii_of_N (w * 4 + x / 16); ascii_of_N (x mod 16 * 16 + y / 4); ascii_of_N (y mod 4 * 64 + z)]
                 (decode_raw (cap - 3) s')
      | _, _, _, _ => decoded_corrupt
      end
  | [w; x; y] =>
      match undigit_url w, undigit_url x, undigit_url y with
      | Some w, Some x, Some y =>
          if (cap <? 2)%nat then decoded_overflow
          else decoded_ok [ascii_of_N (w * 4 + x / 16); ascii_of_N (x mod 16 * 16 + y / 4)]
      | _, _, _ => decoded_corrupt
      end
  | [w; x] =>
      match undigit_url w, undigit_url x with
      | Some w, Some x => if (cap <? 1)%nat then decoded_overflow else decoded_ok [ascii_of_N (w * 4 + x / 16)]
      | _, _ => decoded_corrupt
      end
  | [_] => decoded_corrupt
  end.
Definition DecodeRaw (cap : nat) (s : bytes) : decoded := decode_raw cap (filter (λ c, ~ line_break c) s).

(** [RawURLEncoding.EncodeToString]. *)
Definition digit_url (n : N) : ascii :=
  if decide (n = 62%N) then "-"%char else if decide (n = 63%N) then "_"%char else digit n.
Fixpoint EncodeRaw (src : bytes) : bytes :=
  match src with
  | a :: b :: c :: s =>
      let a := N_of_ascii a in let b := N_of_ascii b in let c := N_of_ascii c in
      digit_url (a / 4) :: digit_url (a mod 4 * 16 + b / 16) :: digit_url (b mod 16 * 4 + c / 64) ::
      digit_url (c mod 64) :: EncodeRaw s
  | [a; b] =>
      let a := N_of_ascii a in let b := N_of_ascii b in
      [digit_url (a / 4); digit_url (a mod 4 * 16 + b / 16); digit_url (b mod 16 * 4)]
  | [a] => let a := N_of_ascii a in [digit_url (a / 4); digit_url (a mod 4 * 16)]
  | [] => []
  end.

Lemma undigit_digit_url n :
  (n < 64)%N -> undigit_url (digit_url n) = Some n /\ ~ line_break (digit_url n) /\ digit_url n <> "."%char.
Proof.
  intros H. assert (Forall (λ k, undigit_url (digit_url (N.of_nat k)) = Some (N.of_nat k) /\
    ~ line_break (digit_url (N.of_nat k)) /\ digit_url (N.of_nat k) <> "."%char) (seq 0 64)) as Hall.
  { apply (bool_decide_eq_true_1 _). reflexivity. }
  rewrite Forall_forall in Hall. specialize (Hall (N.to_nat n)). rewrite N2Nat.id in Hall.
  apply Hall, elem_of_seq. lia.
Qed.

Lemma encode_raw_chars src : Forall (λ c, ~ line_break c /\ c <> "."%char) (EncodeRaw src).
Proof.
  induction src as [|a|a b|a b c src IH] using list_ind3; cbn [EncodeRaw];
    repeat apply Forall_cons_2; try done; byte_bounds;
    eapply undigit_digit_url; zify; Z.to_euclidean_division_equations; lia.
Qed.

Lemma decode_encode_raw src cap : (length src <= cap)%nat -> decode_raw cap (EncodeRaw src) = decoded_ok src.
Proof.
  assert (∀ n, (n < 64)%N -> undigit_url (digit_url n) = Some n) as Hd by (intros n ?%undigit_digit_url; tauto).
  revert cap. induction src as [|a|a b|a b c src IH] using list_ind3; intros cap Hc; cbn [EncodeRaw decode_raw length] in *; [done|..];
    byte_bounds; rewrite !Hd by (zify; Z.to_euclidean_division_equations; lia).
  - rewrite (proj2 (Nat.ltb_ge _ _)) by lia. do 2 f_equal. apply ascii_pack. zify; Z.to_euclidean_division_equations; lia.
  - rewrite (proj2 (Nat.ltb_ge _ _)) by lia. do 2 f_equal; [|f_equal]; apply ascii_pack; zify; Z.to_euclidean_division_equations; lia.
  - rewrite (proj2 (Nat.ltb_ge _ _)) by lia. rewrite IH by lia. cbn.
    do 2 f_equal; [|f_equal; [|f_equal]]; apply ascii_pack; zify; Z.to_euclidean_division_equations; lia.
Qed.

(** A segment that is longer than the buffer writes past its end. *)
Lemma decode_encode_overflow src cap : (cap < length src)%nat -> decode_raw cap (EncodeRaw src) = decoded_overflow.
Proof.
  assert (∀ n, (n < 64)%N -> undigit_url (digit_url n) = Some n) as Hd by (intros n ?%undigit_digit_url; tauto).
  revert cap. induction src as [|a|a b|a b c src IH] using list_ind3; intros cap Hc; cbn [EncodeRaw decode_raw length] in *; [lia|..];
    byte_bounds; rewrite !Hd by (zify; Z.to_euclidean_division_equations; lia).
  - by rewrite (proj2 (Nat.ltb_lt _ _)) by lia.
  - by rewrite (proj2 (Nat.ltb_lt _ _)) by lia.
  - destruct (cap <? 3)%nat eqn:E; [done|]. apply Nat.ltb_ge in E. by rewrite IH by lia.
Qed.
Lemma DecodeRaw_overflow src cap : (cap < length src)%nat -> DecodeRaw cap (EncodeRaw src) = decoded_overflow.
Proof.
  intros H. unfold DecodeRaw. rewrite filter_Forall; [by apply decode_encode_overflow|].
  eapply Forall_impl; [apply encode_raw_chars|]. naive_solver.
Qed.

Lemma DecodeRaw_EncodeRaw src cap : (length src <= cap)%nat -> DecodeRaw cap (EncodeRaw src) = decoded_ok src.
Proof.
  intros H. unfold DecodeRaw. rewrite filter_Forall; [by apply decode_encode_raw|].
  eapply Forall_impl; [apply encode_raw_chars|]. naive_solver.
Qed.

End base64.
