(* ===== verification/NsLock.v ===== *)
(** * cmd/namespace-lock.go: the namespace lock map (local mode)

    [nsLockMap] maps a resource name to a reference-counted read/write mutex.
    The mutex itself, github.com/minio/lsync's [LRWMutex], is an interface:
    [LRWMutex] has its operations, [LRWMutexLaws] what its documentation
    promises in terms of a view (a writer flag and a number of readers).  The
    distributed mode ([isDistXL]) is not used by the Kinetic layer, which calls
    [newNSLock(false)]. *)
From S2P Require Import Prelude GoLib IncStr Errors.

(** ** lsync.LRWMutex *)
Class LRWMutex := {
  lrw : Type;
  NewLRWMutex : lrw;
  lrw_GetLock : lrw -> bool * lrw;
  lrw_GetRLock : lrw -> bool * lrw;
  lrw_Unlock : lrw -> lrw;
  lrw_RUnlock : lrw -> lrw }.

Record lrw_state := LRW { writer : bool; readers : nat }.
Definition lrw_free : lrw_state := LRW false 0.

(** Within its timeout an attempt on a mutex no other goroutine releases
    succeeds exactly when the mutex is available; a failed attempt leaves the
    mutex as it was. *)
Class LRWMutexLaws (L : LRWMutex) := {
  lrw_view : lrw -> lrw_state;
  view_New : lrw_view NewLRWMutex = lrw_free;
  view_GetLock m :
    let '(ok, m') := lrw_GetLock m in
    if ok then lrw_view m = lrw_free /\ lrw_view m' = LRW true 0
    else lrw_view m <> lrw_free /\ lrw_view m' = lrw_view m;
  view_GetRLock m :
    let '(ok, m') := lrw_GetRLock m in
    if ok then writer (lrw_view m) = false /\ lrw_view m' = LRW false (S (readers (lrw_view m)))
    else writer (lrw_view m) = true /\ lrw_view m' = lrw_view m;
  view_Unlock m : lrw_view m = LRW true 0 -> lrw_view (lrw_Unlock m) = lrw_free;
  view_RUnlock m n : lrw_view m = LRW false (S n) -> lrw_view (lrw_RUnlock m) = LRW false n }.

(** ** object-api-utils.go: pathJoin *)
Definition pathJoin (elems : list bytes) : bytes :=
  let trailing :=
    match last elems with
    | Some e => if HasSuffix e (str "/") then str "/" else []
    | None => []
    end in
  path.Join elems ++ trailing.

(** ** Abstract specification: a table of held resources

    A resource that is not in the table is free; one in the table has a writer
    or at least one reader. *)
Abbreviation lock_table := (gmap bytes lrw_state).

Definition spec_lock (t : lock_table) (r : bytes) (readLock : bool) : option lock_table :=
  match t !! r with
  | None => Some (<[r := if readLock then LRW false 1 else LRW true 0]> t)
  | Some s => if readLock && negb (writer s)
              then Some (<[r := LRW false (S (readers s))]> t) else None
  end.

Definition spec_unlock (t : lock_table) (r : bytes) (readLock : bool) : lock_table :=
  match t !! r with
  | None => t
  | Some s => if readLock && (1 <? readers s)%nat
              then <[r := LRW false (readers s - 1)]> t else delete r t
  end.

(** What an unlocker may rely on: it unlocks a lock of the kind it holds. *)
Definition held (t : lock_table) (r : bytes) (readLock : bool) : Prop :=
  match t !! r with
  | None => False
  | Some s => if readLock then writer s = false else s = LRW true 0
  end.

Section ns.
Context `{LRWMutex}.

Record nsLock := mkNsLock { ns_mutex : lrw; ns_ref : Z }.
Abbreviation nsLockMap := (gmap bytes nsLock).

(** Lock the resource of [path] in [volume]: take a reference, try the mutex
    (until the timeout), give the reference back when that fails.  The references
    are counted without a bound, and a context that is cancelled is not modelled. *)
Definition ns_lock (n : nsLockMap) (volume path : bytes) (readLock : bool) : bool * nsLockMap :=
  let resource := pathJoin [volume; path] in
  let nsLk := match n !! resource with
              | None => mkNsLock NewLRWMutex 1
              | Some l => mkNsLock (ns_mutex l) (ns_ref l + 1)
              end in
  let n := <[resource := nsLk]> n in
  let '(locked, m) := if readLock then lrw_GetRLock (ns_mutex nsLk)
                      else lrw_GetLock (ns_mutex nsLk) in
  if locked then (true, <[resource := mkNsLock m (ns_ref nsLk)]> n)
  else
    let ref := ns_ref nsLk - 1 in
    if ref =? 0 then (false, delete resource n)
    else (false, <[resource := mkNsLock m ref]> n).

Definition ns_unlock (n : nsLockMap) (volume path : bytes) (readLock : bool) : nsLockMap :=
  let resource := pathJoin [volume; path] in
  match n !! resource with
  | None => n
  | Some nsLk =>
      let m := if readLock then lrw_RUnlock (ns_mutex nsLk) else lrw_Unlock (ns_mutex nsLk) in
      if ns_ref nsLk =? 0 then <[resource := mkNsLock m (ns_ref nsLk)]> n
      else
        let ref := ns_ref nsLk - 1 in
        if ref =? 0 then delete resource n
        else <[resource := mkNsLock m ref]> n
  end.

(** [localLockInstance]: the volume and the sorted paths. *)
Record localLockInstance := mkLockInstance { li_volume : bytes; li_paths : list bytes }.

(** [NewNSLock] sorts the paths, so that two instances over the same paths lock
    them in the same order. *)
Definition NewNSLock (volume : bytes) (paths : list bytes) : localLockInstance :=
  mkLockInstance volume (merge_sort ble paths).

(** The common loop of [GetLock] and [GetRLock]: on a timeout the paths locked
    so far are unlocked again. *)
Fixpoint lock_paths (n : nsLockMap) (volume : bytes) (success paths : list bytes)
    (readLock : bool) : option error * nsLockMap :=
  match paths with
  | [] => (None, n)
  | p :: ps =>
      let '(ok, n1) := ns_lock n volume p readLock in
      if ok then lock_paths n1 volume (success ++ [p]) ps readLock
      else (Some OperationTimedOut,
            foldl (λ n q, ns_unlock n volume q readLock) n1 success)
  end.

Definition GetLock (n : nsLockMap) (li : localLockInstance) : option error * nsLockMap :=
  lock_paths n (li_volume li) [] (li_paths li) false.

Definition GetRLock (n : nsLockMap) (li : localLockInstance) : option error * nsLockMap :=
  lock_paths n (li_volume li) [] (li_paths li) true.

Definition Unlock (n : nsLockMap) (li : localLockInstance) : nsLockMap :=
  foldl (λ n p, ns_unlock n (li_volume li) p false) n (li_paths li).

Definition RUnlock (n : nsLockMap) (li : localLockInstance) : nsLockMap :=
  foldl (λ n p, ns_unlock n (li_volume li) p true) n (li_paths li).

Context `{!LRWMutexLaws _}.

Definition holders (s : lrw_state) : Z :=
  if writer s then 1 else Z.of_nat (readers s).

(** The reference count of an entry is the number of its holders, and entries
    without holders are not kept. *)
Definition ns_wf (n : nsLockMap) : Prop :=
  ∀ r l, n !! r = Some l ->
    ns_ref l = holders (lrw_view (ns_mutex l)) /\ 0 < ns_ref l /\
    (writer (lrw_view (ns_mutex l)) = true -> readers (lrw_view (ns_mutex l)) = 0%nat).

Definition ns_abs (n : nsLockMap) : lock_table := (λ l, lrw_view (ns_mutex l)) <$> n.

Lemma ns_wf_empty : ns_wf ∅.
Proof. intros r l Hl. by rewrite lookup_empty in Hl. Qed.

Lemma ns_abs_empty n : ns_abs n = ∅ <-> n = ∅.
Proof. apply fmap_empty_iff. Qed.

Lemma ns_wf_insert n r l :
  ns_wf n -> ns_ref l = holders (lrw_view (ns_mutex l)) -> 0 < ns_ref l ->
  (writer (lrw_view (ns_mutex l)) = true -> readers (lrw_view (ns_mutex l)) = 0%nat) ->
  ns_wf (<[r := l]> n).
Proof.
  intros Hn H1 H2 H3 r' l' Hl. destruct (decide (r = r')) as [->|Hne].
  - rewrite lookup_insert_eq in Hl. by simplify_eq.
  - rewrite lookup_insert_ne in Hl by done. by apply Hn with r'.
Qed.

Lemma ns_wf_delete n r : ns_wf n -> ns_wf (delete r n).
Proof. intros Hn r' l' [_ Hl]%lookup_delete_Some. by apply Hn with r'. Qed.

(** An entry of a well-formed map is not free. *)
Lemma ns_wf_not_free n r l : ns_wf n -> n !! r = Some l -> lrw_view (ns_mutex l) <> lrw_free.
Proof. intros Hn Hl E. destruct (Hn r l Hl) as (H1 & H2 & _). rewrite E in H1. unfold holders in H1; simpl in H1. lia. Qed.

Lemma ns_lock_refine n v p rd ok n' :
  ns_wf n -> ns_lock n v p rd = (ok, n') ->
  ns_wf n' /\
  match spec_lock (ns_abs n) (pathJoin [v; p]) rd with
  | Some t => ok = true /\ ns_abs n' = t
  | None => ok = false /\ ns_abs n' = ns_abs n
  end.
Proof.
  intros Hn Hlock. unfold ns_lock in Hlock. unfold spec_lock.
  set (r := pathJoin [v; p]) in *. unfold ns_abs at 1. rewrite lookup_fmap.
  destruct (n !! r) as [l|] eqn:El; simpl in *.
  - destruct (Hn r l El) as (Href & Hpos & Hwr).
    pose proof (ns_wf_not_free n r l Hn El) as Hnf.
    destruct rd; simpl in *.
    + pose proof (view_GetRLock (ns_mutex l)) as Hv. destruct (lrw_GetRLock _) as [b m].
      destruct b; destruct Hv as [Hv1 Hv2].
      * rewrite Hv1. simpl. simplify_eq. rewrite insert_insert_eq.
        split; [apply ns_wf_insert; simpl; rewrite ?Hv2; simpl; try done|split; [done|]].
        -- unfold holders in *. rewrite Hv1 in Href. simpl. lia.
        -- lia.
        -- unfold ns_abs. rewrite fmap_insert; simpl; by rewrite Hv2.
      * rewrite Hv1. simpl. destruct (Z.eqb_spec (ns_ref l + 1 - 1) 0); [lia|].
        simplify_eq. rewrite insert_insert_eq.
        split; [apply ns_wf_insert; simpl; rewrite ?Hv2; auto; lia|split; [done|]].
        unfold ns_abs. rewrite fmap_insert. simpl. rewrite Hv2.
        apply insert_id. by rewrite lookup_fmap, El.
    + pose proof (view_GetLock (ns_mutex l)) as Hv. destruct (lrw_GetLock _) as [b m].
      destruct b; destruct Hv as [Hv1 Hv2]; [done|].
      destruct (Z.eqb_spec (ns_ref l + 1 - 1) 0); [lia|].
      simplify_eq. rewrite insert_insert_eq.
      split; [apply ns_wf_insert; simpl; rewrite ?Hv2; auto; lia|split; [done|]].
      unfold ns_abs. rewrite fmap_insert. simpl. rewrite Hv2.
      apply insert_id. by rewrite lookup_fmap, El.
  - destruct rd; simpl in *.
    + pose proof (view_GetRLock NewLRWMutex) as Hv. destruct (lrw_GetRLock _) as [b m].
      rewrite view_New in Hv. destruct b; destruct Hv as [Hv1 Hv2]; [|done].
      simplify_eq. rewrite insert_insert_eq.
      split; [apply ns_wf_insert; simpl; rewrite ?Hv2; simpl; done|split; [done|]].
      unfold ns_abs. rewrite fmap_insert; simpl; by rewrite Hv2.
    + pose proof (view_GetLock NewLRWMutex) as Hv. destruct (lrw_GetLock _) as [b m].
      rewrite view_New in Hv. destruct b; destruct Hv as [Hv1 Hv2]; [|done].
      simplify_eq. rewrite insert_insert_eq.
      split; [apply ns_wf_insert; simpl; rewrite ?Hv2; simpl; done|split; [done|]].
      unfold ns_abs. rewrite fmap_insert; simpl; by rewrite Hv2.
Qed.

Lemma ns_unlock_refine n v p rd :
  ns_wf n -> held (ns_abs n) (pathJoin [v; p]) rd ->
  ns_wf (ns_unlock n v p rd) /\
  ns_abs (ns_unlock n v p rd) = spec_unlock (ns_abs n) (pathJoin [v; p]) rd.
Proof.
  intros Hn Hh. unfold ns_unlock, spec_unlock, held in *.
  set (r := pathJoin [v; p]) in *. unfold ns_abs at 2. unfold ns_abs in Hh.
  rewrite lookup_fmap in Hh |- *.
  destruct (n !! r) as [l|] eqn:El; simpl in *; [|done].
  destruct (Hn r l El) as (Href & Hpos & Hwr).
  destruct (Z.eqb_spec (ns_ref l) 0); [lia|].
  destruct rd; simpl in *.
  - unfold holders in Href. rewrite Hh in Href.
    destruct (lrw_view (ns_mutex l)) as [w k] eqn:Ev; simpl in *. subst w.
    destruct k as [|k]; [simpl in Href; lia|].
    pose proof (view_RUnlock (ns_mutex l) k Ev) as Hv.
    destruct (Z.eqb_spec (ns_ref l - 1) 0) as [E|E].
    + destruct (Nat.ltb_spec 1 (S k)); [lia|].
      split; [by apply ns_wf_delete|]. unfold ns_abs. by rewrite fmap_delete.
    + destruct (Nat.ltb_spec 1 (S k)); [|lia].
      split; [apply ns_wf_insert; simpl; rewrite ?Hv; simpl; auto; unfold holders; simpl; lia|].
      unfold ns_abs. rewrite fmap_insert. simpl. rewrite Hv. do 2 f_equal. lia.
  - rewrite Hh in Href. simpl in Href.
    destruct (Z.eqb_spec (ns_ref l - 1) 0) as [E|E]; [|unfold holders in Href; simpl in Href; lia].
    split; [by apply ns_wf_delete|]. unfold ns_abs. by rewrite fmap_delete.
Qed.

(** Locking a resource and unlocking it leaves the table as it was. *)
Lemma spec_lock_unlock t r rd t' :
  (∀ s, t !! r = Some s -> writer s = false -> readers s <> 0%nat) ->
  spec_lock t r rd = Some t' -> held t' r rd /\ spec_unlock t' r rd = t.
Proof.
  intros Ht Hl. unfold spec_lock, spec_unlock, held in *.
  destruct (t !! r) as [s|] eqn:E.
  - destruct rd; simpl in *; [|done].
    destruct (writer s) eqn:Ew; simpl in *; [done|]. simplify_eq.
    rewrite lookup_insert_eq. simpl. split; [done|].
    specialize (Ht s eq_refl Ew). destruct s as [w k]; simpl in *. subst.
    destruct (Nat.ltb_spec 1 (S k)); [|lia].
    rewrite insert_insert_eq, Nat.sub_0_r. by apply insert_id.
  - simplify_eq. rewrite lookup_insert_eq. destruct rd; simpl; split; auto; by rewrite delete_insert_id.
Qed.

(** Condition of [spec_lock_unlock], from well-formedness. *)
Lemma ns_abs_readers n r s :
  ns_wf n -> ns_abs n !! r = Some s -> writer s = false -> readers s <> 0%nat.
Proof.
  intros Hn Hs Hw. unfold ns_abs in Hs. rewrite lookup_fmap in Hs.
  destruct (n !! r) as [l|] eqn:El; simplify_eq/=.
  destruct (Hn r l El) as (H1 & H2 & _). unfold holders in H1. rewrite Hw in H1. lia.
Qed.

(** ** Instances over several paths *)

(** Locking a list of resources in order. *)
Fixpoint spec_lock_all (t : lock_table) (rs : list bytes) (rd : bool) : option lock_table :=
  match rs with
  | [] => Some t
  | r :: rs' => match spec_lock t r rd with Some t' => spec_lock_all t' rs' rd | None => None end
  end.

Definition table_wf (t : lock_table) : Prop :=
  ∀ r s, t !! r = Some s -> writer s = false -> readers s <> 0%nat.

Lemma spec_lock_wf t r rd t' : table_wf t -> spec_lock t r rd = Some t' -> table_wf t'.
Proof.
  intros Ht Hl r' s Hs. unfold spec_lock in Hl. destruct (t !! r) eqn:E.
  - destruct (rd && _); simplify_eq. rewrite lookup_insert in Hs. case_decide; simplify_eq/=; eauto.
  - simplify_eq. rewrite lookup_insert in Hs. case_decide; [|by eauto]. destruct rd; by simplify_eq/=.
Qed.

Lemma spec_lock_all_wf t rs rd t' : table_wf t -> spec_lock_all t rs rd = Some t' -> table_wf t'.
Proof.
  revert t. induction rs as [|r rs IH]; intros t Ht Hl; simplify_eq/=; [done|].
  destruct (spec_lock t r rd) eqn:E; [|done]. eauto using spec_lock_wf.
Qed.

Lemma spec_lock_all_app t rs rs' rd :
  spec_lock_all t (rs ++ rs') rd
  = match spec_lock_all t rs rd with Some t' => spec_lock_all t' rs' rd | None => None end.
Proof. revert t. induction rs as [|r rs IH]; intros t; simpl; [done|]. by destruct (spec_lock t r rd). Qed.

(** Locks of one kind can be taken in either order. *)
Lemma spec_lock_comm t q r rd t1 t2 :
  spec_lock t q rd = Some t1 -> spec_lock t1 r rd = Some t2 ->
  exists t1', spec_lock t r rd = Some t1' /\ spec_lock t1' q rd = Some t2.
Proof.
  destruct (decide (q = r)) as [->|Hne]; [by eauto|]. unfold spec_lock.
  intros H1 H2. destruct (t !! q) as [s|] eqn:Eq.
  - destruct (rd && negb (writer s)) eqn:Eg; simplify_eq. rewrite lookup_insert_ne in H2 by done.
    destruct (t !! r) as [s'|] eqn:Er.
    + destruct (rd && negb (writer s')); simplify_eq. eexists. split; [done|].
      rewrite lookup_insert_ne, Eq, Eg by done. by rewrite insert_insert_ne.
    + simplify_eq. eexists. split; [done|]. rewrite lookup_insert_ne, Eq, Eg by done.
      by rewrite insert_insert_ne.
  - simplify_eq. rewrite lookup_insert_ne in H2 by done. destruct (t !! r) as [s'|] eqn:Er.
    + destruct (rd && negb (writer s')); simplify_eq. eexists. split; [done|].
      rewrite lookup_insert_ne, Eq by done. by rewrite insert_insert_ne.
    + simplify_eq. eexists. split; [done|]. rewrite lookup_insert_ne, Eq by done.
      by rewrite insert_insert_ne.
Qed.

Lemma spec_lock_all_last t q rs rd t' :
  spec_lock_all t (q :: rs) rd = Some t' ->
  exists t1, spec_lock_all t rs rd = Some t1 /\ spec_lock t1 q rd = Some t'.
Proof.
  revert t. induction rs as [|r rs IH]; intros t Hl.
  - simpl in Hl. destruct (spec_lock t q rd) eqn:E; [|done]. simplify_eq. by exists t.
  - cbn [spec_lock_all] in Hl |- *. destruct (spec_lock t q rd) as [ta|] eqn:E1; [|done].
    destruct (spec_lock ta r rd) as [tb|] eqn:E2; [|done].
    destruct (spec_lock_comm _ _ _ _ _ _ E1 E2) as (tc & -> & E3). apply IH. cbn [spec_lock_all]. by rewrite E3.
Qed.

(** Unlocking everything that was locked, in the order of locking. *)
Lemma unlock_all_refine t n v ps rd :
  table_wf t -> ns_wf n -> spec_lock_all t ((λ p, pathJoin [v; p]) <$> ps) rd = Some (ns_abs n) ->
  ns_wf (foldl (λ n q, ns_unlock n v q rd) n ps) /\
  ns_abs (foldl (λ n q, ns_unlock n v q rd) n ps) = t.
Proof.
  intros Ht. revert n. induction ps as [|q ps IH]; intros n Hn Hl; [simpl in *; by simplify_eq|].
  rewrite fmap_cons in Hl. apply spec_lock_all_last in Hl as (t1 & Hl1 & Hq).
  pose proof (spec_lock_all_wf _ _ _ _ Ht Hl1) as Ht1.
  destruct (spec_lock_unlock _ _ _ _ (Ht1 _) Hq) as [Hh Hu].
  destruct (ns_unlock_refine n v q rd Hn Hh) as [Hn' Ha]. cbn [foldl]. apply IH; [done|]. by rewrite Ha, Hu.
Qed.

Lemma lock_paths_refine t0 n v success ps rd :
  table_wf t0 -> ns_wf n ->
  spec_lock_all t0 ((λ p, pathJoin [v; p]) <$> success) rd = Some (ns_abs n) ->
  let '(e, n') := lock_paths n v success ps rd in
  ns_wf n' /\
  match spec_lock_all (ns_abs n) ((λ p, pathJoin [v; p]) <$> ps) rd with
  | Some t => e = None /\ ns_abs n' = t
  | None => e = Some OperationTimedOut /\ ns_abs n' = t0
  end.
Proof.
  intros Ht0. revert n success. induction ps as [|p ps IH]; intros n success Hn Hs; simpl; [done|].
  destruct (ns_lock n v p rd) as [ok n1] eqn:El.
  destruct (ns_lock_refine _ _ _ _ _ _ Hn El) as [Hn1 Hr].
  destruct (spec_lock (ns_abs n) (pathJoin [v; p]) rd) as [t|] eqn:Es; destruct Hr as [-> Ha].
  - subst t. apply IH; [done|]. rewrite fmap_app, spec_lock_all_app, Hs. simpl. by rewrite Es.
  - destruct (unlock_all_refine t0 n1 v success rd) as [H1 H2]; [done|done|by rewrite Ha|done].
Qed.

Lemma ns_abs_wf n : ns_wf n -> table_wf (ns_abs n).
Proof. intros Hn r s. by apply ns_abs_readers. Qed.

End ns.
Abbreviation nsLockMap := (gmap bytes nsLock).

(** ** A reference mutex, the view itself *)
Definition ref_lrw : LRWMutex := {|
  lrw := lrw_state;
  NewLRWMutex := lrw_free;
  lrw_GetLock m := if negb (writer m) && (readers m =? 0)%nat then (true, LRW true 0) else (false, m);
  lrw_GetRLock m := if negb (writer m) then (true, LRW false (S (readers m))) else (false, m);
  lrw_Unlock m := LRW false (readers m);
  lrw_RUnlock m := LRW (writer m) (readers m - 1) |}.

Definition ref_lrw_laws : LRWMutexLaws ref_lrw.
Proof.
  refine {| lrw_view := (λ m, m) : @lrw ref_lrw -> lrw_state |}; simpl.
  - done.
  - intros [[] [|n]]; simpl; split; congruence || done.
  - intros [[] n]; simpl; split; congruence || done.
  - intros m ->. done.
  - intros m n ->. simpl. by rewrite Nat.sub_0_r.
Defined.

(** ** The instances the object layer uses *)
#[local] Existing Instance ref_lrw.
#[local] Existing Instance ref_lrw_laws.

(** [GetLock] or [GetRLock] of an instance. *)
Definition get_instance `{LRWMutex} (rd : bool) (n : nsLockMap) (li : localLockInstance)
  : option error * nsLockMap := if rd then GetRLock n li else GetLock n li.
Definition release_instance `{LRWMutex} (rd : bool) (n : nsLockMap) (li : localLockInstance)
  : nsLockMap := if rd then RUnlock n li else Unlock n li.

(** C26. Locking an instance over several paths is all or nothing: it succeeds
    exactly when every resource can be taken, in sorted order, in the abstract
    table of readers and writers, and then the table has all of them; otherwise
    it reports a timeout and the table is the one before, the reference counts
    included. *)
Theorem lock_instance_refines `{!LRWMutex} `{!LRWMutexLaws _} rd n v ps :
  ns_wf n ->
  let '(e, n') := get_instance rd n (NewNSLock v ps) in
  ns_wf n' /\
  match spec_lock_all (ns_abs n) ((λ p, pathJoin [v; p]) <$> merge_sort ble ps) rd with
  | Some t => e = None /\ ns_abs n' = t
  | None => e = Some OperationTimedOut /\ ns_abs n' = ns_abs n
  end.
Proof.
  intros Hn. unfold get_instance, GetRLock, GetLock. cbn [li_volume li_paths NewNSLock].
  pose proof (lock_paths_refine (ns_abs n) n v [] (merge_sort ble ps) rd (ns_abs_wf _ Hn) Hn eq_refl).
  by destruct rd.
Qed.

Lemma lock_instance_refines_witness :
  ns_wf ∅ /\
  let '(e, n') := get_instance false ∅ (NewNSLock (str "bkt") [str "b"; str "a"]) in
  ns_wf n' /\
  match spec_lock_all (ns_abs ∅) ((λ p, pathJoin [str "bkt"; p]) <$> merge_sort ble [str "b"; str "a"]) false with
  | Some t => e = None /\ ns_abs n' = t
  | None => e = Some OperationTimedOut /\ ns_abs n' = ns_abs ∅
  end.
Proof.
  split; [apply ns_wf_empty|].
  apply (lock_instance_refines false ∅ (str "bkt") [str "b"; str "a"]). apply ns_wf_empty.
Defined.

(** Releasing an instance that was locked gives the abstract table from
    before the lock: no lock is lost and none is left over, whatever other
    resources are held. *)
Theorem unlock_instance_restores `{!LRWMutex} `{!LRWMutexLaws _} rd n v ps :
  ns_wf n -> (get_instance rd n (NewNSLock v ps)).1 = None ->
  let n' := release_instance rd (get_instance rd n (NewNSLock v ps)).2 (NewNSLock v ps) in
  ns_wf n' /\ ns_abs n' = ns_abs n.
Proof.
  intros Hn He. unfold get_instance, release_instance, GetRLock, GetLock, RUnlock, Unlock in *.
  cbn [li_volume li_paths NewNSLock] in *. set (qs := merge_sort ble ps) in *.
  pose proof (lock_paths_refine (ns_abs n) n v [] qs rd (ns_abs_wf _ Hn) Hn eq_refl) as Hl.
  destruct rd; destruct (lock_paths n v [] qs _) as [e n'] eqn:E; simpl in He; subst e;
    destruct Hl as [Hn' Hs]; destruct (spec_lock_all _ _ _) as [t|] eqn:Et; destruct Hs as [Ee Ha];
    try done; cbn zeta; rewrite <- Ha in Et;
    (eapply (unlock_all_refine (ns_abs n) n'); [by apply ns_abs_wf|done|exact Et]).
Qed.

Lemma unlock_instance_restores_witness :
  let li := NewNSLock (str "bkt") [str "b"; str "a"] in
  let n' := release_instance true (get_instance true ∅ li).2 li in
  ns_wf n' /\ ns_abs n' = ns_abs ∅.
Proof.
  apply (unlock_instance_restores true ∅ (str "bkt") [str "b"; str "a"]);
    [apply ns_wf_empty|vm_compute; reflexivity].
Defined.
