(* ===== verification/Pool.v ===== *)
(** * cmd/kinetic.go: the pool of Kinetic connections

    [KConnsPool] holds [maxQueue] clients and a flag per client.
    [GetKineticConnection] takes the first free client, or waits on the
    condition variable; [ReleaseConnection] frees it and wakes the waiters.
    Both run under the pool's mutex, so each is one atomic step.  The second
    half of the file interleaves the steps of any number of goroutines and shows
    that a client is never handed to two of them at once and that the pool never
    makes a goroutine wait while a client is free. *)
From S2P Require Import Prelude.

Definition maxQueue : nat := 100.
Definition numberOfKinConns : nat := 100.

(** The fields of [Client] (cmd/client.go) that the modelled code uses. *)
Record Client := mkClient {
  c_Idx : nat;
  c_ConnectionID : Z;
  c_Sequence : Z;
  c_Identity : Z;
  c_HmacKey : bytes;
  c_Key : bytes;
  c_NextPartNumber : Z;
  c_LastPartNumber : Z;
  c_DataOffset : Z }.

Record KConnsPool := mkPool {
  kcs : gmap nat Client;
  inUsed : gmap nat bool;
  totalInUsed : Z;
  totalInUsedMax : Z }.

(** [kConnsPool.inUsed[i]], false for a missing key. *)
Definition in_use (p : KConnsPool) (i : nat) : bool := default false (inUsed p !! i).

(** The scan of [GetKineticConnection]: the first index from [i] on, of [n]
    indices, that is not in use. *)
Fixpoint first_free (p : KConnsPool) (i n : nat) : option nat :=
  match n with
  | O => None
  | S n' => if in_use p i then first_free p (S i) n' else Some i
  end.

(** One pass of the loop of [GetKineticConnection]: [None] when the goroutine
    has to wait, else the index of the client it got.  The client found gets its
    index stored. *)
Definition try_get (p : KConnsPool) : option (nat * KConnsPool) :=
  if totalInUsed p <? Z.of_nat maxQueue then
    match first_free p 0 maxQueue with
    | None => None
    | Some i =>
        let kcs' := alter (λ c, mkClient i (c_ConnectionID c) (c_Sequence c) (c_Identity c)
                             (c_HmacKey c) (c_Key c) (c_NextPartNumber c)
                             (c_LastPartNumber c) (c_DataOffset c)) i (kcs p) in
        let total := totalInUsed p + 1 in
        Some (i, mkPool kcs' (<[i := true]> (inUsed p)) total
                   (if totalInUsedMax p <? total then total else totalInUsedMax p))
    end
  else None.

(** [ReleaseConnection]: [None] is the panic on a negative count.  Releasing a
    client that is not in use changes nothing. *)
Definition ReleaseConnection (p : KConnsPool) (ix : nat) : option KConnsPool :=
  if in_use p ix then
    let total := totalInUsed p - 1 in
    if total <? 0 then None
    else Some (mkPool (kcs p) (<[ix := false]> (inUsed p)) total (totalInUsedMax p))
  else Some p.

(** A new client of the pool ([NewKineticObjectLayer] with the library
    interface, where no connection is opened). *)
Definition newClient (i : nat) : Client := mkClient i 0 0 0 [] [] 0 0 0.

Definition init_pool : KConnsPool :=
  mkPool (list_to_map ((λ i, (i, newClient i)) <$> seq 0 maxQueue))
         (list_to_map ((λ i, (i, false)) <$> seq 0 maxQueue)) 0 0.

(** Proofs do not compute with the size of the pool. *)
#[global] Opaque maxQueue.

(** ** Invariant *)
Definition used_def (p : KConnsPool) : gset nat :=
  filter (λ i, in_use p i = true) (list_to_set (seq 0 maxQueue)).
(** Sealed, so that proofs do not compute it. *)
Definition used_aux : seal used_def.
Proof. by eexists. Qed.
Definition used : KConnsPool -> gset nat := unseal used_aux.
Lemma used_eq : used = used_def.
Proof. exact (seal_eq used_aux). Qed.

(** Every index below [maxQueue] has a client, only those indices are in use,
    and the counter is the number of clients in use. *)
Record pool_wf (p : KConnsPool) : Prop := {
  wf_clients i : (i < maxQueue)%nat -> is_Some (kcs p !! i);
  wf_bound i : in_use p i = true -> (i < maxQueue)%nat;
  wf_total : totalInUsed p = Z.of_nat (size (used p)) }.

Lemma elem_of_used p i : i ∈ used p <-> in_use p i = true /\ (i < maxQueue)%nat.
Proof.
  rewrite used_eq. unfold used_def. rewrite elem_of_filter, elem_of_list_to_set.
  rewrite list_elem_of_In, in_seq. split; intros [? ?]; split; auto; lia.
Qed.

Lemma used_size p : (size (used p) <= maxQueue)%nat.
Proof.
  assert (used p ⊆ list_to_set (seq 0 maxQueue)) as Hs.
  { intros k. rewrite elem_of_used, elem_of_list_to_set, list_elem_of_In, in_seq. lia. }
  apply subseteq_size in Hs. rewrite size_list_to_set, length_seq in Hs; [done|apply NoDup_seq].
Qed.

Lemma first_free_Some p i n j :
  first_free p i n = Some j ->
  (i <= j < i + n)%nat /\ in_use p j = false /\
  (∀ k, (i <= k < j)%nat -> in_use p k = true).
Proof.
  revert i. induction n as [|n IH]; intros i; simpl; [done|].
  destruct (in_use p i) eqn:E.
  - intros H. destruct (IH _ H) as (H1 & H2 & H3). split_and!; [lia|lia|done|].
    intros k Hk. destruct (decide (k = i)) as [->|]; [done|]. apply H3. lia.
  - intros [= ->]. split_and!; [lia|lia|done|]. intros; lia.
Qed.

Lemma first_free_None p i n k :
  first_free p i n = None -> (i <= k < i + n)%nat -> in_use p k = true.
Proof.
  revert i. induction n as [|n IH]; intros i; simpl; [lia|].
  destruct (in_use p i) eqn:E; [|done].
  intros H Hk. destruct (decide (k = i)) as [->|]; [done|]. apply (IH (S i)); [done|lia].
Qed.

Lemma in_use_insert p kcs' i b t m j :
  in_use (mkPool kcs' (<[i := b]> (inUsed p)) t m) j = if decide (i = j) then b else in_use p j.
Proof. unfold in_use. simpl. rewrite lookup_insert. by case_decide. Qed.

Lemma try_get_wf p i p' :
  pool_wf p -> try_get p = Some (i, p') ->
  pool_wf p' /\ in_use p i = false /\ (i < maxQueue)%nat /\ used p' = {[i]} ∪ used p.
Proof.
  intros Hp Hget. unfold try_get in Hget.
  destruct (totalInUsed p <? _); [|done].
  destruct (first_free p 0 maxQueue) as [j|] eqn:E; simplify_eq.
  apply first_free_Some in E as (H1 & H2 & _).
  assert (used (mkPool (alter (λ c, mkClient i (c_ConnectionID c) (c_Sequence c) (c_Identity c)
     (c_HmacKey c) (c_Key c) (c_NextPartNumber c) (c_LastPartNumber c) (c_DataOffset c)) i (kcs p))
     (<[i := true]> (inUsed p)) (totalInUsed p + 1)
     (if totalInUsedMax p <? totalInUsed p + 1 then totalInUsed p + 1 else totalInUsedMax p))
     = {[i]} ∪ used p) as Hu.
  { apply set_eq. intros k. rewrite elem_of_union, elem_of_singleton, !elem_of_used, in_use_insert.
    case_decide; subst; intuition (try congruence; try lia). }
  split_and!; [|done|lia|done]. split.
  - intros k Hk. simpl. rewrite lookup_alter. case_decide; subst.
    + apply fmap_is_Some. by apply Hp.
    + by apply Hp.
  - intros k. rewrite in_use_insert. case_decide; subst; [lia|]. apply Hp.
  - rewrite Hu. simpl. rewrite size_union.
    + rewrite size_singleton, (wf_total _ Hp). lia.
    + apply disjoint_singleton_l. rewrite elem_of_used. intros [? _]; congruence.
Qed.

Lemma ReleaseConnection_wf p i :
  pool_wf p ->
  exists p', ReleaseConnection p i = Some p' /\ pool_wf p' /\ used p' = used p ∖ {[i]} /\ kcs p' = kcs p.
Proof.
  intros Hp. unfold ReleaseConnection. destruct (in_use p i) eqn:E.
  - assert (i ∈ used p) as Hi by (apply elem_of_used; split; [done|by apply Hp]).
    pose proof (wf_total _ Hp) as Ht.
    assert (0 < size (used p))%nat.
    { destruct (size (used p)) eqn:Es; [|lia]. apply size_empty_inv in Es. set_solver. }
    destruct (Z.ltb_spec (totalInUsed p - 1) 0); [lia|].
    eexists. split; [done|].
    assert (used (mkPool (kcs p) (<[i := false]> (inUsed p)) (totalInUsed p - 1) (totalInUsedMax p))
            = used p ∖ {[i]}) as Hu.
    { apply set_eq. intros k. rewrite elem_of_difference, elem_of_singleton, !elem_of_used, in_use_insert.
      case_decide; subst; intuition congruence. }
    split_and!; [|done|done]. split.
    + apply Hp.
    + intros k. rewrite in_use_insert. case_decide; [done|]. apply Hp.
    + rewrite Hu. simpl. rewrite size_difference by set_solver. rewrite size_singleton. lia.
  - exists p. split_and!; auto. assert (i ∉ used p); [|set_solver].
    rewrite elem_of_used. intros [? _]; congruence.
Qed.

(** A goroutine waits only when all clients are in use. *)
Lemma try_get_None p :
  pool_wf p -> try_get p = None -> size (used p) = maxQueue.
Proof.
  intros Hp Hget. unfold try_get in Hget. pose proof (used_size p).
  destruct (Z.ltb_spec (totalInUsed p) (Z.of_nat maxQueue)) as [Hlt|Hge];
    rewrite (wf_total _ Hp) in *; [|lia].
  destruct (first_free p 0 maxQueue) as [j|] eqn:E; [done|].
  assert (used p = list_to_set (seq 0 maxQueue)) as ->.
  { apply set_eq. intros k. rewrite elem_of_used, elem_of_list_to_set, list_elem_of_In, in_seq.
    split; [intros [? ?]; lia|]. intros. split; [|lia]. apply (first_free_None _ _ _ _ E). lia. }
  rewrite size_list_to_set; [by rewrite length_seq|apply NoDup_seq].
Qed.

Lemma list_to_map_seq {A} (f : nat -> A) n i :
  (list_to_map ((λ i, (i, f i)) <$> seq 0 n) : gmap nat A) !! i
  = if decide (i < n)%nat then Some (f i) else None.
Proof.
  assert (((λ i, (i, f i)) <$> seq 0 n).*1 = seq 0 n) as Hfst.
  { rewrite <- list_fmap_compose. apply list_fmap_id. }
  case_decide as Hi.
  - apply elem_of_list_to_map_1; [rewrite Hfst; apply NoDup_seq|].
    apply list_elem_of_fmap. exists i. split; [done|]. rewrite list_elem_of_In, in_seq. lia.
  - apply not_elem_of_list_to_map_1. rewrite Hfst, list_elem_of_In, in_seq. lia.
Qed.

Lemma init_pool_in_use i : in_use init_pool i = false.
Proof.
  unfold in_use, init_pool. cbn [inUsed]. rewrite (list_to_map_seq (λ _, false)). by case_decide.
Qed.

Lemma init_pool_wf : pool_wf init_pool.
Proof.
  split.
  - intros i Hi. unfold init_pool. cbn [kcs]. rewrite (list_to_map_seq newClient).
    rewrite decide_True by done. eauto.
  - intros i. by rewrite init_pool_in_use.
  - assert (used init_pool = ∅) as ->; [|by rewrite size_empty].
    apply set_eq. intros i. rewrite elem_of_used, init_pool_in_use. set_solver.
Qed.

(** ** Interleavings

    Goroutines are numbered.  [held] is the client each one holds; [waiting]
    the goroutines blocked in [cond.Wait].  A goroutine releases the client it
    holds; a release of a client in use wakes every waiter (the [Broadcast] of
    [ReleaseConnection]), which then runs the loop again; a goroutine that holds a
    client holds one in use ([pool_inv]). *)
Record pstate := mkPState {
  ps_pool : KConnsPool;
  ps_held : gmap nat nat;
  ps_waiting : gset nat }.

Inductive pstep : pstate -> pstate -> Prop :=
  | step_get t p held waiting i p' :
      held !! t = None -> t ∉ waiting ->
      try_get p = Some (i, p') ->
      pstep (mkPState p held waiting) (mkPState p' (<[t := i]> held) waiting)
  | step_wait t p held waiting :
      held !! t = None -> t ∉ waiting ->
      try_get p = None ->
      pstep (mkPState p held waiting) (mkPState p held ({[t]} ∪ waiting))
  | step_release t p held waiting i p' :
      held !! t = Some i -> ReleaseConnection p i = Some p' ->
      pstep (mkPState p held waiting) (mkPState p' (delete t held) ∅).

Inductive preachable : pstate -> Prop :=
  | reach_init : preachable (mkPState init_pool ∅ ∅)
  | reach_step s s' : preachable s -> pstep s s' -> preachable s'.

(** The clients in use are exactly the held ones, and no two goroutines hold
    the same. *)
Record pool_inv (s : pstate) : Prop := {
  inv_wf : pool_wf (ps_pool s);
  inv_held t i : ps_held s !! t = Some i -> i ∈ used (ps_pool s);
  inv_used i : i ∈ used (ps_pool s) -> exists t, ps_held s !! t = Some i;
  inv_excl t1 t2 i : ps_held s !! t1 = Some i -> ps_held s !! t2 = Some i -> t1 = t2;
  inv_wait : ps_waiting s <> ∅ -> size (used (ps_pool s)) = maxQueue }.

Lemma pool_inv_init : pool_inv (mkPState init_pool ∅ ∅).
Proof.
  split; cbn [ps_pool ps_held ps_waiting].
  - apply init_pool_wf.
  - intros t i. by rewrite lookup_empty.
  - intros i. rewrite elem_of_used, init_pool_in_use. intros [? _]. done.
  - intros t1 t2 i. by rewrite lookup_empty.
  - done.
Qed.

Lemma pool_inv_step s s' : pool_inv s -> pstep s s' -> pool_inv s'.
Proof.
  intros [Hwf Hheld Hused Hexcl Hwait] Hst. destruct Hst as [t p held w i p' Ht Hw Hg|t p held w Ht Hw Hg|t p held w i p' Ht Hr];
    simpl in *.
  - destruct (try_get_wf p i p' Hwf Hg) as (Hwf' & Hfree & Hi & Hu).
    assert (∀ u, held !! u <> Some i) as Hnot.
    { intros u Hu'. apply Hheld, elem_of_used in Hu' as [? _]. congruence. }
    split; simpl; rewrite ?Hu; auto.
    + intros u j. rewrite lookup_insert. case_decide; intros; simplify_eq; [set_solver|].
      apply elem_of_union_r. eauto.
    + intros j [->%elem_of_singleton|Hj]%elem_of_union.
      * exists t. by rewrite lookup_insert_eq.
      * destruct (Hused j Hj) as [u Hu']. exists u. rewrite lookup_insert_ne; [done|congruence].
    + intros t1 t2 j. rewrite !lookup_insert. repeat case_decide; intros; simplify_eq; eauto;
        exfalso; eapply Hnot; eauto.
    + intros Hne. apply Hwait in Hne. pose proof (used_size p') as Hs. rewrite Hu in Hs.
      rewrite size_union in Hs |- *; rewrite ?size_singleton in *; try lia;
        apply disjoint_singleton_l; rewrite elem_of_used; intros [? _]; congruence.
  - split; simpl; auto. intros _. by apply try_get_None.
  - destruct (ReleaseConnection_wf p i Hwf) as (p2 & Hr2 & Hwf' & Hu & _).
    rewrite Hr in Hr2. simplify_eq. split; simpl; rewrite ?Hu; auto; try done.
    + intros u j [Hne Hj]%lookup_delete_Some. apply elem_of_difference.
      split; [eauto|]. intros ->%elem_of_singleton. apply Hne. eauto.
    + intros j [Hj Hne]%elem_of_difference. destruct (Hused j Hj) as [u Hu'].
      exists u. rewrite lookup_delete_ne; [done|]. intros ->. set_solver.
    + intros t1 t2 j [? ?]%lookup_delete_Some [? ?]%lookup_delete_Some. eauto.
Qed.

Lemma preachable_inv s : preachable s -> pool_inv s.
Proof. induction 1; [apply pool_inv_init|]. eauto using pool_inv_step. Qed.

(** A step is always possible for a goroutine that holds a client. *)
Lemma release_enabled s t i :
  pool_inv s -> ps_held s !! t = Some i -> exists s', pstep s s' /\ ps_held s' = delete t (ps_held s).
Proof.
  intros Hs Ht. destruct s as [p held w]; simpl in *.
  destruct (ReleaseConnection_wf p i (inv_wf _ Hs)) as (p' & Hr & _).
  exists (mkPState p' (delete t held) ∅). split; [by eapply step_release|done].
Qed.

(** C13. Whatever the interleaving of the goroutines that take and return Kinetic
    connections, no client is held by two of them, every client in use is held by
    one of them, and a goroutine is left waiting only while all clients of the
    pool are in use: no release is lost. *)
Theorem pool_exclusive s :
  preachable s ->
  (∀ t1 t2 i, ps_held s !! t1 = Some i -> ps_held s !! t2 = Some i -> t1 = t2) /\
  (∀ i, i ∈ used (ps_pool s) <-> exists t, ps_held s !! t = Some i) /\
  (ps_waiting s <> ∅ -> size (used (ps_pool s)) = maxQueue) /\
  totalInUsed (ps_pool s) = Z.of_nat (size (used (ps_pool s))).
Proof.
  intros Hs. apply preachable_inv in Hs as []. split_and!; [done| |done|apply inv_wf0].
  intros i. split; [apply inv_used0|]. intros [t Ht]. by eapply inv_held0.
Qed.

(** One goroutine takes the first client of a new pool. *)
Definition one_taken : pstate :=
  match try_get init_pool with
  | Some (i, p) => mkPState p {[7%nat := i]} ∅
  | None => mkPState init_pool ∅ ∅
  end.

Lemma one_taken_reachable : preachable one_taken.
Proof.
  eapply reach_step; [apply reach_init|]. unfold one_taken.
  destruct (try_get init_pool) as [[i p]|] eqn:E; [|by vm_compute in E].
  apply step_get; [done|done|exact E].
Qed.

Lemma pool_exclusive_witness :
  preachable one_taken /\
  (∀ i, i ∈ used (ps_pool one_taken) <-> exists t, ps_held one_taken !! t = Some i) /\
  ps_held one_taken !! 7%nat = Some 0%nat.
Proof.
  split; [apply one_taken_reachable|]. split; [|reflexivity].
  apply (pool_exclusive one_taken). apply one_taken_reachable.
Defined.


