(* ===== verification/Drive.v ===== *)
(** * The Kinetic store library (C_Operations.h)

    The store is code outside the repository (kineticd); cmd/client.go calls it
    through cgo.  [KineticDrive] has the entry points of C_Operations.h over an
    abstract drive state; [KineticDriveSpec] gives a drive a view as a finite
    map from keys to entries and states what a key-value store promises in terms
    of that view.  [ref_drive] is an instance with a bounded capacity, used by
    the witnesses. *)
From S2P Require Import Prelude GoLib IncStr.

(** What [Get], [PartialGet] and [GetMeta] give back: the returned buffer cut to
    [*dataSize] bytes ([None] for a null pointer) and [*status]. *)
Record cresult := mkCResult { c_value : option bytes; c_status : Z }.

Class KineticDrive := {
  drive : Type;
  C_GetMeta : drive -> bytes -> cresult;
  C_Get : drive -> bytes -> cresult;
  C_PartialGet : drive -> bytes -> Z -> Z -> cresult;
  (** key, metadata, value (a null pointer is [None]) *)
  C_Put : drive -> bytes -> bytes -> option bytes -> drive * Z;
  C_Delete : drive -> bytes -> drive * Z;
  (** startKey, endKey, startKeyInclusive, endKeyInclusive, maxReturned,
      reverse; the bytes written to the result buffer *)
  C_GetKeyRange : drive -> bytes -> bytes -> bool -> bool -> Z -> bool -> bytes;
  C_Flush : drive -> drive * Z }.

Record entry := mkEntry { e_meta : bytes; e_value : bytes }.
#[export] Instance entry_eq_dec : EqDecision entry.
Proof. solve_decision. Defined.

(** The keys of a store in the drive's order. *)
Definition sorted_keys (m : gmap bytes entry) : list bytes :=
  merge_sort ble (map_to_list m).*1.

(** The answer to a key range request: the keys of the range in order, at most
    [maxReturned] of them. *)
Definition keys_in_range (m : gmap bytes entry) (start stop : bytes)
    (startIncl stopIncl : bool) (maxReturned : Z) : list bytes :=
  take (Z.to_nat maxReturned)
    (filter (λ k, in_range start stop startIncl stopIncl k = true) (sorted_keys m)).

(** What is relied on of the store.  No promise is made about the status of
    deleting a missing key, about reading an empty value or about an empty end
    key. *)
Class KineticDriveSpec (K : KineticDrive) := {
  view : drive -> gmap bytes entry;
  GetMeta_present d k e :
    view d !! k = Some e -> C_GetMeta d k = mkCResult (Some (e_meta e)) 0;
  GetMeta_missing d k :
    view d !! k = None -> c_status (C_GetMeta d k) <> 0 \/ c_value (C_GetMeta d k) = None;
  Get_present d k e :
    view d !! k = Some e -> e_value e <> [] -> C_Get d k = mkCResult (Some (e_value e)) 0;
  Get_missing d k :
    view d !! k = None -> c_status (C_Get d k) <> 0 \/ c_value (C_Get d k) = None;
  PartialGet_present d k e off n :
    view d !! k = Some e -> 0 <= off -> 0 < n -> off + n <= Z.of_nat (length (e_value e)) ->
    C_PartialGet d k off n
    = mkCResult (Some (take (Z.to_nat n) (drop (Z.to_nat off) (e_value e)))) 0;
  Put_spec d k m v :
    let '(d', s) := C_Put d k m v in
    view d' = if decide (s = 0) then <[k := mkEntry m (default [] v)]> (view d) else view d;
  Delete_spec d k :
    let '(d', s) := C_Delete d k in
    view d' = if decide (s = 0) then delete k (view d) else view d;
  GetKeyRange_spec d start stop si ei n :
    stop <> [] -> 0 <= n ->
    C_GetKeyRange d start stop si ei n false
    = Join (keys_in_range (view d) start stop si ei n) (str ":");
  Flush_spec d : view (C_Flush d).1 = view d }.

(** ** Facts about sorted keys *)
Lemma elem_of_sorted_keys m k : k ∈ sorted_keys m <-> is_Some (m !! k).
Proof.
  unfold sorted_keys. rewrite merge_sort_Permutation, list_elem_of_fmap. split.
  - intros ([k' e] & -> & H%elem_of_map_to_list). eauto.
  - intros [e He]. exists (k, e). split; [done|]. by apply elem_of_map_to_list.
Qed.

Lemma sorted_keys_sorted m : StronglySorted ble (sorted_keys m).
Proof. apply (StronglySorted_merge_sort _). Qed.

Lemma sorted_keys_NoDup m : NoDup (sorted_keys m).
Proof.
  unfold sorted_keys. rewrite merge_sort_Permutation. apply NoDup_fst_map_to_list.
Qed.

Lemma elem_of_keys_in_range m start stop si ei n k :
  k ∈ keys_in_range m start stop si ei n ->
  is_Some (m !! k) /\ in_range start stop si ei k = true.
Proof.
  intros Hk. unfold keys_in_range in Hk.
  apply elem_of_take in Hk as (i & Hi & _). apply list_elem_of_lookup_2 in Hi.
  apply list_elem_of_filter in Hi as [H1 H2]. by rewrite <- elem_of_sorted_keys.
Qed.

(** ** A reference drive: a finite map with a capacity in entries, whose
    [C_Delete] answers [missing] for a key that is not there. *)
Record ref_state := mkRef { ref_entries : gmap bytes entry; ref_capacity : nat }.

Section ref.
Context (missing : Z).

Definition ref_drive : KineticDrive := {|
  drive := ref_state;
  C_GetMeta d k :=
    match ref_entries d !! k with
    | Some e => mkCResult (Some (e_meta e)) 0
    | None => mkCResult None 1
    end;
  C_Get d k :=
    match ref_entries d !! k with
    | Some e => mkCResult (Some (e_value e)) 0
    | None => mkCResult None 1
    end;
  C_PartialGet d k off n :=
    match ref_entries d !! k with
    | Some e => mkCResult (Some (take (Z.to_nat n) (drop (Z.to_nat off) (e_value e)))) 0
    | None => mkCResult None 1
    end;
  C_Put d k m v :=
    if decide ((size (ref_entries d) < ref_capacity d)%nat \/ is_Some (ref_entries d !! k))
    then (mkRef (<[k := mkEntry m (default [] v)]> (ref_entries d)) (ref_capacity d), 0)
    else (d, 4);
  C_Delete d k :=
    match ref_entries d !! k with
    | Some _ => (mkRef (delete k (ref_entries d)) (ref_capacity d), 0)
    | None => (d, missing)
    end;
  C_GetKeyRange d start stop si ei n _ :=
    Join (keys_in_range (ref_entries d) start stop si ei n) (str ":");
  C_Flush d := (d, 0) |}.

Lemma ref_Delete_view d k :
  let '(d', s) := C_Delete (KineticDrive := ref_drive) d k in
  ref_entries d' = if decide (s = 0) then delete k (ref_entries d) else ref_entries d.
Proof.
  simpl. destruct (ref_entries d !! k) eqn:E; simpl; [done|].
  case_decide; [|done]. by rewrite delete_id.
Qed.

Definition ref_drive_spec : KineticDriveSpec ref_drive.
Proof.
  refine {| view := (ref_entries : @drive ref_drive -> gmap bytes entry) |}; simpl.
  - intros d k e ->. done.
  - intros d k ->. auto.
  - intros d k e -> _. done.
  - intros d k ->. auto.
  - intros d k e off n -> _ _ _. done.
  - intros d k m v. by case_decide.
  - apply ref_Delete_view.
  - done.
  - done.
Defined.
End ref.
