(* ===== verification/World.v ===== *)
(** * The state of the server process and the monad of its operations

    An operation of the object layer runs in one goroutine over the state of
    the process: the drive, the connection pool, [kineticMutex], the counter
    [activeIOCount], the namespace lock map and a counter from which the values
    of [time.Now] and of new UUIDs are drawn.  Its outcome is a result, a panic,
    or the fact that it waits for another goroutine (a mutex that is taken, a
    pool with no free connection).  [wp m Q w] says that [m] started in [w]
    returns, with a result and a state that satisfy [Q]: it neither panics nor
    waits, does not run out of fuel and stays in the modelled part. *)
From S2P Require Import Prelude GoLib IncStr Errors Metadata NsLock Pool Drive.

(** Third-party packages and the run-time environment. *)
Class OSEnv := {
  (** The values of successive calls to [time.Now] and [mustGetUUID]. *)
  env_now : nat -> time;
  env_uuid : nat -> bytes;
  (** minio-go's s3utils *)
  s3_CheckValidBucketName : bytes -> option error;
  s3_CheckValidBucketNameStrict : bytes -> option error;
  (** [regexp.MatchString pattern s]; [None] for a malformed pattern *)
  regexp_MatchString : bytes -> bytes -> option bool;
  (** crypto/md5, sha256-simd and the 16 bytes of a call to [rand.Read] *)
  md5_sum : bytes -> bytes;
  sha256_sum : bytes -> bytes;
  env_rand : nat -> bytes;
  (** The local files behind [fsIOPool]: the errors of [Open] and [Create]. *)
  rwPool_Open : bytes -> option error;
  rwPool_Create : bytes -> option error;
  (** the error of writing metadata to such a file *)
  rwPool_WriteTo : bytes -> option error;
  (** the capacity the run time gives the byte slice of a string, by its length *)
  env_cap : nat -> nat;
  (** the contents of a buffer the store library allocates, by clock and index *)
  env_byte : nat -> nat -> ascii }.

Section world.
Context `{KineticDrive} `{LRWMutex}.

Record World := mkWorld {
  w_drive : drive;
  w_pool : KConnsPool;
  w_mutex : bool;
  w_active : Z;
  w_ns : gmap bytes nsLock;
  w_tick : nat }.

Inductive res (A : Type) : Type :=
  | ROk (a : A) (w : World)
  | RPanic (w : World)
  | RBlock (w : World)
  | RFuel (w : World)
  | RUnmodelled (w : World).
#[global] Arguments ROk {_} _ _.
#[global] Arguments RPanic {_} _.
#[global] Arguments RBlock {_} _.
#[global] Arguments RFuel {_} _.
#[global] Arguments RUnmodelled {_} _.

Definition M (A : Type) : Type := World -> res A.

#[global] Instance M_ret : MRet M := λ A a w, ROk a w.
#[global] Instance M_bind : MBind M := λ A B f m w,
  match m w with
  | ROk a w' => f a w'
  | RPanic w' => RPanic w'
  | RBlock w' => RBlock w'
  | RFuel w' => RFuel w'
  | RUnmodelled w' => RUnmodelled w'
  end.

Definition panic {A} : M A := λ w, RPanic w.
Definition out_of_fuel {A} : M A := λ w, RFuel w.
(** The code goes on in a part that is not modelled. *)
Definition unmodelled {A} : M A := λ w, RUnmodelled w.

(** [defer]: the deferred call runs when the body returns and when it
    panics. *)
Definition defer {A} (cleanup : M unit) (body : M A) : M A := λ w,
  match body w with
  | ROk a w' => (_ ← cleanup; mret a) w'
  | RPanic w' => (_ ← cleanup; panic) w'
  | RBlock w' => RBlock w'
  | RFuel w' => RFuel w'
  | RUnmodelled w' => RUnmodelled w'
  end.

(** ** State access *)
Definition set_drive (d : drive) (w : World) : World :=
  mkWorld d (w_pool w) (w_mutex w) (w_active w) (w_ns w) (w_tick w).
Definition set_pool (p : KConnsPool) (w : World) : World :=
  mkWorld (w_drive w) p (w_mutex w) (w_active w) (w_ns w) (w_tick w).
Definition set_mutex (b : bool) (w : World) : World :=
  mkWorld (w_drive w) (w_pool w) b (w_active w) (w_ns w) (w_tick w).
Definition set_active (n : Z) (w : World) : World :=
  mkWorld (w_drive w) (w_pool w) (w_mutex w) n (w_ns w) (w_tick w).
Definition set_ns (n : gmap bytes nsLock) (w : World) : World :=
  mkWorld (w_drive w) (w_pool w) (w_mutex w) (w_active w) n (w_tick w).
Definition set_tick (n : nat) (w : World) : World :=
  mkWorld (w_drive w) (w_pool w) (w_mutex w) (w_active w) (w_ns w) n.

Definition drive_read {A} (f : drive -> A) : M A := λ w, ROk (f (w_drive w)) w.
Definition drive_write {A} (f : drive -> drive * A) : M A := λ w,
  let '(d, a) := f (w_drive w) in ROk a (set_drive d w).

(** [kineticMutex.Lock()] and [kineticMutex.Unlock()]; unlocking a free mutex is
    a fatal error of the Go run time. *)
Definition kineticMutex_Lock : M unit := λ w,
  if w_mutex w then RBlock w else ROk tt (set_mutex true w).
Definition kineticMutex_Unlock : M unit := λ w,
  if w_mutex w then ROk tt (set_mutex false w) else RPanic w.

(** The connection is the index of its client. *)
Definition GetKineticConnection : M nat := λ w,
  match try_get (w_pool w) with
  | Some (i, p) => if decide (is_Some (kcs p !! i)) then ROk i (set_pool p w) else RPanic w
  | None => RBlock w
  end.

Definition releaseConnection (ix : nat) : M unit := λ w,
  match Pool.ReleaseConnection (w_pool w) ix with
  | Some p => ROk tt (set_pool p w)
  | None => RPanic w
  end.

(** Fields of a client of the pool. *)
Definition client_get (ix : nat) : M Client := λ w,
  match kcs (w_pool w) !! ix with Some c => ROk c w | None => RPanic w end.
Definition client_set (ix : nat) (f : Client -> Client) : M unit := λ w,
  let p := w_pool w in
  ROk tt (set_pool (mkPool (alter f ix (kcs p)) (inUsed p) (totalInUsed p) (totalInUsedMax p)) w).

(** [atomic.AddInt64(&ko.activeIOCount, n)] *)
Definition activeIO_add (n : Z) : M unit := λ w, ROk tt (set_active (wrap_s 64 (w_active w + n)) w).

(** Namespace locks. *)
Definition li_GetLock (li : localLockInstance) : M (option error) := λ w,
  let '(e, n) := GetLock (w_ns w) li in ROk e (set_ns n w).
Definition li_GetRLock (li : localLockInstance) : M (option error) := λ w,
  let '(e, n) := GetRLock (w_ns w) li in ROk e (set_ns n w).
Definition li_Unlock (li : localLockInstance) : M unit := λ w,
  ROk tt (set_ns (Unlock (w_ns w) li) w).
Definition li_RUnlock (li : localLockInstance) : M unit := λ w,
  ROk tt (set_ns (RUnlock (w_ns w) li) w).

Definition time_Now `{OSEnv} : M time := λ w, ROk (env_now (w_tick w)) (set_tick (S (w_tick w)) w).
Definition rand_Read `{OSEnv} : M bytes := λ w, ROk (env_rand (w_tick w)) (set_tick (S (w_tick w)) w).
Definition mustGetUUID `{OSEnv} : M bytes := λ w, ROk (env_uuid (w_tick w)) (set_tick (S (w_tick w)) w).

(** A C buffer viewed as a Go slice through a pointer to an array of [limit]
    bytes: cutting it to more than the array holds panics. *)
Definition cslice (limit : Z) (v : bytes) : M bytes :=
  if Z.of_nat (length v) <=? limit then mret v else panic.

(** ** Weakest preconditions *)
Definition wp {A} (m : M A) (Q : A -> World -> Prop) (w : World) : Prop :=
  match m w with ROk a w' => Q a w' | _ => False end.

Lemma wp_ret {A} (a : A) Q w : Q a w -> wp (mret a) Q w.
Proof. done. Qed.

Lemma wp_bind {A B} (m : M A) (f : A -> M B) Q w :
  wp m (λ a w', wp (f a) Q w') w -> wp (m ≫= f) Q w.
Proof. unfold wp, mbind, M_bind. by destruct (m w). Qed.

Lemma wp_mono {A} (m : M A) (Q Q' : A -> World -> Prop) w :
  wp m Q w -> (∀ a w', Q a w' -> Q' a w') -> wp m Q' w.
Proof. unfold wp. destruct (m w); auto. Qed.

Lemma wp_defer {A} cleanup (body : M A) Q w :
  wp body (λ a w', wp cleanup (λ _ w'', Q a w'') w') w -> wp (defer cleanup body) Q w.
Proof.
  unfold wp, defer, mbind, M_bind. destruct (body w); try done. by destruct (cleanup w0).
Qed.

Lemma wp_elim {A} (m : M A) Q w : wp m Q w -> exists a w', m w = ROk a w' /\ Q a w'.
Proof. unfold wp. destruct (m w); naive_solver. Qed.

Lemma wp_drive_read {A} (f : drive -> A) Q w : Q (f (w_drive w)) w -> wp (drive_read f) Q w.
Proof. done. Qed.

Lemma wp_drive_write {A} (f : drive -> drive * A) Q w :
  (∀ d a, f (w_drive w) = (d, a) -> Q a (set_drive d w)) -> wp (drive_write f) Q w.
Proof. unfold wp, drive_write. destruct (f (w_drive w)) as [d a] eqn:E. auto. Qed.

Lemma wp_time_Now `{OSEnv} (Q : time -> World -> Prop) w :
  Q (env_now (w_tick w)) (set_tick (S (w_tick w)) w) -> wp time_Now Q w.
Proof. done. Qed.

Lemma wp_mustGetUUID `{OSEnv} (Q : bytes -> World -> Prop) w :
  Q (env_uuid (w_tick w)) (set_tick (S (w_tick w)) w) -> wp mustGetUUID Q w.
Proof. done. Qed.

Lemma wp_lock (Q : unit -> World -> Prop) w :
  w_mutex w = false -> Q tt (set_mutex true w) -> wp kineticMutex_Lock Q w.
Proof. intros E HQ. unfold wp, kineticMutex_Lock. by rewrite E. Qed.

Lemma wp_unlock (Q : unit -> World -> Prop) w :
  w_mutex w = true -> Q tt (set_mutex false w) -> wp kineticMutex_Unlock Q w.
Proof. intros E HQ. unfold wp, kineticMutex_Unlock. by rewrite E. Qed.

Definition pool_free (p : KConnsPool) : Prop :=
  pool_wf p /\ (size (used p) < maxQueue)%nat.

(** The number of the next part each client will read. *)
Definition next_parts (p : KConnsPool) : gmap nat Z := c_NextPartNumber <$> kcs p.

(** [p'] is [p] with client [i] taken; [p'] has the clients of [p] in use. *)
Record pool_plus (i : nat) (p p' : KConnsPool) : Prop := {
  plus_wf : pool_wf p';
  plus_free : in_use p i = false;
  plus_used : used p' = {[i]} ∪ used p;
  plus_next : next_parts p' = next_parts p;
  plus_client : is_Some (kcs p' !! i) }.

Record pool_like (p p' : KConnsPool) : Prop := {
  like_wf : pool_wf p';
  like_used : used p' = used p;
  like_next : next_parts p' = next_parts p }.

Lemma pool_like_refl p : pool_wf p -> pool_like p p.
Proof. by split. Qed.
Lemma pool_like_trans p1 p2 p3 : pool_like p1 p2 -> pool_like p2 p3 -> pool_like p1 p3.
Proof. intros [] []. split; try done; congruence. Qed.
Lemma pool_free_like p p' : pool_free p -> pool_like p p' -> pool_free p'.
Proof. intros [? ?] []. split; [done|congruence]. Qed.

Lemma wp_get_conn (Q : nat -> World -> Prop) w :
  pool_free (w_pool w) ->
  (∀ i p, pool_plus i (w_pool w) p -> Q i (set_pool p w)) ->
  wp GetKineticConnection Q w.
Proof.
  intros [Hwf Hs] HQ. unfold wp, GetKineticConnection.
  destruct (try_get (w_pool w)) as [[i p]|] eqn:E.
  - destruct (try_get_wf _ _ _ Hwf E) as (Hp & Hi & Hb & Hu).
    assert (is_Some (kcs p !! i)) by (by apply Hp).
    rewrite decide_True by done. apply HQ. split; auto. clear -E. unfold try_get in E.
    destruct (_ <? _); [|done]. destruct (first_free _ _ _); simplify_eq.
    unfold next_parts; cbn [kcs]. apply map_eq. intros j.
    rewrite !lookup_fmap, lookup_alter. case_decide; subst; [|done].
    by destruct (kcs (w_pool w) !! j).
  - apply try_get_None in E; [lia|done].
Qed.

(** A client taken and given back leaves the set of clients in use as it was. *)
Lemma wp_release i p0 (Q : unit -> World -> Prop) w :
  pool_plus i p0 (w_pool w) ->
  (∀ p, pool_like p0 p -> Q tt (set_pool p w)) ->
  wp (releaseConnection i) Q w.
Proof.
  intros [Hwf Hf Hu Hn Hc] HQ. unfold wp, releaseConnection.
  destruct (ReleaseConnection_wf (w_pool w) i Hwf) as (p & -> & ? & E & Hk).
  apply HQ. split; [done| |].
  - rewrite E, Hu. assert (i ∉ used p0); [|set_solver]. rewrite elem_of_used. intros [? _]. congruence.
  - unfold next_parts in *. by rewrite Hk.
Qed.

Lemma wp_cslice limit v (Q : bytes -> World -> Prop) w :
  Z.of_nat (length v) <= limit -> Q v w -> wp (cslice limit v) Q w.
Proof. intros Hl HQ. unfold cslice. destruct (Z.leb_spec (Z.of_nat (length v)) limit); [done|lia]. Qed.

Lemma wp_client_set i p0 f (Q : unit -> World -> Prop) w :
  pool_plus i p0 (w_pool w) -> (∀ c, c_NextPartNumber (f c) = c_NextPartNumber c) ->
  (∀ p, pool_plus i p0 p -> kcs p !! i = f <$> kcs (w_pool w) !! i -> Q tt (set_pool p w)) ->
  wp (client_set i f) Q w.
Proof.
  intros [[H1 H2 H3] Hf Hu Hn Hc] Hnp HQ. unfold wp, client_set. apply HQ.
  - split; [split|done| | |].
    + intros j Hj. cbn [kcs]. rewrite lookup_alter. case_decide; subst; [|auto].
      apply fmap_is_Some. auto.
    + apply H2.
    + cbn [totalInUsed]. rewrite H3, used_eq. done.
    + rewrite <- Hu, used_eq. done.
    + rewrite <- Hn. unfold next_parts. cbn [kcs]. apply map_eq. intros j.
      rewrite !lookup_fmap, lookup_alter. case_decide; subst; [|done].
      destruct (kcs (w_pool w) !! j); simpl; [by rewrite Hnp|done].
    + cbn [kcs]. rewrite lookup_alter_eq. by apply fmap_is_Some.
  - cbn [kcs]. by rewrite lookup_alter_eq.
Qed.

(** ** The control state

    Everything but the drive and the clock: two worlds in the relation [same]
    have the same mutex, the same counter of active requests, the same clients
    in use and the same locks held.  [ready] is what a request finds: the mutex
    is free, a client is free, and the invariants of the pool and of the lock
    map hold. *)
Context `{!LRWMutexLaws _}.

Record same (w w' : World) : Prop := {
  same_mutex : w_mutex w' = w_mutex w;
  same_active : w_active w' = w_active w;
  same_wf : pool_wf (w_pool w');
  same_used : used (w_pool w') = used (w_pool w);
  same_next : next_parts (w_pool w') = next_parts (w_pool w);
  same_nswf : ns_wf (w_ns w');
  same_ns : ns_abs (w_ns w') = ns_abs (w_ns w) }.

Record ready (w : World) : Prop := {
  ready_mutex : w_mutex w = false;
  ready_pool : pool_free (w_pool w);
  ready_active : in_int64 (w_active w);
  ready_ns : ns_wf (w_ns w) }.

Lemma same_refl w : pool_wf (w_pool w) -> ns_wf (w_ns w) -> same w w.
Proof. by split. Qed.

Lemma same_trans w1 w2 w3 : same w1 w2 -> same w2 w3 -> same w1 w3.
Proof. intros [] []. split; try done; congruence. Qed.

Lemma ready_same w w' : ready w -> same w w' -> ready w'.
Proof.
  intros [H1 [H2 H3] H4 H5] [E1 E2 E3 E4 E5 E6 E7].
  split; [congruence|split; [done|congruence]|by rewrite E2|done].
Qed.

(** A handler that gave back what it took. *)
Lemma same_like w w' :
  ready w -> w_mutex w' = w_mutex w -> w_active w' = w_active w -> w_ns w' = w_ns w ->
  pool_like (w_pool w) (w_pool w') -> same w w'.
Proof.
  intros [? ? ? ?] ? ? E []. split; try done; by rewrite E.
Qed.

Lemma ready_refl w : ready w -> same w w.
Proof. intros [? [? ?] ? ?]. by apply same_refl. Qed.

(** Changes of the drive and of the clock. *)
Lemma same_set_drive w w' d : same w w' -> same w (set_drive d w').
Proof. by intros []; split. Qed.
Lemma same_set_tick w w' t : same w w' -> same w (set_tick t w').
Proof. by intros []; split. Qed.

(** ** Requests counted as active *)
Definition counted {A} (body : M A) : M A :=
  _ ← activeIO_add 1; defer (activeIO_add (-1)) body.

Lemma wrap_s_undo x : in_int64 x -> wrap_s 64 (wrap_s 64 (x + 1) + -1) = x.
Proof.
  unfold in_int64, int64_min, int64_max. intros Hx.
  destruct (decide (x = 2 ^ 63 - 1)) as [->|]; [done|].
  rewrite (wrap_s_id 64 (x + 1)) by lia. rewrite wrap_s_id by lia. lia.
Qed.

Lemma wp_counted {A} (body : M A) Q w :
  in_int64 (w_active w) ->
  wp body (λ a w', w_active w' = wrap_s 64 (w_active w + 1) /\ Q a (set_active (w_active w) w'))
    (set_active (wrap_s 64 (w_active w + 1)) w) ->
  wp (counted body) Q w.
Proof.
  intros Ha Hb. unfold counted. apply wp_bind. unfold wp at 1, activeIO_add.
  apply wp_defer. eapply wp_mono; [exact Hb|]. simpl. intros a w' [E HQ].
  unfold wp, activeIO_add. by rewrite E, wrap_s_undo.
Qed.

(** The count and the locks of a handler: [body] runs between them. *)
Lemma same_counted w w' n :
  same (set_active n w) w' -> w_active w' = n /\ same w (set_active (w_active w) w').
Proof. intros []. split; [done|]. by split. Qed.

Lemma ready_counted w : ready w -> ready (set_active (wrap_s 64 (w_active w + 1)) w).
Proof.
  intros []. split; try done. cbn [w_active set_active]. unfold in_int64, int64_min, int64_max, wrap_s.
  pose proof (Z.mod_pos_bound (w_active w + 1 + 2 ^ (64 - 1)) (2 ^ 64)). lia.
Qed.

(** ** Handlers that hold a namespace lock

    [if err := lock.GetLock(timeout); err != nil { return err }; defer
    lock.Unlock()] around [body]; [rd] for a read lock. *)
Definition with_lock {A} (rd : bool) (li : localLockInstance) (fail : error -> A) (body : M A)
  : M A :=
  e ← (if rd then li_GetRLock li else li_GetLock li);
  match e with
  | Some e => mret (fail e)
  | None => defer (if rd then li_RUnlock li else li_Unlock li) body
  end.

Definition li_lock (rd : bool) (li : localLockInstance) : M (option error) :=
  if rd then li_GetRLock li else li_GetLock li.
Definition li_unlock (rd : bool) (li : localLockInstance) : M unit :=
  if rd then li_RUnlock li else li_Unlock li.

Lemma wp_li_lock rd b o (Q : option error -> World -> Prop) w :
  ns_wf (w_ns w) ->
  (∀ n, spec_lock (ns_abs (w_ns w)) (pathJoin [b; o]) rd = None -> ns_wf n ->
     ns_abs n = ns_abs (w_ns w) -> Q (Some OperationTimedOut) (set_ns n w)) ->
  (∀ n, spec_lock (ns_abs (w_ns w)) (pathJoin [b; o]) rd = Some (ns_abs n) -> ns_wf n ->
     Q None (set_ns n w)) ->
  wp (li_lock rd (NewNSLock b [o])) Q w.
Proof.
  intros Hn HF HS. destruct (ns_lock (w_ns w) b o rd) as [ok n1] eqn:E.
  assert (wp (li_lock rd (NewNSLock b [o]))
    (λ e w1, e = (if ok then None else Some OperationTimedOut) /\ w1 = set_ns n1 w) w) as Hl.
  { unfold li_lock. destruct rd; unfold wp, li_GetRLock, li_GetLock, GetRLock, GetLock; simpl;
      rewrite E; by destruct ok. }
  eapply wp_mono; [exact Hl|]. clear Hl. intros e w1 [-> ->].
  destruct (ns_lock_refine _ _ _ _ _ _ Hn E) as [Hwf1 Hr].
  destruct (spec_lock _ _ _) as [t|]; destruct Hr as [-> Ha].
  - apply HS; [by rewrite Ha|done].
  - by apply HF.
Qed.

(** Unlocking what was locked in a well-formed map [n0]. *)
Lemma wp_li_unlock rd b o n0 (Q : unit -> World -> Prop) w :
  ns_wf n0 -> spec_lock (ns_abs n0) (pathJoin [b; o]) rd = Some (ns_abs (w_ns w)) ->
  ns_wf (w_ns w) ->
  (∀ n, ns_wf n -> ns_abs n = ns_abs n0 -> Q tt (set_ns n w)) ->
  wp (li_unlock rd (NewNSLock b [o])) Q w.
Proof.
  intros Hn0 Et Hn HQ.
  destruct (spec_lock_unlock _ _ _ _ (λ s, ns_abs_readers _ _ s Hn0) Et) as [Hh Hu].
  destruct (ns_unlock_refine _ _ _ _ Hn Hh) as [H4 H5].
  assert (ns_abs (ns_unlock (w_ns w) b o rd) = ns_abs n0) by congruence.
  destruct rd; by apply HQ.
Qed.

Lemma wp_with_lock {A} rd b o fail (body : M A) Q w :
  ns_wf (w_ns w) ->
  (∀ n, spec_lock (ns_abs (w_ns w)) (pathJoin [b; o]) rd = None -> ns_wf n ->
     ns_abs n = ns_abs (w_ns w) -> Q (fail OperationTimedOut) (set_ns n w)) ->
  (∀ n, spec_lock (ns_abs (w_ns w)) (pathJoin [b; o]) rd = Some (ns_abs n) -> ns_wf n ->
     wp body (λ a w', ns_wf (w_ns w') /\ ns_abs (w_ns w') = ns_abs n /\
                (∀ n', ns_wf n' -> ns_abs n' = ns_abs (w_ns w) -> Q a (set_ns n' w')))
       (set_ns n w)) ->
  wp (with_lock rd (NewNSLock b [o]) fail body) Q w.
Proof.
  intros Hn HF HS. apply wp_bind, wp_li_lock; [done|by auto|]. intros n E Hn'. apply wp_defer.
  eapply wp_mono; [by apply HS|]. simpl. intros a w' (H1 & H2 & H3).
  apply (wp_li_unlock rd b o (w_ns w)); auto. by rewrite H2.
Qed.

(** ** Runs

    [runs m R w]: started in [w], [m] returns, leaves the control state as it
    found it, and its result, the drive and the clock afterwards satisfy [R]. *)
Definition runs {A} (m : M A) (R : A -> drive -> nat -> Prop) (w : World) : Prop :=
  wp m (λ a w', same w w' /\ R a (w_drive w') (w_tick w')) w.

Lemma runs_ret {A} (a : A) (R : A -> drive -> nat -> Prop) w :
  ready w -> R a (w_drive w) (w_tick w) -> runs (mret a) R w.
Proof. intros Hw HR. apply wp_ret. split; [by apply ready_refl|done]. Qed.

Lemma runs_bind {A B} (m : M A) (f : A -> M B) R1 R2 w :
  ready w -> runs m R1 w ->
  (∀ a w', ready w' -> same w w' -> R1 a (w_drive w') (w_tick w') -> runs (f a) R2 w') ->
  runs (m ≫= f) R2 w.
Proof.
  intros Hw Hm Hf. apply wp_bind. eapply wp_mono; [exact Hm|]. simpl. intros a w' [Hs HR].
  eapply wp_mono; [apply Hf; eauto using ready_same|]. simpl. intros b w'' [Hs' HR'].
  eauto using same_trans.
Qed.

Lemma runs_ret_bind {A B} (a : A) (f : A -> M B) R w : runs (f a) R w -> runs (mret a ≫= f) R w.
Proof. done. Qed.

Lemma runs_assoc {A B C} (m : M A) (f : A -> M B) (g : B -> M C) R w :
  runs (m ≫= λ a, f a ≫= g) R w -> runs ((m ≫= f) ≫= g) R w.
Proof. unfold runs, wp, mbind, M_bind. by destruct (m w). Qed.

Lemma runs_trans {A} (m : M A) R w w' :
  same w w' -> runs m R w' -> wp m (λ a w'', same w w'' /\ R a (w_drive w'') (w_tick w'')) w'.
Proof.
  intros Hs Hm. eapply wp_mono; [exact Hm|]. simpl. intros a w'' [Hs' HR]. eauto using same_trans.
Qed.

Lemma runs_mono {A} (m : M A) (R R' : A -> drive -> nat -> Prop) w :
  runs m R w -> (∀ a d t, R a d t -> R' a d t) -> runs m R' w.
Proof. intros Hm HR. eapply wp_mono; [exact Hm|]. simpl. naive_solver. Qed.

Lemma runs_counted {A} (body : M A) R w :
  ready w ->
  (∀ w1, ready w1 -> w_drive w1 = w_drive w -> w_tick w1 = w_tick w -> w_pool w1 = w_pool w ->
     ns_abs (w_ns w1) = ns_abs (w_ns w) -> runs body R w1) ->
  runs (counted body) R w.
Proof.
  intros Hw Hb. apply wp_counted; [apply Hw|].
  eapply wp_mono; [apply Hb; [by apply ready_counted|done..]|].
  simpl. intros a w' [Hs HR]. destruct (same_counted _ _ _ Hs). auto.
Qed.

(** Whether the lock of an object can be taken. *)
Definition lockable (w : World) (b o : bytes) (rd : bool) : Prop :=
  spec_lock (ns_abs (w_ns w)) (pathJoin [b; o]) rd <> None.

Lemma lockable_same w w' b o rd : same w w' -> lockable w' b o rd <-> lockable w b o rd.
Proof. intros []. unfold lockable. by rewrite same_ns0. Qed.

(** A resource nobody holds can be locked either way. *)
Lemma lockable_write_read w b o : lockable w b o false -> lockable w b o true.
Proof. unfold lockable, spec_lock. by repeat case_match. Qed.

Lemma runs_with_lock {A} rd b o fail (body : M A) R w :
  ready w ->
  (~ lockable w b o rd -> R (fail OperationTimedOut) (w_drive w) (w_tick w)) ->
  (∀ w1, ready w1 -> w_drive w1 = w_drive w -> w_tick w1 = w_tick w -> w_pool w1 = w_pool w ->
     spec_lock (ns_abs (w_ns w)) (pathJoin [b; o]) rd = Some (ns_abs (w_ns w1)) ->
     lockable w b o rd -> runs body R w1) ->
  runs (with_lock rd (NewNSLock b [o]) fail body) R w.
Proof.
  intros Hw HF HS. pose proof (ready_ns _ Hw) as Hn. unfold lockable in *.
  apply wp_with_lock; [done|..].
  - intros n E Hn' Ha. split; [|apply HF; intros Hx; by apply Hx].
    destruct (ready_refl _ Hw). by split.
  - intros n E Hn'. eapply wp_mono; [apply HS; [|done|done|done|done|by rewrite E]|].
    + destruct Hw. by split.
    + simpl. intros a w' [Hs HR]. destruct Hs. split; [done|]. split; [done|]. intros n' H1 H2. split; [|done].
      by split.
Qed.

(** The outcome of a locked handler: the body's, or a timeout when the lock is
    held by someone else. *)
Definition or_timeout {A} (w : World) (b o : bytes) (rd : bool) (fail : error -> A)
    (R : A -> drive -> nat -> Prop) (a : A) (d : drive) (t : nat) : Prop :=
  (lockable w b o rd -> R a d t) /\
  (~ lockable w b o rd -> a = fail OperationTimedOut /\ d = w_drive w /\ t = w_tick w).

Lemma runs_locked {A} rd b o fail (body : M A) R w :
  ready w ->
  (∀ w1, ready w1 -> w_drive w1 = w_drive w -> w_tick w1 = w_tick w -> w_pool w1 = w_pool w ->
     spec_lock (ns_abs (w_ns w)) (pathJoin [b; o]) rd = Some (ns_abs (w_ns w1)) ->
     runs body R w1) ->
  runs (with_lock rd (NewNSLock b [o]) fail body) (or_timeout w b o rd fail R) w.
Proof.
  intros Hw Hb. apply runs_with_lock; [done|by split|].
  intros w1 Hw1 Ed Et Ep Es Hl. eapply runs_mono; [by apply Hb|]. intros a d t HR. by split.
Qed.

Lemma runs_locked_counted {A} rd b o fail (body : M A) R w :
  ready w ->
  (∀ w1, ready w1 -> w_drive w1 = w_drive w -> w_tick w1 = w_tick w -> w_pool w1 = w_pool w ->
     spec_lock (ns_abs (w_ns w)) (pathJoin [b; o]) rd = Some (ns_abs (w_ns w1)) -> runs body R w1) ->
  runs (with_lock rd (NewNSLock b [o]) fail (counted body)) (or_timeout w b o rd fail R) w.
Proof.
  intros Hw Hb. apply runs_locked; [done|]. intros w1 Hw1 Ed Et Ep Es.
  apply runs_counted; [done|]. intros w2 Hw2 Ed2 Et2 Ep2 Es2. apply Hb; congruence.
Qed.

End world.

#[global] Arguments wp : simpl never.

(** ** Proof automation: one step of a weakest precondition *)
Ltac wsimpl :=
  cbn [w_drive w_pool w_mutex w_active w_ns w_tick
       set_drive set_pool set_mutex set_active set_ns set_tick fst snd].

Tactic Notation "wsimpl" "in" hyp(H) :=
  cbn [w_drive w_pool w_mutex w_active w_ns w_tick
       set_drive set_pool set_mutex set_active set_ns set_tick fst snd] in H.

Tactic Notation "wsimpl" "in" "*" :=
  cbn [w_drive w_pool w_mutex w_active w_ns w_tick
       set_drive set_pool set_mutex set_active set_ns set_tick fst snd] in *.

Ltac ctl :=
  first
  [ eassumption
  | match goal with H : ready ?w |- w_mutex ?w = false => apply H end
  | match goal with H : ready ?w |- false = w_mutex ?w => symmetry; apply H end
  | match goal with H : ready ?w |- pool_free (w_pool ?w) => apply H end
  | eapply pool_free_like; [|eassumption]; ctl
  | reflexivity ].

Ltac wp_base_step :=
  lazymatch goal with
  | |- runs _ _ _ => unfold runs
  | |- wp (mret _) _ _ => apply wp_ret
  | |- wp (mbind _ _) _ _ => apply wp_bind
  | |- wp kineticMutex_Lock _ _ => apply wp_lock; [wsimpl; ctl|]
  | |- wp kineticMutex_Unlock _ _ => apply wp_unlock; [wsimpl; ctl|]
  | |- wp GetKineticConnection _ _ => apply wp_get_conn; [wsimpl; ctl|let Hp := fresh "Hpool" in intros ? ? Hp; wsimpl in Hp]
  | |- wp (releaseConnection _) _ _ => eapply wp_release; [wsimpl; eassumption|let Hp := fresh "Hpool" in intros ? Hp]
  | |- wp time_Now _ _ => apply wp_time_Now
  | |- wp mustGetUUID _ _ => apply wp_mustGetUUID
  | |- wp (client_set _ _) _ _ => eapply wp_client_set; [wsimpl; eassumption|done|let Hp := fresh "Hpool" in let Hc := fresh "Hcl" in intros ? Hp Hc; wsimpl in Hc]
  end.

(** The control state after a handler's own steps. *)
Ltac same_now :=
  wsimpl; apply same_like;
    [assumption|wsimpl; ctl..|wsimpl; 
       first [eassumption|eapply pool_like_trans; eassumption
             |apply pool_like_refl; match goal with H : ready ?w |- _ => apply (ready_pool _ H) end]].
