(* ===== verification/HashReader.v ===== *)
(** * pkg/hash/reader.go and [PutObjReader]: the input stream of an upload

    A [Reader] hands out the bytes of its source and feeds them to an MD5 and a
    SHA-256 state; at the end of the stream it compares the sums with those the
    client announced.  [MD5CurrentHexString] (cmd/object-api-utils.go) is its ETag.
    [io.ReadFull] over a reader is written out in [read_full]. *)
From S2P Require Import Prelude GoLib Errors Metadata NsLock Pool Drive World.

Record Reader := mkReader {
  r_src : bytes;          (* bytes not read yet, already cut to [size] *)
  r_size : Z;
  r_actualSize : Z;
  r_md5sum : bytes;       (* sums the client sent, empty when absent *)
  r_sha256sum : bytes;
  r_md5Hash : bool;       (* an MD5 state is kept *)
  r_sha256Hash : bool;
  r_consumed : bytes;     (* bytes fed to the hash states *)
  r_eofWithData : bool }. (* the source reports EOF together with its last bytes *)

(** [NewReader]: the source is limited to [size] bytes when a size is given. *)
Definition NewReader (src : bytes) (size : Z) (md5Hex sha256Hex : bytes) (actualSize : Z)
    (strictCompat eofWithData : bool) : Reader + error :=
  match hex.DecodeString sha256Hex, hex.DecodeString md5Hex with
  | None, _ => inr (SHA256Mismatch [] [])
  | Some _, None => inr (BadDigest [] [])
  | Some sha256sum, Some md5sum =>
      inl (mkReader (if 0 <=? size then take (Z.to_nat size) src else src) size actualSize
             md5sum sha256sum (strictCompat || bool_decide (md5sum <> []))
             (bool_decide (sha256sum <> [])) [] eofWithData)
  end.

Section reader.
Context `{OSEnv}.

Definition Verify (r : Reader) : option error :=
  if r_sha256Hash r && bool_decide (r_sha256sum r <> [])
     && negb (bool_decide (r_sha256sum r = sha256_sum (r_consumed r)))
  then Some (SHA256Mismatch (hex.EncodeToString (r_sha256sum r))
               (hex.EncodeToString (sha256_sum (r_consumed r))))
  else if r_md5Hash r && bool_decide (r_md5sum r <> [])
     && negb (bool_decide (r_md5sum r = md5_sum (r_consumed r)))
  then Some (BadDigest (hex.EncodeToString (r_md5sum r))
               (hex.EncodeToString (md5_sum (r_consumed r))))
  else None.

Definition MD5Current (r : Reader) : bytes :=
  if r_md5Hash r then md5_sum (r_consumed r) else [].

(** The reader after [n] more bytes have been read. *)
Definition advance (r : Reader) (n : nat) : Reader :=
  mkReader (drop n (r_src r)) (r_size r) (r_actualSize r) (r_md5sum r) (r_sha256sum r)
    (r_md5Hash r) (r_sha256Hash r) (r_consumed r ++ take n (r_src r)) (r_eofWithData r).

(** [io.ReadFull(reader, buf)] for a buffer of [n] bytes (cmd/fs-v1-helpers.go
    [readToBuffer]): the bytes put into the buffer, the reader afterwards and
    the error.  The end of the stream is seen, and the sums verified, when the
    stream is shorter than the buffer or when the source reports it with its
    last bytes. *)
Definition readToBuffer (r : Reader) (n : nat) : bytes * Reader * option error :=
  if decide (n = 0%nat) then ([], r, None)
  else
    let got := take n (r_src r) in
    let r' := advance r n in
    if decide (length got = n) then
      if r_eofWithData r && bool_decide (r_src r' = []) then
        match Verify r' with
        | Some e => ([], r', Some e)
        | None => (got, r', None)
        end
      else (got, r', None)
    else
      match Verify r' with
      | Some e => (got, r', Some e)
      | None => (got, r', Some (if decide (got = []) then io_EOF else io_ErrUnexpectedEOF))
      end.

Lemma readToBuffer_length r n got r' :
  readToBuffer r n = (got, r', None) -> length got = n /\ got = take n (r_src r).
Proof.
  unfold readToBuffer. case_decide as E; [intros; by simplify_eq|].
  case_decide as El; [|by repeat case_match].
  repeat case_match; intros; simplify_eq; done.
Qed.

(** A complete read of a stream of the announced size succeeds, unless the sums
    are verified and differ. *)
Lemma readToBuffer_full r n :
  length (r_src r) = n -> Verify (advance r n) = None ->
  readToBuffer r n = (r_src r, if decide (n = 0%nat) then r else advance r n, None).
Proof.
  intros Hn Hv. unfold readToBuffer. case_decide as E.
  - destruct (r_src r); [done|]. simpl in Hn. lia.
  - rewrite take_ge by lia. rewrite decide_True by done. by case_match; rewrite ?Hv.
Qed.

End reader.

(** ** PutObjReader

    Uploads without server-side encryption, where the raw and the data reader
    are the same [Reader] and no ETag is sealed. *)
Section put.
Context `{KineticDrive} `{LRWMutex} `{OSEnv}.

(** [MD5CurrentHexString]: without an MD5 state the ETag is random and marked
    with "-1". *)
Definition MD5CurrentHexString (p : Reader) : M bytes :=
  let md5sumCurr := MD5Current p in
  if decide (md5sumCurr = []) then
    r ← rand_Read;
    mret (take 32 (hex.EncodeToString r) ++ str "-1")
  else mret (hex.EncodeToString md5sumCurr).

(** The ETag [MD5CurrentHexString] gives when the clock stands at [t], and the
    clock afterwards. *)
Definition etag_at (p : Reader) (t : nat) : bytes * nat :=
  if decide (MD5Current p = []) then (take 32 (hex.EncodeToString (env_rand t)) ++ str "-1", S t)
  else (hex.EncodeToString (MD5Current p), t).

Lemma wp_MD5 p (Q : bytes -> World -> Prop) w :
  Q (etag_at p (w_tick w)).1 (set_tick (etag_at p (w_tick w)).2 w) ->
  wp (MD5CurrentHexString p) Q w.
Proof.
  intros HQ. unfold MD5CurrentHexString, etag_at in *. case_decide as E; [done|]. by destruct w.
Qed.

End put.

(** Reading an upload into a buffer of [n] bytes: a successful read fills the
    whole buffer with the first [n] bytes of the stream, and when the source
    reports the end of the stream with its last bytes the sums the client sent
    were verified; a failed read means a stream that is too short or sums that
    differ. *)
Theorem read_upload `{OSEnv} r n :
  match readToBuffer r n with
  | (got, r', None) =>
      got = take n (r_src r) /\ length got = n /\
      (r_eofWithData r = true -> length (r_src r) = n -> n <> 0%nat -> Verify r' = None)
  | (_, r', Some e) => (length (r_src r) < n)%nat \/ Verify r' = Some e
  end.
Proof.
  unfold readToBuffer. case_decide as E0; [by subst|]. case_decide as El.
  - destruct (r_eofWithData r) eqn:Ee; cbn [andb].
    + case_bool_decide as Es.
      * destruct (Verify (advance r n)) as [e|] eqn:Ev; [by right|done].
      * split_and!; [done|done|]. intros _ Hn _. exfalso. apply Es. cbn [r_src advance]. apply drop_ge. lia.
    + by split_and!.
  - rewrite length_take in El. destruct (Verify (advance r n)) eqn:Ev; left; lia.
Qed.
