(* ===== verification/Client.v ===== *)
(** * cmd/client.go: the client over the store library

    The calls the object layer makes on a pooled [Client] in the library mode
    ([SkinnyWaistIF], the mode the server is started in): reading metadata and
    data, writing, deleting and listing keys, and [Client.Read], through which
    a GET streams an object.  Memory management across the cgo boundary is not
    modelled. *)
From S2P Require Import Prelude GoLib IncStr Errors Metadata NsLock Pool Drive World.

(** [C.CString]: C sees the bytes up to the first NUL. *)
Fixpoint CString (s : bytes) : bytes :=
  match s with
  | [] => []
  | c :: s' => if decide (c = ascii_of_N 0) then [] else c :: CString s'
  end.

Definition no_nul (s : bytes) : Prop := ascii_of_N 0 ∉ s.

Lemma CString_id s : no_nul s -> CString s = s.
Proof.
  unfold no_nul. induction s as [|c s IH]; intros Hs; [done|]. simpl.
  apply not_elem_of_cons in Hs as [H1 H2]. rewrite decide_False by done. by rewrite IH.
Qed.

(** [string(Keys)] split at ":", without the empty pieces. *)
Definition split_keys (buf : bytes) : list bytes :=
  filter (λ k, k <> []) (Split buf ":"%char).

Section client.
Context `{KineticDrive} `{LRWMutex} `{MetaCodec}.

(** [CGet]: the returned buffer, cut to the returned size, and the error.
    [objSize] is -1 when the caller does not know the size. *)
Definition CGet (key : bytes) (objSize : Z) (metaDataOnly : bool) (offset requestSize : Z)
  : M (option bytes * option error) :=
  r ← (if metaDataOnly then drive_read (λ d, C_GetMeta d (CString key))
       else
         let requestSize := if (requestSize =? -1) || (objSize <? requestSize)
                            then objSize else requestSize in
         if (offset =? 0) && (requestSize =? objSize)
         then drive_read (λ d, C_Get d (CString key))
         else drive_read (λ d, C_PartialGet d (CString key) (wrap_s 32 offset) (wrap_s 32 requestSize)));
  let err := if negb (c_status r =? 0) || bool_decide (c_value r = None)
             then Some errKineticNotFound else None in
  mret (c_value r, err).

Definition CGetMeta (key : bytes) : M (option bytes * option error) :=
  CGet key (-1) true 0 (-1).

Definition DoesObjExist (key : bytes) : M bool :=
  '(cvalue, err) ← CGetMeta key;
  mret (bool_decide (err = None) && bool_decide (cvalue <> None)).

(** [CPut]: with a size of zero or less the store gets a null value pointer and
    the size zero.  [&meta[0]] and [&value[0]] panic on an empty slice. *)
Definition CPut (key meta value : bytes) (size : Z) : M (Z * option error) :=
  if decide (meta = [] \/ (0 < size /\ value = [])) then panic else
  let '(cValue, size) := if 0 <? size then (Some (take (Z.to_nat size) value), size)
                         else (None, 0) in
  status ← drive_write (λ d, C_Put d (CString key) meta cValue);
  mret (wrap_u 32 size, toKineticError status).

Definition cDelete (key : bytes) : M (option error) :=
  status ← drive_write (λ d, C_Delete d (CString key));
  mret (toKineticError status).

(** [Delete] in the library mode. *)
Definition Delete (key : bytes) : M (option error) := cDelete key.

(** [CGetKeyRange]: the [reverse] argument of the caller is not passed on. *)
Definition CGetKeyRange (startKey endKey : bytes) (startKeyInclusive endKeyInclusive : bool)
    (maxReturned : Z) : M (list bytes) :=
  buf ← drive_read (λ d, C_GetKeyRange d (CString startKey) (CString endKey)
                            startKeyInclusive endKeyInclusive (wrap_u 32 maxReturned) false);
  mret (split_keys buf).

Definition Flush : M (option error) :=
  status ← drive_write C_Flush;
  mret (toKineticError status).

(** The name of a part under its object key and version. *)
Definition encodePartFile (partNumber : Z) (etag : bytes) (actualSize : Z) : bytes :=
  Format5d partNumber ++ str "." ++ etag ++ str "." ++ FormatInt actualSize.

(** ** Client.Read *)

(** The loop over the parts of a multipart object: only the part whose index is
    [*c.NextPartNumber] is read.  The data read, the byte count returned and
    the error. *)
Fixpoint read_parts (ix : nat) (partKeyPrefix : bytes) (nparts : Z) (i : Z)
    (parts : list ObjectPartInfo) (requestSize : Z) (err : option error)
  : M (bytes * Z * option error) :=
  match parts with
  | [] => mret ([], 0, err)
  | part :: rest =>
      if requestSize =? 0 then mret ([], 0, err)
      else
        c ← client_get ix;
        if i =? c_NextPartNumber c then
          let key := partKeyPrefix ++ str "."
                       ++ encodePartFile (part_Number part) (part_ETag part) (part_ActualSize part) in
          let partReqSize := if part_Size part <? requestSize then part_Size part else requestSize in
          '(cvalue, cerr) ← CGet key (part_Size part) false (c_DataOffset c) partReqSize;
          match cerr, cvalue with
          | Some e, _ => mret ([], 0, Some e)
          | None, Some v =>
              v ← cslice (2 ^ 30) v;
              _ ← client_set ix (λ c, mkClient (c_Idx c) (c_ConnectionID c) (c_Sequence c)
                     (c_Identity c) (c_HmacKey c) (c_Key c)
                     (if i =? nparts - 1 then 0 else c_NextPartNumber c + 1)
                     (c_LastPartNumber c) (c_DataOffset c));
              mret (take (Z.to_nat requestSize) v, Z.of_nat (length v), None)
          | None, None => read_parts ix partKeyPrefix nparts (i + 1) rest requestSize err
          end
        else read_parts ix partKeyPrefix nparts (i + 1) rest requestSize err
  end.

(** [Read] of a buffer of [n] bytes: the bytes copied into the buffer, the count
    returned and the error. *)
Definition Read (ix : nat) (n : Z) : M (bytes * Z * option error) :=
  c ← client_get ix;
  '(cvalue, err) ← CGetMeta (c_Key c);
  match err, cvalue with
  | Some _, _ => mret ([], 0, Some errFileNotFound)
  | None, _ =>
      '(fsMeta, err) ← match cvalue with
                       | Some v => v ← cslice (2 ^ 16) v; mret (json_Unmarshal v zeroFsMeta)
                       | None => mret (zeroFsMeta, None)
                       end;
      _ ← client_set ix (λ c, mkClient (c_Idx c) (c_ConnectionID c) (c_Sequence c)
             (c_Identity c) (c_HmacKey c) (c_Key c) (c_NextPartNumber c)
             (Z.of_nat (length (Parts fsMeta))) (c_DataOffset c));
      match Parts fsMeta with
      | [] =>
          let objSize := (Atoi (mget (Meta fsMeta) (str "size"))).1 in
          '(cvalue, err) ← CGet (c_Key c) objSize false (c_DataOffset c) n;
          match err, cvalue with
          | Some e, _ => mret ([], 0, Some e)
          | None, Some v =>
              v ← cslice (2 ^ 30) v;
              mret (take (Z.to_nat n) v, Z.of_nat (length v), None)
          | None, None => mret ([], 0, None)
          end
      | parts =>
          read_parts ix (c_Key c ++ str "." ++ mget (Meta fsMeta) (str "version"))
            (Z.of_nat (length parts)) 0 parts n err
      end
  end.

(** ** io.LimitReader and io.CopyBuffer over a client

    [copy_limited fuel ix limit bufSize acc]: copy from
    [io.LimitReader(kc, limit)] with a buffer of [bufSize] bytes until EOF or an
    error; [acc] is what has been written.  [fuel] bounds the number of reads. *)
Fixpoint copy_limited (fuel : nat) (ix : nat) (limit bufSize : Z) (acc : bytes)
  : M (bytes * option error) :=
  match fuel with
  | O => out_of_fuel
  | S fuel' =>
      if limit <=? 0 then mret (acc, None)
      else
        '(data, n, err) ← Read ix (Z.min bufSize limit);
        let acc := acc ++ data in
        match err with
        | Some io_EOF => mret (acc, None)
        | Some e => mret (acc, Some e)
        | None => copy_limited fuel' ix (limit - n) bufSize acc
        end
  end.

(** ** What the calls do, in terms of the view of the store *)
Context `{!KineticDriveSpec _}.

(** Reading metadata gives the stored bytes or "not found". *)
Lemma wp_CGetMeta key (Q : option bytes * option error -> World -> Prop) w :
  (∀ e, view (w_drive w) !! CString key = Some e -> Q (Some (e_meta e), None) w) ->
  (∀ v, view (w_drive w) !! CString key = None -> Q (v, Some errKineticNotFound) w) ->
  wp (CGetMeta key) Q w.
Proof.
  intros HS HF. unfold CGetMeta, CGet. apply wp_bind, wp_drive_read, wp_ret.
  destruct (view (w_drive w) !! CString key) as [e|] eqn:E.
  - rewrite (GetMeta_present _ _ e E). by apply HS.
  - assert (negb (c_status (C_GetMeta (w_drive w) (CString key)) =? 0)
            || bool_decide (c_value (C_GetMeta (w_drive w) (CString key)) = None) = true) as ->;
      [|by apply HF].
    destruct (GetMeta_missing _ _ E) as [Hs|Hv].
    + apply Z.eqb_neq in Hs. by rewrite Hs.
    + rewrite Hv. by rewrite orb_true_r.
Qed.

Lemma wp_DoesObjExist key (Q : bool -> World -> Prop) w :
  Q (bool_decide (is_Some (view (w_drive w) !! CString key))) w -> wp (DoesObjExist key) Q w.
Proof.
  intros HQ. unfold DoesObjExist. apply wp_bind, wp_CGetMeta; intros x E; apply wp_ret;
    rewrite E in HQ.
  - by rewrite bool_decide_eq_true_2 in HQ by eauto.
  - by rewrite bool_decide_eq_false_2 in HQ by (intros [? ?]; done).
Qed.

(** The store after a put that answers [s]. *)
Definition put_result (m : gmap bytes entry) (key meta value : bytes) (s : Z) : gmap bytes entry :=
  if decide (s = 0) then <[CString key := mkEntry meta value]> m else m.

Lemma wp_CPut key meta value size (Q : Z * option error -> World -> Prop) w :
  meta <> [] -> (0 < size -> value <> []) ->
  (∀ d s, view d = put_result (view (w_drive w)) key meta (take (Z.to_nat size) value) s ->
     Q (wrap_u 32 (Z.max 0 size), toKineticError s) (set_drive d w)) ->
  wp (CPut key meta value size) Q w.
Proof.
  intros Hm Hv HQ. unfold CPut. rewrite decide_False by naive_solver.
  assert (Z.max 0 size = if 0 <? size then size else 0) as Hmax
    by (destruct (Z.ltb_spec 0 size); lia).
  rewrite Hmax in HQ.
  destruct (Z.ltb_spec 0 size); apply wp_bind, wp_drive_write; intros d s E; apply wp_ret, HQ;
    (pose proof (Put_spec (w_drive w) (CString key) meta) as Hp);
    unfold put_result.
  - specialize (Hp (Some (take (Z.to_nat size) value))). by rewrite E in Hp.
  - specialize (Hp None). rewrite E in Hp. rewrite Hp. simpl. by replace (Z.to_nat size) with 0%nat by lia.
Qed.

Definition delete_result (m : gmap bytes entry) (key : bytes) (s : Z) : gmap bytes entry :=
  if decide (s = 0) then delete (CString key) m else m.

Lemma wp_Delete key (Q : option error -> World -> Prop) w :
  (∀ d s, view d = delete_result (view (w_drive w)) key s -> Q (toKineticError s) (set_drive d w)) ->
  wp (Delete key) Q w.
Proof.
  intros HQ. unfold Delete, cDelete. apply wp_bind, wp_drive_write. intros d s E. apply wp_ret, HQ.
  pose proof (Delete_spec (w_drive w) (CString key)) as Hd. by rewrite E in Hd.
Qed.

(** Keys that survive the ":"-separated result buffer and a C string. *)
Definition plain_key (k : bytes) : Prop := k <> [] /\ (":"%char ∉ k) /\ no_nul k.

Lemma split_keys_Join ks : Forall plain_key ks -> split_keys (Join ks (str ":")) = ks.
Proof.
  intros Hk. unfold split_keys. destruct ks as [|k ks]; [done|].
  change (str ":") with [":"%char]. rewrite Split_Join; [|done|].
  - apply filter_all. eapply Forall_impl; [exact Hk|]. by intros x [Hx _].
  - eapply Forall_impl; [exact Hk|]. by intros x (_ & Hx & _).
Qed.

Definition plain_store (m : gmap bytes entry) : Prop := ∀ k e, m !! k = Some e -> plain_key k.

Lemma wp_CGetKeyRange start stop si ei n (Q : list bytes -> World -> Prop) w :
  CString stop <> [] -> plain_store (view (w_drive w)) -> 0 <= n < 2 ^ 32 ->
  Q (keys_in_range (view (w_drive w)) (CString start) (CString stop) si ei n) w ->
  wp (CGetKeyRange start stop si ei n) Q w.
Proof.
  intros Hs Hp Hn HQ. unfold CGetKeyRange. apply wp_bind, wp_drive_read, wp_ret.
  rewrite wrap_u_id by done. rewrite GetKeyRange_spec by (done || lia).
  rewrite split_keys_Join; [done|]. apply Forall_forall. intros k Hk.
  apply elem_of_keys_in_range in Hk as [[e He] _]. by apply (Hp k e).
Qed.

Lemma wp_Flush (Q : option error -> World -> Prop) w :
  (∀ d s, view d = view (w_drive w) -> Q (toKineticError s) (set_drive d w)) -> wp Flush Q w.
Proof.
  intros HQ. unfold Flush. apply wp_bind, wp_drive_write. intros d s E. apply wp_ret, HQ.
  pose proof (Flush_spec (w_drive w)) as Hf. by rewrite E in Hf.
Qed.

(** Reading data of a known positive size: the stored bytes from the offset
    on, at most the requested number. *)
Lemma wp_CGet key e objSize off n (Q : option bytes * option error -> World -> Prop) w :
  view (w_drive w) !! CString key = Some e -> objSize = Z.of_nat (length (e_value e)) ->
  0 <= off -> 0 < n -> off + Z.min n objSize <= objSize -> 0 < objSize < 2 ^ 31 ->
  Q (Some (take (Z.to_nat (Z.min n objSize)) (drop (Z.to_nat off) (e_value e))), None) w ->
  wp (CGet key objSize false off n) Q w.
Proof.
  intros He Hsz Ho Hn Hb Hpos HQ. unfold CGet. apply wp_bind.
  assert ((if (n =? -1) || (objSize <? n) then objSize else n) = Z.min n objSize) as ->.
  { destruct (Z.eqb_spec n (-1)); [lia|]. destruct (Z.ltb_spec objSize n); simpl; lia. }
  destruct ((off =? 0) && (Z.min n objSize =? objSize)) eqn:E.
  - zbool. apply wp_drive_read, wp_ret. rewrite (Get_present _ _ e He).
    + simpl. subst off. change (Z.to_nat 0) with 0%nat in HQ. rewrite drop_0, take_ge in HQ by lia. done.
    + intros E. rewrite E in Hsz. simpl in Hsz. lia.
  - apply wp_drive_read, wp_ret. rewrite !(wrap_s_id 32) by lia.
    rewrite (PartialGet_present _ _ e) by (done || lia). done.
Qed.

(** Reading a value of unknown size. *)
Lemma wp_CGet_all key (Q : option bytes * option error -> World -> Prop) w :
  (∀ e, view (w_drive w) !! CString key = Some e -> e_value e <> []) ->
  (∀ e, view (w_drive w) !! CString key = Some e -> Q (Some (e_value e), None) w) ->
  (∀ v, view (w_drive w) !! CString key = None -> Q (v, Some errKineticNotFound) w) ->
  wp (CGet key (-1) false 0 (-1)) Q w.
Proof.
  intros Hne HS HF. unfold CGet. apply wp_bind. cbn. apply wp_drive_read, wp_ret.
  destruct (view (w_drive w) !! CString key) as [e|] eqn:E.
  - rewrite (Get_present _ _ e E) by auto. by apply HS.
  - assert (negb (c_status (C_Get (w_drive w) (CString key)) =? 0)
            || bool_decide (c_value (C_Get (w_drive w) (CString key)) = None) = true) as ->;
      [|by apply HF].
    destruct (Get_missing _ _ E) as [Hs|Hv].
    + apply Z.eqb_neq in Hs. by rewrite Hs.
    + rewrite Hv. by rewrite orb_true_r.
Qed.

End client.

#[global] Arguments CString : simpl never.

Ltac wp_client_step :=
  lazymatch goal with
  | |- wp (CGetMeta _) _ _ => apply wp_CGetMeta; let E := fresh "Emeta" in intros ? E; wsimpl in E
  | |- wp (DoesObjExist _) _ _ => apply wp_DoesObjExist
  | |- wp (Delete _) _ _ => apply wp_Delete; let E := fresh "Edel" in intros ? ? E; wsimpl in E
  | |- wp Flush _ _ => apply wp_Flush; let E := fresh "Eflush" in intros ? ? E; wsimpl in E
  | _ => wp_base_step
  end.

(** Steps until a case analysis or a side condition needs attention. *)
Ltac wp_steps := repeat (wp_client_step; wsimpl).
