(* ===== verification/HttpRange.v ===== *)
(** * cmd/httprange.go: HTTP range requests

    The parsed form of a [Range] header, its parser, and the offset and length
    it selects in a resource of a given size. *)
From S2P Require Import Prelude GoLib Errors.

Record HTTPRangeSpec := mkRange { IsSuffixLength : bool; Start : Z; End_ : Z }.

(** [GetLength]; a nil specification is [None]. *)
Definition GetLength (h : option HTTPRangeSpec) (resourceSize : Z) : Z * option error :=
  if resourceSize <? 0 then (0, Some (errText (str "Resource size cannot be negative")))
  else match h with
  | None => (resourceSize, None)
  | Some h =>
      if IsSuffixLength h then
        let specifiedLen := wrap_s 64 (- Start h) in
        (if resourceSize <? specifiedLen then resourceSize else specifiedLen, None)
      else if resourceSize <=? Start h then (0, Some errInvalidRange)
      else if -1 <? End_ h then
        let end_ := if resourceSize <=? End_ h then resourceSize - 1 else End_ h in
        (end_ - Start h + 1, None)
      else if End_ h =? -1 then (resourceSize - Start h, None)
      else (0, Some (errText (str "Unexpected range specification case")))
  end.

Definition GetOffsetLength (h : option HTTPRangeSpec) (resourceSize : Z) : Z * Z * option error :=
  match h with
  | None => (0, resourceSize, None)
  | Some s =>
      match GetLength h resourceSize with
      | (_, Some e) => (0, 0, Some e)
      | (length, None) =>
          let start := if IsSuffixLength s
                       then Z.max 0 (wrap_s 64 (resourceSize + Start s)) else Start s in
          (start, length, None)
      end
  end.

Definition byteRangePrefix : bytes := str "bytes=".

(** One bound of a range: empty is -1 (absent); a leading plus sign, a number
    that does not parse and a negative number are errors. *)
Definition parse_bound (s : bytes) : Z * option error :=
  match s with
  | [] => (-1, None)
  | c :: _ =>
      if decide (c = "+"%char) then (0, Some (errText (str "must not have a sign")))
      else
        let '(v, bad) := ParseInt s in
        if (bad : bool) then (0, Some (errText (str "not a valid byte position")))
        else if v <? 0 then (0, Some (errText (str "byte position is negative")))
        else (v, None)
  end.

Definition parseRequestRangeSpec (rangeString : bytes) : option HTTPRangeSpec * option error :=
  if negb (HasPrefix rangeString byteRangePrefix)
  then (None, Some (errText (str "does not start with bytes=")))
  else
    let s := TrimPrefix rangeString byteRangePrefix in
    match Index s "-"%char with
    | None => (None, Some (errText (str "does not have a valid range value")))
    | Some sepIndex =>
        match parse_bound (take sepIndex s) with
        | (_, Some e) => (None, Some e)
        | (offsetBegin, None) =>
            match parse_bound (drop (S sepIndex) s) with
            | (_, Some e) => (None, Some e)
            | (offsetEnd, None) =>
                if (-1 <? offsetBegin) && (-1 <? offsetEnd) then
                  if offsetEnd <? offsetBegin then (None, Some errInvalidRange)
                  else (Some (mkRange false offsetBegin offsetEnd), None)
                else if -1 <? offsetBegin then (Some (mkRange false offsetBegin (-1)), None)
                else if -1 <? offsetEnd then
                  if offsetEnd =? 0 then (None, Some errInvalidRange)
                  else (Some (mkRange true (- offsetEnd) (-1)), None)
                else (None, Some (errText (str "does not have valid range value")))
            end
        end
    end.

(** [String]: the range as written in a Content-Range header. *)
Definition range_String (h : option HTTPRangeSpec) (resourceSize : Z) : bytes :=
  match h with
  | None => []
  | Some _ =>
      match GetOffsetLength h resourceSize with
      | (_, _, Some _) => []
      | (off, length, None) => FormatInt off ++ str "-" ++ FormatInt (off + length - 1)
      end
  end.

(** ** Properties *)

(** What the parser guarantees of a specification. *)
Definition range_wf (h : HTTPRangeSpec) : Prop :=
  if IsSuffixLength h then - int64_max <= Start h < 0 /\ End_ h = -1
  else 0 <= Start h <= int64_max /\ (End_ h = -1 \/ Start h <= End_ h <= int64_max).

Lemma parse_bound_ok s v : parse_bound s = (v, None) -> -1 <= v <= int64_max.
Proof.
  unfold parse_bound. destruct s as [|c s]; [intros [= <-]; unfold int64_max; lia|].
  case_decide; [done|]. destruct (ParseInt (c :: s)) as [x bad] eqn:E.
  destruct bad; [done|]. destruct (Z.ltb_spec x 0); [done|]. intros [= <-]. split; [lia|].
  unfold ParseInt, clamp64 in E. repeat (case_match; simplify_eq; zbool); lia.
Qed.

Lemma parse_wf s h : parseRequestRangeSpec s = (Some h, None) -> range_wf h.
Proof.
  unfold parseRequestRangeSpec. intros E.
  destruct (negb _); [done|]. destruct (Index _ _); [|done].
  destruct (parse_bound (take _ _)) as [b [|]] eqn:E1; [done|].
  destruct (parse_bound (drop _ _)) as [e [|]] eqn:E2; [done|].
  apply parse_bound_ok in E1, E2. unfold range_wf.
  repeat (case_match; simplify_eq/=; zbool; simplify_eq/=); lia.
Qed.

(** A range read of a resource stays within the resource. *)
Lemma GetOffsetLength_bounds h size off len :
  (∀ s, h = Some s -> range_wf s) -> 0 <= size <= int64_max ->
  GetOffsetLength h size = (off, len, None) ->
  0 <= off /\ 0 <= len /\ off + len <= size.
Proof.
  intros Hwf Hs. unfold GetOffsetLength, GetLength.
  destruct h as [h|]; [|intros [= <- <-]; lia].
  specialize (Hwf h eq_refl). unfold range_wf in Hwf.
  unfold int64_max in *.
  destruct (Z.ltb_spec size 0); [done|].
  destruct (IsSuffixLength h).
  - destruct Hwf as [H1 H2]. rewrite !wrap_s_id by lia.
    case_match; zbool; intros [= <- <-]; lia.
  - destruct Hwf as [H1 H2].
    repeat (case_match; simplify_eq; zbool); intros; simplify_eq; lia.
Qed.

Lemma Index_no c s : c ∉ s -> ∀ t, Index (s ++ c :: t) c = Some (length s).
Proof.
  induction s as [|d s IH]; intros Hn t; simpl; [by rewrite decide_True|].
  apply not_elem_of_cons in Hn as [H1 H2]. rewrite decide_False by done. by rewrite IH.
Qed.

Lemma FormatUint_no_minus n : "-"%char ∉ FormatUint n.
Proof.
  apply digits_no_char; [apply FormatUint_digits|].
  unfold is_digit. vm_compute. intros [? ?]; done.
Qed.

Lemma parse_bound_FormatInt z : 0 <= z <= int64_max -> parse_bound (FormatInt z) = (z, None).
Proof.
  intros Hz. assert (ParseInt (FormatInt z) = (z, false)) as E.
  { apply ParseInt_FormatInt. unfold in_int64, int64_min, int64_max in *. lia. }
  unfold parse_bound. destruct (FormatInt z) as [|c s] eqn:Ef.
  - unfold ParseInt in E. simplify_eq.
  - unfold FormatInt in Ef. destruct (Z.ltb_spec z 0); [lia|].
    pose proof (digit_head _ (FormatUint_digits (Z.to_N z))) as [_ Hd]. rewrite Ef in Hd.
    rewrite decide_False by (intros ->; done). rewrite E.
    destruct (Z.ltb_spec z 0); [lia|done].
Qed.

(** A parsed Range header selects bytes of the resource: for every resource
    size the offset and the length are not negative and their sum does not
    exceed the size, so the server never reads outside the object, and an
    additive overflow cannot occur. *)
Theorem parsed_range_in_bounds header h size off len :
  parseRequestRangeSpec header = (Some h, None) -> 0 <= size <= int64_max ->
  GetOffsetLength (Some h) size = (off, len, None) ->
  0 <= off /\ 0 <= len /\ off + len <= size.
Proof.
  intros Hp Hs Hg. eapply GetOffsetLength_bounds; [|done|done]. intros ? [= <-]. by eapply parse_wf.
Qed.

Lemma parsed_range_in_bounds_witness :
  exists h off len, parseRequestRangeSpec (str "bytes=2-99") = (Some h, None) /\
    GetOffsetLength (Some h) 10 = (off, len, None) /\ (0 <= off /\ 0 <= len /\ off + len <= 10) /\
    off = 2 /\ len = 8.
Proof.
  exists (mkRange false 2 99), 2, 8. split; [reflexivity|]. split; [reflexivity|]. split; [|done].
  apply (parsed_range_in_bounds (str "bytes=2-99") (mkRange false 2 99) 10 2 8);
    [reflexivity|unfold int64_max; lia|reflexivity].
Defined.

(** The three forms of a Range header. *)
Definition print_range (h : HTTPRangeSpec) : bytes :=
  byteRangePrefix ++
  if IsSuffixLength h then str "-" ++ FormatInt (- Start h)
  else FormatInt (Start h) ++ str "-" ++ (if End_ h =? -1 then [] else FormatInt (End_ h)).

Lemma parse_split p q :
  "-"%char ∉ p ->
  let s := byteRangePrefix ++ p ++ str "-" ++ q in
  HasPrefix s byteRangePrefix = true /\
  Index (TrimPrefix s byteRangePrefix) "-"%char = Some (length p) /\
  take (length p) (TrimPrefix s byteRangePrefix) = p /\
  drop (S (length p)) (TrimPrefix s byteRangePrefix) = q.
Proof.
  intros Hp s. unfold s, TrimPrefix. rewrite HasPrefix_app. rewrite drop_app_length.
  split_and!; [done|by apply Index_no|apply take_app_length|].
  change (p ++ str "-" ++ q) with (p ++ "-"%char :: q). induction p as [|c p IH]; [done|].
  simpl. apply IH. by intros ?; apply Hp; right.
Qed.

(** Parsing what is printed gives the range back: the closed form
    "bytes=a-b", the open form "bytes=a-" and the suffix form "bytes=-n", for
    every range the parser can produce. *)
Theorem parse_print_range h :
  range_wf h -> parseRequestRangeSpec (print_range h) = (Some h, None).
Proof.
  unfold range_wf, print_range, parseRequestRangeSpec. destruct h as [[] st en]; cbn [IsSuffixLength Start End_].
  - intros [Hs ->]. pose proof (parse_split [] (FormatInt (- st)) ltac:(set_solver)) as Hp.
    cbn zeta in Hp. rewrite app_nil_l in Hp. destruct Hp as (-> & -> & -> & ->).
    cbn [negb]. rewrite parse_bound_FormatInt by (unfold int64_max in *; lia). cbn [parse_bound].
    destruct (Z.ltb_spec (-1) (- st)); [|lia]. destruct (Z.eqb_spec (- st) 0); [lia|]. simpl.
    by rewrite Z.opp_involutive.
  - intros [Hs He].
    assert ("-"%char ∉ FormatInt st) as Hn.
    { unfold FormatInt. destruct (Z.ltb_spec st 0); [lia|]. apply FormatUint_no_minus. }
    destruct (parse_split (FormatInt st) (if en =? -1 then [] else FormatInt en) Hn) as (-> & -> & -> & ->).
    cbn [negb]. rewrite parse_bound_FormatInt by lia. destruct (Z.eqb_spec en (-1)) as [->|Hne].
    + cbn [parse_bound]. destruct (Z.ltb_spec (-1) st); [done|lia].
    + destruct He as [He|He]; [done|]. rewrite parse_bound_FormatInt by lia.
      destruct (Z.ltb_spec (-1) st); [|lia]. destruct (Z.ltb_spec (-1) en); [|lia]. simpl.
      destruct (Z.ltb_spec en st); [lia|done].
Qed.

Lemma parse_print_range_witness :
  parseRequestRangeSpec (print_range (mkRange true (-5) (-1))) = (Some (mkRange true (-5) (-1)), None) /\
  print_range (mkRange true (-5) (-1)) = str "bytes=-5".
Proof.
  split; [|reflexivity]. apply (parse_print_range (mkRange true (-5) (-1))).
  unfold range_wf, int64_max; simpl; lia.
Defined.
