(* ===== verification/Names.v ===== *)
(** * Bucket and object names: cmd/object-api-utils.go, cmd/generic-handlers.go

    The validity tests on names that guard the object layer, and a declarative
    specification of the bucket naming rules that [IsValidBucketName] is shown
    to decide. *)
From S2P Require Import Prelude GoLib Errors.

Definition SlashSeparator : bytes := str "/".
Definition minioMetaBucket : bytes := str ".minio.sys".
Definition minioMetaBackgroundOpsBucket : bytes := minioMetaBucket ++ SlashSeparator ++ str "background-ops".
Definition minioMetaMultipartBucket : bytes := minioMetaBucket ++ SlashSeparator ++ str "multipart".
Definition minioMetaTmpBucket : bytes := minioMetaBucket ++ str "/tmp".

Definition isMinioMetaBucketName (bucket : bytes) : bool :=
  bool_decide (bucket = minioMetaBucket) || bool_decide (bucket = minioMetaMultipartBucket)
  || bool_decide (bucket = minioMetaTmpBucket) || bool_decide (bucket = minioMetaBackgroundOpsBucket).

Definition is_lower (c : ascii) : bool := utf8.inr c 97 122.
Definition is_num (c : ascii) : bool := utf8.inr c 48 57.

(** The loop over the characters of one piece: [None] for an invalid
    character, else whether the piece has a character that is not a digit. *)
Fixpoint piece_chars (piece : bytes) (isNotNumber : bool) : option bool :=
  match piece with
  | [] => Some isNotNumber
  | c :: rest =>
      if is_lower c || bool_decide (c = "-"%char) then piece_chars rest true
      else if is_num c then piece_chars rest isNotNumber
      else None
  end.

(** The loop over the pieces: [None] for [return false], else [allNumbers]. *)
Fixpoint pieces_ok (pieces : list bytes) (allNumbers : bool) : option bool :=
  match pieces with
  | [] => Some allNumbers
  | piece :: rest =>
      if bool_decide (piece = []) || bool_decide (head piece = Some "-"%char)
         || bool_decide (last piece = Some "-"%char) then None
      else match piece_chars piece false with
           | None => None
           | Some isNotNumber => pieces_ok rest (allNumbers && negb isNotNumber)
           end
  end.

Definition IsValidBucketName (bucket : bytes) : bool :=
  if isMinioMetaBucketName bucket then true
  else if ((length bucket <? 3) || (63 <? length bucket))%nat then false
  else
    let pieces := Split bucket "."%char in
    match pieces_ok pieces true with
    | None => false
    | Some allNumbers => negb ((length pieces =? 4)%nat && allNumbers)
    end.

(** [hasBadPathComponent]: some component is "." or ".." once trimmed. *)
Definition hasBadPathComponent (p : bytes) : bool :=
  let p := utf8.TrimSpace p in
  existsb (λ c, let t := utf8.TrimSpace c in
                bool_decide (t = str "..") || bool_decide (t = str "."))
    (Split p "/"%char).

Definition IsValidObjectPrefix (object : bytes) : bool :=
  if hasBadPathComponent object then false
  else if negb (utf8.ValidString object) then false
  else if Contains object (str "//") then false
  else true.

Definition IsValidObjectName (object : bytes) : bool :=
  if bool_decide (object = []) then false
  else if HasSuffix object SlashSeparator then false
  else IsValidObjectPrefix object.

Definition checkObjectNameForLengthAndSlash (bucket object : bytes) : option error :=
  if (1024 <? length object)%nat then Some (ObjectNameTooLong bucket object)
  else if HasPrefix object SlashSeparator then Some (ObjectNamePrefixAsSlash bucket object)
  else None.

Definition retainSlash (s : bytes) : bytes := TrimSuffix s SlashSeparator ++ SlashSeparator.

(** ** The bucket naming rules *)
Definition label_char (c : ascii) : Prop := is_lower c = true \/ c = "-"%char \/ is_num c = true.

Definition valid_label (l : bytes) : Prop :=
  l <> [] /\ head l <> Some "-"%char /\ last l <> Some "-"%char /\ Forall label_char l.

Definition numeric_label (l : bytes) : Prop := Forall (λ c, is_num c = true) l.

(** Three to 63 characters, dot-separated labels of lowercase letters, digits
    and inner hyphens, and not four numeric labels (an IP address). *)
Definition valid_bucket_name (b : bytes) : Prop :=
  (3 <= length b <= 63)%nat /\ Forall valid_label (Split b "."%char) /\
  ~ (length (Split b "."%char) = 4%nat /\ Forall numeric_label (Split b "."%char)).

Lemma is_num_not_lower c : is_num c = true -> is_lower c || bool_decide (c = "-"%char) = false.
Proof.
  unfold is_num, is_lower, utf8.inr. intros Hc. apply andb_true_iff in Hc as [H1 H2].
  apply N.leb_le in H1, H2. apply orb_false_iff. split.
  - apply andb_false_iff. left. apply N.leb_gt. lia.
  - apply bool_decide_eq_false. intros ->. vm_compute in H1. done.
Qed.

Lemma piece_chars_spec p b :
  match piece_chars p b with
  | None => ~ Forall label_char p
  | Some r => Forall label_char p /\ (r = false <-> b = false /\ numeric_label p)
  end.
Proof.
  revert b. induction p as [|c p IH]; intros b; simpl.
  - split; [done|]. split; [intros ->; split; [done|constructor]|by intros [-> _]].
  - destruct (is_lower c || bool_decide (c = "-"%char)) eqn:E1.
    + specialize (IH true). assert (label_char c) as Hc.
      { apply orb_true_iff in E1 as [?|E1%bool_decide_eq_true]; [by left|by right; left]. }
      destruct (piece_chars p true) as [r|].
      * destruct IH as [H1 H2]. split; [by constructor|]. split.
        -- intros ->. destruct (proj1 H2 eq_refl). done.
        -- intros [_ Hn]. inversion_clear Hn as [|? ? Hn1 Hn2].
           apply is_num_not_lower in Hn1. congruence.
      * intros Hn. inversion_clear Hn. done.
    + destruct (is_num c) eqn:E2.
      * specialize (IH b). destruct (piece_chars p b) as [r|].
        -- destruct IH as [H1 H2]. split; [constructor; [by right; right|done]|].
           rewrite H2. unfold numeric_label. rewrite Forall_cons. naive_solver.
        -- intros Hn. inversion_clear Hn. done.
      * intros Hn. inversion_clear Hn as [|? ? Hc]. destruct Hc as [Hc|[Hc|Hc]]; try congruence.
        -- rewrite Hc in E1. done.
        -- subst c. apply orb_false_iff in E1 as [_ E1]. by apply bool_decide_eq_false in E1.
Qed.

Lemma pieces_ok_spec ps b :
  match pieces_ok ps b with
  | None => ~ Forall valid_label ps
  | Some r => Forall valid_label ps /\ (r = true <-> b = true /\ Forall numeric_label ps)
  end.
Proof.
  revert b. induction ps as [|p ps IH]; intros b; simpl.
  - split; [done|]. split; [intros ->; split; [done|constructor]|by intros [-> _]].
  - destruct (_ || _) eqn:E1.
    + intros Hv. inversion_clear Hv as [|? ? [H1 [H2 [H3 _]]]].
      repeat (apply orb_true_iff in E1 as [E1|E1]); by apply bool_decide_eq_true in E1.
    + apply orb_false_iff in E1 as [[E1 E2]%orb_false_iff E3].
      apply bool_decide_eq_false in E1, E2, E3.
      pose proof (piece_chars_spec p false) as Hp.
      destruct (piece_chars p false) as [r|].
      * destruct Hp as [Hl Hr]. specialize (IH (b && negb r)).
        destruct (pieces_ok ps _) as [q|].
        -- destruct IH as [H1 H2]. split; [constructor; [by split_and!|done]|].
           rewrite H2, Forall_cons, andb_true_iff, negb_true_iff. naive_solver.
        -- intros Hv. inversion_clear Hv. done.
      * intros Hv. inversion_clear Hv as [|? ? [_ [_ [_ Hc]]]]. done.
Qed.

Lemma IsValidBucketName_reflect b :
  IsValidBucketName b = true <-> isMinioMetaBucketName b = true \/ valid_bucket_name b.
Proof.
  unfold IsValidBucketName, valid_bucket_name.
  destruct (isMinioMetaBucketName b); [by split; auto|].
  assert (∀ P : Prop, P <-> false = true \/ P) as Hf by naive_solver.
  rewrite <- Hf. clear Hf.
  destruct (Nat.ltb_spec (length b) 3); simpl; [split; [done|intros (?&_); lia]|].
  destruct (Nat.ltb_spec 63 (length b)); simpl; [split; [done|intros (?&_); lia]|].
  pose proof (pieces_ok_spec (Split b "."%char) true) as Hp.
  destruct (pieces_ok _ true) as [r|]; [|split; [done|intros (_ & ? & _); done]].
  destruct Hp as [H1 H2]. rewrite negb_true_iff, andb_false_iff. split.
  - intros Hn. split_and!; [lia|lia|done|]. intros [H4 H5].
    destruct Hn as [Hn|Hn]; [by apply Nat.eqb_neq in Hn|].
    assert (r = true) by (apply H2; done). congruence.
  - intros (_ & _ & Hn). destruct (Nat.eqb_spec (length (Split b "."%char)) 4); [|by left].
    right. destruct r; [|done]. exfalso. apply Hn. split; [done|]. by apply H2.
Qed.

(** [IsValidBucketName] decides the bucket naming rules: it accepts exactly
    the four reserved names of the server and the names of three to 63 characters
    made of dot-separated labels of lowercase letters, digits and inner hyphens
    that do not look like an IP address. *)
Theorem bucket_name_decides b :
  IsValidBucketName b = true <-> isMinioMetaBucketName b = true \/ valid_bucket_name b.
Proof. apply IsValidBucketName_reflect. Qed.
