(* ===== verification/Buckets.v ===== *)
(** * Buckets: cmd/kinetic.go and cmd/object-api-input-checks.go

    A bucket is one key, "bucket." followed by its name, whose metadata is the
    gob encoding of a [BucketInfo].  This file has the bucket operations of the
    Kinetic object layer except the deletion, which lists and deletes objects
    (see Listing.v), and the argument checks that consult
    [GetBucketInfo]. *)
From S2P Require Import Prelude GoLib IncStr Errors Metadata NsLock Pool Drive World Client Names.

Definition bucket_key (bucket : bytes) : bytes := str "bucket." ++ bucket.

#[global] Arguments bucket_key : simpl never.

Section buckets.
Context `{KineticDrive} `{LRWMutex} `{MetaCodec} `{OSEnv}.

(** ** Start of the object layer *)

(** One of the three blocks of [initKineticMeta]. *)
Definition create_meta_bucket (bucketKey : bytes) : M (option error) :=
  exist ← DoesObjExist bucketKey;
  if (exist : bool) then mret None
  else
    now ← time_Now;
    '(_, err) ← CPut bucketKey (gob_Encode (mkBucketInfo bucketKey now)) [] 0;
    mret err.

Definition initKineticMeta : M (option error) :=
  err ← create_meta_bucket (bucket_key minioMetaBucket);
  match err with
  | Some e => mret (Some e)
  | None =>
      err ← create_meta_bucket (bucket_key minioMetaTmpBucket);
      match err with
      | Some e => mret (Some e)
      | None => create_meta_bucket (bucket_key minioMetaMultipartBucket)
      end
  end.

(** The process state [NewKineticObjectLayer] sets up over a drive [d]. *)
Definition init_world (d : drive) : World := mkWorld d init_pool false 0 ∅ 0.

(** The modelled mode is the one in which the store is a library of the process
    (an address that starts with "skinny"); a shorter address panics in [IP[:6]].
    The error of [initKineticMeta] is dropped. *)
Definition NewKineticObjectLayer (IP : bytes) : M (option error) :=
  if decide (length IP < 6)%nat then panic
  else if negb (bool_decide (take 6 IP = str "skinny")) then unmodelled
  else λ w, (_ ← initKineticMeta; mret None)
              (mkWorld (w_drive w) init_pool (w_mutex w) 0 ∅ (w_tick w)).

Definition Shutdown : M (option error) :=
  _ ← kineticMutex_Lock;
  kc ← GetKineticConnection;
  _ ← Flush;
  _ ← releaseConnection kc;
  _ ← kineticMutex_Unlock;
  mret None.

(** ** Reading and creating buckets *)
Definition getBucketDir (bucket : bytes) : bytes * option error :=
  if decide (bucket = [] \/ bucket = str "." \/ bucket = str "..")
  then ([], Some errVolumeNotFound)
  else (bucket ++ str ".bucket", None).

Definition statBucketDir (bucket : bytes) : M (KVInfo * option error) :=
  let key := bucket_key bucket in
  _ ← kineticMutex_Lock;
  kc ← GetKineticConnection;
  '(cvalue, err) ← CGetMeta key;
  _ ← releaseConnection kc;
  match err with
  | Some _ =>
      _ ← kineticMutex_Unlock;
      mret (zeroKVInfo, Some errFileNotFound)
  | None =>
      bi ← match cvalue with
           | Some v => value ← cslice (2 ^ 16) v; mret (gob_Decode value zeroBucketInfo)
           | None => mret zeroBucketInfo
           end;
      _ ← kineticMutex_Unlock;
      mret (mkKVInfo (bi_Name bi) 0 (bi_Created bi) false, None)
  end.

Definition MakeBucketWithLocation (bucket location : bytes) : M (option error) :=
  with_lock false (NewNSLock bucket [[]]) Some (
  if bool_decide (s3_CheckValidBucketNameStrict bucket <> None)
  then mret (Some (BucketNameInvalid bucket))
  else counted (
    let key := bucket_key bucket in
    _ ← kineticMutex_Lock;
    kc ← GetKineticConnection;
    '(cvalue, err) ← CGetMeta key;
    _ ← releaseConnection kc;
    match err with
    | None =>
        _ ← kineticMutex_Unlock;
        mret (toObjectErr (Some errVolumeExists) [bucket])
    | Some _ =>
        now ← time_Now;
        let bucketInfo := mkBucketInfo key now in
        kc ← GetKineticConnection;
        _ ← CPut key (gob_Encode bucketInfo) [] 0;
        _ ← releaseConnection kc;
        _ ← kineticMutex_Unlock;
        mret None
    end)).

Definition set_Key (k : bytes) (c : Client) : Client :=
  mkClient (c_Idx c) (c_ConnectionID c) (c_Sequence c) (c_Identity c) (c_HmacKey c) k
    (c_NextPartNumber c) (c_LastPartNumber c) (c_DataOffset c).

Definition GetBucketInfo (bucket : bytes) : M (BucketInfo * option error) :=
  with_lock true (NewNSLock bucket [[]]) (λ e, (zeroBucketInfo, Some e)) (counted (
  let key := bucket_key bucket in
  _ ← kineticMutex_Lock;
  kc ← GetKineticConnection;
  _ ← client_set kc (set_Key key);
  '(cvalue, err) ← CGetMeta key;
  _ ← releaseConnection kc;
  match err with
  | Some _ =>
      _ ← kineticMutex_Unlock;
      mret (zeroBucketInfo, toObjectErr (Some errVolumeNotFound) [bucket])
  | None =>
      bi ← match cvalue with
           | Some v => value ← cslice (2 ^ 16) v; mret (gob_Decode value zeroBucketInfo)
           | None => mret zeroBucketInfo
           end;
      _ ← kineticMutex_Unlock;
      mret (bi, None)
  end)).

(** ** ListBuckets *)

(** [string(name[7:])], which panics on a name of fewer than seven bytes. *)
Definition slice_from (n : nat) (s : bytes) : M bytes :=
  if decide (n <= length s)%nat then mret (drop n s) else panic.

(** The loop over the keys of one page; the keys are nonempty, so their backing
    arrays hold at least eight bytes and [key[:8]] does not panic. *)
Fixpoint list_buckets_page (keys : list bytes) (bucketInfos : list BucketInfo)
  : M (list BucketInfo * option error) :=
  match keys with
  | [] => mret (bucketInfos, None)
  | key :: keys' =>
      if bool_decide (take 7 key = str "bucket.") && negb (bool_decide (take 8 key = str "bucket.."))
      then
        '(cvalue, err) ← CGetMeta key;
        match err, cvalue with
        | Some e, _ => mret ([], Some e)
        | None, Some v =>
            value ← cslice (2 ^ 30) v;
            let bucketInfo := gob_Decode value zeroBucketInfo in
            name ← slice_from 7 (bi_Name bucketInfo);
            list_buckets_page keys' (bucketInfos ++ [mkBucketInfo name (bi_Created bucketInfo)])
        | None, None => list_buckets_page keys' bucketInfos
        end
      else list_buckets_page keys' bucketInfos
  end.

(** The loop over pages of 800 keys.  The code never assigns [lastKey], so every
    page after the first is asked for with two empty keys. *)
Fixpoint list_buckets_loop (fuel : nat) (startKey endKey : bytes) (bucketInfos : list BucketInfo)
  : M (list BucketInfo * option error) :=
  match fuel with
  | O => out_of_fuel
  | S fuel' =>
      _ ← kineticMutex_Lock;
      kc ← GetKineticConnection;
      keys ← CGetKeyRange startKey endKey true true 800;
      _ ← releaseConnection kc;
      _ ← kineticMutex_Unlock;
      '(bucketInfos, err) ← list_buckets_page keys bucketInfos;
      match err with
      | Some e => mret ([], Some e)
      | None => if (length keys <? 800)%nat then mret (bucketInfos, None)
                else list_buckets_loop fuel' [] [] bucketInfos
      end
  end.

Definition ListBuckets (fuel : nat) : M (list BucketInfo * option error) :=
  counted (list_buckets_loop fuel (str "bucket.") (str "bucket/") []).

(** ** object-api-input-checks.go *)
Definition checkBucketExist (bucket : bytes) : M (option error) :=
  '(_, err) ← GetBucketInfo bucket; mret err.

Definition checkBucketAndObjectNames (bucket object : bytes) : option error :=
  if negb (isMinioMetaBucketName bucket) && bool_decide (s3_CheckValidBucketName bucket <> None)
  then Some (BucketNameInvalid bucket)
  else if bool_decide (object = []) then Some (ObjectNameInvalid bucket object)
  else if negb (IsValidObjectPrefix object) then Some (ObjectNameInvalid bucket object)
  else None.

Definition checkGetObjArgs (bucket object : bytes) : option error :=
  checkBucketAndObjectNames bucket object.

Definition checkDelObjArgs (bucket object : bytes) : option error :=
  checkBucketAndObjectNames bucket object.

Definition checkListObjsArgs (bucket prefix marker : bytes) : M (option error) :=
  err ← checkBucketExist bucket;
  match err with
  | Some e => mret (Some e)
  | None =>
      mret (if negb (IsValidObjectPrefix prefix) then Some (ObjectNameInvalid bucket prefix)
            else if bool_decide (marker <> []) && negb (HasPrefix marker prefix)
            then Some (InvalidMarkerPrefixCombination marker prefix)
            else None)
  end.

(** The tests of [checkObjectArgs] on the names. *)
Definition object_name_error (bucket object : bytes) : option error :=
  match checkObjectNameForLengthAndSlash bucket object with
  | Some e => Some e
  | None => if negb (IsValidObjectName object)
            then Some (ObjectNameInvalid bucket object) else None
  end.

Definition checkObjectArgs (bucket object : bytes) : M (option error) :=
  err ← checkBucketExist bucket;
  match err with
  | Some e => mret (Some e)
  | None => mret (object_name_error bucket object)
  end.

(** The checks of the multipart operations are [checkObjectArgs]. *)
Definition checkNewMultipartArgs (bucket object : bytes) := checkObjectArgs bucket object.
Definition checkPutObjectPartArgs (bucket object : bytes) := checkObjectArgs bucket object.
Definition checkListPartsArgs (bucket object : bytes) := checkObjectArgs bucket object.
Definition checkCompleteMultipartArgs (bucket object : bytes) := checkObjectArgs bucket object.
Definition checkAbortMultipartArgs (bucket object : bytes) := checkObjectArgs bucket object.

(** The tests of [checkPutObjectArgs] on the names. *)
Definition put_name_error (bucket object : bytes) (size : Z) : option error :=
  match checkObjectNameForLengthAndSlash bucket object with
  | Some e => Some e
  | None =>
      if bool_decide (object = []) || (HasSuffix object SlashSeparator && negb (size =? 0))
         || negb (IsValidObjectPrefix object)
      then Some (ObjectNameInvalid bucket object) else None
  end.

Definition checkPutObjectArgs (bucket object : bytes) (size : Z) : M (option error) :=
  err ← checkBucketExist bucket;
  match err with
  | Some e => mret (Some e)
  | None => mret (put_name_error bucket object size)
  end.

(** ** Specifications of the operations over the view of the store *)
Context `{!KineticDriveSpec _} `{!LRWMutexLaws _}.

(** Metadata is cut from a buffer of 64 KiB. *)
Definition small_meta (m : gmap bytes entry) : Prop :=
  ∀ k e, m !! k = Some e -> Z.of_nat (length (e_meta e)) <= 2 ^ 16.

(** The bucket record stored under a bucket's key. *)
Definition bucket_record (m : gmap bytes entry) (bucket : bytes) : option BucketInfo :=
  (λ e, gob_Decode (e_meta e) zeroBucketInfo) <$> m !! CString (bucket_key bucket).

Lemma runs_statBucketDir b w :
  ready w -> small_meta (view (w_drive w)) ->
  runs (statBucketDir b) (λ r d t, d = w_drive w /\ t = w_tick w /\
    r = match bucket_record (view (w_drive w)) b with
        | Some bi => (mkKVInfo (bi_Name bi) 0 (bi_Created bi) false, None)
        | None => (zeroKVInfo, Some errFileNotFound)
        end) w.
Proof.
  intros Hw Hm. unfold statBucketDir, bucket_record. wp_steps; rewrite Emeta.
  - apply wp_cslice; [by eapply Hm|]. wp_steps. split; [same_now|done].
  - split; [same_now|done].
Qed.

Lemma runs_GetBucketInfo b w :
  ready w -> small_meta (view (w_drive w)) ->
  runs (GetBucketInfo b) (or_timeout w b [] true (λ e, (zeroBucketInfo, Some e)) (λ r d t,
    d = w_drive w /\ t = w_tick w /\
    r = match bucket_record (view (w_drive w)) b with
        | Some bi => (bi, None)
        | None => (zeroBucketInfo, Some (BucketNotFound b))
        end)) w.
Proof.
  intros Hw Hm. unfold GetBucketInfo. apply runs_locked; [done|]. intros w1 Hw1 Ed1 Et1 _ _.
  apply runs_counted; [done|]. intros w2 Hw2 Ed Et _ _. rewrite Ed1 in Ed. rewrite Et1 in Et. rewrite <- Ed in Hm |- *. rewrite <- Et.
  unfold bucket_record.
  wp_steps; rewrite Emeta.
  - apply wp_cslice; [by eapply Hm|]. wp_steps. split; [same_now|done].
  - split; [same_now|done].
Qed.

(** A bucket can be used by a request: its record is there and no writer holds
    its lock. *)
Definition bucket_ok (w : World) (b : bytes) : Prop :=
  lockable w b [] true /\ is_Some (bucket_record (view (w_drive w)) b).

Lemma runs_checkBucketExist b w :
  ready w -> small_meta (view (w_drive w)) ->
  runs (checkBucketExist b) (λ r d t, d = w_drive w /\ t = w_tick w /\ (r = None <-> bucket_ok w b)) w.
Proof.
  intros Hw Hm. unfold checkBucketExist. eapply runs_bind; [done|by apply runs_GetBucketInfo|].
  intros [bi err] w' Hw' Hs [Hl Hn]. apply runs_ret; [done|]. unfold bucket_ok.
  destruct (decide (lockable w b [] true)) as [Hk|Hk].
  - destruct (Hl Hk) as (Hd & Ht & E). split; [done|]. split; [done|].
    destruct (bucket_record _ _); simplify_eq; [by eauto|].
    split; [done|intros [_ [? ?]]; done].
  - destruct (Hn Hk) as (E & Hd & Ht). split; [done|]. split; [done|]. simplify_eq. split; [done|intros [? _]; done].
Qed.

Lemma runs_check_then b (e0 : option error) w :
  ready w -> small_meta (view (w_drive w)) ->
  runs (err ← checkBucketExist b; match err with Some e => mret (Some e) | None => mret e0 end)
    (λ r d t, d = w_drive w /\ t = w_tick w /\ (r = None <-> bucket_ok w b /\ e0 = None)) w.
Proof.
  intros Hw Hm. eapply runs_bind; [done|by apply runs_checkBucketExist|].
  intros [e|] w' Hw' _ (Ed & Et & He); apply runs_ret; try done; split_and!; try done; naive_solver.
Qed.

Lemma runs_checkPutObjectArgs b o size w :
  ready w -> small_meta (view (w_drive w)) ->
  runs (checkPutObjectArgs b o size) (λ r d t, d = w_drive w /\ t = w_tick w /\
    (r = None <-> bucket_ok w b /\ put_name_error b o size = None)) w.
Proof. apply runs_check_then. Qed.

Lemma runs_checkObjectArgs b o w :
  ready w -> small_meta (view (w_drive w)) ->
  runs (checkObjectArgs b o) (λ r d t, d = w_drive w /\ t = w_tick w /\
    (r = None <-> bucket_ok w b /\ object_name_error b o = None)) w.
Proof. apply runs_check_then. Qed.

Context `{!MetaCodecLaws _}.

(** The store after a bucket record was put, with the status the store gave. *)
Definition put_bucket (m m' : gmap bytes entry) (bucket : bytes) (now : time) (s : Z) : Prop :=
  m' = put_result m (bucket_key bucket) (gob_Encode (mkBucketInfo (bucket_key bucket) now)) [] s.

Lemma wp_put_bucket key now (Q : Z * option error -> World -> Prop) w :
  (∀ d s, view d = put_result (view (w_drive w)) key (gob_Encode (mkBucketInfo key now)) [] s ->
     Q (0, toKineticError s) (set_drive d w)) ->
  wp (CPut key (gob_Encode (mkBucketInfo key now)) [] 0) Q w.
Proof. intros HQ. apply wp_CPut; [apply gob_Encode_nonempty|lia|]. intros d s Hd. by apply HQ. Qed.

Lemma runs_MakeBucketWithLocation b loc w :
  ready w ->
  runs (MakeBucketWithLocation b loc) (or_timeout w b [] false Some (λ r d t,
    if decide (s3_CheckValidBucketNameStrict b = None) then
      match bucket_record (view (w_drive w)) b with
      | Some _ => r = Some (BucketExists b) /\ d = w_drive w
      | None => r = None /\ exists s, put_bucket (view (w_drive w)) (view d) b (env_now (w_tick w)) s
      end
    else r = Some (BucketNameInvalid b) /\ d = w_drive w)) w.
Proof.
  intros Hw. unfold MakeBucketWithLocation. apply runs_locked; [done|]. intros w1 Hw1 Ed1 Et1 _ _.
  rewrite <- Ed1, <- Et1. clear Ed1 Et1 Hw w.
  destruct (decide (s3_CheckValidBucketNameStrict b = None)) as [Hv|Hv].
  - rewrite bool_decide_eq_false_2 by tauto. apply runs_counted; [done|]. intros w2 Hw2 Ed Et _ _.
    rewrite <- Ed, <- Et. clear Ed Et Hw1 w1. unfold bucket_record. wp_steps; rewrite Emeta.
    + split; [same_now|done].
    + apply wp_put_bucket. wsimpl. intros d s Hd. wp_steps. split; [same_now|].
      split; [done|]. by exists s.
  - rewrite bool_decide_eq_true_2 by done. by apply runs_ret.
Qed.

(** A step of [initKineticMeta] at clock [t]: nothing, or a record under a key
    that was free. *)
Definition meta_created (key : bytes) (t : nat) (m m' : gmap bytes entry) : Prop :=
  m' = m \/ (m !! CString key = None /\
             m' = <[CString key := mkEntry (gob_Encode (mkBucketInfo key (env_now t))) []]> m).

Lemma runs_create_meta_bucket key w :
  ready w ->
  runs (create_meta_bucket key) (λ r d t, (t <= S (w_tick w))%nat /\
    meta_created key (w_tick w) (view (w_drive w)) (view d) /\
    (r = None -> is_Some (view d !! CString key))) w.
Proof.
  intros Hw. unfold create_meta_bucket, meta_created. wp_steps. case_bool_decide as Hk.
  - wp_steps. split; [same_now|]. wsimpl. split_and!; auto.
  - wp_steps. apply wp_put_bucket. wsimpl. intros d s Hd. wp_steps.
    split; [same_now|]. wsimpl. rewrite Hd. unfold put_result. rewrite toKineticError_None.
    apply eq_None_not_Some in Hk. case_decide.
    + split_and!; [lia|by right|]. intros _. rewrite lookup_insert_eq. eauto.
    + split_and!; [lia|by left|]. by intros ->.
Qed.

Definition meta_buckets : list bytes := [minioMetaBucket; minioMetaTmpBucket; minioMetaMultipartBucket].

Lemma meta_created_mono key t m m' : meta_created key t m m' -> m ⊆ m'.
Proof. intros [->|[Hn ->]]; [done|by apply insert_subseteq]. Qed.

Lemma runs_initKineticMeta (P : gmap bytes entry -> Prop) w :
  ready w -> P (view (w_drive w)) ->
  (∀ b t m m', b ∈ meta_buckets -> (t < w_tick w + 3)%nat -> P m ->
     meta_created (bucket_key b) t m m' -> P m') ->
  runs initKineticMeta (λ r d t, view (w_drive w) ⊆ view d /\ P (view d) /\
    (r = None -> ∀ b, b ∈ meta_buckets -> is_Some (view d !! CString (bucket_key b)))) w.
Proof.
  intros Hw HP Hstep. unfold initKineticMeta. eapply runs_bind; [done|by apply runs_create_meta_bucket|].
  intros r1 w1 Hw1 _ (T1 & C1 & K1). pose proof (meta_created_mono _ _ _ _ C1) as S1.
  apply Hstep in C1; [|set_solver|lia|done]. destruct r1 as [e|]; [by apply runs_ret|].
  eapply runs_bind; [done|by apply runs_create_meta_bucket|].
  intros r2 w2 Hw2 _ (T2 & C2 & K2). pose proof (meta_created_mono _ _ _ _ C2) as S2.
  apply Hstep in C2; [|set_solver|lia|done].
  destruct r2 as [e|]; [apply runs_ret; [done|]; split; [by etrans|done]|].
  eapply runs_mono; [by apply runs_create_meta_bucket|]. simpl. intros r3 d3 t3 (T3 & C3 & K3).
  pose proof (meta_created_mono _ _ _ _ C3) as S3. apply Hstep in C3; [|set_solver|lia|done].
  split; [by repeat (etrans; [eassumption|])|]. split; [done|]. intros -> b Hb.
  specialize (K1 eq_refl). specialize (K2 eq_refl). specialize (K3 eq_refl).
  destruct K1 as [e1 K1], K2 as [e2 K2].
  apply (lookup_weaken _ _ _ _ K1) in S2. apply (lookup_weaken _ _ _ _ S2) in S3 as K1'.
  apply (lookup_weaken _ _ _ _ K2) in S3. unfold meta_buckets in Hb.
  rewrite !elem_of_cons, elem_of_nil in Hb. destruct Hb as [->|[->|[->|[]]]]; [by eexists..|done].
Qed.

Lemma runs_Shutdown w :
  ready w -> runs Shutdown (λ r d t, r = None /\ view d = view (w_drive w)) w.
Proof. intros Hw. unfold Shutdown. wp_steps. split; [same_now|done]. Qed.

(** ** ListBuckets *)
Definition visible_bucket_key (k : bytes) : Prop :=
  take 7 k = str "bucket." /\ take 8 k <> str "bucket..".

Lemma visible_in_range k :
  visible_bucket_key k -> in_range (str "bucket.") (str "bucket/") true true k = true.
Proof.
  intros [Hk _]. change (str "bucket/") with (IncStr (str "bucket" ++ ["."%char])).
  change (str "bucket.") with (str "bucket" ++ ["."%char]). apply prefix_range_inclusive; [done|].
  left. exists (drop 7 k). rewrite <- (take_drop 7 k) at 1. by rewrite Hk.
Qed.

(** What the listing reports for a bucket key. *)
Definition listed_bucket (m : gmap bytes entry) (k : bytes) : BucketInfo :=
  mkBucketInfo (drop 7 k)
    (match m !! k with
     | Some e => bi_Created (gob_Decode (e_meta e) zeroBucketInfo)
     | None => zeroTime
     end).

(** The record of a visible bucket carries the bucket's key as its name. *)
Definition bucket_records_ok (m : gmap bytes entry) : Prop :=
  ∀ k e, m !! k = Some e -> visible_bucket_key k ->
    bi_Name (gob_Decode (e_meta e) zeroBucketInfo) = k.

Lemma wp_list_buckets_page keys acc w (Q : list BucketInfo * option error -> World -> Prop) :
  small_meta (view (w_drive w)) -> plain_store (view (w_drive w)) ->
  bucket_records_ok (view (w_drive w)) ->
  Forall (λ k, is_Some (view (w_drive w) !! k)) keys ->
  Q (acc ++ (listed_bucket (view (w_drive w)) <$> filter visible_bucket_key keys), None) w ->
  wp (list_buckets_page keys acc) Q w.
Proof.
  intros Hm Hp Hb Hk. revert acc. induction Hk as [|k keys [e He] Hk IH]; intros acc HQ; simpl.
  - apply wp_ret. by rewrite app_nil_r in HQ.
  - rewrite filter_cons in HQ. unfold visible_bucket_key at 1 in HQ.
    repeat case_bool_decide; simpl; case_decide; try tauto; try (by apply IH).
    assert (CString k = k) as Hc by (apply CString_id; by eapply Hp).
    apply wp_bind, wp_CGetMeta; intros x Ex; rewrite Hc, He in Ex; simplify_eq.
    apply wp_bind, wp_cslice; [pose proof (Hm _ _ He); lia|]. apply wp_bind.
    assert (bi_Name (gob_Decode (e_meta x) zeroBucketInfo) = k) as Hn by (by apply Hb).
    unfold slice_from. rewrite Hn. rewrite decide_True.
    + apply wp_ret, IH. rewrite <- app_assoc. simpl.
      rewrite fmap_cons in HQ. unfold listed_bucket at 1 in HQ. by rewrite He in HQ.
    + apply (f_equal length) in H3. rewrite length_take in H3. change (length (str "bucket.")) with 7%nat in H3. lia.
Qed.

Lemma filter_visible_range m n :
  (length (keys_in_range m (str "bucket.") (str "bucket/") true true (Z.of_nat n)) < n)%nat ->
  filter visible_bucket_key (keys_in_range m (str "bucket.") (str "bucket/") true true (Z.of_nat n))
  = filter visible_bucket_key (sorted_keys m).
Proof.
  unfold keys_in_range. rewrite Nat2Z.id. intros Hl. rewrite length_take in Hl.
  rewrite take_ge by lia. rewrite list_filter_filter. apply list_filter_iff.
  intros k. split; [tauto|]. intros Hk. split; [done|]. by apply visible_in_range.
Qed.

Lemma runs_ListBuckets fuel w :
  ready w -> small_meta (view (w_drive w)) -> plain_store (view (w_drive w)) ->
  bucket_records_ok (view (w_drive w)) -> (0 < fuel)%nat ->
  (length (keys_in_range (view (w_drive w)) (str "bucket.") (str "bucket/") true true 800) < 800)%nat ->
  runs (ListBuckets fuel) (λ r d t, d = w_drive w /\ t = w_tick w /\
    r = (listed_bucket (view (w_drive w)) <$>
           filter visible_bucket_key (sorted_keys (view (w_drive w))), None)) w.
Proof.
  intros Hw Hm Hp Hb Hf Hn. destruct fuel as [|fuel]; [lia|]. unfold ListBuckets.
  apply runs_counted; [done|]. intros w1 Hw1 Ed Et _ _. rewrite <- Ed in Hm, Hp, Hb, Hn |- *.
  rewrite <- Et. clear Hw Ed Et w. simpl. wp_steps. apply wp_CGetKeyRange; [done|done|lia|]. wp_steps.
  change (CString (str "bucket.")) with (str "bucket."). change (CString (str "bucket/")) with (str "bucket/").
  apply wp_list_buckets_page; [done..| |].
  - apply Forall_forall. intros k Hk. by eapply elem_of_keys_in_range.
  - wsimpl. rewrite (proj2 (Nat.ltb_lt _ _) Hn). wp_steps.
    split; [same_now|]. split; [done|]. split; [done|]. rewrite app_nil_l. do 2 f_equal.
    by apply (filter_visible_range _ 800).
Qed.

End buckets.
