(* ===== verification/Reference.v ===== *)
(** * A concrete environment

    One instance of every interface the development is parametric in: the
    reference drive, mutex and codec, and an environment whose clock counts
    its own readings and whose digests are fixed.  The witnesses of the theorems run the
    modelled operations in it. *)
From S2P Require Import Prelude GoLib IncStr Errors Metadata NsLock Pool Drive World HashReader.
From S2P Require Import Client Names Buckets.

Module Ref.

#[export] Instance os : OSEnv := {|
  env_now t := Z.of_nat t `mod` 10 ^ 9;
  env_uuid _ := str "00000000-0000-4000-8000-000000000000";
  s3_CheckValidBucketName b := if IsValidBucketName b then None else Some (BucketNameInvalid b);
  s3_CheckValidBucketNameStrict b := if IsValidBucketName b then None else Some (BucketNameInvalid b);
  regexp_MatchString _ _ := None;
  md5_sum _ := replicate 16 "m"%char;
  sha256_sum _ := replicate 32 "s"%char;
  env_rand _ := replicate 16 "r"%char;
  rwPool_Open _ := Some errFileNotFound;
  rwPool_Create _ := None;
  rwPool_WriteTo _ := None;
  env_cap n := n;
  env_byte _ _ := "x"%char |}.

(** Deleting a missing key succeeds. *)
#[export] Instance kd : KineticDrive := ref_drive 0.
#[export] Instance kd_spec : KineticDriveSpec kd := ref_drive_spec 0.
#[export] Instance lrw : LRWMutex := ref_lrw.
#[export] Instance lrw_laws : LRWMutexLaws lrw := ref_lrw_laws.
#[export] Instance codec : MetaCodec := ref_codec.
#[export] Instance codec_laws : MetaCodecLaws codec := ref_codec_laws.
#[export] Instance menv : MetaEnv := ref_env.

(** A server that has just started over the entries [es]. *)
Definition start (es : list (bytes * entry)) : World :=
  init_world (mkRef (list_to_map es) 1000 : @drive kd).

Lemma start_ready es : ready (start es).
Proof.
  split; [done| |unfold start, init_world, in_int64, int64_min, int64_max; simpl; lia|apply ns_wf_empty].
  split; [apply init_pool_wf|]. unfold start, init_world. cbn [w_pool].
  assert (used init_pool = ∅) as ->.
  { apply set_eq. intros i. rewrite elem_of_used, init_pool_in_use. set_solver. }
  rewrite size_empty. apply Nat.ltb_lt. reflexivity.
Qed.

(** The entries hold for all keys when they hold for the listed ones. *)
Lemma start_forall (P : bytes -> entry -> Prop) es :
  Forall (λ ke, P ke.1 ke.2) es -> ∀ k e, view (w_drive (start es)) !! k = Some e -> P k e.
Proof.
  intros Hes k e Hk. apply elem_of_list_to_map_2 in Hk. rewrite Forall_forall in Hes.
  by apply (Hes (k, e)).
Qed.

Lemma start_small es :
  forallb (λ ke : bytes * entry, Z.of_nat (length (e_meta ke.2)) <=? 2 ^ 16) es = true ->
  small_meta (view (w_drive (start es))).
Proof.
  rewrite forallb_forall. intros Hb. refine (start_forall _ _ _). apply Forall_forall. intros ke Hin.
  apply Z.leb_le, Hb. by apply list_elem_of_In.
Qed.

(** The record of a bucket. *)
Definition bucket_entry (b : bytes) : bytes * entry :=
  (bucket_key b, mkEntry (gob_Encode (mkBucketInfo (bucket_key b) 0)) []).

End Ref.
