(* ===== verification/Objects.v ===== *)
(** * Objects: cmd/kinetic.go

    An object is the key "bucket/object"; its metadata is the JSON text of an
    [fsMetaV1] and, unless it was uploaded in parts, its value is its content.
    This file has the object operations of the Kinetic layer: reading metadata,
    GET in its two forms, PUT, DELETE, and the object versions that name the
    parts of multipart objects. *)
From S2P Require Import Prelude GoLib IncStr Errors Metadata NsLock Pool Drive World HashReader.
From S2P Require Import HttpRange Client Names Buckets.

Definition blockSizeV1 : Z := 10 * 1024 * 1024.
Definition defaultEtag : bytes := str "00000000000000000000000000000000-1".
Definition bucketMetaPrefix : bytes := str "buckets".

(** [makeKey] *)
Definition makeKey (bucket obj : bytes) : bytes := bucket ++ SlashSeparator ++ obj.
#[global] Arguments makeKey : simpl never.

(** [newVersion]: five digits, from "00001" to "99999" and round again. *)
Definition newVersion (aCurVersion : bytes) : bytes :=
  if decide (aCurVersion = []) then Format5d 1
  else
    let curVer := (Atoi aCurVersion).1 in
    let nNxtVer := Z.rem (wrap_s 64 (curVer + 1)) 100000 in
    let nNxtVer := if nNxtVer =? 0 then 1 else nNxtVer in
    Format5d nNxtVer.

(** cmd/crypto: an object is encrypted when its metadata has one of the internal
    encryption entries. *)
Definition has_key (m : option strmap) (k : bytes) : bool :=
  bool_decide (is_Some (default ∅ m !! k)).

Definition IsMultiPart (metadata : option strmap) : bool :=
  has_key metadata (str "X-Minio-Internal-Encrypted-Multipart").

Definition IsEncrypted (metadata : option strmap) : bool :=
  has_key metadata (str "X-Minio-Internal-Server-Side-Encryption-Iv")
  || has_key metadata (str "X-Minio-Internal-Server-Side-Encryption-Seal-Algorithm")
  || IsMultiPart metadata
  || has_key metadata (str "X-Minio-Internal-Server-Side-Encryption-S3-Sealed-Key")
  || has_key metadata (str "X-Minio-Internal-Server-Side-Encryption-S3-Kms-Key-Id")
  || has_key metadata (str "X-Minio-Internal-Server-Side-Encryption-S3-Kms-Sealed-Key")
  || has_key metadata (str "X-Minio-Internal-Server-Side-Encryption-Sealed-Key").

Definition compressionAlgorithmV1 : bytes := str "golang/snappy/LZ77".
Definition compressionAlgorithmV2 : bytes := str "klauspost/compress/s2".

(** [ObjectInfo.IsCompressedOK] *)
Definition IsCompressedOK (o : ObjectInfo) : bool * option error :=
  match default ∅ (oi_UserDefined o) !! (ReservedMetadataPrefix ++ str "compression") with
  | None => (false, None)
  | Some scheme =>
      if IsEncrypted (oi_UserDefined o)
      then (true, Some (errText (str "compression and encryption enabled on same object")))
      else if decide (scheme = compressionAlgorithmV1 \/ scheme = compressionAlgorithmV2)
      then (true, None)
      else (true, Some (errText (str "unknown compression scheme")))
  end.

Inductive LockType := noLock | readLock | writeLock.

(** ** GetObjectReader: the reader a GET hands to the HTTP handler

    Its clean-up functions are data: releasing the namespace lock, closing the
    local lock file, returning the connection to the pool. *)
Inductive cleanup :=
  | CleanNs (rd : bool) (li : localLockInstance)
  | CleanRwPool (fsMetaPath : bytes)
  | CleanConn (ix : nat).

Record GetObjectReader := mkGetObjectReader {
  gr_ObjInfo : ObjectInfo;
  gr_client : option nat;      (* the client read from; [None] for an empty body *)
  gr_length : Z;               (* the limit of the [io.LimitReader] *)
  gr_cleanUpFns : list cleanup }.

Section objects.
Context `{KineticDrive} `{LRWMutex} `{MetaCodec} `{MetaEnv} `{OSEnv}.

Definition allocateValBuf (bufSize : Z) : M unit :=
  if decide (bufSize = 0) then mret tt
  else if decide (0 <= bufSize <= 2 ^ 30) then mret tt else panic.

Definition currentVersion (key : bytes) : M (bytes * option error) :=
  _ ← kineticMutex_Lock;
  kc ← GetKineticConnection;
  '(cvalue, err) ← CGetMeta key;
  _ ← releaseConnection kc;
  _ ← kineticMutex_Unlock;
  match err, cvalue with
  | None, Some v =>
      value ← cslice (2 ^ 16) v;
      let '(meta, err) := json_Unmarshal value zeroFsMeta in
      mret (match err with None => mget (Meta meta) (str "version") | Some _ => [] end, err)
  | _, _ => mret ([], err)
  end.

Definition defaultFsJSON (object : bytes) : fsMetaV1 :=
  set_Meta newFSMetaV1 (Some (<[str "content-type" := TypeByExtension (path.Ext object)]>
                               {[str "etag" := defaultEtag]})).

(** [createFsJSON] writes a local file, which nothing reads; only its error
    matters. *)
Definition createFsJSON (object fsMetaPath : bytes) : M (option error) :=
  _ ← mustGetUUID;
  mret match rwPool_Create fsMetaPath with
       | None => rwPool_WriteTo fsMetaPath
       | Some werr => Some werr
       end.

(** ** Object metadata *)
Definition getObjectInfo (bucket object : bytes) : M (ObjectInfo * option error) :=
  let key := if decide (bucket = []) then object else bucket ++ str "/" ++ object in
  _ ← kineticMutex_Lock;
  kc ← GetKineticConnection;
  '(cvalue, err) ← CGetMeta key;
  _ ← releaseConnection kc;
  match err with
  | Some _ =>
      _ ← kineticMutex_Unlock;
      mret (zeroObjectInfo, Some errFileNotFound)
  | None =>
      '(fsMeta, err) ← match cvalue with
                       | Some v =>
                           value ← cslice (2 ^ 16) v;
                           mret (json_Unmarshal value (set_Meta zeroFsMeta (Some ∅)))
                       | None => mret (zeroFsMeta, None)
                       end;
      match err with
      | Some e => _ ← kineticMutex_Unlock; mret (zeroObjectInfo, Some e)
      | None =>
          let hidden := mget (Meta fsMeta) (str "hidden") in
          let fi := mkKVInfo (ko_Name (KoInfo fsMeta)) (ko_Size (KoInfo fsMeta))
                      (ko_CreatedTime (KoInfo fsMeta))
                      (negb (bool_decide (hidden = [])) && negb (bool_decide (hidden = str "0"))) in
          _ ← kineticMutex_Unlock;
          mret (KVInfoToObjectInfo fsMeta bucket object (Some fi), None)
      end
  end.

Definition getObjectInfoWithLock (bucket object : bytes) : M (ObjectInfo * option error) :=
  with_lock true (NewNSLock bucket [object]) (λ e, (zeroObjectInfo, Some e)) (
  match checkGetObjArgs bucket object with
  | Some e => mret (zeroObjectInfo, Some e)
  | None =>
      '(_, err) ← statBucketDir bucket;
      match err with
      | Some e => mret (zeroObjectInfo, Some e)
      | None => getObjectInfo bucket object
      end
  end).

Definition fs_meta_path (bucket object : bytes) : bytes :=
  pathJoin [[]; minioMetaBucket; bucketMetaPrefix; bucket; object; fsMetaJSONFile].

Definition GetObjectInfo (bucket object : bytes) : M (ObjectInfo * option error) :=
  '(oi, err) ← getObjectInfoWithLock bucket object;
  if decide (err = Some errCorruptedFormat \/ err = Some io_EOF) then
    let objectLock := NewNSLock bucket [object] in
    err ← li_GetLock objectLock;
    match err with
    | Some e => mret (oi, toObjectErr (Some e) [bucket; object])
    | None =>
        err ← createFsJSON object (fs_meta_path bucket object);
        _ ← li_Unlock objectLock;
        match err with
        | Some e => mret (oi, toObjectErr (Some e) [bucket; object])
        | None =>
            '(oi, err) ← getObjectInfoWithLock bucket object;
            mret (oi, toObjectErr err [bucket; object])
        end
    end
  else mret (oi, toObjectErr err [bucket; object]).

(** ** GET into a writer

    The bytes written and the error.  [writer] is false for a nil writer. *)
Definition getObject (bucket object : bytes) (offset length : Z) (writer : bool)
  : M (bytes * option error) :=
  '(_, err) ← statBucketDir bucket;
  match err with
  | Some e => mret ([], toObjectErr (Some e) [bucket])
  | None =>
      if offset <? 0 then mret ([], toObjectErr (Some errUnexpected) [bucket; object])
      else if negb writer then mret ([], toObjectErr (Some errUnexpected) [bucket; object])
      else if HasSuffix object SlashSeparator then mret ([], toObjectErr None [bucket; object])
      else
        let key := bucket ++ str "/" ++ object in
        _ ← kineticMutex_Lock;
        kc ← GetKineticConnection;
        _ ← client_set kc (set_Key key);
        '(cvalue, err) ← CGet key (-1) false 0 (-1);
        _ ← releaseConnection kc;
        match err with
        | Some _ =>
            _ ← kineticMutex_Unlock;
            mret ([], toObjectErr (Some errFileNotFound) [bucket; object])
        | None =>
            let size := match cvalue with Some v => Z.of_nat (List.length v) | None => 0 end in
            let length := if length <? 0 then size - offset else length in
            if (size <? offset) || (size <? wrap_s 64 (offset + length)) then
              _ ← kineticMutex_Unlock;
              mret ([], Some (InvalidRange offset length size))
            else
              written ← match cvalue with
                        | Some v => value ← cslice (2 ^ 30) v; mret value
                        | None => mret []
                        end;
              _ ← kineticMutex_Unlock;
              mret (written, None)
        end
  end.

Definition GetObject (bucket object : bytes) (offset length : Z) (writer : bool)
  : M (bytes * option error) :=
  match checkGetObjArgs bucket object with
  | Some e => mret ([], Some e)
  | None =>
      with_lock true (NewNSLock bucket [object]) (λ e, ([], Some e)) (counted (
      getObject bucket object offset length writer))
  end.

(** ** GET as a reader *)
Definition run_cleanup (c : cleanup) : M unit :=
  match c with
  | CleanNs true li => li_RUnlock li
  | CleanNs false li => li_Unlock li
  | CleanRwPool _ => mret tt
  | CleanConn ix => releaseConnection ix
  end.

(** In reverse order of registration. *)
Fixpoint run_cleanups (cs : list cleanup) : M unit :=
  match cs with
  | [] => mret tt
  | c :: cs' => _ ← run_cleanups cs'; run_cleanup c
  end.

(** [GetObjectReader.Close] *)
Definition gr_Close (g : GetObjectReader) : M unit := run_cleanups (gr_cleanUpFns g).

(** [CheckCopyPreconditionFn]: whether the request is answered by its
    preconditions, from the object's information. *)
Definition NewGetObjectReaderFromReader (oi : ObjectInfo) (pcfn : option (ObjectInfo -> bool))
    (cleanupFns : list cleanup) : M (option GetObjectReader * option error) :=
  if match pcfn with Some f => f oi | None => false end then
    _ ← run_cleanups cleanupFns; mret (None, Some PreConditionFailed)
  else mret (Some (mkGetObjectReader oi None 0 cleanupFns), None).

(** [NewGetObjectReader] for an object that is neither encrypted nor compressed:
    the offset and length to read.  The clean-up functions run on an error. *)
Definition NewGetObjectReader (rs : option HTTPRangeSpec) (oi : ObjectInfo) (cleanUpFns : list cleanup)
  : M (Z * Z * option error) :=
  match IsCompressedOK oi with
  | (_, Some e) => _ ← run_cleanups cleanUpFns; mret (0, 0, Some e)
  | (isCompressed, None) =>
      if IsEncrypted (oi_UserDefined oi) || isCompressed then unmodelled
      else match GetOffsetLength rs (oi_Size oi) with
           | (_, _, Some e) => _ ← run_cleanups cleanUpFns; mret (0, 0, Some e)
           | (off, length, None) => mret (off, length, None)
           end
  end.

(** The function [NewGetObjectReader] returns, applied to the input reader. *)
Definition objReaderFn (oi : ObjectInfo) (pcfn : option (ObjectInfo -> bool)) (ix : nat) (length : Z)
    (cFns : list cleanup) : M (option GetObjectReader * option error) :=
  if match pcfn with Some f => f oi | None => false end then
    _ ← run_cleanups cFns; mret (None, Some PreConditionFailed)
  else mret (Some (mkGetObjectReader oi (Some ix) length cFns), None).

Definition set_KeyOffset (k : bytes) (off : Z) (c : Client) : Client :=
  mkClient (c_Idx c) (c_ConnectionID c) (c_Sequence c) (c_Identity c) (c_HmacKey c) k
    (c_NextPartNumber c) (c_LastPartNumber c) off.

(** The part of [GetObjectNInfo] after the lock was taken; [nsUnlocker] is the
    clean-up that gives it back. *)
Definition get_locked (bucket object : bytes) (rs : option HTTPRangeSpec) (lockType : LockType)
    (pcfn : option (ObjectInfo -> bool)) (nsUnlocker : list cleanup)
  : M (option GetObjectReader * option error) :=
  '(objInfo, err) ← getObjectInfo bucket object;
  match err with
  | Some e => _ ← run_cleanups nsUnlocker; mret (None, toObjectErr (Some e) [bucket; object])
  | None =>
      if HasSuffix object SlashSeparator
      then NewGetObjectReaderFromReader objInfo pcfn nsUnlocker
      else
        let rwPool := negb (bool_decide (bucket = minioMetaBucket))
                      && match lockType with noLock => false | _ => true end in
        let fsMetaPath := fs_meta_path bucket object in
        let openErr := if rwPool then rwPool_Open fsMetaPath else None in
        if decide (openErr <> None /\ openErr <> Some errFileNotFound) then
          _ ← run_cleanups nsUnlocker; mret (None, toObjectErr openErr [bucket; object])
        else
          let cleanUpFns := nsUnlocker ++ (if rwPool then [CleanRwPool fsMetaPath] else []) in
          '(off, length, rErr) ← NewGetObjectReader rs objInfo cleanUpFns;
          match rErr with
          | Some e => mret (None, Some e)
          | None =>
              let size := oi_Size objInfo in
              if (size <? off) || (size <? wrap_s 64 (off + length))
              then mret (None, Some (InvalidRange off length size))
              else
                kc ← GetKineticConnection;
                _ ← client_set kc (set_KeyOffset (bucket ++ str "/" ++ object) off);
                objReaderFn objInfo pcfn kc length (cleanUpFns ++ [CleanConn kc])
          end
  end.

Definition GetObjectNInfo (bucket object : bytes) (rs : option HTTPRangeSpec) (lockType : LockType)
    (pcfn : option (ObjectInfo -> bool)) : M (option GetObjectReader * option error) :=
  match checkGetObjArgs bucket object with
  | Some e => mret (None, Some e)
  | None =>
      counted (
        let lock := NewNSLock bucket [object] in
        match lockType with
        | noLock => get_locked bucket object rs lockType pcfn []
        | writeLock =>
            err ← li_GetLock lock;
            match err with
            | Some e => mret (None, Some e)
            | None => get_locked bucket object rs lockType pcfn [CleanNs false lock]
            end
        | readLock =>
            err ← li_GetRLock lock;
            match err with
            | Some e => mret (None, Some e)
            | None => get_locked bucket object rs lockType pcfn [CleanNs true lock]
            end
        end)
  end.

(** Reading a [GetObjectReader] to its end, in pieces of [bufSize] bytes, and
    closing it. *)
Definition gr_ReadAll (fuel : nat) (g : GetObjectReader) (bufSize : Z) : M (bytes * option error) :=
  r ← match gr_client g with
      | Some ix => copy_limited fuel ix (gr_length g) bufSize []
      | None => mret ([], None)
      end;
  _ ← gr_Close g;
  mret r.

(** What [GetObjectHandler] does with the object layer: parse the Range header
    (only an unsatisfiable range is an error, any other malformed header is
    ignored), open the reader, copy it to the response through a buffer of the
    object's size plus one, and close it.  Authentication, preconditions and
    response headers are left out. *)
Definition GetObjectHandler_serve (fuel : nat) (bucket object rangeHeader : bytes)
  : M (bytes * option error) :=
  let '(rs, err) := if decide (rangeHeader = []) then (None, None)
                    else parseRequestRangeSpec rangeHeader in
  if decide (err = Some errInvalidRange) then mret ([], Some errInvalidRange)
  else
    '(gr, err) ← GetObjectNInfo bucket object rs readLock None;
    match gr with
    | None => mret ([], err)
    | Some g => gr_ReadAll fuel g (oi_Size (gr_ObjInfo g) + 1)
    end.

(** ** PUT *)

(** The metadata record [putObject] writes. *)
Definition put_fsMeta (object : bytes) (meta : strmap) (size : Z) (version etag : bytes) (now : time)
  : fsMetaV1 :=
  let meta := <[str "size" := FormatInt size]> (<[str "etag" := etag]>
                (<[str "version" := version]> meta)) in
  set_KoInfo (set_Meta newFSMetaV1 (Some meta)) (mkKOInfo object size now zeroTime).

Definition putObject (bucket object : bytes) (r : Reader) (userDefined : option strmap)
  : M (ObjectInfo * option error) :=
  _ ← kineticMutex_Lock;
  kc ← GetKineticConnection;
  '(_, err) ← CGetMeta (bucket_key bucket);
  _ ← releaseConnection kc;
  _ ← kineticMutex_Unlock;
  if decide (err <> None /\ err <> Some errKineticNotFound)
  then mret (zeroObjectInfo, toObjectErr err [bucket; object])
  else
  let meta := default ∅ userDefined in
  if r_size r <? -1 then mret (zeroObjectInfo, Some errInvalidArgument)
  else if blockSizeV1 <? r_size r then mret (zeroObjectInfo, Some errInvalidArgument)
  else
    let bufSize := r_size r in
    let key := bucket ++ str "/" ++ object in
    '(objVer, _) ← currentVersion key;
    let nxtVer := newVersion objVer in
    etag ← MD5CurrentHexString r;
    now ← time_Now;
    let bytes := json_Marshal (put_fsMeta object meta bufSize nxtVer etag now) in
    _ ← allocateValBuf (Z.of_nat (length bytes));
    _ ← allocateValBuf bufSize;
    match readToBuffer r (Z.to_nat bufSize) with
    | (_, _, Some e) => mret (zeroObjectInfo, Some e)
    | (goBuf, r', None) =>
        kc ← GetKineticConnection;
        '(_, err) ← CPut key bytes goBuf bufSize;
        match err with
        | Some e => _ ← releaseConnection kc; mret (zeroObjectInfo, Some e)
        | None =>
            _ ← releaseConnection kc;
            now ← time_Now;
            etag ← MD5CurrentHexString r';
            mret (mkObjectInfo bucket object now bufSize false etag [] [] zeroTime [] None []
                    [] false false, None)
        end
    end.

Definition PutObject (bucket object : bytes) (r : Reader) (userDefined : option strmap)
  : M (ObjectInfo * option error) :=
  err ← checkPutObjectArgs bucket object (r_size r);
  match err with
  | Some e => mret (zeroObjectInfo, Some e)
  | None =>
      with_lock false (NewNSLock bucket [object]) (λ e, (zeroObjectInfo, Some e)) (counted (
      putObject bucket object r userDefined))
  end.

(** ** DELETE *)
Fixpoint delete_part_keys (objKey version : bytes) (parts : list ObjectPartInfo) : M unit :=
  match parts with
  | [] => mret tt
  | part :: parts' =>
      _ ← Delete (objKey ++ str "." ++ version ++ str "."
                   ++ encodePartFile (part_Number part) (part_ETag part) (part_ActualSize part));
      delete_part_keys objKey version parts'
  end.

Definition DeleteObject (bucket object : bytes) : M (option error) :=
  with_lock false (NewNSLock bucket [object]) Some (counted (
  match checkDelObjArgs bucket object with
  | Some e => mret (Some e)
  | None =>
      let key := makeKey bucket object in
      _ ← kineticMutex_Lock;
      kc ← GetKineticConnection;
      '(cvalue, err) ← CGetMeta key;
      match err with
      | Some _ =>
          _ ← releaseConnection kc;
          _ ← kineticMutex_Unlock;
          mret (Some errFileNotFound)
      | None =>
          fsMeta ← match cvalue with
                   | Some v => fsMetaBytes ← cslice (2 ^ 16) v;
                               mret (json_Unmarshal fsMetaBytes zeroFsMeta).1
                   | None => mret zeroFsMeta
                   end;
          match Parts fsMeta with
          | [] =>
              err ← Delete key;
              match err with
              | Some e => _ ← releaseConnection kc; _ ← kineticMutex_Unlock; mret (Some e)
              | None =>
                  err ← Delete key;
                  _ ← releaseConnection kc;
                  _ ← kineticMutex_Unlock;
                  mret err
              end
          | parts =>
              _ ← delete_part_keys key (mget (Meta fsMeta) (str "version")) parts;
              err ← Delete key;
              _ ← releaseConnection kc;
              _ ← kineticMutex_Unlock;
              mret err
          end
      end
  end)).

(** [DeleteObjects]: one error, or nil, per object. *)
Fixpoint DeleteObjects (bucket : bytes) (objects : list bytes) : M (list (option error)) :=
  match objects with
  | [] => mret []
  | object :: objects' =>
      err ← DeleteObject bucket object;
      errs ← DeleteObjects bucket objects';
      mret (err :: errs)
  end.

End objects.
