(* ===== verification/ObjectsSpec.v ===== *)
(** * What the object operations do, over the view of the store *)
From S2P Require Import Prelude GoLib IncStr Errors Metadata NsLock Pool Drive World HashReader.
From S2P Require Import HttpRange Client Names Buckets Objects.

Section spec.
Context `{KineticDrive} `{LRWMutex} `{MetaCodec} `{MetaEnv} `{OSEnv}.
Context `{!KineticDriveSpec _} `{!LRWMutexLaws _} `{!MetaCodecLaws _}.

(** ** Reading metadata *)
Definition current_version (m : gmap bytes entry) (key : bytes) : bytes * option error :=
  match m !! CString key with
  | None => ([], Some errKineticNotFound)
  | Some e =>
      let '(meta, err) := json_Unmarshal (e_meta e) zeroFsMeta in
      (match err with None => mget (Meta meta) (str "version") | Some _ => [] end, err)
  end.

Lemma runs_currentVersion key w :
  ready w -> small_meta (view (w_drive w)) ->
  runs (currentVersion key) (λ r d t, d = w_drive w /\ t = w_tick w /\
    r = current_version (view (w_drive w)) key) w.
Proof.
  intros Hw Hm. unfold currentVersion, current_version. wp_steps; rewrite Emeta.
  - apply wp_cslice; [by eapply Hm|].
    destruct (json_Unmarshal (e_meta e) zeroFsMeta) as [meta err]. wp_steps. split; [same_now|done].
  - split; [same_now|done].
Qed.

(** What [getObjectInfo] computes from the stored metadata. *)
Definition hidden_meta (fsMeta : fsMetaV1) : bool :=
  let h := mget (Meta fsMeta) (str "hidden") in
  negb (bool_decide (h = [])) && negb (bool_decide (h = str "0")).

Definition info_of (fsMeta : fsMetaV1) (bucket object : bytes) : ObjectInfo :=
  KVInfoToObjectInfo fsMeta bucket object
    (Some (mkKVInfo (ko_Name (KoInfo fsMeta)) (ko_Size (KoInfo fsMeta))
             (ko_CreatedTime (KoInfo fsMeta)) (hidden_meta fsMeta))).

Definition info_key (bucket object : bytes) : bytes :=
  if decide (bucket = []) then object else bucket ++ str "/" ++ object.

Definition object_info (m : gmap bytes entry) (bucket object : bytes) : ObjectInfo * option error :=
  match m !! CString (info_key bucket object) with
  | None => (zeroObjectInfo, Some errFileNotFound)
  | Some e =>
      match json_Unmarshal (e_meta e) (set_Meta zeroFsMeta (Some ∅)) with
      | (_, Some err) => (zeroObjectInfo, Some err)
      | (fsMeta, None) => (info_of fsMeta bucket object, None)
      end
  end.

Lemma runs_getObjectInfo b o w :
  ready w -> small_meta (view (w_drive w)) ->
  runs (getObjectInfo b o) (λ r d t, d = w_drive w /\ t = w_tick w /\
    r = object_info (view (w_drive w)) b o) w.
Proof.
  intros Hw Hm. unfold getObjectInfo, object_info, info_key. wp_steps; rewrite Emeta.
  - apply wp_cslice; [by eapply Hm|]. wp_steps.
    destruct (json_Unmarshal (e_meta e) _) as [fsMeta [err|]]; wp_steps; split; [same_now|done..|same_now|done].
  - split; [same_now|done].
Qed.

(** What [getObjectInfoWithLock] answers once it has the lock. *)
Definition info_result (m : gmap bytes entry) (b o : bytes) : ObjectInfo * option error :=
  match checkGetObjArgs b o with
  | Some e => (zeroObjectInfo, Some e)
  | None =>
      match bucket_record m b with
      | None => (zeroObjectInfo, Some errFileNotFound)
      | Some _ => object_info m b o
      end
  end.

Lemma runs_getObjectInfoWithLock b o w :
  ready w -> small_meta (view (w_drive w)) ->
  runs (getObjectInfoWithLock b o)
    (or_timeout w b o true (λ e, (zeroObjectInfo, Some e)) (λ r d t, d = w_drive w /\ t = w_tick w /\
      r = info_result (view (w_drive w)) b o)) w.
Proof.
  intros Hw Hm. unfold getObjectInfoWithLock, info_result. apply runs_locked; [done|]. intros w1 Hw1 Ed Et _ _.
  rewrite <- Ed in Hm |- *. rewrite <- Et. clear Ed Et Hw w.
  destruct (checkGetObjArgs b o); [by apply runs_ret|].
  eapply runs_bind; [done|by apply runs_statBucketDir|].
  intros [kv err] w2 Hw2 _ (Ed & Et & E). rewrite <- Ed in Hm, E |- *. rewrite <- Et.
  destruct (bucket_record _ _); simplify_eq; [|by apply runs_ret]. by apply runs_getObjectInfo.
Qed.

Lemma runs_GetObjectInfo b o oi err w :
  ready w -> small_meta (view (w_drive w)) -> lockable w b o true ->
  info_result (view (w_drive w)) b o = (oi, err) ->
  err <> Some errCorruptedFormat -> err <> Some io_EOF ->
  runs (GetObjectInfo b o) (λ r d t, d = w_drive w /\ t = w_tick w /\
    r = (oi, toObjectErr err [b; o])) w.
Proof.
  intros Hw Hm Hl Hi H5 H6. unfold GetObjectInfo.
  eapply runs_bind; [done|by apply runs_getObjectInfoWithLock|].
  intros [oi' err'] w1 Hw1 _ [Hr _]. destruct (Hr Hl) as (Ed & Et & E). rewrite Hi in E.
  injection E as -> ->. rewrite decide_False by tauto. by apply runs_ret.
Qed.

(** ** PUT *)

(** The metadata a PUT writes when it starts with drive [d] and clock [t]. *)
Definition next_meta (m : gmap bytes entry) (t : nat) (bucket object : bytes) (r : Reader)
    (userDefined : option strmap) : fsMetaV1 :=
  put_fsMeta object (default ∅ userDefined) (r_size r)
    (newVersion (current_version m (bucket ++ str "/" ++ object)).1)
    (etag_at r t).1 (env_now (etag_at r t).2).

(** The outcome of [putObject]: an error and an unchanged store, or the new
    entry with the whole input as its value. *)
Definition put_post (m : gmap bytes entry) (t : nat) (bucket object : bytes) (r : Reader)
    (userDefined : option strmap) (res : ObjectInfo * option error) (d : drive) : Prop :=
  if blockSizeV1 <? r_size r then res = (zeroObjectInfo, Some errInvalidArgument) /\ view d = m
  else
    match readToBuffer r (Z.to_nat (r_size r)) with
    | (_, _, Some e) => res = (zeroObjectInfo, Some e) /\ view d = m
    | (buf, _, None) =>
        (exists e, res = (zeroObjectInfo, Some e) /\ view d = m) \/
        (exists now etag,
           res = (mkObjectInfo bucket object now (r_size r) false etag [] [] zeroTime [] None []
                    [] false false, None) /\
           view d = <[CString (bucket ++ str "/" ++ object) :=
                        mkEntry (json_Marshal (next_meta m t bucket object r userDefined)) buf]> m)
    end.

Lemma wp_alloc n (Q : unit -> World -> Prop) w :
  0 <= n <= 2 ^ 30 -> Q tt w -> wp (allocateValBuf n) Q w.
Proof. intros Hn HQ. unfold allocateValBuf. repeat case_decide; done || lia. Qed.

(** The look at the bucket with which [putObject] starts has no effect. *)
Lemma runs_probe {B} key (k : option error -> M B) R w :
  ready w ->
  (∀ err w', ready w' -> w_drive w' = w_drive w -> w_tick w' = w_tick w ->
     err = None \/ err = Some errKineticNotFound -> runs (k err) R w') ->
  runs (_ ← kineticMutex_Lock; kc ← GetKineticConnection; '(_, err) ← CGetMeta key;
        _ ← releaseConnection kc; _ ← kineticMutex_Unlock; k err) R w.
Proof.
  intros Hw Hk.
  assert (∀ w' err, same w w' -> w_drive w' = w_drive w -> w_tick w' = w_tick w ->
    err = None \/ err = Some errKineticNotFound ->
    wp (k err) (λ a w'', same w w'' /\ R a (w_drive w'') (w_tick w'')) w') as Hk'.
  { intros w' err Hs Ed Et He. apply runs_trans; [done|]. apply Hk; eauto using ready_same. }
  clear Hk. wp_steps; (apply Hk'; [same_now|done|done|by auto]).
Qed.

Lemma runs_putObject b o r ud w :
  ready w -> small_meta (view (w_drive w)) -> 0 <= r_size r ->
  Z.of_nat (length (json_Marshal (next_meta (view (w_drive w)) (w_tick w) b o r ud))) <= 2 ^ 30 ->
  runs (putObject b o r ud) (λ res d t,
    put_post (view (w_drive w)) (w_tick w) b o r ud res d) w.
Proof.
  intros Hw Hm Hs Hl. unfold putObject. apply runs_probe; [done|].
  intros err w1 Hw1 Ed Et He. rewrite <- Ed in Hm, Hl |- *. rewrite <- Et in Hl |- *.
  clear Hw Ed Et w. rewrite decide_False by naive_solver.
  destruct (Z.ltb_spec (r_size r) (-1)); [lia|]. unfold put_post.
  destruct (blockSizeV1 <? r_size r) eqn:Eb; [by apply runs_ret|].
  apply Z.ltb_ge in Eb. unfold blockSizeV1 in Eb.
  eapply runs_bind; [done|by apply runs_currentVersion|].
  intros [ver err'] w2 Hw2 _ (Ed & Et & Ev). rewrite <- Ed in Hm, Hl, Ev |- *. rewrite <- Et in Hl |- *.
  clear Hw1 Ed Et w1. unfold next_meta in *. rewrite <- Ev in Hl |- *. clear Ev. wsimpl. wsimpl in Hl.
  apply wp_bind, wp_MD5. wp_steps. apply wp_alloc; [lia|]. wp_steps. apply wp_alloc; [lia|]. wsimpl.
  destruct (readToBuffer r (Z.to_nat (r_size r))) as [[buf r'] [e|]] eqn:Er.
  - wp_steps. split; [same_now|done].
  - apply readToBuffer_length in Er as [Hb _]. wp_steps.
    apply wp_CPut; [apply json_Marshal_nonempty|destruct buf; simpl in Hb; lia||done|].
    intros d s Hd. wsimpl in Hd. rewrite take_ge in Hd by lia. unfold put_result in Hd. wsimpl.
    destruct (toKineticError s) eqn:Es.
    + wp_steps. split; [same_now|]. left. rewrite decide_False in Hd by (intros ->; done). eauto.
    + apply toKineticError_None in Es. rewrite decide_True in Hd by done. wp_steps.
      apply wp_MD5. wp_steps. split; [same_now|]. right. eauto.
Qed.

(** A PUT gets past its checks and its lock. *)
Definition put_allowed (w : World) (b o : bytes) (size : Z) : Prop :=
  (bucket_ok w b /\ put_name_error b o size = None) /\ lockable w b o false.

Lemma runs_PutObject b o r ud w :
  ready w -> small_meta (view (w_drive w)) -> 0 <= r_size r ->
  Z.of_nat (length (json_Marshal (next_meta (view (w_drive w)) (w_tick w) b o r ud))) <= 2 ^ 30 ->
  runs (PutObject b o r ud) (λ res d t,
    (put_allowed w b o (r_size r) -> put_post (view (w_drive w)) (w_tick w) b o r ud res d) /\
    (~ put_allowed w b o (r_size r) -> d = w_drive w /\ exists e, res = (zeroObjectInfo, Some e))) w.
Proof.
  intros Hw Hm Hs Hl. unfold PutObject. eapply runs_bind; [done|by apply runs_checkPutObjectArgs|].
  intros err w1 Hw1 Hsame (Ed & Et & He). unfold put_allowed.
  destruct err as [e|].
  - apply runs_ret; [done|]. split; [intros [? _]; naive_solver|eauto].
  - destruct (proj1 He eq_refl) as [H5 H6]. rewrite <- Ed in Hm, Hl |- *. rewrite <- Et in Hl |- *.
    eapply runs_mono; [apply (runs_locked_counted _ _ _ _ _
      (λ res d t, put_post (view (w_drive w1)) (w_tick w1) b o r ud res d)); [done|]|].
    + intros w2 Hw2 Ed2 Et2 _ _. rewrite <- Ed2 in Hm, Hl |- *. rewrite <- Et2 in Hl |- *.
      by apply runs_putObject.
    + simpl. intros a d t [Ha Hn]. rewrite (lockable_same _ _ _ _ _ Hsame) in Ha, Hn.
      split; [tauto|]. intros Hna. destruct Hn as (-> & ? & _); [tauto|]. eauto.
Qed.

(** ** GET into a writer *)

(** The whole value is written, whatever the offset and length asked for, as
    long as the range lies within the value. *)
Definition get_spec (m : gmap bytes entry) (b o : bytes) (offset length : Z) : bytes * option error :=
  match bucket_record m b with
  | None => ([], Some errFileNotFound)
  | Some _ =>
      if offset <? 0 then ([], Some errUnexpected)
      else if HasSuffix o SlashSeparator then ([], None)
      else match m !! CString (b ++ str "/" ++ o) with
           | None => ([], Some (ObjectNotFound b o))
           | Some e =>
               let size := Z.of_nat (List.length (e_value e)) in
               let length := if length <? 0 then size - offset else length in
               if (size <? offset) || (size <? wrap_s 64 (offset + length))
               then ([], Some (InvalidRange offset length size))
               else (e_value e, None)
           end
  end.

(** Values the store library returns with its plain [Get]. *)
Definition readable (m : gmap bytes entry) (key : bytes) : Prop :=
  ∀ e, m !! CString key = Some e -> e_value e <> [] /\ Z.of_nat (length (e_value e)) <= 2 ^ 30.

Lemma runs_getObject b o off len w :
  ready w -> small_meta (view (w_drive w)) -> readable (view (w_drive w)) (b ++ str "/" ++ o) ->
  runs (getObject b o off len true) (λ r d t, d = w_drive w /\ t = w_tick w /\
    r = get_spec (view (w_drive w)) b o off len) w.
Proof.
  intros Hw Hm Hr. unfold getObject, get_spec. eapply runs_bind; [done|by apply runs_statBucketDir|].
  intros [kv err] w1 Hw1 _ (Ed & Et & E). rewrite <- Ed in Hm, Hr, E |- *. rewrite <- Et.
  clear Hw Ed Et w. destruct (bucket_record _ _); simplify_eq; [|by apply runs_ret].
  destruct (off <? 0); [by apply runs_ret|]. cbn [negb].
  destruct (HasSuffix o SlashSeparator); [by apply runs_ret|]. wp_steps.
  apply wp_CGet_all; wsimpl; [intros e He; by eapply Hr| |]; intros e He; rewrite He; wp_steps.
  - destruct (_ || _).
    + wp_steps. split; [same_now|done].
    + wp_steps. apply wp_cslice; [by eapply Hr|]. wp_steps. split; [same_now|done].
  - split; [same_now|done].
Qed.

Lemma runs_GetObject b o off len w :
  ready w -> small_meta (view (w_drive w)) -> readable (view (w_drive w)) (b ++ str "/" ++ o) ->
  runs (GetObject b o off len true) (λ r d t, d = w_drive w /\ t = w_tick w /\
    match checkGetObjArgs b o with
    | Some e => r = ([], Some e)
    | None => (lockable w b o true -> r = get_spec (view (w_drive w)) b o off len) /\
              (~ lockable w b o true -> r = ([], Some OperationTimedOut))
    end) w.
Proof.
  intros Hw Hm Hr. unfold GetObject. destruct (checkGetObjArgs b o); [by apply runs_ret|].
  eapply runs_mono; [apply (runs_locked_counted _ _ _ _ _ (λ r d t, d = w_drive w /\ t = w_tick w /\
    r = get_spec (view (w_drive w)) b o off len)); [done|]|].
  - intros w2 Hw2 Ed2 Et2 _ _. rewrite <- Ed2 in Hm, Hr |- *. rewrite <- Et2. by apply runs_getObject.
  - simpl. intros a d t [Ha Hn]. destruct (decide (lockable w b o true)) as [Hl|Hl].
    + destruct (Ha Hl) as (? & ? & ?). tauto.
    + destruct (Hn Hl) as (? & ? & ?). tauto.
Qed.

(** ** DELETE *)

(** The keys of the parts of an object. *)
Definition part_key (objKey version : bytes) (p : ObjectPartInfo) : bytes :=
  objKey ++ str "." ++ version ++ str "."
    ++ encodePartFile (part_Number p) (part_ETag p) (part_ActualSize p).

(** [m'] is [m] with some of the keys [ks] removed. *)
Definition pruned (ks : list bytes) (m m' : gmap bytes entry) : Prop :=
  m' ⊆ m /\ ∀ k, k ∉ ks -> m' !! k = m !! k.

Lemma pruned_refl ks m : pruned ks m m.
Proof. done. Qed.

Lemma pruned_delete ks m k s : CString k ∈ ks -> pruned ks m (delete_result m k s).
Proof.
  intros Hk. unfold delete_result. case_decide; [|done]. split; [apply delete_subseteq|].
  intros k' Hk'. apply lookup_delete_ne. congruence.
Qed.

Lemma pruned_trans ks m1 m2 m3 : pruned ks m1 m2 -> pruned ks m2 m3 -> pruned ks m1 m3.
Proof.
  intros [H5 H6] [H7 H8]. split; [by etrans|]. intros k Hk. by rewrite H8, H6.
Qed.

Lemma pruned_mono ks ks' m m' : ks ⊆ ks' -> pruned ks m m' -> pruned ks' m m'.
Proof. intros Hk [H5 H6]. split; [done|]. intros k Hk'. apply H6. set_solver. Qed.

(** The drive deletes every key that it has when it is asked to. *)
Definition deletes_stored : Prop := ∀ d k, is_Some (view d !! k) -> (C_Delete d k).2 = 0.

Lemma wp_Delete_gone key (Q : option error -> World -> Prop) w :
  (∀ d s, view d = delete_result (view (w_drive w)) key s ->
     (deletes_stored -> view d !! CString key = None) -> Q (toKineticError s) (set_drive d w)) ->
  wp (Delete key) Q w.
Proof.
  intros HQ. unfold Delete, cDelete. apply wp_bind, wp_drive_write. intros d s E. apply wp_ret.
  pose proof (Delete_spec (w_drive w) (CString key)) as Hd. rewrite E in Hd. apply HQ; [done|].
  intros Hr. specialize (Hr (w_drive w) (CString key)). rewrite E in Hr. cbn [snd] in Hr.
  rewrite Hd. unfold delete_result. destruct (view (w_drive w) !! CString key) eqn:Ek.
  - rewrite decide_True by (apply Hr; eauto). apply lookup_delete_eq.
  - case_decide; [apply lookup_delete_eq|done].
Qed.

Lemma pruned_gone ks m m' k : pruned ks m m' -> m !! k = None -> m' !! k = None.
Proof. intros [Hs _] Hk. by eapply lookup_weaken_None. Qed.

Lemma wp_delete_part_keys key version parts (Q : unit -> World -> Prop) w :
  (∀ d, pruned (CString ∘ part_key key version <$> parts) (view (w_drive w)) (view d) ->
     (deletes_stored -> ∀ k, k ∈ (CString ∘ part_key key version <$> parts) -> view d !! k = None) ->
     Q tt (set_drive d w)) ->
  wp (delete_part_keys key version parts) Q w.
Proof.
  revert w. induction parts as [|p parts IH]; intros w HQ; simpl.
  - apply wp_ret. specialize (HQ (w_drive w)). destruct w. apply HQ; [done|]. by intros _ k ?%elem_of_nil.
  - apply wp_bind, wp_Delete_gone. intros d s Hd Hg. apply IH. intros d' Hd' Hg'. wsimpl in Hd'. apply HQ.
    + rewrite Hd in Hd'. eapply pruned_trans; [by eapply pruned_delete, list_elem_of_here|].
      eapply pruned_mono; [|exact Hd']. set_solver.
    + intros Hr k. cbn [fmap list_fmap]. rewrite elem_of_cons. intros [->|Hk]; [|by apply Hg'].
      eapply pruned_gone; [exact Hd'|]. by apply Hg.
Qed.

(** The metadata [DeleteObject] finds. *)
Definition delete_meta (m : gmap bytes entry) (key : bytes) : option fsMetaV1 :=
  (λ e, (json_Unmarshal (e_meta e) zeroFsMeta).1) <$> m !! CString key.

(** Nothing but the object's key and the keys of its parts is removed; when success
    is reported the object is gone; and unless the drive refuses to delete a key,
    so are the parts. *)
Definition delete_post (m : gmap bytes entry) (key : bytes) (res : option error)
    (m' : gmap bytes entry) : Prop :=
  match delete_meta m key with
  | None => res = Some errFileNotFound /\ m' = m
  | Some fsMeta =>
      let parts := CString ∘ part_key key (mget (Meta fsMeta) (str "version")) <$> Parts fsMeta in
      pruned (CString key :: parts) m m' /\ (res = None -> m' !! CString key = None) /\
      (deletes_stored -> ∀ k, k ∈ CString key :: parts -> m' !! k = None)
  end.

Lemma runs_DeleteObject b o w :
  ready w -> small_meta (view (w_drive w)) ->
  runs (DeleteObject b o) (or_timeout w b o false Some (λ res d t,
    match checkDelObjArgs b o with
    | Some e => res = Some e /\ d = w_drive w
    | None => delete_post (view (w_drive w)) (makeKey b o) res (view d)
    end)) w.
Proof.
  intros Hw Hm. unfold DeleteObject. apply runs_locked_counted; [done|].
  intros w1 Hw1 Ed _ _ _. rewrite <- Ed in Hm |- *. clear Hw Ed w.
  destruct (checkDelObjArgs b o); [by apply runs_ret|]. unfold delete_post, delete_meta.
  wp_steps; rewrite Emeta; cbn [fmap option_fmap option_map].
  2: { split; [same_now|done]. }
  apply wp_cslice; [by eapply Hm|]. wp_steps. set (fsMeta := (json_Unmarshal _ _).1).
  destruct (Parts fsMeta) as [|pt ps].
  - apply wp_bind, wp_Delete_gone. wsimpl. intros d s Edel Hg. destruct (toKineticError s) eqn:Es.
    + wp_steps. split; [same_now|]. split_and!; [|done|].
      * rewrite Edel. by eapply pruned_delete, list_elem_of_here.
      * intros Hr k ->%list_elem_of_singleton. by apply Hg.
    + wp_steps. split; [same_now|]. apply toKineticError_None in Es. subst s.
      assert (view d !! CString (makeKey b o) = None) as Hgone.
      { rewrite Edel. unfold delete_result. rewrite decide_True by done. apply lookup_delete_eq. }
      assert (pruned [CString (makeKey b o)] (view d) (view d0)) as Hp.
      { rewrite Edel0. by eapply pruned_delete, list_elem_of_here. }
      split_and!.
      * eapply pruned_trans; [|exact Hp]. rewrite Edel. by eapply pruned_delete, list_elem_of_here.
      * intros _. by eapply pruned_gone.
      * intros _ k ->%list_elem_of_singleton. by eapply pruned_gone.
  - apply wp_bind, wp_delete_part_keys. wsimpl. intros d Hd Hg. apply wp_bind, wp_Delete_gone. wsimpl.
    intros d' s Edel Hg'. wp_steps. split; [same_now|].
    assert (pruned [CString (makeKey b o)] (view d) (view d')) as Hp.
    { rewrite Edel. by eapply pruned_delete, list_elem_of_here. }
    split_and!.
    + eapply pruned_trans; [eapply pruned_mono; [|exact Hd]; set_solver|].
      eapply pruned_mono; [|exact Hp]. set_solver.
    + intros Es%toKineticError_None. rewrite Edel. unfold delete_result. rewrite decide_True by done. apply lookup_delete_eq.
    + intros Hr k [->|Hk]%elem_of_cons; [by apply Hg'|]. eapply pruned_gone; [exact Hp|]. by apply Hg.
Qed.

End spec.
