(* ===== verification/Listing.v ===== *)
(** * Listing and deleting buckets: cmd/kinetic.go

    [ListObjects] pages through the keys of a bucket with a delimiter and a
    marker; [listObjects], the walker behind [Walk], sends every visible object
    of a bucket to a channel; [DeleteBucket] empties a bucket through a walker
    and deletes its record.  The walker and its consumer share an unbuffered
    channel, so the walker is modelled as a generator that runs when the consumer
    receives. *)
From S2P Require Import Prelude GoLib IncStr Errors Metadata NsLock Pool Drive World HashReader.
From S2P Require Import HttpRange Client Names Buckets Objects.

Record ListObjectsInfo := mkListObjectsInfo {
  loi_IsTruncated : bool;
  loi_NextMarker : bytes;
  loi_Objects : list ObjectInfo;
  loi_Prefixes : list bytes }.

Definition zeroListObjectsInfo : ListObjectsInfo := mkListObjectsInfo false [] [] [].

Record ListObjectsV2Info := mkListObjectsV2Info {
  lv2_IsTruncated : bool;
  lv2_ContinuationToken : bytes;
  lv2_NextContinuationToken : bytes;
  lv2_Objects : list ObjectInfo;
  lv2_Prefixes : list bytes }.

Definition set_dir (oi : ObjectInfo) (name : bytes) : ObjectInfo :=
  mkObjectInfo (oi_Bucket oi) name (oi_ModTime oi) (oi_Size oi) true (oi_ETag oi)
    (oi_ContentType oi) (oi_ContentEncoding oi) (oi_Expires oi) (oi_StorageClass oi)
    (oi_UserDefined oi) (oi_UserTags oi) (oi_Parts oi) (oi_metadataOnly oi) (oi_Hidden oi).

Definition maxKeyRange : Z := 400.
Definition maxObjectList : nat := Z.to_nat 10000.

Section listing.
Context `{KineticDrive} `{LRWMutex} `{MetaCodec} `{MetaEnv} `{OSEnv}.

(** ** ListObjects *)

(** What is collected while the keys are scanned: objects, common prefixes and
    the number of keys still wanted. *)
Record scan := mkScan { sc_objects : list ObjectInfo; sc_prefixes : list bytes; sc_remain : Z }.

(** One visible object of a listing with a delimiter. *)
Definition list_dir_entry (prefixDir afterPrefixDir : bytes) (objInfo : ObjectInfo) (s : scan) : scan :=
  let split := Split afterPrefixDir "/"%char in
  let objInfo :=
    if (1 <? length split)%nat
    then set_dir objInfo (prefixDir ++ default [] (head split) ++ SlashSeparator)
    else objInfo in
  if oi_IsDir objInfo then
    if decide (oi_Name objInfo ∈ sc_prefixes s) then s
    else mkScan (sc_objects s) (sc_prefixes s ++ [oi_Name objInfo]) (sc_remain s - 1)
  else mkScan (sc_objects s ++ [objInfo]) (sc_prefixes s) (sc_remain s - 1).

(** The loop over the keys of one page. *)
Fixpoint list_page (bucket prefixDir : bytes) (matcher : option bytes) (recursive : bool)
    (keys : list bytes) (s : scan) : M (scan * option error) :=
  match keys with
  | [] => mret (s, None)
  | key :: keys' =>
      if match matcher with
         | Some regexpStr => negb (bool_decide (regexp_MatchString regexpStr key = Some true))
         | None => false
         end
      then list_page bucket prefixDir matcher recursive keys' s
      else
        name ← slice_from (length (bucket ++ SlashSeparator)) key;
        '(objInfo, err) ← getObjectInfo bucket name;
        match err with
        | Some e => mret (s, Some e)
        | None =>
            s ← (if oi_Hidden objInfo then
                   mret (mkScan (sc_objects s) (sc_prefixes s) (sc_remain s - 1))
                 else if (recursive : bool) then
                   mret (mkScan (sc_objects s ++ [objInfo]) (sc_prefixes s) (sc_remain s - 1))
                 else
                   afterPrefixDir ← slice_from (length prefixDir) name;
                   mret (list_dir_entry prefixDir afterPrefixDir objInfo s));
            list_page bucket prefixDir matcher recursive keys' s
        end
  end.

(** The loop over pages; [None] for the scan stands for an error return. *)
Fixpoint list_loop (fuel : nat) (bucket prefixDir : bytes) (matcher : option bytes) (recursive : bool)
    (startKey endKey : bytes) (bStartKeyInclusive : bool) (s : scan)
  : M (scan * bytes * option error) :=
  match fuel with
  | O => out_of_fuel
  | S fuel' =>
      if sc_remain s <=? 0 then mret (s, startKey, None)
      else
        _ ← kineticMutex_Lock;
        kc ← GetKineticConnection;
        keys ← CGetKeyRange startKey endKey bStartKeyInclusive true (wrap_u 32 (sc_remain s));
        _ ← releaseConnection kc;
        _ ← kineticMutex_Unlock;
        let bDone := Z.of_nat (length keys) <? sc_remain s in
        '(s, err) ← list_page bucket prefixDir matcher recursive keys s;
        match err with
        | Some e => mret (s, startKey, Some e)
        | None =>
            let startKey := default startKey (last keys) in
            if (bDone : bool) then mret (s, startKey, None)
            else list_loop fuel' bucket prefixDir matcher recursive startKey endKey false s
        end
  end.

(** The directory part of a prefix: up to and including its last slash. *)
Definition prefix_dir (prefix : bytes) : bytes :=
  match LastIndex prefix "/"%char with
  | Some lastIndex => take (S lastIndex) prefix
  | None => []
  end.

(** The regular expression for a prefix with "*" wildcards; [None] when the
    prefix has none. *)
Definition list_matcher (bucketPrefix prefix : bytes) : option bytes :=
  let prefixParts := Split prefix "*"%char in
  if (length (default [] (head prefixParts)) <? length prefix)%nat
  then Some (foldl (λ re part, re ++ str ".*" ++ part) bucketPrefix prefixParts)
  else None.

Definition ListObjects (fuel : nat) (bucket prefix marker delimiter : bytes) (maxKeys : Z)
  : M (ListObjectsInfo * option error) :=
  counted (
    let recursive := negb (bool_decide (delimiter = SlashSeparator)) in
    let prefixPart0 := default [] (head (Split prefix "*"%char)) in
    let bucketPrefix := bucket ++ SlashSeparator in
    let startKey := if decide (marker = []) then bucketPrefix ++ prefixPart0
                    else bucketPrefix ++ marker in
    let endKey := IncStr (bucketPrefix ++ prefixPart0) in
    let nRemainKeys := if maxKeyRange <? maxKeys then maxKeyRange else maxKeys in
    '(s, startKey, err) ← list_loop fuel bucket (prefix_dir prefix) (list_matcher bucketPrefix prefix)
                            recursive startKey endKey true (mkScan [] [] nRemainKeys);
    match err with
    | Some e => mret (zeroListObjectsInfo, Some e)
    | None =>
        if (0 <? sc_remain s) || (maxKeys <=? maxKeyRange)
        then mret (mkListObjectsInfo false [] (sc_objects s) (sc_prefixes s), None)
        else
          nextMarker ← slice_from (length bucketPrefix) (IncStr startKey);
          mret (mkListObjectsInfo true nextMarker (sc_objects s) (sc_prefixes s), None)
    end).

Definition ListObjectsV2 (fuel : nat) (bucket prefix continuationToken delimiter : bytes) (maxKeys : Z)
    (startAfter : bytes) : M (option ListObjectsV2Info * option error) :=
  let marker := if decide (continuationToken = []) then startAfter else continuationToken in
  '(loi, err) ← ListObjects fuel bucket prefix marker delimiter maxKeys;
  match err with
  | Some e => mret (None, Some e)
  | None => mret (Some (mkListObjectsV2Info (loi_IsTruncated loi) continuationToken
                          (loi_NextMarker loi) (loi_Objects loi) (loi_Prefixes loi)), None)
  end.

(** ** The walker behind Walk *)

(** The walker between two sends: the keys of the page still to be handled,
    whether another page follows, and the range of the next request. *)
Record walker := mkWalker {
  wk_pending : list bytes; wk_more : bool; wk_start : bytes; wk_end : bytes }.

Definition walk_start (bucket prefix : bytes) : walker :=
  mkWalker [] true (bucket ++ str "/" ++ prefix) (bucket ++ str "0").

Definition walk_closed : walker := mkWalker [] false [] [].

(** [key[a:b]] of the byte slice of a string: up to the capacity, beyond the
    length there are zero bytes. *)
Definition slice_cap (a b : nat) (key : bytes) : M bytes :=
  if decide (a <= b <= Nat.max (length key) (env_cap (length key)))%nat
  then mret (drop a (take b (key ++ replicate b (ascii_of_N 0)))) else panic.

(** How the delimiter turns an object into a directory entry. *)
Definition walk_entry (prefix delimiter rest : bytes) (objInfo : ObjectInfo) : ObjectInfo :=
  if decide (delimiter <> SlashSeparator) then objInfo
  else if decide (prefix <> [] /\ HasSuffix prefix SlashSeparator = false)
  then set_dir objInfo (prefix ++ SlashSeparator)
  else
    let result := Split rest "/"%char in
    if (1 <? length result)%nat
    then set_dir objInfo (prefix ++ default [] (head result) ++ SlashSeparator)
    else objInfo.

(** Run the walker up to its next send, or until it closes the channel
    ([None]).  An error of the store or of [getObjectInfo] ends the walk; [Walk]
    drops it. *)
Fixpoint walk_next (fuel : nat) (bucket prefix delimiter : bytes) (wk : walker)
  : M (option ObjectInfo * walker) :=
  match fuel with
  | O => out_of_fuel
  | S fuel' =>
      match wk_pending wk with
      | key :: keys =>
          let wk' := mkWalker keys (wk_more wk) (wk_start wk) (wk_end wk) in
          let n := S (length bucket) in
          p ← slice_cap n (n + length prefix)%nat key;
          if decide (prefix = p) then
            name ← slice_from n key;
            '(objInfo, err) ← getObjectInfo bucket name;
            match err with
            | Some _ => mret (None, walk_closed)
            | None =>
                if oi_Hidden objInfo then walk_next fuel' bucket prefix delimiter wk'
                else mret (Some (walk_entry prefix delimiter (drop (length prefix) name) objInfo), wk')
            end
          else walk_next fuel' bucket prefix delimiter wk'
      | [] =>
          if wk_more wk then
            _ ← kineticMutex_Lock;
            kc ← GetKineticConnection;
            keys ← CGetKeyRange (wk_start wk) (wk_end wk) false true 800;
            _ ← releaseConnection kc;
            _ ← kineticMutex_Unlock;
            walk_next fuel' bucket prefix delimiter
              (mkWalker keys (800 <=? length keys)%nat (default [] (last keys)) [])
          else mret (None, walk_closed)
      end
  end.

(** [for obj := range objInfoCh]: receive until the channel is closed or [n]
    names are collected. *)
Fixpoint walk_collect (n fuel : nat) (bucket : bytes) (wk : walker) (objects : list bytes)
  : M (list bytes * walker) :=
  match n with
  | O => mret (objects, wk)
  | S n' =>
      '(obj, wk) ← walk_next fuel bucket [] [] wk;
      match obj with
      | None => mret (objects, wk)
      | Some oi => walk_collect n' fuel bucket wk (objects ++ [oi_Name oi])
      end
  end.

(** ** DeleteBucket *)
Definition isBucketEmpty (fuel : nat) (bucket : bytes) : M (bool * option error) :=
  '(objLst, err) ← ListObjects fuel bucket [] [] [] 1;
  match err with
  | Some e => mret (false, Some e)
  | None => mret (bool_decide (loi_Objects objLst = []) && bool_decide (loi_Prefixes objLst = []), None)
  end.

(** The last error of a batch of deletions. *)
Definition last_error (lastErr : option error) (errs : list (option error)) : option error :=
  foldl (λ l e, match e with Some _ => e | None => l end) lastErr errs.

(** Empty the bucket batch by batch; [fuel] bounds the batches. *)
Fixpoint delete_batches (fuel wfuel : nat) (bucket : bytes) (wk : walker) (lastErr : option error)
  : M (option error) :=
  match fuel with
  | O => out_of_fuel
  | S fuel' =>
      '(objects, wk) ← walk_collect maxObjectList wfuel bucket wk [];
      match objects with
      | [] => mret lastErr
      | _ =>
          deleteErrs ← DeleteObjects bucket objects;
          delete_batches fuel' wfuel bucket wk (last_error lastErr deleteErrs)
      end
  end.

Definition DeleteBucket (fuel : nat) (bucket : bytes) : M (option error) :=
  with_lock false (NewNSLock bucket [[]]) Some (counted (
  '(empty, err) ← isBucketEmpty fuel bucket;
  match err with
  | Some e => mret (Some e)
  | None =>
      if negb empty then mret (Some errBucketNotEmpty)
      else
        lastErr ← delete_batches fuel fuel bucket (walk_start bucket []) None;
        match lastErr with
        | Some e => mret (Some e)
        | None =>
            _ ← kineticMutex_Lock;
            kc ← GetKineticConnection;
            err ← Delete (bucket_key bucket);
            err ← match err with
                  | None => Delete (str "bucketKey")
                  | Some e => mret (Some e)
                  end;
            _ ← releaseConnection kc;
            _ ← kineticMutex_Unlock;
            mret err
        end
  end)).

End listing.
