(* ===== verification/ListingSpec.v ===== *)
(** * What listings return *)
From S2P Require Import Prelude GoLib IncStr Errors Metadata NsLock Pool Drive World HashReader.
From S2P Require Import HttpRange Client Names Buckets Objects ObjectsSpec Listing.

Section spec.
Context `{KineticDrive} `{LRWMutex} `{MetaCodec} `{MetaEnv} `{OSEnv}.
Context `{!KineticDriveSpec _} `{!LRWMutexLaws _} `{!MetaCodecLaws _}.

(** ** One page *)

(** The information of the object with a given key. *)
Definition key_info (m : gmap bytes entry) (bucket key : bytes) : ObjectInfo :=
  (object_info m bucket (drop (length (bucket ++ SlashSeparator)) key)).1.

Definition scan_step (m : gmap bytes entry) (bucket prefixDir : bytes) (recursive : bool)
    (s : scan) (key : bytes) : scan :=
  let name := drop (length (bucket ++ SlashSeparator)) key in
  let oi := key_info m bucket key in
  if oi_Hidden oi then mkScan (sc_objects s) (sc_prefixes s) (sc_remain s - 1)
  else if recursive then mkScan (sc_objects s ++ [oi]) (sc_prefixes s) (sc_remain s - 1)
  else list_dir_entry prefixDir (drop (length prefixDir) name) oi s.

(** A key a listing can turn into an object: it is long enough for the bucket's
    prefix and the directory, and its metadata decodes. *)
Definition listable (m : gmap bytes entry) (bucket prefixDir key : bytes) : Prop :=
  (length (bucket ++ SlashSeparator ++ prefixDir) <= length key)%nat /\
  (object_info m bucket (drop (length (bucket ++ SlashSeparator)) key)).2 = None.

Lemma wp_slice_from n s (Q : bytes -> World -> Prop) w :
  (n <= length s)%nat -> Q (drop n s) w -> wp (slice_from n s) Q w.
Proof. intros Hn HQ. unfold slice_from. by rewrite decide_True. Qed.

Lemma runs_slice_from {B} n s (f : bytes -> M B) R w :
  (n <= length s)%nat -> runs (f (drop n s)) R w -> runs (slice_from n s ≫= f) R w.
Proof. intros Hn HR. unfold slice_from. by rewrite decide_True. Qed.

Lemma runs_list_page b prefixDir recursive keys s w :
  ready w -> small_meta (view (w_drive w)) ->
  Forall (listable (view (w_drive w)) b prefixDir) keys ->
  runs (list_page b prefixDir None recursive keys s) (λ r d t, d = w_drive w /\ t = w_tick w /\
    r = (foldl (scan_step (view (w_drive w)) b prefixDir recursive) s keys, None)) w.
Proof.
  intros Hw Hm Hk. revert s w Hw Hm Hk.
  induction keys as [|key keys IH]; intros s w Hw Hm Hk; [by apply runs_ret|].
  apply Forall_cons in Hk as [[Hlen Hinfo] Hk']. cbn [list_page].
  set (n := length (b ++ SlashSeparator)) in *. rewrite app_assoc, length_app in Hlen. fold n in Hlen.
  apply runs_slice_from; [lia|].
  eapply runs_bind; [done|by apply runs_getObjectInfo|].
  intros [oi err] w2 Hw2 _ (Ed & Et & E).
  rewrite <- Ed in Hm, Hk', Hinfo, E |- *. rewrite <- Et. clear Ed Et Hw w.
  assert (err = None) as -> by (rewrite <- E in Hinfo; done).
  assert (oi = key_info (view (w_drive w2)) b key) as Hoi.
  { unfold key_info. fold n. by rewrite <- E. }
  cbn [foldl]. unfold scan_step at 2. fold n. rewrite <- Hoi.
  destruct (oi_Hidden oi); [|destruct recursive].
  - apply runs_ret_bind. by apply IH.
  - apply runs_ret_bind. by apply IH.
  - apply runs_assoc, runs_slice_from; [rewrite length_drop; lia|].
    apply runs_ret_bind. by apply IH.
Qed.

(** ** The whole listing *)

(** The stored keys that extend [p], in order. *)
Definition under (m : gmap bytes entry) (p : bytes) : list bytes :=
  filter (λ k, p `prefix_of` k) (sorted_keys m).

(** A prefix whose range of keys ends before its increment. *)
Definition range_prefix (p : bytes) : Prop :=
  no_nul p /\ exists s c, p = s ++ [c] /\ N_of_ascii c <> 255%N.

Lemma no_nul_IncStr p : range_prefix p -> no_nul (IncStr p) /\ IncStr p <> [].
Proof.
  intros [Hn (s & c & -> & Hc)]. rewrite IncStr_snoc by done. split; [|by destruct s].
  unfold no_nul in *. apply not_elem_of_app in Hn as [H5 H6]. apply not_elem_of_app. split; [done|].
  rewrite list_elem_of_singleton. intros E. apply (f_equal N_of_ascii) in E.
  rewrite byte_succ_N in E by done. rewrite N_ascii_embedding in E by lia. lia.
Qed.

(** The key range [ListObjects] asks for, when the key after the prefix is not
    stored. *)
Lemma keys_under m p n :
  range_prefix p -> m !! IncStr p = None -> (length (under m p) < Z.to_nat n)%nat ->
  keys_in_range m p (IncStr p) true true n = under m p.
Proof.
  intros [_ (s & c & -> & Hc)] Hm Hn. unfold keys_in_range.
  assert (filter (λ k, in_range (s ++ [c]) (IncStr (s ++ [c])) true true k = true) (sorted_keys m)
          = under m (s ++ [c])) as ->.
  { unfold under. apply filter_ext_in. apply Forall_forall. intros k Hk.
    rewrite prefix_range_inclusive by done. split; [|by auto]. intros [?| ->]; [done|].
    apply elem_of_sorted_keys in Hk as [e He]. congruence. }
  apply take_ge. lia.
Qed.

Lemma scan_remain m b pd rc ks s :
  sc_remain s - Z.of_nat (length ks) <= sc_remain (foldl (scan_step m b pd rc) s ks).
Proof.
  revert s. induction ks as [|k ks IH]; intros s; [simpl; lia|].
  cbn [foldl length]. specialize (IH (scan_step m b pd rc s k)).
  assert (sc_remain s - 1 <= sc_remain (scan_step m b pd rc s k)); [|lia].
  unfold scan_step, list_dir_entry. repeat case_match; simpl; lia.
Qed.

Lemma scan_remain_le m b pd rc ks s : sc_remain (foldl (scan_step m b pd rc) s ks) <= sc_remain s.
Proof.
  revert s. induction ks as [|k ks IH]; intros s; [done|]. cbn [foldl]. etrans; [apply IH|].
  unfold scan_step, list_dir_entry. repeat case_match; simpl; lia.
Qed.

Lemma prefix_dir_prefix p : prefix_dir p `prefix_of` p.
Proof. unfold prefix_dir. case_match; [apply prefix_take|apply prefix_nil]. Qed.

Lemma Split_no_star p : "*"%char ∉ p -> Split p "*"%char = [p].
Proof. apply Split_no_sep. Qed.

(** *** The loop over the pages *)

(** The keys from [start] on, up to [stop], are [rest]. *)
Definition keys_from (m : gmap bytes entry) (start stop : bytes) (incl : bool) (rest : list bytes) : Prop :=
  filter (λ k, in_range start stop incl true k = true) (sorted_keys m) = rest.

Lemma keys_from_take m start stop incl rest n :
  keys_from m start stop incl rest -> keys_in_range m start stop incl true n = take (Z.to_nat n) rest.
Proof. unfold keys_from, keys_in_range. by intros ->. Qed.

Lemma StronglySorted_filter (P : bytes -> Prop) `{!∀ x, Decision (P x)} (l : list bytes) :
  StronglySorted ble l -> StronglySorted ble (filter P l).
Proof.
  induction 1 as [|x l Hl IH Hx]; [constructor|]. rewrite filter_cons. case_decide; [|done].
  constructor; [done|]. apply Forall_forall. intros y Hy. apply list_elem_of_filter in Hy as [_ Hy].
  rewrite Forall_forall in Hx. by apply Hx.
Qed.

(** In a sorted list without repetition, what follows an element is what is greater. *)
Lemma filter_greater (l1 l2 : list bytes) k :
  StronglySorted ble (l1 ++ k :: l2) -> NoDup (l1 ++ k :: l2) -> filter (λ x, blt k x) (l1 ++ k :: l2) = l2.
Proof.
  intros Hs Hnd. apply NoDup_app in Hnd as (_ & _ & Hnd). apply NoDup_cons in Hnd as [Hk _].
  apply StronglySorted_app in Hs as (Ha & _ & Hb). apply StronglySorted_inv in Hb as [_ Hb].
  assert (filter (λ x, blt k x) l1 = []) as E1.
  { apply elem_of_nil_inv. intros x Hx. apply list_elem_of_filter in Hx as [Hx Hin].
    specialize (Ha x k Hin ltac:(left)). apply ble_iff in Ha as [Ha| ->]; [|by apply (irreflexivity blt k)].
    apply (irreflexivity blt k). by etrans. }
  assert (filter (λ x, blt k x) l2 = l2) as E2.
  { apply filter_all, Forall_forall. intros x Hin. rewrite Forall_forall in Hb.
    destruct (proj1 (ble_iff _ _) (Hb x Hin)) as [Hx| <-]; done. }
  rewrite filter_app, filter_cons_False by (apply (irreflexivity blt)). by rewrite E1, E2.
Qed.

Lemma in_range_iff start stop incl x :
  in_range start stop incl true x = true <-> (if incl then ble start x else blt start x) /\ ble x stop.
Proof. unfold in_range. destruct incl; by rewrite andb_true_iff, !bool_decide_eq_true. Qed.

Lemma keys_from_next m start stop incl page k rest :
  keys_from m start stop incl (page ++ k :: rest) -> keys_from m k stop false rest.
Proof.
  unfold keys_from. intros E.
  assert (k ∈ filter (λ k, in_range start stop incl true k = true) (sorted_keys m)) as Hk by (rewrite E; set_solver).
  apply list_elem_of_filter in Hk as [Hk _].
  rewrite <- (filter_greater page rest k).
  - rewrite <- E, list_filter_filter. apply filter_ext_in, Forall_forall. intros x _.
    rewrite !in_range_iff in *. destruct Hk as [Hk _]. split; [|tauto]. intros [Ha Hb]. split_and!; [done| |done].
    destruct incl; [etrans; [exact Hk|]; apply ble_iff; by left|by etrans].
  - rewrite <- E. apply StronglySorted_filter, sorted_keys_sorted.
  - rewrite <- E. apply NoDup_filter, sorted_keys_NoDup.
Qed.

(** What the loop does from the state [s] over the keys [rest]: it scans the first
    [taken] of them, up to the first at which no more are wanted, or all. *)
Definition scanned (m : gmap bytes entry) (b pd : bytes) (rc : bool) (s : scan) (rest taken left : list bytes) : Prop :=
  rest = taken ++ left /\ 0 <= sc_remain (foldl (scan_step m b pd rc) s taken) /\
  (left = [] \/ sc_remain (foldl (scan_step m b pd rc) s taken) = 0) /\
  ∀ l k, taken = l ++ [k] -> 0 < sc_remain (foldl (scan_step m b pd rc) s l).

Lemma runs_list_loop fuel b pd rc start stop incl rest s w :
  ready w -> small_meta (view (w_drive w)) -> plain_store (view (w_drive w)) ->
  no_nul start -> no_nul stop -> stop <> [] ->
  keys_from (view (w_drive w)) start stop incl rest -> Forall (listable (view (w_drive w)) b pd) rest ->
  0 <= sc_remain s <= 400 -> (length rest < fuel)%nat ->
  runs (list_loop fuel b pd None rc start stop incl s) (λ r d t, d = w_drive w /\
    ∃ taken left, scanned (view (w_drive w)) b pd rc s rest taken left /\
      r = (foldl (scan_step (view (w_drive w)) b pd rc) s taken, default start (last taken), None)) w.
Proof.
  revert start incl rest s w. induction fuel as [|fuel IH];
    intros start incl rest s w Hw Hm Hp Hn1 Hn2 Hne Hfrom Hl Hr Hf; [lia|]. cbn [list_loop].
  destruct (Z.leb_spec (sc_remain s) 0) as [Hz|Hz].
  { apply runs_ret; [done|]. split; [done|]. exists [], rest. split; [|done].
    split_and!; [done|cbn; lia|right; cbn; lia|by intros []]. }
  rewrite (wrap_u_id 32) by lia. wp_steps.
  apply wp_CGetKeyRange; [by rewrite CString_id|done|lia|]. wsimpl. rewrite !CString_id by done.
  rewrite (keys_from_take _ _ _ _ _ _ Hfrom). wp_steps.
  set (r := Z.to_nat (sc_remain s)). set (page := take r rest). set (m := view (w_drive w)) in *.
  set (w2 := set_mutex false _).
  assert (same w w2) as Hs by (unfold w2; same_now). assert (ready w2) as Hw2 by eauto using ready_same.
  assert (w_drive w2 = w_drive w) as Ed2 by done.
  eapply wp_mono; [apply (runs_list_page b pd rc page s w2); [done|done|]|].
  { rewrite Ed2. by apply Forall_take. }
  rewrite Ed2. fold m. cbn beta. intros [s1 err] w3 (Hs3 & Ed3 & _ & E). injection E as -> ->.
  assert (ready w3) as Hw3 by eauto using ready_same.
  pose proof (same_trans _ _ _ Hs Hs3) as Hs13.
  set (s1 := foldl (scan_step m b pd rc) s page).
  assert (∀ l, (length l <= r)%nat -> 0 <= sc_remain (foldl (scan_step m b pd rc) s l)) as Hrem.
  { intros l Hlen. pose proof (scan_remain m b pd rc l s). unfold r in Hlen. lia. }
  assert (length page <= r)%nat as Hpl by (unfold page; rewrite length_take; lia).
  assert (∀ l k, page = l ++ [k] -> 0 < sc_remain (foldl (scan_step m b pd rc) s l)) as Hmin.
  { intros l k Hlk. pose proof (scan_remain m b pd rc l s) as Hx. rewrite Hlk, length_app in Hpl. cbn in Hpl.
    unfold r in Hpl. lia. }
  destruct (Z.ltb_spec (Z.of_nat (length page)) (sc_remain s)) as [Hdone|Hmore].
  - apply wp_ret. split; [done|]. split; [done|]. exists page, []. split; [|done]. split_and!.
    + unfold page in *. rewrite length_take in Hdone. rewrite app_nil_r, take_ge; [done|]. unfold r in *. lia.
    + by apply Hrem.
    + by left.
    + done.
  - assert (length page = r) as Hlen by (unfold r in *; lia).
    destruct (last page) as [k|] eqn:Ek.
    2: { apply last_None in Ek. rewrite Ek in Hlen. cbn in Hlen. unfold r in Hlen. lia. }
    apply last_Some in Ek as [page' Ek]. cbn [default from_option id].
    assert (rest = page' ++ k :: drop r rest) as Hrest.
    { rewrite <- (take_drop r rest) at 1. fold page. by rewrite Ek, <- app_assoc. }
    eapply wp_mono; [apply (IH k false (drop r rest) s1 w3)|].
    + done.
    + by rewrite Ed3.
    + by rewrite Ed3.
    + assert (k ∈ rest) as Hin by (rewrite Hrest; set_solver).
      unfold keys_from in Hfrom. rewrite <- Hfrom in Hin. apply list_elem_of_filter in Hin as [_ Hin].
      apply elem_of_sorted_keys in Hin as [e He]. by apply (Hp k e).
    + done.
    + done.
    + rewrite Ed3. eapply keys_from_next. by rewrite <- Hrest.
    + rewrite Ed3. by apply Forall_drop.
    + split; [by apply Hrem|]. unfold s1. clear -Hr. enough (sc_remain (foldl (scan_step m b pd rc) s page) <= sc_remain s) by lia.
      apply scan_remain_le.
    + rewrite length_drop. unfold r. destruct rest; [|cbn [length] in *; lia]. cbn in Hlen. unfold page in Hlen. rewrite take_nil in Hlen. cbn in Hlen. unfold r in Hlen. lia.
    + rewrite Ed3. fold m. cbn beta. intros a w4 (Hs4 & Ed4 & taken & left & (Ha & Hb & Hc & Hd) & ->).
      split; [by eapply same_trans|]. split; [by rewrite Ed4|]. exists (page ++ taken), left. unfold scanned.
      rewrite !foldl_app. fold s1. split.
      * split_and!; [rewrite <- app_assoc, <- Ha; symmetry; apply take_drop|done|done|].
        intros l k' Hlk. destruct taken as [|x taken _] using rev_ind.
        -- rewrite app_nil_r in Hlk. by eapply Hmin.
        -- rewrite app_assoc in Hlk. apply app_inj_tail in Hlk as [<- <-]. rewrite foldl_app. fold s1. by eapply Hd.
      * f_equal. f_equal. rewrite last_app. destruct (last taken) eqn:El; [done|]. rewrite Ek, last_snoc. done.
Qed.

(** *** The whole listing *)

(** Where a listing starts. *)
Definition first_key (b prefix marker : bytes) : bytes :=
  b ++ SlashSeparator ++ (if decide (marker = []) then prefix else marker).
(** The stored keys that a listing runs over, in order: from its first key to the
    increment of the prefix, both included. *)
Definition listed_keys (m : gmap bytes entry) (b prefix marker : bytes) : list bytes :=
  filter (λ k, in_range (first_key b prefix marker) (IncStr (b ++ SlashSeparator ++ prefix)) true true k = true) (sorted_keys m).

(** From the start of the prefix, these are the keys below the prefix, unless the
    increment of the prefix is itself a key. *)
Lemma listed_under m b prefix :
  range_prefix (b ++ SlashSeparator ++ prefix) -> m !! IncStr (b ++ SlashSeparator ++ prefix) = None ->
  listed_keys m b prefix [] = under m (b ++ SlashSeparator ++ prefix).
Proof.
  intros Hr Hm. unfold listed_keys, first_key. rewrite decide_True by done.
  pose proof (keys_under m (b ++ SlashSeparator ++ prefix)
    (Z.of_nat (S (length (under m (b ++ SlashSeparator ++ prefix)) + length (sorted_keys m)))) Hr Hm ltac:(lia)) as E.
  unfold keys_in_range in E. rewrite take_ge in E; [done|]. etrans; [apply length_filter|]. lia.
Qed.

(** A marker continues a listing of the prefix. *)
Definition marker_ok (prefix marker : bytes) : Prop := no_nul marker /\ (marker = [] \/ prefix `prefix_of` marker).

Lemma listed_length m b prefix marker k :
  range_prefix (b ++ SlashSeparator ++ prefix) -> marker_ok prefix marker ->
  k ∈ listed_keys m b prefix marker -> (length (b ++ SlashSeparator ++ prefix) <= length k)%nat.
Proof.
  intros [_ (x & c & E & Hc)] [_ Hmk] Hk. apply list_elem_of_filter in Hk as [Hk _].
  assert (in_range (x ++ [c]) (IncStr (x ++ [c])) true true k = true) as Hr.
  { rewrite <- E. apply in_range_iff in Hk as [Ha Hb]. apply in_range_iff. split; [|done]. etrans; [|exact Ha].
    unfold first_key. case_decide; [reflexivity|]. destruct Hmk as [|[y ->]]; [done|].
    rewrite !app_assoc. apply ble_app. }
  apply prefix_range_inclusive in Hr; [|done]. rewrite E. destruct Hr as [Hp| ->]; [by apply prefix_length|].
  by rewrite IncStr_length.
Qed.

Definition page_size (maxKeys : Z) : Z := Z.min maxKeys maxKeyRange.

(** The result of a listing that has scanned the keys [taken]. *)
Definition listing_result (b prefix marker : bytes) (maxKeys : Z) (s : scan) (taken : list bytes) : ListObjectsInfo :=
  if decide (sc_remain s = 0 /\ maxKeyRange < maxKeys)
  then mkListObjectsInfo true (drop (length (b ++ SlashSeparator)) (IncStr (default (first_key b prefix marker) (last taken))))
         (sc_objects s) (sc_prefixes s)
  else mkListObjectsInfo false [] (sc_objects s) (sc_prefixes s).

Lemma runs_ListObjects fuel b prefix marker delim maxKeys w :
  let m := view (w_drive w) in
  let keys := listed_keys m b prefix marker in
  let rc := negb (bool_decide (delim = SlashSeparator)) in
  ready w -> small_meta m -> plain_store m -> (length keys < fuel)%nat ->
  "*"%char ∉ prefix -> range_prefix (b ++ SlashSeparator ++ prefix) -> marker_ok prefix marker -> 0 < maxKeys ->
  Forall (λ k, (object_info m b (drop (length (b ++ SlashSeparator)) k)).2 = None) keys ->
  runs (ListObjects fuel b prefix marker delim maxKeys) (λ r d t, d = w_drive w /\
    ∃ taken left, scanned m b (prefix_dir prefix) rc (mkScan [] [] (page_size maxKeys)) keys taken left /\
      r = (listing_result b prefix marker maxKeys
             (foldl (scan_step m b (prefix_dir prefix) rc) (mkScan [] [] (page_size maxKeys)) taken) taken, None)) w.
Proof.
  intros m keys rc Hw Hm Hp Hf Hstar Hr Hmk Hmax Hinfo. unfold ListObjects.
  apply runs_counted; [done|]. intros w1 Hw1 Ed _ _ _.
  rewrite <- Ed. unfold keys, m in *. clear keys m. rewrite <- Ed in Hm, Hp, Hf, Hinfo |- *. clear Ed Hw w.
  rewrite Split_no_star by done. cbn [head default from_option id].
  assert (list_matcher (b ++ SlashSeparator) prefix = None) as ->.
  { unfold list_matcher. rewrite Split_no_star by done.
    cbn [head default from_option id]. by rewrite Nat.ltb_irrefl. }
  set (m := view (w_drive w1)) in *. set (keys := listed_keys m b prefix marker) in *.
  assert ((if maxKeyRange <? maxKeys then maxKeyRange else maxKeys) = page_size maxKeys) as ->.
  { unfold page_size. destruct (Z.ltb_spec maxKeyRange maxKeys); lia. }
  assert ((if decide (marker = []) then (b ++ SlashSeparator) ++ prefix else (b ++ SlashSeparator) ++ marker)
          = first_key b prefix marker) as ->.
  { unfold first_key. case_decide; by rewrite <- app_assoc. }
  rewrite <- (app_assoc b SlashSeparator prefix).
  destruct (no_nul_IncStr _ Hr) as [Hn1 Hn2].
  assert (no_nul (first_key b prefix marker)) as Hn3.
  { destruct Hr as [Hn _], Hmk as [Hn' _]. unfold first_key, no_nul in *. case_decide; [done|]. rewrite !not_elem_of_app in *. tauto. }
  assert (0 < page_size maxKeys <= 400) as Hps by (unfold page_size, maxKeyRange; lia).
  eapply runs_bind; [done|apply (runs_list_loop _ b (prefix_dir prefix) rc _ _ _ keys); try done|].
  - apply Forall_forall. intros k Hk. split; [|by rewrite Forall_forall in Hinfo; apply Hinfo].
    etrans; [|by eapply listed_length]. rewrite !length_app.
    pose proof (prefix_length _ _ (prefix_dir_prefix prefix)). lia.
  - cbn [sc_remain]. lia.
  - cbn beta. intros r w2 Hw2 _ (Ed & taken & left & Hsc & ->). fold m. cbn beta iota.
    pose proof Hsc as (Hk & Hpos & _ & _). set (s := foldl _ _ taken) in *.
    assert (negb ((0 <? sc_remain s) || (maxKeys <=? maxKeyRange)) = bool_decide (sc_remain s = 0 /\ maxKeyRange < maxKeys)) as Eb.
    { apply eq_true_iff_eq. rewrite negb_true_iff, orb_false_iff, Z.ltb_ge, Z.leb_gt, bool_decide_eq_true. lia. }
    destruct ((0 <? sc_remain s) || _); cbn [negb] in Eb; symmetry in Eb; rewrite ?bool_decide_eq_true, ?bool_decide_eq_false in Eb.
    + apply runs_ret; [done|]. split; [done|]. exists taken, left. split; [done|]. unfold listing_result. fold s. by rewrite decide_False.
    + apply runs_slice_from; [|apply runs_ret; [done|]; split; [done|]; exists taken, left; split; [done|];
        unfold listing_result; fold s; by rewrite decide_True].
      rewrite IncStr_length. destruct (last taken) as [k|] eqn:El; cbn [default from_option id].
      * etrans; [|eapply (listed_length m b prefix marker k Hr Hmk)]; [rewrite !length_app; lia|].
        fold keys. rewrite Hk. apply last_Some in El as [l ->]. set_solver.
      * unfold first_key. rewrite !length_app. lia.
Qed.

(** ** What a listing without a delimiter holds *)
Definition visible (m : gmap bytes entry) (b k : bytes) : Prop := oi_Hidden (key_info m b k) = false.

#[export] Instance visible_dec m b k : Decision (visible m b k).
Proof. unfold visible. apply _. Defined.

Lemma scan_recursive m b pd ks s :
  sc_objects (foldl (scan_step m b pd true) s ks)
  = sc_objects s ++ (key_info m b <$> filter (visible m b) ks) /\
  sc_prefixes (foldl (scan_step m b pd true) s ks) = sc_prefixes s.
Proof.
  revert s. induction ks as [|k ks IH]; intros s; [by rewrite app_nil_r|].
  cbn [foldl]. destruct (IH (scan_step m b pd true s k)) as [-> ->].
  rewrite filter_cons. unfold scan_step. cbn zeta. case_decide as Hv; unfold visible in Hv.
  - rewrite Hv, fmap_cons. cbn [sc_objects sc_prefixes]. by rewrite <- app_assoc.
  - by destruct (oi_Hidden (key_info m b k)).
Qed.

Lemma scan_recursive_remain m b pd ks s :
  sc_remain (foldl (scan_step m b pd true) s ks) = sc_remain s - Z.of_nat (length ks).
Proof.
  revert s. induction ks as [|k ks IH]; intros s; [cbn; lia|]. cbn [foldl length]. rewrite IH.
  unfold scan_step. cbn zeta. destruct (oi_Hidden _); cbn [sc_remain]; lia.
Qed.

(** Without a delimiter every key counts: the keys that are scanned are the first
    ones. *)
Lemma scanned_recursive m b pd n keys taken left :
  0 <= n -> scanned m b pd true (mkScan [] [] n) keys taken left -> taken = take (Z.to_nat n) keys.
Proof.
  intros Hn (-> & Hpos & Hend & _). rewrite scan_recursive_remain in Hpos, Hend. cbn [sc_remain] in *.
  destruct Hend as [->|Hend]; [rewrite app_nil_r, take_ge by lia; done|].
  by rewrite take_app_length' by lia.
Qed.

(** ** What a listing with the delimiter holds *)

(** The name of a key below a directory, and its first component. *)
Definition below (b pd k : bytes) : bytes :=
  drop (length pd) (drop (length (b ++ SlashSeparator)) k).
Definition component (b pd k : bytes) : bytes := default [] (head (Split (below b pd k) "/"%char)).
Definition in_subdir (b pd k : bytes) : Prop := "/"%char ∈ below b pd k.

#[export] Instance in_subdir_dec b pd k : Decision (in_subdir b pd k).
Proof. unfold in_subdir. apply _. Defined.

Lemma key_info_IsDir m b k : oi_IsDir (key_info m b k) = false.
Proof.
  unfold key_info, object_info. repeat case_match; simplify_eq; try done.
Qed.

(** One step of a listing with the delimiter. *)
Lemma scan_step_delim m b pd s k :
  visible m b k ->
  scan_step m b pd false s k =
    if decide (in_subdir b pd k) then
      let x := pd ++ component b pd k ++ SlashSeparator in
      if decide (x ∈ sc_prefixes s) then s
      else mkScan (sc_objects s) (sc_prefixes s ++ [x]) (sc_remain s - 1)
    else mkScan (sc_objects s ++ [key_info m b k]) (sc_prefixes s) (sc_remain s - 1).
Proof.
  intros Hv. unfold scan_step, visible in *. cbn zeta. rewrite Hv. unfold list_dir_entry.
  fold (below b pd k). rewrite Split_length_sep. unfold in_subdir, component.
  repeat case_bool_decide; repeat case_decide; try done; by rewrite ?key_info_IsDir in *.
Qed.

Lemma scan_delim m b pd ks s :
  NoDup (sc_prefixes s) ->
  let s' := foldl (scan_step m b pd false) s ks in
  sc_objects s' = sc_objects s ++
    (key_info m b <$> filter (λ k, visible m b k /\ ~ in_subdir b pd k) ks) /\
  NoDup (sc_prefixes s') /\
  (∀ x, x ∈ sc_prefixes s' <-> x ∈ sc_prefixes s \/
     exists k, k ∈ ks /\ visible m b k /\ in_subdir b pd k /\ x = pd ++ component b pd k ++ SlashSeparator).
Proof.
  revert s. induction ks as [|k ks IH]; intros s Hnd; cbn zeta; [split_and!|].
  - by rewrite app_nil_r.
  - done.
  - intros x. split; [by left|]. intros [?|(k & Hk & _)]; [done|]. by apply elem_of_nil in Hk.
  - cbn [foldl]. rewrite filter_cons. destruct (decide (visible m b k)) as [Hv|Hv].
    + rewrite scan_step_delim by done. cbn zeta.
      destruct (decide (in_subdir b pd k)) as [Hd|Hd].
      * rewrite (decide_False (P := visible m b k /\ ~ in_subdir b pd k)) by tauto.
        case_decide as Hx.
        -- destruct (IH s Hnd) as (H5 & H6 & H7). split_and!; [done|done|].
           intros x. rewrite H7. set_solver.
        -- destruct (IH (mkScan (sc_objects s) (sc_prefixes s ++ [pd ++ component b pd k ++ SlashSeparator])
             (sc_remain s - 1))) as (H5 & H6 & H7).
           { cbn [sc_prefixes]. apply NoDup_app. split_and!; [done| |apply NoDup_singleton].
             intros y Hy Hy'. apply list_elem_of_singleton in Hy' as ->. done. }
           split_and!; [done|done|]. intros x. rewrite H7. cbn [sc_prefixes].
           rewrite elem_of_app, list_elem_of_singleton. set_solver.
      * rewrite decide_True by done. destruct (IH (mkScan (sc_objects s ++ [key_info m b k])
          (sc_prefixes s) (sc_remain s - 1)) Hnd) as (H5 & H6 & H7).
        split_and!; [|done|].
        -- rewrite H5. cbn [sc_objects]. rewrite fmap_cons, <- app_assoc. done.
        -- intros x. rewrite H7. cbn [sc_prefixes]. set_solver.
    + rewrite (decide_False (P := visible m b k /\ _)) by tauto.
      assert (scan_step m b pd false s k = mkScan (sc_objects s) (sc_prefixes s) (sc_remain s - 1)) as ->.
      { unfold scan_step. cbn zeta. unfold visible in Hv. by destruct (oi_Hidden _). }
      destruct (IH (mkScan (sc_objects s) (sc_prefixes s) (sc_remain s - 1)) Hnd) as (H5 & H6 & H7).
      split_and!; [done|done|]. intros x. rewrite H7. cbn [sc_prefixes]. set_solver.
Qed.

(** With the delimiter a listing counts the objects and the common prefixes that
    it shows and the hidden keys that it passes. *)
Definition hidden_count (m : gmap bytes entry) (b : bytes) (ks : list bytes) : nat :=
  length (filter (λ k, ~ visible m b k) ks).

Lemma scan_delim_remain m b pd ks s :
  let s' := foldl (scan_step m b pd false) s ks in
  sc_remain s' + Z.of_nat (hidden_count m b ks + length (sc_objects s') + length (sc_prefixes s'))
  = sc_remain s + Z.of_nat (length (sc_objects s) + length (sc_prefixes s)).
Proof.
  revert s. induction ks as [|k ks IH]; intros s; [cbn; lia|]. cbn zeta in *. cbn [foldl].
  specialize (IH (scan_step m b pd false s k)). unfold hidden_count in *. rewrite filter_cons.
  destruct (decide (visible m b k)) as [Hv|Hv].
  - rewrite (decide_False (P := ~ visible m b k)) by tauto. rewrite scan_step_delim in IH |- * by done. cbn zeta in *.
    repeat case_decide; cbn [sc_objects sc_prefixes sc_remain] in IH; rewrite ?length_app in IH; cbn [length] in IH; lia.
  - rewrite (decide_True (P := ~ visible m b k)) by done. cbn [length].
    assert (scan_step m b pd false s k = mkScan (sc_objects s) (sc_prefixes s) (sc_remain s - 1)) as E.
    { unfold scan_step. cbn zeta. unfold visible in Hv. by destruct (oi_Hidden _). }
    rewrite E in IH |- *. cbn [sc_objects sc_prefixes sc_remain] in IH. lia.
Qed.

End spec.
