(* ===== verification/Multipart.v ===== *)
(** * Multipart uploads: cmd/kinetic-multipart.go

    An upload in progress is the key "bucket/object.fs.json.uploadID", whose
    metadata and value are the metadata of the object to be.  Its parts are
    hidden keys "bucket/object.version.number.etag.size" under the next version of
    the object; completing the upload writes the object's key with the list of
    parts, which makes that version the current one, and deletes the parts of the
    previous version.  The file also has [CopyObject] (cmd/kinetic.go), which
    copies multipart objects part by part. *)
From S2P Require Import Prelude GoLib IncStr Errors Metadata NsLock Pool Drive World HashReader.
From S2P Require Import HttpRange Client Names Buckets Objects.

Definition globalMinPartSize : Z := 1024 * 1024.
Definition isMinAllowedPartSize (size : Z) : bool := globalMinPartSize <=? size.

(** ** Part names *)
Definition decodePartFile (name : bytes) : Z * bytes * Z * option error :=
  match Split name "."%char with
  | [num; etag; size] =>
      match Atoi num, ParseInt size with
      | (partNumber, false), (actualSize, false) => (partNumber, etag, actualSize, None)
      | _, _ => (0, [], 0, Some errUnexpected)
      end
  | _ => (0, [], 0, Some errUnexpected)
  end.

(** cmd/object-api-utils.go [getPartKO]: the first name with the part number and
    ETag, or "". *)
Fixpoint getPartKO (keys : list bytes) (partNumber : Z) (etag : bytes) : bytes :=
  match keys with
  | [] => []
  | key :: keys' =>
      if HasPrefix key (Format5d partNumber ++ str "." ++ etag ++ str ".") then key
      else getPartKO keys' partNumber etag
  end.

(** [strings.Split(partFile, ".")], its last element as an integer. *)
Definition part_actual_size (partFile : bytes) : Z * bool :=
  ParseInt (default [] (last (Split partFile "."%char))).

(** cmd/object-handlers-common.go [canonicalizeETag]: the trailing quotes and
    the quotes before the last unquoted run are removed. *)
Definition is_quote (c : ascii) : Prop := c = ascii_of_N 34.
#[export] Instance is_quote_dec c : Decision (is_quote c).
Proof. unfold is_quote. apply _. Defined.

Fixpoint drop_quotes (s : bytes) : bytes :=
  match s with
  | [] => []
  | c :: s' => if decide (is_quote c) then drop_quotes s' else s
  end.

Fixpoint split_unquoted (s : bytes) : bytes * bytes :=
  match s with
  | [] => ([], [])
  | c :: s' => if decide (is_quote c) then ([], s)
               else let '(x, rest) := split_unquoted s' in (c :: x, rest)
  end.

Definition canonicalizeETag (etag : bytes) : bytes :=
  let '(x, rest) := split_unquoted (drop_quotes (reverse etag)) in
  reverse (drop_quotes rest) ++ reverse x.

Record CompletePart := mkCompletePart { cp_PartNumber : Z; cp_ETag : bytes }.

Record PartInfo := mkPartInfo {
  pi_PartNumber : Z; pi_LastModified : time; pi_ETag : bytes; pi_Size : Z; pi_ActualSize : Z }.

Definition zeroPartInfo : PartInfo := mkPartInfo 0 zeroTime [] 0 0.

Record ListPartsInfo := mkListPartsInfo {
  lp_Bucket : bytes; lp_Object : bytes; lp_UploadID : bytes; lp_PartNumberMarker : Z;
  lp_NextPartNumberMarker : Z; lp_MaxParts : Z; lp_IsTruncated : bool;
  lp_Parts : list PartInfo; lp_UserDefined : option strmap }.

Definition zeroListPartsInfo : ListPartsInfo := mkListPartsInfo [] [] [] 0 0 0 false [] None.

Definition part_number_le (a b : Z * bytes) : Prop := a.1 <= b.1.
#[export] Instance part_number_le_dec : RelDecision part_number_le.
Proof. intros a b. unfold part_number_le. apply _. Defined.

Section multipart.
Context `{KineticDrive} `{LRWMutex} `{MetaCodec} `{MetaEnv} `{OSEnv}.

(** [getCompleteMultipartMD5] *)
Definition getCompleteMultipartMD5 (parts : list CompletePart) : bytes :=
  let finalMD5Bytes := concat ((λ part,
    match hex.DecodeString (canonicalizeETag (cp_ETag part)) with
    | None => cp_ETag part
    | Some md5Bytes => md5Bytes
    end) <$> parts) in
  hex.EncodeToString (md5_sum finalMD5Bytes) ++ str "-" ++ FormatInt (Z.of_nat (length parts)).

(** [ToS3ETag] and [GenETag] (cmd/utils.go). *)
Definition ToS3ETag (etag : bytes) : bytes :=
  let etag := canonicalizeETag etag in
  if HasSuffix etag (str "-1") then etag else etag ++ str "-1".

Definition GenETag : M bytes :=
  u ← mustGetUUID; mret (ToS3ETag (hex.EncodeToString (md5_sum u))).

(** ** Keys of a version *)
Fixpoint delete_loop (keys : list bytes) : M (option error) :=
  match keys with
  | [] => mret None
  | key :: keys' =>
      err ← Delete key;
      match err with Some e => mret (Some e) | None => delete_loop keys' end
  end.

Definition deleteKeys (keys : list bytes) : M (option error) :=
  _ ← kineticMutex_Lock;
  kc ← GetKineticConnection;
  defer (releaseConnection kc) (defer kineticMutex_Unlock (delete_loop keys)).

(** The part keys of a version, at most 800. *)
Definition version_keys (startKey : bytes) : M (list bytes) :=
  _ ← kineticMutex_Lock;
  kc ← GetKineticConnection;
  keys ← CGetKeyRange startKey (IncStr startKey) true false 800;
  _ ← releaseConnection kc;
  _ ← kineticMutex_Unlock;
  mret keys.

(** [deleteParts]: the error of the second round of deletions is dropped. *)
Definition deleteParts (objKey version : bytes) : M (option error) :=
  let startKey := objKey ++ str "." ++ version ++ str "." in
  objKeys ← version_keys startKey;
  err ← deleteKeys objKeys;
  match err with
  | Some e => mret (Some e)
  | None =>
      metaKeys ← version_keys startKey;
      _ ← deleteKeys metaKeys;
      mret None
  end.

(** cmd/fs-v1-helpers.go [koStat] *)
Definition koStat (key : bytes) : M (KVInfo * option error) :=
  kc ← GetKineticConnection;
  '(cvalue, err) ← CGetMeta key;
  _ ← releaseConnection kc;
  match err with
  | Some _ => mret (zeroKVInfo, Some errFileNotFound)
  | None =>
      value ← match cvalue with Some v => cslice (2 ^ 16) v | None => mret [] end;
      let '(fsMeta, err) := json_Unmarshal value (set_Meta newFSMetaV1 (Some ∅)) in
      match err with
      | Some e => mret (zeroKVInfo, Some e)
      | None => mret (mkKVInfo (ko_Name (KoInfo fsMeta)) (ko_Size (KoInfo fsMeta))
                        (ko_CreatedTime (KoInfo fsMeta)) false, None)
      end
  end.

(** The names of the parts below a version prefix. *)
Fixpoint part_names (startKey : bytes) (keys : list bytes) : M (list bytes) :=
  match keys with
  | [] => mret []
  | key :: keys' =>
      k ← slice_from (length startKey) key;
      ks ← part_names startKey keys';
      mret (k :: ks)
  end.

Definition json_key (bucket object uploadID : bytes) : bytes :=
  bucket ++ str "/" ++ object ++ str "." ++ fsMetaJSONFile ++ str "." ++ uploadID.

(** The prefix of the part keys of a version of an object. *)
Definition parts_start (bucket object version : bytes) : bytes :=
  bucket ++ str "/" ++ object ++ str "." ++ version ++ str ".".

(** ** NewMultipartUpload *)

(** Writing to a nil [UserDefined] map panics. *)
Definition NewMultipartUpload (bucket object : bytes) (userDefined : option strmap)
  : M (bytes * option error) :=
  err ← checkNewMultipartArgs bucket object;
  match err with
  | Some e => mret ([], toObjectErr (Some e) [bucket])
  | None =>
      '(_, err) ← GetBucketInfo bucket;
      match err with
      | Some e => mret ([], toObjectErr (Some e) [bucket])
      | None =>
          uploadID ← mustGetUUID;
          match userDefined with
          | None => panic
          | Some meta =>
              now ← time_Now;
              let fsMeta := set_KoInfo (set_Meta newFSMetaV1 (Some (<[str "size" := FormatInt 0]> meta)))
                              (mkKOInfo object 0 now zeroTime) in
              let fsMetaBytes := json_Marshal fsMeta in
              _ ← allocateValBuf (Z.of_nat (length fsMetaBytes));
              _ ← kineticMutex_Lock;
              kc ← GetKineticConnection;
              '(_, err) ← CPut (json_key bucket object uploadID) fsMetaBytes fsMetaBytes
                            (Z.of_nat (length fsMetaBytes));
              _ ← releaseConnection kc;
              _ ← kineticMutex_Unlock;
              mret (uploadID, err)
          end
      end
  end.

(** ** PutObjectPart *)

(** The metadata of a part. *)
Definition part_fsMeta (object etag : bytes) (size : Z) (now : time) : fsMetaV1 :=
  let meta := <[str "hidden" := str "1"]> (<[str "size" := FormatInt size]> {[str "etag" := etag]}) in
  set_KoInfo (set_Meta newFSMetaV1 (Some meta)) (mkKOInfo object size now zeroTime).

Definition PutObjectPart (bucket object uploadID : bytes) (partID : Z) (r : Reader)
  : M (PartInfo * option error) :=
  err ← checkPutObjectPartArgs bucket object;
  match err with
  | Some e => mret (zeroPartInfo, toObjectErr (Some e) [bucket])
  | None =>
  '(_, err) ← GetBucketInfo bucket;
  match err with
  | Some e => mret (zeroPartInfo, toObjectErr (Some e) [bucket])
  | None =>
  if r_size r <? -1 then mret (zeroPartInfo, toObjectErr (Some errInvalidArgument) [])
  else
    let bufSize := if (0 <? r_size r) && (r_size r <? blockSizeV1) then r_size r else blockSizeV1 in
    _ ← allocateValBuf bufSize;
    match readToBuffer r (Z.to_nat bufSize) with
    | (_, _, Some e) => mret (zeroPartInfo, Some e)
    | (goBuf, r', None) =>
        etag ← MD5CurrentHexString r';
        etag ← (if decide (etag = []) then GenETag else mret etag);
        let objKey := makeKey bucket object in
        '(objVer, _) ← currentVersion objKey;
        let nxtVers := newVersion objVer in
        let key := parts_start bucket object nxtVers
                     ++ encodePartFile partID etag (r_actualSize r') in
        etag' ← MD5CurrentHexString r';
        now ← time_Now;
        let bytes := json_Marshal (part_fsMeta object etag' (r_size r') now) in
        _ ← allocateValBuf (Z.of_nat (length bytes));
        _ ← kineticMutex_Lock;
        kc ← GetKineticConnection;
        '(_, err) ← CPut key bytes goBuf bufSize;
        _ ← releaseConnection kc;
        _ ← kineticMutex_Unlock;
        match err with
        | Some e => mret (zeroPartInfo, Some e)
        | None =>
            now ← time_Now;
            mret (mkPartInfo partID now etag bufSize (r_actualSize r'), None)
        end
    end
  end end.

(** ** ListObjectParts *)

(** Choosing one part per part number: of two with the same number the one
    created later. *)
Fixpoint pick_parts (startKey : bytes) (Keys keys : list bytes) (partsMap : gmap Z bytes)
  : M (gmap Z bytes * option error) :=
  match keys with
  | [] => mret (partsMap, None)
  | k :: keys' =>
      if decide (k = fsMetaJSONFile) then pick_parts startKey Keys keys' partsMap
      else
        match decodePartFile k with
        | (_, _, _, Some _) => pick_parts startKey Keys keys' partsMap
        | (partNumber, etag1, _, None) =>
            match partsMap !! partNumber with
            | None => pick_parts startKey Keys keys' (<[partNumber := etag1]> partsMap)
            | Some etag2 =>
                '(stat1, serr) ← koStat (startKey ++ getPartKO Keys partNumber etag1);
                match serr with
                | Some e => mret (partsMap, toObjectErr (Some e) [])
                | None =>
                    '(stat2, serr) ← koStat (startKey ++ getPartKO Keys partNumber etag2);
                    match serr with
                    | Some e => mret (partsMap, toObjectErr (Some e) [])
                    | None =>
                        pick_parts startKey Keys keys'
                          (if kv_modTime stat2 <? kv_modTime stat1
                           then <[partNumber := etag1]> partsMap else partsMap)
                    end
                end
            end
        end
  end.

(** The parts in the order of their numbers; [None] for a name without a
    size. *)
Definition listed_parts (Keys : list bytes) (partsMap : gmap Z bytes) : option (list PartInfo) :=
  mapM (λ kv, let partFile := getPartKO Keys kv.1 kv.2 in
              if decide (partFile = []) then None
              else match part_actual_size partFile with
                   | (actualSize, false) => Some (mkPartInfo kv.1 zeroTime kv.2 0 actualSize)
                   | _ => None
                   end)
       (merge_sort part_number_le (map_to_list partsMap)).

(** The number of entries up to and including the marker. *)
Fixpoint marker_index (marker : Z) (parts : list PartInfo) : nat :=
  match parts with
  | [] => 0
  | part :: parts' => if pi_PartNumber part =? marker then 1 else S (marker_index marker parts')
  end.

(** The page of parts after the marker, whether parts are left, and the next
    marker. *)
Definition page_parts (parts : list PartInfo) (marker maxParts : Z) : list PartInfo * bool * Z :=
  let i := if marker =? 0 then 0%nat else marker_index marker parts in
  let page := take (Z.to_nat maxParts) (drop i parts) in
  let truncated := (i + length page <? length parts)%nat in
  (page, truncated,
   if truncated then match last page with Some p => pi_PartNumber p | None => 0 end else 0).

Fixpoint stat_parts (keyPrefix : bytes) (parts : list PartInfo) : M (list PartInfo * option error) :=
  match parts with
  | [] => mret ([], None)
  | part :: parts' =>
      '(stat, err) ← koStat (keyPrefix ++ encodePartFile (pi_PartNumber part) (pi_ETag part)
                                (pi_ActualSize part));
      match err with
      | Some e => mret (parts, toObjectErr (Some e) [])
      | None =>
          '(ps, err) ← stat_parts keyPrefix parts';
          mret (mkPartInfo (pi_PartNumber part) (kv_modTime stat) (pi_ETag part)
                  (pi_ActualSize part) (pi_ActualSize part) :: ps, err)
      end
  end.

Definition ListObjectParts (bucket object uploadID : bytes) (partNumberMarker maxParts : Z)
  : M (ListPartsInfo * option error) :=
  err ← checkListPartsArgs bucket object;
  match err with
  | Some e => mret (zeroListPartsInfo, toObjectErr (Some e) [])
  | None =>
  let result parts next trunc ud :=
    mkListPartsInfo bucket object uploadID partNumberMarker next maxParts trunc parts ud in
  '(_, err) ← GetBucketInfo bucket;
  match err with
  | Some e => mret (result [] 0 false None, toObjectErr (Some e) [bucket])
  | None =>
  '(vers, _) ← currentVersion (makeKey bucket object);
  let startKey := parts_start bucket object vers in
  keys ← version_keys startKey;
  Keys ← part_names startKey keys;
  '(partsMap, err) ← pick_parts startKey Keys Keys ∅;
  match err with
  | Some e => mret (result [] 0 false None, Some e)
  | None =>
  match listed_parts Keys partsMap with
  | None => mret (result [] 0 false None, Some (InvalidPart 0 [] []))
  | Some parts =>
  let '(page, truncated, next) := page_parts parts partNumberMarker maxParts in
  '(page, err) ← stat_parts startKey page;
  match err with
  | Some e => mret (result page next truncated None, Some e)
  | None =>
      _ ← kineticMutex_Lock;
      kc ← GetKineticConnection;
      '(cvalue, err) ← CGetMeta (json_key bucket object uploadID);
      _ ← releaseConnection kc;
      match err with
      | Some _ => _ ← kineticMutex_Unlock; mret (result page next truncated None, Some errFileNotFound)
      | None =>
          match cvalue with
          | None => _ ← kineticMutex_Unlock; mret (result page next truncated None, None)
          | Some v =>
              fsMetaBytes ← cslice (2 ^ 30) v;
              let '(fsMeta, err) := json_Unmarshal fsMetaBytes zeroFsMeta in
              _ ← kineticMutex_Unlock;
              match err with
              | Some e => mret (result page next truncated None, Some e)
              | None => mret (result page next truncated (Meta fsMeta), None)
              end
          end
      end
  end end end end end.

(** ** CompleteMultipartUpload *)

(** The loop over the client's parts: each must have been uploaded, and every
    part but the last must have the minimal size.  The parts of the object and
    their total size. *)
Fixpoint complete_parts (keyPrefix : bytes) (Keys : list bytes) (parts : list CompletePart)
    (done : list ObjectPartInfo) (total : Z) : M (list ObjectPartInfo * Z * option error) :=
  match parts with
  | [] => mret (done, total, None)
  | part :: parts' =>
      let partFile := getPartKO Keys (cp_PartNumber part) (cp_ETag part) in
      let invalid := InvalidPart (cp_PartNumber part) [] (cp_ETag part) in
      if decide (partFile = []) then mret (done, total, Some invalid)
      else
        match part_actual_size partFile with
        | (_, true) => mret (done, total, Some invalid)
        | (actualSize, false) =>
            '(fi, err) ← koStat (keyPrefix ++ partFile);
            match err with
            | Some e =>
                mret (done, total,
                  Some (if decide (e = errFileNotFound \/ e = errFileAccessDenied)
                        then InvalidPart 0 [] [] else e))
            | None =>
                let done := done ++ [mkPart (cp_ETag part) (cp_PartNumber part) (kv_size fi) actualSize] in
                let total := wrap_s 64 (total + actualSize) in
                match parts' with
                | [] => mret (done, total, None)
                | _ =>
                    if negb (isMinAllowedPartSize actualSize)
                    then mret (done, total, Some (PartTooSmall actualSize (cp_PartNumber part) (cp_ETag part)))
                    else complete_parts keyPrefix Keys parts' done total
                end
            end
        end
  end.

(** The metadata of the completed object. *)
Definition complete_meta (fsMeta : fsMetaV1) (version etag : bytes) (size : Z) : fsMetaV1 :=
  set_Meta fsMeta (Some (
    <[ReservedMetadataPrefix ++ str "actual-size" := FormatInt size]>
    (<[str "etag" := etag]> (<[str "size" := FormatInt size]>
    (<[str "version" := version]> (default ∅ (Meta fsMeta))))))).

Definition CompleteMultipartUpload (bucket object uploadID : bytes) (parts : list CompletePart)
  : M (ObjectInfo * option error) :=
  let s3MD5 := getCompleteMultipartMD5 parts in
  let objKey := makeKey bucket object in
  '(objVer, _) ← currentVersion objKey;
  let nxtVer := newVersion objVer in
  let startKey := parts_start bucket object nxtVer in
  keys ← version_keys startKey;
  Keys ← part_names startKey keys;
  '(fsParts, objectActualSize, err) ← complete_parts startKey Keys parts [] 0;
  match err with
  | Some e => mret (zeroObjectInfo, Some e)
  | None =>
      let key := json_key bucket object uploadID in
      _ ← kineticMutex_Lock;
      kc ← GetKineticConnection;
      '(cvalue, err) ← CGet key (-1) false 0 (-1);
      _ ← match err with None => _ ← Delete key; mret tt | Some _ => mret tt end;
      _ ← releaseConnection kc;
      match err with
      | Some _ => _ ← kineticMutex_Unlock; mret (zeroObjectInfo, Some errFileNotFound)
      | None =>
          '(fsMeta, err) ← match cvalue with
                           | Some v => fsMetaBytes ← cslice (2 ^ 30) v;
                                       mret (json_Unmarshal fsMetaBytes (set_Parts zeroFsMeta fsParts))
                           | None => mret (set_Parts zeroFsMeta fsParts, None)
                           end;
          match err with
          | Some e => _ ← kineticMutex_Unlock; mret (zeroObjectInfo, Some e)
          | None =>
              let fsMeta := complete_meta fsMeta nxtVer s3MD5 objectActualSize in
              let bytes := json_Marshal fsMeta in
              _ ← allocateValBuf (Z.of_nat (length bytes));
              kc ← GetKineticConnection;
              '(_, err) ← CPut (bucket ++ str "/" ++ object) bytes [] 0;
              _ ← releaseConnection kc;
              _ ← kineticMutex_Unlock;
              match err with
              | Some e => mret (zeroObjectInfo, Some e)
              | None =>
                  _ ← (if decide (objVer = []) then mret None else deleteParts objKey objVer);
                  now ← time_Now;
                  mret (ToObjectKVInfo fsMeta bucket object
                          (mkKVInfo object objectActualSize now false), None)
              end
          end
      end
  end.

(** ** AbortMultipartUpload *)
Definition AbortMultipartUpload (bucket object uploadID : bytes) : M (option error) :=
  let objKey := makeKey bucket object in
  _ ← kineticMutex_Lock;
  kc ← GetKineticConnection;
  _ ← Delete (json_key bucket object uploadID);
  _ ← releaseConnection kc;
  _ ← kineticMutex_Unlock;
  '(objVer, _) ← currentVersion objKey;
  deleteParts objKey (newVersion objVer).

(** ** Copies *)

(** A buffer of the store library into which the reader put [got]. *)
Definition filled_buffer (t n : nat) (got : bytes) : bytes :=
  got ++ drop (length got) (env_byte t <$> seq 0 n).

(** The loop over the parts of the source object; the parts written so far, the
    reader and the error of the last put. *)
Fixpoint copy_parts (dstObj dstObjKey dstObjNxtVers : bytes) (parts : list ObjectPartInfo) (r : Reader)
    (done : list ObjectPartInfo) : M (list ObjectPartInfo * option error) :=
  match parts with
  | [] => mret (done, None)
  | part :: parts' =>
      let dstPartKey := dstObjKey ++ str "." ++ dstObjNxtVers ++ str "."
                          ++ encodePartFile (part_Number part) (part_ETag part) (part_Size part) in
      now ← time_Now;
      let bytes := json_Marshal (part_fsMeta dstObj (part_ETag part) (part_Size part) now) in
      _ ← allocateValBuf (Z.of_nat (length bytes));
      _ ← allocateValBuf (part_Size part);
      let n := Z.to_nat (part_Size part) in
      let '(got, r', _) := readToBuffer r n in
      t ← (λ w, ROk (w_tick w) w);
      _ ← kineticMutex_Lock;
      kc ← GetKineticConnection;
      '(_, err) ← CPut dstPartKey bytes (filled_buffer t n got) (part_Size part);
      _ ← releaseConnection kc;
      _ ← kineticMutex_Unlock;
      match err with
      | Some e => mret (done, Some e)
      | None =>
          copy_parts dstObj dstObjKey dstObjNxtVers parts' r'
            (done ++ [mkPart (part_ETag part) (part_Number part) (part_Size part) (part_Size part)])
      end
  end.

Definition copyMultipartObject (srcInfo : ObjectInfo) (r : Reader) (dstBucket dstObj : bytes)
  : M (ObjectInfo * option error) :=
  let dstObjKey := makeKey dstBucket dstObj in
  '(dstObjVers, _) ← currentVersion dstObjKey;
  let dstObjNxtVers := newVersion dstObjVers in
  '(parts, err) ← copy_parts dstObj dstObjKey dstObjNxtVers (oi_Parts srcInfo) r [];
  match err with
  | Some e =>
      _ ← deleteParts dstObjKey dstObjNxtVers;
      mret (zeroObjectInfo, Some e)
  | None =>
      let meta := <[ReservedMetadataPrefix ++ str "actual-size" := FormatInt (oi_Size srcInfo)]>
                  (<[str "size" := FormatInt (oi_Size srcInfo)]>
                  (<[str "etag" := oi_ETag srcInfo]> {[str "version" := dstObjNxtVers]})) in
      now ← time_Now;
      let objMeta := set_KoInfo (set_Parts (set_Meta newFSMetaV1 (Some meta)) parts)
                       (mkKOInfo dstObj 0 now zeroTime) in
      let bytes := json_Marshal objMeta in
      _ ← allocateValBuf (Z.of_nat (length bytes));
      _ ← kineticMutex_Lock;
      kc ← GetKineticConnection;
      '(_, err) ← CPut dstObjKey bytes [] 0;
      _ ← releaseConnection kc;
      _ ← kineticMutex_Unlock;
      match err with
      | None =>
          _ ← deleteParts dstObjKey dstObjVers;
          now ← time_Now;
          mret (ToObjectKVInfo objMeta dstBucket dstObj (mkKVInfo dstObj (oi_Size srcInfo) now false), None)
      | Some e =>
          _ ← deleteParts dstObjKey dstObjNxtVers;
          mret (zeroObjectInfo, Some e)
      end
  end.

(** [CopyObject]: [r] is the reader over the source the handler put into
    [srcInfo]. *)
Definition CopyObject (srcBucket srcObject dstBucket dstObject : bytes) (srcInfo : ObjectInfo)
    (r : Reader) : M (ObjectInfo * option error) :=
  let cpSrcDstSame := bool_decide (pathJoin [srcBucket; srcObject] = pathJoin [dstBucket; dstObject]) in
  let body := counted (
    '(_, err) ← statBucketDir srcBucket;
    match err with
    | Some e => mret (zeroObjectInfo, toObjectErr (Some e) [srcBucket])
    | None =>
    if cpSrcDstSame && oi_metadataOnly srcInfo then
      let key := makeKey srcBucket srcObject in
      _ ← kineticMutex_Lock;
      kc ← GetKineticConnection;
      '(cvalue, err) ← CGetMeta key;
      _ ← releaseConnection kc;
      let fsMeta := match err with Some _ => defaultFsJSON srcObject | None => newFSMetaV1 end in
      '(fsMeta, err) ← match cvalue with
                       | Some v => value ← cslice (2 ^ 16) v;
                                   mret (json_Unmarshal value (set_Meta fsMeta (Some ∅)))
                       | None => mret (fsMeta, None)
                       end;
      _ ← kineticMutex_Unlock;
      match err with
      | Some e => mret (zeroObjectInfo, toObjectErr (Some e) [srcBucket; srcObject])
      | None =>
          let fi := mkKVInfo (ko_Name (KoInfo fsMeta)) (ko_Size (KoInfo fsMeta))
                      (ko_CreatedTime (KoInfo fsMeta)) false in
          mret (KVInfoToObjectInfo fsMeta srcBucket srcObject (Some fi), None)
      end
    else
      err ← checkPutObjectArgs dstBucket dstObject (r_size r);
      match err with
      | Some e => mret (zeroObjectInfo, Some e)
      | None =>
          '(objInfo, err) ← match oi_Parts srcInfo with
                            | [] => putObject dstBucket dstObject r (oi_UserDefined srcInfo)
                            | _ => copyMultipartObject srcInfo r dstBucket dstObject
                            end;
          match err with
          | Some e => mret (objInfo, toObjectErr (Some e) [dstBucket; dstObject])
          | None => mret (objInfo, None)
          end
      end
    end) in
  if cpSrcDstSame then body
  else with_lock false (NewNSLock dstBucket [dstObject]) (λ e, (zeroObjectInfo, Some e)) body.

End multipart.
