(* ===== verification/MultipartSpec.v ===== *)
(** * What the multipart operations do, over the view of the store *)
From S2P Require Import Prelude GoLib IncStr Errors Metadata NsLock Pool Drive World HashReader.
From S2P Require Import HttpRange Client Names Buckets Objects ObjectsSpec Listing ListingSpec.
From S2P Require Import Multipart.

(** ** Part names *)
Lemma decode_encode_part n etag size :
  0 <= n <= int64_max -> "."%char ∉ etag -> in_int64 size ->
  decodePartFile (encodePartFile n etag size) = (n, etag, size, None).
Proof.
  intros Hn He Hs. unfold decodePartFile, encodePartFile.
  change (str ".") with ["."%char]. cbn [app].
  rewrite Split_app_sep by (apply Format5d_no_dot; lia). rewrite Split_app_sep by done.
  rewrite Split_no_sep by apply FormatInt_no_dot.
  unfold Atoi. rewrite ParseInt_Format5d by lia. by rewrite ParseInt_FormatInt.
Qed.

Lemma newVersion_no_nul v : no_nul (newVersion v).
Proof.
  assert (∀ z, no_nul (Format5d z)) as Hf.
  { intros z. unfold no_nul, Format5d.
    assert ((ascii_of_N 0 ∉ pad5 (FormatUint (Z.to_N (- z)))) /\ (ascii_of_N 0 ∉ pad5 (FormatUint (Z.to_N z))))
      as [H1 H2].
    { split; (apply digits_no_char; [apply pad5_digits|]); unfold is_digit; vm_compute; by intros []. }
    case_match; [|done]. apply not_elem_of_cons. by split. }
  unfold newVersion. case_decide; apply Hf.
Qed.

Section spec.
Context `{KineticDrive} `{LRWMutex} `{MetaCodec} `{MetaEnv} `{OSEnv}.
Context `{!KineticDriveSpec _} `{!LRWMutexLaws _} `{!MetaCodecLaws _}.

(** ** The keys of a version *)
Lemma keys_under_half m p n :
  range_prefix p -> keys_in_range m p (IncStr p) true false n = take (Z.to_nat n) (under m p).
Proof.
  intros [_ (s & c & -> & Hc)]. unfold keys_in_range, under. f_equal. apply list_filter_iff.
  intros k. by apply prefix_range.
Qed.

Lemma runs_version_keys startKey w :
  ready w -> plain_store (view (w_drive w)) -> range_prefix startKey ->
  runs (version_keys startKey) (λ r d t, d = w_drive w /\ t = w_tick w /\
    r = take 800 (under (view (w_drive w)) startKey)) w.
Proof.
  intros Hw Hp Hr. unfold version_keys. destruct (no_nul_IncStr _ Hr) as [Hn Hne].
  wp_steps. apply wp_CGetKeyRange; [by rewrite CString_id|done|lia|]. wsimpl.
  rewrite !CString_id by (done || apply Hr). rewrite keys_under_half by done.
  wp_steps. split; [same_now|done].
Qed.

Lemma wp_delete_loop keys (Q : option error -> World -> Prop) w :
  (∀ r d, pruned (CString <$> keys) (view (w_drive w)) (view d) ->
     (r = None -> ∀ k, k ∈ keys -> view d !! CString k = None) -> Q r (set_drive d w)) ->
  wp (delete_loop keys) Q w.
Proof.
  revert w. induction keys as [|k keys IH]; intros w HQ; cbn [delete_loop].
  - apply wp_ret. specialize (HQ None (w_drive w)). destruct w. apply HQ; [done|].
    intros _ k Hk. by apply elem_of_nil in Hk.
  - apply wp_bind, wp_Delete. intros d s Hd.
    assert (pruned (CString <$> k :: keys) (view (w_drive w)) (view d)) as Hp1.
    { rewrite Hd. apply pruned_delete. rewrite fmap_cons. apply list_elem_of_here. }
    destruct (toKineticError s) eqn:Es.
    + apply wp_ret, HQ; done.
    + apply IH. wsimpl. intros r d' Hp Hr. apply HQ.
      * eapply pruned_trans; [exact Hp1|]. eapply pruned_mono; [|exact Hp]. set_solver.
      * intros Hn k' Hk'. apply elem_of_cons in Hk' as [->|Hk']; [|by apply Hr].
        apply toKineticError_None in Es. unfold delete_result in Hd. rewrite decide_True in Hd by done.
        apply (lookup_weaken_None _ (view d)); [|apply Hp]. rewrite Hd. apply lookup_delete_eq.
Qed.

Lemma runs_deleteKeys keys w :
  ready w ->
  runs (deleteKeys keys) (λ r d t, t = w_tick w /\
    pruned (CString <$> keys) (view (w_drive w)) (view d) /\
    (r = None -> ∀ k, k ∈ keys -> view d !! CString k = None)) w.
Proof.
  intros Hw. unfold deleteKeys. wp_steps. apply wp_defer, wp_defer, wp_delete_loop.
  wsimpl. intros r d Hp Hr. wp_steps. split; [same_now|done].
Qed.

Lemma plain_store_sub m m' : m' ⊆ m -> plain_store m -> plain_store m'.
Proof. intros Hs Hp k e He. eapply Hp. by eapply lookup_weaken. Qed.

Lemma small_meta_sub m m' : m' ⊆ m -> small_meta m -> small_meta m'.
Proof. intros Hs Hp k e He. eapply Hp. by eapply lookup_weaken. Qed.

Lemma elem_of_under m p k : k ∈ under m p <-> p `prefix_of` k /\ is_Some (m !! k).
Proof. unfold under. by rewrite list_elem_of_filter, elem_of_sorted_keys. Qed.

Lemma under_CString m p : plain_store m -> CString <$> under m p = under m p.
Proof.
  intros Hp. rewrite <- (list_fmap_id (under m p)) at 2. apply list_fmap_ext.
  intros i k Hk%list_elem_of_lookup_2. apply elem_of_under in Hk as [_ [e He]].
  apply CString_id. by eapply Hp.
Qed.

(** The prefix of the part keys of a version. *)
Definition version_prefix (objKey version : bytes) : bytes :=
  objKey ++ str "." ++ version ++ str ".".

Lemma version_prefix_range objKey version :
  no_nul objKey -> no_nul version -> range_prefix (version_prefix objKey version).
Proof.
  intros H5 H6. split.
  - unfold no_nul, version_prefix in *. rewrite !not_elem_of_app. split_and!; done || compute_done.
  - exists (objKey ++ str "." ++ version), "."%char. unfold version_prefix. split; [|done].
    by rewrite <- !app_assoc.
Qed.

(** [deleteParts] touches only the part keys of the version; when it succeeds
    and there were at most 800 of them, none is left. *)
Definition parts_deleted (m : gmap bytes entry) (p : bytes) (r : option error)
    (m' : gmap bytes entry) : Prop :=
  pruned (under m p) m m' /\
  (r = None -> (length (under m p) <= 800)%nat -> ∀ k, p `prefix_of` k -> m' !! k = None).

Lemma runs_deleteParts objKey version w :
  ready w -> plain_store (view (w_drive w)) -> no_nul objKey -> no_nul version ->
  runs (deleteParts objKey version) (λ r d t, t = w_tick w /\
    parts_deleted (view (w_drive w)) (version_prefix objKey version) r (view d)) w.
Proof.
  intros Hw Hp Hk Hv. unfold deleteParts. fold (version_prefix objKey version).
  set (p := version_prefix objKey version).
  pose proof (version_prefix_range _ _ Hk Hv) as Hr. fold p in Hr.
  eapply runs_bind; [done|by apply runs_version_keys|]. intros keys w1 Hw1 _ (Ed & Et & ->).
  rewrite <- Ed in Hp |- *. rewrite <- Et. clear Ed Et Hw w. set (m := view (w_drive w1)) in *.
  assert (CString <$> take 800 (under m p) = take 800 (under m p)) as Hck.
  { by rewrite fmap_take, under_CString. }
  eapply runs_bind; [done|by apply runs_deleteKeys|]. fold m.
  intros err w2 Hw2 _ (Et & Hpr & Hd). rewrite Hck in Hpr. rewrite <- Et.
  assert (take 800 (under m p) ⊆ under m p) as Hsub.
  { intros k. apply subseteq_take. }
  assert (pruned (under m p) m (view (w_drive w2))) as Hpr1 by (by eapply pruned_mono).
  destruct err as [e|].
  { apply runs_ret; [done|]. split; [done|]. by split. }
  assert (plain_store (view (w_drive w2))) as Hp2 by (eapply plain_store_sub; [apply Hpr|done]).
  eapply runs_bind; [done|by apply runs_version_keys|]. intros keys w3 Hw3 _ (Ed & Et3 & ->).
  rewrite <- Ed in Hpr, Hd, Hp2, Hpr1 |- *. rewrite <- Et3. clear Ed Et Et3 Hw2 w2.
  eapply runs_bind; [done|by apply runs_deleteKeys|].
  intros err w4 Hw4 _ (Et & Hpr4 & _). apply runs_ret; [done|]. split; [done|].
  assert (CString <$> take 800 (under (view (w_drive w3)) p) = take 800 (under (view (w_drive w3)) p)) as Hck3.
  { by rewrite fmap_take, under_CString. }
  rewrite Hck3 in Hpr4.
  assert (take 800 (under (view (w_drive w3)) p) ⊆ under m p) as Hsub3.
  { etrans; [intros k; apply subseteq_take|]. intros k. rewrite !elem_of_under. intros [? [e He]].
    split; [done|]. exists e. by eapply lookup_weaken; [|apply Hpr]. }
  split.
  - eapply pruned_trans; [exact Hpr1|]. by eapply pruned_mono.
  - intros _ Hl k Hpk. apply (lookup_weaken_None _ (view (w_drive w3))); [|apply Hpr4].
    destruct (view (w_drive w3) !! k) as [e|] eqn:Ek; [|done].
    assert (k ∈ under m p) as Hin.
    { apply elem_of_under. split; [done|]. exists e. by eapply lookup_weaken; [|apply Hpr]. }
    rewrite take_ge in Hd by lia. specialize (Hd eq_refl k Hin).
    rewrite CString_id in Hd; [congruence|]. eapply Hp2, Ek.
Qed.

(** ** koStat and the validation of the client's parts *)
Definition ko_stat (m : gmap bytes entry) (key : bytes) : KVInfo * option error :=
  match m !! CString key with
  | None => (zeroKVInfo, Some errFileNotFound)
  | Some e =>
      match json_Unmarshal (e_meta e) (set_Meta newFSMetaV1 (Some ∅)) with
      | (_, Some err) => (zeroKVInfo, Some err)
      | (fsMeta, None) => (mkKVInfo (ko_Name (KoInfo fsMeta)) (ko_Size (KoInfo fsMeta))
                             (ko_CreatedTime (KoInfo fsMeta)) false, None)
      end
  end.

Lemma runs_koStat key w :
  ready w -> small_meta (view (w_drive w)) ->
  runs (koStat key) (λ r d t, d = w_drive w /\ t = w_tick w /\
    r = ko_stat (view (w_drive w)) key) w.
Proof.
  intros Hw Hm. unfold koStat, ko_stat. wp_steps; rewrite Emeta.
  - apply wp_cslice; [by eapply Hm|].
    destruct (json_Unmarshal (e_meta e) _) as [fsMeta [err|]]; wp_steps; split; [same_now|done..|same_now|done].
  - split; [same_now|done].
Qed.

(** What the client's list of parts becomes: the parts of the object and their
    total size, or the error. *)
Fixpoint complete_list (m : gmap bytes entry) (keyPrefix : bytes) (Keys : list bytes)
    (parts : list CompletePart) (acc : list ObjectPartInfo) (total : Z)
  : list ObjectPartInfo * Z * option error :=
  match parts with
  | [] => (acc, total, None)
  | part :: parts' =>
      let partFile := getPartKO Keys (cp_PartNumber part) (cp_ETag part) in
      let invalid := InvalidPart (cp_PartNumber part) [] (cp_ETag part) in
      if decide (partFile = []) then (acc, total, Some invalid)
      else
        match part_actual_size partFile with
        | (_, true) => (acc, total, Some invalid)
        | (actualSize, false) =>
            match ko_stat m (keyPrefix ++ partFile) with
            | (_, Some e) => (acc, total, Some (if decide (e = errFileNotFound \/ e = errFileAccessDenied)
                                                 then InvalidPart 0 [] [] else e))
            | (fi, None) =>
                let acc := acc ++ [mkPart (cp_ETag part) (cp_PartNumber part) (kv_size fi) actualSize] in
                let total := wrap_s 64 (total + actualSize) in
                match parts' with
                | [] => (acc, total, None)
                | _ => if negb (isMinAllowedPartSize actualSize)
                       then (acc, total, Some (PartTooSmall actualSize (cp_PartNumber part) (cp_ETag part)))
                       else complete_list m keyPrefix Keys parts' acc total
                end
            end
        end
  end.

Lemma runs_complete_parts prefix Keys parts acc total w :
  ready w -> small_meta (view (w_drive w)) ->
  runs (complete_parts prefix Keys parts acc total) (λ r d t, d = w_drive w /\ t = w_tick w /\
    r = complete_list (view (w_drive w)) prefix Keys parts acc total) w.
Proof.
  revert acc total w. induction parts as [|part parts IH]; intros acc total w Hw Hm.
  { by apply runs_ret. }
  cbn [complete_parts complete_list]. case_decide; [by apply runs_ret|].
  destruct (part_actual_size _) as [actualSize []]; [by apply runs_ret|].
  eapply runs_bind; [done|by apply runs_koStat|]. intros [fi err] w1 Hw1 _ (Ed & Et & <-).
  rewrite <- Ed in Hm |- *. rewrite <- Et. clear Ed Et Hw w.
  destruct err as [e|]; [by apply runs_ret|].
  destruct parts as [|part' parts]; [by apply runs_ret|].
  destruct (negb _); [by apply runs_ret|]. by apply IH.
Qed.

Lemma runs_part_names startKey keys w :
  ready w -> Forall (λ k, startKey `prefix_of` k) keys ->
  runs (part_names startKey keys) (λ r d t, d = w_drive w /\ t = w_tick w /\
    r = drop (length startKey) <$> keys) w.
Proof.
  revert w. induction keys as [|k keys IH]; intros w Hw Hk; [by apply runs_ret|].
  apply Forall_cons in Hk as [Hk Hks]. cbn [part_names].
  apply runs_slice_from; [by apply prefix_length|].
  eapply runs_bind; [done|by apply IH|]. intros ks w1 Hw1 _ (Ed & Et & ->).
  by apply runs_ret.
Qed.

(** The parts and size of a completion, from the store it starts in. *)
Definition complete_plan (m : gmap bytes entry) (b o : bytes) (parts : list CompletePart)
  : list ObjectPartInfo * Z * option error :=
  let p := version_prefix (makeKey b o) (newVersion (current_version m (makeKey b o)).1) in
  complete_list m p (drop (length p) <$> take 800 (under m p)) parts [] 0.

(** The metadata of the completed object, from the upload's own metadata. *)
Definition completed_meta (m : gmap bytes entry) (b o : bytes) (parts : list CompletePart)
    (upload : entry) : fsMetaV1 * option error :=
  let '(fsParts, size, _) := complete_plan m b o parts in
  let '(fm, err) := json_Unmarshal (e_value upload) (set_Parts zeroFsMeta fsParts) in
  (complete_meta fm (newVersion (current_version m (makeKey b o)).1)
     (getCompleteMultipartMD5 parts) size, err).

(** ** CompleteMultipartUpload *)

(** The part keys of the version that a completion replaces. *)
Definition old_parts (m : gmap bytes entry) (b o v : bytes) : list bytes :=
  if decide (v = []) then [] else under m (version_prefix (makeKey b o) v).

Definition complete_post (m : gmap bytes entry) (b o uploadID : bytes) (parts : list CompletePart)
    (r : ObjectInfo * option error) (m' : gmap bytes entry) : Prop :=
  let jk := CString (json_key b o uploadID) in
  let ok := CString (makeKey b o) in
  match (complete_plan m b o parts).2, m !! jk with
  | Some e, _ => r = (zeroObjectInfo, Some e) /\ m' = m
  | None, None => r = (zeroObjectInfo, Some errFileNotFound) /\ m' = m
  | None, Some up =>
      (exists e, r = (zeroObjectInfo, Some e) /\ pruned [jk] m m') \/
      (exists fm, completed_meta m b o parts up = (fm, None) /\ r.2 = None /\
         m' !! ok = Some (mkEntry (json_Marshal fm) []) /\
         m' ⊆ <[ok := mkEntry (json_Marshal fm) []]> m /\
         ∀ k, k <> ok -> k <> jk -> k ∉ old_parts m b o (current_version m (makeKey b o)).1 -> m' !! k = m !! k)
  end.

Lemma makeKey_not_prefixed b o v : ~ version_prefix (makeKey b o) v `prefix_of` makeKey b o.
Proof.
  intros Hp%prefix_length. unfold version_prefix in Hp. rewrite !length_app in Hp.
  change (length (str ".")) with 1%nat in Hp. lia.
Qed.

Lemma parts_start_eq b o v : parts_start b o v = version_prefix (makeKey b o) v.
Proof. unfold parts_start, version_prefix, makeKey, SlashSeparator. by rewrite <- !app_assoc. Qed.

(** Everything up to the validation of the parts. *)
Lemma runs_complete_prologue {B} b o (k : bytes -> list ObjectPartInfo * Z * option error -> M B) parts R w :
  let m := view (w_drive w) in
  ready w -> small_meta m -> plain_store m -> no_nul (makeKey b o) ->
  (∀ w', ready w' -> same w w' -> w_drive w' = w_drive w -> w_tick w' = w_tick w ->
     runs (k (current_version m (makeKey b o)).1 (complete_plan m b o parts)) R w') ->
  runs ('(objVer, _) ← currentVersion (makeKey b o);
        let startKey := parts_start b o (newVersion objVer) in
        keys ← version_keys startKey;
        Keys ← part_names startKey keys;
        r ← complete_parts startKey Keys parts [] 0;
        k objVer r) R w.
Proof.
  intros m Hw Hm Hp Hn Hk. eapply runs_bind; [done|by apply runs_currentVersion|].
  intros [ver err] w1 Hw1 Hs1 (Ed1 & Et1 & E1). fold m in E1.
  rewrite parts_start_eq. set (p := version_prefix (makeKey b o) (newVersion ver)).
  assert (range_prefix p) as Hr by (apply version_prefix_range; [done|apply newVersion_no_nul]).
  eapply runs_bind; [done|apply runs_version_keys; [done|by rewrite Ed1|done]|].
  intros keys w2 Hw2 Hs2 (Ed2 & Et2 & ->). rewrite Ed1 in Ed2 |- *. fold m.
  eapply runs_bind; [done|apply runs_part_names; [done|]|].
  { apply Forall_take, Forall_forall. intros x Hx. by apply elem_of_under in Hx as [? _]. }
  intros Keys w3 Hw3 Hs3 (Ed3 & Et3 & ->).
  eapply runs_bind; [done|apply runs_complete_parts; [done|by rewrite Ed3, Ed2]|].
  intros r w4 Hw4 Hs4 (Ed4 & Et4 & ->). rewrite Ed3, Ed2 in *. fold m.
  assert (same w w4) as Hs by eauto using same_trans.
  specialize (Hk w4 Hw4 Hs Ed4 ltac:(congruence)).
  unfold complete_plan in Hk. rewrite <- E1 in Hk. cbn [fst] in Hk. exact Hk.
Qed.

Lemma json_key_ne b o u : makeKey b o <> json_key b o u.
Proof.
  intros E. apply (f_equal length) in E. unfold makeKey, json_key, SlashSeparator in E.
  rewrite !length_app in E. change (length (str ".")) with 1%nat in E. lia.
Qed.

Lemma pruned_singleton m k s : pruned [CString k] m (delete_result m k s).
Proof. apply pruned_delete, list_elem_of_here. Qed.

Lemma runs_CompleteMultipartUpload b o uploadID parts w :
  let m := view (w_drive w) in
  ready w -> small_meta m -> plain_store m -> plain_key (makeKey b o) ->
  no_nul (current_version m (makeKey b o)).1 -> no_nul (json_key b o uploadID) ->
  readable m (json_key b o uploadID) ->
  (∀ up, m !! CString (json_key b o uploadID) = Some up ->
     Z.of_nat (length (json_Marshal (completed_meta m b o parts up).1)) <= 2 ^ 30) ->
  runs (CompleteMultipartUpload b o uploadID parts) (λ r d t,
    complete_post m b o uploadID parts r (view d)) w.
Proof.
  intros m Hw Hm Hp Hpk Hver Hjn Hrd Hfit. pose proof Hpk as (_ & _ & Hn).
  unfold CompleteMultipartUpload. cbn zeta.
  apply (runs_complete_prologue b o (λ objVer r, _)); [done..|].
  intros w1 Hw1 _ Ed _. unfold complete_post, completed_meta in *. fold m. unfold m in *. clear m.
  rewrite <- Ed in *. clear Hw Ed w. set (m := view (w_drive w1)) in *.
  set (jk := json_key b o uploadID) in *. set (objVer := (current_version m (makeKey b o)).1) in *.
  destruct (complete_plan m b o parts) as [[fsParts size] [e|]] eqn:Eplan; [by apply runs_ret|].
  cbn [snd]. wp_steps. apply wp_CGet_all; wsimpl; fold m.
  { intros e He. by eapply Hrd. }
  2: { intros v Hv. rewrite Hv. wp_steps. split; [same_now|done]. }
  intros up Hup. rewrite Hup. specialize (Hfit up Hup). wp_steps.
  apply wp_cslice; [by eapply Hrd|]. wp_steps. fold m in Edel.
  assert (pruned [CString jk] m (view d)) as Hpr by (rewrite Edel; apply pruned_singleton).
  destruct (json_Unmarshal (e_value up) _) as [fm [err|]]; wp_steps.
  { split; [same_now|]. left. eauto. }
  cbn [fst] in Hfit. apply wp_alloc; [lia|]. wp_steps.
  apply wp_CPut; [apply json_Marshal_nonempty|done|]. intros d2 s2 Hd2. wsimpl in Hd2. wp_steps.
  change (b ++ str "/" ++ o) with (makeKey b o) in Hd2. unfold put_result in Hd2.
  destruct (toKineticError s2) eqn:Es2; wp_steps.
  { split; [same_now|]. left. rewrite decide_False in Hd2 by (intros ->; done). rewrite Hd2. eauto. }
  apply toKineticError_None in Es2. rewrite decide_True in Hd2 by done. cbn [Z.to_nat take] in Hd2.
  rewrite (CString_id (makeKey b o) Hn) in *.
  set (fm' := complete_meta fm (newVersion objVer) (getCompleteMultipartMD5 parts) size) in *.
  assert (∀ r m', r.2 = None -> pruned (old_parts (view d2) b o objVer) (view d2) m' ->
    (∃ e : error, r = (zeroObjectInfo, Some e) ∧ pruned [CString jk] m m') \/
    ∃ fm0 : fsMetaV1, (fm', None) = (fm0, None : option error) ∧ r.2 = None ∧
      m' !! makeKey b o = Some (mkEntry (json_Marshal fm0) []) ∧
      m' ⊆ <[makeKey b o := mkEntry (json_Marshal fm0) []]> m ∧
      ∀ k, k <> makeKey b o -> k <> CString jk -> k ∉ old_parts m b o objVer -> m' !! k = m !! k) as HR.
  { intros r m' Hr [H5 H6]. right. exists fm'. split_and!; [done|done| | |].
    2: { etrans; [exact H5|]. rewrite Hd2. apply insert_mono. apply Hpr. }
    - rewrite H6; [by rewrite Hd2, lookup_insert_eq|]. unfold old_parts. case_decide; [apply not_elem_of_nil|].
      rewrite elem_of_under. intros [? _]. by eapply makeKey_not_prefixed.
    - intros k H7 H8 H9. destruct Hpr as [Hpr1 Hpr2].
      assert (view d2 !! k = m !! k) as Hk.
      { rewrite Hd2, lookup_insert_ne by done. apply Hpr2. by rewrite list_elem_of_singleton. }
      rewrite H6; [done|]. unfold old_parts in *. case_decide; [done|].
      rewrite elem_of_under in *. by rewrite Hk. }
  destruct (decide (objVer = [])) as [Hv|Hv].
  - wp_steps. split; [same_now|]. apply HR; [done|]. unfold old_parts. by rewrite decide_True.
  - set (w2 := set_mutex false _). assert (same w1 w2) as Hs2 by (unfold w2; same_now).
    assert (ready w2) as Hw2 by eauto using ready_same.
    assert (plain_store (view (w_drive w2))) as Hp2.
    { unfold w2. wsimpl. rewrite Hd2. intros k e. rewrite lookup_insert. case_decide; subst; [done|].
      intros He. eapply Hp. eapply lookup_weaken; [exact He|apply Hpr]. }
    eapply wp_mono; [by apply runs_deleteParts|]. simpl. intros r w3 (Hs3 & _ & Hpd & _).
    wp_steps. split; [destruct Hs2, Hs3; split; wsimpl; try done; congruence|]. apply HR; [done|].
    unfold old_parts. by rewrite decide_False.
Qed.

End spec.

(** The name of a part carries its number, its ETag and its size: decoding
    the encoded name gives them back, for every part number and size and every
    ETag without a dot. *)
Theorem part_name_roundtrip n etag size :
  0 <= n <= int64_max -> "."%char ∉ etag -> in_int64 size ->
  decodePartFile (encodePartFile n etag size) = (n, etag, size, None).
Proof. apply decode_encode_part. Qed.

