(* ===== verification/Encodable.v ===== *)
(** * Metadata records the JSON text reproduces exactly

    The records the object layer writes satisfy [json_encodable]: names and
    user metadata in UTF-8, and everything the layer adds is plain ASCII. *)
From S2P Require Import Prelude GoLib IncStr Errors Metadata NsLock Pool Drive World HashReader.
From S2P Require Import HttpRange Client Names Buckets Objects ObjectsSpec Multipart.

(** ** ASCII strings *)
Definition ascii7 (s : bytes) : Prop := Forall (λ c, (N_of_ascii c < 128)%N) s.

Lemma ascii7_utf8 s : ascii7 s -> utf8_ok s.
Proof.
  unfold utf8_ok. induction 1 as [|c s Hc Hs IH]; [done|]. cbn [utf8.ValidString].
  unfold utf8.inr at 1.
  assert (((0 <=? N_of_ascii c) && (N_of_ascii c <=? 127))%N = true) as ->; [|done].
  apply andb_true_iff. split; apply N.leb_le; lia.
Qed.

Lemma ascii7_app s t : ascii7 s -> ascii7 t -> ascii7 (s ++ t).
Proof. apply Forall_app_2. Qed.

Lemma ascii7_take n s : ascii7 s -> ascii7 (take n s).
Proof. apply Forall_take. Qed.

Lemma digits_ascii7 s : Forall is_digit s -> ascii7 s.
Proof. intros Hs. eapply Forall_impl; [exact Hs|]. unfold is_digit. intros c Hc. lia. Qed.

Lemma FormatInt_ascii7 z : ascii7 (FormatInt z).
Proof.
  unfold FormatInt. case_match.
  - apply Forall_cons. split; [done|]. apply digits_ascii7, FormatUint_digits.
  - apply digits_ascii7, FormatUint_digits.
Qed.

Lemma Format5d_ascii7 z : ascii7 (Format5d z).
Proof.
  unfold Format5d. case_match.
  - apply Forall_cons. split; [done|]. apply digits_ascii7, pad5_digits.
  - apply digits_ascii7, pad5_digits.
Qed.

Lemma hexdigit_ascii7 n : (n < 16)%N -> (N_of_ascii (hex.hexdigit n) < 128)%N.
Proof. intros Hn. unfold hex.hexdigit. case_match; rewrite N_ascii_embedding; lia. Qed.

Lemma hex_ascii7 s : ascii7 (hex.EncodeToString s).
Proof.
  induction s as [|c s IH]; [constructor|]. cbn [hex.EncodeToString flat_map].
  pose proof (N_ascii_bounded c). apply ascii7_app; [|exact IH].
  repeat (apply Forall_cons; split); [apply hexdigit_ascii7..|constructor].
  - apply N.Div0.div_lt_upper_bound; lia.
  - by apply N.mod_lt.
Qed.

Lemma newVersion_ascii7 v : ascii7 (newVersion v).
Proof. unfold newVersion. case_decide; apply Format5d_ascii7. Qed.

(** ** Metadata maps *)
Definition utf8_map (m : strmap) : Prop := ∀ k v, m !! k = Some v -> utf8_ok k /\ utf8_ok v.

Lemma utf8_map_insert m k v : utf8_ok k -> utf8_ok v -> utf8_map m -> utf8_map (<[k := v]> m).
Proof.
  intros Hk Hv Hm k' v'. rewrite lookup_insert. case_decide; subst; [by intros [= <-]|]. apply Hm.
Qed.

Lemma utf8_map_empty : utf8_map ∅.
Proof. intros k v. by rewrite lookup_empty. Qed.

Lemma utf8_map_singleton k v : utf8_ok k -> utf8_ok v -> utf8_map {[k := v]}.
Proof. intros Hk Hv k' v'. rewrite lookup_singleton. case_decide; [|done]. intros [= <-]. by subst. Qed.

Lemma newFSMeta_encodable m ki parts :
  utf8_map m -> utf8_ok (ko_Name ki) -> in_int64 (ko_Size ki) -> json_time (ko_CreatedTime ki) ->
  json_time (ko_ModTime ki) ->
  Forall (λ p, utf8_ok (part_ETag p) /\ in_int64 (part_Number p) /\
               in_int64 (part_Size p) /\ in_int64 (part_ActualSize p)) parts ->
  json_encodable (set_KoInfo (set_Parts (set_Meta newFSMetaV1 (Some m)) parts) ki).
Proof.
  intros. unfold json_encodable. cbn. by split_and!.
Qed.

Section env.
Context `{KineticDrive} `{LRWMutex} `{MetaCodec} `{MetaEnv} `{OSEnv}.

(** The clock shows years that RFC 3339 can write. *)
Definition clock_ok : Prop := ∀ t, json_time (env_now t).

Lemma put_fsMeta_encodable o ud size version etag now :
  utf8_ok o -> utf8_map ud -> ascii7 version -> ascii7 etag -> in_int64 size -> json_time now ->
  json_encodable (put_fsMeta o ud size version etag now).
Proof.
  intros Ho Hud Hv He Hs Hn. unfold put_fsMeta.
  apply (newFSMeta_encodable _ (mkKOInfo o size now zeroTime) []); try done.
  repeat apply utf8_map_insert; try done; apply ascii7_utf8; done || apply FormatInt_ascii7.
Qed.

Lemma part_fsMeta_encodable o etag size now :
  utf8_ok o -> utf8_ok etag -> in_int64 size -> json_time now ->
  json_encodable (part_fsMeta o etag size now).
Proof.
  intros Ho He Hs Hn. unfold part_fsMeta.
  apply (newFSMeta_encodable _ (mkKOInfo o size now zeroTime) []); try done.
  repeat apply utf8_map_insert; try done. apply ascii7_utf8, FormatInt_ascii7.
Qed.

Lemma etag_at_ascii7 r t : ascii7 (etag_at r t).1.
Proof.
  unfold etag_at. case_decide; cbn [fst]; [|apply hex_ascii7].
  apply ascii7_app; [apply ascii7_take, hex_ascii7|]. repeat constructor.
Qed.

Lemma IsValidObjectPrefix_utf8 o : IsValidObjectPrefix o = true -> utf8_ok o.
Proof. unfold IsValidObjectPrefix, utf8_ok. by destruct (hasBadPathComponent o), (utf8.ValidString o). Qed.

Lemma put_name_utf8 b o size : put_name_error b o size = None -> utf8_ok o.
Proof.
  unfold put_name_error. case_match; [done|]. intros Hn. apply IsValidObjectPrefix_utf8.
  destruct (IsValidObjectPrefix o); [done|]. by rewrite orb_true_r in Hn.
Qed.

End env.
