(* ===== verification/ReadSpec.v ===== *)
(** * Client.Read and the copy loop of a GET

    Reading a single-value object, and reading a multipart object part after
    part. *)
From S2P Require Import Prelude GoLib IncStr Errors Metadata NsLock Pool Drive World Client.

Section read.
Context `{KineticDrive} `{LRWMutex} `{MetaCodec}.
Context `{!KineticDriveSpec _}.

(** [p] is [p0] with client [i] taken and about to read part [np]. *)
Record pool_at (i : nat) (np : Z) (p0 p : KConnsPool) : Prop := {
  at_wf : pool_wf p;
  at_free : in_use p0 i = false;
  at_used : used p = {[i]} ∪ used p0;
  at_next : next_parts p = <[i := np]> (next_parts p0) }.

Lemma pool_plus_at i np p0 p :
  pool_plus i p0 p -> next_parts p0 !! i = Some np -> pool_at i np p0 p.
Proof. intros [] Hn. split; [done..|]. by rewrite insert_id. Qed.

Lemma pool_at_plus i np p0 p c :
  pool_at i np p0 p -> next_parts p0 !! i = Some np -> kcs p !! i = Some c -> pool_plus i p0 p.
Proof. intros [] Hn Hc. split; [done..| |by eauto]. by rewrite <- (insert_id _ _ _ Hn). Qed.

Lemma wp_client_set_at i np np' p0 c f (Q : unit -> World -> Prop) w :
  pool_at i np p0 (w_pool w) -> kcs (w_pool w) !! i = Some c -> c_NextPartNumber (f c) = np' ->
  (∀ p, pool_at i np' p0 p -> kcs p !! i = Some (f c) -> Q tt (set_pool p w)) ->
  wp (client_set i f) Q w.
Proof.
  intros [[H1' H2' H3'] Hf Hu Hn] Hc Hnp HQ. unfold wp, client_set. apply HQ.
  - split; [split|done| |].
    + intros j Hj. cbn [kcs]. rewrite lookup_alter. case_decide; subst; [|auto].
      apply fmap_is_Some. auto.
    + apply H2'.
    + cbn [totalInUsed]. rewrite H3', used_eq. done.
    + rewrite <- Hu, used_eq. done.
    + unfold next_parts in *. cbn [kcs]. apply map_eq. intros j.
      apply (f_equal (.!! j)) in Hn. rewrite lookup_fmap in Hn |- *.
      destruct (decide (i = j)) as [->|Hij].
      * by rewrite lookup_alter_eq, lookup_insert_eq, Hc, <- Hnp.
      * rewrite lookup_alter_ne by done. rewrite lookup_insert_ne in Hn |- * by done. done.
  - cbn [kcs]. by rewrite lookup_alter_eq, Hc.
Qed.

Lemma wp_client_get i c (Q : Client -> World -> Prop) w :
  kcs (w_pool w) !! i = Some c -> Q c w -> wp (client_get i) Q w.
Proof. intros Hc HQ. unfold wp, client_get. by rewrite Hc. Qed.

(** ** Objects stored as one value *)

(** [e] is the entry of an object with no parts and metadata [fsMeta]. *)
Definition single_object (e : entry) (fsMeta : fsMetaV1) : Prop :=
  Z.of_nat (length (e_meta e)) <= 2 ^ 16 /\ Z.of_nat (length (e_value e)) <= 2 ^ 30 /\
  json_Unmarshal (e_meta e) zeroFsMeta = (fsMeta, None) /\ Parts fsMeta = [] /\
  (Atoi (mget (Meta fsMeta) (str "size"))).1 = Z.of_nat (length (e_value e)).

(** The bytes [off, off+n) of a value. *)
Definition slice (off n : Z) (v : bytes) : bytes := take (Z.to_nat n) (drop (Z.to_nat off) v).

Lemma slice_length off n v :
  0 <= off -> 0 <= n -> off + n <= Z.of_nat (length v) -> Z.of_nat (length (slice off n v)) = n.
Proof. intros. unfold slice. rewrite length_take, length_drop. lia. Qed.

Lemma wp_Read_single i np p0 c e fsMeta n (Q : bytes * Z * option error -> World -> Prop) w :
  pool_at i np p0 (w_pool w) -> kcs (w_pool w) !! i = Some c ->
  view (w_drive w) !! CString (c_Key c) = Some e -> single_object e fsMeta ->
  0 <= c_DataOffset c -> 0 < n -> c_DataOffset c + n <= Z.of_nat (length (e_value e)) ->
  (∀ p c', pool_at i np p0 p -> kcs p !! i = Some c' ->
     Q (slice (c_DataOffset c) n (e_value e), n, None) (set_pool p w)) ->
  wp (Read i n) Q w.
Proof.
  intros Hp Hc He (Hm & Hv & Hj & Hparts & Hsz) Ho Hn Hb HQ. unfold Read.
  apply wp_bind, (wp_client_get _ c); [done|]. apply wp_bind, wp_CGetMeta; intros e' He'; [|congruence].
  assert (e' = e) as -> by congruence. wsimpl. apply wp_bind, wp_bind, wp_cslice; [done|]. rewrite Hj. apply wp_ret. wsimpl.
  apply wp_bind. eapply wp_client_set_at; [done|done|reflexivity|]. cbn [c_NextPartNumber].
  assert (np = c_NextPartNumber c) as <-.
  { pose proof (f_equal (.!! i) (at_next _ _ _ _ Hp)) as E. cbn in E. unfold next_parts in E.
    rewrite lookup_fmap, Hc, lookup_insert_eq in E. simpl in E. congruence. }
  intros p Hp' Hc'. rewrite Hparts, Hsz. apply wp_bind.
  eapply wp_CGet; [exact He|done|lia|lia|lia|lia|]. wsimpl.
  assert (Z.min n (Z.of_nat (length (e_value e))) = n) as -> by lia.
  change (take (Z.to_nat n) (drop (Z.to_nat (c_DataOffset c)) (e_value e)))
    with (slice (c_DataOffset c) n (e_value e)).
  pose proof (slice_length (c_DataOffset c) n (e_value e) Ho ltac:(lia) ltac:(lia)) as Hl.
  apply wp_bind, wp_cslice; [lia|]. apply wp_ret. rewrite take_ge by lia. rewrite Hl. by eapply HQ.
Qed.

(** The copy loop with a buffer as large as the limit: one read. *)
Lemma wp_copy_single fuel i np p0 c e fsMeta L B (Q : bytes * option error -> World -> Prop) w :
  (2 <= fuel)%nat -> pool_at i np p0 (w_pool w) -> kcs (w_pool w) !! i = Some c ->
  view (w_drive w) !! CString (c_Key c) = Some e -> single_object e fsMeta ->
  0 <= c_DataOffset c -> 0 <= L <= B -> c_DataOffset c + L <= Z.of_nat (length (e_value e)) ->
  (∀ p c', pool_at i np p0 p -> kcs p !! i = Some c' ->
     Q (slice (c_DataOffset c) L (e_value e), None) (set_pool p w)) ->
  wp (copy_limited fuel i L B []) Q w.
Proof.
  intros Hf Hp Hc He Hs Ho HL Hb HQ. destruct fuel as [|[|fuel]]; [lia..|]. simpl.
  destruct (Z.leb_spec L 0) as [Hz|Hz].
  - apply wp_ret. assert (L = 0) as -> by lia. specialize (HQ (w_pool w) c Hp Hc). by destruct w.
  - rewrite Z.min_r by lia. apply wp_bind.
    eapply (wp_Read_single _ _ _ c e); [done..|]. intros p c' Hp' Hc'.
    replace (L - L) with 0 by lia. cbn [Z.leb Z.compare]. apply wp_ret. by eapply HQ.
Qed.

(** ** Multipart objects *)

(** Part [pt] is stored under [prefix] with value [v]. *)
Definition part_stored (m : gmap bytes entry) (prefix : bytes) (pt : ObjectPartInfo) (v : bytes) : Prop :=
  exists e, m !! CString (prefix ++ str "." ++
                 encodePartFile (part_Number pt) (part_ETag pt) (part_ActualSize pt)) = Some e /\
    e_value e = v /\ part_Size pt = Z.of_nat (length v) /\ 0 < Z.of_nat (length v) <= 2 ^ 30.

Definition after_part (nparts j : Z) : Z := if j =? nparts - 1 then 0 else j + 1.

Lemma wp_read_parts ix prefix nparts i parts pre pt post v n err p0 c
    (Q : bytes * Z * option error -> World -> Prop) w :
  parts = pre ++ pt :: post -> c_NextPartNumber c = i + Z.of_nat (length pre) ->
  pool_at ix (c_NextPartNumber c) p0 (w_pool w) -> kcs (w_pool w) !! ix = Some c ->
  c_DataOffset c = 0 -> part_stored (view (w_drive w)) prefix pt v -> part_Size pt <= n ->
  (∀ p c', pool_at ix (after_part nparts (c_NextPartNumber c)) p0 p -> kcs p !! ix = Some c' ->
     c_Key c' = c_Key c -> c_DataOffset c' = 0 ->
     c_NextPartNumber c' = after_part nparts (c_NextPartNumber c) ->
     Q (v, Z.of_nat (length v), None) (set_pool p w)) ->
  wp (read_parts ix prefix nparts i parts n err) Q w.
Proof.
  intros -> Hnp Hp Hc Ho (e & He & Hv & Hs & Hl) Hn HQ.
  revert i Hnp. induction pre as [|q pre IH]; intros i Hnp; simpl in *.
  - destruct (Z.eqb_spec n 0); [lia|]. apply wp_bind, (wp_client_get _ c); [done|].
    destruct (Z.eqb_spec i (c_NextPartNumber c)) as [->|]; [|lia]. apply wp_bind.
    assert ((if part_Size pt <? n then part_Size pt else n) = part_Size pt) as ->
      by (destruct (Z.ltb_spec (part_Size pt) n); lia).
    subst v. eapply wp_CGet; [exact He|done|lia..|]. rewrite Ho, Hs, Z.min_id. change (Z.to_nat 0) with 0%nat.
    rewrite drop_0, take_ge by lia. apply wp_bind, wp_cslice; [lia|]. apply wp_bind.
    eapply wp_client_set_at; [done|done|reflexivity|]. cbn [c_NextPartNumber].
    intros p Hp' Hc'. apply wp_ret. rewrite take_ge by lia. eapply HQ; [exact Hp'|exact Hc'|done|done|done].
  - destruct (Z.eqb_spec n 0); [lia|]. apply wp_bind, (wp_client_get _ c); [done|].
    destruct (Z.eqb_spec i (c_NextPartNumber c)) as [->|]; [lia|]. apply IH. lia.
Qed.

(** [e] is the entry of an object with the parts of [fsMeta]. *)
Definition multi_object (e : entry) (fsMeta : fsMetaV1) : Prop :=
  Z.of_nat (length (e_meta e)) <= 2 ^ 16 /\
  json_Unmarshal (e_meta e) zeroFsMeta = (fsMeta, None) /\ Parts fsMeta <> [].

Definition parts_prefix (key : bytes) (fsMeta : fsMetaV1) : bytes :=
  key ++ str "." ++ mget (Meta fsMeta) (str "version").

Lemma wp_Read_multi ix p0 c e fsMeta pre pt post v n (Q : bytes * Z * option error -> World -> Prop) w :
  view (w_drive w) !! CString (c_Key c) = Some e -> multi_object e fsMeta ->
  Parts fsMeta = pre ++ pt :: post -> c_NextPartNumber c = Z.of_nat (length pre) ->
  pool_at ix (c_NextPartNumber c) p0 (w_pool w) -> kcs (w_pool w) !! ix = Some c ->
  c_DataOffset c = 0 -> part_stored (view (w_drive w)) (parts_prefix (c_Key c) fsMeta) pt v ->
  part_Size pt <= n ->
  (∀ p c', pool_at ix (after_part (Z.of_nat (length (Parts fsMeta))) (c_NextPartNumber c)) p0 p ->
     kcs p !! ix = Some c' -> c_Key c' = c_Key c -> c_DataOffset c' = 0 ->
     c_NextPartNumber c' = after_part (Z.of_nat (length (Parts fsMeta))) (c_NextPartNumber c) ->
     Q (v, Z.of_nat (length v), None) (set_pool p w)) ->
  wp (Read ix n) Q w.
Proof.
  intros He (Hm & Hj & Hne) Hparts Hnp Hp Hc Ho Hv Hn HQ. unfold Read.
  apply wp_bind, (wp_client_get _ c); [done|]. apply wp_bind, wp_CGetMeta; intros e' He'; [|congruence].
  assert (e' = e) as -> by congruence.
  wsimpl. apply wp_bind, wp_bind, wp_cslice; [done|]. rewrite Hj. apply wp_ret. wsimpl.
  apply wp_bind. eapply wp_client_set_at; [done|done|reflexivity|]. cbn [c_NextPartNumber].
  intros p Hp' Hc'.
  destruct (Parts fsMeta) as [|q qs] eqn:Eq; [done|].
  match type of Hc' with _ = Some ?x => eapply wp_read_parts with (c := x) end;
    [exact Hparts| |exact Hp'|exact Hc'|done|exact Hv|done|].
  - cbn [c_NextPartNumber]. lia.
  - cbn [c_NextPartNumber c_Key]. intros p2 c2 ? ? ? ? ?. by eapply HQ.
Qed.

Definition total_size (parts : list ObjectPartInfo) : Z :=
  foldr (λ p acc, part_Size p + acc) 0 parts.

(** The parts [todo] are those that follow each other in [parts] from number [j]
    on, the first one after the last. *)
Definition in_circle (parts : list ObjectPartInfo) (j : nat) (todo : list ObjectPartInfo) : Prop :=
  ∀ k pt, todo !! k = Some pt -> parts !! ((j + k) mod length parts)%nat = Some pt.

Lemma in_circle_all parts k : (k < length parts)%nat -> in_circle parts k (rotate k parts).
Proof.
  intros Hk i pt Hi. pose proof (lookup_lt_Some _ _ _ Hi) as Hlt. rewrite length_rotate in Hlt.
  rewrite lookup_rotate_r in Hi by done. rewrite <- Hi. f_equal. unfold rotate_nat_add.
  rewrite <- Nat2Z.inj_add, <- Nat2Z.inj_mod. by rewrite Nat2Z.id.
Qed.

Lemma after_part_mod n j : (j < n)%nat -> after_part (Z.of_nat n) (Z.of_nat j) = Z.of_nat ((j + 1) mod n).
Proof.
  intros Hj. unfold after_part. destruct (Z.eqb_spec (Z.of_nat j) (Z.of_nat n - 1)).
  - replace (j + 1)%nat with n by lia. by rewrite Nat.Div0.mod_same.
  - rewrite Nat.mod_small by lia. lia.
Qed.

(** The copy loop from the part that the client is at: it takes the parts in a
    circle. *)
Lemma wp_copy_parts fuel ix p0 c e fsMeta j todo vals L B acc
    (Q : bytes * option error -> World -> Prop) w :
  (length todo < fuel)%nat ->
  view (w_drive w) !! CString (c_Key c) = Some e -> multi_object e fsMeta ->
  (j < length (Parts fsMeta))%nat -> in_circle (Parts fsMeta) j todo -> c_NextPartNumber c = Z.of_nat j ->
  pool_at ix (c_NextPartNumber c) p0 (w_pool w) -> kcs (w_pool w) !! ix = Some c ->
  c_DataOffset c = 0 ->
  Forall2 (part_stored (view (w_drive w)) (parts_prefix (c_Key c) fsMeta)) todo vals ->
  L = total_size todo -> L <= B ->
  (∀ p c', pool_at ix (Z.of_nat ((j + length todo) mod length (Parts fsMeta))) p0 p -> kcs p !! ix = Some c' ->
     Q (acc ++ concat vals, None) (set_pool p w)) ->
  wp (copy_limited fuel ix L B acc) Q w.
Proof.
  revert fuel c j vals L acc w. induction todo as [|pt todo IH];
    intros fuel c j vals L acc w Hf He Hm Hj Hin Hnp Hp Hc Ho Hv HL HB HQ;
    (destruct fuel as [|fuel]; [simpl in Hf; lia|]).
  - inversion Hv; subst. simpl. apply wp_ret. rewrite Hnp in Hp. cbn [length] in HQ.
    rewrite Nat.add_0_r, Nat.mod_small in HQ by done. specialize (HQ _ _ Hp Hc). simpl in HQ. rewrite app_nil_r in HQ. by destruct w.
  - inversion Hv as [|? v ? vals' Hv1 Hv2]; subst.
    assert (0 <= total_size todo) as Hpos.
    { clear -Hv2. induction Hv2 as [|q u ? ? (?&_&_&?&?) _ IH]; simpl; lia. }
    pose proof Hv1 as (_ & _ & _ & Hs & Hl). simpl in HB |- *.
    destruct (Z.leb_spec (part_Size pt + total_size todo) 0); [lia|].
    pose proof (Hin 0%nat pt eq_refl) as Hpt. rewrite Nat.add_0_r, Nat.mod_small in Hpt by done.
    rewrite Z.min_r by lia. apply wp_bind.
    eapply (wp_Read_multi ix p0 c e fsMeta (take j (Parts fsMeta)) pt (drop (S j) (Parts fsMeta)));
      [done|done|by rewrite take_drop_middle|rewrite length_take; lia|done..|lia|].
    intros p c' Hp' Hc' Hk' Ho' Hnp'. rewrite Hnp, after_part_mod in Hp', Hnp' by done.
    rewrite Hs. rewrite Z.add_simpl_l.
    eapply (IH fuel c' ((j + 1) mod length (Parts fsMeta))%nat vals').
    + simpl in Hf |- *. lia.
    + by rewrite Hk'.
    + done.
    + apply Nat.mod_upper_bound. lia.
    + intros k q Hq. specialize (Hin (S k) q Hq). rewrite Nat.Div0.add_mod_idemp_l. rewrite <- Hin. f_equal. f_equal. lia.
    + done.
    + wsimpl. by rewrite Hnp'.
    + done.
    + done.
    + by rewrite Hk'.
    + done.
    + lia.
    + intros p3 c3 Hp3 Hc3. rewrite <- app_assoc. eapply (HQ p3 c3); [|done]. cbn [length].
      rewrite Nat.Div0.add_mod_idemp_l in Hp3. by replace (j + S (length todo))%nat with (j + 1 + length todo)%nat by lia.
Qed.

End read.
