(* ===== verification/GetSpec.v ===== *)
(** * GET of an object: open, copy, close

    The whole path of a GET request through [GetObjectNInfo], [Client.Read] and
    [GetObjectReader.Close], for objects stored as one value and neither
    encrypted nor compressed. *)
From S2P Require Import Prelude GoLib IncStr Errors Metadata NsLock Pool Drive World HashReader.
From S2P Require Import HttpRange Client Names Buckets Objects ObjectsSpec ReadSpec.

(** ** Metadata of plain objects *)
Lemma cleanMetadata_subseteq m : cleanMetadata m ⊆ m.
Proof.
  unfold cleanMetadata, cleanMetadataKeys. etrans; [apply map_filter_subseteq|].
  unfold removeStandardStorageClass. case_decide; [apply delete_subseteq|done].
Qed.

Lemma has_key_clean `{MetaEnv} m o k :
  k <> str "content-type" -> k <> str "etag" -> has_key m k = false ->
  has_key (Some (cleanMetadata (objectMeta m o))) k = false.
Proof.
  intros H1 H2 Hk. unfold has_key in *. cbn [default from_option id].
  apply bool_decide_eq_false in Hk. apply bool_decide_eq_false. intros [v Hv]. apply Hk.
  pose proof (lookup_weaken _ _ _ _ Hv (cleanMetadata_subseteq _)) as Hv'.
  rewrite objectMeta_lookup in Hv' by auto. eauto.
Qed.

(** The entries that mark an encrypted or a compressed object. *)
Definition internal_keys : list bytes :=
  [str "X-Minio-Internal-Server-Side-Encryption-Iv";
   str "X-Minio-Internal-Server-Side-Encryption-Seal-Algorithm";
   str "X-Minio-Internal-Encrypted-Multipart";
   str "X-Minio-Internal-Server-Side-Encryption-S3-Sealed-Key";
   str "X-Minio-Internal-Server-Side-Encryption-S3-Kms-Key-Id";
   str "X-Minio-Internal-Server-Side-Encryption-S3-Kms-Sealed-Key";
   str "X-Minio-Internal-Server-Side-Encryption-Sealed-Key";
   ReservedMetadataPrefix ++ str "compression"].

Definition plain_meta (m : option strmap) : Prop := ∀ k, k ∈ internal_keys -> has_key m k = false.

Section get.
Context `{KineticDrive} `{LRWMutex} `{MetaCodec} `{MetaEnv} `{OSEnv}.
Context `{!KineticDriveSpec _} `{!LRWMutexLaws _} `{!MetaCodecLaws _}.

Lemma plain_info fsMeta b o :
  plain_meta (Meta fsMeta) ->
  IsEncrypted (oi_UserDefined (info_of fsMeta b o)) = false /\
  IsCompressedOK (info_of fsMeta b o) = (false, None).
Proof.
  intros Hm. unfold info_of, KVInfoToObjectInfo, IsCompressedOK. cbn [oi_UserDefined].
  assert (∀ k, k ∈ internal_keys -> k <> str "content-type" -> k <> str "etag" ->
    has_key (Some (cleanMetadata (objectMeta (Meta fsMeta) o))) k = false) as Hk.
  { intros k Hk H5 H6. apply has_key_clean; auto. }
  split.
  - unfold IsEncrypted, IsMultiPart. rewrite !Hk; done || (unfold internal_keys; set_solver).
  - assert (has_key (Some (cleanMetadata (objectMeta (Meta fsMeta) o)))
              (ReservedMetadataPrefix ++ str "compression") = false) as Hc.
    { apply Hk; done || (unfold internal_keys; set_solver). }
    unfold has_key in Hc. apply bool_decide_eq_false, eq_None_not_Some in Hc.
    cbn [default from_option id] in Hc |- *. by rewrite Hc.
Qed.

(** Under [key] is an object with content [v], written as one value with the
    metadata record [fm]. *)
Record stored_object (m : gmap bytes entry) (key : bytes) (fm : fsMetaV1) (v : bytes) : Prop := {
  so_entry : m !! CString key = Some (mkEntry (json_Marshal fm) v);
  so_fits : Z.of_nat (length (json_Marshal fm)) <= 2 ^ 16;
  so_value : Z.of_nat (length v) <= 2 ^ 30;
  so_encodable : json_encodable fm;
  so_parts : Parts fm = [];
  so_size : mget (Meta fm) (str "size") = FormatInt (Z.of_nat (length v));
  so_plain : plain_meta (Meta fm) }.

Lemma mget_overlay fm base k :
  default ∅ (Meta base) = ∅ -> Parts base = [] ->
  mget (Meta (json_overlay fm base)) k = mget (Meta fm) k.
Proof.
  intros Hb Hp. rewrite !mget_default. by destruct (json_overlay_fresh fm base Hb Hp) as (-> & _).
Qed.

Lemma Atoi_size (v : bytes) : Z.of_nat (length v) <= 2 ^ 30 ->
  ParseInt (FormatInt (Z.of_nat (length v))) = (Z.of_nat (length v), false).
Proof. intros Hv. apply ParseInt_FormatInt. unfold in_int64, int64_min, int64_max. lia. Qed.

Lemma stored_single m key fm v :
  stored_object m key fm v -> single_object (mkEntry (json_Marshal fm) v) (json_overlay fm zeroFsMeta).
Proof.
  intros []. unfold single_object. cbn [e_meta e_value].
  split_and!; [done|done|by apply json_roundtrip; [|left]| |].
  - unfold json_overlay. cbn [Parts]. by rewrite so_parts0.
  - rewrite mget_overlay by done. rewrite so_size0. unfold Atoi. by rewrite Atoi_size.
Qed.

Lemma stored_info m b o fm v :
  b <> [] -> stored_object m (b ++ str "/" ++ o) fm v ->
  exists fm', object_info m b o = (info_of fm' b o, None) /\ plain_meta (Meta fm') /\
    oi_Size (info_of fm' b o) = Z.of_nat (length v).
Proof.
  intros Hb []. exists (json_overlay fm (set_Meta zeroFsMeta (Some ∅))).
  unfold object_info, info_key. rewrite decide_False by done. rewrite so_entry0. cbn [e_meta].
  rewrite json_roundtrip by auto. split_and!; [done| |].
  - intros k Hk. specialize (so_plain0 k Hk). unfold has_key in *.
    apply bool_decide_eq_false in so_plain0. apply bool_decide_eq_false.
    match goal with |- context [json_overlay fm ?b] =>
      destruct (json_overlay_fresh fm b eq_refl eq_refl) as (E & _) end.
    intros Hx. rewrite E in Hx. done.
  - unfold info_of, KVInfoToObjectInfo. cbn [oi_Size].
    rewrite objectMeta_lookup by (done || (left; done)).
    rewrite <- mget_default, mget_overlay by done. rewrite so_size0. by rewrite Atoi_size.
Qed.

(** ** The steps of a GET *)

(** The local lock file of the object, which GETs open, is absent or opens. *)
Definition rwpool_ok (b o : bytes) : Prop :=
  rwPool_Open (fs_meta_path b o) = None \/ rwPool_Open (fs_meta_path b o) = Some errFileNotFound.

Lemma wp_run_cleanups_ns rd li cs (Q : unit -> World -> Prop) w :
  wp (run_cleanups cs) (λ _ w', wp (li_unlock rd li) Q w') w ->
  wp (run_cleanups (CleanNs rd li :: cs)) Q w.
Proof.
  intros Hw. cbn [run_cleanups]. apply wp_bind. eapply wp_mono; [exact Hw|].
  intros [] w' Hu. cbn [run_cleanup]. by destruct rd.
Qed.

(** [get_locked] on a plain object of a given size: the range is not satisfiable and the lock
    was given back, or a client is set up to read the range. *)
Definition plain_sized (m : gmap bytes entry) (b o : bytes) (size : Z) : Prop :=
  exists fm, object_info m b o = (info_of fm b o, None) /\ plain_meta (Meta fm) /\
    oi_Size (info_of fm b o) = size /\ 0 <= size < 2 ^ 62.

Lemma wp_get_locked b o rs size w (Q : option GetObjectReader * option error -> World -> Prop) :
  ready w -> small_meta (view (w_drive w)) -> HasSuffix o SlashSeparator = false ->
  rwpool_ok b o -> plain_sized (view (w_drive w)) b o size ->
  (∀ h, rs = Some h -> range_wf h) ->
  (∀ e w', same w w' -> w_drive w' = w_drive w -> w_tick w' = w_tick w ->
     GetOffsetLength rs size = (0, 0, Some e) ->
     wp (li_unlock true (NewNSLock b [o])) (λ _ w'', Q (None, Some e) w'') w') ->
  (∀ oi off len i c w' p rwc, same w w' -> w_drive w' = w_drive w -> w_tick w' = w_tick w ->
     GetOffsetLength rs size = (off, len, None) -> object_info (view (w_drive w)) b o = (oi, None) ->
     oi_Size oi = size -> pool_plus i (w_pool w') p ->
     kcs p !! i = Some c -> c_Key c = b ++ str "/" ++ o -> c_DataOffset c = off ->
     (rwc = [] \/ exists x, rwc = [CleanRwPool x]) ->
     Q (Some (mkGetObjectReader oi (Some i) len
               (CleanNs true (NewNSLock b [o]) :: rwc ++ [CleanConn i])), None) (set_pool p w')) ->
  wp (get_locked b o rs readLock None [CleanNs true (NewNSLock b [o])]) Q w.
Proof.
  intros Hw Hm Hdir Hrw Hso Hrs HF HS. unfold get_locked. apply wp_bind.
  eapply wp_mono; [by apply runs_getObjectInfo|]. simpl. intros [oi err] w1 (Hs & Ed & Et & E).
  destruct Hso as (fm' & Hinfo & Hpl & Hsize & Hv). rewrite Hinfo in E.
  injection E as -> ->. rewrite Hdir.
  destruct (plain_info fm' b o Hpl) as [Henc Hcomp].
  rewrite decide_False by (destruct Hrw as [->| ->]; case_match; naive_solver).
  set (rwc := if negb _ && _ then _ else _ : list cleanup).
  assert (rwc = [] \/ exists x, rwc = [CleanRwPool x]) as Hrwc by (unfold rwc; case_match; eauto).
  apply wp_bind. unfold NewGetObjectReader. rewrite Hcomp, Henc. cbn [orb]. rewrite Hsize.
  destruct (GetOffsetLength rs size) as [[off len] [e|]] eqn:Er.
  - assert (off = 0 /\ len = 0) as [-> ->].
    { unfold GetOffsetLength in Er. repeat case_match; by simplify_eq. }
    apply wp_bind. cbn [app]. apply wp_run_cleanups_ns.
    destruct Hrwc as [->|[x ->]]; cbn [run_cleanups run_cleanup]; wp_steps;
      (eapply wp_mono; [by apply HF|]); intros [] w2 HQ; wp_steps; done.
  - destruct (GetOffsetLength_bounds rs size off len) as (H5 & H6 & H7); auto.
    { unfold int64_max. lia. }
    wp_steps. rewrite (wrap_s_id 64) by lia.
    destruct (Z.ltb_spec size off); [lia|].
    destruct (Z.ltb_spec size (off + len)); [lia|]. cbn [orb].
    assert (ready w1) as Hw1 by eauto using ready_same. wp_steps.
    unfold objReaderFn. wp_steps. cbn [app].
    destruct (plus_client _ _ _ Hpool) as [c Hc].
    rewrite Hc in Hcl. cbn [fmap option_fmap option_map] in Hcl.
    change (set_pool p0 (set_pool p w1)) with (set_pool p0 w1).
    by eapply HS; eauto.
Qed.

(** Closing the reader gives back the client and then the lock. *)
Lemma wp_gr_Close b o oi len i rwc p0 n0 (Q : unit -> World -> Prop) w :
  (rwc = [] \/ exists x, rwc = [CleanRwPool x]) ->
  pool_plus i p0 (w_pool w) -> ns_wf n0 -> ns_wf (w_ns w) ->
  spec_lock (ns_abs n0) (pathJoin [b; o]) true = Some (ns_abs (w_ns w)) ->
  (∀ p n, pool_like p0 p -> ns_wf n -> ns_abs n = ns_abs n0 -> Q tt (set_ns n (set_pool p w))) ->
  wp (gr_Close (mkGetObjectReader oi (Some i) len
        (CleanNs true (NewNSLock b [o]) :: rwc ++ [CleanConn i]))) Q w.
Proof.
  intros Hrw Hp Hn0 Hn Hl HQ. unfold gr_Close. cbn [gr_cleanUpFns]. apply wp_run_cleanups_ns.
  assert (∀ w0 w', w0 = w' -> ∀ p, pool_like p0 p -> w0 = set_pool p w ->
    wp (li_unlock true (NewNSLock b [o])) Q w') as Hu.
  { intros w0 w' <- p Hlike ->. apply (wp_li_unlock _ _ _ n0); [done|done|done|].
    intros n Hn' Ha. by apply HQ. }
  destruct Hrw as [->|[x ->]]; cbn [app run_cleanups run_cleanup]; wp_steps; by eapply Hu.
Qed.

(** The GET of an object, given that the copy loop over the client that
    [GetObjectNInfo] sets up yields something with the property [content]. *)
Lemma runs_get_all fuel b o rs size (content : Z -> Z -> bytes -> Prop) w :
  ready w -> small_meta (view (w_drive w)) ->
  HasSuffix o SlashSeparator = false -> rwpool_ok b o -> checkGetObjArgs b o = None ->
  plain_sized (view (w_drive w)) b o size -> (∀ h, rs = Some h -> range_wf h) ->
  lockable w b o true ->
  (∀ off len i np p0 c w1 (Q : bytes * option error -> World -> Prop),
     GetOffsetLength rs size = (off, len, None) -> 0 <= off -> 0 <= len -> off + len <= size ->
     pool_at i np p0 (w_pool w1) -> kcs (w_pool w1) !! i = Some c -> w_drive w1 = w_drive w ->
     next_parts p0 !! i = next_parts (w_pool w) !! i -> next_parts p0 !! i = Some np ->
     c_Key c = b ++ str "/" ++ o -> c_DataOffset c = off ->
     (∀ x p c', content off len x -> pool_at i np p0 p -> kcs p !! i = Some c' -> Q (x, None) (set_pool p w1)) ->
     wp (copy_limited fuel i len (size + 1) []) Q w1) ->
  runs ('(gr, err) ← GetObjectNInfo b o rs readLock None;
        match gr with
        | None => mret ([], err)
        | Some g => gr_ReadAll fuel g (oi_Size (gr_ObjInfo g) + 1)
        end) (λ r d t, d = w_drive w /\
          match GetOffsetLength rs size with
          | (_, _, Some e) => r = ([], Some e)
          | (off, len, None) => r.2 = None /\ content off len r.1
          end) w.
Proof.
  intros Hw Hm Hdir Hrw Hck Hso Hrs Hlk Hcopy. unfold GetObjectNInfo. rewrite Hck. wp_steps.
  pose proof (ready_ns _ Hw) as Hns. pose proof (ready_counted _ Hw) as Hwc.
  apply wp_counted; [apply Hw|]. apply wp_bind, (wp_li_lock true); wsimpl; [done|done|].
  intros n Hlock Hn. set (w1 := set_ns n _).
  assert (ready w1) as Hw1 by (destruct Hwc; by split).
  eapply (wp_get_locked b o rs size w1); try done.
  - intros e w' Hs Ed Et Er. pose proof (same_nswf _ _ Hs). pose proof (same_ns _ _ Hs) as Ens.
    apply (wp_li_unlock _ _ _ (w_ns w)); [done|by rewrite Ens|done|]. intros n' Hn' Ha.
    split; [by apply Hs|]. wp_steps. split.
    + destruct Hs. split; done.
    + split; [done|]. by rewrite Er.
  - intros oi off len i c w' p rwc Hs Ed Et Er _ Hsz Hp Hc Hkey Hoff Hrwc. split; [by apply Hs|].
    wsimpl. cbn [gr_ObjInfo]. unfold gr_ReadAll. cbn [gr_client gr_length]. rewrite Hsz.
    destruct Hso as (_ & _ & _ & _ & Hv).
    destruct (GetOffsetLength_bounds rs size off len) as (H5 & H6 & H7); auto.
    { unfold int64_max. lia. }
    destruct (next_parts (w_pool w') !! i) as [np|] eqn:Enp.
    2: { pose proof (plus_next _ _ _ Hp) as E. rewrite <- E in Enp. unfold next_parts in Enp.
         by rewrite lookup_fmap, Hc in Enp. }
    apply wp_bind. eapply (Hcopy off len i np (w_pool w') c); [done..| | | | |done|done|done|].
    + wsimpl. by eapply pool_plus_at.
    + wsimpl. exact Hc.
    + done.
    + by rewrite (same_next _ _ Hs).
    + intros x p' c' Hx Hp' Hc'. wsimpl. apply wp_bind.
      pose proof (same_ns _ _ Hs) as Ens. pose proof (same_nswf _ _ Hs) as Hnw.
      eapply (wp_gr_Close _ _ _ _ _ _ (w_pool w') (w_ns w)); wsimpl; [done| |done|done| |].
      * by eapply pool_at_plus.
      * by rewrite Ens.
      * intros p2 n2 Hlike Hn2 Ha2. wp_steps. split.
        -- destruct Hs, Hlike. unfold w1 in *. wsimpl in *. split; wsimpl; try done; congruence.
        -- split; [done|]. by rewrite Er.
Qed.

(** The same for a body that may read from the client, given by what it does to
    the client: the reader is closed at its end. *)
Lemma runs_get_defer {A} b o rs size (kerr : option error -> A) (kbody : GetObjectReader -> M A) (S : A -> Prop) w :
  ready w -> small_meta (view (w_drive w)) ->
  HasSuffix o SlashSeparator = false -> rwpool_ok b o -> checkGetObjArgs b o = None ->
  plain_sized (view (w_drive w)) b o size -> (∀ h, rs = Some h -> range_wf h) -> lockable w b o true ->
  (∀ e, GetOffsetLength rs size = (0, 0, Some e) -> S (kerr (Some e))) ->
  (∀ oi off len i np p0 c w1 cs (Q : A -> World -> Prop),
     object_info (view (w_drive w)) b o = (oi, None) -> oi_Size oi = size ->
     GetOffsetLength rs size = (off, len, None) -> 0 <= off -> 0 <= len -> off + len <= size ->
     pool_at i np p0 (w_pool w1) -> kcs (w_pool w1) !! i = Some c -> w_drive w1 = w_drive w ->
     c_Key c = b ++ str "/" ++ o -> c_DataOffset c = off ->
     (∀ a p c', S a -> pool_at i np p0 p -> kcs p !! i = Some c' -> Q a (set_pool p w1)) ->
     wp (kbody (mkGetObjectReader oi (Some i) len cs)) Q w1) ->
  runs ('(gr, err) ← GetObjectNInfo b o rs readLock None;
        match gr with None => mret (kerr err) | Some g => defer (gr_Close g) (kbody g) end)
    (λ a d t, d = w_drive w /\ S a) w.
Proof.
  intros Hw Hm Hdir Hrw Hck Hso Hrs Hlk Hbad Hbody. unfold GetObjectNInfo. rewrite Hck. wp_steps.
  pose proof (ready_ns _ Hw) as Hns. pose proof (ready_counted _ Hw) as Hwc.
  apply wp_counted; [apply Hw|]. apply wp_bind, (wp_li_lock true); wsimpl; [done|done|].
  intros n Hlock Hn. set (w1 := set_ns n _).
  assert (ready w1) as Hw1 by (destruct Hwc; by split).
  eapply (wp_get_locked b o rs size w1); try done.
  - intros e w' Hs Ed Et Er. pose proof (same_nswf _ _ Hs). pose proof (same_ns _ _ Hs) as Ens.
    apply (wp_li_unlock _ _ _ (w_ns w)); [done|by rewrite Ens|done|]. intros n' Hn' Ha.
    split; [by apply Hs|]. wp_steps. split.
    + destruct Hs. split; done.
    + split; [done|]. by apply Hbad.
  - intros oi off len i c w' p rwc Hs Ed Et Er Hinfo Hsz Hp Hc Hkey Hoff Hrwc. split; [by apply Hs|]. wsimpl.
    destruct Hso as (_ & _ & _ & _ & Hv).
    destruct (GetOffsetLength_bounds rs size off len) as (H5 & H6 & H7); auto.
    { unfold int64_max. lia. }
    destruct (next_parts (w_pool w') !! i) as [np|] eqn:Enp.
    2: { pose proof (plus_next _ _ _ Hp) as E. rewrite <- E in Enp. unfold next_parts in Enp.
         by rewrite lookup_fmap, Hc in Enp. }
    apply wp_defer. eapply (Hbody oi off len i np (w_pool w') c); [done..| | | |done|done|].
    + wsimpl. by eapply pool_plus_at.
    + wsimpl. exact Hc.
    + done.
    + intros a p' c' HS Hp' Hc'. wsimpl.
      pose proof (same_ns _ _ Hs) as Ens. pose proof (same_nswf _ _ Hs) as Hnw.
      eapply (wp_gr_Close _ _ _ _ _ _ (w_pool w') (w_ns w)); wsimpl; [done| |done|done| |].
      * by eapply pool_at_plus.
      * by rewrite Ens.
      * intros p2 n2 Hlike Hn2 Ha2. wp_steps. split.
        -- destruct Hs, Hlike. unfold w1 in *. wsimpl in *. split; wsimpl; try done; congruence.
        -- split; [done|]. done.
Qed.

(** A GET whose metadata read fails gives the lock back and reports the error. *)
Lemma runs_get_error b o rs e oi (k : option GetObjectReader * option error -> M (bytes * option error)) R w :
  ready w -> small_meta (view (w_drive w)) -> checkGetObjArgs b o = None -> lockable w b o true ->
  object_info (view (w_drive w)) b o = (oi, Some e) ->
  (∀ w', ready w' -> same w w' -> w_drive w' = w_drive w ->
     runs (k (None, toObjectErr (Some e) [b; o])) R w') ->
  runs (GetObjectNInfo b o rs readLock None ≫= k) R w.
Proof.
  intros Hw Hm Hck Hlk Hinfo HR. unfold GetObjectNInfo. rewrite Hck. wp_steps.
  pose proof (ready_ns _ Hw) as Hns. pose proof (ready_counted _ Hw) as Hwc.
  apply wp_counted; [apply Hw|]. apply wp_bind, (wp_li_lock true); wsimpl; [done|done|].
  intros n Hlock Hn. set (w1 := set_ns n _).
  assert (ready w1) as Hw1 by (destruct Hwc; by split).
  unfold get_locked. apply wp_bind. eapply wp_mono; [by apply runs_getObjectInfo|].
  cbn beta. intros [oi' err] w2 (Hs & Ed & Et & E). change (w_drive w1) with (w_drive w) in E. rewrite Hinfo in E. injection E as -> ->.
  apply wp_bind, wp_run_cleanups_ns. cbn [run_cleanups]. apply wp_ret.
  apply (wp_li_unlock _ _ _ (w_ns w)); [done|by rewrite (same_ns _ _ Hs)|apply Hs|].
  intros n' Hn' Ha. wp_steps. split; [by rewrite (same_active _ _ Hs)|].
  assert (same w (set_active (w_active w) (set_ns n' w2))) as Hs'.
  { destruct Hs. by split. }
  apply runs_trans; [done|]. apply HR; [by apply (ready_same w)|done|done].
Qed.

(** ** Objects stored as one value *)
Lemma stored_plain m b o fm v :
  b <> [] -> stored_object m (b ++ str "/" ++ o) fm v -> plain_sized m b o (Z.of_nat (length v)).
Proof.
  intros Hb Hso. destruct (stored_info _ _ _ _ _ Hb Hso) as (fm' & ? & ? & ?).
  exists fm'. pose proof (so_value _ _ _ _ Hso). split_and!; try done; lia.
Qed.

Definition serve_spec (rs : option HTTPRangeSpec) (v : bytes) : bytes * option error :=
  match GetOffsetLength rs (Z.of_nat (length v)) with
  | (_, _, Some e) => ([], Some e)
  | (off, len, None) => (slice off len v, None)
  end.

Lemma runs_get_single fuel b o rs fm v w :
  ready w -> small_meta (view (w_drive w)) -> (2 <= fuel)%nat -> b <> [] ->
  HasSuffix o SlashSeparator = false -> rwpool_ok b o -> checkGetObjArgs b o = None ->
  stored_object (view (w_drive w)) (b ++ str "/" ++ o) fm v -> (∀ h, rs = Some h -> range_wf h) ->
  lockable w b o true ->
  runs ('(gr, err) ← GetObjectNInfo b o rs readLock None;
        match gr with
        | None => mret ([], err)
        | Some g => gr_ReadAll fuel g (oi_Size (gr_ObjInfo g) + 1)
        end) (λ r d t, d = w_drive w /\ r = serve_spec rs v) w.
Proof.
  intros Hw Hm Hf Hb Hdir Hrw Hck Hso Hrs Hlk.
  eapply runs_mono; [apply (runs_get_all fuel b o rs (Z.of_nat (length v)) (λ off len x, x = slice off len v)); try done|].
  { by eapply stored_plain. }
  2: { simpl. intros [x e] d t [-> HR]. split; [done|]. unfold serve_spec.
       destruct (GetOffsetLength rs _) as [[off len] [e'|]]; [done|]. cbn in HR. by destruct HR as [-> ->]. }
  intros off len i np p0 c w1 Q Er H5 H6 H7 Hp Hc Ed _ Hnp Hkey Hoff HQ.
  pose proof (so_entry _ _ _ _ Hso) as He. rewrite <- Ed, <- Hkey in He.
  eapply wp_copy_single; [done|done|done|exact He|by eapply stored_single|lia|lia|cbn [e_value]; lia|].
  cbn [e_value]. rewrite Hoff. intros p c'. by apply HQ.
Qed.

(** A GET with a Range header. *)
Definition header_spec (rangeHeader : bytes) (v : bytes) : bytes * option error :=
  let '(rs, err) := if decide (rangeHeader = []) then (None, None)
                    else parseRequestRangeSpec rangeHeader in
  if decide (err = Some errInvalidRange) then ([], Some errInvalidRange) else serve_spec rs v.

Lemma header_wf rangeHeader rs err :
  (if decide (rangeHeader = []) then (None, None) else parseRequestRangeSpec rangeHeader) = (rs, err) ->
  err <> Some errInvalidRange -> ∀ h, rs = Some h -> range_wf h.
Proof.
  intros E He h ->. case_decide; [done|]. destruct err as [e|]; [|by eapply parse_wf].
  exfalso. clear He. unfold parseRequestRangeSpec in E. repeat case_match; simplify_eq.
Qed.

Lemma runs_serve_single fuel b o rangeHeader fm v w :
  ready w -> small_meta (view (w_drive w)) -> (2 <= fuel)%nat -> b <> [] ->
  HasSuffix o SlashSeparator = false -> rwpool_ok b o -> checkGetObjArgs b o = None ->
  stored_object (view (w_drive w)) (b ++ str "/" ++ o) fm v -> lockable w b o true ->
  runs (GetObjectHandler_serve fuel b o rangeHeader) (λ r d t,
    d = w_drive w /\ r = header_spec rangeHeader v) w.
Proof.
  intros Hw Hm Hf Hb Hdir Hrw Hck Hso Hlk. unfold GetObjectHandler_serve, header_spec.
  destruct (if decide _ then _ else _) as [rs err] eqn:E.
  destruct (decide (err = Some errInvalidRange)) as [He|He]; [by apply runs_ret|].
  eapply runs_get_single; try done. by eapply header_wf.
Qed.

(** ** Multipart objects *)

(** Under [key] is a completed multipart object with metadata [fm], whose parts
    hold [vals]. *)
Record stored_multipart (m : gmap bytes entry) (key : bytes) (fm : fsMetaV1) (vals : list bytes) : Prop := {
  sm_entry : exists v, m !! CString key = Some (mkEntry (json_Marshal fm) v);
  sm_fits : Z.of_nat (length (json_Marshal fm)) <= 2 ^ 16;
  sm_encodable : json_encodable fm;
  sm_nonempty : Parts fm <> [];
  sm_parts : Forall2 (part_stored m (parts_prefix key fm)) (Parts fm) vals;
  sm_size : mget (Meta fm) (str "size") = FormatInt (total_size (Parts fm));
  sm_total : total_size (Parts fm) < 2 ^ 62;
  sm_plain : plain_meta (Meta fm) }.

Lemma total_size_nonneg m p parts vals :
  Forall2 (part_stored m p) parts vals -> 0 <= total_size parts.
Proof. induction 1 as [|q u ? ? (?&_&_&?&?) _ IH]; simpl; lia. Qed.

Lemma multi_plain m b o fm vals :
  b <> [] -> stored_multipart m (b ++ str "/" ++ o) fm vals -> plain_sized m b o (total_size (Parts fm)).
Proof.
  intros Hb [[v He] Hf Henc Hne Hst Hsz Htot Hpl]. pose proof (total_size_nonneg _ _ _ _ Hst) as Hpos.
  exists (json_overlay fm (set_Meta zeroFsMeta (Some ∅))).
  unfold object_info, info_key. rewrite decide_False by done. rewrite He. cbn [e_meta].
  rewrite json_roundtrip by auto. split_and!; [done| | |lia|lia].
  - intros k Hk. specialize (Hpl k Hk). unfold has_key in *.
    apply bool_decide_eq_false in Hpl. apply bool_decide_eq_false.
    match goal with |- context [json_overlay fm ?x] =>
      destruct (json_overlay_fresh fm x eq_refl eq_refl) as (E & _) end.
    intros Hx. rewrite E in Hx. done.
  - unfold info_of, KVInfoToObjectInfo. cbn [oi_Size].
    rewrite objectMeta_lookup by (done || (left; done)).
    rewrite <- mget_default, mget_overlay by done. rewrite Hsz.
    rewrite ParseInt_FormatInt; [done|]. unfold in_int64, int64_min, int64_max. lia.
Qed.

(** No client is in the middle of a multipart object. *)
Definition idle_clients (p : KConnsPool) : Prop := ∀ i np, next_parts p !! i = Some np -> np = 0.
(** Every client is at one of the first [n] parts. *)
Definition clients_within (p : KConnsPool) (n : nat) : Prop :=
  ∀ i np, next_parts p !! i = Some np -> 0 <= np < Z.of_nat n.

Lemma idle_within p n : (0 < n)%nat -> idle_clients p -> clients_within p n.
Proof. intros Hn Hi i np Hp. rewrite (Hi i np Hp). lia. Qed.

Lemma total_size_app ps qs : total_size (ps ++ qs) = total_size ps + total_size qs.
Proof. induction ps as [|p ps IH]; [done|]. simpl. rewrite IH. lia. Qed.

Lemma total_size_rotate k ps : total_size (rotate k ps) = total_size ps.
Proof.
  unfold rotate. rewrite total_size_app. rewrite <- (take_drop (k mod length ps) ps) at 5.
  rewrite total_size_app. lia.
Qed.

Lemma Forall2_rotate {A B} (P : A -> B -> Prop) k l l' : Forall2 P l l' -> Forall2 P (rotate k l) (rotate k l').
Proof.
  intros HF. unfold rotate. rewrite <- (Forall2_length _ _ _ HF).
  by apply Forall2_app; [apply Forall2_drop|apply Forall2_take].
Qed.

(** The parts of the object, from the one that the client that is taken is at, in
    a circle. *)
Lemma runs_get_multi fuel b o fm vals w :
  ready w -> small_meta (view (w_drive w)) -> (length (Parts fm) < fuel)%nat -> b <> [] ->
  HasSuffix o SlashSeparator = false -> rwpool_ok b o -> checkGetObjArgs b o = None ->
  stored_multipart (view (w_drive w)) (b ++ str "/" ++ o) fm vals ->
  clients_within (w_pool w) (length (Parts fm)) -> lockable w b o true ->
  runs ('(gr, err) ← GetObjectNInfo b o None readLock None;
        match gr with
        | None => mret ([], err)
        | Some g => gr_ReadAll fuel g (oi_Size (gr_ObjInfo g) + 1)
        end) (λ r d t, d = w_drive w /\
          ∃ i k, next_parts (w_pool w) !! i = Some (Z.of_nat k) /\ r = (concat (rotate k vals), None)) w.
Proof.
  intros Hw Hm Hf Hb Hdir Hrw Hck Hso Hcl Hlk.
  eapply runs_mono; [apply (runs_get_all fuel b o None (total_size (Parts fm))
    (λ off len x, ∃ i k, next_parts (w_pool w) !! i = Some (Z.of_nat k) /\ x = concat (rotate k vals))); try done|].
  - by eapply multi_plain.
  - intros off len i np p0 c w1 Q Er H5 H6 H7 Hp Hc Ed Hn0 Hnp Hkey Hoff HQ.
    cbn in Er. injection Er as <- <-. rewrite Hnp in Hn0. symmetry in Hn0.
    pose proof (Hcl i np Hn0) as Hrange. set (k := Z.to_nat np).
    assert (np = Z.of_nat k) as Hk by (unfold k; lia). rewrite Hk in *. clear Hk.
    assert (k < length (Parts fm))%nat as Hkl by lia.
    destruct (sm_entry _ _ _ _ Hso) as [v He]. rewrite <- Ed, <- Hkey in He.
    pose proof (sm_parts _ _ _ _ Hso) as Hst. rewrite <- Ed, <- Hkey in Hst.
    assert (c_NextPartNumber c = Z.of_nat k) as Hcn.
    { pose proof (f_equal (.!! i) (at_next _ _ _ _ Hp)) as E. cbn in E. unfold next_parts in E.
      rewrite lookup_fmap, Hc, lookup_insert_eq in E. by injection E. }
    assert (multi_object (mkEntry (json_Marshal fm) v) (json_overlay fm zeroFsMeta)) as Hmo.
    { unfold multi_object. cbn [e_meta]. split_and!.
      - apply (sm_fits _ _ _ _ Hso).
      - apply json_roundtrip; [apply (sm_encodable _ _ _ _ Hso)|by right].
      - unfold json_overlay. cbn [Parts]. pose proof (sm_nonempty _ _ _ _ Hso). by destruct (Parts fm). }
    assert (Parts (json_overlay fm zeroFsMeta) = Parts fm) as Hps.
    { unfold json_overlay. cbn [Parts]. by destruct (Parts fm). }
    assert (parts_prefix (c_Key c) (json_overlay fm zeroFsMeta) = parts_prefix (c_Key c) fm) as Hpp.
    { unfold parts_prefix. by rewrite mget_overlay. }
    eapply (wp_copy_parts fuel i p0 c _ _ k (rotate k (Parts fm)) (rotate k vals));
      [by rewrite length_rotate|exact He|exact Hmo|by rewrite Hps| |done|by rewrite Hcn|done|done| | |lia|].
    + rewrite Hps. by apply in_circle_all.
    + rewrite Hpp. by apply Forall2_rotate.
    + by rewrite total_size_rotate.
    + rewrite Hps, length_rotate. intros p c' Hp' Hc'. eapply HQ; [eauto| |exact Hc'].
      replace ((k + length (Parts fm)) mod length (Parts fm))%nat with k in Hp'; [done|].
      rewrite <- Nat.Div0.add_mod_idemp_r, Nat.Div0.mod_same, Nat.add_0_r, Nat.mod_small; lia.
  - simpl. intros [x e] d t [-> HR]. cbn in HR. destruct HR as (-> & i & k & Hi & ->). split; [done|]. by exists i, k.
Qed.

End get.
