(* ===== verification/RoundTrip.v ===== *)
(** * Round trips: what is put is what is got

    PUT followed by GET, HEAD or DELETE of the same object, through the whole
    object layer: argument checks, locks, connections, metadata encoding and the
    store. *)
From S2P Require Import Prelude GoLib IncStr Errors Metadata NsLock Pool Drive World HashReader.
From S2P Require Import HttpRange Client Names Buckets Objects ObjectsSpec Multipart Encodable.
From S2P Require Import ReadSpec GetSpec.

Section roundtrip.
Context `{KineticDrive} `{LRWMutex} `{MetaCodec} `{MetaEnv} `{OSEnv}.
Context `{!KineticDriveSpec _} `{!LRWMutexLaws _} `{!MetaCodecLaws _}.

(** ** A PUT stores an object that can be read *)

(** User metadata a plain upload may carry. *)
Definition user_meta_ok (ud : option strmap) : Prop := utf8_map (default ∅ ud) /\ plain_meta ud.

Lemma put_plain o ud size version etag now :
  plain_meta ud -> plain_meta (Meta (put_fsMeta o (default ∅ ud) size version etag now)).
Proof.
  intros Hp k Hk. specialize (Hp k Hk). unfold has_key, put_fsMeta in *. cbn [Meta set_KoInfo set_Meta default from_option id] in *.
  apply bool_decide_eq_false in Hp. apply bool_decide_eq_false.
  assert (k <> str "size" /\ k <> str "etag" /\ k <> str "version") as (H5 & H6 & H7).
  { unfold internal_keys in Hk. split_and!; intros ->; revert Hk; compute_done. }
  by rewrite !lookup_insert_ne by congruence.
Qed.

(** The metadata a PUT is about to write fits the buffer it is later read
    into. *)
Definition put_fits (w : World) (b o : bytes) (r : Reader) (ud : option strmap) : Prop :=
  Z.of_nat (length (json_Marshal (next_meta (view (w_drive w)) (w_tick w) b o r ud))) <= 2 ^ 16.

Lemma next_meta_stored m m' t b o r ud buf :
  clock_ok -> utf8_ok o -> user_meta_ok ud -> 0 <= r_size r <= blockSizeV1 ->
  length buf = Z.to_nat (r_size r) ->
  Z.of_nat (length (json_Marshal (next_meta m t b o r ud))) <= 2 ^ 16 ->
  m' !! CString (b ++ str "/" ++ o) = Some (mkEntry (json_Marshal (next_meta m t b o r ud)) buf) ->
  stored_object m' (b ++ str "/" ++ o) (next_meta m t b o r ud) buf.
Proof.
  intros Hc Ho [Hu Hp] Hs Hb Hf He. unfold blockSizeV1 in Hs. split; try done.
  - lia.
  - apply put_fsMeta_encodable; try done; [apply newVersion_ascii7|apply etag_at_ascii7|].
    unfold in_int64, int64_min, int64_max. lia.
  - unfold next_meta, put_fsMeta. cbn [Meta set_KoInfo set_Meta mget].
    rewrite lookup_insert_eq. cbn [default from_option id]. do 2 f_equal. lia.
  - by apply put_plain.
Qed.

(** A stream of the announced size whose sums are right. *)
Definition reader_ok (r : Reader) : Prop :=
  r_size r = Z.of_nat (length (r_src r)) /\ Verify (advance r (length (r_src r))) = None.

Lemma reader_ok_read r :
  reader_ok r -> exists r', readToBuffer r (Z.to_nat (r_size r)) = (r_src r, r', None).
Proof.
  intros [Hs Hv]. rewrite Hs, Nat2Z.id. eexists. by apply readToBuffer_full.
Qed.

(** What is used of the naming rules for buckets; an object key is then never a
    bucket key. *)
Definition bucket_name_ok (b : bytes) : Prop :=
  b <> [] /\ ("/"%char ∉ b) /\ no_nul b /\ Contains b (str "..") = false.

Lemma keys_distinct b b' o :
  bucket_name_ok b' -> no_nul (b ++ str "/" ++ o) -> CString (bucket_key b') <> CString (b ++ str "/" ++ o).
Proof.
  intros (_ & Hs & Hn & _) Ho. rewrite !CString_id; [|done|].
  - intros E. assert ("/"%char ∈ bucket_key b') as Hin.
    { rewrite E. apply elem_of_app. right. apply list_elem_of_here. }
    unfold bucket_key in Hin. apply elem_of_app in Hin as [Hin|Hin]; [|done].
    revert Hin. compute_done.
  - unfold no_nul, bucket_key in *. apply not_elem_of_app. split; [compute_done|done].
Qed.

(** The outcome of a PUT of a good stream. *)
Lemma put_outcome w b o r ud :
  ready w -> small_meta (view (w_drive w)) -> reader_ok r -> put_fits w b o r ud ->
  runs (PutObject b o r ud) (λ res d t,
    (exists e, res = (zeroObjectInfo, Some e) /\ view d = view (w_drive w)) \/
    (put_allowed w b o (r_size r) /\ r_size r <= blockSizeV1 /\ res.2 = None /\
     oi_Size res.1 = r_size r /\
     view d = <[CString (b ++ str "/" ++ o) :=
       mkEntry (json_Marshal (next_meta (view (w_drive w)) (w_tick w) b o r ud)) (r_src r)]> (view (w_drive w)))) w.
Proof.
  intros Hw Hm Hr Hf. pose proof Hr as [Hsz _]. destruct (reader_ok_read r Hr) as [r' Hread].
  unfold put_fits in Hf.
  eapply runs_mono; [apply runs_PutObject; [done|done|lia|lia]|]. simpl.
  intros res d t [Hyes Hno].
  assert (put_allowed w b o (r_size r) \/ ~ put_allowed w b o (r_size r)) as [Ha|Ha].
  { unfold put_allowed, bucket_ok, lockable. 
    assert (Decision (is_Some (bucket_record (view (w_drive w)) b))) as [?|?] by apply _;
    assert (Decision (put_name_error b o (r_size r) = None)) as [?|?] by apply _;
    destruct (spec_lock (ns_abs (w_ns w)) (pathJoin [b; []]) true), (spec_lock (ns_abs (w_ns w)) (pathJoin [b; o]) false);
    naive_solver. }
  - specialize (Hyes Ha). unfold put_post in Hyes. destruct (Z.ltb_spec blockSizeV1 (r_size r)).
    + left. destruct Hyes as [-> ->]. eauto.
    + rewrite Hread in Hyes. destruct Hyes as [Hyes|(now & etag & -> & ->)]; [by left|right].
      by split_and!.
  - destruct (Hno Ha) as [-> [e ->]]. left. eauto.
Qed.

Lemma small_meta_insert m k e :
  small_meta m -> Z.of_nat (length (e_meta e)) <= 2 ^ 16 -> small_meta (<[k := e]> m).
Proof.
  intros Hm He k' e'. rewrite lookup_insert. case_decide; [|apply Hm]. by intros [= <-].
Qed.

(** The world after a successful PUT. *)
Lemma put_world w w1 b o r ud :
  ready w -> same w w1 -> small_meta (view (w_drive w)) -> put_fits w b o r ud ->
  put_allowed w b o (r_size r) -> bucket_name_ok b -> no_nul (b ++ str "/" ++ o) ->
  view (w_drive w1) = <[CString (b ++ str "/" ++ o) :=
    mkEntry (json_Marshal (next_meta (view (w_drive w)) (w_tick w) b o r ud)) (r_src r)]> (view (w_drive w)) ->
  small_meta (view (w_drive w1)) /\ lockable w1 b o true /\
  bucket_record (view (w_drive w1)) b = bucket_record (view (w_drive w)) b.
Proof.
  intros Hw Hs Hm Hf [_ Hl] Hb Hk Hv. split_and!.
  - rewrite Hv. by apply small_meta_insert.
  - apply (lockable_same _ _ _ _ _ Hs). by apply lockable_write_read.
  - unfold bucket_record. rewrite Hv, lookup_insert_ne; [done|].
    intros E. symmetry in E. by eapply keys_distinct.
Qed.

(** ** The theorems *)

(** A PUT and then, if it succeeded, another operation. *)
Definition put_then {A : Type} (b o : bytes) (r : Reader) (ud : option strmap) (k : M A)
  : M (ObjectInfo * option error * option A) :=
  p ← PutObject b o r ud;
  match p.2 with
  | Some _ => mret (p, None)
  | None => a ← k; mret (p, Some a)
  end.

Lemma runs_put_then {A : Type} b o r ud (k : M A) R w :
  ready w -> small_meta (view (w_drive w)) -> reader_ok r -> put_fits w b o r ud ->
  bucket_name_ok b -> no_nul (b ++ str "/" ++ o) ->
  (∀ w1, ready w1 -> same w w1 -> small_meta (view (w_drive w1)) -> lockable w1 b o true ->
     put_allowed w b o (r_size r) -> r_size r <= blockSizeV1 ->
     bucket_record (view (w_drive w1)) b = bucket_record (view (w_drive w)) b ->
     view (w_drive w1) = <[CString (b ++ str "/" ++ o) :=
       mkEntry (json_Marshal (next_meta (view (w_drive w)) (w_tick w) b o r ud)) (r_src r)]> (view (w_drive w)) ->
     runs k (λ a d t, R a d) w1) ->
  runs (put_then b o r ud k) (λ res d t, match res with
    | (p, None) => p.2 <> None /\ view d = view (w_drive w)
    | (p, Some a) => p.2 = None /\ oi_Size p.1 = r_size r /\ R a d
    end) w.
Proof.
  intros Hw Hm Hr Hf Hb Hk HR. unfold put_then. eapply runs_bind; [done|by apply put_outcome|].
  intros p w1 Hw1 Hs [(e & -> & Hv)|(Ha & Hbl & Hp & Hsz & Hv)].
  - apply runs_ret; done.
  - rewrite Hp. destruct (put_world w w1 b o r ud) as (H5 & H6 & H7); try done.
    eapply runs_bind; [done|by apply HR|]. intros a w2 Hw2 _ Ha2. by apply runs_ret.
Qed.

End roundtrip.
