(* ===== verification/Session.v ===== *)
(** * Sessions: the object layer refines an abstract object store

    The abstract store is a set of buckets and a finite map from bucket and
    object names to contents.  [serve] runs one request through the modelled
    object layer; [step] is what the abstract store may answer.  The relation
    [refines] ties the abstract store to the state of the process and of the
    drive, and is kept by every request. *)
From S2P Require Import Prelude GoLib IncStr Errors Metadata NsLock Pool Drive World HashReader.
From S2P Require Import HttpRange Client Names Buckets Objects ObjectsSpec Encodable ReadSpec.
From S2P Require Import GetSpec RoundTrip.

Record store := mkStore { st_buckets : gset bytes; st_objects : gmap (bytes * bytes) bytes }.

Definition add_bucket (b : bytes) (s : store) : store := mkStore ({[b]} ∪ st_buckets s) (st_objects s).
Definition add_object (b o v : bytes) (s : store) : store :=
  mkStore (st_buckets s) (<[(b, o) := v]> (st_objects s)).
Definition del_object (b o : bytes) (s : store) : store :=
  mkStore (st_buckets s) (delete (b, o) (st_objects s)).

Inductive request :=
  | ReqMakeBucket (b : bytes)
  | ReqPut (b o : bytes) (r : Reader) (userDefined : option strmap)
  | ReqGet (b o rangeHeader : bytes)
  | ReqHead (b o : bytes)
  | ReqDelete (b o : bytes).

Inductive response :=
  | RespDone (err : option error)
  | RespInfo (oi : ObjectInfo) (err : option error)
  | RespBody (body : bytes) (err : option error).

Section session.
Context `{KineticDrive} `{LRWMutex} `{MetaCodec} `{MetaEnv} `{OSEnv}.

Definition serve (fuel : nat) (q : request) : M response :=
  match q with
  | ReqMakeBucket b => err ← MakeBucketWithLocation b []; mret (RespDone err)
  | ReqPut b o r ud => p ← PutObject b o r ud; mret (RespInfo p.1 p.2)
  | ReqGet b o h => p ← GetObjectHandler_serve fuel b o h; mret (RespBody p.1 p.2)
  | ReqHead b o => p ← GetObjectInfo b o; mret (RespInfo p.1 p.2)
  | ReqDelete b o => err ← DeleteObject b o; mret (RespDone err)
  end.

Fixpoint serve_all (fuel : nat) (qs : list request) : M (list response) :=
  match qs with
  | [] => mret []
  | q :: qs' => r ← serve fuel q; rs ← serve_all fuel qs'; mret (r :: rs)
  end.

(** ** What the abstract store may answer *)

(** The answer to a GET of an object that is not there. *)
Definition missing_spec (b o rangeHeader : bytes) : bytes * option error :=
  let '(rs, err) := if decide (rangeHeader = []) then (None, None)
                    else parseRequestRangeSpec rangeHeader in
  if decide (err = Some errInvalidRange) then ([], Some errInvalidRange)
  else ([], Some (ObjectNotFound b o)).

Inductive step (s : store) : request -> response -> store -> Prop :=
  | step_make_invalid b :
      s3_CheckValidBucketNameStrict b <> None ->
      step s (ReqMakeBucket b) (RespDone (Some (BucketNameInvalid b))) s
  | step_make_exists b :
      s3_CheckValidBucketNameStrict b = None -> b ∈ st_buckets s ->
      step s (ReqMakeBucket b) (RespDone (Some (BucketExists b))) s
  | step_make_new b :
      s3_CheckValidBucketNameStrict b = None -> b ∉ st_buckets s ->
      step s (ReqMakeBucket b) (RespDone None) (add_bucket b s)
  (** the drive refused the record, which the code does not look at *)
  | step_make_lost b :
      s3_CheckValidBucketNameStrict b = None -> b ∉ st_buckets s ->
      step s (ReqMakeBucket b) (RespDone None) s
  | step_put b o r ud oi :
      b ∈ st_buckets s -> put_name_error b o (r_size r) = None -> r_size r <= blockSizeV1 ->
      oi_Size oi = Z.of_nat (length (r_src r)) ->
      step s (ReqPut b o r ud) (RespInfo oi None) (add_object b o (r_src r) s)
  | step_put_failed b o r ud e :
      step s (ReqPut b o r ud) (RespInfo zeroObjectInfo (Some e)) s
  | step_get_invalid b o h e :
      checkGetObjArgs b o = Some e ->
      ∀ r, r = ([], Some e) \/ r = ([], Some errInvalidRange) ->
      step s (ReqGet b o h) (RespBody r.1 r.2) s
  | step_get_missing b o h :
      checkGetObjArgs b o = None -> st_objects s !! (b, o) = None ->
      step s (ReqGet b o h) (RespBody (missing_spec b o h).1 (missing_spec b o h).2) s
  | step_get b o h v :
      checkGetObjArgs b o = None -> st_objects s !! (b, o) = Some v ->
      step s (ReqGet b o h) (RespBody (header_spec h v).1 (header_spec h v).2) s
  | step_head b o v oi :
      b ∈ st_buckets s -> st_objects s !! (b, o) = Some v ->
      oi_Bucket oi = b -> oi_Name oi = o -> oi_Size oi = Z.of_nat (length v) ->
      step s (ReqHead b o) (RespInfo oi None) s
  | step_head_missing b o :
      checkGetObjArgs b o = None -> b ∉ st_buckets s \/ st_objects s !! (b, o) = None ->
      step s (ReqHead b o) (RespInfo zeroObjectInfo (Some (ObjectNotFound b o))) s
  | step_head_invalid b o e :
      checkGetObjArgs b o = Some e -> step s (ReqHead b o) (RespInfo zeroObjectInfo (Some e)) s
  | step_delete_invalid b o e :
      checkDelObjArgs b o = Some e -> step s (ReqDelete b o) (RespDone (Some e)) s
  | step_delete_missing b o :
      checkDelObjArgs b o = None -> st_objects s !! (b, o) = None ->
      step s (ReqDelete b o) (RespDone (Some errFileNotFound)) s
  | step_delete b o v :
      checkDelObjArgs b o = None -> st_objects s !! (b, o) = Some v ->
      step s (ReqDelete b o) (RespDone None) (del_object b o s)
  (** the drive refused one of the two deletes the code sends *)
  | step_delete_failed b o v e s' :
      checkDelObjArgs b o = None -> st_objects s !! (b, o) = Some v ->
      s' = s \/ s' = del_object b o s ->
      step s (ReqDelete b o) (RespDone (Some e)) s'.

Inductive steps : store -> list request -> list response -> store -> Prop :=
  | steps_nil s : steps s [] [] s
  | steps_cons s1 s2 s3 q r qs rs :
      step s1 q r s2 -> steps s2 qs rs s3 -> steps s1 (q :: qs) (r :: rs) s3.

(** ** The refinement relation *)
Context `{!KineticDriveSpec _} `{!LRWMutexLaws _} `{!MetaCodecLaws _}.

(** Object names the model of the store tells apart: no NUL byte, which would
    cut the key, and no trailing slash, which marks a directory. *)
Definition object_name_ok (o : bytes) : Prop := no_nul o /\ HasSuffix o SlashSeparator = false.

Definition object_key (b o : bytes) : bytes := b ++ str "/" ++ o.

(** The store holds the object with this content, or does not hold it. *)
Definition object_at (m : gmap bytes entry) (b o : bytes) (ov : option bytes) : Prop :=
  match ov with
  | Some v => exists fm, stored_object m (object_key b o) fm v
  | None => m !! CString (object_key b o) = None
  end.

Record refines (s : store) (w : World) : Prop := {
  rf_ready : ready w;
  rf_unlocked : ns_abs (w_ns w) = ∅;
  rf_small : small_meta (view (w_drive w));
  rf_buckets b : bucket_name_ok b -> b ∈ st_buckets s <-> is_Some (bucket_record (view (w_drive w)) b);
  rf_objects b o : bucket_name_ok b -> object_name_ok o ->
    object_at (view (w_drive w)) b o (st_objects s !! (b, o)) }.

(** ** Keys *)
Lemma object_key_no_nul b o : bucket_name_ok b -> object_name_ok o -> no_nul (object_key b o).
Proof.
  intros (_ & _ & Hb & _) [Ho _]. unfold no_nul, object_key in *. rewrite !not_elem_of_app.
  split_and!; try done. compute_done.
Qed.

Lemma app_slash_inj (b b' o o' : bytes) :
  "/"%char ∉ b -> "/"%char ∉ b' -> b ++ "/"%char :: o = b' ++ "/"%char :: o' -> b = b' /\ o = o'.
Proof.
  revert b'. induction b as [|c b IH]; intros [|c' b'] Hb Hb' E; simpl in E; simplify_eq; [done| | |].
  - by destruct Hb'; left.
  - by destruct Hb; left.
  - apply not_elem_of_cons in Hb as [_ Hb]. apply not_elem_of_cons in Hb' as [_ Hb'].
    destruct (IH b' Hb Hb') as [-> ->]; done.
Qed.

Lemma object_key_inj b b' o o' :
  bucket_name_ok b -> bucket_name_ok b' -> object_name_ok o -> object_name_ok o' ->
  CString (object_key b o) = CString (object_key b' o') -> b = b' /\ o = o'.
Proof.
  intros Hb Hb' Ho Ho'. rewrite !CString_id by (by apply object_key_no_nul).
  destruct Hb as (_ & Hb & _), Hb' as (_ & Hb' & _). by apply app_slash_inj.
Qed.

Lemma bucket_key_no_nul b : bucket_name_ok b -> no_nul (bucket_key b).
Proof.
  intros (_ & _ & Hn & _). unfold no_nul, bucket_key in *. apply not_elem_of_app.
  split; [compute_done|done].
Qed.

Lemma bucket_key_inj b b' :
  bucket_name_ok b -> bucket_name_ok b' -> CString (bucket_key b) = CString (bucket_key b') -> b = b'.
Proof.
  intros Hb Hb'. rewrite !CString_id by (by apply bucket_key_no_nul).
  unfold bucket_key. by intros E%app_inv_head.
Qed.

Lemma bucket_object_key b b' o :
  bucket_name_ok b -> bucket_name_ok b' -> object_name_ok o ->
  CString (bucket_key b) <> CString (object_key b' o).
Proof. intros Hb Hb' Ho. apply keys_distinct; [done|by apply object_key_no_nul]. Qed.

Lemma object_at_frame m m' b o ov :
  m' !! CString (object_key b o) = m !! CString (object_key b o) ->
  object_at m b o ov -> object_at m' b o ov.
Proof.
  intros E. destruct ov as [v|]; simpl; [|by rewrite E].
  intros [fm []]. exists fm. split; try done. by rewrite E.
Qed.

Lemma bucket_record_frame m m' b :
  m' !! CString (bucket_key b) = m !! CString (bucket_key b) -> bucket_record m' b = bucket_record m b.
Proof. intros E. unfold bucket_record. by rewrite E. Qed.

(** ** Keeping the relation *)
Lemma refines_lockable s w b o rd : refines s w -> lockable w b o rd.
Proof. intros []. unfold lockable. rewrite rf_unlocked0. unfold spec_lock. by rewrite lookup_empty. Qed.

(** A request that leaves the view of the drive alone. *)
Lemma refines_same s w w' :
  refines s w -> same w w' -> view (w_drive w') = view (w_drive w) -> refines s w'.
Proof.
  intros [] Hs E. split; rewrite ?E; [by eapply ready_same| |done..].
  by rewrite (same_ns _ _ Hs).
Qed.

Lemma refines_put s w w' b o e fm v :
  refines s w -> same w w' -> bucket_name_ok b -> object_name_ok o ->
  Z.of_nat (length (e_meta e)) <= 2 ^ 16 ->
  view (w_drive w') = <[CString (object_key b o) := e]> (view (w_drive w)) ->
  stored_object (view (w_drive w')) (object_key b o) fm v ->
  refines (add_object b o v s) w'.
Proof.
  intros [] Hs Hb Ho He Hv Hso. split.
  - by eapply ready_same.
  - by rewrite (same_ns _ _ Hs).
  - rewrite Hv. by apply small_meta_insert.
  - intros b' Hb'. cbn [st_buckets add_object]. rewrite rf_buckets0 by done.
    rewrite (bucket_record_frame (view (w_drive w'))  (view (w_drive w))); [done|].
    rewrite Hv. symmetry. apply lookup_insert_ne. intros E. symmetry in E. by apply bucket_object_key in E.
  - intros b' o' Hb' Ho'. cbn [st_objects add_object].
    destruct (decide ((b, o) = (b', o'))) as [[= <- <-]|Hne].
    + rewrite lookup_insert_eq. by exists fm.
    + rewrite lookup_insert_ne by done. eapply object_at_frame; [|by apply rf_objects0].
      rewrite Hv. apply lookup_insert_ne. intros E. apply object_key_inj in E as [-> ->]; done.
Qed.

Lemma refines_bucket s w w' b e :
  refines s w -> same w w' -> bucket_name_ok b -> Z.of_nat (length (e_meta e)) <= 2 ^ 16 ->
  view (w_drive w') = <[CString (bucket_key b) := e]> (view (w_drive w)) ->
  refines (add_bucket b s) w'.
Proof.
  intros [] Hs Hb He Hv. split.
  - by eapply ready_same.
  - by rewrite (same_ns _ _ Hs).
  - rewrite Hv. by apply small_meta_insert.
  - intros b' Hb'. cbn [st_buckets add_bucket]. rewrite elem_of_union, elem_of_singleton.
    destruct (decide (b' = b)) as [->|Hne].
    + split; [|by left]. intros _. unfold bucket_record. rewrite Hv, lookup_insert_eq. by eexists.
    + rewrite (bucket_record_frame (view (w_drive w)) (view (w_drive w'))), <- rf_buckets0; [set_solver|done|].
      rewrite Hv. apply lookup_insert_ne. intros E. by apply bucket_key_inj in E.
  - intros b' o' Hb' Ho'. cbn [st_objects add_bucket]. eapply object_at_frame; [|by apply rf_objects0].
    rewrite Hv. apply lookup_insert_ne. by apply bucket_object_key.
Qed.

Lemma refines_delete s w w' b o :
  refines s w -> same w w' -> bucket_name_ok b -> object_name_ok o ->
  pruned [CString (object_key b o)] (view (w_drive w)) (view (w_drive w')) ->
  view (w_drive w') !! CString (object_key b o) = None ->
  refines (del_object b o s) w'.
Proof.
  intros [] Hs Hb Ho [Hsub Hfr] Hv. split.
  - by eapply ready_same.
  - by rewrite (same_ns _ _ Hs).
  - intros k e He. eapply rf_small0. by eapply lookup_weaken.
  - intros b' Hb'. cbn [st_buckets del_object]. rewrite rf_buckets0 by done.
    rewrite (bucket_record_frame (view (w_drive w'))  (view (w_drive w))); [done|].
    symmetry. apply Hfr. rewrite list_elem_of_singleton. by apply bucket_object_key.
  - intros b' o' Hb' Ho'. cbn [st_objects del_object].
    destruct (decide ((b, o) = (b', o'))) as [[= <- <-]|Hne].
    + by rewrite lookup_delete_eq.
    + rewrite lookup_delete_ne by done. eapply object_at_frame; [|by apply rf_objects0].
      apply Hfr. rewrite list_elem_of_singleton. intros E. apply object_key_inj in E as [-> ->]; done.
Qed.

(** ** Requests *)

(** What is asked of a request served in state [w]: names as above, a stream of
    the announced size with matching sums, user metadata in UTF-8 that does not
    mark the object as encrypted or compressed, and metadata that fits 64 KiB. *)
Definition request_ok (w : World) (q : request) : Prop :=
  match q with
  | ReqMakeBucket b =>
      bucket_name_ok b /\
      Z.of_nat (length (gob_Encode (mkBucketInfo (bucket_key b) (env_now (w_tick w))))) <= 2 ^ 16
  | ReqPut b o r ud =>
      bucket_name_ok b /\ object_name_ok o /\ reader_ok r /\ user_meta_ok ud /\ put_fits w b o r ud
  | ReqGet b o _ => bucket_name_ok b /\ object_name_ok o /\ rwpool_ok b o
  | ReqHead b o | ReqDelete b o => bucket_name_ok b /\ object_name_ok o
  end.

Definition serves (fuel : nat) (q : request) (s : store) (w : World) : Prop :=
  wp (serve fuel q) (λ resp w', exists s', step s q resp s' /\ refines s' w') w.

(** An answer computed by a request's specification. *)
Lemma serves_runs {A} fuel q (m : M A) (f : A -> response) (R : A -> drive -> nat -> Prop) s w :
  serve fuel q = (a ← m; mret (f a)) -> runs m R w ->
  (∀ a w', same w w' -> R a (w_drive w') (w_tick w') -> exists s', step s q (f a) s' /\ refines s' w') ->
  serves fuel q s w.
Proof.
  intros E Hm HR. unfold serves. rewrite E. apply wp_bind. eapply wp_mono; [exact Hm|].
  simpl. intros a w' [Hs Ha]. apply wp_ret. by apply HR.
Qed.

Lemma serve_make fuel b s w : refines s w -> request_ok w (ReqMakeBucket b) ->
  serves fuel (ReqMakeBucket b) s w.
Proof.
  intros Hr [Hb Hf]. pose proof (rf_ready _ _ Hr) as Hw.
  eapply serves_runs; [reflexivity|by apply runs_MakeBucketWithLocation|].
  intros err w' Hs [Hyes _]. specialize (Hyes (refines_lockable _ _ _ _ _ Hr)). cbn beta in Hyes.
  case_decide as Hv; [|destruct Hyes as [-> E]; exists s; split; [by constructor|by apply (refines_same s w); rewrite ?E]].
  destruct (bucket_record (view (w_drive w)) b) eqn:Eb.
  - destruct Hyes as [-> E]. exists s. split; [|by apply (refines_same s w); rewrite ?E].
    constructor; [done|]. apply (rf_buckets _ _ Hr); [done|]. by rewrite Eb.
  - destruct Hyes as (-> & st & Hp). unfold put_bucket, put_result in Hp.
    assert (b ∉ st_buckets s) as Hn.
    { rewrite (rf_buckets _ _ Hr) by done. rewrite Eb. by intros [? ?]. }
    case_decide.
    + exists (add_bucket b s). split; [by constructor|]. eapply refines_bucket; [done..| |exact Hp]. done.
    + exists s. split; [by apply step_make_lost|]. by apply (refines_same s w).
Qed.

Section clocked.
Context (Hclock : clock_ok).

Lemma serve_put fuel b o r ud s w : refines s w -> request_ok w (ReqPut b o r ud) ->
  serves fuel (ReqPut b o r ud) s w.
Proof.
  intros Hr (Hb & Ho & Hrd & Hu & Hf). pose proof (rf_ready _ _ Hr) as Hw.
  apply (serves_runs fuel (ReqPut b o r ud) (PutObject b o r ud) (λ p, RespInfo p.1 p.2) _ s w eq_refl
           (put_outcome w b o r ud Hw (rf_small _ _ Hr) Hrd Hf)).
  intros [oi err] w' Hs [(e & E & Hv)|([[[_ Hbk] Hn] _] & Hbl & He & Hsz & Hv)].
  - injection E as -> ->. exists s. split; [by constructor|]. by apply (refines_same s w).
  - simpl in He, Hsz. subst err. exists (add_object b o (r_src r) s). destruct Hrd as [Hlen _].
    split.
    + constructor; [by apply (rf_buckets _ _ Hr)|done|done|]. simpl. by rewrite Hsz, Hlen.
    + eapply refines_put; [done..| |exact Hv|]; [exact Hf|].
      apply (next_meta_stored (view (w_drive w)) _ (w_tick w) b o r ud);
        [done|by eapply put_name_utf8|done|lia|lia|done|].
      rewrite Hv. apply lookup_insert_eq.
Qed.

Lemma serve_get fuel b o h s w : (2 <= fuel)%nat -> refines s w -> request_ok w (ReqGet b o h) ->
  serves fuel (ReqGet b o h) s w.
Proof.
  intros Hfu Hr (Hb & Ho & Hrw). pose proof (rf_ready _ _ Hr) as Hw. pose proof (rf_small _ _ Hr) as Hm.
  pose proof (refines_lockable _ _ b o true Hr) as Hl. pose proof (rf_objects _ _ Hr b o Hb Ho) as Hobj.
  assert (∀ R, runs (GetObjectHandler_serve fuel b o h) (λ r d t, d = w_drive w /\ R r) w ->
    (∀ r, R r -> step s (ReqGet b o h) (RespBody r.1 r.2) s) -> serves fuel (ReqGet b o h) s w) as Hgo.
  { intros R Hrun HR. apply (serves_runs fuel (ReqGet b o h) _ (λ p, RespBody p.1 p.2) _ s w eq_refl Hrun).
    intros r w' Hs [E Hrr]. exists s. split; [by apply HR|]. apply (refines_same s w); rewrite ?E; done. }
  destruct (checkGetObjArgs b o) as [e|] eqn:Eck.
  - apply (Hgo (λ r, r = ([], Some e) \/ r = ([], Some errInvalidRange))).
    + unfold GetObjectHandler_serve. destruct (if decide _ then _ else _) as [rs err].
      destruct (decide _); [apply runs_ret; auto|]. unfold GetObjectNInfo. rewrite Eck. apply runs_ret; auto.
    + intros r Hrr. by eapply step_get_invalid.
  - destruct (st_objects s !! (b, o)) as [v|] eqn:Eo; simpl in Hobj.
    + destruct Hobj as [fm Hso]. apply (Hgo (λ r, r = header_spec h v)).
      * eapply runs_serve_single; try done; [apply Hb|apply Ho].
      * intros r ->. by constructor.
    + apply (Hgo (λ r, r = missing_spec b o h)); [|intros r ->; by constructor].
      unfold GetObjectHandler_serve, missing_spec. destruct (if decide _ then _ else _) as [rs err].
      destruct (decide _); [by apply runs_ret|].
      eapply (runs_get_error b o _ errFileNotFound zeroObjectInfo); try done.
      * unfold object_info, info_key. rewrite decide_False by apply Hb. fold (object_key b o). by rewrite Hobj.
      * intros w' Hw' Hs E. by apply runs_ret.
Qed.

Lemma serve_head fuel b o s w : refines s w -> request_ok w (ReqHead b o) ->
  serves fuel (ReqHead b o) s w.
Proof.
  intros Hr (Hb & Ho). pose proof (rf_ready _ _ Hr) as Hw. pose proof (rf_small _ _ Hr) as Hm.
  pose proof (refines_lockable _ _ b o true Hr) as Hl. pose proof (rf_objects _ _ Hr b o Hb Ho) as Hobj.
  assert (∀ oi err, info_result (view (w_drive w)) b o = (oi, err) ->
    err <> Some errCorruptedFormat -> err <> Some io_EOF ->
    step s (ReqHead b o) (RespInfo oi (toObjectErr err [b; o])) s -> serves fuel (ReqHead b o) s w) as Hgo.
  { intros oi err Hi H5 H6 Hst.
    apply (serves_runs fuel (ReqHead b o) _ (λ p, RespInfo p.1 p.2) _ s w eq_refl
             (runs_GetObjectInfo b o oi err w Hw Hm Hl Hi H5 H6)).
    intros r w' Hs (E & _ & ->). exists s. split; [done|]. apply (refines_same s w); rewrite ?E; done. }
  unfold info_result in Hgo.
  destruct (checkGetObjArgs b o) as [e|] eqn:Eck.
  - assert (e = BucketNameInvalid b \/ e = ObjectNameInvalid b o) as He.
    { unfold checkGetObjArgs, checkBucketAndObjectNames in Eck. repeat case_match; simplify_eq; auto. }
    apply (Hgo zeroObjectInfo (Some e)); [done|by destruct He as [->| ->]..|].
    assert (toObjectErr (Some e) [b; o] = Some e) as -> by (by destruct He as [->| ->]). by constructor.
  - destruct (bucket_record (view (w_drive w)) b) eqn:Ebk.
    + assert (b ∈ st_buckets s) as Hin by (apply (rf_buckets _ _ Hr); [done|by rewrite Ebk]).
      destruct (st_objects s !! (b, o)) as [v|] eqn:Eo; simpl in Hobj.
      * destruct Hobj as [fm Hso]. destruct (stored_info _ b o fm v (proj1 Hb) Hso) as (fm' & E1 & E2 & E3).
        apply (Hgo _ _ E1); [done..|]. by eapply step_head.
      * apply (Hgo zeroObjectInfo (Some errFileNotFound)); [|done..|constructor; auto].
        unfold object_info, info_key. rewrite decide_False by apply Hb. fold (object_key b o). by rewrite Hobj.
    + apply (Hgo zeroObjectInfo (Some errFileNotFound)); [done..|]. constructor; [done|left].
      rewrite (rf_buckets _ _ Hr), Ebk by done. by intros [? ?].
Qed.

Lemma serve_delete fuel b o s w : refines s w -> request_ok w (ReqDelete b o) ->
  serves fuel (ReqDelete b o) s w.
Proof.
  intros Hr (Hb & Ho). pose proof (rf_ready _ _ Hr) as Hw. pose proof (rf_small _ _ Hr) as Hm.
  pose proof (rf_objects _ _ Hr b o Hb Ho) as Hobj.
  eapply serves_runs; [reflexivity|by apply runs_DeleteObject|].
  intros err w' Hs [Hyes _]. specialize (Hyes (refines_lockable _ _ _ _ _ Hr)). cbn beta in Hyes.
  destruct (checkDelObjArgs b o) as [e|] eqn:Eck.
  { destruct Hyes as [-> E]. exists s. split; [by constructor|]. apply (refines_same s w); rewrite ?E; done. }
  unfold delete_post, delete_meta in Hyes. change (makeKey b o) with (object_key b o) in Hyes.
  destruct (st_objects s !! (b, o)) as [v|] eqn:Eo; simpl in Hobj.
  - destruct Hobj as [fm Hso]. pose proof (stored_single _ _ _ _ Hso) as (_ & _ & Hj & Hp & _).
    rewrite (so_entry _ _ _ _ Hso) in Hyes. cbn [fmap option_fmap option_map e_meta] in Hyes, Hj.
    rewrite Hj in Hyes. cbn [fst] in Hyes. rewrite Hp in Hyes. destruct Hyes as (Hpr & Hgone & _).
    destruct (view (w_drive w') !! CString (object_key b o)) as [e'|] eqn:Ek.
    + destruct err as [e|]; [|by specialize (Hgone eq_refl)]. exists s.
      split; [eapply step_delete_failed; eauto|]. apply (refines_same s w); [done..|].
      destruct Hpr as [Hsub Hfr]. apply map_eq. intros k.
      destruct (decide (k = CString (object_key b o))) as [->|Hne]; [|apply Hfr; set_solver].
      rewrite Ek. symmetry. by eapply lookup_weaken.
    + exists (del_object b o s). split; [destruct err; [eapply step_delete_failed; eauto|by econstructor]|].
      by eapply refines_delete.
  - rewrite Hobj in Hyes. destruct Hyes as [-> E]. exists s. split; [by constructor|].
    by apply (refines_same s w).
Qed.

(** Every request keeps the relation, with an answer of the abstract store. *)
Lemma serve_refines fuel q s w :
  (2 <= fuel)%nat -> refines s w -> request_ok w q -> serves fuel q s w.
Proof.
  intros Hf Hr Hq. destruct q.
  - by apply serve_make.
  - by apply serve_put.
  - by apply serve_get.
  - by apply serve_head.
  - by apply serve_delete.
Qed.

(** Every request of a session is acceptable in the state it is served in. *)
Fixpoint session_ok (fuel : nat) (w : World) (qs : list request) : Prop :=
  match qs with
  | [] => True
  | q :: qs' => request_ok w q /\
                match serve fuel q w with ROk _ w' => session_ok fuel w' qs' | _ => True end
  end.

Lemma serve_all_refines fuel qs s w :
  (2 <= fuel)%nat -> refines s w -> session_ok fuel w qs ->
  wp (serve_all fuel qs) (λ resps w', exists s', steps s qs resps s' /\ refines s' w') w.
Proof.
  intros Hf. revert s w. induction qs as [|q qs IH]; intros s w Hr Hok; simpl.
  - apply wp_ret. exists s. split; [constructor|done].
  - destruct Hok as [Hq Hqs]. pose proof (serve_refines fuel q s w Hf Hr Hq) as Hs.
    apply wp_elim in Hs as (resp & w1 & E & s1 & Hst & Hr1). rewrite E in Hqs.
    apply wp_bind. unfold wp at 1. rewrite E. apply wp_bind.
    eapply wp_mono; [by apply IH|]. simpl. intros resps w2 (s2 & Hsts & Hr2).
    apply wp_ret. exists s2. split; [by econstructor|done].
Qed.

End clocked.

(** ** The start of the server *)
Definition init_fits : Prop :=
  ∀ b t, b ∈ meta_buckets -> (t < 3)%nat ->
    Z.of_nat (length (gob_Encode (mkBucketInfo (bucket_key b) (env_now t)))) <= 2 ^ 16.

Definition only_meta (m : gmap bytes entry) : Prop :=
  small_meta m /\ ∀ k, is_Some (m !! k) -> k ∈ CString ∘ bucket_key <$> meta_buckets.

Lemma meta_bucket_name b : bucket_name_ok b -> CString (bucket_key b) ∈ CString ∘ bucket_key <$> meta_buckets ->
  b = minioMetaBucket.
Proof.
  intros Hb Hin. rewrite CString_id in Hin by (by apply bucket_key_no_nul).
  apply list_elem_of_fmap in Hin as (b' & E & Hb'). unfold meta_buckets in Hb'.
  rewrite !elem_of_cons, elem_of_nil in Hb'.
  assert (bucket_key b = bucket_key b') as E'.
  { rewrite E. destruct Hb' as [->|[->|[->|[]]]]; reflexivity. }
  apply app_inv_head in E' as ->. destruct Hb as (_ & Hs & _).
  destruct Hb' as [->|[->|[->|[]]]]; [done|exfalso; apply Hs; compute_done..].
Qed.

Lemma only_meta_refines w :
  ready w -> ns_abs (w_ns w) = ∅ -> only_meta (view (w_drive w)) ->
  refines (mkStore (if decide (is_Some (view (w_drive w) !! CString (bucket_key minioMetaBucket)))
                    then {[minioMetaBucket]} else ∅) ∅) w.
Proof.
  intros Hw Hn [Hs Hk]. split; [done|done|done| |].
  - intros b Hb. cbn [st_buckets]. unfold bucket_record. rewrite fmap_is_Some.
    destruct (decide (b = minioMetaBucket)) as [->|Hne]; [case_decide; set_solver|].
    split; [case_decide; set_solver|]. intros Hx. by apply Hk, meta_bucket_name in Hx.
  - intros b o Hb Ho. cbn [st_objects]. rewrite lookup_empty. simpl. apply eq_None_not_Some. intros Hx.
    apply Hk, list_elem_of_fmap in Hx as (b' & E & Hb').
    rewrite CString_id in E by (by apply object_key_no_nul).
    destruct Hb as (_ & Hsl & _ & Hdot). unfold object_key, meta_buckets in *.
    rewrite !elem_of_cons, elem_of_nil in Hb'.
    assert (∀ y, b ++ str "/" ++ o = str "bucket..minio.sys" ++ "/"%char :: y -> False) as Hno.
    { intros y Ey. apply app_slash_inj in Ey as [-> _]; [done..|compute_done]. }
    destruct Hb' as [->|[->|[->|[]]]].
    + assert ("/"%char ∈ b ++ str "/" ++ o) as Hin.
      { apply elem_of_app. right. apply list_elem_of_here. }
      rewrite E in Hin. revert Hin. compute_done.
    + by apply (Hno (str "tmp")).
    + by apply (Hno (str "multipart")).
Qed.

(** [NewKineticObjectLayer] over an empty drive. *)
Lemma init_refines IP d :
  view d = ∅ -> init_fits -> ready (init_world d) -> str "skinny" `prefix_of` IP ->
  wp (NewKineticObjectLayer IP) (λ err w, err = None /\ exists s, refines s w /\ st_objects s = ∅ /\
    st_buckets s ⊆ {[minioMetaBucket]}) (init_world d).
Proof.
  intros Hv Hf Hw [x ->]. unfold NewKineticObjectLayer.
  rewrite decide_False by (rewrite length_app; change (length (str "skinny")) with 6%nat; lia).
  rewrite (take_app_length' (str "skinny") x 6) by done. rewrite bool_decide_eq_true_2 by done.
  cbn [negb]. change (wp (_ ← initKineticMeta; mret (None : option error)) (λ err w, err = None /\ exists s, refines s w /\
    st_objects s = ∅ /\ st_buckets s ⊆ {[minioMetaBucket]}) (init_world d)).
  apply wp_bind. eapply wp_mono; [apply (runs_initKineticMeta only_meta); [done| |]|].
  - cbn [w_drive init_world]. rewrite Hv. split; [intros k e; by rewrite lookup_empty|].
    intros k. rewrite lookup_empty. by intros [? ?].
  - intros b t m m' Hb Ht [Hs Hk] [->|[Hn ->]]; [done|]. split.
    + apply small_meta_insert; [done|]. by apply Hf.
    + intros k. rewrite lookup_insert_is_Some. intros [<-|[_ ?]]; [|by apply Hk].
      apply list_elem_of_fmap. by exists b.
  - simpl. intros err w (Hs & _ & Hom & Hok). apply wp_ret. split; [done|]. eexists.
    split; [apply only_meta_refines|].
    + by eapply ready_same.
    + rewrite (same_ns _ _ Hs). cbn [w_ns init_world]. by rewrite ns_abs_empty.
    + done.
    + cbn [st_objects st_buckets]. split; [done|]. case_decide; set_solver.
Qed.

End session.
