(* ===== verification/MultipartGet.v ===== *)
(** * Multipart objects: from uploaded parts to a GET

    The version numbers that name the parts of an object, the effect of
    completing an upload whose parts are in the store, and the GET of the
    object it creates. *)
From S2P Require Import Prelude GoLib IncStr Errors Metadata NsLock Pool Drive World HashReader.
From S2P Require Import HttpRange Client Names Buckets Objects ObjectsSpec Listing ListingSpec.
From S2P Require Import Multipart MultipartSpec Encodable ReadSpec GetSpec RoundTrip.

(** ** Versions: five digits, from 1 to 99999 and round again *)
Definition next_number (n : Z) : Z := if n =? 99999 then 1 else n + 1.

Definition version_ok (v : bytes) : Prop := exists n, 1 <= n <= 99999 /\ v = Format5d n.

Lemma next_number_range n : 1 <= n <= 99999 -> 1 <= next_number n <= 99999 /\ next_number n <> n.
Proof. intros Hn. unfold next_number. destruct (Z.eqb_spec n 99999); lia. Qed.

Lemma Format5d_inj n n' : 0 <= n <= 99999 -> 0 <= n' <= 99999 -> Format5d n = Format5d n' -> n = n'.
Proof.
  intros Hn Hn' E. apply (f_equal ParseInt) in E.
  rewrite !ParseInt_Format5d in E by (unfold int64_max; lia). congruence.
Qed.

Lemma newVersion_number n : 1 <= n <= 99999 -> newVersion (Format5d n) = Format5d (next_number n).
Proof.
  intros Hn. unfold newVersion. rewrite decide_False.
  2: { intros E. pose proof (Format5d_length n ltac:(lia)) as Hl. by rewrite E in Hl. }
  unfold Atoi. rewrite ParseInt_Format5d by (unfold int64_max; lia). cbn [fst].
  rewrite wrap_s_id by lia. unfold next_number. destruct (Z.eqb_spec n 99999) as [->|Hne]; [done|].
  rewrite Z.rem_small by lia. destruct (Z.eqb_spec (n + 1) 0); [lia|done].
Qed.

Lemma newVersion_ok v : v = [] \/ version_ok v -> version_ok (newVersion v) /\ newVersion v <> v.
Proof.
  intros [->|(n & Hn & ->)].
  - split; [|done]. exists 1. done.
  - rewrite newVersion_number by done. destruct (next_number_range n Hn) as [H1 H2]. split.
    + by exists (next_number n).
    + intros E%Format5d_inj; [done|lia|lia].
Qed.

Lemma version_no_dot v : version_ok v -> "."%char ∉ v.
Proof. intros (n & Hn & ->). apply Format5d_no_dot. lia. Qed.

Lemma version_no_nul v : version_ok v -> no_nul v.
Proof.
  intros (n & Hn & ->). unfold no_nul, Format5d. destruct (Z.ltb_spec n 0); [lia|].
  apply digits_no_char; [apply pad5_digits|]. unfold is_digit. vm_compute. by intros [].
Qed.

(** Prefixes of different versions have no key in common. *)
Lemma app_dot_inj (v v' x y : bytes) :
  "."%char ∉ v -> "."%char ∉ v' -> v ++ "."%char :: x = v' ++ "."%char :: y -> v = v'.
Proof.
  revert v'. induction v as [|c v IH]; intros [|c' v'] Hv Hv' E; simpl in E; simplify_eq; [done| | |].
  - by destruct Hv'; left.
  - by destruct Hv; left.
  - apply not_elem_of_cons in Hv as [_ Hv]. apply not_elem_of_cons in Hv' as [_ Hv'].
    f_equal. by apply (IH v').
Qed.

Lemma version_prefix_disjoint k v v' x :
  "."%char ∉ v -> "."%char ∉ v' -> version_prefix k v `prefix_of` version_prefix k v' ++ x -> v = v'.
Proof.
  intros Hv Hv' [y E]. unfold version_prefix in E. rewrite <- !app_assoc in E.
  apply app_inv_head, app_inv_head in E. symmetry in E.
  by apply (app_dot_inj v v' y x).
Qed.

(** ** Uploaded parts *)
Record upload_part := mkUp { up_num : Z; up_etag : bytes; up_value : bytes }.

Definition up_size (u : upload_part) : Z := Z.of_nat (length (up_value u)).
Definition up_name (u : upload_part) : bytes := encodePartFile (up_num u) (up_etag u) (up_size u).
Definition up_part (u : upload_part) : ObjectPartInfo := mkPart (up_etag u) (up_num u) (up_size u) (up_size u).
Definition up_cp (u : upload_part) : CompletePart := mkCompletePart (up_num u) (up_etag u).
Definition total (us : list upload_part) : Z := foldr (λ u acc, up_size u + acc) 0 us.

Lemma total_size_parts us : total_size (up_part <$> us) = total us.
Proof.
  induction us as [|u us IH]; [done|]. rewrite fmap_cons. unfold total_size, total in *. cbn [foldr].
  by rewrite IH.
Qed.

(** Sizes and names of parts. *)
Definition up_ok (u : upload_part) : Prop :=
  0 <= up_num u <= int64_max /\ ("."%char ∉ up_etag u) /\ utf8_ok (up_etag u) /\ 0 < up_size u <= 2 ^ 30.

Lemma getPartKO_unique Keys u :
  up_name u ∈ Keys ->
  (∀ k, k ∈ Keys -> HasPrefix k (Format5d (up_num u) ++ str "." ++ up_etag u ++ str ".") = true -> k = up_name u) ->
  getPartKO Keys (up_num u) (up_etag u) = up_name u.
Proof.
  induction Keys as [|k Keys IH]; intros Hin Hu; [by apply elem_of_nil in Hin|]. cbn [getPartKO].
  destruct (HasPrefix k _) eqn:E; [apply Hu; [apply list_elem_of_here|done]|].
  apply IH; [|intros k' Hk'; apply Hu; by right].
  apply elem_of_cons in Hin as [<-|]; [|done]. exfalso. unfold up_name, encodePartFile in E.
  assert (∀ p q : bytes, HasPrefix (p ++ q) p = true) as Hp by apply HasPrefix_app.
  specialize (Hp (Format5d (up_num u) ++ str "." ++ up_etag u ++ str ".") (FormatInt (up_size u))).
  rewrite <- !app_assoc in Hp. rewrite Hp in E. done.
Qed.

Lemma part_actual_size_name u : up_ok u -> part_actual_size (up_name u) = (up_size u, false).
Proof.
  intros (Hn & He & _ & Hs). unfold part_actual_size, up_name, encodePartFile.
  change (str ".") with ["."%char]. cbn [app].
  rewrite Split_app_sep by (apply Format5d_no_dot; lia). rewrite Split_app_sep by done.
  rewrite Split_no_sep by apply FormatInt_no_dot. cbn [last default].
  apply ParseInt_FormatInt. unfold in_int64, int64_min, int64_max. lia.
Qed.

Lemma up_name_nonempty u : up_ok u -> up_name u <> [].
Proof.
  intros Hu E. pose proof (part_actual_size_name u Hu) as Hp. rewrite E in Hp. 
  destruct Hu as (_ & _ & _ & Hs). vm_compute in Hp. simplify_eq.
Qed.

Section multiget.
Context `{KineticDrive} `{LRWMutex} `{MetaCodec} `{MetaEnv} `{OSEnv}.
Context `{!KineticDriveSpec _} `{!LRWMutexLaws _} `{!MetaCodecLaws _}.

(** Part [u] of object [o] is in the store under [p], and is the only one there
    with its number and ETag. *)
Definition up_stored (m : gmap bytes entry) (p o : bytes) (u : upload_part) : Prop :=
  up_ok u /\
  (exists etag now, m !! CString (p ++ up_name u)
     = Some (mkEntry (json_Marshal (part_fsMeta o etag (up_size u) now)) (up_value u)) /\
     utf8_ok etag /\ json_time now) /\
  (∀ k, k ∈ under m p ->
     HasPrefix (drop (length p) k) (Format5d (up_num u) ++ str "." ++ up_etag u ++ str ".") = true ->
     drop (length p) k = up_name u).

Lemma ko_stat_part m p o u :
  utf8_ok o -> up_stored m p o u -> exists fi, ko_stat m (p ++ up_name u) = (fi, None) /\ kv_size fi = up_size u.
Proof.
  intros Ho ((_ & _ & _ & Hs) & (etag & now & He & Het & Hnow) & _). unfold ko_stat. rewrite He. cbn [e_meta].
  rewrite json_roundtrip.
  - eexists. split; [done|]. done.
  - apply part_fsMeta_encodable; try done. unfold in_int64, int64_min, int64_max. lia.
  - by left.
Qed.

Lemma complete_list_uploaded m p o Keys us acc tot :
  utf8_ok o -> Keys = drop (length p) <$> under m p -> no_nul p ->
  Forall (λ u, no_nul (up_name u)) us ->
  Forall (up_stored m p o) us ->
  (∀ i u, us !! i = Some u -> (S i < length us)%nat -> globalMinPartSize <= up_size u) ->
  0 <= tot -> tot + total us < 2 ^ 62 ->
  complete_list m p Keys (up_cp <$> us) acc tot = (acc ++ (up_part <$> us), tot + total us, None).
Proof.
  intros Ho HK Hp. revert acc tot. induction us as [|u us IH]; intros acc tot Hnn Hus Hmin Htot Hmax.
  { simpl. by rewrite app_nil_r, Z.add_0_r. }
  apply Forall_cons in Hus as [Hu Hus]. apply Forall_cons in Hnn as [Hn1 Hnn].
  pose proof Hu as (Hok & (etag & now & He & _) & Huniq).
  assert (0 <= total us) as Hpos.
  { clear -Hus. induction Hus as [|x xs (Hx & _) _ IH]; simpl; [lia|]. destruct Hx as (_&_&_&?). lia. }
  assert (0 < up_size u <= 2 ^ 30) as Hsz by apply Hok.
  rewrite fmap_cons. cbn [complete_list]. cbn [up_cp cp_PartNumber cp_ETag].
  rewrite (getPartKO_unique Keys u).
  - rewrite decide_False by (by apply up_name_nonempty). rewrite part_actual_size_name by done.
    destruct (ko_stat_part m p o u Ho Hu) as (fi & -> & ->). fold (up_part u).
    simpl in Hmax. rewrite wrap_s_id by lia.
    assert (acc ++ (up_part <$> u :: us) = (acc ++ [up_part u]) ++ (up_part <$> us)) as ->
      by (by rewrite fmap_cons, <- app_assoc).
    assert (tot + total (u :: us) = tot + up_size u + total us) as -> by (simpl; lia).
    destruct us as [|u' us']; [by rewrite app_nil_r, Z.add_0_r|]. rewrite fmap_cons.
    rewrite (proj2 (negb_false_iff _)); [|apply Z.leb_le, (Hmin 0%nat); [done|simpl; lia]].
    rewrite <- fmap_cons. apply IH; try done; [|lia|lia].
    intros i x Hx Hi. apply (Hmin (S i)); [done|]. simpl in *. lia.
  - subst Keys. apply list_elem_of_fmap. exists (p ++ up_name u). split; [by rewrite drop_app_length|].
    apply elem_of_under. split; [apply prefix_app_r; done|].
    rewrite CString_id in He by (unfold no_nul in *; rewrite not_elem_of_app; done). by eexists.
  - subst Keys. intros k Hk. apply list_elem_of_fmap in Hk as (x & -> & Hx). by apply Huniq.
Qed.

(** ** The completed object *)

(** The metadata [NewMultipartUpload] stores for an upload at time [now]. *)
Definition upload_meta (o : bytes) (ud : strmap) (now : time) : fsMetaV1 :=
  set_KoInfo (set_Meta newFSMetaV1 (Some (<[str "size" := FormatInt 0]> ud))) (mkKOInfo o 0 now zeroTime).

(** An upload in progress: its metadata, and its parts under the next version of
    the object. *)
Record uploaded (m : gmap bytes entry) (b o uploadID : bytes) (ud : strmap) (now : time)
    (us : list upload_part) : Prop := {
  ul_time : json_time now;
  ul_entry : exists meta, m !! CString (json_key b o uploadID)
               = Some (mkEntry meta (json_Marshal (upload_meta o ud now)));
  ul_ud : utf8_map ud /\ plain_meta (Some ud);
  ul_name : utf8_ok o;
  ul_version : (current_version m (makeKey b o)).1 = [] \/ version_ok (current_version m (makeKey b o)).1;
  ul_parts : Forall (up_stored m (version_prefix (makeKey b o)
                       (newVersion (current_version m (makeKey b o)).1)) o) us;
  ul_no_nul : Forall (λ u, no_nul (up_name u)) us;
  ul_count : (length (under m (version_prefix (makeKey b o)
                (newVersion (current_version m (makeKey b o)).1))) <= 800)%nat;
  ul_nonempty : us <> [];
  ul_min : ∀ i u, us !! i = Some u -> (S i < length us)%nat -> globalMinPartSize <= up_size u;
  ul_total : total us < 2 ^ 62 }.

(** The metadata of the completed object. *)
Definition final_meta (m : gmap bytes entry) (b o : bytes) (ud : strmap) (us : list upload_part) (now : time)
  : fsMetaV1 :=
  complete_meta (json_overlay (upload_meta o ud now) (set_Parts zeroFsMeta (up_part <$> us)))
    (newVersion (current_version m (makeKey b o)).1) (getCompleteMultipartMD5 (up_cp <$> us)) (total us).

Lemma complete_plan_uploaded m b o uploadID ud now us :
  uploaded m b o uploadID ud now us -> no_nul (makeKey b o) ->
  complete_plan m b o (up_cp <$> us) = (up_part <$> us, total us, None).
Proof.
  intros [] Hk. unfold complete_plan. set (p := version_prefix _ _) in *. rewrite take_ge by lia.
  rewrite (complete_list_uploaded m p o _ us [] 0); try done; try lia.
  unfold p, version_prefix, no_nul in *. rewrite !not_elem_of_app. split_and!; [done|compute_done| |compute_done].
  apply newVersion_no_nul.
Qed.

Lemma completed_meta_uploaded m b o uploadID ud us meta now :
  uploaded m b o uploadID ud now us -> no_nul (makeKey b o) ->
  completed_meta m b o (up_cp <$> us) (mkEntry meta (json_Marshal (upload_meta o ud now)))
  = (final_meta m b o ud us now, None).
Proof.
  intros Hu Hk. pose proof (ul_time _ _ _ _ _ _ _ Hu) as Hn.
  unfold completed_meta. rewrite (complete_plan_uploaded _ _ _ _ _ _ _ Hu Hk). cbn [e_value].
  pose proof (ul_ud _ _ _ _ _ _ _ Hu) as [Hud _]. pose proof (ul_name _ _ _ _ _ _ _ Hu).
  rewrite json_roundtrip; [done| |by left].
  apply (newFSMeta_encodable _ (mkKOInfo o 0 now zeroTime) []); try done.
  apply utf8_map_insert; [done| |done]. apply ascii7_utf8, FormatInt_ascii7.
Qed.

Lemma final_Meta m b o ud us now :
  Meta (final_meta m b o ud us now) = Some (
    <[ReservedMetadataPrefix ++ str "actual-size" := FormatInt (total us)]>
    (<[str "etag" := getCompleteMultipartMD5 (up_cp <$> us)]> (<[str "size" := FormatInt (total us)]>
    (<[str "version" := newVersion (current_version m (makeKey b o)).1]>
      (<[str "size" := FormatInt 0]> ud))))).
Proof.
  unfold final_meta, complete_meta, json_overlay, upload_meta. cbn [Meta set_Meta set_KoInfo set_Parts].
  rewrite decide_False by apply insert_non_empty. cbn [default from_option id].
  unfold zeroFsMeta. cbn [Meta default from_option].
  by rewrite map_union_empty.
Qed.

Lemma final_Parts m b o ud us now : Parts (final_meta m b o ud us now) = up_part <$> us.
Proof. done. Qed.

Lemma getCompleteMultipartMD5_ascii7 ps : ascii7 (getCompleteMultipartMD5 ps).
Proof.
  unfold getCompleteMultipartMD5. apply ascii7_app; [apply hex_ascii7|].
  apply ascii7_app; [repeat constructor|apply FormatInt_ascii7].
Qed.

Lemma final_encodable m b o uploadID ud us now :
  uploaded m b o uploadID ud now us -> json_encodable (final_meta m b o ud us now).
Proof.
  intros []. destruct ul_ud0 as [Hud _]. unfold json_encodable. rewrite final_Meta, final_Parts.
  split_and!; try done.
  - repeat apply utf8_map_insert; try done; apply ascii7_utf8;
      first [apply FormatInt_ascii7|apply newVersion_ascii7|apply getCompleteMultipartMD5_ascii7].
  - apply Forall_fmap. eapply Forall_impl; [exact ul_parts0|]. intros u ((H5 & _ & H6 & H7) & _).
    unfold in_int64, int64_min, int64_max in *. cbn. split_and!; try done; lia.
Qed.

Lemma final_plain m b o uploadID ud us now :
  uploaded m b o uploadID ud now us -> plain_meta (Meta (final_meta m b o ud us now)).
Proof.
  intros [] k Hk. destruct ul_ud0 as [_ Hp]. specialize (Hp k Hk). rewrite final_Meta.
  unfold has_key in *. cbn [default from_option id] in *.
  apply bool_decide_eq_false in Hp. apply bool_decide_eq_false.
  assert (k <> str "size" /\ k <> str "etag" /\ k <> str "version" /\
          k <> ReservedMetadataPrefix ++ str "actual-size") as (H5 & H6 & H7 & H8).
  { unfold internal_keys in Hk. split_and!; intros ->; revert Hk; compute_done. }
  by rewrite !lookup_insert_ne by congruence.
Qed.

Lemma part_key_not_json b o u v x : version_ok v -> version_prefix (makeKey b o) v ++ x <> json_key b o u.
Proof.
  intros (n & Hn & ->) E. unfold version_prefix, makeKey, json_key, SlashSeparator in E.
  rewrite <- !app_assoc in E. do 4 apply app_inv_head in E.
  unfold Format5d in E. destruct (Z.ltb_spec n 0); [lia|].
  pose proof (pad5_digits (Z.to_N n)) as Hd. pose proof (Format5d_length n ltac:(lia)) as Hl.
  unfold Format5d in Hl. destruct (Z.ltb_spec n 0); [lia|].
  destruct (pad5 _) as [|c s]; [done|]. injection E as -> _. apply Forall_cons in Hd as [Hd _].
  revert Hd. unfold is_digit. vm_compute. by intros [].
Qed.

(** After a completion that reports success, the parts make up the object. *)
Lemma complete_stored m m' b o uploadID ud now us r :
  uploaded m b o uploadID ud now us -> plain_key (makeKey b o) -> no_nul (json_key b o uploadID) ->
  Z.of_nat (length (json_Marshal (final_meta m b o ud us now))) <= 2 ^ 16 ->
  complete_post m b o uploadID (up_cp <$> us) r m' -> r.2 = None ->
  stored_multipart m' (makeKey b o) (final_meta m b o ud us now) (up_value <$> us) /\
  m' ⊆ <[CString (makeKey b o) := mkEntry (json_Marshal (final_meta m b o ud us now)) []]> m.
Proof.
  intros Hu (_ & _ & Hk) Hj Hfit Hpost Hr. unfold complete_post in Hpost.
  rewrite (complete_plan_uploaded _ _ _ _ _ _ _ Hu Hk) in Hpost. cbn [snd] in Hpost.
  destruct (ul_entry _ _ _ _ _ _ _ Hu) as (meta & He). rewrite He in Hpost.
  destruct Hpost as [(e & -> & _)|(fm & Hfm & _ & Hok & Hsub & Hfr)]; [done|].
  rewrite (completed_meta_uploaded _ _ _ _ _ _ _ _ Hu Hk) in Hfm. injection Hfm as <-.
  split; [|done].
  assert (version_ok (newVersion (current_version m (makeKey b o)).1) /\
          newVersion (current_version m (makeKey b o)).1 <> (current_version m (makeKey b o)).1) as [Hv Hne].
  { apply newVersion_ok, Hu. }
  set (v := (current_version m (makeKey b o)).1) in *. set (p := version_prefix (makeKey b o) (newVersion v)) in *.
  pose proof (total_size_parts us) as Htot.
  assert (no_nul p) as Hp.
  { unfold p, version_prefix, no_nul in *. rewrite !not_elem_of_app.
    split_and!; [done|compute_done|apply newVersion_no_nul|compute_done]. }
  split.
  - by eexists.
  - by apply Hfit.
  - by eapply final_encodable.
  - rewrite final_Parts. pose proof (ul_nonempty _ _ _ _ _ _ _ Hu). by destruct us.
  - rewrite final_Parts. pose proof (ul_parts _ _ _ _ _ _ _ Hu) as Hps. fold v p in Hps.
    pose proof (ul_no_nul _ _ _ _ _ _ _ Hu) as Hnn.
    assert (parts_prefix (makeKey b o) (final_meta m b o ud us now) ++ str "." = p) as Hpp.
    { unfold parts_prefix, p, version_prefix. rewrite final_Meta. cbn [mget]. fold v.
      rewrite !lookup_insert_ne by done. rewrite lookup_insert_eq. by rewrite <- !app_assoc. }
    apply Forall2_fmap, Forall_Forall2_diag.
    rewrite Forall_forall in Hps, Hnn |- *. intros u Hin. specialize (Hps u Hin). specialize (Hnn u Hin).
    destruct Hps as ((_ & _ & _ & Hsz) & (etag & t & Hst & _) & _). cbn beta in Hnn.
    exists (mkEntry (json_Marshal (part_fsMeta o etag (up_size u) t)) (up_value u)).
    cbn [part_Number part_ETag part_ActualSize part_Size up_part]. rewrite (assoc_L (++)), Hpp.
    fold (up_name u). split; [|split_and!; [done|done|apply Hsz|apply Hsz]].
    assert (no_nul (p ++ up_name u)) as Hpn by (unfold no_nul in *; by apply not_elem_of_app).
    rewrite CString_id in Hst |- * by done. rewrite <- Hst. apply Hfr.
    + intros E. apply (makeKey_not_prefixed b o (newVersion v)). fold p. exists (up_name u).
      rewrite (CString_id _ Hk) in E. by rewrite E.
    + rewrite (CString_id _ Hj). by apply part_key_not_json.
    + unfold old_parts. case_decide as Hv0; [apply not_elem_of_nil|]. rewrite elem_of_under.
      intros [Hpre _]. apply version_prefix_disjoint in Hpre; [done| |by apply version_no_dot].
      destruct (ul_version _ _ _ _ _ _ _ Hu) as [?|?]; [done|by apply version_no_dot].
  - rewrite final_Meta, final_Parts, Htot. cbn [mget]. rewrite !lookup_insert_ne by done.
    by rewrite lookup_insert_eq.
  - rewrite final_Parts, Htot. apply Hu.
  - by eapply final_plain.
Qed.

(** ** Completing an upload and reading the object *)
Definition complete_then_get (fuel : nat) (b o uploadID : bytes) (parts : list CompletePart)
  : M (ObjectInfo * option error * option (bytes * option error)) :=
  p ← CompleteMultipartUpload b o uploadID parts;
  match p.2 with
  | Some _ => mret (p, None)
  | None => g ← GetObjectHandler_serve fuel b o []; mret (p, Some g)
  end.

Lemma current_version_no_nul v : v = [] \/ version_ok v -> no_nul v.
Proof. intros [->|Hv]; [by intros ?%elem_of_nil|by apply version_no_nul]. Qed.

(** What a multipart upload needs to be completed and read back: the store is
    sane, the metadata records fit their buffers, and no other request holds the
    object's lock. *)
Record upload_ready (w : World) (b o uploadID : bytes) (ud : strmap) (now : time) (us : list upload_part)
  : Prop := {
  ur_ready : ready w;
  ur_small : small_meta (view (w_drive w));
  ur_plain : plain_store (view (w_drive w));
  ur_key : plain_key (makeKey b o) /\ b <> [];
  ur_json : no_nul (json_key b o uploadID);
  ur_uploaded : uploaded (view (w_drive w)) b o uploadID ud now us;
  ur_upload_fits : Z.of_nat (length (json_Marshal (upload_meta o ud now))) <= 2 ^ 30;
  ur_fits : Z.of_nat (length (json_Marshal (final_meta (view (w_drive w)) b o ud us now))) <= 2 ^ 16;
  ur_object : HasSuffix o SlashSeparator = false /\ checkGetObjArgs b o = None;
  ur_rwpool : rwpool_ok b o;
  ur_lock : lockable w b o true }.

Lemma runs_complete_uploaded w b o uploadID ud now us :
  upload_ready w b o uploadID ud now us ->
  runs (CompleteMultipartUpload b o uploadID (up_cp <$> us)) (λ r d t,
    complete_post (view (w_drive w)) b o uploadID (up_cp <$> us) r (view d)) w.
Proof.
  intros []. destruct ur_key0 as [Hk _]. pose proof ur_uploaded0 as [? [meta He]].
  apply runs_CompleteMultipartUpload; try done.
  - by apply current_version_no_nul.
  - intros e. rewrite He. intros [= <-]. cbn [e_value]. split; [apply json_Marshal_nonempty|done].
  - intros up. rewrite He. intros [= <-].
    rewrite (completed_meta_uploaded _ _ _ _ _ _ _ _ ur_uploaded0) by apply Hk. cbn [fst]. lia.
Qed.

Lemma runs_complete_then_get fuel w b o uploadID ud now us :
  upload_ready w b o uploadID ud now us -> clients_within (w_pool w) (length us) -> (length us < fuel)%nat ->
  runs (complete_then_get fuel b o uploadID (up_cp <$> us)) (λ res d t, match res with
    | (p, None) => p.2 <> None
    | (p, Some g) => p.2 = None /\
        (∃ i k, next_parts (w_pool w) !! i = Some (Z.of_nat k) /\ g = (concat (rotate k (up_value <$> us)), None)) /\
        (idle_clients (w_pool w) -> g = (concat (up_value <$> us), None))
    end) w.
Proof.
  intros Hur Hcl Hf. pose proof Hur as []. destruct ur_key0 as [Hk Hb], ur_object0 as [Hdir Hck].
  unfold complete_then_get. eapply runs_bind; [done|by apply (runs_complete_uploaded _ _ _ _ ud now)|].
  intros p w1 Hw1 Hs Hpost. destruct p.2 as [e|] eqn:Ep; [apply runs_ret; [done|by rewrite Ep]|].
  destruct (complete_stored _ _ _ _ _ _ _ _ _ ur_uploaded0 Hk ur_json0 ur_fits0 Hpost Ep) as [Hst Hsub].
  eapply runs_bind; [done|eapply (runs_get_multi fuel b o); try done|].
  - eapply small_meta_sub; [exact Hsub|]. by apply small_meta_insert.
  - rewrite final_Parts, length_fmap. done.
  - intros i np Hnp. rewrite (same_next _ _ Hs) in Hnp. rewrite final_Parts, length_fmap. by eapply Hcl.
  - by apply (lockable_same _ _ _ _ _ Hs).
  - intros g w2 Hw2 _ (_ & i & k & Hi & ->). rewrite (same_next _ _ Hs) in Hi. apply runs_ret; [done|]. split; [done|].
    split; [by exists i, k|]. intros Hidle. specialize (Hidle i _ Hi). assert (k = 0%nat) as -> by lia.
    unfold rotate. rewrite Nat.Div0.mod_0_l. cbn [drop take]. by rewrite app_nil_r.
Qed.

End multiget.

(** The version that names the parts of an upload: it always has five digits
    between 00001 and 99999, differs from the current version, and no part key of
    the new version lies in the key range of the current version, so cleaning up
    the old version cannot touch the new parts. *)
Theorem new_version_disjoint v objKey x :
  v = [] \/ version_ok v ->
  version_ok (newVersion v) /\ length (newVersion v) = 5%nat /\ newVersion v <> v /\
  ~ version_prefix objKey v `prefix_of` version_prefix objKey (newVersion v) ++ x.
Proof.
  intros Hv. destruct (newVersion_ok v Hv) as [Hok Hne]. split_and!; [done| |done|].
  - destruct Hok as (n & Hn & ->). apply Format5d_length. lia.
  - intros Hp. apply version_prefix_disjoint in Hp; [done| |by apply version_no_dot].
    destruct Hv as [->|Hv]; [by intros ?%elem_of_nil|by apply version_no_dot].
Qed.

Lemma new_version_disjoint_witness :
  version_ok (newVersion (str "99999")) /\ length (newVersion (str "99999")) = 5%nat /\
  newVersion (str "99999") <> str "99999" /\
  ~ version_prefix (str "bkt/obj") (str "99999") `prefix_of`
      version_prefix (str "bkt/obj") (newVersion (str "99999")) ++ str "00001.e.5".
Proof.
  apply (new_version_disjoint (str "99999") (str "bkt/obj") (str "00001.e.5")).
  right. exists 99999. split; [lia|reflexivity].
Defined.
