(* ===== verification/UploadSpec.v ===== *)
(** * The operations of an upload in progress

    What [NewMultipartUpload], [PutObjectPart] and [AbortMultipartUpload] do to
    the store. *)
From S2P Require Import Prelude GoLib IncStr Errors Metadata NsLock Pool Drive World HashReader.
From S2P Require Import HttpRange Client Names Buckets Objects ObjectsSpec Listing ListingSpec.
From S2P Require Import Multipart MultipartSpec Encodable ReadSpec GetSpec RoundTrip MultipartGet.

Section upload.
Context `{KineticDrive} `{LRWMutex} `{MetaCodec} `{MetaEnv} `{OSEnv}.
Context `{!KineticDriveSpec _} `{!LRWMutexLaws _} `{!MetaCodecLaws _}.

(** The checks both operations start with: the bucket is there and the name is
    valid, or the request fails and changes nothing. *)
Definition upload_allowed (w : World) (b o : bytes) : Prop :=
  bucket_ok w b /\ object_name_error b o = None.

#[export] Instance lockable_dec w b o rd : Decision (lockable w b o rd).
Proof. unfold lockable. apply _. Defined.

#[export] Instance upload_allowed_dec w b o : Decision (upload_allowed w b o).
Proof. unfold upload_allowed, bucket_ok. apply _. Defined.

Lemma runs_upload_checks {B} b o (fail : option error -> B) (body : M B) R w :
  ready w -> small_meta (view (w_drive w)) ->
  (~ upload_allowed w b o -> ∀ e, R (fail (Some e)) (w_drive w) (w_tick w)) ->
  (∀ w', ready w' -> same w w' -> w_drive w' = w_drive w -> w_tick w' = w_tick w ->
     upload_allowed w b o -> runs body R w') ->
  runs (err ← checkObjectArgs b o;
        match err with
        | Some e => mret (fail (toObjectErr (Some e) [b]))
        | None =>
            '(_, err) ← GetBucketInfo b;
            match err with
            | Some e => mret (fail (toObjectErr (Some e) [b]))
            | None => body
            end
        end) R w.
Proof.
  intros Hw Hm HF HB. eapply runs_bind; [done|by apply runs_checkObjectArgs|].
  intros err w1 Hw1 Hs1 (Ed & Et & He).
  destruct err as [e|].
  { destruct (toObjectErr_Some e [b]) as [e' ->]. apply runs_ret; [done|]. rewrite Ed, Et. apply HF. unfold upload_allowed. naive_solver. }
  destruct (proj1 He eq_refl) as [[Hl [bi Hbi]] Hn].
  eapply runs_bind; [done|apply runs_GetBucketInfo; [done|by rewrite Ed]|].
  intros [bi' err] w2 Hw2 Hs2 [Hyes _].
  destruct Hyes as (Ed2 & Et2 & E); [by apply (lockable_same _ _ _ _ _ Hs1)|].
  rewrite Ed, Hbi in E. injection E as -> ->. rewrite Ed in Ed2. rewrite Et in Et2.
  apply HB; [done|by eapply same_trans|done|done|]. split; [|done]. split; [done|]. by eexists.
Qed.

(** ** NewMultipartUpload *)
Definition new_upload_post (m : gmap bytes entry) (t : nat) (b o : bytes) (ud : strmap)
    (r : bytes * option error) (m' : gmap bytes entry) : Prop :=
  let uploadID := env_uuid t in
  let bytes := json_Marshal (upload_meta o ud (env_now (S t))) in
  (exists e, r = (uploadID, Some e) /\ m' = m) \/
  (r = (uploadID, None) /\ m' = <[CString (json_key b o uploadID) := mkEntry bytes bytes]> m).

Lemma runs_NewMultipartUpload b o ud w :
  ready w -> small_meta (view (w_drive w)) ->
  Z.of_nat (length (json_Marshal (upload_meta o ud (env_now (S (w_tick w)))))) <= 2 ^ 30 ->
  runs (NewMultipartUpload b o (Some ud)) (λ r d t,
    if decide (upload_allowed w b o)
    then new_upload_post (view (w_drive w)) (w_tick w) b o ud r (view d)
    else (exists e, r = ([], Some e)) /\ d = w_drive w) w.
Proof.
  intros Hw Hm Hfit. unfold NewMultipartUpload, checkNewMultipartArgs.
  apply (runs_upload_checks b o (λ e, ([], e))); [done|done| |].
  - intros Hn e. cbn beta. rewrite decide_False by done. eauto.
  - intros w1 Hw1 _ Ed Et Ha. eapply runs_mono; [|intros a d t HR; rewrite decide_True by done; exact HR]. unfold new_upload_post.
    rewrite <- Ed, <- Et. rewrite <- Et in Hfit.
    fold (upload_meta o ud). wp_steps. fold (upload_meta o ud (env_now (S (w_tick w1)))).
    apply wp_alloc; [lia|]. wp_steps. apply wp_CPut; [apply json_Marshal_nonempty|by intros _; apply json_Marshal_nonempty|].
    intros d s Hd. wsimpl in Hd. rewrite take_ge in Hd by lia. unfold put_result in Hd. wp_steps.
    split; [same_now|]. wsimpl. destruct (toKineticError s) eqn:Es.
    + rewrite decide_False in Hd by (intros ->; done). left. eauto.
    + apply toKineticError_None in Es. rewrite decide_True in Hd by done. by right.
Qed.

(** ** PutObjectPart *)

(** The part a good stream of at most 10 MiB becomes, when the request starts at
    clock [t]: its ETag, its key, its metadata and the time it carries. *)
Definition part_etag (r : Reader) (t : nat) : bytes := (etag_at (advance r (length (r_src r))) t).1.
Definition part_clock (r : Reader) (t : nat) : nat :=
  (etag_at (advance r (length (r_src r))) (etag_at (advance r (length (r_src r))) t).2).2.
Definition part_entry (o : bytes) (r : Reader) (t : nat) : entry :=
  mkEntry (json_Marshal (part_fsMeta o
             (etag_at (advance r (length (r_src r))) (etag_at (advance r (length (r_src r))) t).2).1
             (r_size r) (env_now (part_clock r t))))
    (r_src r).
Definition put_part_key (m : gmap bytes entry) (b o : bytes) (partID : Z) (r : Reader) (t : nat) : bytes :=
  version_prefix (makeKey b o) (newVersion (current_version m (makeKey b o)).1)
    ++ encodePartFile partID (part_etag r t) (r_actualSize r).

Definition put_part_post (m : gmap bytes entry) (t : nat) (b o : bytes) (partID : Z) (r : Reader)
    (res : PartInfo * option error) (m' : gmap bytes entry) : Prop :=
  (exists e, res = (zeroPartInfo, Some e) /\ m' = m) \/
  (exists now, res = (mkPartInfo partID now (part_etag r t) (r_size r) (r_actualSize r), None) /\
     m' = <[CString (put_part_key m b o partID r t) := part_entry o r t]> m).

Lemma etag_at_nonempty r t : (etag_at r t).1 <> [].
Proof.
  unfold etag_at. case_decide as E; cbn [fst].
  - intros Hn. apply app_eq_nil in Hn as [_ Hn]. done.
  - destruct (MD5Current r); done.
Qed.

Lemma runs_PutObjectPart b o uploadID partID r w :
  ready w -> small_meta (view (w_drive w)) -> reader_ok r -> 0 < r_size r <= blockSizeV1 ->
  Z.of_nat (length (e_meta (part_entry o r (w_tick w)))) <= 2 ^ 30 ->
  runs (PutObjectPart b o uploadID partID r) (λ res d t,
    if decide (upload_allowed w b o)
    then put_part_post (view (w_drive w)) (w_tick w) b o partID r res (view d)
    else (exists e, res = (zeroPartInfo, Some e)) /\ d = w_drive w) w.
Proof.
  intros Hw Hm Hrd Hsz Hfit. unfold PutObjectPart, checkPutObjectPartArgs.
  apply (runs_upload_checks b o (λ e, (zeroPartInfo, e))); [done|done| |].
  { intros Hn e. cbn beta. rewrite decide_False by done. eauto. }
  intros w1 Hw1 _ Ed Et Ha.
  eapply runs_mono; [|intros a d t HR; rewrite decide_True by done; exact HR].
  rewrite <- Ed in Hm |- *. rewrite <- Et in Hfit |- *. clear Ed Et Ha Hw w.
  unfold put_part_post, put_part_key, part_entry, part_clock, part_etag in *. unfold blockSizeV1 in *.
  destruct (Z.ltb_spec (r_size r) (-1)); [lia|].
  assert ((if (0 <? r_size r) && (r_size r <? 10 * 1024 * 1024) then r_size r else 10 * 1024 * 1024)
          = r_size r) as ->.
  { destruct (Z.ltb_spec 0 (r_size r)); [|lia]. destruct (Z.ltb_spec (r_size r) (10 * 1024 * 1024)); simpl; lia. }
  wp_steps. apply wp_alloc; [lia|]. destruct Hrd as [Hlen Hver].
  rewrite (readToBuffer_full r (Z.to_nat (r_size r))); [|lia|by rewrite Hlen, Nat2Z.id].
  rewrite decide_False by lia. rewrite Hlen, Nat2Z.id. rewrite <- Hlen. set (r' := advance r _) in *.
  wp_steps. apply wp_MD5. wp_steps. rewrite decide_False by apply etag_at_nonempty. wp_steps.
  set (t1 := (etag_at r' (w_tick w1)).2) in *.
  assert (ready (set_tick t1 w1)) as Hw2 by (destruct Hw1; by split).
  eapply wp_mono; [apply runs_currentVersion; [done|done]|]. cbn beta.
  intros [ver err] w2 (Hs2 & Ed2 & Et2 & Ev). wsimpl in Ed2. wsimpl in Et2. wsimpl in Ev.
  rewrite parts_start_eq. apply wp_bind, wp_MD5. rewrite Et2. wp_steps.
  assert (ready w2) as Hw2' by (by eapply ready_same).
  apply wp_alloc; [cbn [r_size advance r'] ; cbn [e_meta] in Hfit; lia|].
  wp_steps. apply wp_CPut; [apply json_Marshal_nonempty|intros _; destruct (r_src r); [simpl in Hlen; lia|done]|].
  intros d s Hd. wsimpl in Hd. rewrite take_ge in Hd by lia. unfold put_result in Hd. rewrite Ed2 in Hd.
  rewrite <- Ev. cbn [fst].
  destruct (toKineticError s) eqn:Es; wp_steps.
  - split; [|rewrite decide_False in Hd by (intros ->; done); left; eauto].
    eapply (same_trans _ w2); [by destruct Hs2; split|same_now].
  - apply toKineticError_None in Es. rewrite decide_True in Hd by done.
    split; [|right; eexists; split; [done|exact Hd]].
    eapply (same_trans _ w2); [by destruct Hs2; split|same_now].
Qed.

(** ** AbortMultipartUpload *)
Lemma runs_AbortMultipartUpload b o uploadID w :
  let m := view (w_drive w) in
  let p := version_prefix (makeKey b o) (newVersion (current_version m (makeKey b o)).1) in
  ready w -> small_meta m -> plain_store m -> no_nul (makeKey b o) -> no_nul (json_key b o uploadID) ->
  runs (AbortMultipartUpload b o uploadID) (λ r d t,
    pruned (json_key b o uploadID :: under m p) m (view d) /\
    (r = None -> (length (under m p) <= 800)%nat -> ∀ k, p `prefix_of` k -> view d !! k = None)) w.
Proof.
  intros m p Hw Hm Hp Hk Hj. unfold AbortMultipartUpload. wp_steps.
  set (w1 := set_mutex false _). assert (same w w1) as Hs1 by (unfold w1; same_now).
  assert (pruned [json_key b o uploadID] m (view d)) as Hpr.
  { rewrite Edel. pose proof (pruned_singleton m (json_key b o uploadID) s) as Hx. by rewrite (CString_id _ Hj) in Hx. }
  assert (ready w1) as Hw1 by (by eapply ready_same).
  eapply wp_mono; [apply runs_currentVersion; [done|eapply small_meta_sub; [apply Hpr|done]]|]. cbn beta.
  intros [ver err] w2 (Hs2 & Ed2 & _ & Ev).
  assert (ready w2) as Hw2 by (by eapply ready_same).
  assert (current_version (view (w_drive w1)) (makeKey b o) = current_version m (makeKey b o)) as Ecv.
  { unfold current_version. rewrite (CString_id _ Hk). unfold w1. wsimpl. destruct Hpr as [_ Hfr].
    rewrite Hfr; [done|]. rewrite list_elem_of_singleton. apply json_key_ne. }
  rewrite Ecv in Ev. assert (newVersion ver = newVersion (current_version m (makeKey b o)).1) as -> by (by rewrite <- Ev).
  assert (view (w_drive w2) = view d) as Evd by (rewrite Ed2; done).
  eapply wp_mono; [apply runs_deleteParts; [done| |done|apply newVersion_no_nul]|].
  { rewrite Evd. eapply plain_store_sub; [apply Hpr|done]. }
  rewrite Evd. fold p. cbn beta. intros r w3 (Hs3 & _ & Hpd & Hdel).
  split; [by eauto using same_trans|].
  assert (under (view d) p ⊆ under m p) as Hsub.
  { intros k. rewrite !elem_of_under. intros [? [e He]]. split; [done|]. exists e.
    eapply lookup_weaken; [exact He|apply Hpr]. }
  split.
  - eapply pruned_trans; [eapply pruned_mono; [|exact Hpr]|eapply pruned_mono; [|exact Hpd]]; set_solver.
  - intros Hr Hl. apply Hdel; [done|]. etrans; [|exact Hl].
    apply submseteq_length, NoDup_submseteq; [|done]. apply NoDup_filter, sorted_keys_NoDup.
Qed.

End upload.
