(* ===== verification/Scenario.v ===== *)
(** * Concrete states of the server

    Small states in the reference environment, with the facts about them that
    the witnesses of the guarantees need. *)
From S2P Require Import Prelude GoLib IncStr Errors Metadata NsLock Pool Drive World HashReader.
From S2P Require Import HttpRange Client Names Buckets Reference Objects ObjectsSpec Listing.
From S2P Require Import ListingSpec Multipart MultipartSpec Encodable ReadSpec GetSpec RoundTrip.
From S2P Require Import Session MultipartGet UploadSpec.
Export Ref.

Module Scenario.

Definition bkt : bytes := str "bkt".
Definition obj : bytes := str "obj".

(** The stream "hello", of the announced size. *)
Definition hello : Reader := mkReader (str "hello") 5 5 [] [] true false [] true.

Lemma hello_ok : reader_ok hello.
Proof. split; reflexivity. Qed.

Lemma clock : clock_ok.
Proof.
  intros t. unfold json_time. cbn [env_now os]. pose proof (Z.mod_pos_bound (Z.of_nat t) (10 ^ 9)). lia.
Qed.

Lemma bkt_ok : bucket_name_ok bkt.
Proof. unfold bucket_name_ok. split_and!; [done|compute_done|compute_done|reflexivity]. Qed.

Lemma obj_ok : object_name_ok obj.
Proof. split; [compute_done|reflexivity]. Qed.

Lemma no_user_meta : user_meta_ok None.
Proof.
  split; [apply utf8_map_empty|]. intros k _. unfold has_key. simpl. apply bool_decide_eq_false.
  rewrite lookup_empty. by intros [? ?].
Qed.

Lemma no_lock_file b o : rwpool_ok b o.
Proof. by right. Qed.

(** ** An empty bucket *)
Definition w_empty : World := start [bucket_entry bkt].

Lemma w_empty_small : small_meta (view (w_drive w_empty)).
Proof. apply start_small. vm_compute. reflexivity. Qed.

Lemma put_hello_ok : request_ok w_empty (ReqPut bkt obj hello None).
Proof.
  split; [apply bkt_ok|]. split; [apply obj_ok|]. split; [apply hello_ok|]. split; [apply no_user_meta|].
  unfold put_fits. apply Z.leb_le. vm_compute. reflexivity.
Qed.

Lemma w_empty_refines : refines (mkStore {[bkt]} ∅) w_empty.
Proof.
  assert (∀ k, view (w_drive w_empty) !! k = <[bucket_key bkt := (bucket_entry bkt).2]> ∅ !! k) as Hv by done.
  split; [apply start_ready|done|apply w_empty_small| |].
  - intros b Hb. unfold bucket_record. rewrite fmap_is_Some, Hv, (CString_id (bucket_key b)) by
      (by apply bucket_key_no_nul). cbn [st_buckets]. rewrite elem_of_singleton, lookup_insert_is_Some, lookup_empty.
    split; [by intros ->; left|]. intros [E|[_ [? ?]]]; [|done]. by apply app_inv_head in E.
  - intros b o Hb Ho. cbn [st_objects]. rewrite lookup_empty. simpl.
    rewrite Hv, lookup_insert_ne; [apply lookup_empty|].
    rewrite <- (CString_id (bucket_key bkt)) by compute_done. by apply bucket_object_key; [apply bkt_ok|..].
Qed.

Lemma init_fits_ref : init_fits.
Proof.
  intros b t Hb Ht. unfold meta_buckets in Hb. rewrite !elem_of_cons, elem_of_nil in Hb.
  apply Z.leb_le. destruct t as [|[|[|]]]; [..|lia];
    destruct Hb as [->|[->|[->|[]]]]; vm_compute; reflexivity.
Qed.

(** ** A bucket with one object *)
Definition obj_meta : fsMetaV1 := put_fsMeta obj ∅ 5 (str "00001") (str "etag") 0.
Definition w_object : World :=
  start [bucket_entry bkt; (str "bkt/obj", mkEntry (json_Marshal obj_meta) (str "hello"))].

Lemma w_object_small : small_meta (view (w_drive w_object)).
Proof. apply start_small. vm_compute. reflexivity. Qed.

Lemma w_object_plain : plain_store (view (w_drive w_object)).
Proof.
  refine (start_forall _ _ _). repeat constructor; simpl; try compute_done; done.
Qed.

Lemma w_object_buckets : bucket_records_ok (view (w_drive w_object)).
Proof.
  refine (start_forall (λ k e, visible_bucket_key k ->
    bi_Name (gob_Decode (e_meta e) zeroBucketInfo) = k) _ _).
  apply Forall_cons; split; [intros _; vm_compute; reflexivity|].
  apply Forall_cons; split; [|by apply Forall_nil]. intros [Hk _]. vm_compute in Hk. done.
Qed.

Lemma w_object_info :
  exists oi, info_result (view (w_drive w_object)) bkt obj = (oi, None) /\ oi_Size oi = 5.
Proof. eexists. split; [vm_compute; reflexivity|reflexivity]. Qed.

Lemma bkt_range : range_prefix (bkt ++ SlashSeparator ++ []).
Proof. split; [compute_done|]. exists bkt, "/"%char. split; [reflexivity|done]. Qed.

Lemma w_object_decodes :
  Forall (λ k, (object_info (view (w_drive w_object)) bkt (drop (length (bkt ++ SlashSeparator)) k)).2 = None)
    (under (view (w_drive w_object)) (bkt ++ SlashSeparator ++ [])).
Proof.
  assert (under (view (w_drive w_object)) (bkt ++ SlashSeparator ++ []) = [str "bkt/obj"]) as ->
    by (vm_compute; reflexivity).
  apply Forall_singleton. vm_compute. reflexivity.
Qed.

Lemma init_idle : idle_clients init_pool.
Proof.
  intros i np Hi. unfold next_parts in Hi. rewrite lookup_fmap in Hi.
  destruct (kcs init_pool !! i) as [c|] eqn:Ec; [|done]. simpl in Hi. injection Hi as <-.
  unfold init_pool in Ec. cbn [kcs] in Ec. apply elem_of_list_to_map_2, list_elem_of_fmap in Ec as (j & E & _).
  by injection E as _ ->.
Qed.

(** ** An upload in progress with one part *)
Definition part1 : upload_part := mkUp 1 (str "e") (str "hello").

Definition upload_entry : entry :=
  mkEntry (json_Marshal (upload_meta obj ∅ 0)) (json_Marshal (upload_meta obj ∅ 0)).

Definition w_upload : World :=
  start [bucket_entry bkt; (str "bkt/obj.fs.json.u1", upload_entry);
         (str "bkt/obj.00001.00001.e.5", mkEntry (json_Marshal (part_fsMeta obj (str "e") 5 0)) (str "hello"))].

Lemma w_upload_small : small_meta (view (w_drive w_upload)).
Proof. apply start_small. vm_compute. reflexivity. Qed.

Lemma w_upload_plain : plain_store (view (w_drive w_upload)).
Proof. refine (start_forall _ _ _). repeat constructor; simpl; try compute_done; done. Qed.

Lemma bkt_obj_plain : plain_key (makeKey bkt obj).
Proof. split_and!; [done|compute_done|compute_done]. Qed.

Lemma w_upload_entry :
  view (w_drive w_upload) !! CString (json_key bkt obj (str "u1")) = Some upload_entry.
Proof. reflexivity. Qed.

Lemma w_upload_under :
  under (view (w_drive w_upload)) (version_prefix (makeKey bkt obj)
    (newVersion (current_version (view (w_drive w_upload)) (makeKey bkt obj)).1))
  = [str "bkt/obj.00001.00001.e.5"].
Proof. vm_compute. reflexivity. Qed.

Lemma w_upload_uploaded : uploaded (view (w_drive w_upload)) bkt obj (str "u1") ∅ 0 [part1].
Proof.
  split.
  - unfold json_time. lia.
  - eexists. apply w_upload_entry.
  - split; [apply utf8_map_empty|apply no_user_meta].
  - reflexivity.
  - by left.
  - apply Forall_singleton. split; [|split].
    + unfold up_ok, up_size, int64_max. simpl. split_and!; [lia|lia|compute_done|reflexivity|lia|lia].
    + exists (str "e"), 0. split; [reflexivity|]. split; [reflexivity|]. unfold json_time. lia.
    + rewrite w_upload_under. intros k Hk _. apply list_elem_of_singleton in Hk as ->. reflexivity.
  - apply Forall_singleton. compute_done.
  - rewrite w_upload_under. simpl. lia.
  - done.
  - intros [|[|i]] u Hu Hi; simpl in *; lia.
  - unfold total, up_size. simpl. lia.
Qed.

Lemma w_upload_ready : upload_ready w_upload bkt obj (str "u1") ∅ 0 [part1].
Proof.
  split; [apply start_ready|apply w_upload_small|apply w_upload_plain|split; [apply bkt_obj_plain|done]|compute_done
         |apply w_upload_uploaded| | |split; [reflexivity|vm_compute; reflexivity]|apply no_lock_file|done].
  - apply Z.leb_le. vm_compute. reflexivity.
  - apply Z.leb_le. vm_compute. reflexivity.
Qed.

(** ** An object in two parts *)
Definition two_parts_meta : fsMetaV1 :=
  let f := put_fsMeta obj ∅ 6 (str "00001") (str "etag") 0 in
  mkFsMeta (Version f) (Checksum f) (Meta f) [mkPart (str "e") 1 3 3; mkPart (str "f") 2 3 3] (KoInfo f).
Definition w_two_parts : World :=
  start [bucket_entry bkt; (str "bkt/obj", mkEntry (json_Marshal two_parts_meta) []);
         (str "bkt/obj.00001.00001.e.3", mkEntry (json_Marshal (part_fsMeta obj (str "e") 3 0)) (str "abc"));
         (str "bkt/obj.00001.00002.f.3", mkEntry (json_Marshal (part_fsMeta obj (str "f") 3 0)) (str "def"))].

Lemma w_two_parts_small : small_meta (view (w_drive w_two_parts)).
Proof. apply start_small. vm_compute. reflexivity. Qed.

(** The reference drive deletes what it has. *)
Lemma ref_deletes : deletes_stored.
Proof. intros d k [e He]. cbn in He |- *. by rewrite He. Qed.

End Scenario.
