(* ===== verification/Guarantees.v ===== *)
(** * The guarantees of the object layer

    The theorems about whole requests and sessions, each with a witness in the
    reference environment. *)
From S2P Require Import Prelude GoLib IncStr Errors Metadata NsLock Pool Drive World HashReader.
From S2P Require Import HttpRange Client Names Buckets Reference Objects ObjectsSpec Listing.
From S2P Require Import ListingSpec Multipart MultipartSpec Encodable ReadSpec GetSpec RoundTrip.
From S2P Require Import Session MultipartGet UploadSpec Scenario.
Import Scenario.

(** ** Sessions *)
Section sessions.
Context `{KineticDrive} `{LRWMutex} `{MetaCodec} `{MetaEnv} `{OSEnv}.
Context `{!KineticDriveSpec _} `{!LRWMutexLaws _} `{!MetaCodecLaws _}.

(** C1. Every session of requests (make a bucket, PUT, GET with any Range header,
    HEAD, DELETE) served by the object layer runs to its end without panic or
    deadlock, and its responses are those of the abstract store of named
    contents: a GET returns the requested bytes of the last successful PUT, and
    a failed request changes nothing but for what a refusal of the drive in the
    middle of a DELETE can leave.  The relation between the abstract store and
    the state of process and drive is kept. *)
Theorem session_refines fuel qs s w :
  clock_ok -> (2 <= fuel)%nat -> refines s w -> session_ok fuel w qs ->
  wp (serve_all fuel qs) (λ resps w', exists s', steps s qs resps s' /\ refines s' w') w.
Proof. intros. by apply serve_all_refines. Qed.

(** Starting the object layer over an empty drive succeeds and establishes
    the relation with an abstract store that has no objects and at most the
    server's own bucket: from there every session is one of the abstract store. *)
Theorem start_refines IP d :
  view d = ∅ -> init_fits -> ready (init_world d) -> str "skinny" `prefix_of` IP ->
  wp (NewKineticObjectLayer IP) (λ err w, err = None /\ exists s, refines s w /\ st_objects s = ∅ /\
    st_buckets s ⊆ {[minioMetaBucket]}) (init_world d).
Proof. apply init_refines. Qed.

(** C4. What is put is what is got: a PUT that reports success makes every later
    GET with any Range header return the selected bytes of the stream that was
    uploaded, and a PUT that fails leaves the store as it was. *)
Theorem put_then_get fuel b o h r ud w :
  clock_ok -> ready w -> small_meta (view (w_drive w)) -> (2 <= fuel)%nat ->
  request_ok w (ReqPut b o r ud) -> rwpool_ok b o -> checkGetObjArgs b o = None ->
  runs (put_then b o r ud (GetObjectHandler_serve fuel b o h)) (λ res d t, match res with
    | (p, None) => p.2 <> None /\ view d = view (w_drive w)
    | (p, Some g) => p.2 = None /\ oi_Size p.1 = r_size r /\ g = header_spec h (r_src r)
    end) w.
Proof.
  intros Hcl Hw Hm Hf (Hb & Ho & Hr & Hu & Hfit) Hrw Hck. pose proof Hr as [Hlen _].
  apply (runs_put_then b o r ud _ (λ g d, g = header_spec h (r_src r))); try done.
  { by apply object_key_no_nul. }
  intros w1 Hw1 _ Hm1 Hl Ha Hsz _ Hv.
  eapply runs_mono; [apply (runs_serve_single fuel b o h
    (next_meta (view (w_drive w)) (w_tick w) b o r ud) (r_src r)); try done; [apply Hb|apply Ho|]|].
  - apply next_meta_stored; [done|by eapply put_name_utf8, Ha|done|lia|lia|done|].
    rewrite Hv. apply lookup_insert_eq.
  - by intros a d t [_ ->].
Qed.

End sessions.

Lemma session_refines_witness :
  exists resps w', serve_all 2 [ReqPut bkt obj hello None; ReqGet bkt obj (str "bytes=1-3")] w_empty
    = ROk resps w' /\
  exists s', steps (mkStore {[bkt]} ∅)
    [ReqPut bkt obj hello None; ReqGet bkt obj (str "bytes=1-3")] resps s' /\ refines s' w'.
Proof.
  apply wp_elim. apply (session_refines 2 _ (mkStore {[bkt]} ∅) w_empty).
  - apply clock.
  - lia.
  - apply w_empty_refines.
  - split; [apply put_hello_ok|].
    destruct (serve 2 (ReqPut bkt obj hello None) w_empty) as [? w1| | | |]; try exact I.
    split; [|by destruct (serve _ _ _)]. split; [apply bkt_ok|]. split; [apply obj_ok|apply no_lock_file].
Defined.

Lemma start_refines_witness :
  exists err w, NewKineticObjectLayer (str "skinny") (init_world (mkRef ∅ 1000 : @drive kd)) = ROk err w /\
  err = None /\ exists s, refines s w /\ st_objects s = ∅ /\ st_buckets s ⊆ {[minioMetaBucket]}.
Proof.
  apply wp_elim. apply (start_refines (str "skinny") (mkRef ∅ 1000 : @drive kd));
    [reflexivity|apply init_fits_ref|apply (start_ready [])|done].
Defined.

Lemma put_then_get_witness :
  runs (put_then bkt obj hello None (GetObjectHandler_serve 2 bkt obj (str "bytes=-2"))) (λ res d t, match res with
    | (p, None) => p.2 <> None /\ view d = view (w_drive w_empty)
    | (p, Some g) => p.2 = None /\ oi_Size p.1 = r_size hello /\
                     g = header_spec (str "bytes=-2") (r_src hello)
    end) w_empty /\
  header_spec (str "bytes=-2") (r_src hello) = (str "lo", None).
Proof.
  split; [|vm_compute; reflexivity].
  apply (put_then_get 2 bkt obj (str "bytes=-2") hello None w_empty).
  - apply clock.
  - apply start_ready.
  - apply w_empty_small.
  - lia.
  - apply put_hello_ok.
  - apply no_lock_file.
  - vm_compute. reflexivity.
Defined.

(** ** Requests on objects *)
Section objects.
Context `{KineticDrive} `{LRWMutex} `{MetaCodec} `{MetaEnv} `{OSEnv}.
Context `{!KineticDriveSpec _} `{!LRWMutexLaws _} `{!MetaCodecLaws _}.

(** C10. A PUT is all or nothing.  It returns with every lock and connection given
    back; if the bucket is missing, the name is not allowed or the lock is held it
    fails and the drive is untouched; otherwise it fails and the store is as
    before (an oversized, short or corrupt stream, a refusal of the drive), or it
    stores under the object's key exactly the bytes of the stream and the metadata
    of the object's next version. *)
Theorem put_all_or_nothing b o r ud w :
  ready w -> small_meta (view (w_drive w)) -> 0 <= r_size r ->
  Z.of_nat (length (json_Marshal (next_meta (view (w_drive w)) (w_tick w) b o r ud))) <= 2 ^ 30 ->
  runs (PutObject b o r ud) (λ res d t,
    (put_allowed w b o (r_size r) -> put_post (view (w_drive w)) (w_tick w) b o r ud res d) /\
    (~ put_allowed w b o (r_size r) -> d = w_drive w /\ exists e, res = (zeroObjectInfo, Some e))) w.
Proof. apply runs_PutObject. Qed.

(** C12. A DELETE removes the object's key and the keys of its parts and nothing
    else: a missing object is reported and nothing changes; otherwise every other
    key keeps its entry, when the request reports success the object is gone, and
    the keys of all its parts are gone too, provided that the drive deletes the
    keys it has when it is asked to (its answers for the parts are not looked at). *)
Theorem delete_frame b o w :
  ready w -> small_meta (view (w_drive w)) ->
  runs (DeleteObject b o) (or_timeout w b o false Some (λ res d t,
    match checkDelObjArgs b o with
    | Some e => res = Some e /\ d = w_drive w
    | None => delete_post (view (w_drive w)) (makeKey b o) res (view d)
    end)) w.
Proof. apply runs_DeleteObject. Qed.

(** HEAD: the information of an object is computed from its stored metadata;
    a missing bucket or object gives "object not found", an invalid name its
    error, and a metadata record that does not decode the decoder's error.  The
    drive is only read. *)
Theorem head_reads_metadata b o oi err w :
  ready w -> small_meta (view (w_drive w)) -> lockable w b o true ->
  info_result (view (w_drive w)) b o = (oi, err) ->
  err <> Some errCorruptedFormat -> err <> Some io_EOF ->
  runs (GetObjectInfo b o) (λ r d t, d = w_drive w /\ t = w_tick w /\
    r = (oi, toObjectErr err [b; o])) w.
Proof. apply runs_GetObjectInfo. Qed.

(** GET into a writer: the range is checked against the size of the stored
    value and refused outside it; inside it the whole value is written, whatever
    the offset and the length. *)
Theorem get_into_writer b o off len w :
  ready w -> small_meta (view (w_drive w)) -> readable (view (w_drive w)) (b ++ str "/" ++ o) ->
  runs (GetObject b o off len true) (λ r d t, d = w_drive w /\ t = w_tick w /\
    match checkGetObjArgs b o with
    | Some e => r = ([], Some e)
    | None => (lockable w b o true -> r = get_spec (view (w_drive w)) b o off len) /\
              (~ lockable w b o true -> r = ([], Some OperationTimedOut))
    end) w.
Proof. apply runs_GetObject. Qed.

(** Creating a bucket: an invalid name and an existing bucket are errors that
    leave the drive alone; otherwise the request reports success and the record of
    the bucket is under its key, unless the drive refused it. *)
Theorem make_bucket_effect b loc w :
  ready w ->
  runs (MakeBucketWithLocation b loc) (or_timeout w b [] false Some (λ r d t,
    if decide (s3_CheckValidBucketNameStrict b = None) then
      match bucket_record (view (w_drive w)) b with
      | Some _ => r = Some (BucketExists b) /\ d = w_drive w
      | None => r = None /\ exists s, put_bucket (view (w_drive w)) (view d) b (env_now (w_tick w)) s
      end
    else r = Some (BucketNameInvalid b) /\ d = w_drive w)) w.
Proof. apply runs_MakeBucketWithLocation. Qed.

(** The information of a bucket is its stored record; a missing bucket is
    "bucket not found"; the drive is only read and the lock is given back. *)
Theorem bucket_info_reads_record b w :
  ready w -> small_meta (view (w_drive w)) ->
  runs (GetBucketInfo b) (or_timeout w b [] true (λ e, (zeroBucketInfo, Some e)) (λ r d t,
    d = w_drive w /\ t = w_tick w /\
    r = match bucket_record (view (w_drive w)) b with
        | Some bi => (bi, None)
        | None => (zeroBucketInfo, Some (BucketNotFound b))
        end)) w.
Proof. apply runs_GetBucketInfo. Qed.

(** The listing of buckets is complete and ordered: with fewer than 800 bucket
    keys it returns one entry for every stored bucket that is not reserved for the
    server, in the order of their names, each with its name and creation time. *)
Theorem list_buckets_complete fuel w :
  ready w -> small_meta (view (w_drive w)) -> plain_store (view (w_drive w)) ->
  bucket_records_ok (view (w_drive w)) -> (0 < fuel)%nat ->
  (length (keys_in_range (view (w_drive w)) (str "bucket.") (str "bucket/") true true 800) < 800)%nat ->
  runs (ListBuckets fuel) (λ r d t, d = w_drive w /\ t = w_tick w /\
    r = (listed_bucket (view (w_drive w)) <$>
           filter visible_bucket_key (sorted_keys (view (w_drive w))), None)) w.
Proof. apply runs_ListBuckets. Qed.

End objects.

Lemma put_all_or_nothing_witness :
  runs (PutObject bkt obj hello None) (λ res d t,
    (put_allowed w_empty bkt obj 5 ->
       put_post (view (w_drive w_empty)) (w_tick w_empty) bkt obj hello None res d) /\
    (~ put_allowed w_empty bkt obj 5 -> d = w_drive w_empty /\ exists e, res = (zeroObjectInfo, Some e))) w_empty.
Proof.
  apply (put_all_or_nothing bkt obj hello None w_empty);
    [apply start_ready|apply w_empty_small|simpl; lia|apply Z.leb_le; vm_compute; reflexivity].
Defined.

Lemma delete_frame_witness :
  deletes_stored /\
  runs (DeleteObject bkt obj) (or_timeout w_two_parts bkt obj false Some (λ res d t,
    match checkDelObjArgs bkt obj with
    | Some e => res = Some e /\ d = w_drive w_two_parts
    | None => delete_post (view (w_drive w_two_parts)) (makeKey bkt obj) res (view d)
    end)) w_two_parts.
Proof.
  split; [exact ref_deletes|].
  apply (delete_frame bkt obj w_two_parts); [apply start_ready|apply w_two_parts_small].
Defined.

Lemma head_reads_metadata_witness :
  exists oi, oi_Size oi = 5 /\
  runs (GetObjectInfo bkt obj) (λ r d t, d = w_drive w_object /\ t = w_tick w_object /\
    r = (oi, toObjectErr None [bkt; obj])) w_object.
Proof.
  destruct w_object_info as (oi & Hi & Hs). exists oi. split; [exact Hs|].
  apply (head_reads_metadata bkt obj oi None w_object);
    [apply start_ready|apply w_object_small|done|exact Hi|done|done].
Defined.

Lemma list_buckets_complete_witness :
  runs (ListBuckets 1) (λ r d t, d = w_drive w_object /\ t = w_tick w_object /\
    r = (listed_bucket (view (w_drive w_object)) <$>
           filter visible_bucket_key (sorted_keys (view (w_drive w_object))), None)) w_object.
Proof.
  apply (list_buckets_complete 1 w_object);
    [apply start_ready|apply w_object_small|apply w_object_plain|apply w_object_buckets|lia|
     apply Nat.ltb_lt; vm_compute; reflexivity].
Defined.

(** ** Listings *)
Section listings.
Context `{KineticDrive} `{LRWMutex} `{MetaCodec} `{MetaEnv} `{OSEnv}.
Context `{!KineticDriveSpec _} `{!LRWMutexLaws _} `{!MetaCodecLaws _}.

(** What a listing of bucket [b] below [prefix] needs: the prefix has no wildcard
    and its increment is a range of keys, a marker continues the prefix, something
    is asked for, and the metadata of the keys it runs over decodes. *)
Record listing_ok (b prefix marker : bytes) (maxKeys : Z) (w : World) : Prop := {
  lo_ready : ready w;
  lo_small : small_meta (view (w_drive w));
  lo_plain : plain_store (view (w_drive w));
  lo_star : "*"%char ∉ prefix;
  lo_range : range_prefix (b ++ SlashSeparator ++ prefix);
  lo_marker : marker_ok prefix marker;
  lo_max : 0 < maxKeys;
  lo_info : Forall (λ k, (object_info (view (w_drive w)) b (drop (length (b ++ SlashSeparator)) k)).2 = None)
              (listed_keys (view (w_drive w)) b prefix marker) }.

(** The marker of the page after one that ended with the keys [taken]. *)
Definition next_marker (b prefix marker : bytes) (taken : list bytes) : bytes :=
  drop (length (b ++ SlashSeparator)) (IncStr (default (first_key b prefix marker) (last taken))).



End listings.

Lemma w_object_listing : listing_ok bkt [] [] 1000 w_object.
Proof.
  split; [apply start_ready|apply w_object_small|apply w_object_plain|compute_done|apply bkt_range
         |split; [compute_done|by left]|done|].
  rewrite listed_under; [apply w_object_decodes|apply bkt_range|vm_compute; reflexivity].
Qed.



(** ** Multipart uploads *)
Section multipart.
Context `{KineticDrive} `{LRWMutex} `{MetaCodec} `{MetaEnv} `{OSEnv}.
Context `{!KineticDriveSpec _} `{!LRWMutexLaws _} `{!MetaCodecLaws _}.

(** C5. What was uploaded in parts is what is got: when an upload whose parts are
    in the store is completed with the list of its parts, and the request reports
    success, a GET of the whole object returns the parts in the order of that list,
    starting at the part that the client taken from the pool is at, in a circle.
    If no client of the pool was left in the middle of a multipart object, that is
    the concatenation of the parts.  No client may have been left at a part number
    that the object does not have ([clients_within]): its reads would return no
    bytes and no error, and the copy would not end. *)
Theorem upload_then_get fuel w b o uploadID ud now us :
  upload_ready w b o uploadID ud now us -> clients_within (w_pool w) (length us) -> (length us < fuel)%nat ->
  runs (complete_then_get fuel b o uploadID (up_cp <$> us)) (λ res d t, match res with
    | (p, None) => p.2 <> None
    | (p, Some g) => p.2 = None /\
        (∃ i k, next_parts (w_pool w) !! i = Some (Z.of_nat k) /\ g = (concat (rotate k (up_value <$> us)), None)) /\
        (idle_clients (w_pool w) -> g = (concat (up_value <$> us), None))
    end) w.
Proof. apply runs_complete_then_get. Qed.


(** Starting an upload stores its metadata under the key of a new upload
    identifier, or fails and changes nothing. *)
Theorem new_upload_effect b o ud w :
  ready w -> small_meta (view (w_drive w)) ->
  Z.of_nat (length (json_Marshal (upload_meta o ud (env_now (S (w_tick w)))))) <= 2 ^ 30 ->
  runs (NewMultipartUpload b o (Some ud)) (λ r d t,
    if decide (upload_allowed w b o)
    then new_upload_post (view (w_drive w)) (w_tick w) b o ud r (view d)
    else (exists e, r = ([], Some e)) /\ d = w_drive w) w.
Proof. apply runs_NewMultipartUpload. Qed.

(** Uploading a part of at most 10 MiB stores exactly the bytes of the stream
    under the key that carries the next version of the object, the part number,
    the ETag and the size, and reports that ETag; a failure changes nothing. *)
Theorem put_part_effect b o uploadID partID r w :
  ready w -> small_meta (view (w_drive w)) -> reader_ok r -> 0 < r_size r <= blockSizeV1 ->
  Z.of_nat (length (e_meta (part_entry o r (w_tick w)))) <= 2 ^ 30 ->
  runs (PutObjectPart b o uploadID partID r) (λ res d t,
    if decide (upload_allowed w b o)
    then put_part_post (view (w_drive w)) (w_tick w) b o partID r res (view d)
    else (exists e, res = (zeroPartInfo, Some e)) /\ d = w_drive w) w.
Proof. apply runs_PutObjectPart. Qed.

(** Aborting an upload removes nothing but the upload's key and the part keys
    of the object's next version, and when it succeeds with at most 800 parts none
    of these is left. *)
Theorem abort_effect b o uploadID w :
  let m := view (w_drive w) in
  let p := version_prefix (makeKey b o) (newVersion (current_version m (makeKey b o)).1) in
  ready w -> small_meta m -> plain_store m -> no_nul (makeKey b o) -> no_nul (json_key b o uploadID) ->
  runs (AbortMultipartUpload b o uploadID) (λ r d t,
    pruned (json_key b o uploadID :: under m p) m (view d) /\
    (r = None -> (length (under m p) <= 800)%nat -> ∀ k, p `prefix_of` k -> view d !! k = None)) w.
Proof. apply runs_AbortMultipartUpload. Qed.

(** Deleting the parts of a version removes keys of that version only; when it
    succeeds and there were at most 800 of them, none is left. *)
Theorem delete_parts_effect objKey version w :
  ready w -> plain_store (view (w_drive w)) -> no_nul objKey -> no_nul version ->
  runs (deleteParts objKey version) (λ r d t, t = w_tick w /\
    parts_deleted (view (w_drive w)) (version_prefix objKey version) r (view d)) w.
Proof. apply runs_deleteParts. Qed.

End multipart.

Lemma upload_then_get_witness :
  exists r w', complete_then_get 2 bkt obj (str "u1") (up_cp <$> [part1]) w_upload = ROk r w' /\
    same w_upload w' /\ match r with
    | (p, None) => p.2 <> None
    | (p, Some g) => p.2 = None /\ g = (str "hello", None)
    end.
Proof.
  assert (length [part1] < 2)%nat as Hf by (simpl; lia).
  assert (clients_within (w_pool w_upload) (length [part1])) as Hc
    by (apply idle_within; [simpl; lia|apply init_idle]).
  destruct (wp_elim _ _ _ (upload_then_get 2 w_upload bkt obj (str "u1") ∅ 0 [part1] w_upload_ready Hc Hf))
    as (r & w' & E & Hs & Hr).
  exists r, w'. split; [exact E|]. split; [exact Hs|].
  destruct r as [p [g|]]; [|exact Hr]. destruct Hr as (Hp & _ & Hg). split; [exact Hp|]. rewrite (Hg init_idle). reflexivity.
Defined.


Lemma new_upload_effect_witness :
  runs (NewMultipartUpload bkt obj (Some ∅)) (λ r d t,
    if decide (upload_allowed w_empty bkt obj)
    then new_upload_post (view (w_drive w_empty)) (w_tick w_empty) bkt obj ∅ r (view d)
    else (exists e, r = ([], Some e)) /\ d = w_drive w_empty) w_empty.
Proof.
  apply (new_upload_effect bkt obj ∅ w_empty);
    [apply start_ready|apply w_empty_small|apply Z.leb_le; vm_compute; reflexivity].
Defined.

Lemma put_part_effect_witness :
  runs (PutObjectPart bkt obj (str "u1") 1 hello) (λ res d t,
    if decide (upload_allowed w_empty bkt obj)
    then put_part_post (view (w_drive w_empty)) (w_tick w_empty) bkt obj 1 hello res (view d)
    else (exists e, res = (zeroPartInfo, Some e)) /\ d = w_drive w_empty) w_empty.
Proof.
  apply (put_part_effect bkt obj (str "u1") 1 hello w_empty);
    [apply start_ready|apply w_empty_small|apply hello_ok|unfold blockSizeV1; simpl; lia
    |apply Z.leb_le; vm_compute; reflexivity].
Defined.

Lemma abort_effect_witness :
  let m := view (w_drive w_upload) in
  let p := version_prefix (makeKey bkt obj) (newVersion (current_version m (makeKey bkt obj)).1) in
  runs (AbortMultipartUpload bkt obj (str "u1")) (λ r d t,
    pruned (json_key bkt obj (str "u1") :: under m p) m (view d) /\
    (r = None -> (length (under m p) <= 800)%nat -> ∀ k, p `prefix_of` k -> view d !! k = None)) w_upload.
Proof.
  apply (abort_effect bkt obj (str "u1") w_upload);
    [apply start_ready|apply w_upload_small|apply w_upload_plain|compute_done|compute_done].
Defined.

