(* ===== verification/Proto.v ===== *)
(** * pkg/kinetic_proto/kinetic_proto.go: the messages of the Kinetic protocol

    The enumerations and records that cmd/client.go builds and reads.  An
    enumeration is an [int32], so a value outside its named constants can occur;
    the constants keep the names of the source.  A pointer field that may be nil
    is an [option]; a nil byte slice and an empty one are not distinguished by
    the code and are both [[]].  The getters are the generated ones: they accept
    a nil receiver and return the default of the field.

    Fields no code of the client reads or writes are left out: the unknown
    fields and size caches of the generated code, [Setup], [P2POperation] and
    [Power] of a body, the access control lists of [Security], and the parts of
    a log that are only printed. *)
From S2P Require Import Prelude GoLib Errors Metadata.

(** ** Enumerations *)
Definition Message_INVALID_AUTH_TYPE : Z := -1.
Definition Message_HMACAUTH : Z := 1.
Definition Message_PINAUTH : Z := 2.
Definition Message_UNSOLICITEDSTATUS : Z := 3.

Definition Command_INVALID_SYNCHRONIZATION : Z := -1.
Definition Command_WRITETHROUGH : Z := 1.
Definition Command_WRITEBACK : Z := 2.
Definition Command_FLUSH : Z := 3.

Definition Command_INVALID_ALGORITHM : Z := -1.
Definition Command_SHA1 : Z := 1.
Definition Command_SHA2 : Z := 2.
Definition Command_SHA3 : Z := 3.
Definition Command_CRC32C : Z := 4.
Definition Command_CRC64 : Z := 5.
Definition Command_CRC32 : Z := 6.

Definition Command_INVALID_MESSAGE_TYPE : Z := -1.
Definition Command_GET : Z := 2.
Definition Command_GET_RESPONSE : Z := 1.
Definition Command_PUT : Z := 4.
Definition Command_PUT_RESPONSE : Z := 3.
Definition Command_DELETE : Z := 6.
Definition Command_DELETE_RESPONSE : Z := 5.
Definition Command_GETNEXT : Z := 8.
Definition Command_GETNEXT_RESPONSE : Z := 7.
Definition Command_GETPREVIOUS : Z := 10.
Definition Command_GETPREVIOUS_RESPONSE : Z := 9.
Definition Command_GETKEYRANGE : Z := 12.
Definition Command_GETKEYRANGE_RESPONSE : Z := 11.
Definition Command_GETVERSION : Z := 16.
Definition Command_GETVERSION_RESPONSE : Z := 15.
Definition Command_SETUP : Z := 22.
Definition Command_SETUP_RESPONSE : Z := 21.
Definition Command_GETLOG : Z := 24.
Definition Command_GETLOG_RESPONSE : Z := 23.
Definition Command_SECURITY : Z := 26.
Definition Command_SECURITY_RESPONSE : Z := 25.
Definition Command_PEER2PEERPUSH : Z := 28.
Definition Command_PEER2PEERPUSH_RESPONSE : Z := 27.
Definition Command_NOOP : Z := 30.
Definition Command_NOOP_RESPONSE : Z := 29.
Definition Command_FLUSHALLDATA : Z := 32.
Definition Command_FLUSHALLDATA_RESPONSE : Z := 31.
Definition Command_PINOP : Z := 36.
Definition Command_PINOP_RESPONSE : Z := 35.
Definition Command_MEDIASCAN : Z := 38.
Definition Command_MEDIASCAN_RESPONSE : Z := 37.
Definition Command_MEDIAOPTIMIZE : Z := 40.
Definition Command_MEDIAOPTIMIZE_RESPONSE : Z := 39.
Definition Command_START_BATCH : Z := 42.
Definition Command_START_BATCH_RESPONSE : Z := 41.
Definition Command_END_BATCH : Z := 44.
Definition Command_END_BATCH_RESPONSE : Z := 43.
Definition Command_ABORT_BATCH : Z := 46.
Definition Command_ABORT_BATCH_RESPONSE : Z := 45.
Definition Command_SET_POWER_LEVEL : Z := 48.
Definition Command_SET_POWER_LEVEL_RESPONSE : Z := 47.

Definition Command_Status_INVALID_STATUS_CODE : Z := -1.
Definition Command_Status_SUCCESS : Z := 1.
Definition Command_Status_NOT_FOUND : Z := 7.

Definition Command_GetLog_UTILIZATIONS : Z := 0.
Definition Command_GetLog_TEMPERATURES : Z := 1.
Definition Command_GetLog_CAPACITIES : Z := 2.
Definition Command_GetLog_CONFIGURATION : Z := 3.
Definition Command_GetLog_STATISTICS : Z := 4.
Definition Command_GetLog_MESSAGES : Z := 5.
Definition Command_GetLog_LIMITS : Z := 6.
Definition Command_GetLog_DEVICE : Z := 7.

Definition Command_Security_ERASE_PIN_SECURITYOP : Z := 2.
Definition Command_Security_LOCK_PIN_SECURITYOP : Z := 3.

Definition Command_PinOperation_UNLOCK_PINOP : Z := 1.
Definition Command_PinOperation_LOCK_PINOP : Z := 2.
Definition Command_PinOperation_ERASE_PINOP : Z := 3.
Definition Command_PinOperation_SECURE_ERASE_PINOP : Z := 4.

(** ** Records *)
Record Message_HMACauth := mkHMACauth { Identity : option Z; Hmac : bytes }.
Record Message_PINauth := mkPINauth { Pin : bytes }.

Record Message := mkMessage {
  AuthType : option Z;
  HmacAuth : option Message_HMACauth;
  PinAuth : option Message_PINauth;
  CommandBytes : bytes }.

Record Command_Header := mkHeader {
  ClusterVersion : option Z;
  ConnectionID : option Z;
  Sequence : option Z;
  AckSequence : option Z;
  MessageType : option Z;
  Timeout : option Z;
  EarlyExit : option bool;
  Priority : option Z;
  TimeQuanta : option Z;
  BatchID : option Z }.

Record Command_Batch := mkBatch {
  Count : option Z;
  batch_Sequence : list Z;
  FailedSequence : option Z }.

Record Command_Status := mkStatus {
  Code : option Z;
  StatusMessage : option bytes;
  DetailedMessage : bytes }.

Record Command_KeyValue := mkKeyValue {
  NewVersion : bytes;
  Force : option bool;
  Key : bytes;
  DbVersion : bytes;
  Tag : bytes;
  kv_Algorithm : option Z;
  MetadataOnly : option bool;
  Synchronization : option Z }.

Record Command_Range := mkRange {
  StartKey : bytes;
  EndKey : bytes;
  StartKeyInclusive : option bool;
  EndKeyInclusive : option bool;
  MaxReturned : option Z;
  Reverse : option bool;
  Keys : list bytes }.

Record Command_GetLog := mkGetLog { Types : list Z }.

Record Command_Security := mkSecurity {
  OldLockPIN : bytes;
  NewLockPIN : bytes;
  OldErasePIN : bytes;
  NewErasePIN : bytes;
  SecurityOpType : option Z }.

Record Command_PinOperation := mkPinOperation { PinOpType : option Z }.

Record Command_Body := mkBody {
  KeyValue : option Command_KeyValue;
  Range : option Command_Range;
  GetLog_ : option Command_GetLog;
  Security : option Command_Security;
  PinOp : option Command_PinOperation;
  Batch : option Command_Batch }.

Record Command := mkCommand {
  cmd_Header : option Command_Header;
  cmd_Body : option Command_Body;
  cmd_Status : option Command_Status }.

(** The zero values [&kinetic_proto.X{}]. *)
Definition zeroMessage : Message := mkMessage None None None [].
Definition zeroHeader : Command_Header :=
  mkHeader None None None None None None None None None None.
Definition zeroKeyValue : Command_KeyValue := mkKeyValue [] None [] [] [] None None None.
Definition zeroRange : Command_Range := mkRange [] [] None None None None [].
Definition zeroSecurity : Command_Security := mkSecurity [] [] [] [] None.
Definition zeroBody : Command_Body := mkBody None None None None None None.
Definition zeroCommand : Command := mkCommand None None None.

Definition body_KeyValue (kv : Command_KeyValue) : Command_Body :=
  mkBody (Some kv) None None None None None.
Definition body_Range (r : Command_Range) : Command_Body :=
  mkBody None (Some r) None None None None.
Definition body_GetLog (g : Command_GetLog) : Command_Body :=
  mkBody None None (Some g) None None None.
Definition body_Security (s : Command_Security) : Command_Body :=
  mkBody None None None (Some s) None None.
Definition body_PinOp (p : Command_PinOperation) : Command_Body :=
  mkBody None None None None (Some p) None.
Definition body_Batch (b : Command_Batch) : Command_Body :=
  mkBody None None None None None (Some b).

Definition set_BatchID (h : Command_Header) (b : Z) : Command_Header :=
  mkHeader (ClusterVersion h) (ConnectionID h) (Sequence h) (AckSequence h) (MessageType h)
    (Timeout h) (EarlyExit h) (Priority h) (TimeQuanta h) (Some b).

(** ** Getters *)
Definition GetAuthType (m : Message) : Z := default Message_INVALID_AUTH_TYPE (AuthType m).
Definition GetHmacAuth (m : Message) : option Message_HMACauth := HmacAuth m.
Definition GetIdentity (h : option Message_HMACauth) : Z := default 0 (h ≫= Identity).
Definition GetCommandBytes (m : Message) : bytes := CommandBytes m.
Definition GetHeader_ (c : Command) : option Command_Header := cmd_Header c.
Definition GetBody (c : Command) : option Command_Body := cmd_Body c.
Definition GetStatus_ (c : Command) : option Command_Status := cmd_Status c.
Definition GetConnectionID (h : option Command_Header) : Z := default 0 (h ≫= ConnectionID).
Definition GetMessageType (h : option Command_Header) : Z :=
  default Command_INVALID_MESSAGE_TYPE (h ≫= MessageType).
Definition GetCode (s : option Command_Status) : Z :=
  default Command_Status_INVALID_STATUS_CODE (s ≫= Code).
Definition GetStatusMessage (s : option Command_Status) : bytes := default [] (s ≫= StatusMessage).
Definition GetRange (b : option Command_Body) : option Command_Range := b ≫= Range.
Definition GetKeys (r : option Command_Range) : list bytes :=
  match r with Some r => Keys r | None => [] end.
Definition GetGetLog (b : option Command_Body) : option Command_GetLog := b ≫= GetLog_.
Definition GetTypes (g : option Command_GetLog) : list Z :=
  match g with Some g => Types g | None => [] end.

(** ** The protobuf library

    [proto.Marshal] and [proto.Unmarshal] (github.com/golang/protobuf) are
    parameters.  What the client relies on is that a message whose fields fit
    their wire types comes back as it was. *)
Definition fits (w : Z) (x : option Z) : Prop := ∀ v, x = Some v -> 0 <= v < 2 ^ w.
Definition fits_s (w : Z) (x : option Z) : Prop :=
  ∀ v, x = Some v -> - 2 ^ (w - 1) <= v < 2 ^ (w - 1).

Definition message_wf (m : Message) : Prop :=
  fits_s 32 (AuthType m) /\ fits_s 64 (HmacAuth m ≫= Identity).

Definition header_wf (h : Command_Header) : Prop :=
  fits_s 64 (ClusterVersion h) /\ fits_s 64 (ConnectionID h) /\ fits 64 (Sequence h) /\
  fits 64 (AckSequence h) /\ fits_s 32 (MessageType h) /\ fits 64 (Timeout h) /\
  fits_s 32 (Priority h) /\ fits 64 (TimeQuanta h) /\ fits 32 (BatchID h).

Definition body_wf (b : Command_Body) : Prop :=
  fits_s 32 (KeyValue b ≫= kv_Algorithm) /\ fits_s 32 (KeyValue b ≫= Synchronization) /\
  fits 32 (Range b ≫= MaxReturned) /\
  (∀ g, GetLog_ b = Some g -> Forall (λ t, - 2 ^ 31 <= t < 2 ^ 31) (Types g)) /\
  fits_s 32 (Security b ≫= SecurityOpType) /\ fits_s 32 (PinOp b ≫= PinOpType) /\
  fits 32 (Batch b ≫= Count) /\ fits 64 (Batch b ≫= FailedSequence) /\
  (∀ x, Batch b = Some x -> Forall (λ t, 0 <= t < 2 ^ 64) (batch_Sequence x)).

Definition command_wf (c : Command) : Prop :=
  (∀ h, cmd_Header c = Some h -> header_wf h) /\
  (∀ b, cmd_Body c = Some b -> body_wf b) /\
  (∀ s, cmd_Status c = Some s ->
     fits_s 32 (Code s) /\ ∀ t, StatusMessage s = Some t -> utf8.ValidString t = true).

Class ProtoCodec := {
  Marshal_Message : Message -> bytes;
  Unmarshal_Message : bytes -> option Message;
  Marshal_Command : Command -> bytes;
  Unmarshal_Command : bytes -> option Command }.

Class ProtoCodecLaws (P : ProtoCodec) : Prop := {
  message_roundtrip m : message_wf m -> Unmarshal_Message (Marshal_Message m) = Some m;
  command_roundtrip c : command_wf c -> Unmarshal_Command (Marshal_Command c) = Some c }.

(** ** A reference instance, over the binary encoding of countable types *)
#[export] Instance hmacauth_eq_dec : EqDecision Message_HMACauth.
Proof. solve_decision. Defined.
#[export] Instance hmacauth_countable : Countable Message_HMACauth.
Proof.
  refine (inj_countable' (λ h, (Identity h, Hmac h)) (λ '(a, b), mkHMACauth a b) _).
  by intros [].
Defined.
#[export] Instance pinauth_eq_dec : EqDecision Message_PINauth.
Proof. solve_decision. Defined.
#[export] Instance message_eq_dec : EqDecision Message.
Proof. solve_decision. Defined.
#[export] Instance message_countable : Countable Message.
Proof.
  refine (inj_countable' (λ m, (AuthType m, HmacAuth m, Pin <$> PinAuth m, CommandBytes m))
            (λ '(a, b, c, d), mkMessage a b (mkPINauth <$> c) d) _).
  by intros [? ? [[]|] ?].
Defined.

#[export] Instance header_eq_dec : EqDecision Command_Header.
Proof. solve_decision. Defined.
#[export] Instance header_countable : Countable Command_Header.
Proof.
  refine (inj_countable' (λ h, ((ClusterVersion h, ConnectionID h, Sequence h, AckSequence h),
             (MessageType h, Timeout h, EarlyExit h), (Priority h, TimeQuanta h, BatchID h)))
            (λ '((a, b, c, d), (e, f, g), (i, j, k)), mkHeader a b c d e f g i j k) _).
  by intros [].
Defined.
#[export] Instance keyvalue_eq_dec : EqDecision Command_KeyValue.
Proof. solve_decision. Defined.
#[export] Instance keyvalue_countable : Countable Command_KeyValue.
Proof.
  refine (inj_countable' (λ k, ((Force k, kv_Algorithm k, MetadataOnly k, Synchronization k),
             (NewVersion k, DbVersion k), (Tag k, Key k)))
            (λ '((a, b, c, d), (e, f), (g, i)), mkKeyValue e a i f g b c d) _).
  by intros [].
Defined.
#[export] Instance range_eq_dec : EqDecision Command_Range.
Proof. solve_decision. Defined.
#[export] Instance range_countable : Countable Command_Range.
Proof.
  refine (inj_countable' (λ r, ((StartKeyInclusive r, EndKeyInclusive r, MaxReturned r, Reverse r),
             (StartKey r, EndKey r), Keys r))
            (λ '((a, b, c, d), (e, f), g), mkRange e f a b c d g) _).
  by intros [].
Defined.
#[export] Instance security_eq_dec : EqDecision Command_Security.
Proof. solve_decision. Defined.
#[export] Instance security_countable : Countable Command_Security.
Proof.
  refine (inj_countable' (λ s, (SecurityOpType s, (OldLockPIN s, NewLockPIN s), (OldErasePIN s, NewErasePIN s)))
            (λ '(a, (b, c), (d, e)), mkSecurity b c d e a) _).
  by intros [].
Defined.
#[export] Instance batch_eq_dec : EqDecision Command_Batch.
Proof. solve_decision. Defined.
#[export] Instance batch_countable : Countable Command_Batch.
Proof.
  refine (inj_countable' (λ b, (Count b, FailedSequence b, batch_Sequence b))
            (λ '(a, b, c), mkBatch a c b) _).
  by intros [].
Defined.
#[export] Instance getlog_eq_dec : EqDecision Command_GetLog.
Proof. solve_decision. Defined.
#[export] Instance pinop_eq_dec : EqDecision Command_PinOperation.
Proof. solve_decision. Defined.
#[export] Instance body_eq_dec : EqDecision Command_Body.
Proof. solve_decision. Defined.
#[export] Instance body_countable : Countable Command_Body.
Proof.
  refine (inj_countable' (λ b, ((Types <$> GetLog_ b, PinOpType <$> PinOp b),
             (Security b, Batch b), (Range b, KeyValue b)))
            (λ '((a, b), (c, d), (e, f)),
               mkBody f e (mkGetLog <$> a) c (mkPinOperation <$> b) d) _).
  by intros [? ? [[]|] ? [[]|] ?].
Defined.
#[export] Instance status_eq_dec : EqDecision Command_Status.
Proof. solve_decision. Defined.
#[export] Instance status_countable : Countable Command_Status.
Proof.
  refine (inj_countable' (λ s, (Code s, StatusMessage s, DetailedMessage s))
            (λ '(a, b, c), mkStatus a b c) _).
  by intros [].
Defined.
#[export] Instance command_eq_dec : EqDecision Command.
Proof. solve_decision. Defined.
#[export] Instance command_countable : Countable Command.
Proof.
  refine (inj_countable' (λ c, (cmd_Header c, cmd_Body c, cmd_Status c))
            (λ '(a, b, c), mkCommand a b c) _).
  by intros [].
Defined.

Definition ref_proto : ProtoCodec := {|
  Marshal_Message m := bytes_of_pos (encode m);
  Unmarshal_Message s := pos_of_bytes s ≫= decode;
  Marshal_Command c := bytes_of_pos (encode c);
  Unmarshal_Command s := pos_of_bytes s ≫= decode |}.

Lemma ref_proto_laws : ProtoCodecLaws ref_proto.
Proof.
  split; intros x _; cbn [Marshal_Message Unmarshal_Message Marshal_Command Unmarshal_Command ref_proto];
    rewrite pos_of_bytes_of_pos; apply decode_encode.
Qed.
