(* ===== verification/Wire.v ===== *)
(** * cmd/client.go: the Kinetic protocol client

    When the server talks to a drive over the network, a [Client] writes one
    frame per request to its socket (a magic byte, two big-endian sizes, the
    marshalled message and the value) and reads the replies from it.  This file
    models the socket, the framing and every command of the client.

    The socket is what the code uses of [net.Conn].  What arrives is a list of
    segments: a call of [Read] returns bytes of the first segment only, as a
    stream socket may.  After them the device closes the connection, or the
    connection fails, and [Read] reports it; or the device is silent, and [Read]
    waits, since the client sets no deadline.  What was written is one byte string;
    the connection can break after a number of bytes.  An operation returns a
    result, or exits the process ([log.Fatal]), or keeps looping ([WLoop]), or
    waits for the device ([WBlock]). *)
From S2P Require Import Prelude GoLib Errors Metadata Pool Proto.

(** ** The socket *)
Record conn := mkConn {
  cn_out : bytes;          (* everything written so far *)
  cn_wlimit : option nat;  (* bytes until the connection breaks, if it does *)
  cn_in : list bytes;      (* the segments that have not been read *)
  cn_end : option error;   (* what is reported after them; [None]: nothing comes *)
  cn_closed : bool }.

Definition errNetClosed : error := errText (str "use of closed network connection").
Definition errBrokenPipe : error := errText (str "broken pipe").

(** [socket.Read] with a buffer of [n] bytes. *)
Fixpoint take_segment (n : nat) (segs : list bytes) : option (bytes * list bytes) :=
  match segs with
  | [] => None
  | [] :: segs' => take_segment n segs'
  | seg :: segs' =>
      Some (take n seg, if decide (drop n seg = []) then segs' else drop n seg :: segs')
  end.

(** The result of the call, or [None] when it waits. *)
Definition conn_Read (n : nat) (c : conn) : option ((bytes + error) * conn) :=
  if cn_closed c then Some (inr errNetClosed, c)
  else if decide (n = 0%nat) then Some (inl [], c)
  else match take_segment n (cn_in c) with
       | None => (λ err, (inr err, c)) <$> cn_end c
       | Some (b, segs) => Some (inl b, mkConn (cn_out c) (cn_wlimit c) segs (cn_end c) (cn_closed c))
       end.

(** [socket.Write]: all of the buffer, or an error. *)
Definition conn_Write (b : bytes) (c : conn) : option error * conn :=
  if cn_closed c then (Some errNetClosed, c)
  else match cn_wlimit c with
       | None => (None, mkConn (cn_out c ++ b) None (cn_in c) (cn_end c) false)
       | Some k =>
           if decide (length b <= k)%nat
           then (None, mkConn (cn_out c ++ b) (Some (k - length b)%nat) (cn_in c) (cn_end c) false)
           else (Some errBrokenPipe, mkConn (cn_out c ++ take k b) (Some 0%nat) (cn_in c) (cn_end c) false)
       end.

Definition conn_Close (c : conn) : conn := mkConn (cn_out c) (cn_wlimit c) (cn_in c) (cn_end c) true.

(** ** The state of a client and its monad *)
Record wstate := mkW { ws_client : Client; ws_conn : conn }.

Inductive wres (A : Type) : Type :=
  | WOk (a : A) (s : wstate)
  | WExit (s : wstate)
  | WLoop (s : wstate)
  | WBlock (s : wstate).
Arguments WOk {_} _ _.
Arguments WExit {_} _.
Arguments WLoop {_} _.
Arguments WBlock {_} _.

Definition W (A : Type) : Type := wstate -> wres A.
#[export] Instance W_ret : MRet W := λ A a s, WOk a s.
#[export] Instance W_bind : MBind W := λ A B f m s,
  match m s with
  | WOk a s' => f a s'
  | WExit s' => WExit s'
  | WLoop s' => WLoop s'
  | WBlock s' => WBlock s'
  end.

Definition log_Fatal {A} : W A := λ s, WExit s.
Definition get_client : W Client := λ s, WOk (ws_client s) s.
Definition set_ConnectionID (id : Z) : W unit := λ s,
  let c := ws_client s in
  WOk tt (mkW (mkClient (c_Idx c) id (c_Sequence c) (c_Identity c) (c_HmacKey c) (c_Key c)
                 (c_NextPartNumber c) (c_LastPartNumber c) (c_DataOffset c)) (ws_conn s)).
Definition set_Sequence (q : Z) : W unit := λ s,
  let c := ws_client s in
  WOk tt (mkW (mkClient (c_Idx c) (c_ConnectionID c) q (c_Identity c) (c_HmacKey c) (c_Key c)
                 (c_NextPartNumber c) (c_LastPartNumber c) (c_DataOffset c)) (ws_conn s)).
Definition set_Identity (i : Z) : W unit := λ s,
  let c := ws_client s in
  WOk tt (mkW (mkClient (c_Idx c) (c_ConnectionID c) (c_Sequence c) i (c_HmacKey c) (c_Key c)
                 (c_NextPartNumber c) (c_LastPartNumber c) (c_DataOffset c)) (ws_conn s)).
Definition socket_Read (n : nat) : W (bytes + error) := λ s,
  match conn_Read n (ws_conn s) with
  | Some (r, c) => WOk r (mkW (ws_client s) c)
  | None => WBlock s
  end.
Definition socket_Write (b : bytes) : W (option error) := λ s,
  let '(r, c) := conn_Write b (ws_conn s) in WOk r (mkW (ws_client s) c).
Definition socket_Close : W unit := λ s, WOk tt (mkW (ws_client s) (conn_Close (ws_conn s))).

(** ** Framing *)

(** [binary.BigEndian.PutUint32] and [Uint32]. *)
Definition byte_at (x : Z) (i : Z) : ascii := ascii_of_N (Z.to_N (Z.land (Z.shiftr x (8 * i)) 255)).
Definition PutUint32 (x : Z) : bytes := [byte_at x 3; byte_at x 2; byte_at x 1; byte_at x 0].
Definition byte_val (a : ascii) : Z := Z.of_N (N_of_ascii a).
Definition Uint32 (b : bytes) : Z :=
  match b with
  | b3 :: b2 :: b1 :: b0 :: _ =>
      Z.lor (byte_val b0) (Z.lor (Z.shiftl (byte_val b1) 8)
        (Z.lor (Z.shiftl (byte_val b2) 16) (Z.shiftl (byte_val b3) 24)))
  | _ => 0
  end.

(** [Read] (the function of the package): fill [buffer] until [size] bytes were
    read.  Each round reads into the start of the buffer.  Every round takes at
    least one byte of what arrives, so [fuel] above the number of those bytes
    is never used up. *)
Fixpoint read_loop (fuel : nat) (buffer : bytes) (bytesRead size : Z) : W (bytes * option error) :=
  if bytesRead <? size then
    match fuel with
    | O => λ s, WLoop s
    | S fuel' =>
        r ← socket_Read (length buffer);
        match r with
        | inr err => _ ← socket_Close; mret (buffer, Some err)
        | inl b =>
            read_loop fuel' (b ++ drop (length b) buffer)
              (if (0 <? length b)%nat then wrap_u 32 (bytesRead + Z.of_nat (length b)) else bytesRead)
              size
        end
    end
  else mret (buffer, None).

Definition Read (buffer : bytes) (size : Z) : W (bytes * option error) := λ s,
  read_loop (S (length (concat (cn_in (ws_conn s))))) buffer 0 size s.

(** [Write] (the function of the package): write [buffer] until [size] bytes
    were written.  Unless the count wraps round, at most [size / length buffer + 1]
    rounds are made. *)
Fixpoint write_loop (fuel : nat) (buffer : bytes) (bytesWritten size : Z) : W (option error) :=
  if bytesWritten <? size then
    match fuel with
    | O => λ s, WLoop s
    | S fuel' =>
        err ← socket_Write buffer;
        match err with
        | Some e => mret (Some e)
        | None =>
            write_loop fuel' buffer
              (if (0 <? length buffer)%nat
               then wrap_u 32 (bytesWritten + Z.of_nat (length buffer)) else bytesWritten) size
        end
    end
  else mret None.

Definition Write (buffer : bytes) (size : Z) : W (option error) :=
  write_loop (S (Z.to_nat (size / Z.max 1 (Z.of_nat (length buffer))))) buffer 0 size.

(** ** Building commands *)
Record Opts := mkOpts {
  o_ClusterVersion : Z;
  o_Timeout : Z;
  o_Priority : Z;
  o_BatchID : Z;
  o_NewVersion : bytes;
  o_Force : bool;
  o_DbVersion : bytes;
  o_Tag : bytes;
  o_Algorithm : Z;
  o_Synchronization : Z;
  o_MetaDataOnly : bool }.

(** The message types of the first switch of [SetCmdInHeader]. *)
Definition request_types : list Z :=
  [Command_GET; Command_PUT; Command_DELETE; Command_GETNEXT; Command_GETPREVIOUS;
   Command_GETKEYRANGE; Command_GETVERSION; Command_SETUP; Command_GETLOG; Command_SECURITY;
   Command_PEER2PEERPUSH; Command_NOOP; Command_FLUSHALLDATA; Command_PINOP; Command_MEDIASCAN;
   Command_MEDIAOPTIMIZE; Command_START_BATCH; Command_END_BATCH; Command_ABORT_BATCH;
   Command_SET_POWER_LEVEL].

(** [SetCmdInHeader]: the header after the call and the error. *)
Definition SetCmdInHeader (header : Command_Header) (cmdtype : Z) (cmd : Opts)
  : W (Command_Header * option error) :=
  if decide (cmdtype ∈ request_types) then
    c ← get_client;
    _ ← set_Sequence (wrap_u 64 (c_Sequence c + 1));
    mret (mkHeader (Some 0) (Some (c_ConnectionID c)) (Some (c_Sequence c)) (AckSequence header)
            (Some cmdtype) (Some (o_Timeout cmd)) (EarlyExit header) (Some (o_Priority cmd))
            (TimeQuanta header) (BatchID header), None)
  else
    mret (mkHeader (ClusterVersion header) (ConnectionID header) (Sequence header)
            (AckSequence header) (Some 0) (Timeout header) (EarlyExit header) (Priority header)
            (TimeQuanta header) (BatchID header), Some (errText (str "INVALID COMMAND"))).

Definition algorithms : list Z :=
  [Command_SHA1; Command_SHA2; Command_SHA3; Command_CRC32C; Command_CRC64; Command_CRC32].
Definition synchronizations : list Z := [Command_WRITETHROUGH; Command_WRITEBACK; Command_FLUSH].

(** [SetCmdKeyValue]: an algorithm or synchronization the protocol does not
    know leaves the field at zero and ends the call with an error. *)
Definition SetCmdKeyValue (kv : Command_KeyValue) (key : bytes) (algorithm sync : Z)
  : Command_KeyValue * option error :=
  let tag := [Ascii.zero] in
  let set alg syn := mkKeyValue (NewVersion kv) (Force kv) key (DbVersion kv) tag alg
                       (MetadataOnly kv) syn in
  if negb (algorithm =? Command_INVALID_ALGORITHM) && bool_decide (algorithm ∉ algorithms)
  then (set (Some 0) (Synchronization kv), Some (errText (str "INVALID ALGORITHM")))
  else
    let alg := if algorithm =? Command_INVALID_ALGORITHM then kv_Algorithm kv else Some algorithm in
    if sync =? Command_INVALID_SYNCHRONIZATION then (set alg (Synchronization kv), None)
    else if decide (sync ∈ synchronizations) then (set alg (Some sync), None)
    else (set alg (Some 0), Some (errText (str "INVALID SYNCHRONIZATION"))).

Definition SetCmdRange (rng : Command_Range) (startKey endKey : bytes)
    (startKeyInclusive endKeyInclusive : bool) (maxReturned : Z) (reverse : bool) : Command_Range :=
  mkRange startKey endKey (Some startKeyInclusive) (Some endKeyInclusive) (Some maxReturned)
    (Some reverse) (Keys rng).

(** [Command_KeyValue.Force = &force] on a zero key-value. *)
Definition forceKeyValue (force : bool) : Command_KeyValue :=
  mkKeyValue [] (Some force) [] [] [] None None None.

Section client.
Context `{ProtoCodec}.
(** HMAC-SHA1 (crypto/hmac with crypto/sha1) of a key and a text. *)
Variable hmac_sha1 : bytes -> bytes -> bytes.

Definition ComputeHMAC (msg HmacKey : bytes) : bytes :=
  hmac_sha1 HmacKey (PutUint32 (wrap_u 32 (Z.of_nat (length msg))) ++ msg).

(** The message with its HMAC, when it is authenticated that way. *)
Definition authenticate (c : Client) (msg : Message) : Message :=
  if decide (AuthType msg = Some Message_HMACAUTH)
  then mkMessage (AuthType msg)
         (Some (mkHMACauth (Some (c_Identity c)) (ComputeHMAC (CommandBytes msg) (c_HmacKey c))))
         (PinAuth msg) (CommandBytes msg)
  else msg.

Definition Send (msg : Message) (value : bytes) (size : Z) : W (option error) :=
  c ← get_client;
  let msgMarshal := Marshal_Message (authenticate c msg) in
  let msgSize := wrap_u 32 (Z.of_nat (length msgMarshal)) in
  let valueSize := wrap_u 32 size in
  let txHeader := "F"%char :: PutUint32 msgSize ++ PutUint32 valueSize in
  err ← Write txHeader 9;
  match err with
  | Some e => mret (Some e)
  | None =>
      err ← Write msgMarshal msgSize;
      match err with
      | Some e => mret (Some e)
      | None => Write value valueSize
      end
  end.

(** ** Receiving *)
Definition GetHeader : W (Z * Z * option error) :=
  '(header, err) ← Read (replicate 9 Ascii.zero) 9;
  match err with
  | Some e => mret (0, 0, Some e)
  | None =>
      if decide (head header = Some "F"%char)
      then mret (Uint32 (drop 1 header), Uint32 (drop 5 header), None)
      else mret (0, 0, None)
  end.

(** [GetMessage]: the message, the size of the value that follows, the error. *)
Definition GetMessage : W (Message * Z * option error) :=
  '(messageSize, valueSize, err) ← GetHeader;
  match err with
  | Some _ => log_Fatal
  | None =>
      '(buff, err) ← Read (replicate (Z.to_nat messageSize) Ascii.zero) messageSize;
      match err with
      | Some e => mret (zeroMessage, 0, Some e)
      | None =>
          match Unmarshal_Message buff with
          | None => mret (zeroMessage, 0, Some (errText (str "proto: cannot parse invalid wire-format data")))
          | Some message => mret (message, valueSize, None)
          end
      end
  end.

Definition errUnmarshal : error := errText (str "proto: cannot parse invalid wire-format data").

(** The message types of the switch of [GetStatus] that end with success and
    carry nothing. *)
Definition plain_responses : list Z :=
  [Command_PUT_RESPONSE; Command_DELETE_RESPONSE; Command_GETNEXT_RESPONSE;
   Command_GETPREVIOUS_RESPONSE; Command_GETVERSION_RESPONSE; Command_SETUP_RESPONSE;
   Command_GETLOG_RESPONSE; Command_SECURITY_RESPONSE; Command_PEER2PEERPUSH_RESPONSE;
   Command_NOOP_RESPONSE; Command_FLUSHALLDATA_RESPONSE; Command_PINOP_RESPONSE;
   Command_MEDIASCAN_RESPONSE; Command_MEDIAOPTIMIZE_RESPONSE; Command_START_BATCH_RESPONSE;
   Command_END_BATCH_RESPONSE; Command_ABORT_BATCH_RESPONSE; Command_SET_POWER_LEVEL_RESPONSE].

(** [GetStatus]: keys of a key range reply, size of the value of a GET reply,
    error.  A GETLOG reply is only printed. *)
Definition GetStatus : W (list bytes * Z * option error) :=
  '(message, valueSize, err) ← GetMessage;
  match err with
  | Some e => mret ([], 0, Some e)
  | None =>
      match Unmarshal_Command (GetCommandBytes message) with
      | None => mret ([], 0, Some errUnmarshal)
      | Some command =>
          let header := GetHeader_ command in
          _ ← set_ConnectionID (GetConnectionID header);
          let messageType := GetMessageType header in
          let status := GetStatus_ command in
          if negb (GetCode status =? Command_Status_SUCCESS)
          then mret ([], 0, Some (errText (GetStatusMessage status)))
          else if messageType =? Command_GET_RESPONSE then mret ([], valueSize, None)
          else if messageType =? Command_GETKEYRANGE_RESPONSE
          then mret (GetKeys (GetRange (GetBody command)), 0, None)
          else if decide (messageType ∈ plain_responses) then mret ([], 0, None)
          else mret ([], 0, Some (errText (str "COMMAND NOT FOUND")))
      end
  end.

Definition GetSignOnMessageFor : W (option error) :=
  '(message, _, err) ← GetMessage;
  match err with
  | Some e => mret (Some e)
  | None =>
      if negb (GetAuthType message =? Message_UNSOLICITEDSTATUS)
      then mret (Some (errText (str "BAD AUTH MESSAGE")))
      else match Unmarshal_Command (GetCommandBytes message) with
           | None => mret (Some errUnmarshal)
           | Some command =>
               _ ← set_ConnectionID (GetConnectionID (GetHeader_ command));
               mret None
           end
  end.

Definition GetSignOnMessage : W (option error) :=
  '(messageSize, valueSize, err) ← GetHeader;
  match err with
  | Some e => mret (Some e)
  | None =>
      '(message, err) ← Read (replicate (Z.to_nat messageSize) Ascii.zero) messageSize;
      match err with
      | Some e => mret (Some e)
      | None =>
          err ← (if 0 <? valueSize
                 then '(_, err) ← Read (replicate (Z.to_nat valueSize) Ascii.zero) valueSize; mret err
                 else mret None);
          match err with
          | Some e => mret (Some e)
          | None =>
              match Unmarshal_Message message with
              | None => mret (Some errUnmarshal)
              | Some response =>
                  _ ← set_Identity (GetIdentity (GetHmacAuth response));
                  match Unmarshal_Command (GetCommandBytes response) with
                  | None => mret (Some errUnmarshal)
                  | Some command =>
                      _ ← set_ConnectionID (GetConnectionID (GetHeader_ command));
                      mret None
                  end
              end
          end
      end
  end.

(** ** Commands *)

(** [GetStatus] for its error only: [_, _, err = c.GetStatus(); return err]. *)
Definition status_error : W (option error) := '(_, _, err) ← GetStatus; mret err.

(** The request of a command: a header and a body are marshalled and sent in a
    message of the given authentication type. *)
Definition send_command (authType : Z) (pinauth : option Message_PINauth) (header : Command_Header)
    (body : option Command_Body) (value : bytes) (size : Z) : W (option error) :=
  let commandbytes := Marshal_Command (mkCommand (Some header) body None) in
  Send (mkMessage (Some authType) None pinauth commandbytes) value size.

Definition SetLockPin (oldpin newpin : bytes) (cmd : Opts) : W (option error) :=
  '(cmdHeader, err) ← SetCmdInHeader zeroHeader Command_SECURITY cmd;
  match err with
  | Some e => mret (Some e)
  | None =>
      let cmdSecurity := mkSecurity oldpin newpin [] [] (Some Command_Security_LOCK_PIN_SECURITYOP) in
      send_command Message_HMACAUTH None cmdHeader (Some (body_Security cmdSecurity)) [] 0
  end.

Definition SetErasePin (oldpin newpin : bytes) (cmd : Opts) : W (option error) :=
  '(cmdHeader, err) ← SetCmdInHeader zeroHeader Command_SECURITY cmd;
  match err with
  | Some e => mret (Some e)
  | None =>
      let cmdSecurity := mkSecurity [] [] oldpin newpin (Some Command_Security_ERASE_PIN_SECURITYOP) in
      err ← send_command Message_HMACAUTH None cmdHeader (Some (body_Security cmdSecurity)) [] 0;
      match err with
      | Some e => mret (Some e)
      | None => status_error
      end
  end.

Definition StartBatch (cmd : Opts) : W (option error) :=
  '(cmdHeader, err) ← SetCmdInHeader zeroHeader Command_START_BATCH cmd;
  match err with
  | Some e => mret (Some e)
  | None => send_command Message_HMACAUTH None (set_BatchID cmdHeader (o_BatchID cmd)) None [] 0
  end.

Definition EndBatch (count : Z) (cmd : Opts) : W (option error) :=
  '(cmdHeader, err) ← SetCmdInHeader zeroHeader Command_END_BATCH cmd;
  match err with
  | Some e => mret (Some e)
  | None =>
      let cmdBatch := mkBatch (Some count) [] None in
      send_command Message_HMACAUTH None (set_BatchID cmdHeader (o_BatchID cmd))
        (Some (body_Batch cmdBatch)) [] 0
  end.

Definition AbortBatch (cmd : Opts) : W (option error) :=
  '(cmdHeader, err) ← SetCmdInHeader zeroHeader Command_ABORT_BATCH cmd;
  match err with
  | Some e => mret (Some e)
  | None => send_command Message_HMACAUTH None (set_BatchID cmdHeader (o_BatchID cmd)) None [] 0
  end.

(** The end of [Get], [GetNext] and [GetPrevious]: the status, then as many
    bytes of the value as it says into the buffer [value].  The buffer is part
    of the result. *)
Definition read_value (value : bytes) : W (bytes * Z * option error) :=
  '(_, valueSize, err) ← GetStatus;
  match err with
  | Some e => mret (value, 0, Some e)
  | None =>
      '(value, err) ← Read value valueSize;
      match err with
      | Some e => mret (value, 0, Some e)
      | None => mret (value, valueSize, None)
      end
  end.

Definition Get (key value : bytes) (cmd : Opts) : W (bytes * Z * option error) :=
  '(cmdHeader, err) ← SetCmdInHeader zeroHeader Command_GET cmd;
  match err with
  | Some e => mret (value, 0, Some e)
  | None =>
      let cmdKeyValue := (SetCmdKeyValue zeroKeyValue key Command_INVALID_ALGORITHM
                            Command_INVALID_SYNCHRONIZATION).1 in
      err ← send_command Message_HMACAUTH None cmdHeader (Some (body_KeyValue cmdKeyValue)) [] 0;
      match err with
      | Some e => mret (value, 0, Some e)
      | None => read_value value
      end
  end.

(** [Delete] outside the library mode. *)
Definition Delete (key : bytes) (cmd : Opts) : W (option error) :=
  '(cmdHeader, err) ← SetCmdInHeader zeroHeader Command_DELETE cmd;
  match err with
  | Some e => mret (Some e)
  | None =>
      let cmdKeyValue := (SetCmdKeyValue (forceKeyValue (o_Force cmd)) key (o_Algorithm cmd)
                            (o_Synchronization cmd)).1 in
      err ← send_command Message_HMACAUTH None cmdHeader (Some (body_KeyValue cmdKeyValue)) [] 0;
      match err with
      | Some e => mret (Some e)
      | None => status_error
      end
  end.

(** [Put] outside the library mode: the size and the error. *)
Definition Put (key value : bytes) (size : Z) (cmd : Opts) : W (Z * option error) :=
  '(cmdHeader, err) ← SetCmdInHeader zeroHeader Command_PUT cmd;
  match err with
  | Some e => mret (0, Some e)
  | None =>
      let cmdKeyValue := mkKeyValue (o_NewVersion cmd) (Some (o_Force cmd)) key [] (o_Tag cmd)
                           (Some (o_Algorithm cmd)) None (Some (o_Synchronization cmd)) in
      err ← send_command Message_HMACAUTH None cmdHeader (Some (body_KeyValue cmdKeyValue)) value size;
      match err with
      | Some e => mret (0, Some e)
      | None =>
          err ← status_error;
          match err with
          | Some e => mret (0, Some e)
          | None => mret (wrap_u 32 size, None)
          end
      end
  end.

Definition PutB (key value : bytes) (size : Z) (cmd : Opts) : W (option error) :=
  '(cmdHeader, err) ← SetCmdInHeader zeroHeader Command_PUT cmd;
  match err with
  | Some e => mret (Some e)
  | None =>
      let cmdKeyValue := (SetCmdKeyValue (forceKeyValue (o_Force cmd)) key (o_Algorithm cmd)
                            (o_Synchronization cmd)).1 in
      send_command Message_HMACAUTH None (set_BatchID cmdHeader (o_BatchID cmd))
        (Some (body_KeyValue cmdKeyValue)) value size
  end.

Definition GetNext (key value : bytes) (cmd : Opts) : W (bytes * Z * option error) :=
  '(cmdHeader, _) ← SetCmdInHeader zeroHeader Command_GETNEXT cmd;
  let cmdKeyValue := (SetCmdKeyValue zeroKeyValue key Command_INVALID_ALGORITHM
                        Command_INVALID_SYNCHRONIZATION).1 in
  err ← send_command Message_HMACAUTH None cmdHeader (Some (body_KeyValue cmdKeyValue)) [] 0;
  match err with
  | Some e => mret (value, 0, Some e)
  | None => read_value value
  end.

Definition GetPrevious (key value : bytes) (cmd : Opts) : W (bytes * Z * option error) :=
  '(cmdHeader, err) ← SetCmdInHeader zeroHeader Command_GETPREVIOUS cmd;
  match err with
  | Some e => mret (value, 0, Some e)
  | None =>
      match SetCmdKeyValue zeroKeyValue key Command_INVALID_ALGORITHM
              Command_INVALID_SYNCHRONIZATION with
      | (_, Some e) => mret (value, 0, Some e)
      | (cmdKeyValue, None) =>
          err ← send_command Message_HMACAUTH None cmdHeader (Some (body_KeyValue cmdKeyValue)) [] 0;
          match err with
          | Some e => mret (value, 0, Some e)
          | None => read_value value
          end
      end
  end.

Definition GetKeyRange (startKey endKey : bytes) (startKeyInclusive endKeyInclusive : bool)
    (maxReturned : Z) (reverse : bool) (cmd : Opts) : W (list bytes * option error) :=
  '(cmdHeader, _) ← SetCmdInHeader zeroHeader Command_GETKEYRANGE cmd;
  let cmdRange := SetCmdRange zeroRange startKey endKey startKeyInclusive endKeyInclusive
                    maxReturned reverse in
  err ← send_command Message_HMACAUTH None cmdHeader (Some (body_Range cmdRange)) [] 0;
  match err with
  | Some e => mret ([], Some e)
  | None =>
      '(value, _, err) ← GetStatus;
      match err with
      | Some e => mret ([], Some e)
      | None => mret (value, None)
      end
  end.

Definition GetLog (ltype : list Z) (cmd : Opts) : W (Z * option error) :=
  '(cmdHeader, err) ← SetCmdInHeader zeroHeader Command_GETLOG cmd;
  match err with
  | Some e => mret (0, Some e)
  | None =>
      err ← send_command Message_HMACAUTH None cmdHeader (Some (body_GetLog (mkGetLog ltype))) [] 0;
      match err with
      | Some e => mret (0, Some e)
      | None => err ← status_error; mret (0, err)
      end
  end.

Definition NoOp (cmd : Opts) : W (option error) :=
  '(cmdHeader, err) ← SetCmdInHeader zeroHeader Command_NOOP cmd;
  match err with
  | Some e => mret (Some e)
  | None => send_command Message_HMACAUTH None cmdHeader None [] 0
  end.

Definition MediaScan (startkey endkey : bytes) (startKeyInclusive endKeyInclusive : bool)
    (cmd : Opts) : W (option error) :=
  '(cmdHeader, err) ← SetCmdInHeader zeroHeader Command_MEDIASCAN cmd;
  match err with
  | Some e => mret (Some e)
  | None =>
      let cmdRange := mkRange startkey endkey (Some startKeyInclusive) (Some endKeyInclusive)
                        None None [] in
      send_command Message_HMACAUTH None cmdHeader (Some (body_Range cmdRange)) [] 0
  end.

Definition MediaOptimize (cmd : Opts) : W (option error) :=
  '(cmdHeader, err) ← SetCmdInHeader zeroHeader Command_MEDIAOPTIMIZE cmd;
  match err with
  | Some e => mret (Some e)
  | None => send_command Message_HMACAUTH None cmdHeader None [] 0
  end.

Definition FlushAllData (cmd : Opts) : W (option error) :=
  '(cmdHeader, err) ← SetCmdInHeader zeroHeader Command_FLUSHALLDATA cmd;
  match err with
  | Some e => mret (Some e)
  | None => send_command Message_HMACAUTH None cmdHeader None [] 0
  end.

(** The PIN commands take a pin; only [InstantSecureErase] sends it. *)
Definition pin_body (op : Z) : option Command_Body := Some (body_PinOp (mkPinOperation (Some op))).

Definition UnlockPin (pin : bytes) (cmd : Opts) : W (option error) :=
  '(cmdHeader, _) ← SetCmdInHeader zeroHeader Command_PINOP cmd;
  err ← send_command Message_PINAUTH None cmdHeader (pin_body Command_PinOperation_UNLOCK_PINOP) [] 0;
  match err with
  | Some e => mret (Some e)
  | None => status_error
  end.

Definition LockPin (pin : bytes) (cmd : Opts) : W (option error) :=
  '(cmdHeader, err) ← SetCmdInHeader zeroHeader Command_PINOP cmd;
  match err with
  | Some e => mret (Some e)
  | None => send_command Message_PINAUTH None cmdHeader (pin_body Command_PinOperation_LOCK_PINOP) [] 0
  end.

Definition ErasePin (pin : bytes) (cmd : Opts) : W (option error) :=
  '(cmdHeader, err) ← SetCmdInHeader zeroHeader Command_PINOP cmd;
  match err with
  | Some e => mret (Some e)
  | None =>
      err ← send_command Message_PINAUTH None cmdHeader (pin_body Command_PinOperation_ERASE_PINOP) [] 0;
      match err with
      | Some e => mret (Some e)
      | None => status_error
      end
  end.

Definition InstantSecureErase (pin : bytes) (cmd : Opts) : W (option error) :=
  '(cmdHeader, err) ← SetCmdInHeader zeroHeader Command_PINOP cmd;
  match err with
  | Some e => mret (Some e)
  | None =>
      err ← send_command Message_PINAUTH (Some (mkPINauth pin)) cmdHeader
              (pin_body Command_PinOperation_ERASE_PINOP) [] 0;
      match err with
      | Some e => mret (Some e)
      | None => status_error
      end
  end.

(** ** Connecting (cmd/kinetic.go) *)
Definition identity : Z := 1.
Definition hmacKey : bytes := str "asdfasdf".

(** [InitKineticConnection]; [dial] is the outcome of [net.Dial] in [Connect] or
    of [tls.Dial] in [TLSConnect], which ends the process when it fails. *)
Definition InitKineticConnection (dial : conn + error) (tls : bool) : W (option error) := λ s,
  let c := ws_client s in
  let c' := mkClient (c_Idx c) 0 (c_Sequence c) identity hmacKey (c_Key c) (c_NextPartNumber c)
              (c_LastPartNumber c) (c_DataOffset c) in
  match dial with
  | inr e => if tls then WExit (mkW c' (ws_conn s)) else WOk (Some e) (mkW c' (ws_conn s))
  | inl socket => GetSignOnMessageFor (mkW c' socket)
  end.

End client.
