(* ===== verification/WireSpec.v ===== *)
(** * What the protocol client writes and reads

    [requests_on_wire]: a device that decodes what a client wrote finds, in
    order, the commands that were issued, authenticated, with consecutive
    sequence numbers.  [get_over_wire]: a GET returns what the reply of the
    device carries.  [read_outcome]: what reading from the socket returns, and when it
    waits. *)
From S2P Require Import Prelude GoLib Errors Metadata Pool Proto Wire.

(** ** Big-endian sizes *)
Lemma byte_val_at x i : byte_val (byte_at x i) = (x `div` 2 ^ (8 * i)) `mod` 256 \/ i < 0.
Proof.
  destruct (decide (0 <= i)); [left|right; lia]. unfold byte_val, byte_at.
  replace 255 with (Z.ones 8) by done. rewrite Z.land_ones by lia.
  rewrite Z.shiftr_div_pow2 by lia. change (2 ^ 8) with 256.
  pose proof (Z.mod_pos_bound (x `div` 2 ^ (8 * i)) 256 ltac:(lia)).
  rewrite N_ascii_embedding; lia.
Qed.

Lemma lor_shiftl x y n :
  0 <= n -> 0 <= x < 2 ^ n -> Z.lor x (Z.shiftl y n) = x + y * 2 ^ n.
Proof.
  intros Hn Hx. rewrite Z.shiftl_mul_pow2 by done. symmetry. apply Z.add_nocarry_lor.
  apply Z.bits_inj'. intros i Hi. rewrite Z.land_spec, Z.bits_0.
  destruct (decide (i < n)).
  - by rewrite Z.mul_pow2_bits_low, andb_false_r.
  - destruct (decide (x = 0)) as [->|]; [by rewrite Z.bits_0|].
    rewrite Z.bits_above_log2; [done|lia|]. apply Z.log2_lt_pow2; [lia|].
    eapply Z.lt_le_trans; [apply Hx|]. apply Z.pow_le_mono_r; lia.
Qed.

Lemma byte_val_bound a : 0 <= byte_val a < 256.
Proof. unfold byte_val. pose proof (N_ascii_bounded a). lia. Qed.

Lemma Uint32_bytes b3 b2 b1 b0 s :
  Uint32 (b3 :: b2 :: b1 :: b0 :: s)
  = byte_val b0 + 256 * byte_val b1 + 65536 * byte_val b2 + 16777216 * byte_val b3.
Proof.
  pose proof (byte_val_bound b0). pose proof (byte_val_bound b1).
  pose proof (byte_val_bound b2). pose proof (byte_val_bound b3). unfold Uint32.
  replace 24 with (16 + 8) by done. rewrite <- (Z.shiftl_shiftl _ 16) by done.
  replace 16 with (8 + 8) by done. rewrite <- !(Z.shiftl_shiftl _ 8) by done.
  rewrite <- !Z.shiftl_lor, !lor_shiftl; change (2 ^ 8) with 256; lia.
Qed.

Lemma Uint32_PutUint32 x s : 0 <= x < 2 ^ 32 -> Uint32 (PutUint32 x ++ s) = x.
Proof.
  intros Hx. unfold PutUint32. cbn [app]. rewrite Uint32_bytes.
  destruct (byte_val_at x 0) as [->|]; [|lia]. destruct (byte_val_at x 1) as [->|]; [|lia].
  destruct (byte_val_at x 2) as [->|]; [|lia]. destruct (byte_val_at x 3) as [->|]; [|lia].
  change (8 * 0) with 0. change (8 * 1) with 8. change (8 * 2) with 16. change (8 * 3) with 24.
  rewrite Z.pow_0_r, Z.div_1_r.
  change (2 ^ 8) with 256. change (2 ^ 16) with 65536. change (2 ^ 24) with 16777216.
  change (2 ^ 32) with 4294967296 in Hx. Z.to_euclidean_division_equations. lia.
Qed.

Lemma PutUint32_length x : length (PutUint32 x) = 4%nat.
Proof. done. Qed.

(** ** Reading *)

(** The state with other unread segments. *)
Definition set_in (s : wstate) (segs : list bytes) : wstate :=
  mkW (ws_client s) (mkConn (cn_out (ws_conn s)) (cn_wlimit (ws_conn s)) segs (cn_end (ws_conn s)) (cn_closed (ws_conn s))).

(** The bytes left of a segment, as a list of segments. *)
Definition left_over (rest : bytes) : list bytes := if decide (rest = []) then [] else [rest].

Lemma take_segment_one b rest n :
  b <> [] -> n = length b -> take_segment n [b ++ rest] = Some (b, left_over rest).
Proof.
  intros Hb ->. unfold left_over.
  destruct b as [|x b]; [done|]. cbn [app take_segment length take drop].
  by rewrite take_app_length, drop_app_length.
Qed.

Lemma take_segment_bytes n segs b segs' :
  n <> 0%nat -> take_segment n segs = Some (b, segs') ->
  b <> [] /\ (length b <= n)%nat /\ concat segs = b ++ concat segs'.
Proof.
  intros Hn. induction segs as [|[|x seg] segs IH]; cbn [take_segment]; [done|exact IH|].
  intros [= <- <-]. destruct n as [|n]; [done|]. cbn [take drop length concat]. clear IH.
  split; [done|]. split; [rewrite length_take; lia|].
  destruct (decide (drop n seg = [])) as [E|E]; cbn [concat app]; f_equal.
  - rewrite <- (take_drop n seg) at 1. by rewrite E, app_nil_r.
  - by rewrite app_assoc, take_drop.
Qed.

Lemma take_segment_None n segs : take_segment n segs = None -> concat segs = [].
Proof. induction segs as [|[|x seg] segs IH]; cbn [take_segment concat app]; done || by auto. Qed.

(** A buffer into whose start the pieces are written one after the other. *)
Definition overlay (buffer : bytes) (pieces : list bytes) : bytes :=
  foldl (λ buf p, p ++ drop (length p) buf) buffer pieces.

Definition fitting (buffer p : bytes) : Prop := (0 < length p <= length buffer)%nat.

(** What the loop does when [n] bytes have been read: it takes [pieces] of what
    arrives, and [segs] are left. *)
Definition loop_outcome (fuel : nat) (buffer : bytes) (n size : Z) (s : wstate) (pieces segs : list bytes) : Prop :=
  concat (cn_in (ws_conn s)) = concat pieces ++ concat segs /\
  Forall (fitting buffer) pieces /\
  (∀ ps p, pieces = ps ++ [p] -> n + Z.of_nat (length (concat ps)) < size) /\
  (size <= n + Z.of_nat (length (concat (cn_in (ws_conn s)))) ->
     read_loop fuel buffer n size s = WOk (overlay buffer pieces, None) (set_in s segs) /\
     size <= n + Z.of_nat (length (concat pieces))) /\
  (n + Z.of_nat (length (concat (cn_in (ws_conn s)))) < size ->
     concat segs = [] /\
     read_loop fuel buffer n size s =
       match cn_end (ws_conn s) with
       | Some err => WOk (overlay buffer pieces, Some err) (mkW (ws_client s) (conn_Close (ws_conn (set_in s segs))))
       | None => WBlock (set_in s segs)
       end).

Lemma set_in_same s : set_in s (cn_in (ws_conn s)) = s.
Proof. by destruct s as [? []]. Qed.

Lemma read_loop_outcome fuel buffer n size s :
  cn_closed (ws_conn s) = false -> buffer <> [] -> 0 <= n -> size + Z.of_nat (length buffer) <= 2 ^ 32 ->
  (length (concat (cn_in (ws_conn s))) < fuel)%nat ->
  ∃ pieces segs, loop_outcome fuel buffer n size s pieces segs.
Proof.
  revert buffer n s. induction fuel as [|fuel IH]; intros buffer n s Hc Hb Hn Hsz Hf; [lia|].
  unfold loop_outcome. cbn [read_loop]. destruct (Z.ltb_spec n size) as [Hlt|Hge].
  2: { exists [], (cn_in (ws_conn s)). rewrite set_in_same. split_and!; try done; try lia.
       - by intros [].
       - cbn. split; [done|lia]. }
  unfold mbind, W_bind, socket_Read, conn_Read. rewrite Hc.
  rewrite decide_False by (intros E; by apply nil_length_inv in E).
  destruct (take_segment _ _) as [[b segs]|] eqn:E.
  - apply take_segment_bytes in E as (Hb0 & Hlen & E); [|intros E'; by apply nil_length_inv in E'].
    assert (0 < length b)%nat as Hpos by (destruct b; [done|cbn; lia]).
    rewrite E, length_app in Hf. rewrite (proj2 (Nat.ltb_lt 0 (length b))) by done. rewrite wrap_u_id by lia.
    set (s1 := mkW _ _). assert (s1 = set_in s segs) as Es1 by (unfold s1, set_in; by rewrite Hc).
    assert (length (b ++ drop (length b) buffer) = length buffer) as Hlb by (rewrite length_app, length_drop; lia).
    destruct (IH (b ++ drop (length b) buffer) (n + Z.of_nat (length b)) s1) as (pieces & segs' & H1 & H2 & H3 & H4 & H5).
    + by rewrite Es1.
    + intros E'. by apply app_eq_nil in E' as [-> _].
    + lia.
    + by rewrite Hlb.
    + rewrite Es1. cbn. lia.
    + assert (cn_in (ws_conn s1) = segs /\ cn_end (ws_conn s1) = cn_end (ws_conn s) /\ set_in s1 segs' = set_in s segs'
              /\ ws_client s1 = ws_client s) as (E1 & E2 & E3 & E4) by by rewrite Es1.
      rewrite E1 in H1, H4, H5. rewrite E2, E3, E4 in H5. rewrite E3 in H4.
      exists (b :: pieces), segs'. cbn [concat]. rewrite E. split_and!.
      * rewrite <- app_assoc. by f_equal.
      * apply Forall_cons. split; [split; lia|]. eapply Forall_impl; [exact H2|]. intros p. unfold fitting. by rewrite Hlb.
      * intros ps p Hp. destruct ps as [|q ps]; cbn [app concat length] in *; [lia|].
        injection Hp as <- Hp. specialize (H3 ps p Hp). rewrite length_app. lia.
      * rewrite !length_app. intros Hle. destruct H4 as [H4 H4']; [lia|]. rewrite H4. split; [done|]. lia.
      * rewrite !length_app. intros Hle. apply H5. lia.
  - apply take_segment_None in E. rewrite E. exists [], (cn_in (ws_conn s)). rewrite set_in_same. cbn [concat app length].
    split_and!; [done|done|by intros []|lia|]. intros _. split; [done|].
    destruct (cn_end (ws_conn s)); [|done]. by destruct s.
Qed.

(** C29. [Read] of the package on an open connection, for every way in which bytes
    arrive and the connection ends, with a buffer that is not empty and a size that
    does not overflow the counter: it takes pieces of what arrives, each at most as
    long as the buffer, until it has the bytes asked for, and returns then; if fewer
    arrive, it takes them all and reports the error that ends the connection, which
    it closes, or waits if the device is silent.  Every piece is written to the
    start of the buffer. *)
Theorem read_outcome buffer size s :
  cn_closed (ws_conn s) = false -> buffer <> [] -> size + Z.of_nat (length buffer) <= 2 ^ 32 ->
  let arriving := concat (cn_in (ws_conn s)) in
  ∃ pieces segs,
    arriving = concat pieces ++ concat segs /\
    Forall (λ p, (0 < length p <= length buffer)%nat) pieces /\
    (∀ ps p, pieces = ps ++ [p] -> Z.of_nat (length (concat ps)) < size) /\
    (size <= Z.of_nat (length arriving) ->
       Read buffer size s = WOk (overlay buffer pieces, None) (set_in s segs) /\
       size <= Z.of_nat (length (concat pieces))) /\
    (Z.of_nat (length arriving) < size ->
       concat segs = [] /\
       Read buffer size s =
         match cn_end (ws_conn s) with
         | Some err => WOk (overlay buffer pieces, Some err) (mkW (ws_client s) (conn_Close (ws_conn (set_in s segs))))
         | None => WBlock (set_in s segs)
         end).
Proof.
  intros Hc Hb Hsz arriving.
  destruct (read_loop_outcome (S (length arriving)) buffer 0 size s Hc Hb) as (pieces & segs & H1 & H2 & H3 & H4 & H5); [lia|done|unfold arriving; lia|].
  exists pieces, segs. by split_and!.
Qed.

(** A read that the first segment can serve. *)
Lemma Read_one buffer b rest s size :
  cn_closed (ws_conn s) = false -> cn_in (ws_conn s) = left_over (b ++ rest) ->
  length b = length buffer -> size = Z.of_nat (length b) -> size < 2 ^ 32 ->
  Read buffer size s = WOk (b, None) (set_in s (left_over rest)).
Proof.
  intros Hc Hin Hlen -> Hsz. unfold Read. destruct b as [|x b].
  { symmetry in Hlen. apply nil_length_inv in Hlen as ->. cbn. f_equal.
    unfold set_in. cbn in Hin. rewrite <- Hin. by destruct s as [? []]. }
  remember (length (concat (cn_in (ws_conn s)))) as fuel eqn:Hf.
  cbn [read_loop]. rewrite (proj2 (Z.ltb_lt 0 _)) by (cbn [length]; lia).
  unfold mbind, W_bind, socket_Read, conn_Read. rewrite Hc, Hin.
  rewrite decide_False by (rewrite <- Hlen; done).
  unfold left_over at 1. rewrite decide_False by done.
  rewrite take_segment_one by done. rewrite Hlen, drop_all, app_nil_r.
  rewrite <- Hlen. cbn [Nat.ltb Nat.leb length]. rewrite wrap_u_id by (cbn [length] in Hsz; lia).
  assert (∀ f (s' : wstate), read_loop f (x :: b) (0 + Z.of_nat (S (length b))) (Z.of_nat (S (length b))) s'
          = WOk (x :: b, None) s') as Hend.
  { intros f s'. assert ((0 + Z.of_nat (S (length b)) <? Z.of_nat (S (length b))) = false) as E by lia.
    destruct f; cbn [read_loop]; by rewrite E. }
  rewrite Hend. unfold set_in. by rewrite Hc.
Qed.

(** The last read of a reply may have a larger buffer than what is left. *)
Lemma Read_last buffer b s size :
  cn_closed (ws_conn s) = false -> cn_in (ws_conn s) = left_over b ->
  (length b <= length buffer)%nat -> size = Z.of_nat (length b) -> size < 2 ^ 32 ->
  Read buffer size s = WOk (b ++ drop (length b) buffer, None) (set_in s []).
Proof.
  intros Hc Hin Hlen -> Hsz. unfold Read. destruct b as [|x b].
  { cbn. f_equal. unfold set_in. change (left_over []) with (@nil bytes) in Hin.
    rewrite <- Hin. by destruct s as [? []]. }
  remember (length (concat (cn_in (ws_conn s)))) as fuel eqn:Hf.
  cbn [read_loop]. rewrite (proj2 (Z.ltb_lt 0 _)) by (cbn [length]; lia).
  unfold mbind, W_bind, socket_Read, conn_Read. rewrite Hc, Hin.
  rewrite decide_False by (cbn [length] in Hlen; lia).
  unfold left_over. rewrite decide_False by done. cbn [take_segment].
  rewrite (take_ge (x :: b)), (drop_ge (x :: b)) by exact Hlen. rewrite decide_True by done.
  cbn [Nat.ltb Nat.leb length]. rewrite wrap_u_id by (cbn [length] in Hsz; lia).
  assert ((0 + Z.of_nat (S (length b)) <? Z.of_nat (S (length b))) = false) as E by lia.
  destruct fuel; cbn [read_loop]; rewrite E; unfold set_in; by rewrite Hc.
Qed.

(** ** Writing *)
Definition set_out (s : wstate) (b : bytes) : wstate :=
  mkW (ws_client s) (mkConn (cn_out (ws_conn s) ++ b) (cn_wlimit (ws_conn s)) (cn_in (ws_conn s))
                       (cn_end (ws_conn s)) (cn_closed (ws_conn s))).

(** The connection is open and does not break. *)
Definition conn_ok (s : wstate) : Prop :=
  cn_closed (ws_conn s) = false /\ cn_wlimit (ws_conn s) = None.

Lemma Write_ok b size s :
  conn_ok s -> size = Z.of_nat (length b) -> size < 2 ^ 32 ->
  Write b size s = WOk None (set_out s b).
Proof.
  intros [Hc Hw] -> Hsz. unfold Write. destruct b as [|x b].
  { cbn. unfold set_out. rewrite app_nil_r. by destruct s as [? []]. }
  remember (Z.to_nat (Z.of_nat (length (x :: b)) / Z.max 1 (Z.of_nat (length (x :: b))))) as fuel.
  cbn [write_loop]. rewrite (proj2 (Z.ltb_lt 0 _)) by (cbn [length]; lia).
  unfold mbind, W_bind, socket_Write, conn_Write. rewrite Hc, Hw.
  cbn [Nat.ltb Nat.leb length]. rewrite wrap_u_id by (cbn [length] in Hsz; lia).
  assert ((0 + Z.of_nat (S (length b)) <? Z.of_nat (S (length b))) = false) as E by lia.
  destruct fuel; cbn [write_loop]; rewrite E; unfold set_out; by rewrite Hc, Hw.
Qed.

Lemma set_out_app s a b : set_out (set_out s a) b = set_out s (a ++ b).
Proof. unfold set_out. cbn. by rewrite app_assoc. Qed.

(** A frame: the magic byte, the sizes of the message and of the value, and
    both. *)
Definition frame (msg value : bytes) : bytes :=
  ("F"%char :: PutUint32 (Z.of_nat (length msg)) ++ PutUint32 (Z.of_nat (length value)))
    ++ msg ++ value.

Section spec.
Context `{HP : ProtoCodec} `{!ProtoCodecLaws HP} (hmac_sha1 : bytes -> bytes -> bytes).

Lemma Send_ok msg value s :
  conn_ok s -> Z.of_nat (length value) < 2 ^ 32 ->
  Z.of_nat (length (Marshal_Message (authenticate hmac_sha1 (ws_client s) msg))) < 2 ^ 32 ->
  Send hmac_sha1 msg value (Z.of_nat (length value)) s
  = WOk None (set_out s (frame (Marshal_Message (authenticate hmac_sha1 (ws_client s) msg)) value)).
Proof.
  intros Hc Hv Hm. unfold Send, mbind, W_bind, get_client.
  set (m := Marshal_Message _) in *. rewrite !wrap_u_id by lia.
  rewrite Write_ok by done. rewrite Write_ok by done. rewrite Write_ok by done.
  rewrite !set_out_app. unfold frame. by rewrite ?app_assoc.
Qed.

(** ** Receiving a reply *)
Lemma GetHeader_ok msg value rest s :
  cn_closed (ws_conn s) = false -> cn_in (ws_conn s) = left_over (frame msg value ++ rest) ->
  Z.of_nat (length msg) < 2 ^ 32 -> Z.of_nat (length value) < 2 ^ 32 ->
  GetHeader s = WOk (Z.of_nat (length msg), Z.of_nat (length value), None)
                  (set_in s (left_over (msg ++ value ++ rest))).
Proof.
  intros Hc Hin Hm Hv. unfold GetHeader, mbind, W_bind.
  unfold frame in Hin. rewrite <- !app_assoc in Hin.
  erewrite Read_one; [|done|exact Hin|done..].
  set (a := PutUint32 (Z.of_nat (length msg))). set (b := PutUint32 (Z.of_nat (length value))).
  assert (drop 5 ("F"%char :: a ++ b) = b ++ []) as -> by by rewrite app_nil_r.
  assert (drop 1 ("F"%char :: a ++ b) = a ++ b) as -> by done.
  rewrite decide_True by done. unfold a, b. by rewrite !Uint32_PutUint32 by lia.
Qed.

Lemma GetMessage_ok m value rest s :
  cn_closed (ws_conn s) = false ->
  cn_in (ws_conn s) = left_over (frame (Marshal_Message m) value ++ rest) ->
  message_wf m -> Z.of_nat (length (Marshal_Message m)) < 2 ^ 32 ->
  Z.of_nat (length value) < 2 ^ 32 ->
  GetMessage s = WOk (m, Z.of_nat (length value), None) (set_in s (left_over (value ++ rest))).
Proof.
  intros Hc Hin Hwf Hm Hv. unfold GetMessage. unfold mbind at 1, W_bind at 1.
  rewrite (GetHeader_ok _ _ _ _ Hc Hin) by done.
  unfold mbind, W_bind. erewrite Read_one; [|done|done| |done|done].
  - rewrite message_roundtrip by done. done.
  - rewrite length_replicate. lia.
Qed.

(** What [GetStatus] makes of the command in a reply that is followed by a value
    of [size] bytes. *)
Definition status_result (c : Command) (size : Z) : list bytes * Z * option error :=
  if decide (GetCode (cmd_Status c) = Command_Status_SUCCESS) then
    let t := GetMessageType (cmd_Header c) in
    if decide (t = Command_GET_RESPONSE) then ([], size, None)
    else if decide (t = Command_GETKEYRANGE_RESPONSE)
    then (GetKeys (GetRange (cmd_Body c)), 0, None)
    else if decide (t ∈ plain_responses) then ([], 0, None)
    else ([], 0, Some (errText (str "COMMAND NOT FOUND")))
  else ([], 0, Some (errText (GetStatusMessage (cmd_Status c)))).

Definition with_ConnectionID (s : wstate) (id : Z) : wstate :=
  mkW (mkClient (c_Idx (ws_client s)) id (c_Sequence (ws_client s)) (c_Identity (ws_client s))
         (c_HmacKey (ws_client s)) (c_Key (ws_client s)) (c_NextPartNumber (ws_client s))
         (c_LastPartNumber (ws_client s)) (c_DataOffset (ws_client s))) (ws_conn s).

(** A reply of the device: a message around the command. *)
Definition reply_ok (m : Message) (c : Command) : Prop :=
  message_wf m /\ CommandBytes m = Marshal_Command c /\ command_wf c /\
  Z.of_nat (length (Marshal_Message m)) < 2 ^ 32.

Lemma GetStatus_ok m c value rest s :
  cn_closed (ws_conn s) = false ->
  cn_in (ws_conn s) = left_over (frame (Marshal_Message m) value ++ rest) ->
  reply_ok m c -> Z.of_nat (length value) < 2 ^ 32 ->
  GetStatus s = WOk (status_result c (Z.of_nat (length value)))
    (with_ConnectionID (set_in s (left_over (value ++ rest))) (GetConnectionID (cmd_Header c))).
Proof.
  intros Hc Hin (Hm & Hcb & Hwf & Hlen) Hv. unfold GetStatus.
  unfold mbind at 1, W_bind at 1. rewrite (GetMessage_ok _ _ _ _ Hc Hin) by done.
  unfold GetCommandBytes. rewrite Hcb, command_roundtrip by done.
  unfold mbind, W_bind, set_ConnectionID, status_result, GetStatus_, GetHeader_, GetBody.
  repeat match goal with
  | |- context [?a =? ?b] => destruct (Z.eqb_spec a b)
  | |- context [decide ?P] => destruct (decide P)
  end; simplify_eq/=; try done; lia.
Qed.

(** ** Requests

    The commands of the client that are authenticated by an HMAC.  The other four,
    which are authenticated by a PIN, are not among them: three do not send the PIN
    and one asks for another operation than it is named for ([pin_not_sent] and
    [secure_erase_is_erase] in Findings). *)
Inductive request : Type :=
  | RSetLockPin (oldpin newpin : bytes)
  | RSetErasePin (oldpin newpin : bytes)
  | RStartBatch
  | REndBatch (count : Z)
  | RAbortBatch
  | RGet (key buffer : bytes)
  | RDelete (key : bytes)
  | RPut (key value : bytes)
  | RPutB (key value : bytes)
  | RGetNext (key buffer : bytes)
  | RGetPrevious (key buffer : bytes)
  | RGetKeyRange (startKey endKey : bytes) (startIncl endIncl : bool) (maxReturned : Z) (reverse : bool)
  | RGetLog (types : list Z)
  | RNoOp
  | RMediaScan (startKey endKey : bytes) (startIncl endIncl : bool)
  | RMediaOptimize
  | RFlushAllData.

#[export] Instance request_eq_dec : EqDecision request.
Proof. solve_decision. Defined.
#[export] Instance Opts_eq_dec : EqDecision Opts.
Proof. solve_decision. Defined.

(** The method of the client for a request, with its error as the result. *)
Definition run (r : request) (cmd : Opts) : W (option error) :=
  match r with
  | RSetLockPin o n => SetLockPin hmac_sha1 o n cmd
  | RSetErasePin o n => SetErasePin hmac_sha1 o n cmd
  | RStartBatch => StartBatch hmac_sha1 cmd
  | REndBatch count => EndBatch hmac_sha1 count cmd
  | RAbortBatch => AbortBatch hmac_sha1 cmd
  | RGet key buffer => '(_, _, err) ← Get hmac_sha1 key buffer cmd; mret err
  | RDelete key => Delete hmac_sha1 key cmd
  | RPut key value => '(_, err) ← Put hmac_sha1 key value (Z.of_nat (length value)) cmd; mret err
  | RPutB key value => PutB hmac_sha1 key value (Z.of_nat (length value)) cmd
  | RGetNext key buffer => '(_, _, err) ← GetNext hmac_sha1 key buffer cmd; mret err
  | RGetPrevious key buffer => '(_, _, err) ← GetPrevious hmac_sha1 key buffer cmd; mret err
  | RGetKeyRange k1 k2 i1 i2 m rev => '(_, err) ← GetKeyRange hmac_sha1 k1 k2 i1 i2 m rev cmd; mret err
  | RGetLog types => '(_, err) ← GetLog hmac_sha1 types cmd; mret err
  | RNoOp => NoOp hmac_sha1 cmd
  | RMediaScan k1 k2 i1 i2 => MediaScan hmac_sha1 k1 k2 i1 i2 cmd
  | RMediaOptimize => MediaOptimize hmac_sha1 cmd
  | RFlushAllData => FlushAllData hmac_sha1 cmd
  end.

(** What the protocol says a request carries. *)
Definition req_type (r : request) : Z :=
  match r with
  | RSetLockPin _ _ | RSetErasePin _ _ => Command_SECURITY
  | RStartBatch => Command_START_BATCH
  | REndBatch _ => Command_END_BATCH
  | RAbortBatch => Command_ABORT_BATCH
  | RGet _ _ => Command_GET
  | RDelete _ => Command_DELETE
  | RPut _ _ | RPutB _ _ => Command_PUT
  | RGetNext _ _ => Command_GETNEXT
  | RGetPrevious _ _ => Command_GETPREVIOUS
  | RGetKeyRange _ _ _ _ _ _ => Command_GETKEYRANGE
  | RGetLog _ => Command_GETLOG
  | RNoOp => Command_NOOP
  | RMediaScan _ _ _ _ => Command_MEDIASCAN
  | RMediaOptimize => Command_MEDIAOPTIMIZE
  | RFlushAllData => Command_FLUSHALLDATA
  end.

Definition req_batch (r : request) (cmd : Opts) : option Z :=
  match r with
  | RStartBatch | REndBatch _ | RAbortBatch | RPutB _ _ => Some (o_BatchID cmd)
  | _ => None
  end.

(** The key-value of a request that names a key; an algorithm or a
    synchronization is carried when the options have one the protocol knows. *)
Definition known (names : list Z) (invalid x : Z) : option Z :=
  if decide (x = invalid) then None else if decide (x ∈ names) then Some x else Some 0.

Definition key_value (key : bytes) (force : option bool) (alg sync : Z) : Command_KeyValue :=
  mkKeyValue [] force key [] [Ascii.zero] (known algorithms Command_INVALID_ALGORITHM alg) None
    (if decide (alg = Command_INVALID_ALGORITHM \/ alg ∈ algorithms)
     then known synchronizations Command_INVALID_SYNCHRONIZATION sync else None).

Definition req_body (r : request) (cmd : Opts) : option Command_Body :=
  let read_key key := Some (body_KeyValue (key_value key None Command_INVALID_ALGORITHM
                                             Command_INVALID_SYNCHRONIZATION)) in
  let write_key key := Some (body_KeyValue (key_value key (Some (o_Force cmd)) (o_Algorithm cmd)
                                              (o_Synchronization cmd))) in
  match r with
  | RSetLockPin o n =>
      Some (body_Security (mkSecurity o n [] [] (Some Command_Security_LOCK_PIN_SECURITYOP)))
  | RSetErasePin o n =>
      Some (body_Security (mkSecurity [] [] o n (Some Command_Security_ERASE_PIN_SECURITYOP)))
  | REndBatch count => Some (body_Batch (mkBatch (Some count) [] None))
  | RGet key _ | RGetNext key _ | RGetPrevious key _ => read_key key
  | RDelete key | RPutB key _ => write_key key
  | RPut key _ =>
      Some (body_KeyValue (mkKeyValue (o_NewVersion cmd) (Some (o_Force cmd)) key [] (o_Tag cmd)
                             (Some (o_Algorithm cmd)) None (Some (o_Synchronization cmd))))
  | RGetKeyRange k1 k2 i1 i2 m rev =>
      Some (body_Range (mkRange k1 k2 (Some i1) (Some i2) (Some m) (Some rev) []))
  | RGetLog types => Some (body_GetLog (mkGetLog types))
  | RMediaScan k1 k2 i1 i2 =>
      Some (body_Range (mkRange k1 k2 (Some i1) (Some i2) None None []))
  | RStartBatch | RAbortBatch | RNoOp | RMediaOptimize | RFlushAllData => None
  end.

Definition req_value (r : request) : bytes :=
  match r with RPut _ value | RPutB _ value => value | _ => [] end.

(** The command of a request issued by client [c], and its message. *)
Definition command_of (id seq : Z) (r : request) (cmd : Opts) : Command :=
  mkCommand (Some (mkHeader (Some 0) (Some id) (Some seq) None
                     (Some (req_type r)) (Some (o_Timeout cmd)) None (Some (o_Priority cmd)) None
                     (req_batch r cmd)))
    (req_body r cmd) None.

Definition request_command (c : Client) (r : request) (cmd : Opts) : Command :=
  command_of (c_ConnectionID c) (c_Sequence c) r cmd.

Definition request_message (c : Client) (r : request) (cmd : Opts) : Message :=
  let m := mkMessage (Some Message_HMACAUTH) None None (Marshal_Command (request_command c r cmd)) in
  authenticate hmac_sha1 c m.

(** ** The frame of a request *)
Definition bump (s : wstate) : wstate :=
  mkW (mkClient (c_Idx (ws_client s)) (c_ConnectionID (ws_client s))
         (wrap_u 64 (c_Sequence (ws_client s) + 1)) (c_Identity (ws_client s))
         (c_HmacKey (ws_client s)) (c_Key (ws_client s)) (c_NextPartNumber (ws_client s))
         (c_LastPartNumber (ws_client s)) (c_DataOffset (ws_client s))) (ws_conn s).

Definition sent (s : wstate) (r : request) (cmd : Opts) : wstate :=
  set_out (bump s) (frame (Marshal_Message (request_message (ws_client s) r cmd)) (req_value r)).

Definition small (c : Client) (r : request) (cmd : Opts) : Prop :=
  Z.of_nat (length (Marshal_Message (request_message c r cmd))) < 2 ^ 32 /\
  Z.of_nat (length (req_value r)) < 2 ^ 32.

Lemma req_type_request r : req_type r ∈ request_types.
Proof. destruct r; cbn [req_type]; apply (bool_decide_unpack _); vm_compute; exact I. Qed.

Lemma SetCmdInHeader_ok r cmd s :
  SetCmdInHeader zeroHeader (req_type r) cmd s
  = WOk (mkHeader (Some 0) (Some (c_ConnectionID (ws_client s))) (Some (c_Sequence (ws_client s))) None
           (Some (req_type r)) (Some (o_Timeout cmd)) None (Some (o_Priority cmd)) None None, None)
        (bump s).
Proof. unfold SetCmdInHeader. by rewrite decide_True by apply req_type_request. Qed.

Lemma send_command_ok r cmd s header :
  conn_ok s -> small (ws_client s) r cmd ->
  Some header = cmd_Header (request_command (ws_client s) r cmd) ->
  send_command hmac_sha1 Message_HMACAUTH None header (req_body r cmd) (req_value r)
    (Z.of_nat (length (req_value r))) (bump s) = WOk None (sent s r cmd).
Proof.
  intros Hc [Hm Hv] [= ->]. unfold send_command.
  by rewrite (Send_ok _ (req_value r) (bump s)).
Qed.

Lemma SetCmdKeyValue_spec key force alg sync :
  (SetCmdKeyValue (mkKeyValue [] force [] [] [] None None None) key alg sync).1
  = key_value key force alg sync.
Proof.
  unfold SetCmdKeyValue, key_value, known. cbn [NewVersion Force DbVersion kv_Algorithm MetadataOnly Synchronization].
  destruct (Z.eqb_spec alg Command_INVALID_ALGORITHM) as [->|Ha]; cbn [negb andb];
    destruct (Z.eqb_spec sync Command_INVALID_SYNCHRONIZATION) as [->|];
    repeat (case_bool_decide || case_decide); try done; try tauto.
Qed.

(** ** Receiving never writes *)
Definition st {A} (r : wres A) : wstate :=
  match r with WOk _ s | WExit s | WLoop s | WBlock s => s end.

(** [s'] differs from [s] in the connection identifier and in what was read, and
    a closed connection stays closed. *)
Definition read_step (s s' : wstate) : Prop :=
  cn_out (ws_conn s') = cn_out (ws_conn s) /\ cn_wlimit (ws_conn s') = cn_wlimit (ws_conn s) /\
  c_Sequence (ws_client s') = c_Sequence (ws_client s) /\
  c_Identity (ws_client s') = c_Identity (ws_client s) /\
  c_HmacKey (ws_client s') = c_HmacKey (ws_client s) /\
  (cn_closed (ws_conn s) = true -> cn_closed (ws_conn s') = true).

#[local] Instance read_step_pre : PreOrder read_step.
Proof.
  split; [by intros s; repeat split|].
  intros s1 s2 s3 (?&?&?&?&?&?) (?&?&?&?&?&?). repeat split; try congruence. auto.
Qed.

Definition only_reads {A} (m : W A) : Prop := ∀ s, read_step s (st (m s)).

Lemma only_reads_ret {A} (a : A) : only_reads (mret a).
Proof. intros s. reflexivity. Qed.

Lemma only_reads_bind {A B} (m : W A) (f : A -> W B) :
  only_reads m -> (∀ a, only_reads (f a)) -> only_reads (m ≫= f).
Proof.
  intros Hm Hf s. unfold mbind, W_bind. specialize (Hm s). destruct (m s) as [a s'|s'|s'|s']; [|done..].
  etrans; [exact Hm|apply Hf].
Qed.

Lemma only_reads_read_loop fuel buffer n size : only_reads (read_loop fuel buffer n size).
Proof.
  revert buffer n. induction fuel as [|fuel IH]; intros buffer n; cbn [read_loop];
    destruct (n <? size); try apply only_reads_ret; [intros s; reflexivity|].
  apply only_reads_bind.
  - intros s. unfold socket_Read, conn_Read. destruct (cn_closed _) eqn:E; [by repeat split|].
    case_decide; [by repeat split|]. destruct (take_segment _ _) as [[? ?]|]; [|destruct (cn_end _)]; unfold read_step; cbn; rewrite ?E; naive_solver.
  - intros [b|err]; [apply IH|]. apply only_reads_bind; [|intros; apply only_reads_ret].
    intros s. by repeat split.
Qed.

Lemma only_reads_Read buffer size : only_reads (Read buffer size).
Proof. intros s. apply only_reads_read_loop. Qed.

Lemma only_reads_set_ConnectionID id : only_reads (set_ConnectionID id).
Proof. intros s. by repeat split. Qed.

Lemma only_reads_GetHeader : only_reads GetHeader.
Proof.
  apply only_reads_bind; [apply only_reads_Read|]. intros [? [?|]]; [apply only_reads_ret|].
  case_decide; apply only_reads_ret.
Qed.

Lemma only_reads_GetMessage : only_reads GetMessage.
Proof.
  apply only_reads_bind; [apply only_reads_GetHeader|]. intros [[? ?] [?|]]; [intros s; reflexivity|].
  apply only_reads_bind; [apply only_reads_Read|]. intros [? [?|]]; [apply only_reads_ret|].
  destruct (Unmarshal_Message _); apply only_reads_ret.
Qed.

Lemma only_reads_GetStatus : only_reads GetStatus.
Proof.
  apply only_reads_bind; [apply only_reads_GetMessage|]. intros [[? ?] [?|]]; [apply only_reads_ret|].
  destruct (Unmarshal_Command _); [|apply only_reads_ret].
  apply only_reads_bind; [apply only_reads_set_ConnectionID|]. intros _.
  cbv zeta. repeat case_match; apply only_reads_ret.
Qed.

Lemma only_reads_status_error : only_reads status_error.
Proof. apply only_reads_bind; [apply only_reads_GetStatus|]. intros [[? ?] ?]. apply only_reads_ret. Qed.

Lemma only_reads_read_value value : only_reads (read_value value).
Proof.
  apply only_reads_bind; [apply only_reads_GetStatus|]. intros [[? ?] [?|]]; [apply only_reads_ret|].
  apply only_reads_bind; [apply only_reads_Read|]. intros [? [?|]]; apply only_reads_ret.
Qed.

Lemma bind_ok {A B} (m : W A) (f : A -> W B) s a s' :
  m s = WOk a s' -> (m ≫= f) s = f a s'.
Proof. intros E. unfold mbind, W_bind. by rewrite E. Qed.

Lemma bind_bind_ok {A B C} (m : W A) (f : A -> W B) (g : B -> W C) s a s' :
  m s = WOk a s' -> ((m ≫= f) ≫= g) s = (f a ≫= g) s'.
Proof. intros E. unfold mbind, W_bind. by rewrite E. Qed.

(** Every method writes the frame of its request first and only reads after
    that. *)
Lemma run_sends r cmd s :
  conn_ok s -> small (ws_client s) r cmd ->
  ∃ k : W (option error), only_reads k /\ run r cmd s = k (sent s r cmd).
Proof.
  intros Hc Hs. pose proof (SetCmdInHeader_ok r cmd s) as HH.
  pose proof (send_command_ok r cmd s) as HS. specialize (HS _ Hc Hs eq_refl).
  assert (∀ key, SetCmdKeyValue zeroKeyValue key Command_INVALID_ALGORITHM
             Command_INVALID_SYNCHRONIZATION
           = (key_value key None Command_INVALID_ALGORITHM Command_INVALID_SYNCHRONIZATION, None))
    as HK by done.
  destruct r; cbn [run req_type req_body req_value req_batch] in *;
    try change (Z.of_nat (length [])) with 0 in HS;
    unfold SetLockPin, SetErasePin, StartBatch, EndBatch, AbortBatch, Get, Delete, Put, PutB,
      GetNext, GetPrevious, GetKeyRange, GetLog, NoOp, MediaScan, MediaOptimize, FlushAllData, forceKeyValue, set_BatchID, SetCmdRange;
    first [rewrite (bind_ok _ _ _ _ _ HH) | rewrite (bind_bind_ok _ _ _ _ _ _ HH)];
    cbn beta iota; rewrite ?SetCmdKeyValue_spec, ?HK;
    cbn [fst ClusterVersion ConnectionID Sequence AckSequence MessageType Timeout EarlyExit Priority
         TimeQuanta Keys zeroRange]; cbn beta iota;
    first [ rewrite (bind_ok _ _ _ _ _ HS) | rewrite (bind_bind_ok _ _ _ _ _ _ HS) | rewrite HS ];
    cbn beta iota; eexists; (split; [|reflexivity]).
  all: repeat first [ apply only_reads_ret | apply only_reads_status_error
                    | apply only_reads_read_value | apply only_reads_GetStatus
                    | apply only_reads_bind; [|intros ?]
                    | case_match ].
Qed.

(** ** Sequences of requests *)
Fixpoint run_all (rs : list (request * Opts)) : W (list (option error)) :=
  match rs with
  | [] => mret []
  | (r, cmd) :: rs' => err ← run r cmd; errs ← run_all rs'; mret (err :: errs)
  end.

(** The client as it issues each request, when all of them return. *)
Fixpoint issued (rs : list (request * Opts)) (s : wstate) : list (Client * request * Opts) :=
  match rs with
  | [] => []
  | (r, cmd) :: rs' =>
      (ws_client s, r, cmd) ::
        match run r cmd s with WOk _ s' => issued rs' s' | _ => [] end
  end.

(** The frames of the requests, in order. *)
Definition frames (l : list (Client * request * Opts)) : bytes :=
  concat ((λ '(c, r, cmd), frame (Marshal_Message (request_message c r cmd)) (req_value r)) <$> l).

Lemma run_read_step r cmd s errs s' :
  conn_ok s -> small (ws_client s) r cmd -> run r cmd s = WOk errs s' ->
  read_step (sent s r cmd) s'.
Proof.
  intros Hc Hs E. destruct (run_sends r cmd s Hc Hs) as (k & Hk & Er).
  specialize (Hk (sent s r cmd)). by rewrite <- Er, E in Hk.
Qed.

(** A closed connection stays closed. *)
Definition keeps_closed {A} (m : W A) : Prop :=
  ∀ s, cn_closed (ws_conn s) = true -> cn_closed (ws_conn (st (m s))) = true.

Lemma keeps_closed_reads {A} (m : W A) : only_reads m -> keeps_closed m.
Proof. intros Hm s. apply (Hm s). Qed.

Lemma keeps_closed_ret {A} (a : A) : keeps_closed (mret a).
Proof. by intros s. Qed.

Lemma keeps_closed_bind {A B} (m : W A) (f : A -> W B) :
  keeps_closed m -> (∀ a, keeps_closed (f a)) -> keeps_closed (m ≫= f).
Proof.
  intros Hm Hf s Hs. unfold mbind, W_bind. specialize (Hm s Hs).
  destruct (m s) as [a s'|s'|s'|s']; [by apply Hf|done..].
Qed.

Lemma keeps_closed_Write b size : keeps_closed (Write b size).
Proof.
  unfold Write. generalize (S (Z.to_nat (size / Z.max 1 (Z.of_nat (length b))))). intros fuel.
  generalize 0. induction fuel as [|fuel IH]; intros n; cbn [write_loop]; destruct (n <? size);
    try apply keeps_closed_ret; [by intros s|].
  apply keeps_closed_bind; [|intros [|]; [apply keeps_closed_ret|apply IH]].
  intros s Hs. unfold socket_Write, conn_Write. by rewrite Hs.
Qed.

Lemma keeps_closed_send_command a p h body v n :
  keeps_closed (send_command hmac_sha1 a p h body v n).
Proof.
  unfold send_command, Send. apply keeps_closed_bind; [by intros s|]. intros c.
  repeat first [ apply keeps_closed_ret | apply keeps_closed_Write
               | apply keeps_closed_bind; [|intros ?] | case_match ].
Qed.

Lemma keeps_closed_SetCmdInHeader h t cmd : keeps_closed (SetCmdInHeader h t cmd).
Proof. unfold SetCmdInHeader. case_decide; by intros s. Qed.

(** One step of a proof that follows the structure of an operation. *)
Ltac keeps_closed_step :=
  lazymatch goal with
  | |- keeps_closed (mret _) => apply keeps_closed_ret
  | |- keeps_closed (SetCmdInHeader _ _ _) => apply keeps_closed_SetCmdInHeader
  | |- keeps_closed (send_command _ _ _ _ _ _ _) => apply keeps_closed_send_command
  | |- keeps_closed status_error => apply keeps_closed_reads, only_reads_status_error
  | |- keeps_closed (read_value _) => apply keeps_closed_reads, only_reads_read_value
  | |- keeps_closed GetStatus => apply keeps_closed_reads, only_reads_GetStatus
  | |- keeps_closed (mbind _ _) => apply keeps_closed_bind; [|intros ?]
  | |- keeps_closed (match ?x with _ => _ end) => destruct x
  end.

Lemma keeps_closed_run r cmd : keeps_closed (run r cmd).
Proof.
  destruct r; cbn [run];
    unfold SetLockPin, SetErasePin, StartBatch, EndBatch, AbortBatch, Get, Delete, Put, PutB,
      GetNext, GetPrevious, GetKeyRange, GetLog, NoOp, MediaScan, MediaOptimize, FlushAllData; cbv zeta;
    repeat keeps_closed_step.
Qed.

Lemma keeps_closed_run_all rs : keeps_closed (run_all rs).
Proof.
  induction rs as [|[r cmd] rs IH]; cbn [run_all]; [apply keeps_closed_ret|].
  apply keeps_closed_bind; [apply keeps_closed_run|]. intros ?.
  apply keeps_closed_bind; [apply IH|]. intros ?. apply keeps_closed_ret.
Qed.

Lemma wrap_u_add w a b : 0 <= w -> wrap_u w (wrap_u w a + b) = wrap_u w (a + b).
Proof. intros. unfold wrap_u. apply Zplus_mod_idemp_l. Qed.

(** What is written is the frames of the requests, in order; the clients that
    issue them differ in the connection identifier and count up. *)
Lemma run_all_out rs s errs s' :
  conn_ok s -> 0 <= c_Sequence (ws_client s) < 2 ^ 64 ->
  run_all rs s = WOk errs s' -> cn_closed (ws_conn s') = false ->
  Forall (λ '(c, r, cmd), small c r cmd) (issued rs s) ->
  cn_out (ws_conn s') = cn_out (ws_conn s) ++ frames (issued rs s) /\
  (λ '(c, r, cmd), (r, cmd)) <$> issued rs s = rs /\
  ∀ i c r cmd, issued rs s !! i = Some (c, r, cmd) ->
    c_Sequence c = wrap_u 64 (c_Sequence (ws_client s) + Z.of_nat i) /\
    c_Identity c = c_Identity (ws_client s) /\ c_HmacKey c = c_HmacKey (ws_client s) /\
    ∃ errs1 s1, run_all (take i rs) s = WOk errs1 s1 /\ ws_client s1 = c.
Proof.
  revert s errs. induction rs as [|[r cmd] rs IH]; intros s errs Hc Hq E Hend Hs; cbn [run_all issued] in *.
  { injection E as <- <-. cbn. by rewrite app_nil_r. }
  unfold mbind, W_bind in E. destruct (run r cmd s) as [err s1|s1|s1|s1] eqn:Er; [|done..].
  destruct (run_all rs s1) as [errs1 s2|s2|s2|s2] eqn:Ea; [|done..]. injection E as <- <-.
  inversion_clear Hs as [|?? Hsmall Hrest].
  destruct (run_read_step _ _ _ _ _ Hc Hsmall Er) as (Ho & Hw & Hsq & Hid & Hk & Hcl).
  assert (cn_closed (ws_conn s1) = false) as Hc1.
  { destruct (cn_closed (ws_conn s1)) eqn:E1; [|done].
    pose proof (keeps_closed_run_all rs s1 E1) as HH. rewrite Ea in HH. cbn in HH. congruence. }
  cbn in Hsq, Hid, Hk, Hw, Ho.
  destruct (IH s1 errs1) as (Hout & Hreq & Hseq); [split; [done|]; by rewrite Hw; apply Hc| |done..|].
  { rewrite Hsq. unfold wrap_u. apply Z.mod_pos_bound. lia. }
  rewrite Hout, Ho. split_and!.
  - unfold frames. cbn [fmap list_fmap concat]. by rewrite <- app_assoc.
  - cbn [fmap list_fmap]. f_equal. done.
  - intros [|i] c r' cmd'; cbn [lookup list_lookup].
    + intros [= <- <- <-]. rewrite Z.add_0_r, wrap_u_id by done. split_and!; [done..|]. by exists [], s.
    + intros Hi. destruct (Hseq i c r' cmd' Hi) as (-> & -> & -> & errs2 & s3 & E3 & <-).
      rewrite Hsq, Hid, Hk, wrap_u_add by lia. split_and!; [f_equal; lia|done..|].
      exists (err :: errs2), s3. split; [|done]. cbn [take run_all]. unfold mbind, W_bind. by rewrite Er, E3.
Qed.

(** ** The device's side *)
Record seen := mkSeen { sn_message : Message; sn_command : Command; sn_value : bytes }.

(** Decode one frame: what it carries, and the bytes after it. *)
Definition parse_frame (s : bytes) : option (seen * bytes) :=
  match s with
  | magic :: s' =>
      let msgSize := Z.to_nat (Uint32 s') in
      let valueSize := Z.to_nat (Uint32 (drop 4 s')) in
      let body := drop 8 s' in
      if decide (magic = "F"%char /\ 8 <= length s' /\ msgSize + valueSize <= length body)%nat then
        m ← Unmarshal_Message (take msgSize body);
        c ← Unmarshal_Command (CommandBytes m);
        Some (mkSeen m c (take valueSize (drop msgSize body)), drop (msgSize + valueSize) body)
      else None
  | [] => None
  end.

Fixpoint parse_frames (fuel : nat) (s : bytes) : option (list seen) :=
  match s, fuel with
  | [], _ => Some []
  | _, O => None
  | _, S fuel' => '(sn, rest) ← parse_frame s; l ← parse_frames fuel' rest; Some (sn :: l)
  end.

(** A message is authentic for a key: it has the identity and the HMAC of its
    command. *)
Definition authentic (ident : Z) (key : bytes) (m : Message) : Prop :=
  HmacAuth m = Some (mkHMACauth (Some ident) (ComputeHMAC hmac_sha1 (CommandBytes m) key)).

Lemma parse_frame_frame m c value rest :
  message_wf m -> CommandBytes m = Marshal_Command c -> command_wf c ->
  Z.of_nat (length (Marshal_Message m)) < 2 ^ 32 -> Z.of_nat (length value) < 2 ^ 32 ->
  parse_frame (frame (Marshal_Message m) value ++ rest) = Some (mkSeen m c value, rest).
Proof.
  intros Hm Hcb Hc Hml Hvl. unfold parse_frame, frame. cbn [app].
  set (mb := Marshal_Message m) in *. rewrite <- !app_assoc.
  rewrite Uint32_PutUint32, Nat2Z.id by lia.
  rewrite (drop_app_length' (PutUint32 _)) by done.
  rewrite Uint32_PutUint32, Nat2Z.id by lia.
  assert (drop 8 (PutUint32 (Z.of_nat (length mb)) ++ PutUint32 (Z.of_nat (length value)) ++ mb ++ value ++ rest)
          = mb ++ value ++ rest) as -> by done.
  rewrite decide_True by (rewrite !length_app, !PutUint32_length; repeat split; lia).
  rewrite take_app_length. unfold mb. rewrite message_roundtrip by done. cbn [mbind option_bind].
  rewrite Hcb, command_roundtrip by done. cbn [mbind option_bind]. fold mb.
  rewrite drop_app_length, take_app_length, app_assoc, drop_app_length'; [done|].
  by rewrite length_app.
Qed.

(** ** Well-formed requests *)
Definition opts_wf (cmd : Opts) : Prop :=
  0 <= o_Timeout cmd < 2 ^ 64 /\ - 2 ^ 31 <= o_Priority cmd < 2 ^ 31 /\
  0 <= o_BatchID cmd < 2 ^ 32 /\ - 2 ^ 31 <= o_Algorithm cmd < 2 ^ 31 /\
  - 2 ^ 31 <= o_Synchronization cmd < 2 ^ 31.

Definition request_wf (r : request) : Prop :=
  match r with
  | REndBatch count => 0 <= count < 2 ^ 32
  | RGetKeyRange _ _ _ _ m _ => 0 <= m < 2 ^ 32
  | RGetLog types => Forall (λ t, - 2 ^ 31 <= t < 2 ^ 31) types
  | _ => True
  end.

(** The fields of a client fit their Go types. *)
Definition client_wf (c : Client) : Prop :=
  - 2 ^ 63 <= c_ConnectionID c < 2 ^ 63 /\ 0 <= c_Sequence c < 2 ^ 64 /\
  - 2 ^ 63 <= c_Identity c < 2 ^ 63.

Lemma known_fits names invalid x :
  Forall (λ n, - 2 ^ 31 <= n < 2 ^ 31) names -> fits_s 32 (known names invalid x).
Proof.
  unfold known, fits_s. intros Hn v. case_decide; [done|]. case_decide as Hin; intros [= <-]; [|lia].
  rewrite Forall_forall in Hn. by apply Hn.
Qed.

Lemma key_value_wf key force alg sync : body_wf (body_KeyValue (key_value key force alg sync)).
Proof.
  assert (Forall (λ n, - 2 ^ 31 <= n < 2 ^ 31) algorithms) by (repeat constructor; done).
  assert (Forall (λ n, - 2 ^ 31 <= n < 2 ^ 31) synchronizations) by (repeat constructor; done).
  unfold body_wf, body_KeyValue, key_value.
  cbn [KeyValue kv_Algorithm Synchronization Range GetLog_ Security PinOp Batch mbind option_bind].
  split_and!; try done; [by apply known_fits|].
  case_decide; [by apply known_fits|done].
Qed.

(** A body whose numbers are given fits when they do. *)
Lemma body_fits b alg sync maxr types sec pin count :
  (∀ v, KeyValue b ≫= kv_Algorithm = Some v -> v = alg) ->
  (∀ v, KeyValue b ≫= Synchronization = Some v -> v = sync) ->
  (∀ v, Range b ≫= MaxReturned = Some v -> v = maxr) ->
  (∀ g, GetLog_ b = Some g -> Types g = types) ->
  (∀ v, Security b ≫= SecurityOpType = Some v -> v = sec) ->
  (∀ v, PinOp b ≫= PinOpType = Some v -> v = pin) ->
  (∀ x, Batch b = Some x -> x = mkBatch (Some count) [] None) ->
  - 2 ^ 31 <= alg < 2 ^ 31 -> - 2 ^ 31 <= sync < 2 ^ 31 -> 0 <= maxr < 2 ^ 32 ->
  Forall (λ t, - 2 ^ 31 <= t < 2 ^ 31) types -> - 2 ^ 31 <= sec < 2 ^ 31 ->
  - 2 ^ 31 <= pin < 2 ^ 31 -> 0 <= count < 2 ^ 32 -> body_wf b.
Proof.
  intros H1 H2 H3 H4 H5 H6 H7 ???????. unfold body_wf, fits, fits_s. split_and!.
  - intros v Hv. by rewrite (H1 v Hv).
  - intros v Hv. by rewrite (H2 v Hv).
  - intros v Hv. by rewrite (H3 v Hv).
  - intros g Hg. by rewrite (H4 g Hg).
  - intros v Hv. by rewrite (H5 v Hv).
  - intros v Hv. by rewrite (H6 v Hv).
  - intros v Hv. destruct (Batch b) as [x|]; [|done]. rewrite (H7 x eq_refl) in Hv. by injection Hv as <-.
  - intros v Hv. destruct (Batch b) as [x|]; [|done]. by rewrite (H7 x eq_refl) in Hv.
  - intros x Hx. by rewrite (H7 x Hx).
Qed.

Lemma zero_fits : 0 <= 0 < 2 ^ 32.
Proof. done. Qed.

Lemma req_body_wf r cmd b :
  opts_wf cmd -> request_wf r -> req_body r cmd = Some b -> body_wf b.
Proof.
  intros (_ & _ & _ & Ha & Hs) Hr Hb.
  destruct r; cbn [req_body request_wf] in *; try done; injection Hb as <-;
    try apply key_value_wf;
    (eapply body_fits;
       [ by intros ? [= <-] | by intros ? [= <-] | by intros ? [= <-] | by intros ? [= <-]
       | by intros ? [= <-] | by intros ? [= <-] | by intros ? [= <-] | .. ];
       first [eassumption | exact zero_fits | apply Forall_nil_2 | done]).
Qed.

Lemma request_command_wf c r cmd :
  client_wf c -> opts_wf cmd -> request_wf r -> command_wf (request_command c r cmd).
Proof.
  intros (Hid & Hseq & _) Ho Hr. pose proof Ho as (Ht & Hp & Hb & _).
  split; [|split; [|done]].
  - intros h [= <-]. unfold header_wf, fits, fits_s.
    cbn [ClusterVersion ConnectionID Sequence AckSequence MessageType Timeout Priority TimeQuanta BatchID].
    split_and!; try done; try (by intros v [= <-]).
    + intros v [= <-]. by destruct r.
    + intros v Hv. destruct r; cbn [req_batch] in Hv; try done; by injection Hv as <-.
  - intros b. by apply req_body_wf.
Qed.

Lemma request_message_wf c r cmd : client_wf c -> message_wf (request_message c r cmd).
Proof.
  intros (_ & _ & Hi). unfold request_message, authenticate, message_wf, fits_s.
  case_decide; cbn [AuthType HmacAuth Identity mbind option_bind]; split; try done; by intros v [= <-].
Qed.

Lemma request_message_authentic c r cmd :
  authentic (c_Identity c) (c_HmacKey c) (request_message c r cmd).
Proof. unfold request_message, authenticate, authentic. cbn [AuthType]. by rewrite decide_True. Qed.

Lemma request_message_CommandBytes c r cmd :
  CommandBytes (request_message c r cmd) = Marshal_Command (request_command c r cmd).
Proof. unfold request_message, authenticate. by case_decide. Qed.

(** A request that can be sent: the client and the arguments fit their types and
    the sizes fit the frame. *)
Definition sendable (x : Client * request * Opts) : Prop :=
  let '(c, r, cmd) := x in client_wf c /\ request_wf r /\ opts_wf cmd /\ small c r cmd.

Definition seen_of (x : Client * request * Opts) : seen :=
  let '(c, r, cmd) := x in
  mkSeen (request_message c r cmd) (request_command c r cmd) (req_value r).

Lemma frame_length m v : (0 < length (frame m v))%nat.
Proof. cbn. lia. Qed.

Lemma frames_cons c r cmd l :
  frames ((c, r, cmd) :: l)
  = frame (Marshal_Message (request_message c r cmd)) (req_value r) ++ frames l.
Proof. done. Qed.

Lemma parse_frames_step fuel s sn rest :
  parse_frame s = Some (sn, rest) ->
  parse_frames (S fuel) s = (l ← parse_frames fuel rest; Some (sn :: l)).
Proof. intros E. destruct s as [|x s]; [done|]. cbn [parse_frames]. by rewrite E. Qed.

Lemma parse_frames_frames l fuel :
  Forall sendable l -> (length (frames l) <= fuel)%nat ->
  parse_frames fuel (frames l) = Some (seen_of <$> l).
Proof.
  intros Hl. revert fuel.
  induction Hl as [|[[c r] cmd] l (Hc & Hr & Ho & Hm & Hv) Hl IH]; intros fuel Hf.
  { by destruct fuel. }
  rewrite frames_cons in *. rewrite length_app in Hf.
  pose proof (frame_length (Marshal_Message (request_message c r cmd)) (req_value r)) as Hpos.
  destruct fuel as [|fuel]; [lia|].
  erewrite parse_frames_step; [|apply parse_frame_frame; [by apply request_message_wf
    |apply request_message_CommandBytes|by apply request_command_wf|done|done]].
  rewrite IH by lia. done.
Qed.

(** C19. What a client has written over a connection decodes, frame by frame, to the
    commands that were issued in that order: the device sees the type, body and
    value of each request under consecutive sequence numbers modulo 2^64, with the
    connection identifier that the client has when the requests before it have
    returned (the one at the start, until a reply brings another), and with the
    identity and the HMAC of its command.  The requests are the commands that are
    authenticated by an HMAC, not the four with a PIN; their arguments fit the
    fields of the protocol, and the connection has not broken or been closed. *)
Theorem requests_on_wire rs s errs s' :
  conn_ok s -> cn_out (ws_conn s) = [] ->
  run_all rs s = WOk errs s' -> cn_closed (ws_conn s') = false ->
  0 <= c_Sequence (ws_client s) < 2 ^ 64 -> Forall sendable (issued rs s) ->
  ∃ l, parse_frames (length (cn_out (ws_conn s'))) (cn_out (ws_conn s')) = Some l /\
    length l = length rs /\
    ∀ i r cmd, rs !! i = Some (r, cmd) -> ∃ sn errs1 s1, l !! i = Some sn /\
      run_all (take i rs) s = WOk errs1 s1 /\
      sn_command sn = command_of (c_ConnectionID (ws_client s1)) (wrap_u 64 (c_Sequence (ws_client s) + Z.of_nat i)) r cmd /\
      sn_value sn = req_value r /\
      authentic (c_Identity (ws_client s)) (c_HmacKey (ws_client s)) (sn_message sn).
Proof.
  intros Hc Hout Hrun Hend Hq Hs.
  destruct (run_all_out rs s errs s' Hc Hq Hrun Hend) as (Ho & Hreq & Hseq).
  { eapply Forall_impl; [exact Hs|]. intros [[c r] cmd]. by intros (_ & _ & _ & ?). }
  rewrite Hout in Ho. cbn [app] in Ho. rewrite Ho.
  exists (seen_of <$> issued rs s). split; [by apply parse_frames_frames|].
  split; [rewrite <- Hreq at 2; by rewrite !length_fmap|].
  intros i r cmd Hi. rewrite <- Hreq, list_lookup_fmap in Hi.
  apply fmap_Some in Hi as ([[c r'] cmd'] & Hi & [= <- <-]).
  destruct (Hseq i c r cmd Hi) as (Hsq & Hid & Hk & errs1 & s1 & E1 & Ec).
  exists (seen_of (c, r, cmd)), errs1, s1.
  rewrite list_lookup_fmap, Hi. split; [done|]. split; [done|]. cbn [seen_of sn_command sn_value sn_message].
  split; [by rewrite <- Hsq, Ec|]. split; [done|].
  rewrite <- Hid, <- Hk. apply request_message_authentic.
Qed.

(** ** Replies *)
Lemma Get_sends key buffer cmd s :
  conn_ok s -> small (ws_client s) (RGet key buffer) cmd ->
  Get hmac_sha1 key buffer cmd s = read_value buffer (sent s (RGet key buffer) cmd).
Proof.
  intros Hc Hs. pose proof (SetCmdInHeader_ok (RGet key buffer) cmd s) as HH.
  pose proof (send_command_ok (RGet key buffer) cmd s _ Hc Hs eq_refl) as HS.
  cbn [req_type req_body req_value req_batch] in *.
  change (Z.of_nat (length [])) with 0 in HS.
  unfold Get. rewrite (bind_ok _ _ _ _ _ HH). cbn beta iota. rewrite (SetCmdKeyValue_spec key None).
  by rewrite (bind_ok _ _ _ _ _ HS).
Qed.

(** A GET over the protocol: when the device answers the request with a message
    around command [c] and a value that the buffer can hold, and the reply arrives
    in one piece, [Get] returns the value for a successful GET response, and else
    the error of the status (its message, or that the command is not known), after
    the one request frame was written; the connection identifier of the reply is
    kept for later requests. *)
Theorem get_over_wire key buffer cmd s m c value :
  conn_ok s -> small (ws_client s) (RGet key buffer) cmd ->
  cn_in (ws_conn s) = [frame (Marshal_Message m) value] ->
  reply_ok m c -> Z.of_nat (length value) < 2 ^ 32 -> (length value <= length buffer)%nat ->
  ∃ s', Get hmac_sha1 key buffer cmd s
        = WOk (match status_result c (Z.of_nat (length value)) with
               | (_, _, Some e) => (buffer, 0, Some e)
               | (_, n, None) => (take (Z.to_nat n) value ++ drop (Z.to_nat n) buffer, n, None)
               end) s' /\
    cn_out (ws_conn s') = cn_out (ws_conn s)
      ++ frame (Marshal_Message (request_message (ws_client s) (RGet key buffer) cmd)) [] /\
    c_ConnectionID (ws_client s') = GetConnectionID (cmd_Header c) /\
    c_Sequence (ws_client s') = wrap_u 64 (c_Sequence (ws_client s) + 1).
Proof.
  intros Hc Hsm Hin Hr Hv Hlen. rewrite Get_sends by done.
  set (s1 := sent s (RGet key buffer) cmd).
  assert (cn_in (ws_conn s1) = left_over (frame (Marshal_Message m) value ++ [])) as Hin1.
  { rewrite app_nil_r. unfold left_over. rewrite decide_False by done. exact Hin. }
  assert (cn_closed (ws_conn s1) = false) as Hc1 by apply Hc.
  pose proof (GetStatus_ok m c value [] s1 Hc1 Hin1 Hr Hv) as HG. rewrite app_nil_r in HG.
  unfold read_value. rewrite (bind_ok _ _ _ _ _ HG).
  set (s2 := with_ConnectionID _ _).
  assert (Read buffer (Z.of_nat (length value)) s2
          = WOk (value ++ drop (length value) buffer, None) (set_in s2 [])) as HR.
  { apply Read_last; [exact Hc1|reflexivity|exact Hlen|done..]. }
  unfold status_result.
  repeat case_decide; cbn beta iota; try (eexists; split; [reflexivity|done]).
  rewrite (bind_ok _ _ _ _ _ HR). eexists; split; [by rewrite Nat2Z.id, take_ge|done].
Qed.
End spec.

(** ** A connection to run requests on *)
Module WireScenario.
#[local] Existing Instance ref_proto.
#[local] Existing Instance ref_proto_laws.

Definition hmac (key text : bytes) : bytes := take 20 (key ++ text).
Definition opts : Opts := mkOpts 0 60000 5 1 [] false [] [] Command_SHA1 Command_WRITEBACK false.
Definition client : Client := mkClient 0 7 41 identity hmacKey [] 0 0 0.
Definition connected (segs : list bytes) : wstate := mkW client (mkConn [] None segs None false).

Definition batch : list (request * Opts) :=
  [(RStartBatch, opts); (RPutB (str "k") (str "value"), opts); (REndBatch 1, opts)].

Definition reply : Command :=
  mkCommand (Some (mkHeader None (Some 9) None (Some 41) (Some Command_GET_RESPONSE)
                     None None None None None)) None
    (Some (mkStatus (Some Command_Status_SUCCESS) None [])).
Definition reply_message : Message :=
  mkMessage (Some Message_HMACAUTH) None None (Marshal_Command reply).

Lemma batch_wf :
  Forall (λ '(r, cmd), request_wf r /\ opts_wf cmd /\ Z.of_nat (length (req_value r)) < 2 ^ 32) batch.
Proof. repeat constructor; done. Qed.

Lemma batch_sendable : Forall (sendable hmac) (issued hmac batch (connected [])).
Proof.
  assert (∀ x, x ∈ issued hmac batch (connected []) ->
    (let '(c, r, cmd) := x in
     (- 2 ^ 63 <=? c_ConnectionID c) && (c_ConnectionID c <? 2 ^ 63) && (0 <=? c_Sequence c)
     && (c_Sequence c <? 2 ^ 64) && (c_Identity c =? 1)
     && bool_decide ((r, cmd) ∈ batch)
     && (Z.of_nat (length (Marshal_Message (request_message hmac c r cmd))) <? 2 ^ 32)) = true) as Hall.
  { apply Forall_forall. apply (bool_decide_unpack _). vm_compute. exact I. }
  apply Forall_forall. intros [[c r] cmd] Hin. specialize (Hall _ Hin). cbn beta iota in Hall. clear Hin.
  apply andb_prop in Hall as [Hall Hm]. apply andb_prop in Hall as [Hall Hb].
  apply bool_decide_eq_true in Hb. pose proof batch_wf as Hw. rewrite Forall_forall in Hw.
  destruct (Hw _ Hb) as (Hr & Ho & Hv). clear Hb Hw. apply Z.ltb_lt in Hm. zbool.
  split; [split_and!; lia|]. split; [exact Hr|]. split; [exact Ho|]. split; [exact Hm|exact Hv].
Qed.

Lemma reply_is_ok : reply_ok reply_message reply.
Proof.
  split_and!.
  - split; intros v [= <-]; done.
  - done.
  - split_and!.
    + intros h [= <-]. unfold header_wf, fits, fits_s.
      split_and!; intros v; cbn; intros [= <-]; done.
    + done.
    + intros t [= <-]. split; [by intros v [= <-]|done].
  - vm_compute. reflexivity.
Qed.
End WireScenario.

Lemma read_outcome_witness :
  let s := WireScenario.connected [str "ab"; str "cdef"] in
  ∃ pieces segs, str "abcdef" = concat pieces ++ concat segs /\
    Read (str "....") 5 s = WOk (overlay (str "....") pieces, None) (set_in s segs) /\
    5 <= Z.of_nat (length (concat pieces)).
Proof.
  cbv zeta.
  destruct (read_outcome (str "....") 5 (WireScenario.connected [str "ab"; str "cdef"]))
    as (pieces & segs & H1 & _ & _ & H4 & _); [reflexivity|discriminate|vm_compute; congruence|].
  exists pieces, segs. split; [exact H1|]. apply H4. vm_compute. congruence.
Defined.

(** Fewer bytes than asked for, from a device that is silent after them. *)
Example read_waits :
  Read (str "....") 7 (WireScenario.connected [str "ab"; str "cdef"])
  = WBlock (set_in (WireScenario.connected []) []).
Proof. reflexivity. Qed.

Lemma requests_on_wire_witness :
  let s := WireScenario.connected [] in
  ∃ errs s' l, @run_all ref_proto WireScenario.hmac WireScenario.batch s = WOk errs s' /\
    @parse_frames ref_proto (length (cn_out (ws_conn s'))) (cn_out (ws_conn s')) = Some l /\ length l = 3%nat.
Proof.
  cbv zeta.
  pose proof (requests_on_wire (HP := ref_proto) (ProtoCodecLaws0 := ref_proto_laws)
                WireScenario.hmac WireScenario.batch (WireScenario.connected [])) as H.
  pose (r := run_all (HP := ref_proto) WireScenario.hmac WireScenario.batch (WireScenario.connected [])).
  assert (Hr : match r with WOk _ s' => cn_closed (ws_conn s') = false | _ => False end)
    by (vm_compute; reflexivity).
  unfold r in *. clear r.
  destruct (run_all _ _ _) as [errs s'|s'|s'|s'] eqn:E; [|destruct Hr..].
  destruct (H errs s') as (l & Hl & Hlen & _).
  - split; reflexivity.
  - reflexivity.
  - reflexivity.
  - exact Hr.
  - split; vm_compute; congruence.
  - apply WireScenario.batch_sendable.
  - exists errs, s', l. split; [reflexivity|]. split; [exact Hl|exact Hlen].
Defined.

Lemma get_over_wire_witness :
  ∃ s', @Get ref_proto WireScenario.hmac (str "k") (str "........") WireScenario.opts
          (WireScenario.connected [frame (@Marshal_Message ref_proto WireScenario.reply_message) (str "value")])
        = WOk (str "value...", 5, None) s' /\ c_ConnectionID (ws_client s') = 9.
Proof.
  pose proof (get_over_wire (HP := ref_proto) (ProtoCodecLaws0 := ref_proto_laws) WireScenario.hmac
                (str "k") (str "........") WireScenario.opts
                (WireScenario.connected [frame (@Marshal_Message ref_proto WireScenario.reply_message) (str "value")])
                WireScenario.reply_message WireScenario.reply (str "value")) as H.
  destruct H as (s' & Hg & _ & Hid & _).
  - split; reflexivity.
  - split; vm_compute; reflexivity.
  - reflexivity.
  - exact WireScenario.reply_is_ok.
  - vm_compute; reflexivity.
  - vm_compute; lia.
  - exists s'. split; [exact Hg|exact Hid].
Defined.
