(* ===== verification/Wildcard.v ===== *)
(** * pkg/wildcard/match.go: matching names against wildcard patterns

    [Match] decides patterns with "*" (any run of characters) and "?" (one
    character); [MatchSimple] is meant to know "*" only.  Both turn their
    arguments into runes, as ranging over a Go string does, and call
    [deepMatchRune], whose recursion is on the pattern and, at a star, on the
    text.  A result of [None] is the panic of slicing an empty slice. *)
From S2P Require Import Prelude GoLib.

(** ** Runes: [for _, r := range s] *)
Definition runeError : N := 65533.

Definition low6 (c : ascii) : N := N.land (N_of_ascii c) 63.

Fixpoint runes (s : bytes) : list N :=
  match s with
  | [] => []
  | a :: s1 =>
      if utf8.inr a 0 127 then N_of_ascii a :: runes s1
      else match s1 with
      | [] => [runeError]
      | b :: s2 =>
          if utf8.inr a 194 223 && utf8.cont b
          then (N.land (N_of_ascii a) 31 * 64 + low6 b)%N :: runes s2
          else match s2 with
          | [] => runeError :: runes s1
          | c :: s3 =>
              if ((utf8.inr a 224 224 && utf8.inr b 160 191) || (utf8.inr a 225 236 && utf8.cont b)
                  || (utf8.inr a 237 237 && utf8.inr b 128 159) || (utf8.inr a 238 239 && utf8.cont b))
                 && utf8.cont c
              then (N.land (N_of_ascii a) 15 * 4096 + low6 b * 64 + low6 c)%N :: runes s3
              else match s3 with
              | [] => runeError :: runes s1
              | d :: s4 =>
                  if ((utf8.inr a 240 240 && utf8.inr b 144 191) || (utf8.inr a 241 243 && utf8.cont b)
                      || (utf8.inr a 244 244 && utf8.inr b 128 143)) && utf8.cont c && utf8.cont d
                  then (N.land (N_of_ascii a) 7 * 262144 + low6 b * 4096 + low6 c * 64 + low6 d)%N
                         :: runes s4
                  else runeError :: runes s1
              end
          end
      end
  end.

Definition qmark : N := 63.
Definition star : N := 42.

(** [||] and [&&] of Go over calls that may panic. *)
Definition orb_else (a : option bool) (b : option bool) : option bool :=
  match a with Some false => b | _ => a end.

Fixpoint deepMatchRune (simple : bool) (pattern : list N) (str : list N) : option bool :=
  match pattern with
  | [] => Some (bool_decide (str = []))
  | p :: pattern' =>
      if decide (p = star) then
        (fix at_star (str : list N) : option bool :=
           orb_else (deepMatchRune simple pattern' str)
             (match str with [] => Some false | _ :: str' => at_star str' end)) str
      else if decide (p = qmark) then
        match str with
        | [] => if simple then None (* str[1:] of an empty slice *) else Some false
        | _ :: str' => deepMatchRune simple pattern' str'
        end
      else
        match str with
        | [] => Some false
        | c :: str' => if decide (c = p) then deepMatchRune simple pattern' str' else Some false
        end
  end.

Definition MatchSimple (pattern name : bytes) : option bool :=
  if decide (pattern = []) then Some (bool_decide (name = pattern))
  else if decide (pattern = str "*") then Some true
  else deepMatchRune true (runes pattern) (runes name).

Definition Match (pattern name : bytes) : option bool :=
  if decide (pattern = []) then Some (bool_decide (name = pattern))
  else if decide (pattern = str "*") then Some true
  else deepMatchRune false (runes pattern) (runes name).

(** ** What a pattern means *)
Inductive wild : list N -> list N -> Prop :=
  | wild_nil : wild [] []
  | wild_star p s1 s2 : wild p s2 -> wild (star :: p) (s1 ++ s2)
  | wild_one p c s : wild p s -> wild (qmark :: p) (c :: s)
  | wild_char p c s : c <> star -> c <> qmark -> wild p s -> wild (c :: p) (c :: s).

Lemma deepMatchRune_star simple p str :
  deepMatchRune simple (star :: p) str
  = orb_else (deepMatchRune simple p str)
      (match str with [] => Some false | _ :: str' => deepMatchRune simple (star :: p) str' end).
Proof. by destruct str. Qed.

Lemma deepMatchRune_char simple c p str :
  c <> star -> c <> qmark ->
  deepMatchRune simple (c :: p) str
  = match str with
    | [] => Some false
    | d :: str' => if decide (d = c) then deepMatchRune simple p str' else Some false
    end.
Proof. intros. cbn [deepMatchRune]. by rewrite !decide_False. Qed.

Lemma orb_else_spec a b (P Q : Prop) :
  (∃ x, a = Some x /\ (x = true <-> P)) -> (∃ x, b = Some x /\ (x = true <-> Q)) ->
  ∃ x, orb_else a b = Some x /\ (x = true <-> P \/ Q).
Proof.
  intros (x & -> & Hx) (y & -> & Hy). destruct x; cbn [orb_else].
  - exists true. tauto.
  - exists y. split; [done|]. split; [tauto|]. intros [HP|]; [|tauto]. by apply Hx in HP.
Qed.

Lemma wild_star_cons p c s : wild (star :: p) (c :: s) <-> wild p (c :: s) \/ wild (star :: p) s.
Proof.
  split.
  - inversion 1 as [|p' s1 s2 Hw Ep Es| |]; subst; [|done..].
    destruct s1 as [|d s1]; cbn [app] in Es; simplify_eq; [by left|right; by constructor].
  - intros [Hw|Hw]; [by apply (wild_star p [])|].
    inversion Hw as [|p' s1 s2 Hw' Ep Es| |]; subst; [|done..].
    by apply (wild_star p (c :: s1)).
Qed.

Lemma wild_star_nil p : wild (star :: p) [] <-> wild p [].
Proof.
  split; [|intros Hw; by apply (wild_star p [])].
  inversion 1 as [|p' s1 s2 Hw Ep Es| |]; subst. by apply app_nil in Es as [-> ->].
Qed.

(** The matcher returns and decides the relation, for patterns without "?" when
    it is called for the simple ones. *)
Lemma deepMatchRune_spec simple pattern str :
  (simple = true -> qmark ∉ pattern) ->
  ∃ b, deepMatchRune simple pattern str = Some b /\ (b = true <-> wild pattern str).
Proof.
  revert str. induction pattern as [|p pattern IH]; intros str Hq.
  { eexists. split; [done|]. rewrite bool_decide_eq_true.
    split; [intros ->; constructor|by inversion 1]. }
  assert (simple = true -> qmark ∉ pattern) as Hq' by set_solver.
  destruct (decide (p = star)) as [->|Hs].
  - induction str as [|c str IHstr]; rewrite deepMatchRune_star.
    + destruct (orb_else_spec (deepMatchRune simple pattern []) (Some false)
                  (wild pattern []) False) as (x & -> & Hx);
        [by apply IH|by exists false|].
      exists x. split; [done|]. rewrite Hx, wild_star_nil. tauto.
    + edestruct (orb_else_spec (deepMatchRune simple pattern (c :: str))) as (x & -> & Hx);
        [by apply IH|exact IHstr|].
      exists x. split; [done|]. by rewrite Hx, wild_star_cons.
  - destruct (decide (p = qmark)) as [->|Hp].
    + cbn [deepMatchRune]. rewrite decide_False, decide_True by done. destruct str as [|c str].
      * destruct simple; [set_solver|]. exists false. split; [done|]. split; [done|by inversion 1].
      * destruct (IH str Hq') as (b & -> & Hb). exists b. split; [done|]. rewrite Hb.
        split; [by constructor|]. by inversion 1.
    + rewrite deepMatchRune_char by done. destruct str as [|c str].
      { exists false. split; [done|]. split; [done|]. by inversion 1. }
      destruct (decide (c = p)) as [->|Hne].
      * destruct (IH str Hq') as (b & -> & Hb). exists b. split; [done|]. rewrite Hb.
        split; [by constructor|]. by inversion 1.
      * exists false. split; [done|]. split; [done|]. by inversion 1.
Qed.

Lemma runes_star : runes (str "*") = [star].
Proof. done. Qed.

Lemma runes_nil s : runes s = [] -> s = [].
Proof.
  destruct s as [|a s]; [done|]. cbn [runes]. repeat case_match; done.
Qed.

Lemma wild_all s : wild [star] s.
Proof. rewrite <- (app_nil_r s). constructor. constructor. Qed.

Lemma Match_spec pattern name :
  ∃ b, Match pattern name = Some b /\ (b = true <-> wild (runes pattern) (runes name)).
Proof.
  unfold Match. destruct (decide (pattern = [])) as [->|].
  { eexists. split; [done|]. rewrite bool_decide_eq_true. split.
    - intros ->. constructor.
    - inversion 1 as [E1 E2| | |]. symmetry in E2. by apply runes_nil. }
  destruct (decide (pattern = str "*")) as [->|].
  { exists true. split; [done|]. split; [|done]. intros _. rewrite runes_star. apply wild_all. }
  by apply deepMatchRune_spec.
Qed.

(** The same for [MatchSimple] when the pattern has no question mark. *)
Lemma MatchSimple_spec pattern name :
  qmark ∉ runes pattern ->
  ∃ b, MatchSimple pattern name = Some b /\ (b = true <-> wild (runes pattern) (runes name)).
Proof.
  intros Hq. unfold MatchSimple. destruct (decide (pattern = [])) as [->|].
  { eexists. split; [done|]. rewrite bool_decide_eq_true. split.
    - intros ->. constructor.
    - inversion 1 as [E1 E2| | |]. symmetry in E2. by apply runes_nil. }
  destruct (decide (pattern = str "*")) as [->|].
  { exists true. split; [done|]. split; [|done]. intros _. rewrite runes_star. apply wild_all. }
  by apply deepMatchRune_spec.
Qed.

(** The two functions agree wherever the pattern has no question mark. *)
Lemma MatchSimple_Match pattern name :
  qmark ∉ runes pattern -> MatchSimple pattern name = Match pattern name.
Proof.
  intros Hq. destruct (MatchSimple_spec pattern name Hq) as (a & -> & Ha).
  destruct (Match_spec pattern name) as (b & -> & Hb).
  f_equal. destruct a, b; naive_solver.
Qed.

(** C24. [Match] returns for every pattern and name, and its answer is whether the
    runes of the name can be divided into the runs, single characters and letters
    that the stars, question marks and letters of the pattern stand for. *)
Theorem match_decides pattern name :
  ∃ b, Match pattern name = Some b /\ (b = true <-> wild (runes pattern) (runes name)).
Proof. apply Match_spec. Qed.
