(* ===== verification/Condition.v ===== *)
(** * pkg/bucket/policy/condition: the conditions of a policy statement

    A condition function tests the values of a request (a map from header and
    query names to lists of strings) under a key.  A Go map used as a set is
    the list of its elements in the order an iteration visits them.  A result
    of [None] is a panic: of taking the first of no values, and of a source
    address that does not parse.  The address types of package net and
    [strings.EqualFold] are parameters. *)
From S2P Require Import Prelude GoLib IncStr GoText Wildcard.

(** ** key.go and jwt.go *)
Definition S3XAmzCopySource : bytes := str "s3:x-amz-copy-source".
Definition S3XAmzServerSideEncryption : bytes := str "s3:x-amz-server-side-encryption".
Definition S3XAmzServerSideEncryptionCustomerAlgorithm : bytes :=
  str "s3:x-amz-server-side-encryption-customer-algorithm".
Definition S3XAmzMetadataDirective : bytes := str "s3:x-amz-metadata-directive".
Definition S3XAmzStorageClass : bytes := str "s3:x-amz-storage-class".
Definition S3LocationConstraint : bytes := str "s3:LocationConstraint".
Definition S3Prefix : bytes := str "s3:prefix".
Definition S3Delimiter : bytes := str "s3:delimiter".
Definition S3MaxKeys : bytes := str "s3:max-keys".
Definition AWSReferer : bytes := str "aws:Referer".
Definition AWSSourceIP : bytes := str "aws:SourceIp".
Definition AWSUserAgent : bytes := str "aws:UserAgent".
Definition AWSSecureTransport : bytes := str "aws:SecureTransport".
Definition AWSCurrentTime : bytes := str "aws:CurrentTime".
Definition AWSEpochTime : bytes := str "aws:EpochTime".
Definition AWSPrincipalType : bytes := str "aws:principaltype".
Definition AWSUserID : bytes := str "aws:userid".
Definition AWSUsername : bytes := str "aws:username".

Definition JWTKeys : list bytes :=
  [str "jwt:sub"; str "jwt:iss"; str "jwt:aud"; str "jwt:jti"; str "jwt:name";
   str "jwt:given_name"; str "jwt:family_name"; str "jwt:middle_name"; str "jwt:nickname";
   str "jwt:preferred_username"; str "jwt:profile"; str "jwt:picture"; str "jwt:website";
   str "jwt:email"; str "jwt:gender"; str "jwt:birthdate"; str "jwt:phone_number";
   str "jwt:address"; str "jwt:scope"; str "jwt:client_id"].

Definition CommonKeys : list bytes :=
  [AWSReferer; AWSSourceIP; AWSUserAgent; AWSSecureTransport; AWSCurrentTime; AWSEpochTime;
   AWSPrincipalType; AWSUserID; AWSUsername] ++ JWTKeys.

Definition AllSupportedKeys : list bytes :=
  [S3XAmzCopySource; S3XAmzServerSideEncryption; S3XAmzServerSideEncryptionCustomerAlgorithm;
   S3XAmzMetadataDirective; S3XAmzStorageClass; S3LocationConstraint; S3Prefix; S3Delimiter;
   S3MaxKeys; AWSReferer; AWSSourceIP; AWSUserAgent; AWSSecureTransport; AWSCurrentTime;
   AWSEpochTime; AWSPrincipalType; AWSUserID; AWSUsername] ++ JWTKeys.

Definition Key_IsValid (key : bytes) : bool := existsb (λ k, bool_decide (k = key)) AllSupportedKeys.
Definition VarName (key : bytes) : bytes := str "${" ++ key ++ str "}".
Definition Key_Name (key : bytes) : bytes :=
  if HasPrefix key (str "aws:") then TrimPrefix key (str "aws:")
  else if HasPrefix key (str "jwt:") then TrimPrefix key (str "jwt:")
  else TrimPrefix key (str "s3:").

(** The values of a request. *)
Abbreviation values := (gmap bytes (list bytes)).

(** The substitution of policy variables, as [substFuncFromValues] and
    [Resource.Match] do it: the keys in order, each by the first of its values
    unless that is empty. *)
Fixpoint subst_keys (keys : list bytes) (vals : values) (v : bytes) : option bytes :=
  match keys with
  | [] => Some v
  | key :: keys' =>
      match vals !! Key_Name key with
      | None => subst_keys keys' vals v
      | Some [] => None
      | Some (r :: _) =>
          subst_keys keys' vals (if decide (r = []) then v else Replace v (VarName key) r)
      end
  end.
Definition substFuncFromValues (vals : values) (v : bytes) : option bytes :=
  subst_keys CommonKeys vals v.

(** The values a function looks at: under the canonical header name, else under
    the name itself. *)
Definition request_value (k : bytes) (vals : values) : list bytes :=
  match vals !! CanonicalHeaderKey (Key_Name k) with
  | Some r => r
  | None => default [] (vals !! Key_Name k)
  end.

Class PolicyEnv := {
  EqualFold : bytes -> bytes -> bool;
  IP : Type;
  IPNet : Type;
  ParseIP : bytes -> option IP;
  IPNet_Contains : IPNet -> IP -> bool;
  IPNet_String : IPNet -> bytes }.

Section condition.
Context `{PolicyEnv}.

(** ** The condition functions *)
Inductive Function : Type :=
  | stringEqualsFunc (k : bytes) (vs : list bytes)
  | stringNotEqualsFunc (k : bytes) (vs : list bytes)
  | stringEqualsIgnoreCaseFunc (k : bytes) (vs : list bytes)
  | stringNotEqualsIgnoreCaseFunc (k : bytes) (vs : list bytes)
  | binaryEqualsFunc (k : bytes) (vs : list bytes)
  | stringLikeFunc (k : bytes) (vs : list bytes)
  | stringNotLikeFunc (k : bytes) (vs : list bytes)
  | ipAddressFunc (k : bytes) (nets : list IPNet)
  | notIPAddressFunc (k : bytes) (nets : list IPNet)
  | nullFunc (k : bytes) (value : bool)
  | booleanFunc (k : bytes) (value : bytes).

(** [wildcard.Match] always returns. *)
Definition matches (pattern name : bytes) : bool := bool_decide (Match pattern name = Some true).

(** What the string functions share: some value of the request is related to
    some value of the condition after substitution. *)
Definition evaluate_string (rel : bytes -> bytes -> bool) (k : bytes) (vs : list bytes) (vals : values)
  : option bool :=
  fvalues ← mapM (substFuncFromValues vals) vs;
  Some (existsb (λ v, existsb (λ f, rel f v) fvalues) (request_value k vals)).

(** The intersection with the request's values is not empty. *)
Definition string_eq (f v : bytes) : bool := bool_decide (f = v).

Definition stringEqualsFunc_evaluate (k : bytes) (vs : list bytes) (vals : values) : option bool :=
  evaluate_string string_eq k vs vals.
Definition stringNotEqualsFunc_evaluate (k : bytes) (vs : list bytes) (vals : values) : option bool :=
  negb <$> stringEqualsFunc_evaluate k vs vals.
Definition stringEqualsIgnoreCaseFunc_evaluate (k : bytes) (vs : list bytes) (vals : values) : option bool :=
  evaluate_string EqualFold k vs vals.
Definition stringNotEqualsIgnoreCaseFunc_evaluate (k : bytes) (vs : list bytes) (vals : values)
  : option bool := negb <$> stringEqualsIgnoreCaseFunc_evaluate k vs vals.
Definition binaryEqualsFunc_evaluate (k : bytes) (vs : list bytes) (vals : values) : option bool :=
  evaluate_string string_eq k vs vals.
Definition stringLikeFunc_evaluate (k : bytes) (vs : list bytes) (vals : values) : option bool :=
  evaluate_string matches k vs vals.
Definition stringNotLikeFunc_evaluate (k : bytes) (vs : list bytes) (vals : values) : option bool :=
  negb <$> stringLikeFunc_evaluate k vs vals.

(** The addresses are parsed first, and one that does not parse is a panic. *)
Definition ipAddressFunc_evaluate (k : bytes) (nets : list IPNet) (vals : values) : option bool :=
  IPs ← mapM ParseIP (request_value k vals);
  Some (existsb (λ ip, existsb (λ net, IPNet_Contains net ip) nets) IPs).
Definition notIPAddressFunc_evaluate (k : bytes) (nets : list IPNet) (vals : values) : option bool :=
  negb <$> ipAddressFunc_evaluate k nets vals.

Definition nullFunc_evaluate (k : bytes) (value : bool) (vals : values) : option bool :=
  Some (if value then bool_decide (request_value k vals = [])
        else bool_decide (request_value k vals <> [])).

(** [requestValue[0]] is a panic when there is no value. *)
Definition booleanFunc_evaluate (k : bytes) (value : bytes) (vals : values) : option bool :=
  match request_value k vals with
  | [] => None
  | r :: _ => Some (bool_decide (value = r))
  end.

Definition evaluate (f : Function) : values -> option bool :=
  match f with
  | stringEqualsFunc k vs => stringEqualsFunc_evaluate k vs
  | stringNotEqualsFunc k vs => stringNotEqualsFunc_evaluate k vs
  | stringEqualsIgnoreCaseFunc k vs => stringEqualsIgnoreCaseFunc_evaluate k vs
  | stringNotEqualsIgnoreCaseFunc k vs => stringNotEqualsIgnoreCaseFunc_evaluate k vs
  | binaryEqualsFunc k vs => binaryEqualsFunc_evaluate k vs
  | stringLikeFunc k vs => stringLikeFunc_evaluate k vs
  | stringNotLikeFunc k vs => stringNotLikeFunc_evaluate k vs
  | ipAddressFunc k nets => ipAddressFunc_evaluate k nets
  | notIPAddressFunc k nets => notIPAddressFunc_evaluate k nets
  | nullFunc k value => nullFunc_evaluate k value
  | booleanFunc k value => booleanFunc_evaluate k value
  end.

Definition func_key (f : Function) : bytes :=
  match f with
  | stringEqualsFunc k _ | stringNotEqualsFunc k _ | stringEqualsIgnoreCaseFunc k _
  | stringNotEqualsIgnoreCaseFunc k _ | binaryEqualsFunc k _ | stringLikeFunc k _
  | stringNotLikeFunc k _ | ipAddressFunc k _ | notIPAddressFunc k _ | nullFunc k _
  | booleanFunc k _ => k
  end.

Definition func_name (f : Function) : bytes :=
  match f with
  | stringEqualsFunc _ _ => str "StringEquals"
  | stringNotEqualsFunc _ _ => str "StringNotEquals"
  | stringEqualsIgnoreCaseFunc _ _ => str "StringEqualsIgnoreCase"
  | stringNotEqualsIgnoreCaseFunc _ _ => str "StringNotEqualsIgnoreCase"
  | binaryEqualsFunc _ _ => str "BinaryEquals"
  | stringLikeFunc _ _ => str "StringLike"
  | stringNotLikeFunc _ _ => str "StringNotLike"
  | ipAddressFunc _ _ => str "IpAddress"
  | notIPAddressFunc _ _ => str "NotIpAddress"
  | nullFunc _ _ => str "Null"
  | booleanFunc _ _ => str "Bool"
  end.

Definition toStringFuncString (n key : bytes) (vs : list bytes) : bytes :=
  n ++ str ":" ++ key ++ str ":" ++ print_strings (sort_Strings vs).
Definition toIPAddressFuncString (n key : bytes) (nets : list IPNet) : bytes :=
  n ++ str ":" ++ key ++ str ":" ++ print_strings (sort_Strings (IPNet_String <$> nets)).

(** [String] of a function: its name, its key and its values, sorted. *)
Definition func_String (f : Function) : bytes :=
  match f with
  | stringEqualsFunc k vs | stringNotEqualsFunc k vs | stringEqualsIgnoreCaseFunc k vs
  | stringNotEqualsIgnoreCaseFunc k vs | binaryEqualsFunc k vs | stringLikeFunc k vs
  | stringNotLikeFunc k vs => toStringFuncString (func_name f) k vs
  | ipAddressFunc k nets | notIPAddressFunc k nets => toIPAddressFuncString (func_name f) k nets
  | nullFunc k value =>
      func_name f ++ str ":" ++ k ++ str ":" ++ (if value then str "true" else str "false")
  | booleanFunc k value => func_name f ++ str ":" ++ k ++ str ":" ++ value
  end.

(** ** func.go: lists of functions *)
Fixpoint Evaluate (fs : list Function) (vals : values) : option bool :=
  match fs with
  | [] => Some true
  | f :: fs' =>
      b ← evaluate f vals;
      if (b : bool) then Evaluate fs' vals else Some false
  end.

Definition Functions_Keys (fs : list Function) : gset bytes := list_to_set (func_key <$> fs).
Definition Functions_String (fs : list Function) : bytes :=
  print_strings (sort_Strings (func_String <$> fs)).

(** ** Properties *)

(** When no condition panics, all of them decide, in any order. *)
Lemma Evaluate_total fs vals :
  Forall (λ f, is_Some (evaluate f vals)) fs ->
  Evaluate fs vals = Some (bool_decide (Forall (λ f, evaluate f vals = Some true) fs)).
Proof.
  induction 1 as [|f fs [b Hf] Hfs IH]; [done|]. cbn [Evaluate]. rewrite Hf. cbn [mbind option_bind].
  destruct b.
  - rewrite IH. f_equal. apply bool_decide_ext. rewrite Forall_cons. naive_solver.
  - symmetry. f_equal. apply bool_decide_eq_false. rewrite Forall_cons. naive_solver.
Qed.

(** The keys and lists of the request give a value for every variable. *)
Definition no_empty_lists (vals : values) : Prop := ∀ k l, vals !! k = Some l -> l <> [].

Lemma subst_keys_total keys vals v : no_empty_lists vals -> is_Some (subst_keys keys vals v).
Proof.
  intros Hne. revert v. induction keys as [|key keys IH]; intros v; cbn [subst_keys]; [done|].
  destruct (vals !! Key_Name key) as [[|r l]|] eqn:E; [by apply Hne in E|apply IH..].
Qed.

Lemma evaluate_string_total rel k vs vals :
  no_empty_lists vals -> is_Some (evaluate_string rel k vs vals).
Proof.
  intros Hne. unfold evaluate_string.
  assert (is_Some (mapM (substFuncFromValues vals) vs)) as [l ->]; [|done].
  apply mapM_is_Some. apply Forall_forall. intros v _. by apply subst_keys_total.
Qed.

(** What a request needs so that no condition panics: no empty list of values,
    an address that parses where one is asked for, and a value for a Bool
    condition. *)
Definition answers (f : Function) (vals : values) : Prop :=
  match f with
  | ipAddressFunc k _ | notIPAddressFunc k _ =>
      Forall (λ s, is_Some (ParseIP s)) (request_value k vals)
  | booleanFunc k _ => request_value k vals <> []
  | _ => True
  end.

Lemma evaluate_total f vals : no_empty_lists vals -> answers f vals -> is_Some (evaluate f vals).
Proof.
  intros Hne Ha.
  destruct f; cbn [evaluate answers] in *;
    unfold stringNotEqualsFunc_evaluate, stringNotEqualsIgnoreCaseFunc_evaluate,
      stringNotLikeFunc_evaluate, notIPAddressFunc_evaluate; rewrite ?fmap_is_Some;
    try (by apply evaluate_string_total); unfold ipAddressFunc_evaluate;
    try (apply mapM_is_Some in Ha as [l ->]; done); [done|].
  unfold booleanFunc_evaluate. destruct (request_value k vals); done.
Qed.

End condition.
