(* ===== verification/Policy.v ===== *)
(** * pkg/bucket/policy: bucket policies

    Statements allow or deny actions on resources to principals under
    conditions; [Policy.IsAllowed] decides a request.  [None] is a panic of a
    condition or of the matcher of principals.  Go maps used as sets are lists
    in the order of iteration; [policy_decision] shows that this order and the
    order of the statements do not matter.  Of an error of the validity checks
    the model keeps which check failed, not its text. *)
From S2P Require Import Prelude GoLib IncStr GoText Wildcard Condition.

(** ** effect.go *)
Definition Allow : bytes := str "Allow".
Definition Deny : bytes := str "Deny".
Definition Effect_IsAllowed (effect : bytes) (b : bool) : bool :=
  if decide (effect = Allow) then b else negb b.
Definition Effect_IsValid (effect : bytes) : bool :=
  bool_decide (effect = Allow) || bool_decide (effect = Deny).

(** ** action.go *)
Definition AbortMultipartUploadAction := str "s3:AbortMultipartUpload".
Definition CreateBucketAction := str "s3:CreateBucket".
Definition DeleteBucketAction := str "s3:DeleteBucket".
Definition DeleteBucketPolicyAction := str "s3:DeleteBucketPolicy".
Definition DeleteObjectAction := str "s3:DeleteObject".
Definition GetBucketLocationAction := str "s3:GetBucketLocation".
Definition GetBucketNotificationAction := str "s3:GetBucketNotification".
Definition GetBucketPolicyAction := str "s3:GetBucketPolicy".
Definition GetObjectAction := str "s3:GetObject".
Definition HeadBucketAction := str "s3:HeadBucket".
Definition ListAllMyBucketsAction := str "s3:ListAllMyBuckets".
Definition ListBucketAction := str "s3:ListBucket".
Definition ListBucketMultipartUploadsAction := str "s3:ListBucketMultipartUploads".
Definition ListenBucketNotificationAction := str "s3:ListenBucketNotification".
Definition ListMultipartUploadPartsAction := str "s3:ListMultipartUploadParts".
Definition PutBucketNotificationAction := str "s3:PutBucketNotification".
Definition PutBucketPolicyAction := str "s3:PutBucketPolicy".
Definition PutObjectAction := str "s3:PutObject".
Definition PutBucketLifecycleAction := str "s3:PutLifecycleConfiguration".
Definition GetBucketLifecycleAction := str "s3:GetLifecycleConfiguration".
Definition BypassGovernanceModeAction := str "s3:BypassGovernanceMode".
Definition BypassGovernanceRetentionAction := str "s3:BypassGovernanceRetention".
Definition PutObjectRetentionAction := str "s3:PutObjectRetention".
Definition GetObjectRetentionAction := str "s3:GetObjectRetention".
Definition GetObjectLegalHoldAction := str "s3:GetObjectLegalHold".
Definition PutObjectLegalHoldAction := str "s3:PutObjectLegalHold".
Definition GetBucketObjectLockConfigurationAction := str "s3:GetBucketObjectLockConfiguration".
Definition PutBucketObjectLockConfigurationAction := str "s3:PutBucketObjectLockConfiguration".
Definition GetObjectTaggingAction := str "s3:GetObjectTagging".
Definition PutObjectTaggingAction := str "s3:PutObjectTagging".
Definition DeleteObjectTaggingAction := str "s3:DeleteObjectTagging".
Definition PutBucketEncryptionAction := str "s3:PutEncryptionConfiguration".
Definition GetBucketEncryptionAction := str "s3:GetEncryptionConfiguration".

Definition supportedObjectActions : list bytes :=
  [AbortMultipartUploadAction; DeleteObjectAction; GetObjectAction; ListMultipartUploadPartsAction;
   PutObjectAction; BypassGovernanceModeAction; BypassGovernanceRetentionAction;
   PutObjectRetentionAction; GetObjectRetentionAction; PutObjectLegalHoldAction;
   GetObjectLegalHoldAction; GetObjectTaggingAction; PutObjectTaggingAction;
   DeleteObjectTaggingAction].

Definition supportedActions : list bytes :=
  [AbortMultipartUploadAction; CreateBucketAction; DeleteBucketAction; DeleteBucketPolicyAction;
   DeleteObjectAction; GetBucketLocationAction; GetBucketNotificationAction;
   GetBucketPolicyAction; GetObjectAction; HeadBucketAction; ListAllMyBucketsAction;
   ListBucketAction; ListBucketMultipartUploadsAction; ListenBucketNotificationAction;
   ListMultipartUploadPartsAction; PutBucketNotificationAction; PutBucketPolicyAction;
   PutObjectAction; GetBucketLifecycleAction; PutBucketLifecycleAction; PutObjectRetentionAction;
   GetObjectRetentionAction; GetObjectLegalHoldAction; PutObjectLegalHoldAction;
   PutBucketObjectLockConfigurationAction; GetBucketObjectLockConfigurationAction;
   BypassGovernanceModeAction; BypassGovernanceRetentionAction; GetObjectTaggingAction;
   PutObjectTaggingAction; DeleteObjectTaggingAction; PutBucketEncryptionAction;
   GetBucketEncryptionAction].

Definition isObjectAction (action : bytes) : bool := bool_decide (action ∈ supportedObjectActions).
Definition Action_IsValid (action : bytes) : bool := bool_decide (action ∈ supportedActions).

(** [parseAction]: the action, and whether it is one. *)
Definition parseAction (s : bytes) : bytes * bool := (s, Action_IsValid s).

(** [actionConditionKeyMap]; an action that is not in the map has no keys. *)
Definition common_only : list bytes :=
  [AbortMultipartUploadAction; CreateBucketAction; DeleteObjectAction; GetBucketLocationAction;
   HeadBucketAction; ListAllMyBucketsAction; ListBucketMultipartUploadsAction;
   ListMultipartUploadPartsAction; PutObjectRetentionAction; GetObjectRetentionAction;
   BypassGovernanceModeAction; BypassGovernanceRetentionAction; PutObjectLegalHoldAction;
   GetObjectLegalHoldAction; GetBucketObjectLockConfigurationAction;
   PutBucketObjectLockConfigurationAction; PutObjectTaggingAction; GetObjectTaggingAction;
   DeleteObjectTaggingAction].

Definition actionConditionKeyMap (action : bytes) : gset bytes :=
  if decide (action ∈ common_only) then list_to_set CommonKeys
  else if decide (action = GetObjectAction) then
    list_to_set ([S3XAmzServerSideEncryption; S3XAmzServerSideEncryptionCustomerAlgorithm;
                  S3XAmzStorageClass] ++ CommonKeys)
  else if decide (action = ListBucketAction) then
    list_to_set ([S3Prefix; S3Delimiter; S3MaxKeys] ++ CommonKeys)
  else if decide (action = PutObjectAction) then
    list_to_set ([S3XAmzCopySource; S3XAmzServerSideEncryption;
                  S3XAmzServerSideEncryptionCustomerAlgorithm; S3XAmzMetadataDirective;
                  S3XAmzStorageClass] ++ CommonKeys)
  else ∅.

(** ** resource.go and resourceset.go *)
Record Resource := mkResource { BucketName : bytes; Pattern : bytes }.
#[export] Instance Resource_eq_dec : EqDecision Resource.
Proof. solve_decision. Defined.

Inductive policy_error : Type :=
  | invalidVersion | invalidEffect | invalidPrincipal | emptyActions | emptyResources
  | unsupportedResource (action : bytes) | unsupportedKeys (action : bytes)
  | duplicateStatements | invalidResource | bucketMismatch | invalidResourceFormat.

Definition ResourceARNPrefix : bytes := str "arn:aws:s3:::".

Definition isBucketPattern (r : Resource) : bool := negb (bool_decide ("/"%char ∈ Pattern r)).
Definition isObjectPattern (r : Resource) : bool :=
  bool_decide ("/"%char ∈ Pattern r) || bool_decide ("*"%char ∈ BucketName r).
Definition Resource_IsValid (r : Resource) : bool :=
  bool_decide (BucketName r <> []) && bool_decide (Pattern r <> []).
Definition Resource_Match (r : Resource) (resource : bytes) (vals : values) : option bool :=
  pattern ← subst_keys CommonKeys vals (Pattern r); Some (matches pattern resource).
Definition Resource_String (r : Resource) : bytes := ResourceARNPrefix ++ Pattern r.
Definition Resource_Validate (r : Resource) (bucketName : bytes) : option policy_error :=
  if negb (Resource_IsValid r) then Some invalidResource
  else if negb (matches (BucketName r) bucketName) then Some bucketMismatch
  else None.

(** [strings.SplitN(pattern, "/", 2)[0]] *)
Definition before_slash (pattern : bytes) : bytes :=
  default [] (head (Split pattern "/"%char)).

Definition parseResource (s : bytes) : Resource + policy_error :=
  if negb (HasPrefix s ResourceARNPrefix) then inr invalidResource
  else
    let pattern := TrimPrefix s ResourceARNPrefix in
    let bucketName := before_slash pattern in
    if decide (bucketName = []) then inr invalidResourceFormat
    else inl (mkResource bucketName pattern).

Definition NewResource (bucketName keyName : bytes) : Resource :=
  mkResource bucketName
    (if decide (keyName = []) then bucketName
     else if HasPrefix keyName (str "/") then bucketName ++ keyName
     else bucketName ++ str "/" ++ keyName).

(** Iteration over a set with an early return; a panic ends it. *)
Fixpoint any_match {A} (f : A -> option bool) (l : list A) : option bool :=
  match l with
  | [] => Some false
  | x :: l' => b ← f x; if (b : bool) then Some true else any_match f l'
  end.

Definition ResourceSet_Match (rs : list Resource) (resource : bytes) (vals : values) : option bool :=
  any_match (λ r, Resource_Match r resource vals) rs.
Definition bucketResourceExists (rs : list Resource) : bool := existsb isBucketPattern rs.
Definition objectResourceExists (rs : list Resource) : bool := existsb isObjectPattern rs.
Fixpoint ResourceSet_Validate (rs : list Resource) (bucketName : bytes) : option policy_error :=
  match rs with
  | [] => None
  | r :: rs' =>
      match Resource_Validate r bucketName with
      | Some e => Some e
      | None => ResourceSet_Validate rs' bucketName
      end
  end.

(** [Equals] of two sets. *)
Definition set_Equals {A} `{EqDecision A} (l1 l2 : list A) : bool :=
  bool_decide (length l1 = length l2) && forallb (λ x, bool_decide (x ∈ l2)) l1.

(** ** principal.go *)
Definition Principal_IsValid (aws : list bytes) : bool := bool_decide (aws <> []).
Definition Principal_Match (aws : list bytes) (principal : bytes) : option bool :=
  any_match (λ pattern, MatchSimple pattern principal) aws.

Section policy.
Context `{PolicyEnv}.

(** ** statement.go *)
Record Args := mkArgs {
  AccountName : bytes;
  args_Action : bytes;
  args_BucketName : bytes;
  ConditionValues : values;
  IsOwner : bool;
  ObjectName : bytes }.

Record Statement := mkStatement {
  SID : bytes;
  st_Effect : bytes;
  st_Principal : list bytes;
  st_Actions : list bytes;
  st_Resources : list Resource;
  st_Conditions : list Function }.

(** The resource a request names. *)
Definition args_resource (args : Args) : bytes :=
  if decide (ObjectName args = []) then args_BucketName args
  else if HasPrefix (ObjectName args) (str "/") then args_BucketName args ++ ObjectName args
  else args_BucketName args ++ str "/" ++ ObjectName args.

(** The closure [check] of [Statement.IsAllowed]. *)
Definition statement_check (s : Statement) (args : Args) : option bool :=
  p ← Principal_Match (st_Principal s) (AccountName args);
  if negb p then Some false
  else if negb (bool_decide (args_Action args ∈ st_Actions s)) then Some false
  else
    r ← ResourceSet_Match (st_Resources s) (args_resource args) (ConditionValues args);
    if negb r then Some false else Evaluate (st_Conditions s) (ConditionValues args).

Definition Statement_IsAllowed (s : Statement) (args : Args) : option bool :=
  b ← statement_check s args; Some (Effect_IsAllowed (st_Effect s) b).

(** One action of the loop of [Statement.isValid]. *)
Definition action_supported (s : Statement) (action : bytes) : option policy_error :=
  if (if isObjectAction action then negb (objectResourceExists (st_Resources s))
      else negb (bucketResourceExists (st_Resources s)))
  then Some (unsupportedResource action)
  else if decide (Functions_Keys (st_Conditions s) ∖ actionConditionKeyMap action = ∅) then None
  else Some (unsupportedKeys action).

Definition first_error {A} (f : A -> option policy_error) (l : list A) : option policy_error :=
  foldr (λ x acc, match f x with Some e => Some e | None => acc end) None l.

Definition Statement_isValid (s : Statement) : option policy_error :=
  if negb (Effect_IsValid (st_Effect s)) then Some invalidEffect
  else if negb (Principal_IsValid (st_Principal s)) then Some invalidPrincipal
  else if decide (st_Actions s = []) then Some emptyActions
  else if decide (st_Resources s = []) then Some emptyResources
  else first_error (action_supported s) (st_Actions s).

Definition Statement_Validate (s : Statement) (bucketName : bytes) : option policy_error :=
  match Statement_isValid s with
  | Some e => Some e
  | None => ResourceSet_Validate (st_Resources s) bucketName
  end.

(** ** policy.go *)
Record Policy := mkPolicy { policy_ID : bytes; policy_Version : bytes; Statements : list Statement }.

Definition DefaultVersion : bytes := str "2012-10-17".

(** The first loop of [Policy.IsAllowed]: [Some false] when a statement denies. *)
Fixpoint none_denies (ss : list Statement) (args : Args) : option bool :=
  match ss with
  | [] => Some true
  | s :: ss' =>
      if decide (st_Effect s = Deny) then
        b ← Statement_IsAllowed s args;
        if negb b then Some false else none_denies ss' args
      else none_denies ss' args
  end.

(** The second loop: [Some true] when a statement allows. *)
Fixpoint some_allows (ss : list Statement) (args : Args) : option bool :=
  match ss with
  | [] => Some false
  | s :: ss' =>
      if decide (st_Effect s = Allow) then
        b ← Statement_IsAllowed s args;
        if (b : bool) then Some true else some_allows ss' args
      else some_allows ss' args
  end.

Definition Policy_IsAllowed (p : Policy) (args : Args) : option bool :=
  ok ← none_denies (Statements p) args;
  if negb ok then Some false
  else if IsOwner args then Some true
  else some_allows (Statements p) args.

(** Two statements the policy counts as the same. *)
Definition same_statement (s1 s2 : Statement) : bool :=
  bool_decide (st_Effect s1 = st_Effect s2)
  && set_Equals (st_Principal s1) (st_Principal s2)
  && set_Equals (st_Actions s1) (st_Actions s2)
  && set_Equals (st_Resources s1) (st_Resources s2)
  && bool_decide (Functions_String (st_Conditions s1) = Functions_String (st_Conditions s2)).

Fixpoint has_duplicate (ss : list Statement) : bool :=
  match ss with
  | [] => false
  | s :: ss' => existsb (same_statement s) ss' || has_duplicate ss'
  end.

Definition Policy_isValid (p : Policy) : option policy_error :=
  if negb (bool_decide (policy_Version p = DefaultVersion))
     && negb (bool_decide (policy_Version p = []))
  then Some invalidVersion
  else match first_error Statement_isValid (Statements p) with
       | Some e => Some e
       | None => if has_duplicate (Statements p) then Some duplicateStatements else None
       end.

Definition Policy_Validate (p : Policy) (bucketName : bytes) : option policy_error :=
  match Policy_isValid p with
  | Some e => Some e
  | None => first_error (λ s, Statement_Validate s bucketName) (Statements p)
  end.

(** ** The meaning of a policy *)

(** The request is in the scope of the statement. *)
Definition applies (s : Statement) (args : Args) : Prop :=
  (∃ pat, pat ∈ st_Principal s /\ wild (runes pat) (runes (AccountName args))) /\
  args_Action args ∈ st_Actions s /\
  (∃ r pat, r ∈ st_Resources s /\ subst_keys CommonKeys (ConditionValues args) (Pattern r) = Some pat /\
     wild (runes pat) (runes (args_resource args))) /\
  Forall (λ f, evaluate f (ConditionValues args) = Some true) (st_Conditions s).

(** The request and the statement do not make the code panic. *)
Definition well_posed (s : Statement) (args : Args) : Prop :=
  Forall (λ pat, qmark ∉ runes pat) (st_Principal s) /\
  no_empty_lists (ConditionValues args) /\
  Forall (λ f, answers f (ConditionValues args)) (st_Conditions s).

Lemma any_match_spec {A} (f : A -> option bool) (P : A -> Prop) l :
  Forall (λ x, ∃ b, f x = Some b /\ (b = true <-> P x)) l ->
  ∃ b, any_match f l = Some b /\ (b = true <-> ∃ x, x ∈ l /\ P x).
Proof.
  induction 1 as [|x l (b & Hb & HP) Hl (b' & IH & HP')].
  { exists false. split; [done|]. split; [done|]. intros (x & Hx & _). by apply elem_of_nil in Hx. }
  cbn [any_match]. rewrite Hb. cbn [mbind option_bind]. destruct b.
  - exists true. split; [done|]. split; [|done]. intros _. exists x. split; [set_solver|tauto].
  - exists b'. split; [done|]. rewrite HP'. split.
    + intros (y & Hy & ?). exists y. split; [set_solver|done].
    + intros (y & Hy & Py). exists y. split; [|done]. apply elem_of_cons in Hy as [->|]; [|done].
      apply HP in Py. done.
Qed.

Lemma matches_spec pattern name : matches pattern name = true <-> wild (runes pattern) (runes name).
Proof.
  unfold matches. rewrite bool_decide_eq_true. destruct (Match_spec pattern name) as (b & -> & <-).
  split; [by intros [= ->]|by intros ->].
Qed.

Lemma statement_check_spec s args :
  well_posed s args ->
  ∃ b, statement_check s args = Some b /\ (b = true <-> applies s args).
Proof.
  intros (Hp & Hne & Hc). unfold statement_check, applies.
  destruct (any_match_spec (λ pat, MatchSimple pat (AccountName args))
              (λ pat, wild (runes pat) (runes (AccountName args))) (st_Principal s)) as (p & Ep & HP).
  { eapply Forall_impl; [exact Hp|]. intros pat. apply MatchSimple_spec. }
  unfold Principal_Match. rewrite Ep. cbn [mbind option_bind].
  destruct p; cbn [negb];
    [|exists false; split; [done|]; split; [done|]; intros (Hx & _); by apply HP in Hx].
  case_bool_decide as Ha; cbn [negb];
    [|exists false; split; [done|]; split; [done|]; by intros (_ & Hx & _)].
  destruct (any_match_spec (λ r, Resource_Match r (args_resource args) (ConditionValues args))
              (λ r, ∃ pat, subst_keys CommonKeys (ConditionValues args) (Pattern r) = Some pat /\
                 wild (runes pat) (runes (args_resource args))) (st_Resources s)) as (r & Er & HR).
  { apply Forall_forall. intros r _. unfold Resource_Match.
    destruct (subst_keys_total CommonKeys (ConditionValues args) (Pattern r) Hne) as [pat ->].
    eexists. split; [done|]. rewrite matches_spec.
    split; [intros Hw; by exists pat|by intros (pat' & [= <-] & Hw)]. }
  unfold ResourceSet_Match. rewrite Er. cbn [mbind option_bind].
  destruct r; cbn [negb].
  2:{ exists false. split; [done|]. split; [done|]. intros (_ & _ & (r & pat & Hr & Hx) & _).
      apply HR. exists r. split; [done|]. by exists pat. }
  rewrite Evaluate_total.
  - eexists. split; [done|]. rewrite bool_decide_eq_true. split; [|tauto]. intros HE.
    split; [by apply HP|]. split; [done|]. split; [|done].
    destruct (proj1 HR eq_refl) as (r & Hr & pat & Hx). by exists r, pat.
  - eapply Forall_impl; [exact Hc|]. intros f. by apply evaluate_total.
Qed.

Lemma none_denies_spec ss args :
  Forall (λ s, well_posed s args) ss ->
  ∃ b, none_denies ss args = Some b /\
    (b = true <-> ∀ s, s ∈ ss -> st_Effect s = Deny -> ~ applies s args).
Proof.
  induction 1 as [|s ss Hs Hss (b & IH & HB)]; cbn [none_denies].
  { exists true. split; [done|]. split; [|done]. intros _ s Hs. by apply elem_of_nil in Hs. }
  case_decide as E; [|exists b; split; [done|]; rewrite HB; set_solver].
  unfold Statement_IsAllowed. destruct (statement_check_spec s args Hs) as (c & -> & HC).
  cbn [mbind option_bind]. unfold Effect_IsAllowed. rewrite E, decide_False by done.
  destruct c; cbn [negb].
  - exists false. split; [done|]. split; [done|]. intros HH. exfalso. apply (HH s); [set_solver|done|tauto].
  - exists b. split; [done|]. rewrite HB. split; [|set_solver].
    intros HH s' [->|]%elem_of_cons; [naive_solver|auto].
Qed.

Lemma some_allows_spec ss args :
  Forall (λ s, well_posed s args) ss ->
  ∃ b, some_allows ss args = Some b /\
    (b = true <-> ∃ s, s ∈ ss /\ st_Effect s = Allow /\ applies s args).
Proof.
  induction 1 as [|s ss Hs Hss (b & IH & HB)]; cbn [some_allows].
  { exists false. split; [done|]. split; [done|]. intros (s & Hs & _). by apply elem_of_nil in Hs. }
  case_decide as E; [|exists b; split; [done|]; rewrite HB; set_solver].
  unfold Statement_IsAllowed. destruct (statement_check_spec s args Hs) as (c & -> & HC).
  cbn [mbind option_bind]. unfold Effect_IsAllowed. rewrite E, decide_True by done.
  destruct c.
  - exists true. split; [done|]. split; [|done]. intros _. exists s. split; [set_solver|tauto].
  - exists b. split; [done|]. rewrite HB. split; [set_solver|].
    intros (s' & [->|]%elem_of_cons & ? & ?); naive_solver.
Qed.

(** C20. A policy allows a request exactly when no Deny statement applies to it and
    the caller is the owner or some Allow statement applies, where a statement
    applies when a principal pattern, the action, a resource pattern after the
    substitution of the request's variables and all its conditions fit. *)
Theorem policy_decision p args :
  Forall (λ s, well_posed s args) (Statements p) ->
  ∃ b, Policy_IsAllowed p args = Some b /\
    (b = true <->
       (∀ s, s ∈ Statements p -> st_Effect s = Deny -> ~ applies s args) /\
       (IsOwner args = true \/ ∃ s, s ∈ Statements p /\ st_Effect s = Allow /\ applies s args)).
Proof.
  intros Hp. unfold Policy_IsAllowed.
  destruct (none_denies_spec _ args Hp) as (d & -> & HD). cbn [mbind option_bind].
  destruct d; cbn [negb]; [|exists false; naive_solver].
  destruct (IsOwner args); [exists true; naive_solver|].
  destruct (some_allows_spec _ args Hp) as (a & -> & HA). exists a. naive_solver.
Qed.

End policy.

(** Printing a resource and parsing it gives it back, for the resources that
    [NewResource] makes of a bucket name without a slash. *)
Theorem resource_roundtrip bucketName keyName :
  bucketName <> [] -> "/"%char ∉ bucketName ->
  parseResource (Resource_String (NewResource bucketName keyName)) = inl (NewResource bucketName keyName).
Proof.
  intros Hne Hs. unfold parseResource, Resource_String. rewrite HasPrefix_app. cbn [negb].
  unfold TrimPrefix. rewrite HasPrefix_app, drop_app_length.
  assert (before_slash (Pattern (NewResource bucketName keyName)) = bucketName) as ->.
  { unfold NewResource, before_slash. cbn [Pattern].
    repeat case_decide; subst; [by rewrite Split_no_sep|].
    destruct (HasPrefix keyName (str "/")) eqn:E.
    - apply HasPrefix_spec in E as [k ->]. change (str "/" ++ k) with ("/"%char :: k).
      by rewrite Split_app_sep.
    - change (str "/" ++ keyName) with ("/"%char :: keyName). by rewrite Split_app_sep. }
  rewrite decide_False by done. done.
Qed.

(** ** A policy to evaluate *)
Module PolicyScenario.
#[export] Instance env : PolicyEnv := {|
  EqualFold a b := bool_decide (to_lower <$> a = to_lower <$> b);
  IP := bytes; IPNet := bytes; ParseIP s := if decide (s = []) then None else Some s;
  IPNet_Contains net ip := HasPrefix ip net; IPNet_String net := net |}.

Definition readers : Statement :=
  mkStatement [] Allow [str "*"] [GetObjectAction] [NewResource (str "docs") (str "${aws:username}/*")]
    [ipAddressFunc AWSSourceIP [str "10.0."]].
Definition protect : Statement :=
  mkStatement [] Deny [str "*"] [GetObjectAction] [NewResource (str "docs") (str "*.key")] [].
Definition docs_policy : Policy := mkPolicy [] DefaultVersion [readers; protect].

Definition request (object : bytes) : Args :=
  mkArgs (str "ann") GetObjectAction (str "docs")
    (<[str "SourceIp" := [str "10.0.0.7"]]> {[ str "username" := [str "ann"] ]}) false object.

Lemma posed object : Forall (λ s, well_posed s (request object)) (Statements docs_policy).
Proof.
  assert (no_empty_lists (ConditionValues (request object))) as Hne.
  { intros k l. cbn [ConditionValues request]. rewrite lookup_insert_Some, lookup_singleton_Some.
    naive_solver. }
  repeat constructor; try done; try apply (bool_decide_unpack _); by vm_compute.
Qed.

(** The reader gets his own documents, but not his keys. *)
Example own_document : Policy_IsAllowed docs_policy (request (str "ann/letter")) = Some true.
Proof. vm_compute. reflexivity. Qed.
Example own_key : Policy_IsAllowed docs_policy (request (str "ann/my.key")) = Some false.
Proof. vm_compute. reflexivity. Qed.
Example valid : Policy_Validate docs_policy (str "docs") = None.
Proof. vm_compute. reflexivity. Qed.
End PolicyScenario.

Lemma policy_decision_witness :
  ∃ b, Policy_IsAllowed PolicyScenario.docs_policy (PolicyScenario.request (str "ann/letter")) = Some b /\
    (b = true ->
     ~ applies PolicyScenario.protect (PolicyScenario.request (str "ann/letter"))).
Proof.
  destruct (policy_decision PolicyScenario.docs_policy (PolicyScenario.request (str "ann/letter"))
              (PolicyScenario.posed _)) as (b & Hb & HB).
  exists b. split; [exact Hb|]. intros Ht. apply (proj1 HB Ht); [|reflexivity].
  right. left.
Defined.

