(* ===== verification/Locker.v ===== *)
(** * cmd/local-locker.go: the lock server of one node

    A [localLocker] keeps, per resource, the list of the requests that hold a
    lock on it: one writer or any number of readers.  Every operation runs under
    the locker's mutex and is one function here.  A Go [error] is kept as a flag.

    [locker_wf] is the invariant of the map; [locker_refines] shows that the server
    answers every sequence of calls like a table of writers and readers. *)
From S2P Require Import Prelude GoLib Metadata.

Record lockRequesterInfo := mkLRI {
  Writer : bool;
  UID : bytes;
  Timestamp : time;
  TimeLastCheck : time;
  Source : bytes }.

Abbreviation lock_map := (gmap bytes (list lockRequesterInfo)).

(** dsync.LockArgs *)
Record LockArgs := mkLockArgs { la_UID : bytes; Resources : list bytes; la_Source : bytes }.

Definition isWriteLock (lri : list lockRequesterInfo) : bool :=
  match lri with [e] => Writer e | _ => false end.

Definition entries (l : lock_map) (r : bytes) : list lockRequesterInfo := default [] (l !! r).

Definition canTakeUnlock (l : lock_map) (resources : list bytes) : bool :=
  bool_decide (length (filter (λ r, isWriteLock (entries l r) = true) resources) = length resources).

Definition canTakeLock (l : lock_map) (resources : list bytes) : bool :=
  bool_decide (length (filter (λ r, l !! r = None) resources) = length resources).

Definition writer_entry (args : LockArgs) (now : time) : lockRequesterInfo :=
  mkLRI true (la_UID args) now now (la_Source args).
Definition reader_entry (args : LockArgs) (now : time) : lockRequesterInfo :=
  mkLRI false (la_UID args) now now (la_Source args).

(** [Lock]: the reply and the new map. *)
Definition locker_Lock (l : lock_map) (args : LockArgs) (now : time) : bool * lock_map :=
  if negb (canTakeLock l (Resources args)) then (false, l)
  else (true, foldl (λ l r, <[r := [writer_entry args now]]> l) l (Resources args)).

(** The list without its first entry with the given UID; [None] when it has none. *)
Fixpoint remove_uid (uid : bytes) (lri : list lockRequesterInfo) : option (list lockRequesterInfo) :=
  match lri with
  | [] => None
  | e :: lri' => if decide (UID e = uid) then Some lri' else (e ::.) <$> remove_uid uid lri'
  end.

Definition removeEntry (l : lock_map) (name uid : bytes) (lri : list lockRequesterInfo)
  : bool * lock_map :=
  match remove_uid uid lri with
  | None => (false, l)
  | Some lri' => (true, if decide (length lri = 1%nat) then delete name l else <[name := lri']> l)
  end.

(** The loop of [Unlock]: it stops at the first resource it cannot release. *)
Fixpoint unlock_loop (l : lock_map) (uid : bytes) (resources : list bytes) : bool * lock_map :=
  match resources with
  | [] => (true, l)
  | r :: rs =>
      let '(ok, l') := removeEntry l r uid (entries l r) in
      if ok then unlock_loop l' uid rs else (false, l')
  end.

(** [Unlock]: the reply, whether an error is returned, and the new map. *)
Definition locker_Unlock (l : lock_map) (args : LockArgs) : bool * bool * lock_map :=
  if negb (canTakeUnlock l (Resources args)) then (false, true, l)
  else let '(ok, l') := unlock_loop l (la_UID args) (Resources args) in (ok, negb ok, l').

(** [RLock] and [RUnlock] use the first resource; [None] is the panic of taking
    the first of none. *)
Definition locker_RLock (l : lock_map) (args : LockArgs) (now : time) : option (bool * lock_map) :=
  resource ← head (Resources args);
  match l !! resource with
  | Some lri =>
      if isWriteLock lri then Some (false, l)
      else Some (true, <[resource := lri ++ [reader_entry args now]]> l)
  | None => Some (true, <[resource := [reader_entry args now]]> l)
  end.

Definition locker_RUnlock (l : lock_map) (args : LockArgs) : option (bool * bool * lock_map) :=
  resource ← head (Resources args);
  match l !! resource with
  | None => Some (false, true, l)
  | Some lri =>
      if isWriteLock lri then Some (false, true, l)
      else let '(ok, l') := removeEntry l resource (la_UID args) lri in Some (ok, negb ok, l')
  end.

Definition DupLockMap (l : lock_map) : lock_map := l.

Definition locker_Expired (l : lock_map) (args : LockArgs) : bool :=
  negb (existsb (λ r, existsb (λ e, bool_decide (UID e = la_UID args)) (entries l r))
          (Resources args)).

Definition removeEntryIfExists (l : lock_map) (name uid : bytes) : lock_map :=
  match l !! name with
  | Some lri => (removeEntry l name uid lri).2
  | None => l
  end.

Definition newLocker : lock_map := ∅.

(** ** The invariant *)
Definition lri_wf (lri : list lockRequesterInfo) : Prop :=
  (∃ e, lri = [e] /\ Writer e = true) \/ (lri <> [] /\ Forall (λ e, Writer e = false) lri).

Definition locker_wf (l : lock_map) : Prop := map_Forall (λ _, lri_wf) l.

(** The number of entries of a request on a resource, as a writer and as a
    reader. *)
Definition holds_as (w : bool) (l : lock_map) (uid r : bytes) : nat :=
  length (filter (λ e, Writer e = w /\ UID e = uid) (entries l r)).

Lemma lri_wf_read lri : lri_wf lri -> isWriteLock lri = false -> Forall (λ e, Writer e = false) lri.
Proof. intros [(e & -> & He)|[_ H]]; [cbn; congruence|done]. Qed.

Lemma lri_wf_write lri : isWriteLock lri = true -> ∃ e, lri = [e] /\ Writer e = true.
Proof. destruct lri as [|e [|]]; cbn; [done| |done]. eauto. Qed.

Lemma remove_uid_Some uid lri lri' :
  remove_uid uid lri = Some lri' ->
  ∃ l1 e l2, lri = l1 ++ e :: l2 /\ lri' = l1 ++ l2 /\ UID e = uid.
Proof.
  revert lri'. induction lri as [|e lri IH]; intros lri'; cbn [remove_uid]; [done|].
  case_decide as E.
  - intros [= <-]. by exists [], e, lri.
  - intros (l & Hl & ->)%fmap_Some. destruct (IH l Hl) as (l1 & e' & l2 & -> & -> & ?).
    by exists (e :: l1), e', l2.
Qed.

Lemma removeEntry_wf l name uid lri :
  locker_wf l -> l !! name = Some lri -> locker_wf (removeEntry l name uid lri).2.
Proof.
  intros Hl Hn. unfold removeEntry. destruct (remove_uid uid lri) as [lri'|] eqn:E; [|done].
  cbn [snd]. case_decide as Hlen; [by apply map_Forall_delete|].
  apply map_Forall_insert_2; [|done]. apply remove_uid_Some in E as (l1 & e & l2 & -> & -> & _).
  rewrite length_app in Hlen. cbn [length] in Hlen.
  destruct (Hl _ _ Hn) as [(e' & E' & _)|[_ Hf]].
  - apply (f_equal length) in E'. rewrite length_app in E'. cbn in E'. lia.
  - right. split.
    + intros E'. apply (f_equal length) in E'. rewrite length_app in E'. cbn in E'. lia.
    + apply Forall_app in Hf as [? Hf]. inversion_clear Hf. by apply Forall_app.
Qed.

Lemma removeEntry_entries_wf l name uid :
  locker_wf l -> locker_wf (removeEntry l name uid (entries l name)).2.
Proof.
  intros Hl. unfold entries. destruct (l !! name) as [lri|] eqn:E; [by apply removeEntry_wf|done].
Qed.

Lemma unlock_loop_wf l uid rs : locker_wf l -> locker_wf (unlock_loop l uid rs).2.
Proof.
  revert l. induction rs as [|r rs IH]; intros l Hl; [done|]. cbn [unlock_loop].
  pose proof (removeEntry_entries_wf l r uid Hl) as Hl'.
  destruct (removeEntry l r uid (entries l r)) as [[|] l'] eqn:E; cbn [snd] in *; [by apply IH|done].
Qed.

Lemma locker_Lock_wf l args now : locker_wf l -> locker_wf (locker_Lock l args now).2.
Proof.
  intros Hl. unfold locker_Lock. destruct (negb _); [done|]. cbn [snd].
  revert l Hl. induction (Resources args) as [|r rs IH]; intros l Hl; [done|]. cbn [foldl].
  apply IH. apply map_Forall_insert_2; [|done]. left. eauto.
Qed.

Lemma locker_Unlock_wf l args : locker_wf l -> locker_wf (locker_Unlock l args).2.
Proof.
  intros Hl. unfold locker_Unlock. destruct (negb _); [done|].
  pose proof (unlock_loop_wf l (la_UID args) (Resources args) Hl) as H.
  by destruct (unlock_loop _ _ _).
Qed.

Lemma locker_RLock_wf l args now b l' :
  locker_wf l -> locker_RLock l args now = Some (b, l') -> locker_wf l'.
Proof.
  intros Hl. unfold locker_RLock. destruct (head (Resources args)) as [r|]; [|done].
  cbn [mbind option_bind]. destruct (l !! r) as [lri|] eqn:E.
  - destruct (isWriteLock lri) eqn:Ew; intros [= <- <-]; [done|].
    apply map_Forall_insert_2; [|done]. right. split; [by destruct lri|].
    apply Forall_app. split; [|by repeat constructor]. eapply lri_wf_read; [|done]. by apply (Hl r).
  - intros [= <- <-]. apply map_Forall_insert_2; [|done]. right. split; [done|by repeat constructor].
Qed.

Lemma locker_RUnlock_wf l args b e l' :
  locker_wf l -> locker_RUnlock l args = Some (b, e, l') -> locker_wf l'.
Proof.
  intros Hl. unfold locker_RUnlock. destruct (head (Resources args)) as [r|]; [|done].
  cbn [mbind option_bind]. destruct (l !! r) as [lri|] eqn:E; [|by intros [= <- <- <-]].
  destruct (isWriteLock lri); [by intros [= <- <- <-]|].
  pose proof (removeEntry_wf l r (la_UID args) lri Hl E) as H.
  destruct (removeEntry _ _ _ _) as [ok l'']. by intros [= <- <- <-].
Qed.

(** ** What the operations do to the entries *)
Lemma filter_none (P : lockRequesterInfo -> Prop) `{!∀ x, Decision (P x)} (lri : list lockRequesterInfo) :
  Forall (λ e, ~ P e) lri -> filter P lri = [].
Proof. induction 1; [done|]. by rewrite filter_cons_False. Qed.

Lemma entries_insert l r x r' : entries (<[r := x]> l) r' = if decide (r' = r) then x else entries l r'.
Proof.
  unfold entries. destruct (decide (r' = r)) as [->|]; [by rewrite lookup_insert_eq|].
  by rewrite lookup_insert_ne by congruence.
Qed.

Lemma removeEntry_entries l name uid r :
  entries (removeEntry l name uid (entries l name)).2 r
  = if decide (r = name) then default (entries l name) (remove_uid uid (entries l name))
    else entries l r.
Proof.
  unfold removeEntry. destruct (remove_uid uid (entries l name)) as [lri'|] eqn:E; cbn [snd from_option id].
  - case_decide as Hlen.
    + apply remove_uid_Some in E as (l1 & e & l2 & E & -> & _). rewrite E, length_app in Hlen.
      cbn [length] in Hlen. destruct l1, l2; cbn [length] in Hlen; try lia. unfold entries.
      case_decide; subst; [by rewrite lookup_delete_eq|by rewrite lookup_delete_ne].
    + by rewrite entries_insert.
  - by case_decide; subst.
Qed.

(** Removing an entry of a request takes one of its entries on that resource and
    no other. *)
Lemma removeEntry_holds l name uid w uid' r :
  let l' := (removeEntry l name uid (entries l name)).2 in
  holds_as w l' uid' r = holds_as w l uid' r \/
  (r = name /\ uid' = uid /\ S (holds_as w l' uid' r) = holds_as w l uid' r).
Proof.
  cbv zeta. unfold holds_as. rewrite removeEntry_entries.
  destruct (decide (r = name)) as [->|]; [|by left].
  destruct (remove_uid uid (entries l name)) as [lri'|] eqn:E; [|by left]. cbn [from_option id].
  apply remove_uid_Some in E as (l1 & e & l2 & -> & -> & Hu).
  rewrite !filter_app, !length_app, filter_cons. case_decide as Hd; [|by left].
  right. cbn [length]. split; [done|]. split; [naive_solver|lia].
Qed.

Lemma canTakeLock_true l rs : canTakeLock l rs = true <-> ∀ r, r ∈ rs -> l !! r = None.
Proof.
  unfold canTakeLock. rewrite bool_decide_eq_true. split.
  - intros H r Hr. apply dec_stable. intros Hne.
    pose proof (length_filter_lt (λ r, l !! r = None) rs r Hr Hne). lia.
  - intros H. f_equal. apply filter_all. by apply Forall_forall.
Qed.

Lemma canTakeUnlock_true l rs :
  canTakeUnlock l rs = true <-> ∀ r, r ∈ rs -> isWriteLock (entries l r) = true.
Proof.
  unfold canTakeUnlock. rewrite bool_decide_eq_true. split.
  - intros H r Hr. apply dec_stable. intros Hne.
    pose proof (length_filter_lt (λ r, isWriteLock (entries l r) = true) rs r Hr Hne). lia.
  - intros H. f_equal. apply filter_all. by apply Forall_forall.
Qed.

Lemma lock_fold_entries l rs x r :
  entries (foldl (λ l r, <[r := x]> l) l rs) r = if decide (r ∈ rs) then x else entries l r.
Proof.
  revert l. induction rs as [|r' rs IH]; intros l; cbn [foldl].
  { by rewrite decide_False by apply not_elem_of_nil. }
  rewrite IH, entries_insert. repeat case_decide; set_solver.
Qed.

(** A granted write lock: every resource was free and has the entry of the
    request now. *)
Lemma locker_Lock_granted l args now l' :
  locker_Lock l args now = (true, l') ->
  (∀ r, r ∈ Resources args -> entries l r = []) /\
  ∀ r, entries l' r = if decide (r ∈ Resources args) then [writer_entry args now] else entries l r.
Proof.
  unfold locker_Lock. destruct (canTakeLock l (Resources args)) eqn:E; cbn [negb]; [|done].
  intros [= <-]. split; [|intros r; apply lock_fold_entries].
  intros r Hr. apply canTakeLock_true with (r := r) in E; [|done]. unfold entries. by rewrite E.
Qed.

Lemma locker_Lock_refused l args now l' : locker_Lock l args now = (false, l') -> l' = l.
Proof. unfold locker_Lock. by destruct (negb _); intros [= <-]. Qed.

(** Releasing a write lock takes writer entries of the request only, on its
    resources only. *)
Lemma unlock_loop_holds l uid rs w uid' r :
  locker_wf l -> (∀ r, r ∈ rs -> isWriteLock (entries l r) = true \/ entries l r = []) ->
  (holds_as w (unlock_loop l uid rs).2 uid' r <= holds_as w l uid' r)%nat /\
  (w = false \/ uid' <> uid \/ r ∉ rs ->
   holds_as w (unlock_loop l uid rs).2 uid' r = holds_as w l uid' r).
Proof.
  revert l. induction rs as [|r0 rs IH]; intros l Hl Hw; cbn [unlock_loop]; [done|].
  pose proof (removeEntry_holds l r0 uid w uid' r) as Hr. cbv zeta in Hr.
  pose proof (removeEntry_entries_wf l r0 uid Hl) as Hwf.
  assert (∀ x, x ∈ rs -> isWriteLock (entries (removeEntry l r0 uid (entries l r0)).2 x) = true \/
            entries (removeEntry l r0 uid (entries l r0)).2 x = []) as Hw'.
  { intros x Hx. rewrite removeEntry_entries. destruct (decide (x = r0)) as [->|]; [|set_solver].
    destruct (remove_uid uid (entries l r0)) as [lri'|] eqn:E; [|set_solver]. cbn [from_option id]. right.
    apply remove_uid_Some in E as (l1 & e & l2 & E & -> & _).
    destruct (Hw r0) as [HH|HH]; [set_solver|apply lri_wf_write in HH as (e' & HH & _)|];
      rewrite E in HH; apply (f_equal length) in HH; rewrite length_app in HH; cbn in HH;
      destruct l1, l2; cbn in HH; lia || done. }
  assert (w = false -> holds_as w l uid' r0 = 0%nat) as Hz.
  { intros ->. unfold holds_as. destruct (Hw r0) as [HH| ->]; [set_solver| |done].
    apply lri_wf_write in HH as (e & -> & He). rewrite filter_cons_False; [done|]. naive_solver congruence. }
  destruct (removeEntry l r0 uid (entries l r0)) as [[|] l1] eqn:E; cbn [snd] in *.
  - destruct (IH l1 Hwf Hw') as [H1 H2]. split; [destruct Hr as [<-|(-> & -> & <-)]; lia|].
    intros Hc. rewrite H2 by set_solver. destruct Hr as [->|(-> & -> & Hr)]; [done|].
    destruct Hc as [Hc|[Hc|Hc]]; [|done|set_solver]. rewrite Hz in Hr by done. lia.
  - destruct Hr as [->|(-> & -> & Hr)]; [done|]. split; [lia|].
    intros [Hc|[Hc|Hc]]; [|done|set_solver]. rewrite Hz in Hr by done. lia.
Qed.

Lemma locker_Unlock_holds l args w uid' r :
  locker_wf l ->
  (holds_as w (locker_Unlock l args).2 uid' r <= holds_as w l uid' r)%nat /\
  (w = false \/ uid' <> la_UID args \/ r ∉ Resources args ->
   holds_as w (locker_Unlock l args).2 uid' r = holds_as w l uid' r).
Proof.
  intros Hl. unfold locker_Unlock. destruct (canTakeUnlock l (Resources args)) eqn:E; cbn [negb]; [|done].
  pose proof (unlock_loop_holds l (la_UID args) (Resources args) w uid' r Hl) as H.
  destruct (unlock_loop _ _ _). cbn [snd] in *. apply H.
  intros x Hx. left. by eapply canTakeUnlock_true.
Qed.

(** A granted read lock adds one reader entry of the request. *)
Lemma locker_RLock_holds l args now b l' w uid r :
  locker_RLock l args now = Some (b, l') ->
  holds_as w l' uid r
  = (holds_as w l uid r +
       (if decide (b = true /\ w = false /\ uid = la_UID args /\ head (Resources args) = Some r)
        then 1 else 0))%nat.
Proof.
  unfold locker_RLock. destruct (head (Resources args)) as [r0|]; [|done]. cbn [mbind option_bind].
  assert (∀ x, l' = <[r0 := entries l r0 ++ [reader_entry args now]]> l -> x = true -> b = x ->
    holds_as w l' uid r = (holds_as w l uid r +
       (if decide (b = true /\ w = false /\ uid = la_UID args /\ Some r0 = Some r) then 1 else 0))%nat) as Hgo.
  { intros x -> -> ->. unfold holds_as. rewrite entries_insert.
    destruct (decide (r = r0)) as [->|]; [|rewrite (decide_False (P := _ /\ _)); [lia|naive_solver]].
    rewrite filter_app, length_app, filter_cons. cbn [Writer UID reader_entry].
    destruct (decide (false = w /\ la_UID args = uid)) as [[<- <-]|Hn].
    - rewrite decide_True by done. cbn. lia.
    - rewrite decide_False by naive_solver. cbn. lia. }
  unfold entries in Hgo. destruct (l !! r0) as [lri|]; [destruct (isWriteLock lri)|].
  - intros [= <- <-]. rewrite decide_False by naive_solver. lia.
  - intros [= <- <-]. by apply (Hgo true).
  - intros [= <- <-]. by apply (Hgo true).
Qed.

(** Releasing a read lock takes at most one reader entry of the request. *)
Lemma locker_RUnlock_holds l args b e l' w uid r :
  locker_wf l -> locker_RUnlock l args = Some (b, e, l') ->
  holds_as w l' uid r = holds_as w l uid r \/
  (w = false /\ uid = la_UID args /\ head (Resources args) = Some r /\
   S (holds_as w l' uid r) = holds_as w l uid r).
Proof.
  intros Hl. unfold locker_RUnlock. destruct (head (Resources args)) as [r0|]; [|done].
  cbn [mbind option_bind]. destruct (l !! r0) as [lri|] eqn:E; [|by intros [= <- <- <-]; left].
  destruct (isWriteLock lri) eqn:Ew; [by intros [= <- <- <-]; left|].
  assert (entries l r0 = lri) as Hlri by (unfold entries; by rewrite E).
  pose proof (removeEntry_holds l r0 (la_UID args) w uid r) as Hr. cbv zeta in Hr. rewrite Hlri in Hr.
  destruct (removeEntry l r0 (la_UID args) lri) as [ok l'']. intros [= <- <- <-]. cbn [snd] in Hr.
  destruct Hr as [Hr|(-> & -> & Hr)]; [by left|]. right. split; [|done].
  pose proof (lri_wf_read lri (Hl _ _ E) Ew) as Hf. destruct w; [|done].
  exfalso. revert Hr. unfold holds_as at 2. rewrite Hlri, filter_none by
    (eapply Forall_impl; [exact Hf|]; naive_solver congruence). cbn. lia.
Qed.

(** A resource has at most one writer. *)
Lemma one_writer l uid1 uid2 r :
  locker_wf l -> (0 < holds_as true l uid1 r)%nat ->
  (uid1 <> uid2 -> holds_as true l uid2 r = 0%nat) /\
  holds_as false l uid2 r = 0%nat /\ holds_as true l uid1 r = 1%nat.
Proof.
  intros Hl. unfold holds_as, entries. destruct (l !! r) as [lri|] eqn:E; cbn [from_option id]; [|cbn; lia].
  destruct (Hl _ _ E) as [(e & -> & He)|[_ Hf]].
  - rewrite !filter_cons. rewrite He. cbn.
    repeat case_decide; cbn; intros; split_and!; try lia; naive_solver.
  - rewrite filter_none; [cbn; lia|]. eapply Forall_impl; [exact Hf|]. naive_solver congruence.
Qed.

Module LockTable.
(** ** The abstract lock table

    A resource is free, or held by one writer, or by readers, of which the table
    keeps the identifiers in the order in which they came.  A free resource is
    not in the table. *)
Inductive holder := Writing (uid : bytes) | Reading (uids : list bytes).
#[export] Instance holder_eq_dec : EqDecision holder.
Proof. solve_decision. Defined.
Abbreviation table := (gmap bytes holder).

Definition is_writing (h : option holder) : bool := match h with Some (Writing _) => true | _ => false end.

(** A write lock is granted on all the resources or on none. *)
Definition spec_Lock (t : table) (uid : bytes) (rs : list bytes) : bool * table :=
  if decide (Forall (λ r, t !! r = None) rs) then (true, foldl (λ t r, <[r := Writing uid]> t) t rs) else (false, t).

(** Its release needs a writer on each resource; it frees the resources in their
    order and stops at the first one that this request does not hold. *)
Fixpoint spec_release (t : table) (uid : bytes) (rs : list bytes) : bool * table :=
  match rs with
  | [] => (true, t)
  | r :: rs' => if decide (t !! r = Some (Writing uid)) then spec_release (delete r t) uid rs' else (false, t)
  end.
Definition spec_Unlock (t : table) (uid : bytes) (rs : list bytes) : bool * table :=
  if decide (Forall (λ r, is_writing (t !! r) = true) rs) then spec_release t uid rs else (false, t).

(** A read lock is granted unless there is a writer. *)
Definition spec_RLock (t : table) (uid r : bytes) : bool * table :=
  match t !! r with
  | Some (Writing _) => (false, t)
  | Some (Reading us) => (true, <[r := Reading (us ++ [uid])]> t)
  | None => (true, <[r := Reading [uid]]> t)
  end.

(** Its release takes away one reader; the last one frees the resource. *)
Fixpoint remove_one (uid : bytes) (us : list bytes) : list bytes :=
  match us with [] => [] | u :: us' => if decide (u = uid) then us' else u :: remove_one uid us' end.
Definition spec_leave (t : table) (uid r : bytes) (us : list bytes) : table :=
  if decide (us = [uid]) then delete r t else <[r := Reading (remove_one uid us)]> t.
Definition spec_RUnlock (t : table) (uid r : bytes) : bool * table :=
  match t !! r with
  | Some (Reading us) => if decide (uid ∈ us) then (true, spec_leave t uid r us) else (false, t)
  | _ => (false, t)
  end.

Definition spec_holds (t : table) (uid r : bytes) : bool :=
  match t !! r with
  | Some (Writing u) => bool_decide (u = uid)
  | Some (Reading us) => bool_decide (uid ∈ us)
  | None => false
  end.

(** An entry that has expired is taken away whatever kind of lock it is. *)
Definition spec_remove (t : table) (uid r : bytes) : table :=
  match t !! r with
  | Some (Writing u) => if decide (u = uid) then delete r t else t
  | Some (Reading us) => if decide (uid ∈ us) then spec_leave t uid r us else t
  | None => t
  end.

(** *** Calls

    The calls that a lock server serves, in the code and in the table: the answer,
    [None] when it panics, and the state afterwards. *)
Inductive call :=
  | CLock (args : LockArgs) (now : time)
  | CUnlock (args : LockArgs)
  | CRLock (args : LockArgs) (now : time)
  | CRUnlock (args : LockArgs)
  | CExpired (args : LockArgs)
  | CRemove (name uid : bytes).

(** The answer to a call: the reply, and whether an error comes with it. *)
Definition serve (l : lock_map) (c : call) : option (bool * bool) * lock_map :=
  match c with
  | CLock args now => let '(b, l') := locker_Lock l args now in (Some (b, false), l')
  | CUnlock args => let '(b, e, l') := locker_Unlock l args in (Some (b, e), l')
  | CRLock args now =>
      match locker_RLock l args now with Some (b, l') => (Some (b, false), l') | None => (None, l) end
  | CRUnlock args =>
      match locker_RUnlock l args with Some (b, e, l') => (Some (b, e), l') | None => (None, l) end
  | CExpired args => (Some (locker_Expired l args, false), l)
  | CRemove name uid => (Some (true, false), removeEntryIfExists l name uid)
  end.

Definition spec_serve (t : table) (c : call) : option (bool * bool) * table :=
  match c with
  | CLock args _ => let '(b, t') := spec_Lock t (la_UID args) (Resources args) in (Some (b, false), t')
  | CUnlock args => let '(b, t') := spec_Unlock t (la_UID args) (Resources args) in (Some (b, negb b), t')
  | CRLock args _ =>
      match Resources args with
      | r :: _ => let '(b, t') := spec_RLock t (la_UID args) r in (Some (b, false), t')
      | [] => (None, t)
      end
  | CRUnlock args =>
      match Resources args with
      | r :: _ => let '(b, t') := spec_RUnlock t (la_UID args) r in (Some (b, negb b), t')
      | [] => (None, t)
      end
  | CExpired args => (Some (negb (existsb (spec_holds t (la_UID args)) (Resources args)), false), t)
  | CRemove name uid => (Some (true, false), spec_remove t uid name)
  end.

(** The answers to a sequence of calls and the state after them. *)
Fixpoint serve_all {S} (step : S -> call -> option (bool * bool) * S) (s : S) (cs : list call)
  : list (option (bool * bool)) * S :=
  match cs with
  | [] => ([], s)
  | c :: cs' => let '(a, s1) := step s c in let '(l, s2) := serve_all step s1 cs' in (a :: l, s2)
  end.

(** *** The table of a server *)
Definition holder_of (lri : list lockRequesterInfo) : holder :=
  match lri with
  | [e] => if Writer e then Writing (UID e) else Reading [UID e]
  | _ => Reading (UID <$> lri)
  end.
Definition abs (l : lock_map) : table := holder_of <$> l.

Lemma abs_lookup l r : abs l !! r = holder_of <$> l !! r.
Proof. apply lookup_fmap. Qed.

Lemma holder_readers lri : lri <> [] -> isWriteLock lri = false -> holder_of lri = Reading (UID <$> lri).
Proof. destruct lri as [|e [|]]; [done| |done]. cbn. by intros _ ->. Qed.

Lemma isWriteLock_abs lri : isWriteLock lri = is_writing (Some (holder_of lri)).
Proof. destruct lri as [|e [|]]; [done| |done]. cbn. by destruct (Writer e). Qed.

Lemma isWriteLock_entries l r : isWriteLock (entries l r) = is_writing (abs l !! r).
Proof.
  rewrite abs_lookup. unfold entries. destruct (l !! r) as [lri|]; [|done]. cbn [from_option id fmap option_fmap option_map].
  apply isWriteLock_abs.
Qed.

(** Every entry of a well-formed table is a writer or a list of readers. *)
Lemma locker_wf_cases l r lri :
  locker_wf l -> l !! r = Some lri ->
  (∃ e, lri = [e] /\ isWriteLock lri = true /\ holder_of lri = Writing (UID e)) \/
  (lri <> [] /\ isWriteLock lri = false /\ holder_of lri = Reading (UID <$> lri)).
Proof.
  intros Hl E. destruct (Hl r lri E) as [(e & -> & He)|[Hne Hf]].
  - left. exists e. cbn. by rewrite He.
  - right. assert (isWriteLock lri = false) as Hw.
    { destruct lri as [|e [|]]; [done| |done]. apply Forall_cons in Hf as [Hf _]. done. }
    split_and!; [done|done|by apply holder_readers].
Qed.

Lemma remove_uid_None uid lri : remove_uid uid lri = None <-> uid ∉ (UID <$> lri).
Proof.
  induction lri as [|e lri IH]; cbn; [set_solver|]. case_decide as E.
  - split; [done|]. subst. set_solver.
  - rewrite fmap_None, IH. set_solver.
Qed.

Lemma remove_uid_readers uid lri lri' :
  remove_uid uid lri = Some lri' -> UID <$> lri' = remove_one uid (UID <$> lri).
Proof.
  revert lri'. induction lri as [|e lri IH]; intros lri'; cbn; [done|]. case_decide as E.
  - intros [= <-]. done.
  - intros (x & Hx & ->)%fmap_Some. cbn. by rewrite (IH x Hx).
Qed.

Lemma removeEntry_writer l r uid e :
  abs (removeEntry l r uid [e]).2 = (if decide (UID e = uid) then delete r (abs l) else abs l) /\
  (removeEntry l r uid [e]).1 = bool_decide (UID e = uid).
Proof.
  unfold removeEntry. cbn. case_decide as E; cbn.
  - split; [by apply fmap_delete|]. by rewrite bool_decide_eq_true_2.
  - split; [done|]. by rewrite bool_decide_eq_false_2.
Qed.

Lemma removeEntry_readers l r uid lri :
  locker_wf l -> l !! r = Some lri -> isWriteLock lri = false ->
  abs (removeEntry l r uid lri).2
    = (if decide (uid ∈ (UID <$> lri)) then spec_leave (abs l) uid r (UID <$> lri) else abs l) /\
  (removeEntry l r uid lri).1 = bool_decide (uid ∈ (UID <$> lri)).
Proof.
  intros Hl E Hw. pose proof (removeEntry_wf l r uid lri Hl E) as Hwf. unfold removeEntry in *.
  destruct (remove_uid uid lri) as [lri'|] eqn:Er.
  - assert (uid ∈ (UID <$> lri)) as Hin by (apply dec_stable; intros ?%remove_uid_None; congruence).
    rewrite (decide_True (P := uid ∈ _)), (bool_decide_eq_true_2 (uid ∈ _)) by done. split; [|done]. cbn [snd] in *. unfold spec_leave.
    pose proof (remove_uid_readers _ _ _ Er) as Hus. pose proof (remove_uid_Some _ _ _ Er) as (l1 & e & l2 & -> & -> & Hu).
    destruct (decide (length (l1 ++ e :: l2) = 1%nat)) as [Hlen|Hlen].
    + destruct l1 as [|? [|]], l2; cbn in Hlen; try lia. cbn. rewrite decide_True by by rewrite Hu.
      apply fmap_delete.
    + rewrite decide_False.
      2: { intros HH. apply (f_equal length) in HH. rewrite length_fmap in HH. done. }
      rewrite <- Hus. unfold abs. rewrite fmap_insert. f_equal. apply holder_readers.
      * intros HH. rewrite length_app in Hlen. cbn in Hlen. apply (f_equal length) in HH. rewrite length_app in HH. cbn in HH. lia.
      * specialize (Hwf r _ (lookup_insert_eq _ _ _)) as [(e' & HH & He')|[_ Hf]].
        -- exfalso. destruct (Hl r _ E) as [(e2 & HH2 & He2)|[_ Hf]].
           { rewrite HH2 in Hw. cbn in Hw. congruence. }
           apply Forall_app in Hf as [Hf1 Hf2]. apply Forall_cons in Hf2 as [_ Hf2].
           assert (Forall (λ e, Writer e = false) (l1 ++ l2)) as Hf by by apply Forall_app.
           rewrite HH in Hf. apply Forall_cons in Hf as [Hf _]. congruence.
        -- destruct (l1 ++ l2) as [|x [|]]; [done| |done]. apply Forall_cons in Hf as [Hf _]. done.
  - apply remove_uid_None in Er. by rewrite decide_False, bool_decide_eq_false_2.
Qed.

(** *** Each call *)
Lemma abs_fold l uid rs e :
  Writer e = true -> UID e = uid ->
  abs (foldl (λ l r, <[r := [e]]> l) l rs) = foldl (λ t r, <[r := Writing uid]> t) (abs l) rs.
Proof.
  intros Hw Hu. revert l. induction rs as [|r rs IH]; intros l; [done|]. cbn [foldl]. rewrite IH.
  unfold abs. rewrite fmap_insert. cbn. by rewrite Hw, Hu.
Qed.

(** The call has the answer of the table and its effect, and keeps the map well formed. *)
Definition agrees (l : lock_map) (c : call) : Prop :=
  (serve l c).1 = (spec_serve (abs l) c).1 /\ abs (serve l c).2 = (spec_serve (abs l) c).2 /\ locker_wf (serve l c).2.

Lemma agrees_Lock l args now : locker_wf l -> agrees l (CLock args now).
Proof.
  intros Hl. pose proof (locker_Lock_wf l args now Hl) as Hwf. unfold agrees. cbn. unfold locker_Lock, spec_Lock in *.
  destruct (canTakeLock l (Resources args)) eqn:E; cbn [negb] in *.
  - rewrite decide_True; [cbn; split; [done|split; [by apply abs_fold|done]]|].
    apply Forall_forall. intros r Hr. rewrite abs_lookup. by rewrite (proj1 (canTakeLock_true l _) E r Hr).
  - rewrite decide_False; [done|]. rewrite Forall_forall. intros HH. apply not_true_iff_false in E. apply E.
    apply canTakeLock_true. intros r Hr. specialize (HH r Hr). rewrite abs_lookup in HH. by apply fmap_None in HH.
Qed.

Lemma unlock_loop_release l uid rs :
  locker_wf l -> Forall (λ r, is_writing (abs l !! r) = true \/ abs l !! r = None) rs ->
  (unlock_loop l uid rs).1 = (spec_release (abs l) uid rs).1 /\
  abs (unlock_loop l uid rs).2 = (spec_release (abs l) uid rs).2.
Proof.
  revert l. induction rs as [|r rs IH]; intros l Hl Hw; [done|]. cbn [unlock_loop spec_release].
  apply Forall_cons in Hw as [Hr Hw]. pose proof (removeEntry_entries_wf l r uid Hl) as Hwf.
  destruct Hr as [Hr|Hr].
  - rewrite <- isWriteLock_entries in Hr. apply lri_wf_write in Hr as (e & He & Hwr).
    assert (abs l !! r = Some (Writing (UID e))) as Ha.
    { rewrite abs_lookup. unfold entries in He. destruct (l !! r) as [lri|]; [|done]. cbn in He. subst lri. cbn. by rewrite Hwr. }
    rewrite He in Hwf |- *. destruct (removeEntry_writer l r uid e) as [E1 E2]. rewrite Ha.
    destruct (removeEntry l r uid [e]) as [ok l']. cbn [fst snd] in *. subst ok.
    destruct (decide (UID e = uid)) as [Hu|Hu].
    + rewrite bool_decide_eq_true_2, decide_True by congruence. rewrite <- E1. apply IH; [done|].
      eapply Forall_impl; [exact Hw|]. intros x Hx. cbn beta. rewrite E1.
      destruct (decide (x = r)) as [->|]; [right; apply lookup_delete_eq|by rewrite lookup_delete_ne].
    + rewrite bool_decide_eq_false_2, decide_False by congruence. done.
  - rewrite Hr. rewrite decide_False by done.
    assert (entries l r = []) as ->; [|done]. rewrite abs_lookup in Hr. apply fmap_None in Hr. unfold entries. by rewrite Hr.
Qed.

Lemma agrees_Unlock l args : locker_wf l -> agrees l (CUnlock args).
Proof.
  intros Hl. pose proof (locker_Unlock_wf l args Hl) as Hwf. unfold agrees. cbn. unfold locker_Unlock, spec_Unlock in *.
  assert (canTakeUnlock l (Resources args) = true <-> Forall (λ r, is_writing (abs l !! r) = true) (Resources args)) as Hc.
  { rewrite canTakeUnlock_true, Forall_forall. by setoid_rewrite isWriteLock_entries. }
  destruct (canTakeUnlock l (Resources args)); cbn [negb] in *.
  - assert (Forall (λ r, is_writing (abs l !! r) = true) (Resources args)) as Hf by by apply Hc.
    rewrite decide_True by done. destruct (unlock_loop_release l (la_UID args) (Resources args) Hl) as [E1 E2].
    { eapply Forall_impl; [exact Hf|]. intros r Hr. by left. }
    destruct (unlock_loop _ _ _) as [ok l'], (spec_release _ _ _) as [ok' t']. cbn in *. by subst.
  - rewrite decide_False; [done|]. rewrite <- Hc. done.
Qed.

Lemma agrees_RLock l args now : locker_wf l -> agrees l (CRLock args now).
Proof.
  intros Hl. pose proof (locker_RLock_wf l args now) as Hwf. unfold agrees. cbn. unfold locker_RLock, spec_RLock in *.
  destruct (Resources args) as [|r rs]; cbn; [done|]. cbn [head mbind option_bind] in Hwf. rewrite abs_lookup.
  destruct (l !! r) as [lri|] eqn:E; cbn [fmap option_fmap option_map].
  - destruct (locker_wf_cases l r lri Hl E) as [(e & _ & Hw & ->)|(Hne & Hw & ->)]; rewrite Hw in Hwf |- *; [done|].
    cbn [fst snd]. split; [done|]. split; [|by eapply Hwf]. unfold abs. rewrite fmap_insert. f_equal.
    rewrite holder_readers; [by rewrite fmap_app|by destruct lri|].
    destruct lri as [|x [|]]; done.
  - cbn [fst snd]. split; [done|]. split; [|by eapply Hwf]. unfold abs. by rewrite fmap_insert.
Qed.

Lemma agrees_RUnlock l args : locker_wf l -> agrees l (CRUnlock args).
Proof.
  intros Hl. pose proof (locker_RUnlock_wf l args) as Hwf. unfold agrees. cbn. unfold locker_RUnlock, spec_RUnlock in *.
  destruct (Resources args) as [|r rs]; cbn; [done|]. cbn [head mbind option_bind] in Hwf. rewrite abs_lookup.
  destruct (l !! r) as [lri|] eqn:E; cbn [fmap option_fmap option_map]; [|done].
  destruct (locker_wf_cases l r lri Hl E) as [(e & _ & Hw & ->)|(Hne & Hw & ->)]; rewrite Hw in Hwf |- *; [done|].
  destruct (removeEntry_readers l r (la_UID args) lri Hl E Hw) as [E1 E2].
  destruct (removeEntry l r (la_UID args) lri) as [ok l']. cbn [fst snd] in *. subst ok.
  specialize (Hwf _ _ _ Hl eq_refl). rewrite E1.
  destruct (decide (la_UID args ∈ (UID <$> lri))); [by rewrite bool_decide_eq_true_2|by rewrite bool_decide_eq_false_2].
Qed.

Lemma entries_held l uid r :
  locker_wf l -> existsb (λ e, bool_decide (UID e = uid)) (entries l r) = spec_holds (abs l) uid r.
Proof.
  intros Hl. assert (existsb (λ e, bool_decide (UID e = uid)) (entries l r) = bool_decide (uid ∈ (UID <$> entries l r))) as ->.
  { induction (entries l r) as [|e lri IH]; [done|]. cbn [existsb]. rewrite IH.
    apply eq_true_iff_eq. rewrite orb_true_iff, !bool_decide_eq_true. set_solver. }
  unfold spec_holds. rewrite abs_lookup. unfold entries. destruct (l !! r) as [lri|] eqn:E; cbn; [|done].
  destruct (locker_wf_cases l r lri Hl E) as [(e & -> & _ & ->)|(_ & _ & ->)]; [|done].
  cbn. apply bool_decide_ext. rewrite list_elem_of_singleton. split; congruence.
Qed.

Lemma agrees_call l c : locker_wf l -> agrees l c.
Proof.
  intros Hl. destruct c as [args now|args|args now|args|args|name uid];
    [by apply agrees_Lock|by apply agrees_Unlock|by apply agrees_RLock|by apply agrees_RUnlock|..]; unfold agrees; cbn.
  - split; [|done]. unfold locker_Expired. do 3 f_equal. induction (Resources args) as [|r rs IH]; [done|].
    cbn [existsb]. by rewrite IH, entries_held.
  - split; [done|]. unfold removeEntryIfExists, spec_remove. rewrite abs_lookup.
    destruct (l !! name) as [lri|] eqn:E; cbn [fmap option_fmap option_map]; [|done].
    split; [|by apply removeEntry_wf].
    destruct (locker_wf_cases l name lri Hl E) as [(e & -> & _ & ->)|(_ & Hw & ->)].
    + by apply removeEntry_writer.
    + by apply removeEntry_readers.
Qed.

Lemma serve_all_table l cs :
  locker_wf l ->
  (serve_all serve l cs).1 = (serve_all spec_serve (abs l) cs).1 /\
  abs (serve_all serve l cs).2 = (serve_all spec_serve (abs l) cs).2.
Proof.
  revert l. induction cs as [|c cs IH]; intros l Hl; [done|]. cbn [serve_all].
  destruct (agrees_call l c Hl) as (E1 & E2 & Hwf).
  destruct (serve l c) as [a l1], (spec_serve (abs l) c) as [a' t1]. cbn [fst snd] in *. subst a' t1.
  destruct (IH l1 Hwf) as [E3 E4].
  destruct (serve_all serve l1 cs) as [as1 l2], (serve_all spec_serve (abs l1) cs) as [as2 t2]. cbn in *. by subst.
Qed.

(** C30. A lock server implements a table of locks: whatever calls are made on a new
    server, in whatever order, each gets the answer, or the panic, of a table in
    which a resource is free, held by one writer or by readers.  In it a write lock is
    granted exactly when all its resources are free, and then holds all of them; a
    read lock unless there is a writer; a release succeeds for a holder only and
    frees what it held; and the map of the server is the table after all of them. *)
Theorem locker_refines cs :
  (serve_all serve newLocker cs).1 = (serve_all spec_serve ∅ cs).1 /\
  abs (serve_all serve newLocker cs).2 = (serve_all spec_serve ∅ cs).2.
Proof. apply (serve_all_table newLocker). done. Qed.
End LockTable.
