(* ===== verification/Dsync.v ===== *)
(** * pkg/dsync/drwmutex.go: locks over a quorum of lock servers

    A [DRWMutex] asks every lock server for a lock and holds it when a quorum
    grants it: more than half of the servers for writing, at least half for
    reading.  Requests, replies, time outs and releases of any number of mutexes
    interleave; requests and replies can be lost.  [dstep] has one constructor
    per atomic step; the code between two steps is the functions before it.

    [dsync_exclusive]: whatever the interleaving, two mutexes never hold the
    same name when one of them holds it for writing.  The expiry of the locks of
    crashed clients (cmd/lock-rest-server.go) is not modelled. *)
From S2P Require Import Prelude GoLib Metadata Locker.

(** ** The collector of [lock] *)
Record Granted := mkGranted { g_index : nat; g_lockUID : bytes }.

Definition isLocked (uid : bytes) : bool := bool_decide (uid <> []).

Definition n_locked (locks : list bytes) : nat := length (filter (λ u, isLocked u = true) locks).

Definition dquorum (n : nat) : nat := n / 2 + 1.
(** [math.Ceil(n / 2.0)] *)
Definition dquorumReads (n : nat) : nat := (n + 1) / 2.

Definition quorumMet (locks : list bytes) (isReadLock : bool) (quorum quorumReads : nat) : bool :=
  if isReadLock then (quorumReads <=? n_locked locks)%nat else (quorum <=? n_locked locks)%nat.

(** [releaseAll]: the servers that are sent a release, and the cleared array. *)
Definition locked_indices (locks : list bytes) : list nat :=
  filter (λ i, isLocked (default [] (locks !! i)) = true) (seq 0 (length locks)).
Definition releaseAll (locks : list bytes) : list nat * list bytes :=
  (locked_indices locks, replicate (length locks) []).

(** The state of the goroutine that waits for the replies: the array of locks,
    its counters, whether it stopped early, and releases it has not sent yet. *)
Record collector := mkCollector {
  co_locks : list bytes;
  co_i : nat;
  co_failed : nat;
  co_done : bool;
  co_release : list nat }.

Definition init_collector (n : nat) : collector := mkCollector (replicate n []) 0 0 false [].

Definition finished (n : nat) (c : collector) : bool := co_done c || (n <=? co_i c)%nat.

(** [case grant := <-ch] *)
Definition recv_grant (n : nat) (isReadLock : bool) (c : collector) (g : Granted) : collector :=
  if isLocked (g_lockUID g)
  then mkCollector (<[g_index g := g_lockUID g]> (co_locks c)) (S (co_i c)) (co_failed c) false
         (co_release c)
  else
    let failed := S (co_failed c) in
    if (if isReadLock then (n - dquorumReads n <? failed)%nat else (n - dquorum n <? failed)%nat)
    then let '(rel, cleared) := releaseAll (co_locks c) in
         mkCollector cleared (S (co_i c)) failed true (co_release c ++ rel)
    else mkCollector (co_locks c) (S (co_i c)) failed false (co_release c).

(** [case <-timeout] *)
Definition recv_timeout (n : nat) (isReadLock : bool) (c : collector) : collector :=
  if quorumMet (co_locks c) isReadLock (dquorum n) (dquorumReads n)
  then mkCollector (co_locks c) (co_i c) (co_failed c) true (co_release c)
  else let '(rel, cleared) := releaseAll (co_locks c) in
       mkCollector cleared (co_i c) (co_failed c) true (co_release c ++ rel).

(** ** A mutex and its user *)
Inductive phase : Type :=
  (** outside of any call *)
  | Ready
  (** in [lock]: servers that have not replied, the channel of replies, the collector *)
  | Locking (isReadLock : bool) (pend : list nat) (ch : list Granted) (c : collector)
  (** in [unlock]: the releases still to be sent *)
  | Unlocking (isReadLock : bool) (todo : list nat).

Record DRWMutex := mkDRWMutex {
  dm_id : bytes;                   (* the operation ID the lock is taken with *)
  Names : list bytes;
  writeLocks : list bytes;
  readersLocks : list (list bytes);
  dm_late : list (bool * nat);     (* grants that came late and are being released *)
  dm_phase : phase }.

Definition NewDRWMutex (n : nat) (id : bytes) (names : list bytes) : DRWMutex :=
  mkDRWMutex id names (replicate n []) [] [] Ready.

Definition set_phase (d : DRWMutex) (p : phase) : DRWMutex :=
  mkDRWMutex (dm_id d) (Names d) (writeLocks d) (readersLocks d) (dm_late d) p.
Definition set_late (d : DRWMutex) (l : list (bool * nat)) : DRWMutex :=
  mkDRWMutex (dm_id d) (Names d) (writeLocks d) (readersLocks d) l (dm_phase d).

Definition lock_args (d : DRWMutex) : LockArgs := mkLockArgs (dm_id d) (Names d) [].

(** A lock request at a server. *)
Definition serve_lock (isReadLock : bool) (l : lock_map) (d : DRWMutex) (now : time)
  : option (bool * lock_map) :=
  if isReadLock then locker_RLock l (lock_args d) now else Some (locker_Lock l (lock_args d) now).

(** [sendRelease] at a server. *)
Definition serve_release (isReadLock : bool) (l : lock_map) (d : DRWMutex) : option lock_map :=
  if isReadLock then snd <$> locker_RUnlock l (lock_args d)
  else Some (locker_Unlock l (lock_args d)).2.

(** The end of [lock] and of [lockBlocking]'s round: with a quorum the locks are
    kept; the replies left in the channel that are grants will be released. *)
Definition late_grants (isReadLock : bool) (ch : list Granted) : list (bool * nat) :=
  (λ g, (isReadLock, g_index g)) <$> filter (λ g, isLocked (g_lockUID g) = true) ch.

Definition lock_return (n : nat) (d : DRWMutex) (isReadLock : bool) (ch : list Granted)
    (c : collector) : DRWMutex :=
  let ok := quorumMet (co_locks c) isReadLock (dquorum n) (dquorumReads n) in
  mkDRWMutex (dm_id d) (Names d)
    (if ok && negb isReadLock then co_locks c else writeLocks d)
    (if ok && isReadLock then readersLocks d ++ [co_locks c] else readersLocks d)
    (dm_late d ++ late_grants isReadLock ch) Ready.

(** [Unlock] and [RUnlock] up to the call of [unlock]; [None] is the panic when
    no lock is held. *)
Definition Unlock_start (n : nat) (d : DRWMutex) : option DRWMutex :=
  if existsb isLocked (writeLocks d)
  then Some (mkDRWMutex (dm_id d) (Names d) (replicate n []) (readersLocks d) (dm_late d)
               (Unlocking false (locked_indices (writeLocks d))))
  else None.

Definition RUnlock_start (d : DRWMutex) : option DRWMutex :=
  match readersLocks d with
  | [] => None
  | locks :: rest =>
      Some (mkDRWMutex (dm_id d) (Names d) (writeLocks d) rest (dm_late d)
              (Unlocking true (locked_indices locks)))
  end.

(** ** The system *)
Record dstate := mkD { d_nodes : list lock_map; d_mutexes : list DRWMutex }.

Definition set_mutex (s : dstate) (k : nat) (d : DRWMutex) : dstate :=
  mkD (d_nodes s) (<[k := d]> (d_mutexes s)).
Definition set_node (s : dstate) (i : nat) (l : lock_map) : dstate :=
  mkD (<[i := l]> (d_nodes s)) (d_mutexes s).

(** A release sent to server [i] is served at once, or is lost; it is not delivered
    late. *)
Inductive released (s : dstate) (isReadLock : bool) (i : nat) (d : DRWMutex) : dstate -> Prop :=
  | released_served l l' :
      d_nodes s !! i = Some l -> serve_release isReadLock l d = Some l' ->
      released s isReadLock i d (set_node s i l')
  | released_lost : released s isReadLock i d s.

Inductive dstep (n : nat) (s : dstate) : dstate -> Prop :=
  | step_lock k d isReadLock :
      d_mutexes s !! k = Some d -> dm_phase d = Ready ->
      dstep n s (set_mutex s k (set_phase d (Locking isReadLock (seq 0 n) [] (init_collector n))))
  | step_serve k d isReadLock p1 i p2 ch c l b l' now :
      d_mutexes s !! k = Some d -> dm_phase d = Locking isReadLock (p1 ++ i :: p2) ch c ->
      d_nodes s !! i = Some l -> serve_lock isReadLock l d now = Some (b, l') ->
      dstep n s (set_mutex (set_node s i l') k
        (set_phase d (Locking isReadLock (p1 ++ p2)
           (ch ++ [mkGranted i (if b then dm_id d else [])]) c)))
  | step_reply_lost k d isReadLock p1 i p2 ch c l b l' now :
      d_mutexes s !! k = Some d -> dm_phase d = Locking isReadLock (p1 ++ i :: p2) ch c ->
      d_nodes s !! i = Some l -> serve_lock isReadLock l d now = Some (b, l') ->
      dstep n s (set_mutex (set_node s i l') k
        (set_phase d (Locking isReadLock (p1 ++ p2) (ch ++ [mkGranted i []]) c)))
  | step_request_lost k d isReadLock p1 i p2 ch c :
      d_mutexes s !! k = Some d -> dm_phase d = Locking isReadLock (p1 ++ i :: p2) ch c ->
      dstep n s (set_mutex s k
        (set_phase d (Locking isReadLock (p1 ++ p2) (ch ++ [mkGranted i []]) c)))
  | step_collect k d isReadLock pend g ch c :
      d_mutexes s !! k = Some d -> dm_phase d = Locking isReadLock pend (g :: ch) c ->
      finished n c = false ->
      dstep n s (set_mutex s k (set_phase d (Locking isReadLock pend ch (recv_grant n isReadLock c g))))
  | step_timeout k d isReadLock pend ch c :
      d_mutexes s !! k = Some d -> dm_phase d = Locking isReadLock pend ch c ->
      finished n c = false ->
      dstep n s (set_mutex s k (set_phase d (Locking isReadLock pend ch (recv_timeout n isReadLock c))))
  | step_release_all k d isReadLock pend ch c i rel s' :
      d_mutexes s !! k = Some d -> dm_phase d = Locking isReadLock pend ch c ->
      co_release c = i :: rel -> released s isReadLock i d s' ->
      dstep n s (set_mutex s' k (set_phase d (Locking isReadLock pend ch
        (mkCollector (co_locks c) (co_i c) (co_failed c) (co_done c) rel))))
  | step_return k d isReadLock ch c :
      d_mutexes s !! k = Some d -> dm_phase d = Locking isReadLock [] ch c ->
      finished n c = true -> co_release c = [] ->
      dstep n s (set_mutex s k (lock_return n d isReadLock ch c))
  | step_unlock k d d' :
      d_mutexes s !! k = Some d -> dm_phase d = Ready -> Unlock_start n d = Some d' ->
      dstep n s (set_mutex s k d')
  | step_runlock k d d' :
      d_mutexes s !! k = Some d -> dm_phase d = Ready -> RUnlock_start d = Some d' ->
      dstep n s (set_mutex s k d')
  | step_unlock_send k d isReadLock i todo s' :
      d_mutexes s !! k = Some d -> dm_phase d = Unlocking isReadLock (i :: todo) ->
      released s isReadLock i d s' ->
      dstep n s (set_mutex s' k (set_phase d (Unlocking isReadLock todo)))
  | step_unlock_done k d isReadLock :
      d_mutexes s !! k = Some d -> dm_phase d = Unlocking isReadLock [] ->
      dstep n s (set_mutex s k (set_phase d Ready))
  | step_late k d isReadLock l1 i l2 s' :
      d_mutexes s !! k = Some d -> dm_late d = l1 ++ (isReadLock, i) :: l2 ->
      released s isReadLock i d s' ->
      dstep n s (set_mutex s' k (set_late d (l1 ++ l2))).

Definition initial (n : nat) (users : list (bytes * list bytes)) : dstate :=
  mkD (replicate n newLocker) ((λ '(id, names), NewDRWMutex n id names) <$> users).

(** The mutex holds its lock: the array that [Unlock] or [RUnlock] would release. *)
Definition holds_write (d : DRWMutex) : Prop := existsb isLocked (writeLocks d) = true.
Definition holds_read (d : DRWMutex) : Prop := readersLocks d <> [].

(** ** Tokens

    A grant is a token of its mutex at its server: in the channel, in the array
    of the collector or of a held lock, or waiting to be released.  The
    invariant is that a server has at least as many entries of a mutex as the
    mutex has tokens there. *)
Definition at_index (locks : list bytes) (i : nat) : nat :=
  if isLocked (default [] (locks !! i)) then 1 else 0.
Definition occ (i : nat) (l : list nat) : nat := length (filter (λ j, j = i) l).
Definition grants_at (ch : list Granted) (i : nat) : nat :=
  length (filter (λ g, isLocked (g_lockUID g) = true /\ g_index g = i) ch).
Definition late_at (l : list (bool * nat)) (rd : bool) (i : nat) : nat :=
  length (filter (λ x, x = (rd, i)) l).

Definition phase_tokens (p : phase) (rd : bool) (i : nat) : nat :=
  match p with
  | Ready => 0
  | Locking rd' _ ch c =>
      if decide (rd' = rd) then grants_at ch i + at_index (co_locks c) i + occ i (co_release c) else 0
  | Unlocking rd' todo => if decide (rd' = rd) then occ i todo else 0
  end.

Definition held_tokens (d : DRWMutex) (rd : bool) (i : nat) : nat :=
  if rd then sum_list ((λ locks, at_index locks i) <$> readersLocks d) else at_index (writeLocks d) i.

Definition tokens (d : DRWMutex) (rd : bool) (i : nat) : nat :=
  held_tokens d rd i + phase_tokens (dm_phase d) rd i + late_at (dm_late d) rd i.

(** The names a lock is about: all of them for writing, the first for reading. *)
Definition covers (d : DRWMutex) (rd : bool) (r : bytes) : Prop :=
  if rd then head (Names d) = Some r else r ∈ Names d.

Definition covered (d : DRWMutex) (i : nat) (l : lock_map) : Prop :=
  ∀ rd r, covers d rd r -> (tokens d rd i <= holds_as (negb rd) l (dm_id d) r)%nat.

(** The arrays of a mutex have the right shape. *)
Definition mutex_wf (n : nat) (d : DRWMutex) : Prop :=
  length (writeLocks d) = n /\
  (existsb isLocked (writeLocks d) = true -> (dquorum n <= n_locked (writeLocks d))%nat) /\
  Forall (λ locks, length locks = n /\ (dquorumReads n <= n_locked locks)%nat) (readersLocks d) /\
  match dm_phase d with Locking _ _ _ c => length (co_locks c) = n | _ => True end.

Record dinv (n : nat) (s : dstate) : Prop := {
  inv_nodes : length (d_nodes s) = n;
  inv_wf : Forall locker_wf (d_nodes s);
  inv_mutexes : Forall (mutex_wf n) (d_mutexes s);
  inv_ids : ∀ k1 k2 d1 d2, d_mutexes s !! k1 = Some d1 -> d_mutexes s !! k2 = Some d2 ->
    dm_id d1 = dm_id d2 -> k1 = k2;
  inv_cover : ∀ k d i l, d_mutexes s !! k = Some d -> d_nodes s !! i = Some l -> covered d i l }.

Lemma occ_cons i j l : occ i (j :: l) = ((if decide (j = i) then 1 else 0) + occ i l)%nat.
Proof. unfold occ. rewrite filter_cons. by case_decide. Qed.
Lemma occ_app i l1 l2 : occ i (l1 ++ l2) = (occ i l1 + occ i l2)%nat.
Proof. unfold occ. by rewrite filter_app, length_app. Qed.
Lemma grants_at_app ch1 ch2 i : grants_at (ch1 ++ ch2) i = (grants_at ch1 i + grants_at ch2 i)%nat.
Proof. unfold grants_at. by rewrite filter_app, length_app. Qed.
Lemma grants_at_one g i :
  grants_at [g] i = if decide (isLocked (g_lockUID g) = true /\ g_index g = i) then 1%nat else 0%nat.
Proof. unfold grants_at. rewrite filter_cons. by case_decide. Qed.
Lemma late_at_app l1 l2 rd i : late_at (l1 ++ l2) rd i = (late_at l1 rd i + late_at l2 rd i)%nat.
Proof. unfold late_at. by rewrite filter_app, length_app. Qed.
Lemma late_at_cons x l rd i :
  late_at (x :: l) rd i = ((if decide (x = (rd, i)) then 1 else 0) + late_at l rd i)%nat.
Proof. unfold late_at. rewrite filter_cons. by case_decide. Qed.

Lemma late_grants_at rd ch rd' i :
  late_at (late_grants rd ch) rd' i = if decide (rd = rd') then grants_at ch i else 0%nat.
Proof.
  unfold late_grants, grants_at. induction ch as [|g ch IH]; [by case_decide|].
  rewrite !filter_cons. destruct (decide (isLocked (g_lockUID g) = true)) as [E|E].
  - rewrite fmap_cons, late_at_cons, IH. cbn beta.
    destruct (decide (rd = rd')) as [->|]; [|by rewrite decide_False by naive_solver].
    destruct (decide (g_index g = i)) as [<-|]; [by rewrite !decide_True by done|].
    by rewrite !decide_False by naive_solver.
  - rewrite IH. case_decide; [|done]. rewrite decide_False by naive_solver. done.
Qed.

Lemma at_index_replicate n i : at_index (replicate n []) i = 0%nat.
Proof.
  unfold at_index. destruct (replicate n [] !! i) as [x|] eqn:E; [|done].
  by apply lookup_replicate in E as [-> _].
Qed.

Lemma occ_locked_indices locks i : occ i (locked_indices locks) = at_index locks i.
Proof.
  unfold occ, locked_indices, at_index.
  destruct (decide (i < length locks)%nat) as [Hi|Hi].
  - rewrite list_filter_filter.
    rewrite (filter_ext_in _ (λ j, j = i /\ isLocked (default [] (locks !! i)) = true));
      [|apply Forall_forall; naive_solver].
    destruct (isLocked (default [] (locks !! i))).
    + rewrite (filter_ext_in _ (λ j, j = i)); [|apply Forall_forall; naive_solver].
      assert (∀ m a, length (filter (λ j, j = i) (seq a m)) = if decide (a <= i < a + m)%nat then 1%nat else 0%nat) as ->.
      { induction m as [|m IH]; intros a; cbn [seq].
        - by rewrite decide_False by lia.
        - rewrite filter_cons. case_decide; cbn [length]; rewrite IH; repeat case_decide; lia. }
      by rewrite decide_True by lia.
    + assert (∀ l : list nat, filter (λ j, j = i /\ false = true) l = []) as ->; [|done].
      intros l. induction l; [done|]. by rewrite filter_cons_False by naive_solver.
  - rewrite lookup_ge_None_2 by lia. cbn.
    assert (∀ l : list nat, Forall (λ j, j <> i) l -> length (filter (λ j, j = i) l) = 0%nat) as ->; [|done|].
    { induction 1; [done|]. by rewrite filter_cons_False. }
    apply Forall_forall. intros j Hj. apply list_elem_of_filter in Hj as [_ Hj].
    apply elem_of_seq in Hj. lia.
Qed.

(** ** Collector steps move tokens, and lose none that is not accounted for *)
Definition coll_tokens (ch : list Granted) (c : collector) (i : nat) : nat :=
  grants_at ch i + at_index (co_locks c) i + occ i (co_release c).

Lemma recv_grant_tokens n rd c g ch i :
  (coll_tokens ch (recv_grant n rd c g) i <= coll_tokens (g :: ch) c i)%nat.
Proof.
  unfold coll_tokens. change (g :: ch) with ([g] ++ ch). rewrite grants_at_app, grants_at_one.
  unfold recv_grant. destruct (isLocked (g_lockUID g)) eqn:E; cbn [co_locks co_release].
  - unfold at_index. destruct (decide (g_index g = i)) as [<-|Hi].
    + rewrite decide_True by done. destruct (isLocked (default [] (<[g_index g:=g_lockUID g]> (co_locks c) !! g_index g))); lia.
    + rewrite list_lookup_insert_ne by done. lia.
  - destruct (if rd then _ else _); cbn [co_locks co_release releaseAll].
    + rewrite occ_app, occ_locked_indices, at_index_replicate. lia.
    + lia.
Qed.

Lemma recv_timeout_tokens n rd c ch i :
  (coll_tokens ch (recv_timeout n rd c) i <= coll_tokens ch c i)%nat.
Proof.
  unfold coll_tokens, recv_timeout. destruct (quorumMet _ _ _ _); cbn [co_locks co_release releaseAll].
  - lia.
  - rewrite occ_app, occ_locked_indices, at_index_replicate. lia.
Qed.

(** ** Steps of a server *)
Lemma serve_lock_ok rd l d now b l' :
  locker_wf l -> serve_lock rd l d now = Some (b, l') ->
  locker_wf l' /\
  (∀ uid w r, uid <> dm_id d -> holds_as w l' uid r = holds_as w l uid r) /\
  ∀ (t : bool -> nat),
    (∀ rd' r, covers d rd' r -> (t rd' <= holds_as (negb rd') l (dm_id d) r)%nat) ->
    ∀ rd' r, covers d rd' r ->
      (t rd' + (if decide (b = true /\ rd' = rd) then 1 else 0) <= holds_as (negb rd') l' (dm_id d) r)%nat.
Proof.
  intros Hl. unfold serve_lock. destruct rd.
  - intros E. split; [by eapply locker_RLock_wf|]. split.
    + intros uid w r Hu. rewrite (locker_RLock_holds _ _ _ _ _ w uid r E).
      rewrite decide_False by naive_solver. lia.
    + intros t Ht rd' r Hc. specialize (Ht rd' r Hc).
      rewrite (locker_RLock_holds _ _ _ _ _ (negb rd') (dm_id d) r E). cbn [la_UID lock_args Resources].
      destruct (decide (b = true /\ rd' = true)) as [[-> ->]|]; [|lia].
      cbn [covers negb] in *. rewrite decide_True by done. lia.
  - intros [= E]. pose proof (locker_Lock_wf l (lock_args d) now Hl) as Hwf. rewrite E in Hwf.
    split; [done|]. destruct b.
    2:{ apply locker_Lock_refused in E as ->. split; [done|]. intros t Ht rd' r Hc.
        rewrite decide_False by naive_solver. rewrite Nat.add_0_r. by apply Ht. }
    apply locker_Lock_granted in E as [Hfree Hent]. cbn [Resources lock_args] in *.
    split.
    + intros uid w r Hu. unfold holds_as. rewrite Hent. case_decide as Hr; [|done].
      rewrite (Hfree r Hr), filter_cons_False; [done|]. cbn. naive_solver.
    + intros t Ht rd' r Hc. specialize (Ht rd' r Hc).
      assert (r ∈ Names d) as Hr.
      { destruct rd'; [|exact Hc]. cbn in Hc. destruct (Names d); [done|]. cbn in Hc. simplify_eq. set_solver. }
      assert (holds_as (negb rd') l (dm_id d) r = 0%nat) as E0 by (unfold holds_as; by rewrite Hfree).
      destruct rd'.
      * rewrite decide_False by naive_solver. lia.
      * rewrite decide_True by done. unfold holds_as. rewrite Hent, decide_True by done.
        rewrite filter_cons_True by done. cbn [length]. lia.
Qed.

Lemma serve_release_ok rd l d l' :
  locker_wf l -> serve_release rd l d = Some l' ->
  locker_wf l' /\
  (∀ uid w r, uid <> dm_id d -> holds_as w l' uid r = holds_as w l uid r) /\
  ∀ (t : bool -> nat), (0 < t rd)%nat ->
    (∀ rd' r, covers d rd' r -> (t rd' <= holds_as (negb rd') l (dm_id d) r)%nat) ->
    ∀ rd' r, covers d rd' r ->
      (t rd' - (if decide (rd' = rd) then 1 else 0) <= holds_as (negb rd') l' (dm_id d) r)%nat.
Proof.
  intros Hl. unfold serve_release. destruct rd.
  - intros ([[b e] l''] & E & ->)%fmap_Some. cbn [snd]. split; [by eapply locker_RUnlock_wf|]. split.
    + intros uid w r Hu. destruct (locker_RUnlock_holds _ _ _ _ _ w uid r Hl E) as [|(_ & -> & _)]; done.
    + intros t Hpos Ht rd' r Hc. specialize (Ht rd' r Hc).
      destruct (locker_RUnlock_holds _ _ _ _ _ (negb rd') (dm_id d) r Hl E) as [->|(Hw & _ & _ & Hs)]; [lia|].
      destruct rd'; [|done]. rewrite decide_True by done. lia.
  - intros [= <-]. split; [by apply locker_Unlock_wf|]. split.
    + intros uid w r Hu. apply locker_Unlock_holds; [done|]. right. by left.
    + intros t Hpos Ht rd' r Hc. destruct rd'.
      * rewrite decide_False by done. specialize (Ht true r Hc). cbn [negb] in *.
        destruct (locker_Unlock_holds l (lock_args d) false (dm_id d) r Hl) as [_ ->]; [lia|by left].
      * rewrite decide_True by done. specialize (Ht false r Hc). cbn [negb] in *.
        assert (holds_as true l (dm_id d) r = 1%nat) as E by (apply (one_writer l _ (dm_id d)); [done|lia]).
        lia.
Qed.

(** ** The invariant is preserved *)
Lemma insert_same_id (ms : list DRWMutex) k d d' k0 d0 :
  ms !! k = Some d -> dm_id d' = dm_id d -> <[k := d']> ms !! k0 = Some d0 ->
  ∃ d1, ms !! k0 = Some d1 /\ dm_id d1 = dm_id d0.
Proof. intros Hk Hid H0. apply list_lookup_insert_Some in H0 as [(-> & <- & _)|[_ H0]]; eauto. Qed.

Lemma dinv_update n s k d d' :
  dinv n s -> d_mutexes s !! k = Some d -> dm_id d' = dm_id d -> Names d' = Names d -> mutex_wf n d' ->
  (∀ rd i, (tokens d' rd i <= tokens d rd i)%nat) -> dinv n (set_mutex s k d').
Proof.
  intros [Hn Hw Hm Hids Hcov] Hk Hid Hnames Hwf Htok. split; cbn [d_nodes d_mutexes set_mutex].
  - done.
  - done.
  - by apply Forall_insert.
  - intros k1 k2 d1 d2 (e1 & H1 & E1)%(insert_same_id _ _ _ _ _ _ Hk Hid)
      (e2 & H2 & E2)%(insert_same_id _ _ _ _ _ _ Hk Hid) E.
    apply (Hids k1 k2 e1 e2 H1 H2). congruence.
  - intros k0 d0 i l H0 Hi. apply list_lookup_insert_Some in H0 as [(-> & <- & _)|[_ H0]]; [|by eapply Hcov].
    intros rd r Hc. etrans; [apply Htok|]. rewrite Hid. apply (Hcov _ d i l Hk Hi).
    unfold covers in *. by rewrite <- Hnames.
Qed.

Lemma dinv_served n s k d d' i l l' :
  dinv n s -> d_mutexes s !! k = Some d -> d_nodes s !! i = Some l ->
  dm_id d' = dm_id d -> Names d' = Names d -> mutex_wf n d' -> locker_wf l' ->
  (∀ uid w r, uid <> dm_id d -> holds_as w l' uid r = holds_as w l uid r) ->
  (∀ rd j, j <> i -> (tokens d' rd j <= tokens d rd j)%nat) -> covered d' i l' ->
  dinv n (set_mutex (set_node s i l') k d').
Proof.
  intros Hinv Hk Hi Hid Hnames Hwf Hl' Hframe Htok Hcov'. pose proof Hinv as [Hn Hw Hm Hids Hcov].
  split; cbn [d_nodes d_mutexes set_mutex set_node].
  - by rewrite length_insert.
  - by apply Forall_insert.
  - by apply Forall_insert.
  - intros k1 k2 d1 d2 (e1 & H1 & E1)%(insert_same_id _ _ _ _ _ _ Hk Hid)
      (e2 & H2 & E2)%(insert_same_id _ _ _ _ _ _ Hk Hid) E.
    apply (Hids k1 k2 e1 e2 H1 H2). congruence.
  - intros k0 d0 j lj H0 Hj.
    apply list_lookup_insert_Some in H0 as [(-> & <- & _)|[Hne H0]];
      apply list_lookup_insert_Some in Hj as [(-> & <- & _)|[Hji Hj]].
    + done.
    + intros rd r Hc. etrans; [by apply Htok|]. rewrite Hid. apply (Hcov _ d j lj Hk Hj).
      unfold covers in *. by rewrite <- Hnames.
    + intros rd r Hc. rewrite Hframe; [by apply (Hcov k0 d0 j l H0 Hi)|].
      intros E. apply Hne. symmetry. by apply (Hids k0 k d0 d H0 Hk).
    + by eapply Hcov.
Qed.

Lemma mutex_wf_phase n d p :
  mutex_wf n d -> match p with Locking _ _ _ c => length (co_locks c) = n | _ => True end ->
  mutex_wf n (set_phase d p).
Proof. by intros (? & ? & ? & _) ?. Qed.

Lemma locking_wf n d rd pend ch c :
  mutex_wf n d -> dm_phase d = Locking rd pend ch c -> length (co_locks c) = n.
Proof. intros (_ & _ & _ & H) E. by rewrite E in H. Qed.

Lemma recv_grant_length n rd c g : length (co_locks (recv_grant n rd c g)) = length (co_locks c).
Proof.
  unfold recv_grant. destruct (isLocked _); cbn [co_locks]; [apply length_insert|].
  destruct (if rd then _ else _); cbn [co_locks releaseAll]; [apply length_replicate|done].
Qed.

Lemma recv_timeout_length n rd c : length (co_locks (recv_timeout n rd c)) = length (co_locks c).
Proof.
  unfold recv_timeout. destruct (quorumMet _ _ _ _); cbn [co_locks releaseAll]; [done|].
  apply length_replicate.
Qed.

(** A release, served or lost, that takes a token of the mutex. *)
Lemma dinv_released n s k d d' rd i s' :
  dinv n s -> d_mutexes s !! k = Some d -> released s rd i d s' ->
  dm_id d' = dm_id d -> Names d' = Names d -> mutex_wf n d' ->
  (∀ rd' j, tokens d' rd' j + (if decide (rd' = rd /\ j = i) then 1 else 0) = tokens d rd' j)%nat ->
  dinv n (set_mutex s' k d').
Proof.
  intros Hinv Hk Hrel Hid Hnames Hwf Htok. destruct Hrel as [l l' Hi Hs|].
  2:{ eapply dinv_update; [done..|]. intros rd' j. specialize (Htok rd' j). lia. }
  assert (locker_wf l) as Hl.
  { pose proof (inv_wf _ _ Hinv) as Hw. rewrite Forall_lookup in Hw. by eapply Hw. }
  destruct (serve_release_ok _ _ _ _ Hl Hs) as (Hl' & Hframe & Hown).
  eapply dinv_served; [done..| |].
  - intros rd' j Hj. specialize (Htok rd' j). lia.
  - intros rd' r Hc. pose proof (inv_cover _ _ Hinv k d i l Hk Hi) as Hcov.
    assert (0 < tokens d rd i)%nat by (specialize (Htok rd i); rewrite decide_True in Htok by done; lia).
    assert (covers d rd' r) as Hc' by (unfold covers in *; by rewrite <- Hnames).
    pose proof (Hown (λ rd0, tokens d rd0 i) ltac:(done) Hcov rd' r Hc') as Hb. cbn beta in Hb.
    rewrite Hid. specialize (Htok rd' i). repeat case_decide; naive_solver lia.
Qed.

(** A request that a server serves; [kept] tells whether the reply arrives. *)
Lemma dinv_serve n s k d rd p1 i p2 ch c l b l' now uid :
  dinv n s -> d_mutexes s !! k = Some d -> dm_phase d = Locking rd (p1 ++ i :: p2) ch c ->
  d_nodes s !! i = Some l -> serve_lock rd l d now = Some (b, l') ->
  (isLocked uid = true -> b = true) ->
  dinv n (set_mutex (set_node s i l') k
            (set_phase d (Locking rd (p1 ++ p2) (ch ++ [mkGranted i uid]) c))).
Proof.
  intros Hinv Hk Hp Hi Hs Hu.
  assert (locker_wf l) as Hl.
  { pose proof (inv_wf _ _ Hinv) as Hw. rewrite Forall_lookup in Hw. by eapply Hw. }
  assert (mutex_wf n d) as Hd.
  { pose proof (inv_mutexes _ _ Hinv) as Hm. rewrite Forall_lookup in Hm. by eapply Hm. }
  destruct (serve_lock_ok _ _ _ _ _ _ Hl Hs) as (Hl' & Hframe & Hown).
  assert (∀ rd' j, tokens (set_phase d (Locking rd (p1 ++ p2) (ch ++ [mkGranted i uid]) c)) rd' j
            <= tokens d rd' j + (if decide (b = true /\ rd' = rd) then if decide (j = i) then 1 else 0 else 0))%nat as Htok.
  { intros rd' j. unfold tokens, set_phase, held_tokens. cbn [dm_phase writeLocks readersLocks dm_late]. rewrite Hp.
    cbn [phase_tokens]. rewrite grants_at_app, grants_at_one. cbn [g_lockUID g_index].
    repeat case_decide; naive_solver lia. }
  eapply dinv_served; [exact Hinv|exact Hk|exact Hi|done|done| |exact Hl'|exact Hframe| |].
  - apply mutex_wf_phase; [done|]. by eapply locking_wf.
  - intros rd' j Hj. specialize (Htok rd' j). rewrite (decide_False (P := j = i)) in Htok by done.
    case_decide; lia.
  - intros rd' r Hc. pose proof (inv_cover _ _ Hinv k d i l Hk Hi) as Hcov.
    pose proof (Hown (λ rd0, tokens d rd0 i) Hcov rd' r Hc) as Hb. cbn beta in Hb.
    specialize (Htok rd' i). rewrite (decide_True (P := i = i)) in Htok by done.
    cbn [dm_id set_phase]. case_decide; lia.
Qed.

Lemma sum_list_app (l1 l2 : list nat) : sum_list (l1 ++ l2) = (sum_list l1 + sum_list l2)%nat.
Proof. induction l1 as [|x l1 IH]; [done|]. cbn. rewrite IH. lia. Qed.

Lemma lock_return_tokens n d rd ch c rd' i :
  dm_phase d = Locking rd [] ch c -> co_release c = [] ->
  (tokens (lock_return n d rd ch c) rd' i <= tokens d rd' i)%nat.
Proof.
  intros Hp Hr. unfold tokens, lock_return. cbv zeta. cbn [dm_phase dm_late phase_tokens]. rewrite Hp.
  cbn [phase_tokens]. rewrite late_at_app, late_grants_at, Hr.
  assert (held_tokens (mkDRWMutex (dm_id d) (Names d)
      (if quorumMet (co_locks c) rd (dquorum n) (dquorumReads n) && negb rd then co_locks c else writeLocks d)
      (if quorumMet (co_locks c) rd (dquorum n) (dquorumReads n) && rd
       then readersLocks d ++ [co_locks c] else readersLocks d)
      (dm_late d ++ late_grants rd ch) Ready) rd' i
    <= held_tokens d rd' i + (if decide (rd = rd') then at_index (co_locks c) i else 0))%nat as Hh.
  { unfold held_tokens. cbn [readersLocks writeLocks].
    destruct (quorumMet _ _ _ _), rd, rd'; cbn [andb negb]; repeat case_decide; try done; try lia.
    rewrite fmap_app, sum_list_app. cbn. lia. }
  assert (occ i [] = 0%nat) as -> by done. case_decide; lia.
Qed.

Lemma lock_return_wf n d rd ch c :
  mutex_wf n d -> length (co_locks c) = n -> mutex_wf n (lock_return n d rd ch c).
Proof.
  intros (H1 & H2 & H3 & _) Hc. unfold lock_return, mutex_wf.
  cbn [writeLocks readersLocks dm_phase]. unfold quorumMet.
  destruct rd; cbn [negb andb]; rewrite ?andb_false_r, ?andb_true_r.
  - split; [done|]. split; [done|]. split; [|done]. destruct (_ <=? _)%nat eqn:E; [|done].
    apply Nat.leb_le in E. apply Forall_app. split; [done|]. by repeat constructor.
  - destruct (_ <=? _)%nat eqn:E; [|done]. apply Nat.leb_le in E. done.
Qed.

Lemma Unlock_start_tokens n d d' rd i :
  dm_phase d = Ready -> Unlock_start n d = Some d' -> (tokens d' rd i <= tokens d rd i)%nat.
Proof.
  intros Hp. unfold Unlock_start. destruct (existsb _ _); [|done]. intros [= <-].
  unfold tokens, held_tokens. cbn [dm_phase writeLocks readersLocks dm_late phase_tokens]. rewrite Hp.
  cbn [phase_tokens]. destruct rd; repeat case_decide; try done; try lia.
  rewrite occ_locked_indices, at_index_replicate. lia.
Qed.

Lemma RUnlock_start_tokens d d' rd i :
  dm_phase d = Ready -> RUnlock_start d = Some d' -> (tokens d' rd i <= tokens d rd i)%nat.
Proof.
  intros Hp. unfold RUnlock_start. destruct (readersLocks d) as [|locks rest] eqn:E; [done|]. intros [= <-].
  unfold tokens, held_tokens. cbn [dm_phase writeLocks readersLocks dm_late phase_tokens]. rewrite Hp, E.
  cbn [phase_tokens]. destruct rd; repeat case_decide; try done; try lia.
  rewrite occ_locked_indices. cbn. lia.
Qed.

Lemma existsb_replicate n : existsb isLocked (replicate n []) = false.
Proof. by induction n. Qed.

Lemma dinv_step n s s' : dinv n s -> dstep n s s' -> dinv n s'.
Proof.
  intros Hinv Hstep.
  assert (∀ k d, d_mutexes s !! k = Some d -> mutex_wf n d) as Hwf.
  { intros k d. pose proof (inv_mutexes _ _ Hinv) as Hm. rewrite Forall_lookup in Hm. apply Hm. }
  destruct Hstep as
    [ k d rd Hk Hp | k d rd p1 i p2 ch c l b l' now Hk Hp Hi Hs
    | k d rd p1 i p2 ch c l b l' now Hk Hp Hi Hs | k d rd p1 i p2 ch c Hk Hp
    | k d rd pend g ch c Hk Hp Hf | k d rd pend ch c Hk Hp Hf
    | k d rd pend ch c i rel s' Hk Hp Hr Hrel | k d rd ch c Hk Hp Hf Hr
    | k d d' Hk Hp Hu | k d d' Hk Hp Hu | k d rd i todo s' Hk Hp Hrel | k d rd Hk Hp
    | k d rd l1 i l2 s' Hk Hl Hrel ]; specialize (Hwf k d Hk).
  - eapply dinv_update; [done|done|done|done| |].
    + apply mutex_wf_phase; [done|]. apply length_replicate.
    + intros rd' i. unfold tokens, held_tokens, set_phase. cbn [dm_phase writeLocks readersLocks dm_late].
      rewrite Hp. cbn. case_decide; [|lia]. rewrite at_index_replicate. cbn. lia.
  - eapply dinv_serve; [done..|]. by destruct b.
  - eapply dinv_serve; [done..|]. done.
  - eapply dinv_update; [done|done|done|done| |].
    + apply mutex_wf_phase; [done|]. by eapply locking_wf.
    + intros rd' j. unfold tokens, held_tokens, set_phase. cbn [dm_phase writeLocks readersLocks dm_late].
      rewrite Hp. cbn [phase_tokens]. rewrite grants_at_app, grants_at_one. cbn [g_lockUID].
      rewrite (decide_False (P := isLocked [] = true /\ _)) by (by intros [? _]). case_decide; lia.
  - eapply dinv_update; [done|done|done|done| |].
    + apply mutex_wf_phase; [done|]. rewrite recv_grant_length. by eapply locking_wf.
    + intros rd' j. unfold tokens, held_tokens, set_phase. cbn [dm_phase writeLocks readersLocks dm_late].
      rewrite Hp. cbn [phase_tokens]. pose proof (recv_grant_tokens n rd c g ch j) as Ht.
      unfold coll_tokens in Ht. case_decide; lia.
  - eapply dinv_update; [done|done|done|done| |].
    + apply mutex_wf_phase; [done|]. rewrite recv_timeout_length. by eapply locking_wf.
    + intros rd' j. unfold tokens, held_tokens, set_phase. cbn [dm_phase writeLocks readersLocks dm_late].
      rewrite Hp. cbn [phase_tokens]. pose proof (recv_timeout_tokens n rd c ch j) as Ht.
      unfold coll_tokens in Ht. case_decide; lia.
  - eapply dinv_released; [done..| |].
    + apply mutex_wf_phase; [done|]. cbn [co_locks]. exact (locking_wf _ _ _ _ _ _ Hwf Hp).
    + intros rd' j. unfold tokens, held_tokens, set_phase. cbn [dm_phase writeLocks readersLocks dm_late].
      rewrite Hp. cbn [phase_tokens co_locks co_release]. rewrite Hr, occ_cons.
      repeat case_decide; try lia; exfalso; naive_solver.
  - eapply dinv_update; [done|done|done|done| |].
    + apply lock_return_wf; [done|]. by eapply locking_wf.
    + intros rd' j. by apply lock_return_tokens.
  - assert (dm_id d' = dm_id d /\ Names d' = Names d /\ mutex_wf n d') as (? & ? & ?).
    { revert Hu. unfold Unlock_start. destruct (existsb _ _); [|done]. intros [= <-].
      destruct Hwf as (H1 & H2 & H3 & H4). split; [done|]. split; [done|].
      split; [apply length_replicate|]. cbn [writeLocks readersLocks dm_phase].
      rewrite existsb_replicate. done. }
    eapply dinv_update; [done..|]. intros rd j. by eapply Unlock_start_tokens.
  - assert (dm_id d' = dm_id d /\ Names d' = Names d /\ mutex_wf n d') as (? & ? & ?).
    { revert Hu. unfold RUnlock_start. destruct (readersLocks d) as [|x rest] eqn:E; [done|]. intros [= <-].
      destruct Hwf as (H1 & H2 & H3 & H4). rewrite E in H3. inversion_clear H3. done. }
    eapply dinv_update; [done..|]. intros rd j. by eapply RUnlock_start_tokens.
  - eapply dinv_released; [done..| |].
    + by apply mutex_wf_phase.
    + intros rd' j. unfold tokens, held_tokens, set_phase. cbn [dm_phase writeLocks readersLocks dm_late].
      rewrite Hp. cbn [phase_tokens]. rewrite occ_cons. repeat case_decide; try lia; exfalso; naive_solver.
  - eapply dinv_update; [done|done|done|done| |].
    + by apply mutex_wf_phase.
    + intros rd' j. unfold tokens, held_tokens, set_phase. cbn [dm_phase writeLocks readersLocks dm_late].
      rewrite Hp. cbn. case_decide; cbn; lia.
  - eapply dinv_released; [done..| |].
    + by destruct Hwf as (? & ? & ? & ?).
    + intros rd' j. unfold tokens, held_tokens, set_late. cbn [dm_phase writeLocks readersLocks dm_late].
      rewrite Hl, !late_at_app, late_at_cons. repeat case_decide; try lia; exfalso; naive_solver.
Qed.

Lemma dinv_initial n users :
  NoDup users.*1 -> dinv n (initial n users).
Proof.
  intros Hnd. split; cbn [d_nodes d_mutexes initial].
  - apply length_replicate.
  - apply Forall_replicate. done.
  - apply Forall_fmap, Forall_forall. intros [id names] _. cbn.
    split; [apply length_replicate|]. cbn [writeLocks NewDRWMutex]. by rewrite existsb_replicate.
  - intros k1 k2 d1 d2 H1 H2 E. rewrite list_lookup_fmap in H1, H2.
    apply fmap_Some in H1 as ([id1 ns1] & H1 & ->). apply fmap_Some in H2 as ([id2 ns2] & H2 & ->).
    cbn in E. subst id2. eapply (NoDup_lookup users.*1); [done| |]; rewrite list_lookup_fmap.
    + by rewrite H1.
    + by rewrite H2.
  - intros k d i l Hk Hi. rewrite list_lookup_fmap in Hk. apply fmap_Some in Hk as ([id ns] & _ & ->).
    intros rd r _. unfold tokens, held_tokens. cbn. rewrite at_index_replicate. destruct rd; cbn; lia.
Qed.

(** Two arrays over the same servers with more grants than servers share one. *)
Lemma quorum_overlap (l1 l2 : list bytes) :
  length l1 = length l2 -> (length l1 < n_locked l1 + n_locked l2)%nat ->
  ∃ i, at_index l1 i = 1%nat /\ at_index l2 i = 1%nat.
Proof.
  revert l2. induction l1 as [|x l1 IH]; intros [|y l2] Hl; cbn in Hl; [cbn; lia|done..|].
  unfold n_locked in *. rewrite !filter_cons. cbn [length].
  destruct (decide (isLocked x = true)) as [Hx|Hx], (decide (isLocked y = true)) as [Hy|Hy]; cbn [length].
  1:{ intros _. exists 0%nat. unfold at_index. cbn. by rewrite Hx, Hy. }
  all: intros H; destruct (IH l2) as (i & ? & ?); [lia|lia|]; by exists (S i).
Qed.

Lemma quorums_overlap n : (n < dquorum n + dquorum n)%nat /\ (n < dquorum n + dquorumReads n)%nat.
Proof.
  unfold dquorum, dquorumReads. pose proof (Nat.div_mod_eq n 2). pose proof (Nat.mod_upper_bound n 2).
  pose proof (Nat.div_mod_eq (n + 1) 2). pose proof (Nat.mod_upper_bound (n + 1) 2). lia.
Qed.

Lemma held_entry n s k d i l (rd : bool) (locks : list bytes) r :
  dinv n s -> d_mutexes s !! k = Some d -> d_nodes s !! i = Some l ->
  (if rd then locks ∈ readersLocks d else locks = writeLocks d) ->
  at_index locks i = 1%nat -> covers d rd r -> (0 < holds_as (negb rd) l (dm_id d) r)%nat.
Proof.
  intros Hinv Hk Hi Hlocks Hat Hc. pose proof (inv_cover _ _ Hinv k d i l Hk Hi rd r Hc) as H.
  assert (1 <= held_tokens d rd i)%nat; [|unfold tokens in H; lia].
  unfold held_tokens. destruct rd; [|subst; lia].
  apply list_elem_of_split in Hlocks as (l1 & l2 & ->).
  rewrite fmap_app, fmap_cons, sum_list_app. cbn. lia.
Qed.

(** C14. Mutual exclusion: from lock servers that hold nothing, under any
    interleaving of the steps of any number of mutexes with different operation
    IDs, a mutex that holds its names for writing shares none of them with
    another mutex that holds for writing, and not the name another mutex holds
    for reading. *)
Theorem dsync_exclusive n users s k1 k2 d1 d2 r :
  NoDup users.*1 -> rtc (dstep n) (initial n users) s ->
  d_mutexes s !! k1 = Some d1 -> d_mutexes s !! k2 = Some d2 -> k1 <> k2 ->
  holds_write d1 -> r ∈ Names d1 ->
  (holds_write d2 -> r ∉ Names d2) /\ (holds_read d2 -> head (Names d2) <> Some r).
Proof.
  intros Hnd Hreach H1 H2 Hne Hw Hr.
  assert (dinv n s) as Hinv.
  { pose proof (dinv_initial n users Hnd) as H0. clear -Hreach H0.
    induction Hreach as [|x y z Hs _ IH]; [done|]. apply IH. by eapply dinv_step. }
  pose proof (inv_mutexes _ _ Hinv) as Hm. rewrite Forall_lookup in Hm.
  destruct (Hm k1 d1 H1) as (Hl1 & Hq1 & _). destruct (Hm k2 d2 H2) as (Hl2 & Hq2 & Hrd2 & _).
  destruct (quorums_overlap n) as [Hqq Hqr].
  assert (dm_id d1 <> dm_id d2) as Hid by (intros E; apply Hne; by eapply (inv_ids _ _ Hinv)).
  assert (∀ (rd : bool) (locks : list bytes), (if rd then locks ∈ readersLocks d2 else locks = writeLocks d2) ->
            length locks = n -> (n < n_locked (writeLocks d1) + n_locked locks)%nat ->
            covers d2 rd r -> False) as Hclash.
  { intros rd locks Hlocks Hlen Hcount Hc.
    destruct (quorum_overlap (writeLocks d1) locks) as (i & Hi1 & Hi2); [congruence|congruence|].
    assert (∃ l, d_nodes s !! i = Some l) as [l Hl].
    { apply lookup_lt_is_Some. rewrite (inv_nodes _ _ Hinv), <- Hl1.
      apply lookup_lt_is_Some. unfold at_index in Hi1. by destruct (writeLocks d1 !! i). }
    pose proof (held_entry n s k1 d1 i l false (writeLocks d1) r Hinv H1 Hl eq_refl Hi1 Hr) as E1.
    pose proof (held_entry n s k2 d2 i l rd locks r Hinv H2 Hl Hlocks Hi2 Hc) as E2.
    pose proof (inv_wf _ _ Hinv) as Hwf. rewrite Forall_lookup in Hwf.
    destruct (one_writer l (dm_id d1) (dm_id d2) r (Hwf i l Hl) E1) as (Hz1 & Hz2 & _).
    destruct rd; cbn [negb] in E2; [lia|]. rewrite Hz1 in E2 by done. lia. }
  split.
  - intros Hw2 Hr2. apply (Hclash false (writeLocks d2)); [done|done| |done].
    specialize (Hq1 Hw). specialize (Hq2 Hw2). lia.
  - intros Hrd Hhead. destruct (readersLocks d2) as [|locks rest] eqn:E; [done|].
    inversion Hrd2 as [|?? [Hlen Hq] _]. subst.
    apply (Hclash true locks); [set_solver|done| |done]. specialize (Hq1 Hw). lia.
Qed.

(** ** A run: of two writers the first gets the lock *)
Module DsyncScenario.
Definition name : bytes := str "b/o".
Definition users : list (bytes * list bytes) := [(str "u1", [name]); (str "u2", [name])].

(** One reply of server [i] to the lock request of the first mutex, received. *)
Definition served (s : dstate) (i : nat) : dstate :=
  match d_mutexes s !! 0%nat, d_nodes s !! i with
  | Some d, Some l =>
      match dm_phase d with
      | Locking rd (_ :: pend) [] c =>
          let '(b, l') := locker_Lock l (lock_args d) 1 in
          set_mutex (set_mutex (set_node s i l') 0
                       (set_phase d (Locking rd pend [mkGranted i (if b then dm_id d else [])] c))) 0
            (set_phase d (Locking rd pend [] (recv_grant 3 rd c (mkGranted i (if b then dm_id d else [])))))
      | _ => s
      end
  | _, _ => s
  end.

Definition s1 : dstate :=
  set_mutex (initial 3 users) 0
    (set_phase (NewDRWMutex 3 (str "u1") [name]) (Locking false (seq 0 3) [] (init_collector 3))).
Definition s4 : dstate := served (served (served s1 0) 1) 2.
Definition held : dstate :=
  match d_mutexes s4 !! 0%nat with
  | Some d => match dm_phase d with
              | Locking rd _ ch c => set_mutex s4 0 (lock_return 3 d rd ch c)
              | _ => s4
              end
  | None => s4
  end.

Lemma reachable : rtc (dstep 3) (initial 3 users) held.
Proof.
  eapply rtc_l; [eapply (step_lock 3 _ 0 _ false); reflexivity|].
  do 3 (eapply rtc_l; [eapply (step_serve 3 _ 0 _ false []) with (now := 1); reflexivity|];
        eapply rtc_l; [eapply (step_collect 3 _ 0); reflexivity|]).
  eapply rtc_l; [eapply (step_return 3 _ 0); reflexivity|].
  match goal with |- rtc _ ?x ?y => replace x with y by (vm_compute; reflexivity) end.
  reflexivity.
Qed.
End DsyncScenario.

Lemma dsync_exclusive_witness :
  ∃ d1 d2, d_mutexes DsyncScenario.held !! 0%nat = Some d1 /\ d_mutexes DsyncScenario.held !! 1%nat = Some d2 /\
    holds_write d1 /\ (holds_write d2 -> DsyncScenario.name ∉ Names d2).
Proof.
  eexists _, _. split; [vm_compute; reflexivity|]. split; [vm_compute; reflexivity|].
  split; [vm_compute; reflexivity|].
  eapply (dsync_exclusive 3 DsyncScenario.users DsyncScenario.held 0 1).
  - apply (bool_decide_unpack _). vm_compute. exact I.
  - exact DsyncScenario.reachable.
  - vm_compute. reflexivity.
  - vm_compute. reflexivity.
  - discriminate.
  - vm_compute. reflexivity.
  - apply (bool_decide_unpack _). vm_compute. exact I.
Defined.
