(* ===== verification/Bufio.v ===== *)
(** * bufio: the buffered reader over a request body

    The parts of Go's [bufio.Reader] and [io.ReadFull] that the chunked reader
    of cmd/streaming-signature-v4.go uses.  A request body is a script: the
    pieces that its [Read] calls return at most, and the error that follows
    them, alone or together with the last bytes. *)
From S2P Require Import Prelude GoLib Errors.

Record source := mkSource { s_pieces : list bytes; s_err : error; s_eager : bool }.

(** [Read] of the body into a buffer of [n] bytes. *)
Definition src_Read (n : nat) (s : source) : bytes * option error * source :=
  match s_pieces s with
  | [] => ([], Some (s_err s), s)
  | p :: ps =>
      if (length p <=? n)%nat
      then (p, if s_eager s && bool_decide (ps = []) then Some (s_err s) else None,
            mkSource ps (s_err s) (s_eager s))
      else (take n p, None, mkSource (drop n p :: ps) (s_err s) (s_eager s))
  end.

(** The reader: the bytes buffered and not read yet, and the pending error. *)
Record bufReader := mkBuf { br_buf : bytes; br_err : option error; br_src : source }.

Definition bufSize : nat := Z.to_nat 4096.
#[global] Arguments bufSize : simpl never.
Definition maxConsecutiveEmptyReads : nat := 100.
#[global] Arguments maxConsecutiveEmptyReads : simpl never.

Definition ErrNoProgress : error := errText (str "multiple Read calls return no data or error").
Definition ErrBufferFull : error := errText (str "bufio: buffer full").

Definition bufio_NewReader (body : source) : bufReader := mkBuf [] None body.

(** [fill] tries [k] reads until one returns bytes or an error. *)
Fixpoint fill_loop (k : nat) (b : bufReader) : bufReader :=
  match k with
  | O => mkBuf (br_buf b) (Some ErrNoProgress) (br_src b)
  | S k' =>
      let '(got, err, src) := src_Read (bufSize - length (br_buf b)) (br_src b) in
      match err with
      | Some e => mkBuf (br_buf b ++ got) (Some e) src
      | None => if decide (got = []) then fill_loop k' (mkBuf (br_buf b) None src)
                else mkBuf (br_buf b ++ got) None src
      end
  end.
Definition fill (b : bufReader) : bufReader := fill_loop maxConsecutiveEmptyReads b.

(** The bytes up to and including the first [d], and those after it. *)
Fixpoint cut_after (d : ascii) (s : bytes) : option (bytes * bytes) :=
  match s with
  | [] => None
  | c :: s' => if decide (c = d) then Some ([c], s')
               else option_map (λ '(l, r), (c :: l, r)) (cut_after d s')
  end.

(** [ReadSlice]: every turn of its loop fills the buffer further. *)
Fixpoint ReadSlice_loop (fuel : nat) (delim : ascii) (b : bufReader) : bytes * option error * bufReader :=
  match cut_after delim (br_buf b) with
  | Some (line, rest) => (line, None, mkBuf rest (br_err b) (br_src b))
  | None =>
      match br_err b with
      | Some e => (br_buf b, Some e, mkBuf [] None (br_src b))
      | None =>
          if (bufSize <=? length (br_buf b))%nat
          then (br_buf b, Some ErrBufferFull, mkBuf [] None (br_src b))
          else match fuel with
               | O => (br_buf b, Some ErrNoProgress, b)
               | S fuel' => ReadSlice_loop fuel' delim (fill b)
               end
      end
  end.
Definition ReadSlice (delim : ascii) (b : bufReader) : bytes * option error * bufReader :=
  ReadSlice_loop (S bufSize) delim b.

(** [Read] into a buffer of [n] bytes: what is buffered, else one read of the
    body, which bypasses the buffer when [n] is at least its size. *)
Definition br_Read (n : nat) (b : bufReader) : bytes * option error * bufReader :=
  if decide (n = 0%nat) then
    if decide (br_buf b = []) then ([], br_err b, mkBuf [] None (br_src b)) else ([], None, b)
  else if decide (br_buf b <> []) then
    (take n (br_buf b), None, mkBuf (drop n (br_buf b)) (br_err b) (br_src b))
  else
    match br_err b with
    | Some e => ([], Some e, mkBuf [] None (br_src b))
    | None =>
        if (bufSize <=? n)%nat then
          let '(got, err, src) := src_Read n (br_src b) in (got, err, mkBuf [] None src)
        else
          let '(got, err, src) := src_Read bufSize (br_src b) in
          if decide (got = []) then ([], err, mkBuf [] None src)
          else (take n got, None, mkBuf (drop n got) err src)
    end.

(** What is left to be read: in bytes, and counting the pieces too. *)
Definition rest_of (b : bufReader) : bytes := br_buf b ++ concat (s_pieces (br_src b)).
Definition available (b : bufReader) : nat := (length (rest_of b) + length (s_pieces (br_src b)))%nat.

(** [io.ReadFull(b, buf)] with [n] bytes of [buf] still to fill: every [Read]
    returns bytes, uses up a piece or fails. *)
Fixpoint ReadFull_loop (fuel n : nat) (got : bytes) (b : bufReader) : bytes * option error * bufReader :=
  if decide (n = 0%nat) then (got, None, b)
  else
    match fuel with
    | O => (got, Some ErrNoProgress, b)
    | S fuel' =>
        match br_Read n b with
        | (x, None, b') => ReadFull_loop fuel' (n - length x) (got ++ x) b'
        | (x, Some e, b') =>
            if decide (n - length x = 0)%nat then (got ++ x, None, b')
            else (got ++ x, Some (if decide (e = io_EOF /\ got ++ x <> []) then io_ErrUnexpectedEOF else e), b')
        end
    end.
Definition ReadFull (n : nat) (b : bufReader) : bytes * option error * bufReader :=
  ReadFull_loop (S (available b)) n [] b.

(** ** Nothing is lost or made up *)
Lemma src_Read_split n s got err s' :
  src_Read n s = (got, err, s') -> concat (s_pieces s) = got ++ concat (s_pieces s').
Proof.
  unfold src_Read. destruct (s_pieces s) as [|p ps] eqn:E.
  - intros [= <- <- <-]. by rewrite E.
  - destruct (_ <=? _)%nat; intros [= <- <- <-]; simpl; [done|].
    by rewrite app_assoc, take_drop.
Qed.

Lemma src_Read_pieces n s got err s' :
  src_Read n s = (got, err, s') ->
  (length (s_pieces s') <= length (s_pieces s))%nat /\
  (got = [] -> err = None -> (0 < n)%nat -> (length (s_pieces s') < length (s_pieces s))%nat).
Proof.
  unfold src_Read. destruct (s_pieces s) as [|p ps] eqn:E.
  - intros [= <- <- <-]. by rewrite E.
  - destruct (Nat.leb_spec (length p) n) as [Hp|Hp]; intros [= <- <- <-]; simpl; [lia|].
    split; [lia|]. intros Ht _ Hn. apply (f_equal length) in Ht. rewrite length_take in Ht. simpl in Ht. lia.
Qed.

Lemma src_Read_length n s got err s' : src_Read n s = (got, err, s') -> (length got <= n)%nat.
Proof.
  unfold src_Read. destruct (s_pieces _) as [|p ps]; [intros [= <- <- <-]; simpl; lia|].
  destruct (Nat.leb_spec (length p) n); intros [= <- <- <-]; [done|]. rewrite length_take. lia.
Qed.

Lemma cut_after_app d s l r : cut_after d s = Some (l, r) -> s = l ++ r.
Proof.
  revert l. induction s as [|c s IH]; intros l; simpl; [done|].
  case_decide; [by intros [= <- <-]|].
  destruct (cut_after d s) as [[l' r']|]; [|done]. intros [= <- <-]. simpl. f_equal. by apply IH.
Qed.

Lemma cut_after_line d s l r :
  cut_after d s = Some (l, r) -> exists l0, l = l0 ++ [d] /\ d ∉ l0.
Proof.
  revert l. induction s as [|c s IH]; intros l; simpl; [done|].
  case_decide as Hc; [intros [= <- <-]; exists []; subst; split; [done|apply not_elem_of_nil]|].
  destruct (cut_after d s) as [[l' r']|]; [|done]. intros [= <- <-].
  destruct (IH _ eq_refl) as (l0 & -> & Hl). exists (c :: l0). split; [done|].
  rewrite not_elem_of_cons. by split; [congruence|].
Qed.

Lemma cut_after_first d l r : d ∉ l -> cut_after d (l ++ d :: r) = Some (l ++ [d], r).
Proof.
  induction l as [|c l IH]; simpl; intros Hl; [by rewrite decide_True|].
  rewrite not_elem_of_cons in Hl. destruct Hl as [Hc Hl].
  rewrite decide_False by congruence. by rewrite IH.
Qed.

Lemma cut_after_none d s : d ∉ s -> cut_after d s = None.
Proof.
  induction s as [|c s IH]; simpl; intros Hs; [done|]. rewrite not_elem_of_cons in Hs.
  destruct Hs as [Hc Hs]. rewrite decide_False by congruence. by rewrite IH.
Qed.

Lemma fill_loop_rest k b :
  rest_of (fill_loop k b) = rest_of b /\
  (length (s_pieces (br_src (fill_loop k b))) <= length (s_pieces (br_src b)))%nat.
Proof.
  revert b. induction k as [|k IH]; intros b; cbn [fill_loop]; [done|].
  destruct (src_Read _ _) as [[got err] src] eqn:E.
  pose proof (src_Read_split _ _ _ _ _ E) as Hs. pose proof (src_Read_pieces _ _ _ _ _ E) as [Hp _].
  assert (rest_of b = br_buf b ++ got ++ concat (s_pieces src)) as Hr by (unfold rest_of; by rewrite Hs).
  destruct err as [e|]; [|case_decide as Hg].
  - unfold rest_of at 1. cbn [br_buf br_src]. rewrite Hr, app_assoc. done.
  - destruct (IH (mkBuf (br_buf b) None src)) as [H1 H2]. rewrite H1. cbn [br_src] in H2.
    rewrite Hr, Hg. unfold rest_of. cbn [br_buf br_src]. split; [done|lia].
  - unfold rest_of at 1. cbn [br_buf br_src]. rewrite Hr, app_assoc. done.
Qed.

Lemma ReadSlice_loop_rest fuel d b line b' :
  ReadSlice_loop fuel d b = (line, None, b') ->
  rest_of b = line ++ rest_of b' /\ (length (s_pieces (br_src b')) <= length (s_pieces (br_src b)))%nat /\
  exists l0, line = l0 ++ [d] /\ d ∉ l0.
Proof.
  revert b. induction fuel as [|fuel IH]; intros b; cbn [ReadSlice_loop];
    destruct (cut_after d (br_buf b)) as [[l r]|] eqn:E.
  1,3: intros [= <- <-]; unfold rest_of; cbn [br_buf br_src];
    rewrite (cut_after_app _ _ _ _ E), app_assoc; split_and!; [done..|];
    by eapply cut_after_line.
  - by destruct (br_err b); [|destruct (_ <=? _)%nat].
  - destruct (br_err b); [done|]. destruct (_ <=? _)%nat; [done|]. intros Hl.
    destruct (fill_loop_rest maxConsecutiveEmptyReads b) as [H1 H2].
    fold (fill b) in H1, H2. destruct (IH (fill b) Hl) as (H3 & H4 & H5).
    rewrite <- H1. split_and!; [done|lia|done].
Qed.

(** A line that was read is in front of the rest, and at least one byte long. *)
Lemma ReadSlice_rest d b line b' :
  ReadSlice d b = (line, None, b') ->
  rest_of b = line ++ rest_of b' /\ (available b' < available b)%nat /\
  exists l0, line = l0 ++ [d] /\ d ∉ l0.
Proof.
  intros Hl. apply ReadSlice_loop_rest in Hl as (H1 & H2 & l0 & -> & H3).
  split; [done|]. split; [|eauto]. unfold available. rewrite H1, !length_app. simpl. lia.
Qed.

Lemma br_Read_rest n b got err b' :
  br_Read n b = (got, err, b') ->
  rest_of b = got ++ rest_of b' /\ (length got <= n)%nat /\
  ((0 < n)%nat -> err = None -> (available b' < available b)%nat) /\
  (length (s_pieces (br_src b')) <= length (s_pieces (br_src b)))%nat.
Proof.
  unfold br_Read, available. case_decide as Hn; [case_decide as Hb|case_decide as Hb].
  - intros [= <- <- <-]. unfold rest_of. cbn [br_buf br_src]. rewrite Hb. split_and!; simpl; lia || done.
  - intros [= <- <- <-]. split_and!; simpl; lia || done.
  - intros [= <- <- <-]. unfold rest_of. cbn [br_buf br_src].
    rewrite !app_assoc, take_drop, length_take. split_and!; [done|lia| |done].
    intros _ _. rewrite !length_app, length_drop. destruct (br_buf b); [done|]. simpl. lia.
  - assert (Eb : br_buf b = []) by (by destruct (br_buf b); [|destruct Hb]).
    unfold rest_of. rewrite Eb. simpl app.
    destruct (br_err b) as [e|]; [by intros [= <- <- <-]; split_and!; simpl; lia || done|].
    destruct (_ <=? n)%nat eqn:Ew.
    + destruct (src_Read n (br_src b)) as [[x e] src] eqn:Es. intros [= <- <- <-].
      pose proof (src_Read_split _ _ _ _ _ Es) as Hs. pose proof (src_Read_pieces _ _ _ _ _ Es) as [Hp Hq].
      pose proof (src_Read_length _ _ _ _ _ Es) as Hx.
      cbn [br_buf br_src]. simpl app. rewrite Hs. split_and!; [done|done| |done].
      intros _ He. rewrite length_app. destruct x; [|simpl; lia]. specialize (Hq eq_refl He). simpl. lia.
    + destruct (src_Read bufSize (br_src b)) as [[x e] src] eqn:Es.
      pose proof (src_Read_split _ _ _ _ _ Es) as Hs. pose proof (src_Read_pieces _ _ _ _ _ Es) as [Hp Hq].
      assert (0 < bufSize)%nat as Hpos by (unfold bufSize; lia).
      case_decide as Hx; intros [= <- <- <-]; cbn [br_buf br_src]; simpl app; rewrite Hs.
      * rewrite Hx. split_and!; simpl; [done|lia| |done]. intros _ ->. specialize (Hq Hx eq_refl Hpos). lia.
      * rewrite app_assoc, take_drop, length_take. split_and!; [done|lia| |done].
        intros _ _. rewrite !length_app, length_drop. destruct x; [done|]. simpl. lia.
Qed.

Lemma ReadFull_loop_rest fuel n got b x b' :
  ReadFull_loop fuel n got b = (x, None, b') ->
  exists y, x = got ++ y /\ length y = n /\ rest_of b = y ++ rest_of b' /\
    (length (s_pieces (br_src b')) <= length (s_pieces (br_src b)))%nat.
Proof.
  revert n got b. induction fuel as [|fuel IH]; intros n got b; cbn [ReadFull_loop];
    (case_decide as Hn; [intros [= <- <-]; exists []; rewrite app_nil_r; split_and!; done|]); [done|].
  destruct (br_Read n b) as [[y err] b1] eqn:Er. pose proof (br_Read_rest _ _ _ _ _ Er) as (H1 & H2 & _ & H3).
  destruct err as [e|].
  - case_decide as Hd; [|done]. intros [= <- <-]. exists y. split_and!; [done|lia|done|done].
  - intros Hl. apply IH in Hl as (z & -> & Hz & Hr & Hp). exists (y ++ z).
    rewrite app_assoc, length_app, H1, Hr, app_assoc. split_and!; [done|lia|done|lia].
Qed.

Lemma ReadFull_rest n b x b' :
  ReadFull n b = (x, None, b') -> (0 < n)%nat ->
  length x = n /\ rest_of b = x ++ rest_of b' /\ (available b' < available b)%nat.
Proof.
  intros Hl Hn. apply ReadFull_loop_rest in Hl as (y & -> & Hy & Hr & Hp). simpl.
  split_and!; [done|done|]. unfold available. rewrite Hr, length_app. lia.
Qed.

(** ** Bodies without empty pieces

    Then a pending error comes after the last byte, and every read of a body
    that has bytes left makes progress. *)
Definition steady_src (s : source) : Prop := Forall (λ p, p <> []) (s_pieces s).
Definition steady (b : bufReader) : Prop :=
  steady_src (br_src b) /\ (br_err b <> None -> s_pieces (br_src b) = []).

Lemma src_Read_steady n s :
  steady_src s -> s_pieces s <> [] -> (0 < n)%nat ->
  exists got err s', src_Read n s = (got, err, s') /\ got <> [] /\ steady_src s' /\
    (err <> None -> s_pieces s' = []).
Proof.
  unfold steady_src, src_Read. intros Hs Hne Hn. destruct (s_pieces s) as [|p ps]; [done|].
  inversion_clear Hs as [|? ? Hp Hps]. destruct (Nat.leb_spec (length p) n) as [Hl|Hl].
  - do 3 eexists. split; [done|]. split_and!; [done|done|]. simpl.
    destruct (s_eager s); simpl; [|done]. case_bool_decide; done.
  - do 3 eexists. split; [done|]. split_and!; [|simpl; constructor; [|done]|done].
    + destruct p; simpl in *; [lia|]. by destruct n; [lia|].
    + intros Hd. apply (f_equal length) in Hd. rewrite length_drop in Hd. simpl in Hd. lia.
Qed.

Lemma rest_more b : br_buf b <> rest_of b -> s_pieces (br_src b) <> [].
Proof. intros H E. apply H. unfold rest_of. by rewrite E, app_nil_r. Qed.

Lemma fill_steady b :
  steady b -> br_err b = None -> s_pieces (br_src b) <> [] -> (length (br_buf b) < bufSize)%nat ->
  steady (fill b) /\ (length (br_buf b) < length (br_buf (fill b)))%nat.
Proof.
  intros [Hs _] He Hne Hl. unfold fill.
  assert (∃ k, maxConsecutiveEmptyReads = S k) as [k ->] by by exists 99%nat.
  cbn [fill_loop].
  destruct (src_Read_steady (bufSize - length (br_buf b)) _ Hs Hne) as (got & err & s' & -> & Hg & Hs' & Hp); [lia|].
  assert (0 < length got)%nat by (destruct got; [done|simpl; lia]).
  destruct err as [e|]; [|rewrite decide_False by done];
    (split; [split; [done|]|cbn [br_buf]; rewrite length_app; lia]); [intros _; by apply Hp|done].
Qed.

Lemma cut_after_found d buf t l r l' r' :
  cut_after d buf = Some (l', r') -> buf ++ t = l ++ d :: r -> d ∉ l -> l' = l ++ [d].
Proof.
  intros E Hb Hd. pose proof (cut_after_line _ _ _ _ E) as (l0 & -> & Hl0). apply cut_after_app in E as ->.
  pose proof (cut_after_first d l r Hd) as Hc. rewrite <- Hb, <- !app_assoc in Hc. cbn [app] in Hc.
  rewrite cut_after_first in Hc by done. by injection Hc as -> _.
Qed.

Lemma cut_after_short d buf t l r :
  cut_after d buf = None -> buf ++ t = l ++ d :: r -> (length buf <= length l)%nat.
Proof.
  intros E Hb. destruct (le_lt_dec (length buf) (length l)) as [|Hgt]; [done|exfalso].
  assert (buf !! length l = Some d) as Hl.
  { rewrite <- (lookup_app_l buf t) by done. rewrite Hb. by rewrite list_lookup_middle. }
  apply list_elem_of_lookup_2, list_elem_of_split in Hl as (l1 & l2 & Hs).
  destruct (cut_after d buf) eqn:E2; [done|]. clear E. revert l1 Hs E2. clear.
  induction buf as [|c buf IH]; intros [|x l1] Hs; simplify_eq/=; [by rewrite decide_True|].
  case_decide; [done|]. destruct (cut_after d _) eqn:E; [done|]. by apply (IH l1).
Qed.

Lemma ReadSlice_loop_steady fuel d l r b :
  (bufSize < fuel + length (br_buf b))%nat ->
  steady b -> rest_of b = l ++ d :: r -> d ∉ l -> (length l < bufSize)%nat ->
  exists b', ReadSlice_loop fuel d b = (l ++ [d], None, b') /\ steady b'.
Proof.
  revert b. induction fuel as [|fuel IH]; intros b Hf Hst Hr Hd Hl;
    (cbn [ReadSlice_loop]; destruct (cut_after d (br_buf b)) as [[l' r']|] eqn:E;
     [rewrite (cut_after_found _ _ _ _ _ _ _ E Hr Hd); eexists; split; [done|exact Hst]|]);
    pose proof (cut_after_short _ _ _ _ _ E Hr) as Hlen; [lia|].
  assert (s_pieces (br_src b) <> []) as Hne.
  { apply rest_more. intros Hb. rewrite Hb, Hr, length_app in Hlen. simpl in Hlen. lia. }
  destruct (br_err b) as [e|] eqn:He; [destruct Hst as [_ Hst]; by rewrite Hst in Hne by congruence|].
  destruct (Nat.leb_spec bufSize (length (br_buf b))); [lia|].
  destruct (fill_steady b Hst He Hne) as [Hst' Hg]; [done|].
  apply IH; [lia|done| |done|done]. rewrite <- Hr. apply fill_loop_rest.
Qed.

Lemma ReadSlice_steady d l r b :
  steady b -> rest_of b = l ++ d :: r -> d ∉ l -> (length l < bufSize)%nat ->
  exists b', ReadSlice d b = (l ++ [d], None, b') /\ steady b' /\ rest_of b' = r.
Proof.
  intros Hst Hr Hd Hl.
  destruct (ReadSlice_loop_steady (S bufSize) d l r b) as (b' & Hb' & Hst'); [lia|done..|].
  exists b'. split_and!; [done|done|]. apply ReadSlice_rest in Hb' as (H1 & _).
  rewrite Hr, <- app_assoc in H1. by apply app_inv_head in H1 as [= ->].
Qed.

Lemma br_Read_steady n b :
  steady b -> (0 < n)%nat -> rest_of b <> [] -> (n < bufSize \/ n < length (rest_of b))%nat ->
  exists got b', br_Read n b = (got, None, b') /\ got <> [] /\ steady b'.
Proof.
  intros [Hs He] Hn Hr Hb. unfold br_Read. rewrite decide_False by lia. case_decide as Hbuf.
  - do 2 eexists. split; [done|]. split; [|by split].
    destruct (br_buf b); [done|]. by destruct n; [lia|].
  - assert (Eb : br_buf b = []) by (by destruct (br_buf b); [|destruct Hbuf]).
    assert (s_pieces (br_src b) <> []) as Hne.
    { intros E. apply Hr. unfold rest_of. by rewrite Eb, E. }
    destruct (br_err b) as [e|]; [by rewrite He in Hne|].
    destruct (Nat.leb_spec bufSize n) as [Hw|Hw].
    + destruct (src_Read_steady n _ Hs Hne Hn) as (got & err & s' & E & Hg & Hs' & Hp). rewrite E.
      destruct err as [e|].
      * assert (rest_of b = got) as Hgot.
        { unfold rest_of. rewrite Eb, (src_Read_split _ _ _ _ _ E), Hp by done. apply app_nil_r. }
        apply src_Read_length in E. rewrite Hgot in Hb. lia.
      * do 2 eexists. split; [done|]. split; [done|]. by split.
    + destruct (src_Read_steady bufSize _ Hs Hne) as (got & err & s' & -> & Hg & Hs' & Hp); [lia|].
      rewrite decide_False by done. do 2 eexists. split; [done|]. split; [|by split].
      destruct got; [done|]. by destruct n; [lia|].
Qed.

Lemma ReadFull_loop_steady fuel n got b :
  (n <= fuel)%nat -> steady b -> (n < bufSize)%nat -> (n <= length (rest_of b))%nat ->
  exists y b', ReadFull_loop fuel n got b = (got ++ y, None, b') /\ steady b'.
Proof.
  revert n got b. induction fuel as [|fuel IH]; intros n got b Hf Hst Hn Hr; cbn [ReadFull_loop];
    (case_decide as H0; [exists [], b; rewrite app_nil_r; done|]); [lia|].
  destruct (br_Read_steady n b) as (x & b1 & E & Hx & Hst1); [done|lia| |by left|].
  { intros E. rewrite E in Hr. simpl in Hr. lia. }
  rewrite E. apply br_Read_rest in E as (H1 & H2 & _).
  assert (0 < length x)%nat by (destruct x; [done|simpl; lia]).
  rewrite H1, length_app in Hr.
  destruct (IH (n - length x)%nat (got ++ x) b1) as (y & b' & E' & Hst'); [lia|done|lia|lia|].
  exists (x ++ y), b'. by rewrite app_assoc.
Qed.

Lemma ReadFull_steady n b x r :
  steady b -> (0 < n < bufSize)%nat -> rest_of b = x ++ r -> length x = n ->
  exists b', ReadFull n b = (x, None, b') /\ steady b' /\ rest_of b' = r.
Proof.
  intros Hst Hn Hr Hx.
  assert (n <= length (rest_of b))%nat by (rewrite Hr, length_app; lia).
  destruct (ReadFull_loop_steady (S (available b)) n [] b) as (y & b' & E & Hst'); [|done|lia|done|].
  { unfold available. lia. }
  simpl in E. fold (ReadFull n b) in E. pose proof E as E2. apply ReadFull_rest in E2 as (Hy & Hr' & _); [|lia].
  rewrite Hr in Hr'. apply app_inj_1 in Hr' as [-> ->]; [|congruence]. by exists b'.
Qed.
