(* ===== verification/Streaming.v ===== *)
(** * cmd/streaming-signature-v4.go: uploads in signed chunks

    The reader that decodes a body in the "aws-chunked" encoding: a state
    machine over a buffered reader that parses the header of each chunk, hands
    out its bytes, and checks the chunk's signature, which covers the signature
    of the chunk before it.  The string to sign and the signing key
    (cmd/signature-v4.go) are computed as the code does; the hash functions are
    an interface. *)
From S2P Require Import Prelude GoLib Errors Metadata GoTime Bufio.

(** ** The hash functions *)
Class SigEnv := {
  sha256_Sum : bytes -> bytes;
  (* [hmac.New(sha256.New, key)] after one [Write] *)
  hmac_sha256 : bytes -> bytes -> bytes;
  hmac_sha256_length k d : length (hmac_sha256 k d) = 32%nat }.

(** ** cmd/signature-v4.go *)
Definition newline : ascii := ascii_of_N 10.
Definition emptySHA256 : bytes :=
  str "e3b0c44298fc1c149afbf4c8996fb92427ae41e4649b934ca495991b7852b855".
Definition signV4ChunkedAlgorithm : bytes := str "AWS4-HMAC-SHA256-PAYLOAD".
Definition serviceS3 : bytes := str "s3".

Definition compareSignatureV4 (sig1 sig2 : bytes) : bool := bool_decide (sig1 = sig2).

Section signing.
Context `{SigEnv}.

Definition sumHMAC (key data : bytes) : bytes := hmac_sha256 key data.

Definition getScope (t : time) (region : bytes) : bytes :=
  strings.Join [Format_yyyymmdd t; region; serviceS3; str "aws4_request"] (str "/").

Definition getSigningKey (secretKey : bytes) (t : time) (region stype : bytes) : bytes :=
  let date := sumHMAC (str "AWS4" ++ secretKey) (Format_yyyymmdd t) in
  let regionBytes := sumHMAC date region in
  let service := sumHMAC regionBytes stype in
  sumHMAC service (str "aws4_request").

Definition getSignature (signingKey stringToSign : bytes) : bytes :=
  hex.EncodeToString (sumHMAC signingKey stringToSign).

Definition getChunkSignature (secretKey seedSignature region : bytes) (date : time) (hashedChunk : bytes)
  : bytes :=
  let stringToSign :=
    signV4ChunkedAlgorithm ++ [newline] ++ Format_iso8601 date ++ [newline] ++
    getScope date region ++ [newline] ++ seedSignature ++ [newline] ++ emptySHA256 ++ [newline] ++
    hashedChunk in
  getSignature (getSigningKey secretKey date region serviceS3) stringToSign.
End signing.

(** ** The header of a chunk *)
Definition isASCIISpace (b : ascii) : bool :=
  let n := N_of_ascii b in ((n =? 32) || (n =? 9) || (n =? 10) || (n =? 13))%N.

Fixpoint drop_spaces (b : bytes) : bytes :=
  match b with
  | [] => []
  | c :: b' => if isASCIISpace c then drop_spaces b' else b
  end.
Definition trimTrailingWhitespace (b : bytes) : bytes := reverse (drop_spaces (reverse b)).

Definition s3ChunkSignatureStr : bytes := str ";chunk-signature=".

(** [bytes.Index] *)
Fixpoint Index (s sep : bytes) : option nat :=
  if decide (sep `prefix_of` s) then Some 0%nat
  else match s with [] => None | _ :: s' => S <$> Index s' sep end.

(** [bytes.SplitN(chunk, sep, 2)[1]]; its argument starts with the separator. *)
Definition parseChunkSignature (chunk : bytes) : bytes :=
  match Index chunk s3ChunkSignatureStr with
  | Some i => drop (i + length s3ChunkSignatureStr) chunk
  | None => []
  end.

Definition parseS3ChunkExtension (buf : bytes) : bytes * bytes :=
  let buf := trimTrailingWhitespace buf in
  match Index buf s3ChunkSignatureStr with
  | None => (buf, [])
  | Some semi => (take semi buf, parseChunkSignature (drop semi buf))
  end.

Definition errChunkByte : error := errText (str "invalid byte in chunk length").
Definition errChunkLarge : error := errText (str "http chunk length too large").

Fixpoint parseHexUint_from (i : nat) (v : bytes) (n : Z) : Z + error :=
  match v with
  | [] => inl n
  | b :: v' =>
      match hex.unhex b with
      | None => inr errChunkByte
      | Some d =>
          if decide (i = 16%nat) then inr errChunkLarge
          else parseHexUint_from (S i) v' (Z.lor (wrap_u 64 (Z.shiftl n 4)) (Z.of_N d))
      end
  end.
Definition parseHexUint (v : bytes) : Z + error := parseHexUint_from 0 v 0.

Definition maxLineLength : nat := Z.to_nat 4096.
#[global] Arguments maxLineLength : simpl never.
Definition errLineTooLong : error := errText (str "header line too long").
Definition errMalformedEncoding : error := errText (str "malformed chunked encoding").
Definition errSignatureMismatch : error := errText (str "Signature does not match").

Definition readChunkLine (b : bufReader) : bytes * bytes * option error * bufReader :=
  match ReadSlice newline b with
  | (_, Some err, b') =>
      ([], [], Some (if decide (err = io_EOF) then io_ErrUnexpectedEOF
                     else if decide (err = ErrBufferFull) then errLineTooLong else err), b')
  | (buf, None, b') =>
      if (maxLineLength <=? length buf)%nat then ([], [], Some errLineTooLong, b')
      else let '(hexChunkSize, hexChunkSignature) := parseS3ChunkExtension buf in
           (hexChunkSize, hexChunkSignature, None, b')
  end.

Definition CRLF : bytes := [ascii_of_N 13; newline].
Definition readCRLF (b : bufReader) : option error * bufReader :=
  match ReadFull 2 b with
  | (_, Some err, b') => (Some err, b')
  | (buf, None, b') => (if decide (buf = CRLF) then None else Some errMalformedEncoding, b')
  end.

(** ** The reader *)
Inductive chunkState : Type := readChunkHeader | readChunkTrailer | readChunk | verifyChunk | eofChunk.
#[export] Instance chunkState_eq_dec : EqDecision chunkState.
Proof. solve_decision. Defined.

Definition chunkState_String (cs : chunkState) : bytes :=
  match cs with
  | readChunkHeader => str "readChunkHeader"
  | readChunkTrailer => str "readChunkTrailer"
  | readChunk => str "readChunk"
  | verifyChunk => str "verifyChunk"
  | eofChunk => str "eofChunk"
  end.

Record s3ChunkedReader := mkChunked {
  cr_reader : bufReader;
  cr_secretKey : bytes;
  cr_seedSignature : bytes;
  cr_seedDate : time;
  cr_region : bytes;
  cr_state : chunkState;
  cr_lastChunk : bool;
  cr_chunkSignature : bytes;
  cr_chunkSHA256Writer : bytes;   (* what was written since the last [Reset] *)
  cr_n : Z;                       (* uint64: unread bytes in the chunk *)
  cr_err : option error }.

(** The result of [newSignV4ChunkedReader] once the request's own signature, the
    seed of the chain, has been verified. *)
Definition newSignV4ChunkedReader (body : source) (secretKey seedSignature region : bytes) (seedDate : time)
  : s3ChunkedReader :=
  mkChunked (bufio_NewReader body) secretKey seedSignature seedDate region readChunkHeader false [] [] 0 None.

Definition readS3ChunkHeader (cr : s3ChunkedReader) : s3ChunkedReader :=
  let 'mkChunked rd key seed date region st last sig w n _ := cr in
  match readChunkLine rd with
  | (_, _, Some err, rd) => mkChunked rd key seed date region st last sig w n (Some err)
  | (hexChunkSize, hexChunkSignature, None, rd) =>
      match parseHexUint hexChunkSize with
      | inr err => mkChunked rd key seed date region st last sig w 0 (Some err)
      | inl n => mkChunked rd key seed date region st last hexChunkSignature w n
                   (if n =? 0 then Some io_EOF else None)
      end
  end.

Definition set_state (st : chunkState) (cr : s3ChunkedReader) : s3ChunkedReader :=
  let 'mkChunked rd key seed date region _ last sig w n err := cr in
  mkChunked rd key seed date region st last sig w n err.
Definition set_last (cr : s3ChunkedReader) : s3ChunkedReader :=
  let 'mkChunked rd key seed date region st _ sig w n err := cr in
  mkChunked rd key seed date region st true sig w n err.

(** One turn of the loop of [Read]: [space] is the length of the buffer that is
    left and [acc] what has been put into it.  The left values go on. *)
Definition turn : Type := (nat * bytes * s3ChunkedReader) + (bytes * option error * s3ChunkedReader).

Definition on_header (space : nat) (acc : bytes) (cr : s3ChunkedReader) : turn :=
  let cr := readS3ChunkHeader cr in
  if (cr_n cr =? 0) && bool_decide (cr_err cr = Some io_EOF)
  then inl (space, acc, set_last (set_state readChunkTrailer cr))
  else match cr_err cr with
       | Some e => inr ([], Some e, cr)
       | None => inl (space, acc, set_state readChunk cr)
       end.

Definition on_trailer (space : nat) (acc : bytes) (cr : s3ChunkedReader) : turn :=
  let 'mkChunked rd key seed date region st last sig w n _ := cr in
  let '(err, rd) := readCRLF rd in
  let cr := mkChunked rd key seed date region st last sig w n err in
  match err with
  | Some _ => inr ([], Some errMalformedEncoding, cr)
  | None => inl (space, acc, set_state verifyChunk cr)
  end.

Definition on_chunk (space : nat) (acc : bytes) (cr : s3ChunkedReader) : turn :=
  let 'mkChunked rd key seed date region st last sig w n _ := cr in
  if decide (space = 0%nat) then inr (acc, None, cr)
  else
    let want := if n <? Z.of_nat space then Z.to_nat n else space in
    match br_Read want rd with
    | (_, Some e, rd) =>
        let e := if decide (e = io_EOF) then io_ErrUnexpectedEOF else e in
        inr ([], Some e, mkChunked rd key seed date region st last sig w n (Some e))
    | (got, None, rd) =>
        let n := wrap_u 64 (n - Z.of_nat (length got)) in
        inl ((space - length got)%nat, acc ++ got,
             mkChunked rd key seed date region (if n =? 0 then readChunkTrailer else st) last sig
               (w ++ got) n None)
    end.

Section reading.
Context `{SigEnv}.

Definition on_verify (space : nat) (acc : bytes) (cr : s3ChunkedReader) : turn :=
  let 'mkChunked rd key seed date region st last sig w n err := cr in
  let hashedChunk := hex.EncodeToString (sha256_Sum w) in
  let newSignature := getChunkSignature key seed region date hashedChunk in
  if negb (compareSignatureV4 sig newSignature)
  then inr ([], Some errSignatureMismatch,
            mkChunked rd key seed date region st last sig w n (Some errSignatureMismatch))
  else inl (space, acc,
            mkChunked rd key newSignature date region (if last then eofChunk else readChunkHeader)
              last sig [] n err).

Definition turn_of (space : nat) (acc : bytes) (cr : s3ChunkedReader) : turn :=
  match cr_state cr with
  | readChunkHeader => on_header space acc cr
  | readChunkTrailer => on_trailer space acc cr
  | readChunk => on_chunk space acc cr
  | verifyChunk => on_verify space acc cr
  | eofChunk => inr (acc, Some io_EOF, cr)
  end.

Fixpoint Read_loop (fuel : nat) (space : nat) (acc : bytes) (cr : s3ChunkedReader)
  : option (bytes * option error * s3ChunkedReader) :=
  match fuel with
  | O => None
  | S fuel' =>
      match turn_of space acc cr with
      | inr r => Some r
      | inl (space', acc', cr') => Read_loop fuel' space' acc' cr'
      end
  end.

(** A bound on the turns: all of them but the checks of signatures, and the ends
    of chunks, use up bytes or pieces of the body. *)
Definition turns (cr : s3ChunkedReader) : nat :=
  (2 * available (cr_reader cr) +
   match cr_state cr with verifyChunk | readChunk => 1 | _ => 0 end)%nat.

(** [Read] into a buffer of [k] bytes; [None] is a loop that never returns. *)
Definition Read (k : nat) (cr : s3ChunkedReader) : option (bytes * option error * s3ChunkedReader) :=
  Read_loop (S (turns cr)) k [] cr.

(** Reading to the end with a buffer of [k] bytes, as [io.ReadAll] and
    [io.Copy] do; [None] when there are more than [fuel] calls. *)
Fixpoint ReadAll (fuel k : nat) (acc : bytes) (cr : s3ChunkedReader)
  : option (bytes * error * s3ChunkedReader) :=
  match fuel with
  | O => None
  | S fuel' =>
      '(got, err, cr') ← Read k cr;
      match err with
      | Some e => Some (acc ++ got, e, cr')
      | None => ReadAll fuel' k (acc ++ got) cr'
      end
  end.

End reading.
