(* ===== verification/StreamingSpec.v ===== *)
(** * What the chunked reader accepts

    The format of a signed stream as an inductive relation, the invariants of
    the reader that connect it with the body, and the two directions: the
    reader returns the payload of every stream a client encodes, however the
    body arrives and whatever buffer is used, and what it returns up to the end
    of a stream is the payload of a stream whose signatures all verified. *)
From S2P Require Import Prelude GoLib Errors Metadata Bufio Streaming.

(** ** Numbers in headers *)
Lemma lor_bound a b : 0 <= a < 2 ^ 64 -> 0 <= b < 2 ^ 64 -> 0 <= Z.lor a b < 2 ^ 64.
Proof.
  intros Ha Hb. assert (0 <= Z.lor a b) by (apply Z.lor_nonneg; lia). split; [done|].
  destruct (Z.eq_dec (Z.lor a b) 0) as [->|Hne]; [lia|].
  apply Z.log2_lt_pow2; [lia|]. rewrite Z.log2_lor by lia.
  apply Z.max_lub_lt; (destruct (Z.eq_dec a 0), (Z.eq_dec b 0); subst; simpl; try lia; apply Z.log2_lt_pow2; lia).
Qed.

Lemma unhex_bound c d : hex.unhex c = Some d -> (d < 16)%N.
Proof.
  unfold hex.unhex. pose proof (N_ascii_bounded c).
  repeat (match goal with |- context [if ?x then _ else _] => destruct x eqn:? end;
          [intros [= <-]; apply andb_prop in Heqb as [H1 H2] || apply andb_prop in Heqb0 as [H1 H2]
             || apply andb_prop in Heqb1 as [H1 H2]; apply N.leb_le in H1, H2; lia|]); done.
Qed.

Lemma parseHexUint_from_bound i v n m :
  0 <= n < 2 ^ 64 -> parseHexUint_from i v n = inl m -> 0 <= m < 2 ^ 64.
Proof.
  revert i n. induction v as [|b v IH]; intros i n Hn; cbn [parseHexUint_from]; [by intros [= <-]|].
  destruct (hex.unhex b) as [d|] eqn:E; [|done]. case_decide; [done|]. apply IH.
  apply unhex_bound in E. apply lor_bound; [unfold wrap_u; apply Z.mod_pos_bound; lia|lia].
Qed.

Lemma parseHexUint_bound v m : parseHexUint v = inl m -> 0 <= m < 2 ^ 64.
Proof. apply parseHexUint_from_bound. lia. Qed.

Lemma lor_shift n d : 0 <= n < 2 ^ 60 -> 0 <= d < 16 -> Z.lor (wrap_u 64 (Z.shiftl n 4)) d = 16 * n + d.
Proof.
  intros Hn Hd. unfold wrap_u. rewrite Z.shiftl_mul_pow2 by lia. rewrite Z.mod_small by lia.
  pose proof (Z.add_lor_land (n * 2 ^ 4) d) as H.
  assert (Z.land (n * 2 ^ 4) d = 0) as Hz; [|lia].
  apply Z.bits_inj'. intros i Hi. rewrite Z.land_spec, Z.bits_0. destruct (Z.lt_ge_cases i 4).
  - by rewrite Z.mul_pow2_bits_low.
  - rewrite (Z.bits_above_log2 d i); [apply andb_false_r|lia|].
    destruct (Z.eq_dec d 0) as [->|]; [simpl; lia|]. apply Z.log2_lt_pow2; [lia|].
    apply Z.lt_le_trans with (2 ^ 4); [lia|]. apply Z.pow_le_mono_r; lia.
Qed.

Lemma parseHexUint_from_app i v c n m :
  parseHexUint_from i v n = inl m ->
  parseHexUint_from i (v ++ [c]) n = parseHexUint_from (i + length v) [c] m.
Proof.
  revert i n. induction v as [|b v IH]; intros i n; cbn [parseHexUint_from app].
  - intros [= ->]. simpl. by rewrite Nat.add_0_r.
  - destruct (hex.unhex b); [|done]. case_decide; [done|]. intros Hm. rewrite (IH _ _ Hm).
    simpl length. by rewrite Nat.add_succ_r.
Qed.

(** Hexadecimal without leading zeros, in at most [w] digits. *)
Fixpoint hex_digits (w : nat) (n : Z) : bytes :=
  match w with
  | O => []
  | S w' => (if n <? 16 then [] else hex_digits w' (n / 16)) ++ [hex.hexdigit (Z.to_N (n mod 16))]
  end.
Definition FormatHex (n : Z) : bytes := hex_digits 16 n.

Lemma hex_digits_parse w n :
  (w <= 16)%nat -> 0 <= n < 16 ^ Z.of_nat w ->
  (length (hex_digits w n) <= w)%nat /\ parseHexUint (hex_digits w n) = inl n.
Proof.
  revert n. induction w as [|w IH]; intros n Hw Hn; [split; [done|]; cbn; f_equal; simpl in Hn; lia|].
  assert (0 <= n mod 16 < 16) as Hd by (apply Z.mod_pos_bound; lia).
  assert (16 ^ Z.of_nat (S w) = 16 * 16 ^ Z.of_nat w) as Hp by (rewrite Nat2Z.inj_succ, Z.pow_succ_r; lia).
  assert (∀ v m, (length v < 16)%nat -> parseHexUint v = inl m -> 0 <= m < 2 ^ 60 ->
    parseHexUint (v ++ [hex.hexdigit (Z.to_N (n mod 16))]) = inl (16 * m + n mod 16)) as Hstep.
  { intros v m Hv Hm Hb. unfold parseHexUint. rewrite (parseHexUint_from_app _ _ _ _ _ Hm).
    cbn [parseHexUint_from]. rewrite hex.unhex_hexdigit by lia. rewrite decide_False by lia.
    f_equal. rewrite lor_shift by lia. lia. }
  cbn [hex_digits]. rewrite length_app. simpl length. destruct (Z.ltb_spec n 16) as [Hs|Hs].
  - split; [simpl; lia|]. rewrite (Hstep [] 0); [f_equal; rewrite Z.mod_small; lia|simpl; lia|done|lia].
  - pose proof (Z.div_mod n 16). assert (0 <= n / 16 < 16 ^ Z.of_nat w) as Hq by lia.
    destruct (IH (n / 16)) as [Hl Hm]; [lia|done|]. split; [lia|].
    rewrite (Hstep _ (n / 16)); [f_equal; lia|lia|done|].
    assert (16 ^ Z.of_nat w <= 2 ^ 60); [|lia].
    replace (2 ^ 60) with (16 ^ 15) by reflexivity. apply Z.pow_le_mono_r; lia.
Qed.

Lemma FormatHex_parse n : 0 <= n < 2 ^ 64 -> parseHexUint (FormatHex n) = inl n.
Proof. intros Hn. by apply (hex_digits_parse 16 n). Qed.
Lemma FormatHex_length n : 0 <= n < 2 ^ 64 -> (length (FormatHex n) <= 16)%nat.
Proof. intros Hn. by apply (hex_digits_parse 16 n). Qed.

(** ** The header a client writes *)
Definition is_hex (c : ascii) : Prop := is_Some (hex.unhex c).

Lemma hexdigit_is_hex n : (n < 16)%N -> is_hex (hex.hexdigit n).
Proof. intros Hn. unfold is_hex. by rewrite hex.unhex_hexdigit. Qed.

Lemma EncodeToString_hex s : Forall is_hex (hex.EncodeToString s).
Proof.
  induction s as [|c s IH]; [constructor|]. cbn. fold (hex.EncodeToString s). pose proof (N_ascii_bounded c).
  do 2 (constructor; [apply hexdigit_is_hex; apply N.mod_lt || apply N.Div0.div_lt_upper_bound; lia|]). done.
Qed.

Lemma EncodeToString_length s : length (hex.EncodeToString s) = (2 * length s)%nat.
Proof. induction s as [|c s IH]; [done|]. cbn. fold (hex.EncodeToString s). rewrite IH. lia. Qed.

Lemma hex_digits_hex w n : Forall is_hex (hex_digits w n).
Proof.
  revert n. induction w as [|w IH]; intros n; cbn [hex_digits]; [constructor|]. apply Forall_app. split.
  - destruct (_ <? _); [constructor|apply IH].
  - apply Forall_singleton, hexdigit_is_hex. pose proof (Z.mod_pos_bound n 16). lia.
Qed.

Lemma is_hex_plain c : is_hex c -> c <> ";"%char /\ c <> newline /\ isASCIISpace c = false.
Proof.
  intros [d Hd]. split_and!; [intros ->; vm_compute in Hd; done..|].
  destruct (isASCIISpace c) eqn:E; [exfalso|done]. unfold isASCIISpace in E.
  repeat (apply orb_prop in E as [E|E]); apply N.eqb_eq in E;
    (rewrite <- (ascii_N_embedding c), E in Hd; vm_compute in Hd; done).
Qed.

Lemma hex_not_in c s : (forall x, is_hex x -> x <> c) -> Forall is_hex s -> c ∉ s.
Proof. intros Hc Hs Hin. rewrite Forall_forall in Hs. by apply (Hc c); [apply Hs|]. Qed.

Lemma trim_line x c : isASCIISpace c = false -> trimTrailingWhitespace ((x ++ [c]) ++ CRLF) = x ++ [c].
Proof.
  intros Hc. unfold trimTrailingWhitespace. rewrite reverse_app, reverse_snoc.
  change (reverse CRLF) with [newline; ascii_of_N 13]. simpl. rewrite Hc. by rewrite reverse_cons, reverse_involutive.
Qed.

Lemma Index_separator c sep h t : c ∉ h -> Index (h ++ c :: sep ++ t) (c :: sep) = Some (length h).
Proof.
  induction h as [|x h IH]; intros Hc.
  - simpl. rewrite decide_True; [done|]. apply prefix_cons, prefix_app_r. done.
  - rewrite not_elem_of_cons in Hc. destruct Hc as [Hx Hc]. cbn [app Index].
    rewrite decide_False; [|intros Hp; by apply prefix_cons_inv_1 in Hp]. by rewrite IH.
Qed.

Lemma parse_header h sig :
  Forall is_hex h -> Forall is_hex sig -> sig <> [] ->
  parseS3ChunkExtension (h ++ s3ChunkSignatureStr ++ sig ++ CRLF) = (h, sig).
Proof.
  intros Hh Hs Hne. destruct (exists_last Hne) as (x & c & ->).
  assert (h ++ s3ChunkSignatureStr ++ (x ++ [c]) ++ CRLF = ((h ++ s3ChunkSignatureStr ++ x) ++ [c]) ++ CRLF) as ->
    by (by rewrite <- !app_assoc).
  unfold parseS3ChunkExtension. rewrite trim_line.
  2: { apply Forall_app in Hs as [_ Hc]. apply is_hex_plain. by inversion_clear Hc. }
  rewrite <- !app_assoc.
  assert (∃ sep, s3ChunkSignatureStr = ";"%char :: sep) as [sep Esep] by (by eexists).
  assert (";"%char ∉ h) as Hsemi by (apply hex_not_in; [apply is_hex_plain|done]).
  rewrite Esep. cbn [app]. rewrite Index_separator by done.
  rewrite take_app_length. f_equal. rewrite drop_app_length. unfold parseChunkSignature.
  rewrite Esep. pose proof (Index_separator ";"%char sep [] (x ++ [c])) as Hi. cbn [app] in Hi.
  rewrite Hi by apply not_elem_of_nil. simpl. by rewrite drop_app_length.
Qed.

(** ** The format *)

(** A header line: the size and the signature it announces. *)
Definition header_ok (l : bytes) (n : Z) (sig : bytes) : Prop :=
  (exists l0, l = l0 ++ [newline] /\ newline ∉ l0) /\ (length l < maxLineLength)%nat /\
  exists h, parseS3ChunkExtension l = (h, sig) /\ parseHexUint h = inl n.

Section format.
Context `{SigEnv} (key region : bytes) (date : time).

(** The signature of a chunk after the signature [seed]. *)
Definition chunk_sig (seed c : bytes) : bytes :=
  getChunkSignature key seed region date (hex.EncodeToString (sha256_Sum c)).

(** [signed seed body cs rest]: [body] holds the chunks [cs] and the final empty
    chunk, each with the signature that continues the chain from [seed], and
    then [rest]. *)
Inductive signed (seed : bytes) : bytes -> list bytes -> bytes -> Prop :=
  | signed_last l rest :
      header_ok l 0 (chunk_sig seed []) -> signed seed (l ++ CRLF ++ rest) [] rest
  | signed_chunk l c body cs rest :
      header_ok l (Z.of_nat (length c)) (chunk_sig seed c) -> c <> [] ->
      signed (chunk_sig seed c) body cs rest ->
      signed seed (l ++ c ++ CRLF ++ body) (c :: cs) rest.

(** The chunks in front of the reader, from the first one. *)
Inductive frames (seed : bytes) : bytes -> list bytes -> bytes -> Prop :=
  | frames_nil : frames seed [] [] seed
  | frames_snoc fr cs s l c :
      frames seed fr cs s -> header_ok l (Z.of_nat (length c)) (chunk_sig s c) -> c <> [] ->
      frames seed (fr ++ l ++ c ++ CRLF) (cs ++ [c]) (chunk_sig s c).

Lemma frames_signed seed fr cs s body cs' rest :
  frames seed fr cs s -> signed s body cs' rest -> signed seed (fr ++ body) (cs ++ cs') rest.
Proof.
  intros Hf. revert body cs'. induction Hf as [|fr cs s l c Hf IH Hh Hc]; intros body cs' Hs; [done|].
  rewrite <- !app_assoc. apply IH. by apply signed_chunk.
Qed.

(** What a client sends. *)
Definition encode_chunk (sig c : bytes) : bytes :=
  (FormatHex (Z.of_nat (length c)) ++ s3ChunkSignatureStr ++ sig ++ CRLF) ++ c ++ CRLF.
Fixpoint encode_stream (seed : bytes) (cs : list bytes) : bytes :=
  match cs with
  | [] => encode_chunk (chunk_sig seed []) []
  | c :: cs' => encode_chunk (chunk_sig seed c) c ++ encode_stream (chunk_sig seed c) cs'
  end.

Lemma chunk_sig_hex seed c : Forall is_hex (chunk_sig seed c) /\ length (chunk_sig seed c) = 64%nat.
Proof.
  unfold chunk_sig, getChunkSignature, getSignature, sumHMAC. split; [apply EncodeToString_hex|].
  by rewrite EncodeToString_length, hmac_sha256_length.
Qed.

Lemma encoded_header seed c n :
  0 <= n < 2 ^ 64 ->
  header_ok (FormatHex n ++ s3ChunkSignatureStr ++ chunk_sig seed c ++ CRLF) n (chunk_sig seed c).
Proof.
  intros Hn. destruct (chunk_sig_hex seed c) as [Hh Hl]. pose proof (hex_digits_hex 16 n) as Hd.
  split_and!.
  - exists (FormatHex n ++ s3ChunkSignatureStr ++ chunk_sig seed c ++ [ascii_of_N 13]).
    split; [by rewrite <- !app_assoc|].
    assert (∀ s, Forall is_hex s -> newline ∉ s) as Hnl by (intros s; apply hex_not_in; apply is_hex_plain).
    rewrite !not_elem_of_app. split_and!; [by apply Hnl| |by apply Hnl|]; by apply (bool_decide_unpack _).
  - pose proof (FormatHex_length n Hn). rewrite !length_app, Hl.
    change (length s3ChunkSignatureStr) with 17%nat. change (length CRLF) with 2%nat. unfold maxLineLength. lia.
  - exists (FormatHex n). split; [|by apply FormatHex_parse]. apply parse_header; [done|done|].
    intros E. by rewrite E in Hl.
Qed.

Lemma encode_signed seed cs rest :
  Forall (λ c, c <> [] /\ Z.of_nat (length c) < 2 ^ 64) cs ->
  signed seed (encode_stream seed cs ++ rest) cs rest.
Proof.
  intros Hcs. revert seed. induction Hcs as [|c cs [Hc Hl] Hcs IH]; intros seed; cbn [encode_stream];
    unfold encode_chunk; rewrite <- !app_assoc.
  - pose proof (signed_last seed _ rest (encoded_header seed [] 0 ltac:(lia))) as Hs.
    rewrite <- !app_assoc in Hs. exact Hs.
  - pose proof (signed_chunk seed _ c _ cs rest (encoded_header seed c (Z.of_nat (length c)) ltac:(lia)) Hc
                  (IH (chunk_sig seed c))) as Hs.
    rewrite <- !app_assoc in Hs. exact Hs.
Qed.

(** ** Every read returns *)
Definition reader_wf (cr : s3ChunkedReader) : Prop := 0 <= cr_n cr < 2 ^ 64.

Lemma wrap_range x : 0 <= wrap_u 64 x < 2 ^ 64.
Proof. apply Z.mod_pos_bound. lia. Qed.

(** A header that is read: what it leaves in the reader. *)
Lemma readS3ChunkHeader_ok cr cr' :
  readS3ChunkHeader cr = cr' -> cr_err cr' = None \/ (cr_err cr' = Some io_EOF) ->
  exists l rd n sig,
    cr' = mkChunked rd (cr_secretKey cr) (cr_seedSignature cr) (cr_seedDate cr) (cr_region cr) (cr_state cr)
            (cr_lastChunk cr) sig (cr_chunkSHA256Writer cr) n (if n =? 0 then Some io_EOF else None) /\
    header_ok l n sig /\ rest_of (cr_reader cr) = l ++ rest_of rd /\
    (available rd < available (cr_reader cr))%nat.
Proof.
  destruct cr as [rd ky seed dt rg st last sig w n err]. unfold readS3ChunkHeader, readChunkLine.
  destruct (ReadSlice newline rd) as [[buf [e|]] rd'] eqn:E.
  { intros <- [Hn|Hn]; cbn [cr_err] in Hn; [done|]. injection Hn as Hn.
    repeat case_decide; [done|by vm_compute in Hn|done]. }
  apply ReadSlice_rest in E as (H1 & H2 & H3).
  destruct (Nat.leb_spec maxLineLength (length buf)) as [Hl|Hl].
  { intros <- [Hn|Hn]; by vm_compute in Hn. }
  destruct (parseS3ChunkExtension buf) as [h sg] eqn:Ep. destruct (parseHexUint h) as [m|e] eqn:Eh.
  - intros <- _. exists buf, rd', m, sg. split_and!; [done| |done|done]. split_and!; [done|done|by exists h].
  - intros <- [Hn|Hn]; cbn [cr_err] in Hn; [done|]. exfalso. revert Eh. injection Hn as ->. unfold parseHexUint.
    clear Ep. generalize 0%nat 0. induction h as [|x h IH]; intros i z; cbn [parseHexUint_from]; [done|].
    destruct (hex.unhex x); [|done]. case_decide; [done|]. apply IH.
Qed.

Lemma readCRLF_ok b b' : readCRLF b = (None, b') ->
  rest_of b = CRLF ++ rest_of b' /\ (available b' < available b)%nat.
Proof.
  unfold readCRLF. destruct (ReadFull 2 b) as [[buf [e|]] rd] eqn:E; [done|].
  case_decide as Hb; [|done]. intros [= <-]. apply ReadFull_rest in E as (_ & H1 & H2); [|lia].
  by rewrite H1, Hb.
Qed.

Lemma br_Read_available n b got b' :
  br_Read n b = (got, None, b') -> (available b' <= available b)%nat /\
  ((0 < n)%nat -> (available b' < available b)%nat).
Proof.
  intros E. apply br_Read_rest in E as (H1 & H2 & H3 & H4). split; [|by intros; apply H3].
  unfold available. rewrite H1, length_app. lia.
Qed.

Lemma on_header_inl space acc cr space' acc' cr' :
  on_header space acc cr = inl (space', acc', cr') ->
  space' = space /\ acc' = acc /\ exists l rd n sig,
    cr' = mkChunked rd (cr_secretKey cr) (cr_seedSignature cr) (cr_seedDate cr) (cr_region cr)
            (if n =? 0 then readChunkTrailer else readChunk) (if n =? 0 then true else cr_lastChunk cr)
            sig (cr_chunkSHA256Writer cr) n (if n =? 0 then Some io_EOF else None) /\
    header_ok l n sig /\ rest_of (cr_reader cr) = l ++ rest_of rd /\
    (available rd < available (cr_reader cr))%nat.
Proof.
  unfold on_header. destruct (readS3ChunkHeader cr) as [rd ky seed dt rg st last sig w n err] eqn:E.
  cbn [cr_n cr_err]. intros Ht.
  destruct (readS3ChunkHeader_ok _ _ E) as (l & rd' & n' & sig' & Hc & Hh & Hr & Ha).
  { cbn [cr_err]. case_bool_decide; [by right|]. rewrite andb_false_r in Ht. destruct err; [done|by left]. }
  injection Hc as -> -> -> -> -> -> -> -> -> -> ->.
  destruct (n' =? 0) eqn:En; [rewrite bool_decide_true in Ht by done|];
    cbn in Ht; injection Ht as <- <- <-; split_and!; [done|done| |done|done|];
    exists l, rd', n', sig'; rewrite En; by split_and!.
Qed.

Lemma turn_decreases space acc cr space' acc' cr' :
  reader_wf cr -> turn_of space acc cr = inl (space', acc', cr') ->
  reader_wf cr' /\ (turns cr' < turns cr)%nat.
Proof.
  unfold turn_of, turns, reader_wf. intros Hwf. destruct (cr_state cr) eqn:Est.
  - intros Ht. apply on_header_inl in Ht as (_ & _ & l & rd & n & sig & -> & Hh & _ & Ha).
    cbn [cr_n cr_reader cr_state]. destruct Hh as (_ & _ & h & _ & Hn). apply parseHexUint_bound in Hn.
    split; [done|]. destruct (n =? 0); lia.
  - destruct cr as [rd ky seed dt rg st last sig w n err]. unfold on_trailer.
    destruct (readCRLF rd) as [[e|] rd'] eqn:E; [done|]. apply readCRLF_ok in E as [_ Ha].
    intros [= <- <- <-]. cbn [set_state cr_n cr_reader cr_state] in *. split; [done|lia].
  - destruct cr as [rd ky seed dt rg st last sig w n err]. unfold on_chunk. cbn [cr_state cr_n cr_reader] in *.
    subst st. case_decide as Hsp; [done|].
    destruct (br_Read _ rd) as [[got [e|]] rd'] eqn:E; [done|].
    pose proof (br_Read_rest _ _ _ _ _ E) as (_ & Hg & _). apply br_Read_available in E as [Ha Hlt].
    intros [= <- <- <-]. cbn [cr_n cr_reader cr_state]. split; [apply wrap_range|].
    destruct (Z.ltb_spec n (Z.of_nat space)) as [Hn|Hn]; [|specialize (Hlt ltac:(lia)); destruct (_ =? 0); lia].
    destruct (Z.eq_dec n 0) as [->|Hnz]; [|specialize (Hlt ltac:(lia)); destruct (_ =? 0); lia].
    simpl in Hg. assert (length got = 0%nat) as -> by lia. simpl. lia.
  - destruct cr as [rd ky seed dt rg st last sig w n err]. unfold on_verify. destruct (negb _); [done|].
    intros [= <- <- <-]. cbn [cr_n cr_reader cr_state] in *. split; [done|]. destruct last; lia.
  - done.
Qed.

Lemma Read_loop_returns fuel space acc cr :
  reader_wf cr -> (turns cr < fuel)%nat -> is_Some (Read_loop fuel space acc cr).
Proof.
  revert space acc cr. induction fuel as [|fuel IH]; intros space acc cr Hwf Hf; [lia|]. cbn [Read_loop].
  destruct (turn_of space acc cr) as [[[sp ac] cr']|r] eqn:E; [|done].
  apply turn_decreases in E as [Hwf' Hlt]; [|done]. apply IH; [done|lia].
Qed.

Lemma Read_returns k cr : reader_wf cr -> is_Some (Read k cr).
Proof. intros Hwf. apply Read_loop_returns; [done|lia]. Qed.

(** ** The reader between two turns, against the body it has read

    [seed] is the signature the chain starts from, [body] the whole body and
    [out] everything handed out so far. *)
Definition same_request (cr : s3ChunkedReader) : Prop :=
  cr_secretKey cr = key /\ cr_region cr = region /\ cr_seedDate cr = date.

(** In the middle of a chunk: [n] bytes of it are left and [t] follows what was
    handed out. *)
Definition in_chunk (seed body out : bytes) (cr : s3ChunkedReader) (n : Z) (t : bytes) : Prop :=
  exists fr cs l, let w := cr_chunkSHA256Writer cr in
    frames seed fr cs (cr_seedSignature cr) /\
    header_ok l (Z.of_nat (length w) + n) (cr_chunkSignature cr) /\
    body = fr ++ l ++ w ++ t /\ out = concat cs ++ w.

Definition read_so_far (seed body out : bytes) (cr : s3ChunkedReader) : Prop :=
  same_request cr /\ reader_wf cr /\
  let rest := rest_of (cr_reader cr) in
  match cr_state cr with
  | readChunkHeader =>
      cr_lastChunk cr = false /\ cr_chunkSHA256Writer cr = [] /\
      exists fr cs, frames seed fr cs (cr_seedSignature cr) /\ body = fr ++ rest /\ out = concat cs
  | readChunk =>
      cr_lastChunk cr = false /\ 0 < cr_n cr /\ in_chunk seed body out cr (cr_n cr) rest
  | readChunkTrailer =>
      cr_lastChunk cr = bool_decide (cr_chunkSHA256Writer cr = []) /\ in_chunk seed body out cr 0 rest
  | verifyChunk =>
      cr_lastChunk cr = bool_decide (cr_chunkSHA256Writer cr = []) /\
      in_chunk seed body out cr 0 (CRLF ++ rest)
  | eofChunk => exists cs, signed seed body cs rest /\ out = concat cs
  end.

Lemma sound_header seed body out space acc cr space' acc' cr' :
  cr_state cr = readChunkHeader -> read_so_far seed body (out ++ acc) cr ->
  turn_of space acc cr = inl (space', acc', cr') -> reader_wf cr' ->
  read_so_far seed body (out ++ acc') cr'.
Proof.
  intros Est (Hq & _ & Hs) Ht Hwf. unfold turn_of in Ht. cbv zeta in Hs. rewrite Est in Ht, Hs.
  destruct Hs as (Hlast & Hw & fr & cs & Hf & Hb & Ho).
  apply on_header_inl in Ht as (-> & -> & l & rd & n & sig & -> & Hh & Hr & _).
  split; [exact Hq|]. split; [exact Hwf|].
  assert (in_chunk seed body (out ++ acc) (mkChunked rd (cr_secretKey cr) (cr_seedSignature cr) (cr_seedDate cr)
    (cr_region cr) (if n =? 0 then readChunkTrailer else readChunk) (if n =? 0 then true else cr_lastChunk cr)
    sig (cr_chunkSHA256Writer cr) n (if n =? 0 then Some io_EOF else None)) n (rest_of rd)) as Hin.
  { exists fr, cs, l. unfold in_chunk. cbn. rewrite Hw. simpl. rewrite app_nil_r, Hb, Hr. done. }
  unfold reader_wf in Hwf. cbn [cr_n cr_state cr_lastChunk cr_reader cr_chunkSHA256Writer] in *.
  destruct (Z.eqb_spec n 0) as [->|Hn].
  - split; [by rewrite Hw|exact Hin].
  - split; [done|]. split; [lia|exact Hin].
Qed.

Lemma sound_trailer seed body out space acc cr space' acc' cr' :
  cr_state cr = readChunkTrailer -> read_so_far seed body (out ++ acc) cr ->
  turn_of space acc cr = inl (space', acc', cr') -> reader_wf cr' ->
  read_so_far seed body (out ++ acc') cr'.
Proof.
  intros Est (Hq & _ & Hs) Ht Hwf. unfold turn_of in Ht. cbv zeta in Hs. rewrite Est in Ht, Hs.
  destruct cr as [rd ky sd dt rg st last sig w n err]. unfold on_trailer in Ht.
  destruct (readCRLF rd) as [[e|] rd'] eqn:E; [done|]. apply readCRLF_ok in E as [Hr _].
  injection Ht as <- <- <-. cbn in Hs. rewrite Hr in Hs.
  split; [exact Hq|]. split; [exact Hwf|exact Hs].
Qed.

Lemma sound_chunk seed body out space acc cr space' acc' cr' :
  cr_state cr = readChunk -> read_so_far seed body (out ++ acc) cr ->
  turn_of space acc cr = inl (space', acc', cr') -> reader_wf cr' ->
  read_so_far seed body (out ++ acc') cr'.
Proof.
  intros Est (Hq & Hwf0 & Hs) Ht Hwf. unfold turn_of in Ht. cbv zeta in Hs. rewrite Est in Ht, Hs.
  destruct cr as [rd ky sd dt rg st last sig w n err]. unfold on_chunk in Ht. cbn in Est. subst st.
  case_decide as Hsp; [done|]. destruct (br_Read _ rd) as [[got [e|]] rd'] eqn:E; [done|].
  apply br_Read_rest in E as (Hr & Hg & _). injection Ht as <- <- <-.
  destruct Hs as (Hlast & Hn & fr & cs & l & Hf & Hh & Hb & Ho). cbn in Hlast, Hn, Hf, Hh, Hb, Ho.
  unfold reader_wf in Hwf0. cbn in Hwf0.
  assert (Z.of_nat (length got) <= n) as Hgn by (destruct (Z.ltb_spec n (Z.of_nat space)); lia).
  assert (wrap_u 64 (n - Z.of_nat (length got)) = n - Z.of_nat (length got)) as Hw by (apply wrap_u_id; lia).
  rewrite Hw in Hwf |- *.
  assert (in_chunk seed body (out ++ acc ++ got) (mkChunked rd' ky sd dt rg
    (if n - Z.of_nat (length got) =? 0 then readChunkTrailer else readChunk) last sig (w ++ got)
    (n - Z.of_nat (length got)) None) (n - Z.of_nat (length got)) (rest_of rd')) as Hin.
  { exists fr, cs, l. cbn. split_and!; [done| | |].
    - by replace (Z.of_nat (length (w ++ got)) + (n - Z.of_nat (length got))) with (Z.of_nat (length w) + n)
        by (rewrite length_app; lia).
    - by rewrite Hb, Hr, <- !app_assoc.
    - by rewrite (app_assoc out), Ho, <- !app_assoc. }
  split; [exact Hq|]. split; [exact Hwf|]. cbn. destruct (Z.eqb_spec (n - Z.of_nat (length got)) 0) as [H0|H0].
  - rewrite H0 in Hin. split; [|exact Hin]. rewrite Hlast, bool_decide_false; [done|].
    intros E. apply app_eq_nil in E as [_ ->]. simpl in H0. lia.
  - split; [done|]. split; [|exact Hin]. lia.
Qed.

Lemma sound_verify seed body out space acc cr space' acc' cr' :
  cr_state cr = verifyChunk -> read_so_far seed body (out ++ acc) cr ->
  turn_of space acc cr = inl (space', acc', cr') -> reader_wf cr' ->
  read_so_far seed body (out ++ acc') cr'.
Proof.
  intros Est (Hq & _ & Hs) Ht Hwf. unfold turn_of in Ht. cbv zeta in Hs. rewrite Est in Ht, Hs.
  destruct cr as [rd ky sd dt rg st last sig w n err]. unfold on_verify in Ht.
  unfold compareSignatureV4 in Ht. case_bool_decide as Hsig; cbn [negb] in Ht; [|done].
  injection Ht as <- <- <-. destruct Hq as (Hk & Hg & Hd). cbn in Hk, Hg, Hd. subst ky rg dt.
  fold (chunk_sig sd w) in Hsig, Hwf |- *. destruct Hs as (Hlast & fr & cs & l & Hf & Hh & Hb & Ho).
  cbn in Hlast, Hf, Hh, Hb, Ho. rewrite Z.add_0_r, Hsig in Hh.
  split; [done|]. split; [exact Hwf|]. cbn. rewrite Hlast. case_bool_decide as Hw.
  - subst w. exists cs. rewrite app_nil_r in Ho. split; [|done].
    rewrite <- (app_nil_r cs), Hb. simpl. eapply frames_signed; [exact Hf|]. by apply signed_last.
  - split; [done|]. split; [done|]. exists (fr ++ l ++ w ++ CRLF), (cs ++ [w]). split_and!.
    + by apply frames_snoc.
    + by rewrite Hb, <- !app_assoc.
    + rewrite Ho, concat_app. simpl. by rewrite app_nil_r.
Qed.

Lemma sound_turn seed body out space acc cr space' acc' cr' :
  read_so_far seed body (out ++ acc) cr -> turn_of space acc cr = inl (space', acc', cr') ->
  read_so_far seed body (out ++ acc') cr'.
Proof.
  intros Hs Ht. pose proof Hs as (_ & Hwf & _). destruct (turn_decreases _ _ _ _ _ _ Hwf Ht) as [Hwf' _].
  destruct (cr_state cr) eqn:E;
    [by eapply sound_header|by eapply sound_trailer|by eapply sound_chunk|by eapply sound_verify|].
  unfold turn_of in Ht. by rewrite E in Ht.
Qed.

(** A turn that returns without an error, or with the end of the stream. *)
Lemma turn_returns space acc cr got err cr' :
  turn_of space acc cr = inr (got, err, cr') -> err = None \/ err = Some io_EOF ->
  got = acc /\ cr' = cr /\ (err = Some io_EOF -> cr_state cr = eofChunk) /\
  (err = None -> space = 0%nat).
Proof.
  unfold turn_of. destruct (cr_state cr) eqn:Est; intros Ht He.
  - unfold on_header in Ht. destruct (_ && _) eqn:Eb; [done|].
    destruct (cr_err (readS3ChunkHeader cr)) as [e|] eqn:Ee; [|done]. injection Ht as <- <- <-.
    destruct He as [He|[= ->]]; [done|].
    destruct (readS3ChunkHeader_ok _ _ eq_refl (or_intror Ee)) as (l & rd & n & sig & Hc & _).
    rewrite Hc in Eb, Ee. cbn in Eb, Ee. by destruct (n =? 0).
  - destruct cr. unfold on_trailer in Ht. destruct (readCRLF _) as [[e|] rd']; [|done].
    injection Ht as <- <- <-. by destruct He.
  - destruct cr. unfold on_chunk in Ht. case_decide; [by injection Ht as <- <- <-|].
    destruct (br_Read _ _) as [[x [e|]] rd']; [|done]. injection Ht as <- <- <-.
    destruct He as [He|He]; [done|]. injection He as He. by case_decide.
  - destruct cr. unfold on_verify in Ht. destruct (negb _); [|done]. injection Ht as <- <- <-. by destruct He.
  - injection Ht as <- <- <-. split_and!; [done..|]. by intros.
Qed.

Lemma sound_loop seed body out fuel space acc cr got err cr' :
  read_so_far seed body (out ++ acc) cr -> Read_loop fuel space acc cr = Some (got, err, cr') ->
  err = None \/ err = Some io_EOF ->
  read_so_far seed body (out ++ got) cr' /\ (err = Some io_EOF -> cr_state cr' = eofChunk).
Proof.
  revert space acc cr. induction fuel as [|fuel IH]; intros space acc cr Hs; cbn [Read_loop]; [done|].
  destruct (turn_of space acc cr) as [[[sp ac] cr1]|r] eqn:E.
  - intros Hl He. eapply IH; [|exact Hl|exact He]. by eapply sound_turn.
  - intros [= ->] He. destruct (turn_returns _ _ _ _ _ _ E He) as (-> & -> & Hst & _). by split.
Qed.

Lemma sound_all seed body fuel k out cr out' cr' :
  read_so_far seed body out cr -> ReadAll fuel k out cr = Some (out', io_EOF, cr') ->
  exists cs, signed seed body cs (rest_of (cr_reader cr')) /\ out' = concat cs.
Proof.
  revert out cr. induction fuel as [|fuel IH]; intros out cr Hs; cbn [ReadAll]; [done|].
  destruct (Read k cr) as [[[got err] cr1]|] eqn:E; [|done]. cbn [mbind option_bind]. intros Hl.
  assert (err = None \/ err = Some io_EOF) as He
    by (destruct err as [e|]; [injection Hl as _ -> _; by right|by left]).
  rewrite <- (app_nil_r out) in Hs. destruct (sound_loop _ _ _ _ _ _ _ _ _ _ Hs E He) as [Hs1 Hst].
  destruct err as [e|]; [|by eapply IH]. injection Hl as <- -> <-. destruct Hs1 as (_ & _ & Hs1).
  cbv zeta in Hs1. by rewrite Hst in Hs1.
Qed.

(** ** The reader between two turns, against what is left of a signed stream

    [todo] is the payload that is left and [after] what follows the stream. *)
Definition still_to_read (todo after : bytes) (cr : s3ChunkedReader) : Prop :=
  same_request cr /\ reader_wf cr /\ steady (cr_reader cr) /\
  let rest := rest_of (cr_reader cr) in
  let seed := cr_seedSignature cr in
  let sig := cr_chunkSignature cr in
  let w := cr_chunkSHA256Writer cr in
  let next body := exists cs, signed sig body cs after /\ todo = concat cs in
  match cr_state cr with
  | readChunkHeader =>
      cr_lastChunk cr = false /\ w = [] /\ exists cs, signed seed rest cs after /\ todo = concat cs
  | readChunk =>
      cr_lastChunk cr = false /\ exists c cs body,
        c <> [] /\ cr_n cr = Z.of_nat (length c) /\ rest = c ++ CRLF ++ body /\
        sig = chunk_sig seed (w ++ c) /\ signed sig body cs after /\ todo = c ++ concat cs
  | readChunkTrailer =>
      sig = chunk_sig seed w /\
      (if cr_lastChunk cr then rest = CRLF ++ after /\ todo = []
       else exists body, rest = CRLF ++ body /\ next body)
  | verifyChunk =>
      sig = chunk_sig seed w /\
      (if cr_lastChunk cr then rest = after /\ todo = [] else next rest)
  | eofChunk => todo = [] /\ rest = after
  end.

(** What a turn does then. *)
Definition goes_on (todo after : bytes) (space : nat) (acc : bytes) (cr : s3ChunkedReader) (t : turn) : Prop :=
  match t with
  | inl (space', acc', cr') =>
      exists x todo', todo = x ++ todo' /\ acc' = acc ++ x /\ (space' + length x = space)%nat /\
        still_to_read todo' after cr'
  | inr (got, err, cr') =>
      got = acc /\ cr' = cr /\ ((err = None /\ space = 0%nat) \/ (err = Some io_EOF /\ todo = []))
  end.

Lemma readS3ChunkHeader_steady cr l n sig t :
  steady (cr_reader cr) -> rest_of (cr_reader cr) = l ++ t -> header_ok l n sig ->
  exists rd, steady rd /\ rest_of rd = t /\
    readS3ChunkHeader cr =
      mkChunked rd (cr_secretKey cr) (cr_seedSignature cr) (cr_seedDate cr) (cr_region cr) (cr_state cr)
        (cr_lastChunk cr) sig (cr_chunkSHA256Writer cr) n (if n =? 0 then Some io_EOF else None).
Proof.
  intros Hst Hr ((l0 & -> & Hl0) & Hl & h & Hp & Hn).
  destruct cr as [rd ky sd dt rg st last sg w m err]. cbn in Hst, Hr.
  rewrite length_app in Hl. change bufSize with maxLineLength in *.
  destruct (ReadSlice_steady newline l0 t rd) as (rd' & E & Hst' & Hr'); [done|by rewrite Hr, <- app_assoc|done| |].
  { change bufSize with maxLineLength. simpl in Hl. lia. }
  exists rd'. split_and!; [done|done|]. unfold readS3ChunkHeader, readChunkLine. rewrite E, length_app.
  destruct (Nat.leb_spec maxLineLength (length l0 + length [newline])) as [|_]; [lia|].
  by rewrite Hp, Hn.
Qed.

Lemma go_header todo after space acc cr :
  cr_state cr = readChunkHeader -> still_to_read todo after cr ->
  goes_on todo after space acc cr (turn_of space acc cr).
Proof.
  intros Est (Hq & Hwf & Hst & Hs). unfold turn_of. cbv zeta in Hs. rewrite Est in Hs |- *.
  destruct Hs as (Hlast & Hw & cs & Hs & ->).
  assert (∃ l n c t, rest_of (cr_reader cr) = l ++ t /\ header_ok l n (chunk_sig (cr_seedSignature cr) c) /\
    n = Z.of_nat (length c) /\
    ((c = [] /\ t = CRLF ++ after /\ cs = []) \/
     exists body cs', c <> [] /\ t = c ++ CRLF ++ body /\ cs = c :: cs' /\
       signed (chunk_sig (cr_seedSignature cr) c) body cs' after)) as (l & n & c & t & Hr & Hh & Hn & Hc).
  { inversion Hs as [l rest Hh Hb|l c body cs' rest Hh Hc Hs' Hb]; subst.
    - exists l, 0, [], (CRLF ++ after). split_and!; [done..|]. by left.
    - exists l, (Z.of_nat (length c)), c, (c ++ CRLF ++ body). split_and!; [done..|]. right. by exists body, cs'. }
  destruct (readS3ChunkHeader_steady _ _ _ _ _ Hst Hr Hh) as (rd & Hst' & Hr' & E).
  assert (0 <= n < 2 ^ 64) as Hwf' by (destruct Hh as (_ & _ & h & _ & Hp); by apply parseHexUint_bound in Hp).
  unfold on_header. rewrite E. cbn [cr_n cr_err]. destruct Hc as [(Hc & Ht & Hcs)|(body & cs' & Hc & Ht & Hcs & Hs')];
    subst t cs.
  - subst c. simpl in Hn. subst n. simpl. exists [], []. rewrite (app_nil_r acc). split; [done|]. split; [done|]. split; [simpl; lia|].
    split; [exact Hq|]. split; [exact Hwf'|]. split; [exact Hst'|]. cbn. by rewrite Hw.
  - destruct (Z.eqb_spec n 0) as [H0|H0]; [destruct c; [done|simpl in Hn; lia]|]. simpl.
    exists [], (c ++ concat cs'). rewrite (app_nil_r acc). split; [done|]. split; [done|]. split; [simpl; lia|].
    split; [exact Hq|]. split; [exact Hwf'|]. split; [exact Hst'|]. cbn. split; [done|].
    exists c, cs', body. rewrite Hw. by split_and!.
Qed.

Lemma go_trailer todo after space acc cr :
  cr_state cr = readChunkTrailer -> still_to_read todo after cr ->
  goes_on todo after space acc cr (turn_of space acc cr).
Proof.
  intros Est (Hq & Hwf & Hst & Hs). unfold turn_of. cbv zeta in Hs. rewrite Est in Hs |- *.
  destruct Hs as (Hsig & Hs). destruct cr as [rd ky sd dt rg st last sig w n err]. cbn in Hst, Hsig, Hs.
  assert (∃ t, rest_of rd = CRLF ++ t) as [t Ht]
    by (destruct last; [exists after; apply Hs|destruct Hs as (body & Hs & _); exists body; exact Hs]).
  destruct (ReadFull_steady 2 rd CRLF t) as (rd' & E & Hst' & Hr'); [done|unfold bufSize; lia|done|done|].
  unfold on_trailer, readCRLF. rewrite E, decide_True by done. simpl.
  exists [], todo. rewrite (app_nil_r acc). split; [done|]. split; [done|]. split; [simpl; lia|].
  split; [exact Hq|]. split; [exact Hwf|]. split; [exact Hst'|]. cbn. split; [done|].
  rewrite Hr'. rewrite Ht in Hs. destruct last.
  - destruct Hs as [Hs ->]. by apply (app_inv_head CRLF t after) in Hs as ->.
  - destruct Hs as (body & Hb & Hs). by apply (app_inv_head CRLF t body) in Hb as ->.
Qed.

Lemma go_chunk todo after space acc cr :
  cr_state cr = readChunk -> still_to_read todo after cr ->
  goes_on todo after space acc cr (turn_of space acc cr).
Proof.
  intros Est (Hq & Hwf & Hst & Hs). unfold turn_of. cbv zeta in Hs. rewrite Est in Hs |- *.
  destruct Hs as (Hlast & c & cs & body & Hc & Hn & Hr & Hsig & Hs & ->).
  destruct cr as [rd ky sd dt rg st last sig w n err]. cbn in Hst, Hlast, Hn, Hr, Hsig, Hs, Est. subst st last n.
  unfold on_chunk. case_decide as Hsp; [split_and!; [done|done|by left]|].
  assert (0 < length c)%nat as Hlc by (destruct c; [done|simpl; lia]).
  assert ((if Z.of_nat (length c) <? Z.of_nat space then Z.to_nat (Z.of_nat (length c)) else space)
          = Nat.min space (length c)) as -> by (destruct (Z.ltb_spec (Z.of_nat (length c)) (Z.of_nat space)); lia).
  assert (Nat.min space (length c) < length (rest_of rd))%nat as Hmin
    by (rewrite Hr, !length_app; simpl; lia).
  destruct (br_Read_steady (Nat.min space (length c)) rd) as (got & rd' & E & Hg & Hst');
    [done|lia|by rewrite Hr; destruct c|by right|].
  rewrite E. apply br_Read_rest in E as (Hr' & Hlen & _).
  assert (∃ c', c = got ++ c' /\ rest_of rd' = c' ++ CRLF ++ body) as (c' & -> & Hrd).
  { rewrite Hr in Hr'. apply app_eq_inv in Hr' as [(k & E1 & E2)|(k & E1 & E2)]; [eauto|].
    assert (k = []) as -> by (apply (f_equal length) in E1; rewrite length_app in E1; destruct k; [done|simpl in E1; lia]).
    exists []. rewrite app_nil_r in E1 |- *. subst got. split; [done|]. symmetry. exact E2. }
  rewrite length_app in *.
  assert (wrap_u 64 (Z.of_nat (length got + length c') - Z.of_nat (length got)) = Z.of_nat (length c')) as ->.
  { unfold reader_wf in Hwf. cbn in Hwf. rewrite wrap_u_id; lia. }
  exists got, (c' ++ concat cs). rewrite <- !app_assoc. split; [done|]. split; [done|]. split; [lia|].
  split; [exact Hq|]. split; [unfold reader_wf in Hwf |- *; cbn in Hwf |- *; lia|]. split; [exact Hst'|].
  cbn. rewrite app_assoc in Hsig. destruct (Z.eqb_spec (Z.of_nat (length c')) 0) as [H0|H0].
  - destruct c'; [|simpl in H0; lia]. rewrite app_nil_r in Hsig. split; [done|]. exists body. simpl. eauto.
  - split; [done|]. exists c', cs, body. rewrite <- app_assoc in Hsig |- *. split_and!; try done. by destruct c'.
Qed.

Lemma go_verify todo after space acc cr :
  cr_state cr = verifyChunk -> still_to_read todo after cr ->
  goes_on todo after space acc cr (turn_of space acc cr).
Proof.
  intros Est (Hq & Hwf & Hst & Hs). unfold turn_of. cbv zeta in Hs. rewrite Est in Hs |- *.
  destruct Hs as (Hsig & Hs). destruct cr as [rd ky sd dt rg st last sig w n err]. cbn in Hst, Hsig, Hs.
  destruct Hq as (Hk & Hg & Hd). cbn in Hk, Hg, Hd. subst ky rg dt. unfold on_verify.
  fold (chunk_sig sd w). rewrite <- Hsig. unfold compareSignatureV4. rewrite bool_decide_true by done. simpl.
  exists [], todo. rewrite (app_nil_r acc). split; [done|]. split; [done|]. split; [simpl; lia|].
  split; [done|]. split; [exact Hwf|]. split; [exact Hst|]. cbn. destruct last; [|done].
  by destruct Hs as [-> ->].
Qed.

Lemma go_turn todo after space acc cr :
  still_to_read todo after cr -> goes_on todo after space acc cr (turn_of space acc cr).
Proof.
  intros Hs. destruct (cr_state cr) eqn:E;
    [by apply go_header|by apply go_trailer|by apply go_chunk|by apply go_verify|].
  unfold turn_of. rewrite E. destruct Hs as (_ & _ & _ & Hs). cbv zeta in Hs. rewrite E in Hs.
  split_and!; [done|done|]. right. by destruct Hs as [-> _].
Qed.

Lemma go_loop fuel todo after space acc cr :
  still_to_read todo after cr -> (turns cr < fuel)%nat ->
  exists got err cr', Read_loop fuel space acc cr = Some (acc ++ got, err, cr') /\
    ((err = None /\ length got = space /\ exists todo', todo = got ++ todo' /\ still_to_read todo' after cr') \/
     (err = Some io_EOF /\ got = todo /\ rest_of (cr_reader cr') = after)).
Proof.
  revert todo space acc cr. induction fuel as [|fuel IH]; intros todo space acc cr Hs Hf; [lia|].
  cbn [Read_loop]. pose proof (go_turn todo after space acc cr Hs) as Hg.
  pose proof Hs as (_ & Hwf & _). destruct (turn_of space acc cr) as [[[sp ac] cr1]|[[got err] cr1]] eqn:E.
  - destruct (turn_decreases _ _ _ _ _ _ Hwf E) as [_ Hlt]. destruct Hg as (x & todo1 & -> & -> & Hsp & Hs1).
    destruct (IH todo1 sp (acc ++ x) cr1) as (got & err & cr' & -> & Hr); [done|lia|].
    exists (x ++ got), err, cr'. rewrite app_assoc. split; [done|].
    destruct Hr as [(-> & Hl & todo' & -> & Hs')|(-> & -> & Hr)]; [left|by right].
    rewrite length_app. split_and!; [done|lia|]. exists todo'. by rewrite app_assoc.
  - destruct Hg as (-> & -> & Hg). exists [], err, cr. rewrite app_nil_r. split; [done|].
    destruct Hg as [[-> ->]|[-> ->]].
    + left. split_and!; [done|done|]. by exists todo.
    + right. split_and!; [done|done|]. apply turn_returns in E as (_ & _ & Hst & _); [|by right].
      destruct Hs as (_ & _ & _ & Hs). cbv zeta in Hs. rewrite Hst in Hs by done. apply Hs.
Qed.

Lemma go_all fuel k todo after acc cr :
  still_to_read todo after cr -> (0 < k)%nat -> (length todo < fuel)%nat ->
  exists cr', ReadAll fuel k acc cr = Some (acc ++ todo, io_EOF, cr') /\ rest_of (cr_reader cr') = after.
Proof.
  revert todo acc cr. induction fuel as [|fuel IH]; intros todo acc cr Hs Hk Hf; [lia|]. cbn [ReadAll].
  destruct (go_loop (S (turns cr)) todo after k [] cr Hs) as (got & err & cr1 & E & Hr); [lia|].
  unfold Read. rewrite E. cbn [mbind option_bind app].
  destruct Hr as [(-> & Hl & todo' & -> & Hs')|(-> & -> & Hr)]; [|by exists cr1].
  rewrite length_app in Hf. destruct (IH todo' (acc ++ got) cr1 Hs' Hk) as (cr' & E' & Hr'); [lia|].
  exists cr'. by rewrite app_assoc.
Qed.

Lemma new_reader_sound src seed :
  read_so_far seed (concat (s_pieces src)) [] (newSignV4ChunkedReader src key seed region date).
Proof.
  split; [done|]. split; [unfold reader_wf; simpl; lia|]. cbn. split; [done|]. split; [done|].
  exists [], []. split_and!; [constructor|done|done].
Qed.

Lemma new_reader_pending src seed cs rest :
  signed seed (concat (s_pieces src)) cs rest -> steady_src src ->
  still_to_read (concat cs) rest (newSignV4ChunkedReader src key seed region date).
Proof.
  intros Hs Hst. split; [done|]. split; [unfold reader_wf; simpl; lia|]. split; [by split|].
  cbn. split; [done|]. split; [done|]. exists cs. by split.
Qed.

(** Decoding what the client encoded with the same key and seed: reading to the
    end, with a buffer of any size, gives the chunks and the end of the stream,
    whatever the pieces in which the body arrives. *)
Lemma chunked_roundtrip seed cs rest src k fuel :
  Forall (λ c, c <> [] /\ Z.of_nat (length c) < 2 ^ 64) cs ->
  concat (s_pieces src) = encode_stream seed cs ++ rest -> steady_src src ->
  (0 < k)%nat -> (length (concat cs) < fuel)%nat ->
  exists cr', ReadAll fuel k [] (newSignV4ChunkedReader src key seed region date)
                = Some (concat cs, io_EOF, cr') /\ rest_of (cr_reader cr') = rest.
Proof.
  intros Hcs Hb Hst Hk Hf. apply (go_all fuel k (concat cs) rest []); [|done|done]. apply new_reader_pending; [|done].
  rewrite Hb. by apply encode_signed.
Qed.

(** C23. Whatever the body and the pieces it arrives in, every [Read] returns; and
    when reading to the end reports the end of the stream, the body starts with
    a stream of chunks whose signatures form a chain from the request's
    signature up to the final empty chunk, and the bytes handed out are exactly
    its payload. *)
Theorem chunked_integrity src seed k :
  (∀ cr, reader_wf cr -> exists got err cr', Read k cr = Some (got, err, cr')) /\
  (∀ fuel out cr',
    ReadAll fuel k [] (newSignV4ChunkedReader src key seed region date) = Some (out, io_EOF, cr') ->
    exists cs, signed seed (concat (s_pieces src)) cs (rest_of (cr_reader cr')) /\ out = concat cs).
Proof.
  split.
  - intros cr Hwf. destruct (Read_returns k cr Hwf) as [[[got err] cr'] E]. eauto.
  - intros fuel out cr'. apply sound_all, new_reader_sound.
Qed.
End format.

(** ** A stream to run the reader on *)
Module StreamScenario.
#[export] Instance ref_sig : SigEnv.
Proof.
  refine {| sha256_Sum := λ s, take 32 s;
            hmac_sha256 := λ k d, take 32 (reverse (k ++ d) ++ replicate 32 "0"%char) |}.
  intros k d. rewrite length_take, length_app, length_replicate. lia.
Defined.

Definition date : time := 1369353600 * 10 ^ 9.
Definition cs : list bytes := [str "hello "; str "world"].
Definition stream : bytes := encode_stream (str "key") (str "us-east-1") date (str "seed") cs.
Definition body : source := mkSource [take 50 stream; drop 50 stream] io_EOF true.
End StreamScenario.
#[local] Existing Instance StreamScenario.ref_sig.

Lemma chunked_integrity_witness :
  exists cs, signed (str "key") (str "us-east-1") StreamScenario.date (str "seed")
               (concat (s_pieces StreamScenario.body)) cs [] /\ str "hello world" = concat cs.
Proof.
  pose (r := ReadAll 20 4 [] (newSignV4ChunkedReader StreamScenario.body (str "key") (str "seed")
                                 (str "us-east-1") StreamScenario.date)).
  assert (Hr : match r with
               | Some (out, e, cr') => out = str "hello world" /\ e = io_EOF /\ rest_of (cr_reader cr') = []
               | None => False end) by (vm_compute; split_and!; reflexivity).
  destruct r as [[[out e] cr']|] eqn:E; [|destruct Hr]. destruct Hr as (-> & -> & Hr). rewrite <- Hr.
  eapply (proj2 (chunked_integrity (str "key") (str "us-east-1") StreamScenario.date StreamScenario.body
                   (str "seed") 4)). exact E.
Defined.
