(* ===== verification/Credentials.v ===== *)
(** * pkg/auth/credentials.go: access and secret keys *)
From S2P Require Import Prelude GoLib Errors Metadata.

Definition accessKeyMinLen : nat := 3.
Definition secretKeyMinLen : nat := 8.
Definition ErrInvalidAccessKeyLength : error :=
  errText (str "access key must be minimum 3 or more characters long").
Definition ErrInvalidSecretKeyLength : error :=
  errText (str "secret key must be minimum 8 or more characters long").

Definition IsAccessKeyValid (accessKey : bytes) : bool := (accessKeyMinLen <=? length accessKey)%nat.
Definition IsSecretKeyValid (secretKey : bytes) : bool := (secretKeyMinLen <=? length secretKey)%nat.

Record Credentials := mkCredentials {
  AccessKey : bytes; SecretKey : bytes; Expiration : time; SessionToken : bytes; Status : bytes }.
#[export] Instance Credentials_eq_dec : EqDecision Credentials.
Proof. solve_decision. Defined.

(** The zero value, of a request that names no key. *)
Definition noCredentials : Credentials := mkCredentials [] [] zeroTime [] [].
Definition DefaultCredentials : Credentials :=
  mkCredentials (str "minioadmin") (str "minioadmin") zeroTime [] [].

(** The clock is read once, as [now]. *)
Definition IsExpired (now : time) (cred : Credentials) : bool :=
  if decide (Expiration cred = zeroTime \/ Expiration cred = timeSentinel) then false
  else Expiration cred <? now.
Definition IsTemp (cred : Credentials) : bool := bool_decide (SessionToken cred <> []).
Definition IsValid (now : time) (cred : Credentials) : bool :=
  if decide (Status cred = str "off") then false
  else IsAccessKeyValid (AccessKey cred) && IsSecretKeyValid (SecretKey cred) && negb (IsExpired now cred).
Definition Credentials_Equal (now : time) (cred ccred : Credentials) : bool :=
  if negb (IsValid now ccred) then false
  else bool_decide (AccessKey cred = AccessKey ccred) && bool_decide (SecretKey cred = SecretKey ccred)
       && bool_decide (SessionToken cred = SessionToken ccred).

Definition CreateCredentials (accessKey secretKey : bytes) : Credentials + error :=
  if negb (IsAccessKeyValid accessKey) then inr ErrInvalidAccessKeyLength
  else if negb (IsSecretKeyValid secretKey) then inr ErrInvalidSecretKeyLength
  else inl (mkCredentials accessKey secretKey timeSentinel [] (str "on")).

(** Credentials that are created are valid at any time, and not temporary. *)
Lemma CreateCredentials_valid accessKey secretKey cred now :
  CreateCredentials accessKey secretKey = inl cred -> IsValid now cred = true /\ IsTemp cred = false.
Proof.
  unfold CreateCredentials. destruct (IsAccessKeyValid _) eqn:Ha; [|done].
  destruct (IsSecretKeyValid _) eqn:Hs; [|done]. intros E. injection E as <-.
  split; [|done]. unfold IsValid, IsExpired. simpl. by rewrite Ha, Hs.
Qed.
