(* ===== verification/SignV4.v ===== *)
(** * AWS signature version 4: cmd/signature-v4.go, signature-v4-parser.go and
    signature-v4-utils.go, and the seed of chunked uploads

    The parsing of the Authorization header and of the parameters of presigned
    requests, the canonical request, the string to sign, and the checks of
    header, query and form signatures.  The keys of the users are an interface,
    [KeyStore]; the path encoding of minio-go is a parameter. *)
From S2P Require Import Prelude GoLib IncStr GoText Errors APIErrors Metadata GoTime Credentials Bufio Streaming.
Import strconv.

(** ** Requests *)
Record Request := mkRequest {
  Method : bytes;
  URL_Path : bytes;
  URL_RawQuery : bytes;
  Header : multimap;
  Host : bytes;
  TransferEncoding : list bytes;
  ContentLength : Z;
  RequestURI : bytes;      (* the request target as the client sent it *)
  RemoteAddr : bytes;
  TLS : bool }.            (* the connection is encrypted *)

Definition URL_Query (r : Request) : multimap := ParseQuery (URL_RawQuery r).

(** cmd/http/headers.go *)
Definition Authorization : bytes := str "Authorization".
Definition Date : bytes := str "Date".
Definition ContentType : bytes := str "Content-Type".
Definition AmzContentSha256 : bytes := str "X-Amz-Content-Sha256".
Definition AmzDate : bytes := str "X-Amz-Date".
Definition AmzAlgorithm : bytes := str "X-Amz-Algorithm".
Definition AmzExpires : bytes := str "X-Amz-Expires".
Definition AmzSignedHeaders : bytes := str "X-Amz-SignedHeaders".
Definition AmzSignature : bytes := str "X-Amz-Signature".
Definition AmzCredential : bytes := str "X-Amz-Credential".
Definition AmzSecurityToken : bytes := str "X-Amz-Security-Token".
Definition AmzAccessKeyID : bytes := str "AWSAccessKeyId".

Definition signV4Algorithm : bytes := str "AWS4-HMAC-SHA256".
Definition serviceSTS : bytes := str "sts".
Definition aws4_request : bytes := str "aws4_request".
Definition unsignedPayload : bytes := str "UNSIGNED-PAYLOAD".
Definition streamingContentSHA256 : bytes := str "STREAMING-AWS4-HMAC-SHA256-PAYLOAD".
Definition globalMinioDefaultRegion : bytes := [].
Definition globalMaxSkewTime : Z := 15 * 60 * 10 ^ 9.

(** ** signature-v4-parser.go *)
Record credentialHeader := mkCredentialHeader {
  ch_accessKey : bytes; scope_date : time; scope_region : bytes; scope_service : bytes;
  scope_request : bytes }.

Definition credentialHeader_getScope (c : credentialHeader) : bytes :=
  strings.Join [Format_yyyymmdd (scope_date c); scope_region c; scope_service c; scope_request c] (str "/").

(** signature-v4-utils.go *)
Definition isValidRegion (reqRegion confRegion : bytes) : bool :=
  if decide (confRegion = []) then true
  else
    let confRegion := if decide (confRegion = str "US") then globalMinioDefaultRegion else confRegion in
    let reqRegion := if decide (reqRegion = str "US") then globalMinioDefaultRegion else reqRegion in
    bool_decide (reqRegion = confRegion).

(** The last four elements; there are at least five. *)
Definition parse_scope (accessKey : bytes) (elements : list bytes) (region stype : bytes)
  : credentialHeader + APIErrorCode :=
  match elements with
  | [date; sRegion; service; request] =>
      match Parse_yyyymmdd date with
      | None => inr ErrMalformedCredentialDate
      | Some d =>
          let region := if decide (region = []) then sRegion else region in
          if negb (isValidRegion sRegion region) then inr ErrAuthorizationHeaderMalformed
          else if decide (service <> stype) then inr ErrInvalidService
          else if decide (request <> aws4_request) then inr ErrInvalidRequestVersion
          else inl (mkCredentialHeader accessKey d sRegion service request)
      end
  | _ => inr ErrCredMalformed
  end.

Definition parseCredentialHeader (credElement region stype : bytes) : credentialHeader + APIErrorCode :=
  match SplitN2 (utf8.TrimSpace credElement) "="%char with
  | [tag; value] =>
      if decide (tag <> str "Credential") then inr ErrMissingCredTag
      else
        let credElements := strings.Split (utf8.TrimSpace value) "/"%char in
        if (length credElements <? 5)%nat then inr ErrCredMalformed
        else
          let n := (length credElements - 4)%nat in
          let accessKey := strings.Join (take n credElements) (str "/") in
          if negb (IsAccessKeyValid accessKey) then inr ErrInvalidAccessKeyID
          else parse_scope accessKey (drop n credElements) region stype
  | _ => inr ErrMissingFields
  end.

(** The value of an element [tag=value], as [parseSignature] and
    [parseSignedHeader] take it. *)
Definition parse_tagged (tag : bytes) (missing : APIErrorCode) (element : bytes) : bytes + APIErrorCode :=
  match strings.Split (utf8.TrimSpace element) "="%char with
  | [t; v] => if decide (t <> tag) then inr missing
              else if decide (v = []) then inr ErrMissingFields else inl v
  | _ => inr ErrMissingFields
  end.
Definition parseSignature (signElement : bytes) : bytes + APIErrorCode :=
  parse_tagged (str "Signature") ErrMissingSignTag signElement.
Definition parseSignedHeader (signedHdrElement : bytes) : list bytes + APIErrorCode :=
  match parse_tagged (str "SignedHeaders") ErrMissingSignHeadersTag signedHdrElement with
  | inl v => inl (strings.Split v ";"%char)
  | inr e => inr e
  end.

Record signValues := mkSignValues {
  sv_Credential : credentialHeader; sv_SignedHeaders : list bytes; sv_Signature : bytes }.

(** The three elements in turn. *)
Definition parse_elements (credElement signedElement signElement region stype : bytes)
  : signValues + APIErrorCode :=
  match parseCredentialHeader credElement region stype with
  | inr e => inr e
  | inl cred =>
      match parseSignedHeader signedElement with
      | inr e => inr e
      | inl headers =>
          match parseSignature signElement with
          | inr e => inr e
          | inl signature => inl (mkSignValues cred headers signature)
          end
      end
  end.

Definition parseSignV4 (v4Auth region stype : bytes) : signValues + APIErrorCode :=
  let first := default [] (head (strings.Split (utf8.TrimSpace v4Auth) ","%char)) in
  let credElement := TrimPrefix first signV4Algorithm in
  let v4Auth := Replace v4Auth (str " ") [] in
  if decide (v4Auth = []) then inr ErrAuthHeaderEmpty
  else if negb (HasPrefix v4Auth signV4Algorithm) then inr ErrSignatureVersionNotSupported
  else
    match strings.Split (utf8.TrimSpace (TrimPrefix v4Auth signV4Algorithm)) ","%char with
    | [_; signedElement; signElement] =>
        parse_elements (utf8.TrimSpace credElement) signedElement signElement region stype
    | _ => inr ErrMissingFields
    end.

(** Presigned requests. *)
Record preSignValues := mkPreSignValues { psv_sign : signValues; psv_Date : time; psv_Expires : Z }.

Definition v4PresignQueryParams : list bytes :=
  [AmzAlgorithm; AmzCredential; AmzSignature; AmzDate; AmzSignedHeaders; AmzExpires].
Definition doesV4PresignParamsExist (query : multimap) : bool :=
  forallb (λ p, bool_decide (is_Some (query !! p))) v4PresignQueryParams.

Definition parsePreSignV4 `{FloatEnv} (query : multimap) (region stype : bytes) : preSignValues + APIErrorCode :=
  if negb (doesV4PresignParamsExist query) then inr ErrInvalidQueryParams
  else if decide (Values_Get query AmzAlgorithm <> signV4Algorithm) then inr ErrInvalidQuerySignatureAlgo
  else
    match parseCredentialHeader (str "Credential=" ++ Values_Get query AmzCredential) region stype with
    | inr e => inr e
    | inl cred =>
        match Parse_iso8601 (Values_Get query AmzDate) with
        | None => inr ErrMalformedPresignedDate
        | Some date =>
            match ParseDuration (Values_Get query AmzExpires ++ str "s") with
            | None => inr ErrMalformedExpires
            | Some expires =>
                if expires <? 0 then inr ErrNegativeExpires
                else if 604800 * 10 ^ 9 <? expires then inr ErrMaximumExpires
                else
                  match parseSignedHeader (str "SignedHeaders=" ++ Values_Get query AmzSignedHeaders) with
                  | inr e => inr e
                  | inl headers =>
                      match parseSignature (str "Signature=" ++ Values_Get query AmzSignature) with
                      | inr e => inr e
                      | inl signature =>
                          inl (mkPreSignValues (mkSignValues cred headers signature) date expires)
                      end
                  end
            end
        end
    end.

(** ** The keys: [checkKeyValid] *)

(** The credentials of the server and its users; [None] is a nil
    [globalIAMSys]. *)
Class KeyStore := {
  globalActiveCred : Credentials;
  GetUser : option (bytes -> option Credentials) }.

Definition checkKeyValid `{keys : KeyStore} (accessKey : bytes) : (Credentials * bool) + APIErrorCode :=
  if decide (AccessKey globalActiveCred <> accessKey) then
    match GetUser with
    | None => inr ErrInvalidAccessKeyID
    | Some get => match get accessKey with
                  | Some cred => inl (cred, false)
                  | None => inr ErrInvalidAccessKeyID
                  end
    end
  else inl (globalActiveCred, true).

(** ** The signed headers *)
Definition extract_one (r : Request) (header : bytes) (acc : multimap) : option multimap :=
  let found := match Header r !! CanonicalHeaderKey header with
               | Some val => Some val
               | None => URL_Query r !! header
               end in
  match found with
  | Some val => Some (foldl (λ h enc, Header_Add header enc h) acc val)
  | None =>
      if decide (header = str "expect") then Some (Header_Set header (str "100-continue") acc)
      else if decide (header = str "host") then Some (Header_Set header (Host r) acc)
      else if decide (header = str "transfer-encoding") then
        Some (foldl (λ h enc, Header_Add header enc h) acc (TransferEncoding r))
      else if decide (header = str "content-length") then
        Some (Header_Set header (FormatInt (ContentLength r)) acc)
      else None
  end.

Fixpoint extract_all (r : Request) (headers : list bytes) (acc : multimap) : option multimap :=
  match headers with
  | [] => Some acc
  | h :: hs => acc' ← extract_one r h acc; extract_all r hs acc'
  end.

Definition extractSignedHeaders (signedHeaders : list bytes) (r : Request) : multimap + APIErrorCode :=
  if decide (str "host" ∈ signedHeaders) then
    match extract_all r signedHeaders ∅ with
    | Some h => inl h
    | None => inr ErrUnsignedHeaders
    end
  else inr ErrUnsignedHeaders.

(** [strings.Join(strings.Fields(input), " ")]. *)
Definition signV4TrimAll (input : bytes) : bytes := strings.Join (Fields input) (str " ").

(** ** signature-v4.go *)
Section canonical.
Context `{UnicodeEnv}.
(** [s3utils.EncodePath] of minio-go. *)
Variable EncodePath : bytes -> bytes.

(** A Go map is visited in some order: [entries] are its entries in the order
    of the loop. *)
Definition canonical_headers_of (entries : list (bytes * list bytes)) : bytes :=
  let headers := sort_Strings ((λ e, ToLower e.1) <$> entries) in
  let vals := foldl (λ (m : multimap) e, <[ToLower e.1 := e.2]> m) ∅ entries in
  flat_map (λ k, k ++ ":"%char ::
              strings.Join (signV4TrimAll <$> default [] (vals !! k)) (str ",") ++ [newline]) headers.
Definition getCanonicalHeaders (signedHeaders : multimap) : bytes :=
  canonical_headers_of (map_to_list signedHeaders).

Definition getSignedHeaders (signedHeaders : multimap) : bytes :=
  strings.Join (sort_Strings (ToLower <$> (map_to_list signedHeaders).*1)) (str ";").

Definition getCanonicalRequest (extractedSignedHeaders : multimap) (payload queryStr urlPath method : bytes)
  : bytes :=
  let rawQuery := Replace queryStr (str "+") (str "%20") in
  let encodedPath := EncodePath urlPath in
  strings.Join [method; encodedPath; rawQuery; getCanonicalHeaders extractedSignedHeaders;
                getSignedHeaders extractedSignedHeaders; payload] [newline].

Context `{SigEnv}.

Definition getStringToSign (canonicalRequest : bytes) (t : time) (scope : bytes) : bytes :=
  signV4Algorithm ++ [newline] ++ Format_iso8601 t ++ [newline] ++ scope ++ [newline] ++
  hex.EncodeToString (sha256_Sum canonicalRequest).

(** The signature the server computes for a request: the last steps that
    [doesSignatureMatch] and [calculateSeedSignature] share. *)
Definition header_signature (cred : Credentials) (sv : signValues) (headers : multimap) (payload : bytes)
  (r : Request) (t : time) (stype : bytes) : bytes :=
  let queryStr := Values_Encode (URL_Query r) in
  let canonicalRequest := getCanonicalRequest headers payload queryStr (URL_Path r) (Method r) in
  let stringToSign := getStringToSign canonicalRequest t (credentialHeader_getScope (sv_Credential sv)) in
  let signingKey := getSigningKey (SecretKey cred) (scope_date (sv_Credential sv))
                      (scope_region (sv_Credential sv)) stype in
  getSignature signingKey stringToSign.

(** The date of a request: X-Amz-Date, else Date. *)
Definition request_date (r : Request) : time + APIErrorCode :=
  let date := Header_Get (Header r) AmzDate in
  let date := if decide (date = []) then Header_Get (Header r) Date else date in
  if decide (date = []) then inr ErrMissingDateHeader
  else match Parse_iso8601 date with None => inr ErrMalformedDate | Some t => inl t end.

Context `{keys : KeyStore}.

Definition doesSignatureMatch (hashedPayload : bytes) (r : Request) (region stype : bytes) : APIErrorCode :=
  let v4Auth := Header_Get (Header r) Authorization in
  match parseSignV4 v4Auth region stype with
  | inr e => e
  | inl sv =>
      match extractSignedHeaders (sv_SignedHeaders sv) r with
      | inr e => e
      | inl headers =>
          match checkKeyValid (ch_accessKey (sv_Credential sv)) with
          | inr e => e
          | inl (cred, _) =>
              match request_date r with
              | inr e => e
              | inl t =>
                  let newSignature := header_signature cred sv headers hashedPayload r t stype in
                  if negb (compareSignatureV4 newSignature (sv_Signature sv)) then ErrSignatureDoesNotMatch
                  else ErrNone
              end
          end
      end
  end.

(** streaming-signature-v4.go: the credentials, the signature, the region and
    the date that start the chain of chunk signatures. *)
Definition calculateSeedSignature (region : bytes) (r : Request)
  : (Credentials * bytes * bytes * time) + APIErrorCode :=
  match parseSignV4 (Header_Get (Header r) Authorization) region serviceS3 with
  | inr e => inr e
  | inl sv =>
      if decide (streamingContentSHA256 <> Header_Get (Header r) AmzContentSha256)
      then inr ErrContentSHA256Mismatch
      else
        match extractSignedHeaders (sv_SignedHeaders sv) r with
        | inr e => inr e
        | inl headers =>
            match checkKeyValid (ch_accessKey (sv_Credential sv)) with
            | inr e => inr e
            | inl (cred, _) =>
                match request_date r with
                | inr e => inr e
                | inl date =>
                    let newSignature := header_signature cred sv headers streamingContentSHA256 r date serviceS3 in
                    if negb (compareSignatureV4 newSignature (sv_Signature sv))
                    then inr ErrSignatureDoesNotMatch
                    else inl (cred, newSignature, scope_region (sv_Credential sv), date)
                end
            end
        end
  end.

(** [newSignV4ChunkedReader] of a request with this body. *)
Definition newSignV4ChunkedReader_request (region : bytes) (r : Request) (body : source)
  : s3ChunkedReader + APIErrorCode :=
  match calculateSeedSignature region r with
  | inr e => inr e
  | inl (cred, seedSignature, region, seedDate) =>
      inl (newSignV4ChunkedReader body (SecretKey cred) seedSignature region seedDate)
  end.

(** Form uploads: the signature of the policy document. *)
Definition doesPolicySignatureV4Match (region : bytes) (formValues : multimap) : APIErrorCode :=
  match parseCredentialHeader (str "Credential=" ++ Header_Get formValues AmzCredential) region serviceS3 with
  | inr _ => ErrMissingFields
  | inl ch =>
      match checkKeyValid (ch_accessKey ch) with
      | inr e => e
      | inl (cred, _) =>
          let signingKey := getSigningKey (SecretKey cred) (scope_date ch) (scope_region ch) serviceS3 in
          let newSignature := getSignature signingKey (Header_Get formValues (str "Policy")) in
          if negb (compareSignatureV4 newSignature (Header_Get formValues AmzSignature))
          then ErrSignatureDoesNotMatch else ErrNone
      end
  end.

(** ** Presigned requests *)

(** The parameters of the request that are signed besides those of the
    signature; each is set under its own name, so the order of the loop does
    not matter.  The lists of a parsed query are not empty. *)
Definition presign_extra (k : bytes) (v : list bytes) : option (list bytes) :=
  let key := ToLower k in
  if strings.Contains key (str "x-amz-meta-") then Some [default [] (head v)]
  else if strings.Contains key (str "x-amz-server-side-") then Some [default [] (head v)]
  else if HasPrefix key (str "x-amz") then None
  else Some v.

Definition presign_query (psv : preSignValues) (cred : Credentials) (headers : multimap)
  (hashedPayload : bytes) (q : multimap) : multimap :=
  let query := ∅ in
  let query := if decide (Values_Get q AmzContentSha256 <> [])
               then Values_Set AmzContentSha256 hashedPayload query else query in
  let query := if decide (Values_Get q AmzSecurityToken <> [])
               then Values_Set AmzSecurityToken (SessionToken cred) query else query in
  let query := Values_Set AmzAlgorithm signV4Algorithm query in
  let query := Values_Set AmzDate (Format_iso8601 (psv_Date psv)) query in
  let query := Values_Set AmzExpires (FormatInt (Z.quot (psv_Expires psv) (10 ^ 9))) query in
  let query := Values_Set AmzSignedHeaders (getSignedHeaders headers) query in
  let query := Values_Set AmzCredential
                 (AccessKey cred ++ "/"%char :: credentialHeader_getScope (sv_Credential (psv_sign psv))) query in
  map_imap presign_extra q ∪ query.

Context `{FloatEnv}.

(** [t.Sub(u)], which saturates. *)
Definition time_Sub (t u : time) : Z := (clamp64 (t - u)).1.

(** The clock is read twice. *)
Definition doesPresignedSignatureMatch (now1 now2 : time) (hashedPayload : bytes) (r : Request)
  (region stype : bytes) : APIErrorCode :=
  let q := URL_Query r in
  match parsePreSignV4 q region stype with
  | inr e => e
  | inl psv =>
      let sv := psv_sign psv in
      match checkKeyValid (ch_accessKey (sv_Credential sv)) with
      | inr e => e
      | inl (cred, _) =>
          match extractSignedHeaders (sv_SignedHeaders sv) r with
          | inr e => e
          | inl headers =>
              if now1 + globalMaxSkewTime <? psv_Date psv then ErrRequestNotReadyYet
              else if psv_Expires psv <? time_Sub now2 (psv_Date psv) then ErrExpiredPresignRequest
              else
                let clntHashedPayload := Values_Get q AmzContentSha256 in
                let token := Values_Get q AmzSecurityToken in
                let query := presign_query psv cred headers hashedPayload q in
                let differs k := bool_decide (Values_Get q k <> Values_Get query k) in
                if differs AmzDate || differs AmzExpires || differs AmzSignedHeaders || differs AmzCredential
                then ErrSignatureDoesNotMatch
                else if bool_decide (clntHashedPayload <> []) && differs AmzContentSha256
                then ErrContentSHA256Mismatch
                else if bool_decide (token <> []) && bool_decide (token <> SessionToken cred)
                then ErrInvalidToken
                else
                  let canonical := getCanonicalRequest headers hashedPayload (Values_Encode query)
                                     (URL_Path r) (Method r) in
                  let stringToSign := getStringToSign canonical (psv_Date psv)
                                        (credentialHeader_getScope (sv_Credential sv)) in
                  let signingKey := getSigningKey (SecretKey cred) (scope_date (sv_Credential sv))
                                      (scope_region (sv_Credential sv)) stype in
                  if negb (compareSignatureV4 (Values_Get q AmzSignature) (getSignature signingKey stringToSign))
                  then ErrSignatureDoesNotMatch
                  else ErrNone
          end
      end
  end.
End canonical.
