(* ===== verification/SignV4Parse.v ===== *)
(** * Parsing of Authorization headers

    The header a client writes for its key, scope, signed headers and signature
    is parsed back into them. *)
From S2P Require Import Prelude GoLib IncStr GoText Errors APIErrors Metadata GoTime Credentials Bufio Streaming.
From S2P Require Import SignV4.
Import strconv.

(** ** Spaces at the ends *)

(** Printable ASCII other than the space. *)
Definition graphic (c : ascii) : bool := utf8.inr c 33 126.

(** No encoding of a space starts, or ends, with a graphic character. *)
Definition starts_blank (sp : bytes) : bool := match sp with c :: _ => negb (graphic c) | [] => false end.

Lemma trim_one_graphic sps c s :
  forallb starts_blank sps = true -> graphic c = true -> utf8.trim_one sps (c :: s) = None.
Proof.
  intros Hs Hc. induction sps as [|sp sps IH]; [done|]. simpl in Hs. apply andb_prop in Hs as [H1 H2].
  cbn [utf8.trim_one]. destruct (HasPrefix (c :: s) sp) eqn:E; [|by apply IH].
  apply strings.HasPrefix_spec in E as [k Hk]. destruct sp as [|d sp]; [done|]. injection Hk as <- _.
  simpl in H1. by rewrite Hc in H1.
Qed.

Lemma trim_left_graphic fuel sps c s :
  forallb starts_blank sps = true -> graphic c = true -> utf8.trim_left fuel sps (c :: s) = c :: s.
Proof. intros. destruct fuel; [done|]. cbn [utf8.trim_left]. by rewrite trim_one_graphic. Qed.

(** A string that starts and ends with a graphic character is left as it is. *)
Definition starts_ok (s : bytes) : Prop := ∃ c l, s = c :: l /\ graphic c = true.
Definition ends_ok (s : bytes) : Prop := ∃ l c, s = l ++ [c] /\ graphic c = true.

Lemma TrimSpace_framed s : starts_ok s -> ends_ok s -> utf8.TrimSpace s = s.
Proof.
  intros (c & l & E1 & Hc) (l' & d & E2 & Hd). unfold utf8.TrimSpace.
  replace (utf8.trim_left (length s) utf8.space_encodings s) with s
    by (rewrite E1; by rewrite trim_left_graphic).
  replace (reverse s) with (d :: reverse l') by (by rewrite E2, reverse_snoc).
  rewrite trim_left_graphic by done. by rewrite E2, <- reverse_snoc, reverse_involutive.
Qed.

Lemma TrimSpace_space s : starts_ok s -> ends_ok s -> utf8.TrimSpace (" "%char :: s) = s.
Proof.
  intros Hf Hl. pose proof (TrimSpace_framed s Hf Hl) as H. unfold utf8.TrimSpace in *.
  replace (utf8.trim_left (length (" "%char :: s)) utf8.space_encodings (" "%char :: s))
    with (utf8.trim_left (length s) utf8.space_encodings s); [done|].
  cbn [length utf8.trim_left]. reflexivity.
Qed.

Lemma starts_app s t : starts_ok s -> starts_ok (s ++ t).
Proof. intros (c & l & -> & H). by exists c, (l ++ t). Qed.
Lemma ends_app s t : ends_ok t -> ends_ok (s ++ t).
Proof. intros (l & c & -> & H). exists (s ++ l), c. by rewrite app_assoc. Qed.
Lemma ends_cons c t : ends_ok t -> ends_ok (c :: t).
Proof. apply (ends_app [c]). Qed.
#[local] Hint Resolve starts_app ends_app ends_cons : go.

(** ** Strings of graphic characters without separators *)
Definition clean (seps : bytes) (s : bytes) : Prop := Forall (λ c, graphic c = true /\ c ∉ seps) s.
#[export] Instance clean_dec seps s : Decision (clean seps s) := _.

Lemma clean_starts seps s : clean seps s -> s <> [] -> starts_ok s.
Proof. intros Hc Hne. destruct s as [|c s]; [done|]. inversion Hc as [|? ? [] ?]; subst. by exists c, s. Qed.
Lemma clean_ends seps s : clean seps s -> s <> [] -> ends_ok s.
Proof.
  intros Hc Hne. destruct (exists_last Hne) as (l & c & ->). apply Forall_app in Hc as [_ Hc].
  inversion Hc as [|? ? [] ?]; subst. by exists l, c.
Qed.

Lemma clean_not_in seps s c : clean seps s -> c ∈ seps -> c ∉ s.
Proof. intros Hc Hs Hin. unfold clean in Hc. rewrite Forall_forall in Hc. by apply Hc in Hin as []. Qed.

Lemma clean_no_space seps s : clean seps s -> " "%char ∉ s.
Proof. intros Hc Hin. unfold clean in Hc. rewrite Forall_forall in Hc. by apply Hc in Hin as []. Qed.

Lemma clean_app seps s t : clean seps s -> clean seps t -> clean seps (s ++ t).
Proof. intros. by apply Forall_app. Qed.

Lemma clean_join seps l sep :
  Forall (clean seps) l -> clean seps sep -> clean seps (strings.Join l sep).
Proof.
  intros Hl Hs. induction Hl as [|x l Hx Hl IH]; [constructor|]. destruct l as [|y l]; [done|].
  cbn [strings.Join]. by repeat apply clean_app.
Qed.

Lemma clean_weaken seps seps' s : clean seps s -> (∀ c, c ∈ seps' -> c ∈ seps) -> clean seps' s.
Proof. intros Hc Hs. eapply Forall_impl; [exact Hc|]. intros c []. split; [done|]. eauto. Qed.

Lemma digits_clean seps w n : forallb (λ c, negb (bool_decide (is_digit c))) seps = true -> clean seps (digits w n).
Proof.
  intros Hs. pose proof (digits_digits w n) as Hd. eapply Forall_impl; [exact Hd|]. intros c Hc. split.
  - unfold graphic, utf8.inr. unfold is_digit in Hc. apply andb_true_intro. rewrite !N.leb_le. lia.
  - rewrite forallb_forall in Hs. intros Hin. apply list_elem_of_In, Hs in Hin. by rewrite bool_decide_true in Hin.
Qed.

Lemma Format_yyyymmdd_clean seps t :
  forallb (λ c, negb (bool_decide (is_digit c))) seps = true -> clean seps (Format_yyyymmdd t).
Proof.
  intros. unfold Format_yyyymmdd. destruct (civil _) as [[y m] d].
  apply clean_app; [|apply clean_app]; by apply digits_clean.
Qed.

(** ** The header a client writes *)
Definition scope_string (date : time) (region service : bytes) : bytes :=
  strings.Join [Format_yyyymmdd date; region; service; aws4_request] (str "/").
Definition credential_element (accessKey scope : bytes) : bytes :=
  str "Credential=" ++ accessKey ++ str "/" ++ scope.
Definition signed_element (headers : list bytes) : bytes :=
  str "SignedHeaders=" ++ strings.Join headers (str ";").
Definition signature_element (signature : bytes) : bytes := str "Signature=" ++ signature.
Definition authorization (accessKey scope : bytes) (headers : list bytes) (signature : bytes) : bytes :=
  strings.Join [signV4Algorithm ++ " "%char :: credential_element accessKey scope;
                " "%char :: signed_element headers; " "%char :: signature_element signature] [","%char].

(** What the parts may contain. *)
Record writable (accessKey region service : bytes) (headers : list bytes) (signature : bytes) : Prop := {
  wr_key : clean (str ",") accessKey;
  wr_key_length : (3 <= length accessKey)%nat;
  wr_region : clean (str ",/") region;
  wr_service : clean (str ",/") service;
  wr_headers : headers <> [];
  wr_header : Forall (λ h, h <> [] /\ clean (str ",;=") h) headers;
  wr_signature : signature <> [] /\ clean (str ",=") signature }.

Ltac clean_lit := refine (bool_decide_eq_true_1 _ _); vm_compute; reflexivity.

Lemma Join_clean_nonempty headers :
  headers <> [] -> Forall (λ h, h <> [] /\ clean (str ",;=") h) headers ->
  clean (str ",=") (strings.Join headers (str ";")) /\ strings.Join headers (str ";") <> [].
Proof.
  intros Hne Hh. split.
  - apply clean_join; [|clean_lit]. eapply Forall_impl; [exact Hh|]. intros h [_ Hc].
    eapply clean_weaken; [exact Hc|]. set_solver.
  - destruct Hh as [|h hs [Hn _] _]; [done|]. destruct hs; [done|]. cbn [strings.Join]. by destruct h.
Qed.

Lemma parse_tagged_ok tag missing v :
  clean (str "=") tag -> tag <> [] -> clean (str "=") v -> v <> [] ->
  parse_tagged tag missing (tag ++ "="%char :: v) = inl v.
Proof.
  intros Ht Htn Hv Hvn. unfold parse_tagged. rewrite TrimSpace_framed.
  - rewrite strings.Split_app_sep by (apply (clean_not_in _ _ _ Ht); clean_lit).
    rewrite strings.Split_no_sep by (apply (clean_not_in _ _ _ Hv); clean_lit).
    rewrite decide_False by tauto. by rewrite decide_False.
  - by eapply starts_app, clean_starts.
  - by eapply ends_app, ends_cons, clean_ends.
Qed.

Lemma clean_comma_eq s : clean (str ",=") s -> clean (str "=") s.
Proof. intros. eapply clean_weaken; [done|]. set_solver. Qed.

Lemma parseSignedHeader_ok headers :
  headers <> [] -> Forall (λ h, h <> [] /\ clean (str ",;=") h) headers ->
  parseSignedHeader (signed_element headers) = inl headers.
Proof.
  intros Hne Hh. destruct (Join_clean_nonempty _ Hne Hh) as [Hc Hn]. unfold parseSignedHeader, signed_element.
  change (str "SignedHeaders=" ++ strings.Join headers (str ";"))
    with (str "SignedHeaders" ++ "="%char :: strings.Join headers (str ";")).
  rewrite parse_tagged_ok; [|clean_lit|done|by apply clean_comma_eq|done].
  change (str ";") with [";"%char]. rewrite strings.Split_Join; [done|done|].
  eapply Forall_impl; [exact Hh|]. intros h [_ H]. apply (clean_not_in _ _ _ H). clean_lit.
Qed.

Lemma parseSignature_ok signature :
  signature <> [] -> clean (str ",=") signature -> parseSignature (signature_element signature) = inl signature.
Proof.
  intros Hn Hc. unfold parseSignature, signature_element.
  change (str "Signature=" ++ signature) with (str "Signature" ++ "="%char :: signature).
  apply parse_tagged_ok; [clean_lit|done|by apply clean_comma_eq|done].
Qed.

(** ** The credential *)

(** An access key may hold slashes itself: the scope is the last four elements. *)
Lemma Split_Join_app s ps c : ps <> [] -> Forall (λ p, c ∉ p) ps ->
  strings.Split (s ++ c :: strings.Join ps [c]) c = strings.Split s c ++ ps.
Proof.
  intros Hne Hp. induction s as [|d s IH]; cbn [app strings.Split].
  - rewrite decide_True by done. cbn [app]. by rewrite strings.Split_Join.
  - case_decide; [cbn [app]; by rewrite IH|]. rewrite IH.
    pose proof (strings.Split_nonempty s c). by destruct (strings.Split s c).
Qed.

Lemma Join_Split s c : strings.Join (strings.Split s c) [c] = s.
Proof.
  induction s as [|d s IH]; [done|]. cbn [strings.Split]. pose proof (strings.Split_nonempty s c).
  case_decide as E.
  - destruct (strings.Split s c) as [|p ps]; [done|]. subst d. cbn [strings.Join app] in *. by rewrite IH.
  - destruct (strings.Split s c) as [|p ps]; [done|]. destruct ps as [|q ps]; cbn [strings.Join app] in *; by rewrite IH.
Qed.

Lemma isValidRegion_refl region : isValidRegion region region = true.
Proof. unfold isValidRegion. case_decide; [done|]. by apply bool_decide_eq_true. Qed.

(** The region the server is configured with, or none. *)
Definition region_ok (serverRegion region : bytes) : Prop := serverRegion = [] \/ serverRegion = region.

Lemma parseCredentialHeader_ok accessKey date region service serverRegion :
  clean (str ",") accessKey -> (3 <= length accessKey)%nat -> clean (str ",/") region ->
  clean (str ",/") service -> four_digit_year date -> region_ok serverRegion region ->
  parseCredentialHeader (credential_element accessKey (scope_string date region service)) serverRegion service =
    inl (mkCredentialHeader accessKey (date / day_ns * day_ns) region service aws4_request).
Proof.
  intros Hk Hl Hr Hs Hd Hreg. set (ps := [Format_yyyymmdd date; region; service; aws4_request]).
  assert (Forall (λ p, "/"%char ∉ p) ps) as Hps.
  { unfold ps. repeat constructor; try (eapply clean_not_in; [eassumption|clean_lit]).
    - apply (clean_not_in (str "/")); [by apply Format_yyyymmdd_clean|clean_lit].
    - clean_lit. }
  assert (ends_ok (strings.Join ps ["/"%char])) as He.
  { unfold ps. cbn [strings.Join]. do 3 apply ends_app, ends_cons. eapply (clean_ends []); [clean_lit|done]. }
  assert (starts_ok accessKey) as Hst by (eapply clean_starts; [done|]; destruct accessKey; simpl in *; [lia|done]).
  unfold parseCredentialHeader, credential_element, scope_string. fold ps.
  change (str "Credential=" ++ ?x) with (str "Credential" ++ "="%char :: x).
  change (str "/" ++ ?x) with ("/"%char :: x). change (str "/") with ["/"%char].
  rewrite TrimSpace_framed; [|by eapply starts_app, (clean_starts []); [clean_lit|]|by apply ends_app, ends_cons, ends_app, ends_cons].
  rewrite SplitN2_app by clean_lit. rewrite decide_False by tauto.
  rewrite TrimSpace_framed; [|by apply starts_app|by apply ends_app, ends_cons].
  rewrite Split_Join_app by done. rewrite length_app. change (length ps) with 4%nat.
  pose proof (strings.Split_length accessKey "/"%char).
  destruct (Nat.ltb_spec (length (strings.Split accessKey "/"%char) + 4) 5); [lia|].
  rewrite Nat.add_sub. rewrite take_app_length, drop_app_length, Join_Split.
  unfold IsAccessKeyValid, accessKeyMinLen. destruct (Nat.leb_spec 3 (length accessKey)); [|lia]. cbn [negb].
  unfold ps, parse_scope. rewrite Parse_Format_yyyymmdd by done.
  assert ((if decide (serverRegion = []) then region else serverRegion) = region) as ->.
  { destruct Hreg as [-> | ->]; [by rewrite decide_True|by case_decide]. }
  rewrite isValidRegion_refl. cbn [negb]. rewrite !decide_False by tauto. done.
Qed.

(** ** The whole header *)
Definition strip (s : bytes) : bytes := Replace s (str " ") [].
Lemma strip_app s t : strip (s ++ t) = strip s ++ strip t.
Proof. unfold strip. change (str " ") with [" "%char]. rewrite !Replace_single. apply flat_map_app. Qed.
Lemma strip_id s : " "%char ∉ s -> strip s = s.
Proof.
  unfold strip. change (str " ") with [" "%char]. rewrite Replace_single.
  induction s as [|c s IH]; [done|]. rewrite not_elem_of_cons. intros [H1 H2]. cbn [flat_map].
  rewrite decide_False by done. by rewrite IH.
Qed.

Lemma strip_space s : strip (" "%char :: s) = strip s.
Proof. apply (strip_app [" "%char]). Qed.
Lemma strip_comma s : strip (","%char :: s) = ","%char :: strip s.
Proof. apply (strip_app [","%char]). Qed.

Lemma strip_elements a c s g :
  " "%char ∉ a -> " "%char ∉ c -> " "%char ∉ s -> " "%char ∉ g ->
  strip (strings.Join [a ++ " "%char :: c; " "%char :: s; " "%char :: g] [","%char]) =
    a ++ strings.Join [c; s; g] [","%char].
Proof.
  intros. cbn [strings.Join]. rewrite <- !app_assoc. cbn [app].
  repeat (rewrite strip_app || rewrite strip_space || rewrite strip_comma). by rewrite (strip_id a), (strip_id c), (strip_id s), (strip_id g).
Qed.

(** The three elements of a header. *)
Lemma parseSignV4_elements c s g region stype :
  clean (str ",") c -> clean (str ",") s -> clean (str ",") g -> c <> [] -> g <> [] ->
  parseSignV4 (strings.Join [signV4Algorithm ++ " "%char :: c; " "%char :: s; " "%char :: g] [","%char])
    region stype = parse_elements c s g region stype.
Proof.
  intros Hc Hs Hg Hcn Hgn. pose proof (clean_ends _ _ Hg Hgn) as Hge. pose proof (clean_starts _ _ Hc Hcn) as Hcs.
  assert (","%char ∈ str ",") as Hcomma by clean_lit.
  assert (starts_ok signV4Algorithm) as Ha by (eapply (clean_starts []); [clean_lit|done]).
  assert (","%char ∉ signV4Algorithm) as Hac by clean_lit.
  assert (" "%char ∉ signV4Algorithm) as Has by clean_lit.
  assert (Forall (λ p, ","%char ∉ p) [c; s; g]) as Hall by (repeat constructor; by eapply clean_not_in).
  unfold parseSignV4. revert Ha Hac Has. generalize signV4Algorithm as alg. intros alg Ha Hac Has.
  rewrite (TrimSpace_framed (strings.Join _ _)); [|by cbn [strings.Join]; apply starts_app, starts_app|].
  2: { cbn [strings.Join]. by apply ends_app, ends_cons, ends_app, ends_cons, ends_cons. }
  rewrite strings.Split_Join; [|done|].
  2: { inversion_clear Hall as [|? ? H1 H2]. inversion_clear H2 as [|? ? H2' H3]. inversion_clear H3.
       repeat constructor; rewrite ?elem_of_app, ?elem_of_cons; intuition done. }
  change (Replace ?x (str " ") []) with (strip x).
  rewrite strip_elements; [|done|by eapply clean_no_space..].
  rewrite decide_False by (destruct Ha as (? & ? & -> & _); done).
  cbn [head default from_option]. unfold TrimPrefix, id. rewrite !strings.HasPrefix_app, !drop_app_length. cbn [negb].
  rewrite (TrimSpace_framed (strings.Join _ _)); [|by cbn [strings.Join]; apply starts_app|].
  2: { cbn [strings.Join]. by apply ends_app, ends_cons, ends_app, ends_cons. }
  rewrite strings.Split_Join by done. rewrite TrimSpace_space; [done|done|by eapply clean_ends].
Qed.

Lemma credential_clean accessKey date region service :
  clean (str ",") accessKey -> clean (str ",/") region -> clean (str ",/") service ->
  clean (str ",") (credential_element accessKey (scope_string date region service)).
Proof.
  intros Hk Hr Hs. unfold credential_element, scope_string. cbn [strings.Join].
  apply clean_app; [clean_lit|]. apply clean_app; [done|]. apply clean_app; [clean_lit|].
  apply clean_app; [by apply Format_yyyymmdd_clean|]. apply clean_app; [clean_lit|].
  apply clean_app; [eapply clean_weaken; [exact Hr|set_solver]|]. apply clean_app; [clean_lit|].
  apply clean_app; [eapply clean_weaken; [exact Hs|set_solver]|]. apply clean_app; clean_lit.
Qed.

(** Parsing gives back what the client wrote; the date of the scope is its day. *)
Lemma parseSignV4_authorization accessKey date region service headers signature serverRegion :
  writable accessKey region service headers signature -> four_digit_year date ->
  region_ok serverRegion region ->
  parseSignV4 (authorization accessKey (scope_string date region service) headers signature) serverRegion service =
    inl (mkSignValues (mkCredentialHeader accessKey (date / day_ns * day_ns) region service aws4_request)
           headers signature).
Proof.
  intros [Hk Hl Hr Hs Hn Hh [Hgn Hg]] Hd Hreg. destruct (Join_clean_nonempty _ Hn Hh) as [Hjc Hjn].
  unfold authorization. rewrite parseSignV4_elements.
  - unfold parse_elements. rewrite parseCredentialHeader_ok by done. rewrite parseSignedHeader_ok by done.
    by rewrite parseSignature_ok.
  - by apply credential_clean.
  - apply clean_app; [clean_lit|]. eapply clean_weaken; [exact Hjc|set_solver].
  - apply clean_app; [clean_lit|]. eapply clean_weaken; [exact Hg|set_solver].
  - done.
  - done.
Qed.
