(* ===== verification/SignV4Canon.v ===== *)
(** * Canonical requests

    The canonical headers do not depend on the order in which a map is visited;
    they are those of the AWS reference for the headers a client sends; and a
    canonical request determines what was signed. *)
From S2P Require Import Prelude GoLib IncStr GoText Errors APIErrors Metadata GoTime Credentials Bufio Streaming.
From S2P Require Import SignV4 SignV4Parse.

(** ** Letter case *)
Definition case_ok (c : ascii) : bool :=
  bool_decide (is_upper c = false -> to_lower c = c) &&
  bool_decide (is_upper c = false -> to_lower (to_upper c) = c) &&
  bool_decide (is_ascii c = true -> is_ascii (to_upper c) = true /\ is_ascii (to_lower c) = true) &&
  bool_decide (token_byte c = true -> is_ascii c = true) &&
  forallb (λ d, bool_decide (to_upper c = d \/ to_lower c = d -> c = d)) [newline; ";"%char].
Lemma case_ok_all c : case_ok c = true.
Proof. revert c. apply all_bytes. vm_compute. reflexivity. Qed.

(** The separators of a canonical request: a change of case gives one only from
    itself. *)
Definition separator (d : ascii) : Prop := d = newline \/ d = ";"%char.
Lemma case_separator d c : separator d -> to_upper c = d \/ to_lower c = d -> c = d.
Proof.
  intros Hd. pose proof (case_ok_all c) as H. unfold case_ok in H. cbn [forallb] in H. zbool.
  destruct Hd as [-> | ->]; done.
Qed.

Definition ascii_only (s : bytes) : Prop := forallb is_ascii s = true.

Lemma canonical_from_not_in d b s : separator d -> d ∉ s -> d ∉ canonical_from b s.
Proof.
  intros Hd. revert b. induction s as [|c s IH]; intros b; [done|]. cbn [canonical_from].
  rewrite !not_elem_of_cons. intros [H1 H2]. split; [|by apply IH]. intros E. apply H1. symmetry.
  apply case_separator; [done|]. destruct b; auto.
Qed.

Lemma canonical_not_in d s : separator d -> d ∉ s -> d ∉ CanonicalHeaderKey s.
Proof. intros. unfold CanonicalHeaderKey. case_match; [|done]. by apply canonical_from_not_in. Qed.

Lemma canonical_from_ascii b s : ascii_only s -> ascii_only (canonical_from b s).
Proof.
  unfold ascii_only. revert b. induction s as [|c s IH]; intros b; [done|]. cbn [canonical_from forallb]. intros H.
  apply andb_prop in H as [H1 H2]. pose proof (case_ok_all c) as Hc. unfold case_ok in Hc. zbool.
  apply andb_true_intro. split; [|by apply IH].
  match goal with H : is_ascii c = true -> _ |- _ => destruct (H H1) end. by destruct b.
Qed.

Lemma canonical_ascii s : ascii_only s -> ascii_only (CanonicalHeaderKey s).
Proof. intros. unfold CanonicalHeaderKey. case_match; [|done]. by apply canonical_from_ascii. Qed.

Section lower.
Context `{UnicodeEnv}.

Lemma ToLower_not_in d s : separator d -> ascii_only s -> d ∉ s -> d ∉ ToLower s.
Proof.
  intros Hd Ha Hin. unfold ToLower. rewrite Ha. rewrite list_elem_of_fmap. intros (c & E & Hc).
  apply Hin. by rewrite <- (case_separator d c) by auto.
Qed.

(** A header name as a client writes it: small letters. *)
Definition lower_token (s : bytes) : Prop := forallb (λ c, token_byte c && negb (is_upper c)) s = true.

Lemma lower_canonical_from b s :
  lower_token s -> ascii_only (canonical_from b s) /\ to_lower <$> canonical_from b s = s.
Proof.
  unfold lower_token, ascii_only. revert b. induction s as [|c s IH]; intros b; [done|]. cbn [canonical_from forallb].
  intros Hs. apply andb_prop in Hs as [Hc Hs]. destruct (IH (bool_decide (c = "-"%char)) Hs) as [H1 H2].
  pose proof (case_ok_all c) as Hk. unfold case_ok in Hk. apply andb_prop in Hc as [Ht Hu].
  apply negb_true_iff in Hu. zbool. rewrite H1. cbn [fmap list_fmap].
  assert (is_ascii c = true) as Ha by auto. split.
  - match goal with H : is_ascii c = true -> _ |- _ => destruct (H Ha) end. destruct b; by apply andb_true_intro.
  - assert (to_lower (if b then to_upper c else to_lower c) = c) as Hlow.
    { assert (to_lower c = c) as Hl by auto. destruct b; [by auto|]. by rewrite !Hl. }
    rewrite Hlow. f_equal. exact H2.
Qed.

Lemma ToLower_canonical s : lower_token s -> ToLower (CanonicalHeaderKey s) = s.
Proof.
  intros Hs. unfold CanonicalHeaderKey, ToLower.
  assert (forallb token_byte s = true) as ->.
  { unfold lower_token in Hs. rewrite forallb_forall in *. intros c Hc. apply Hs in Hc. by apply andb_prop in Hc as []. }
  destruct (lower_canonical_from true s Hs) as [H1 H2]. by rewrite H1.
Qed.

(** ** The order of a map *)

(** What the loop stores: the values of each name in small letters. *)
Definition lower_values (entries : list (bytes * list bytes)) : multimap :=
  foldl (λ (m : multimap) e, <[ToLower e.1 := e.2]> m) ∅ entries.

Lemma lower_values_lookup entries k v :
  NoDup ((λ e, ToLower e.1) <$> entries) -> (k, v) ∈ entries -> lower_values entries !! ToLower k = Some v.
Proof.
  unfold lower_values. generalize (∅ : multimap). induction entries as [|[k' v'] es IH]; intros m Hnd Hin;
    [by apply elem_of_nil in Hin|]. cbn [fmap list_fmap foldl fst snd] in *. apply NoDup_cons in Hnd as [Hk Hnd].
  apply elem_of_cons in Hin as [E|Hin]; [|by apply IH].
  injection E as -> ->. assert (∀ m : multimap, foldl (λ (m : multimap) e, <[ToLower e.1 := e.2]> m) m es !! ToLower k' = m !! ToLower k') as Hkeep.
  { clear IH Hnd m. intros m. revert m. induction es as [|[j w] es IH]; intros m; [done|]. cbn [fmap list_fmap foldl fst snd] in *.
    apply not_elem_of_cons in Hk as [Hj Hk]. rewrite IH by done. by rewrite lookup_insert_ne. }
  rewrite Hkeep. apply lookup_insert_eq.
Qed.

(** The canonical form of entries with distinct names: sorted lines. *)
Definition header_line (p : bytes * bytes) : bytes := p.1 ++ ":"%char :: p.2.
Definition trimmed (vs : list bytes) : bytes := strings.Join (signV4TrimAll <$> vs) (str ",").
Definition signed_view_of (entries : list (bytes * list bytes)) : list (bytes * bytes) :=
  (λ k, (k, trimmed (default [] (lower_values entries !! k)))) <$> sort_Strings ((λ e, ToLower e.1) <$> entries).
Definition signed_view (h : multimap) : list (bytes * bytes) := signed_view_of (map_to_list h).

Lemma sort_Strings_sorted l : Sorted ble (sort_Strings l).
Proof. apply Sorted_merge_sort, _. Qed.

Lemma sort_Strings_eq l l' : l ≡ₚ l' -> sort_Strings l = sort_Strings l'.
Proof.
  intros Hp. apply (Sorted_unique ble); try apply sort_Strings_sorted. by rewrite !sort_Strings_perm.
Qed.

Lemma sort_Strings_id l : Sorted ble l -> sort_Strings l = l.
Proof. intros Hs. apply (Sorted_unique ble); [apply sort_Strings_sorted|done|apply sort_Strings_perm]. Qed.

Lemma signed_view_perm entries entries' :
  NoDup ((λ e, ToLower e.1) <$> entries) -> entries ≡ₚ entries' ->
  signed_view_of entries = signed_view_of entries'.
Proof.
  intros Hnd Hp. unfold signed_view_of. rewrite (sort_Strings_eq _ ((λ e, ToLower e.1) <$> entries')) by (by rewrite Hp).
  apply list_fmap_ext. intros i k Hk. apply list_elem_of_lookup_2 in Hk.
  rewrite (sort_Strings_perm _), list_elem_of_fmap in Hk. destruct Hk as ([j v] & -> & Hin). do 3 f_equal. cbn [fst].
  rewrite (lower_values_lookup entries' j v), (lower_values_lookup entries j v); [done|done|by rewrite Hp| |done].
  by rewrite <- Hp.
Qed.
End lower.

(** ** The lines of a canonical request *)
Definition line_ok (s : bytes) : Prop := newline ∉ s.

Lemma Join_snoc l x sep : strings.Join (l ++ [x]) sep = flat_map (λ y, y ++ sep) l ++ x.
Proof.
  induction l as [|y l IH]; [done|]. cbn [app flat_map].
  destruct (l ++ [x]) as [|z r] eqn:E; [by destruct l|].
  change (strings.Join (y :: z :: r) sep) with (y ++ sep ++ strings.Join (z :: r) sep).
  rewrite IH. by rewrite !app_assoc.
Qed.

Section lines.
Context `{UnicodeEnv}.
Variable EncodePath : bytes -> bytes.

Definition raw_query (queryStr : bytes) : bytes := Replace queryStr (str "+") (str "%20").
Definition request_lines (view : list (bytes * bytes)) (payload queryStr urlPath method : bytes) : list bytes :=
  [method; EncodePath urlPath; raw_query queryStr] ++ (header_line <$> view)
    ++ [[]; strings.Join view.*1 (str ";"); payload].

Lemma getCanonicalHeaders_view h :
  getCanonicalHeaders h = flat_map (λ y, y ++ [newline]) (header_line <$> signed_view h).
Proof.
  unfold getCanonicalHeaders, canonical_headers_of, signed_view, signed_view_of. fold (lower_values (map_to_list h)).
  cbv zeta. induction (sort_Strings _) as [|k ks IH]; [done|]. cbn [flat_map fmap list_fmap]. rewrite IH.
  unfold header_line, trimmed. cbn [fst snd]. rewrite <- !app_assoc. cbn [app]. by rewrite <- !app_assoc.
Qed.

Lemma getSignedHeaders_view h : getSignedHeaders h = strings.Join (signed_view h).*1 (str ";").
Proof.
  unfold getSignedHeaders, signed_view, signed_view_of. f_equal.
  rewrite <- (list_fmap_compose fst ToLower), <- list_fmap_compose. symmetry. apply list_fmap_id.
Qed.

Lemma getCanonicalRequest_lines h payload queryStr urlPath method :
  getCanonicalRequest EncodePath h payload queryStr urlPath method =
    strings.Join (request_lines (signed_view h) payload queryStr urlPath method) [newline].
Proof.
  unfold request_lines.
  rewrite (app_assoc _ _ [[]; strings.Join (signed_view h).*1 (str ";"); payload]).
  change [[]; strings.Join (signed_view h).*1 (str ";"); payload]
    with ([[]; strings.Join (signed_view h).*1 (str ";")] ++ [payload]).
  rewrite app_assoc, Join_snoc, !flat_map_app.
  unfold getCanonicalRequest. rewrite getCanonicalHeaders_view, getSignedHeaders_view. fold (raw_query queryStr).
  cbn [strings.Join flat_map]. rewrite app_nil_r, <- !app_assoc. cbn [app].
  done.
Qed.

(** The lines determine the request, when the parts have no line breaks and the
    names no semicolons. *)
Definition names_ok (view : list (bytes * bytes)) : Prop :=
  view <> [] /\ Forall (λ p, line_ok p.1 /\ (";"%char ∉ p.1) /\ line_ok p.2) view.

Lemma names_join_ok view : names_ok view -> line_ok (strings.Join view.*1 (str ";")).
Proof.
  intros [_ Hv]. unfold line_ok. induction Hv as [|p view [Hp _] Hv IH]; [by apply not_elem_of_nil|].
  destruct view as [|q view]; [done|]. cbn [fmap list_fmap strings.Join] in *. rewrite !elem_of_app.
  assert (newline ∉ str ";") by clean_lit. unfold line_ok in Hp. tauto.
Qed.

Lemma header_lines_ok view : names_ok view -> Forall line_ok (header_line <$> view).
Proof.
  intros [_ Hv]. apply Forall_fmap. eapply Forall_impl; [exact Hv|]. intros p (H1 & _ & H2).
  unfold line_ok, compose, header_line. rewrite elem_of_app, elem_of_cons. intros [?|[E|?]]; done.
Qed.

Lemma header_line_inj view view' :
  view.*1 = view'.*1 -> header_line <$> view = header_line <$> view' -> view = view'.
Proof.
  revert view'. induction view as [|[k v] view IH]; intros [|[k' v'] view'] E1 E2; try done.
  cbn [fmap list_fmap fst] in *. injection E1 as <- E1. injection E2 as Ev E2. f_equal; [|by apply IH].
  unfold header_line in Ev. cbn [fst snd] in Ev. apply (inj (app k)) in Ev. by injection Ev as ->.
Qed.

Lemma names_join_inj view view' :
  names_ok view -> names_ok view' -> strings.Join view.*1 (str ";") = strings.Join view'.*1 (str ";") ->
  view.*1 = view'.*1.
Proof.
  intros [Hn Hv] [Hn' Hv'] E. change (str ";") with [";"%char] in E.
  rewrite <- (strings.Split_Join view.*1 ";"%char), <- (strings.Split_Join view'.*1 ";"%char), E; [done| | | |].
  all: try (by intros ->%fmap_nil_inv). all: apply Forall_fmap; eapply Forall_impl; try eassumption;
    intros p (_ & H1 & _); exact H1.
Qed.

Lemma request_lines_inj view view' payload payload' q q' p p' m m' :
  names_ok view -> names_ok view' ->
  Forall line_ok [m; EncodePath p; raw_query q; payload] ->
  Forall line_ok [m'; EncodePath p'; raw_query q'; payload'] ->
  strings.Join (request_lines view payload q p m) [newline] =
    strings.Join (request_lines view' payload' q' p' m') [newline] ->
  m = m' /\ EncodePath p = EncodePath p' /\ raw_query q = raw_query q' /\ view = view' /\ payload = payload'.
Proof.
  intros Hv Hv' Hl Hl' E.
  assert (∀ w a b c d, names_ok w -> Forall line_ok [d; EncodePath c; raw_query b; a] ->
            Forall line_ok (request_lines w a b c d)) as Hok.
  { intros w a b c d Hw Hf. rewrite !Forall_cons in Hf. destruct Hf as (? & ? & ? & ? & _).
    unfold request_lines. rewrite !Forall_app, !Forall_cons. split_and!; try done.
    - by apply header_lines_ok.
    - by apply not_elem_of_nil.
    - by apply names_join_ok. }
  pose proof (Hok _ _ _ _ _ Hv Hl) as H1. pose proof (Hok _ _ _ _ _ Hv' Hl') as H2.
  assert (request_lines view payload q p m = request_lines view' payload' q' p' m') as El.
  { rewrite <- (strings.Split_Join (request_lines view payload q p m) newline), E by done. by apply strings.Split_Join. }
  clear E. unfold request_lines in El. injection El as -> Ep Eq El.
  apply app_inj_2 in El as [Eh El]; [|done]. injection El as En ->.
  split_and!; try done. apply header_line_inj; [|done]. by apply names_join_inj.
Qed.
End lines.

(** The encoded query of a request determines its parameters. *)
Lemma raw_query_encode v :
  raw_query (Values_Encode v) = strings.Join (encode_pair (str "%20") <$> encode_pairs v) (str "&").
Proof.
  unfold raw_query, Values_Encode.
  rewrite (Replace_single _ "+"%char _ : Replace _ (str "+") _ = _).
  set (sub := λ x, if decide (x = "+"%char) then str "%20" else [x]).
  assert (∀ c, flat_map sub (escape (str "+") c) = escape (str "%20") c) as Hc.
  { intros c. apply (bool_decide_eq_true_1 (flat_map sub (escape (str "+") c) = escape (str "%20") c)).
    revert c. apply all_bytes. vm_compute. reflexivity. }
  assert (∀ s, flat_map sub (flat_map (escape (str "+")) s) = flat_map (escape (str "%20")) s) as Hs.
  { induction s as [|c s IH]; [done|]. cbn [flat_map]. by rewrite flat_map_app, Hc, IH. }
  assert (∀ p, flat_map sub (encode_pair (str "+") p) = encode_pair (str "%20") p) as Hp.
  { intros p. unfold encode_pair. rewrite flat_map_app. cbn [flat_map]. by rewrite !Hs. }
  induction (encode_pairs v) as [|p ps IH]; [done|]. destruct ps as [|p' ps]; [apply Hp|].
  cbn [fmap list_fmap strings.Join] in *. by rewrite !flat_map_app, IH, Hp.
Qed.

Lemma raw_query_inj v v' :
  no_empty_values v -> no_empty_values v' -> raw_query (Values_Encode v) = raw_query (Values_Encode v') -> v = v'.
Proof.
  intros H1 H2 E. rewrite !raw_query_encode in E.
  rewrite <- (ParseQuery_encode (str "%20") v), E by (done || by right). by rewrite ParseQuery_encode by (done || by right).
Qed.

Lemma raw_query_line v : line_ok (raw_query (Values_Encode v)).
Proof.
  rewrite raw_query_encode. unfold line_ok. induction (encode_pairs v) as [|p ps IH]; [by apply not_elem_of_nil|].
  assert (newline ∉ encode_pair (str "%20") p) by (apply pair_not_in; [by right|done|done]).
  destruct ps as [|p' ps]; [done|]. cbn [fmap list_fmap strings.Join] in *. rewrite !elem_of_app.
  assert (newline ∉ str "&") by clean_lit. tauto.
Qed.
