(* ===== verification/SignV4Spec.v ===== *)
(** * What a signature guarantees

    When a request is accepted, and what two requests accepted under one
    signature have in common; that a request signed as the AWS reference says is
    accepted; and that a presigned request is accepted in its time only. *)
From S2P Require Import Prelude GoLib IncStr GoText Errors APIErrors Metadata GoTime Credentials Bufio Streaming.
From S2P Require Import StreamingSpec SignV4 SignV4Parse SignV4Canon.
Import strconv.

(** ** Trimmed values have no line breaks *)
Lemma trim_one_in sps sp s : sp ∈ sps -> HasPrefix s sp = true -> utf8.trim_one sps s <> None.
Proof.
  induction sps as [|x sps IH]; intros Hin Hp; [by apply elem_of_nil in Hin|]. cbn [utf8.trim_one].
  apply elem_of_cons in Hin as [->|Hin]; [by rewrite Hp|]. case_match; [done|]. by apply IH.
Qed.

Lemma emit_line cur : line_ok cur -> Forall line_ok (emit cur).
Proof. intros. unfold emit. case_decide; by repeat constructor. Qed.

Lemma Fields_lines skip cur s : line_ok cur -> Forall line_ok (Fields_from skip cur s).
Proof.
  revert skip cur. induction s as [|c s IH]; intros skip cur Hc; cbn [Fields_from]; [by apply emit_line|].
  destruct skip as [|k]; [|by apply IH].
  destruct (utf8.trim_one utf8.space_encodings (c :: s)) as [rest|] eqn:E.
  - apply Forall_app. split; [by apply emit_line|]. apply IH. by apply not_elem_of_nil.
  - apply IH. unfold line_ok in *. rewrite elem_of_app, list_elem_of_singleton. intros [?|<-]; [done|].
    revert E. apply (trim_one_in _ [newline]); [clean_lit|]. apply (strings.HasPrefix_app [newline] s).
Qed.

Lemma Join_line l sep : Forall line_ok l -> line_ok sep -> line_ok (strings.Join l sep).
Proof.
  intros Hl Hs. unfold line_ok in *. induction Hl as [|x l Hx Hl IH]; [by apply not_elem_of_nil|].
  destruct l as [|y l]; [done|]. cbn [strings.Join] in *. rewrite !elem_of_app. tauto.
Qed.

Lemma trimmed_line vs : line_ok (trimmed vs).
Proof.
  unfold trimmed. apply Join_line; [|clean_lit]. apply Forall_fmap, Forall_true. intros v. unfold compose, signV4TrimAll.
  apply Join_line; [|clean_lit]. apply Fields_lines. by apply not_elem_of_nil.
Qed.

(** ** Errors are errors *)
Definition fails {A} (x : A + APIErrorCode) : Prop := x <> inr ErrNone.

Lemma parse_tagged_fails tag missing s : missing <> ErrNone -> fails (parse_tagged tag missing s).
Proof. intros. unfold fails, parse_tagged. repeat case_match; congruence. Qed.
Lemma parseCredentialHeader_fails s region stype : fails (parseCredentialHeader s region stype).
Proof. unfold fails, parseCredentialHeader, parse_scope. repeat case_match; congruence. Qed.
Lemma parse_elements_fails c s g region stype : fails (parse_elements c s g region stype).
Proof.
  unfold fails, parse_elements, parseSignedHeader, parseSignature.
  pose proof (parseCredentialHeader_fails c region stype). unfold fails in *.
  destruct (parseCredentialHeader _ _ _); [|congruence].
  pose proof (parse_tagged_fails (str "SignedHeaders") ErrMissingSignHeadersTag s ltac:(done)). unfold fails in *.
  destruct (parse_tagged _ _ s); [|congruence].
  pose proof (parse_tagged_fails (str "Signature") ErrMissingSignTag g ltac:(done)). unfold fails in *.
  destruct (parse_tagged _ _ g); congruence.
Qed.
Lemma parseSignV4_fails s region stype : fails (parseSignV4 s region stype).
Proof.
  unfold parseSignV4. cbv zeta. unfold fails. repeat case_match; try congruence. apply parse_elements_fails.
Qed.
Lemma extractSignedHeaders_fails hs r : fails (extractSignedHeaders hs r).
Proof. unfold fails, extractSignedHeaders. repeat case_match; congruence. Qed.
Lemma checkKeyValid_fails `{KeyStore} k : fails (checkKeyValid k).
Proof. unfold fails, checkKeyValid. repeat case_match; congruence. Qed.
Lemma request_date_fails r : fails (request_date r).
Proof. unfold fails, request_date. cbv zeta. repeat case_match; congruence. Qed.

(** ** The names of the signed headers *)
Lemma Header_Add_keys k v h j : j ∈ dom (Header_Add k v h) -> j ∈ dom h \/ j = CanonicalHeaderKey k.
Proof. unfold Header_Add, multimap_add. rewrite dom_insert_L. set_solver. Qed.
Lemma foldl_Add_keys k vs h j :
  j ∈ dom (foldl (λ h v, Header_Add k v h) h vs) -> j ∈ dom h \/ j = CanonicalHeaderKey k.
Proof.
  revert h. induction vs as [|v vs IH]; intros h; cbn [foldl]; [tauto|]. intros [Hj| ->]%IH; [|tauto].
  by apply Header_Add_keys in Hj.
Qed.
Lemma Header_Set_keys k v h j : j ∈ dom (Header_Set k v h) -> j ∈ dom h \/ j = CanonicalHeaderKey k.
Proof. unfold Header_Set, Values_Set. rewrite dom_insert_L. set_solver. Qed.

Lemma extract_one_keys r hd h h' j :
  extract_one r hd h = Some h' -> j ∈ dom h' -> j ∈ dom h \/ j = CanonicalHeaderKey hd.
Proof.
  unfold extract_one. cbv zeta. intros E Hj. repeat case_match; simplify_eq/=;
    eauto using foldl_Add_keys, Header_Set_keys.
Qed.

Lemma extract_all_keys r hs h h' j :
  extract_all r hs h = Some h' -> j ∈ dom h' -> j ∈ dom h \/ (∃ x, x ∈ hs /\ j = CanonicalHeaderKey x).
Proof.
  revert h. induction hs as [|x hs IH]; intros h E Hj; cbn [extract_all] in E; [simplify_eq; tauto|].
  destruct (extract_one r x h) as [h1|] eqn:E1; [|done]. cbn [mbind option_bind] in E.
  destruct (IH _ E Hj) as [Hj'|(y & Hy & ->)]; [|right; exists y; split; [by right|done]].
  destruct (extract_one_keys _ _ _ _ _ E1 Hj') as [?| ->]; [by left|right; exists x; split; [by left|done]].
Qed.

Lemma foldl_Add_grows k vs h j : j ∈ dom h -> j ∈ dom (foldl (λ h v, Header_Add k v h) h vs).
Proof.
  revert h. induction vs as [|v vs IH]; intros h Hj; [done|]. cbn [foldl]. apply IH.
  unfold Header_Add, multimap_add. rewrite dom_insert_L. set_solver.
Qed.
Lemma extract_one_grows r hd h h' j : extract_one r hd h = Some h' -> j ∈ dom h -> j ∈ dom h'.
Proof.
  unfold extract_one, Header_Set, Values_Set. cbv zeta. intros E Hj.
  repeat case_match; simplify_eq/=; rewrite ?dom_insert_L; eauto using foldl_Add_grows; set_solver.
Qed.
Lemma extract_all_grows r hs h h' j : extract_all r hs h = Some h' -> j ∈ dom h -> j ∈ dom h'.
Proof.
  revert h. induction hs as [|x hs IH]; intros h E Hj; cbn [extract_all] in E; [by simplify_eq|].
  destruct (extract_one r x h) as [h1|] eqn:E1; [|done]. cbn [mbind option_bind] in E.
  eapply IH; [done|]. by eapply extract_one_grows.
Qed.

(** The host is always among them. *)
Lemma extract_one_host r h h' :
  no_empty_values (Header r) -> extract_one r (str "host") h = Some h' -> str "Host" ∈ dom h'.
Proof.
  intros Hne. unfold extract_one. cbv zeta. change (CanonicalHeaderKey (str "host")) with (str "Host").
  destruct (match Header r !! str "Host" with Some val => Some val | None => URL_Query r !! str "host" end)
    as [val|] eqn:E.
  - assert (val <> []) as Hv.
    { destruct (Header r !! str "Host") as [v|] eqn:Eh; simplify_eq; [by eapply Hne|].
      by eapply ParseQuery_nonempty. }
    destruct val as [|v vs]; [done|]. intros Ef. injection Ef as <-. cbn [foldl]. apply foldl_Add_grows.
    unfold Header_Add, multimap_add. rewrite dom_insert_L. set_solver.
  - rewrite decide_False, decide_True by done. intros Ef. injection Ef as <-. unfold Header_Set, Values_Set.
    rewrite dom_insert_L. set_solver.
Qed.

Lemma extract_all_host r hs h h' :
  no_empty_values (Header r) -> str "host" ∈ hs -> extract_all r hs h = Some h' -> str "Host" ∈ dom h'.
Proof.
  intros Hne. revert h. induction hs as [|x hs IH]; intros h Hin E; [by apply elem_of_nil in Hin|].
  cbn [extract_all] in E. destruct (extract_one r x h) as [h1|] eqn:E1; [|done]. cbn [mbind option_bind] in E.
  apply elem_of_cons in Hin as [<-|Hin]; [|by eapply IH].
  eapply extract_all_grows; [done|]. by eapply extract_one_host.
Qed.

(** ** Where the parsed parts come from *)
Definition within (s t : bytes) : Prop := ∀ c, c ∈ s -> c ∈ t.

Lemma Split_within p s c : p ∈ strings.Split s c -> within p s /\ c ∉ p.
Proof.
  revert p. induction s as [|d s IH]; intros p; cbn [strings.Split].
  - rewrite list_elem_of_singleton. intros ->. split; [by intros ?|by apply not_elem_of_nil].
  - case_decide as Hd.
    + intros [->|Hp]%elem_of_cons.
      * split; [by intros x ?%elem_of_nil|by apply not_elem_of_nil].
      * destruct (IH _ Hp) as [H1 H2]. split; [|done]. intros x Hx. apply elem_of_cons. right. by apply H1.
    + destruct (strings.Split s c) as [|q ps] eqn:E; [by apply strings.Split_nonempty in E|].
      intros [->|Hp]%elem_of_cons.
      * destruct (IH q) as [H1 H2]; [by left|]. split.
        -- intros x [->|Hx]%elem_of_cons; apply elem_of_cons; [by left|right; by apply H1].
        -- rewrite not_elem_of_cons. by split; [intros ->|].
      * destruct (IH p) as [H1 H2]; [by right|]. split; [|done]. intros x Hx. apply elem_of_cons. right. by apply H1.
Qed.

Lemma drop_within n s : within (drop n s) s.
Proof. intros c. revert n. induction s as [|d s IH]; intros [|n]; simpl; try done. intros. apply elem_of_cons. right. by eapply IH. Qed.

Lemma trim_left_within fuel sps s : within (utf8.trim_left fuel sps s) s.
Proof.
  revert s. induction fuel as [|fuel IH]; intros s; cbn [utf8.trim_left]; [by intros c|].
  destruct (utf8.trim_one sps s) as [s'|] eqn:E; [|by intros c].
  assert (within s' s) as H.
  { clear IH. induction sps as [|sp sps IH]; [done|]. cbn [utf8.trim_one] in E. case_match; [|by apply IH].
    simplify_eq. apply drop_within. }
  intros c Hc. by apply H, IH.
Qed.

Lemma TrimSpace_within s : within (utf8.TrimSpace s) s.
Proof.
  intros c. unfold utf8.TrimSpace. rewrite elem_of_reverse. intros H%trim_left_within.
  rewrite elem_of_reverse in H. by apply trim_left_within in H.
Qed.

Lemma strip_within s : within (Replace s (str " ") []) s.
Proof.
  rewrite (Replace_single s " "%char [] : Replace s (str " ") [] = _). intros c.
  rewrite list_elem_of_In, in_flat_map. intros (x & Hx & Hc). apply list_elem_of_In in Hx. case_decide; [done|].
  by destruct Hc as [<-|[]].
Qed.

Lemma TrimPrefix_within s p : within (TrimPrefix s p) s.
Proof. unfold TrimPrefix. case_match; [apply drop_within|by intros c]. Qed.

Lemma within_trans s t u : within s t -> within t u -> within s u.
Proof. intros H1 H2 c Hc. by apply H2, H1. Qed.

Lemma parse_tagged_within tag missing s v : parse_tagged tag missing s = inl v -> within v s.
Proof.
  unfold parse_tagged. intros E. destruct (strings.Split _ _) as [|t [|v' [|]]] eqn:Es; try done.
  repeat case_decide; simplify_eq. eapply within_trans; [|apply TrimSpace_within].
  apply (Split_within _ _ "="%char). rewrite Es. set_solver.
Qed.

Lemma SplitN2_within s c p q : SplitN2 s c = [p; q] -> within q s.
Proof. unfold SplitN2. case_match; [|done]. intros E. simplify_eq. apply drop_within. Qed.

Lemma parseCredentialHeader_within s region stype ch :
  parseCredentialHeader s region stype = inl ch ->
  within (scope_region ch) s /\ scope_service ch = stype /\ scope_request ch = aws4_request.
Proof.
  unfold parseCredentialHeader. destruct (SplitN2 _ _) as [|t [|v [|]]] eqn:E; try done.
  cbv zeta. set (els := strings.Split (utf8.TrimSpace v) "/"%char). do 3 (case_match; [done|]).
  unfold parse_scope. destruct (drop _ els) as [|d [|rg [|sv [|rq [|]]]]] eqn:Ed; try done.
  cbv zeta. generalize (if decide (region = []) then rg else region). intros region'.
  repeat case_match; try done. intros Ei. injection Ei as <-. cbn.
  split; [|by split; apply dec_stable]. apply (within_trans _ v); [|by eapply within_trans; [eapply SplitN2_within|apply TrimSpace_within]].
  eapply within_trans; [|apply TrimSpace_within]. apply (Split_within _ _ "/"%char). fold els.
  rewrite <- (take_drop (length els - 4) els). apply elem_of_app. right. rewrite Ed. set_solver.
Qed.

(** The names and the region are made of characters of the header. *)
Lemma parseSignV4_within s region stype sv :
  parseSignV4 s region stype = inl sv ->
  Forall (λ h, within h s /\ ";"%char ∉ h) (sv_SignedHeaders sv) /\
  within (scope_region (sv_Credential sv)) s /\ scope_service (sv_Credential sv) = stype /\
  scope_request (sv_Credential sv) = aws4_request.
Proof.
  unfold parseSignV4. cbv zeta. do 2 (case_match; [done|]).
  destruct (strings.Split (utf8.TrimSpace (TrimPrefix _ _)) _) as [|c [|e [|g [|]]]] eqn:E; try done.
  unfold parse_elements. destruct (parseCredentialHeader _ _ _) as [ch|] eqn:Ec; [|done].
  unfold parseSignedHeader. destruct (parse_tagged _ _ e) as [v|] eqn:Ev; [|done].
  destruct (parseSignature g) as [sg|] eqn:Eg; [|done]. intros Ei. injection Ei as <-. cbn. split.
  - apply Forall_forall. intros h Hh. apply Split_within in Hh as [H1 H2]. split; [|done].
    eapply within_trans; [exact H1|]. eapply within_trans; [by eapply parse_tagged_within|].
    apply (within_trans _ (utf8.TrimSpace (TrimPrefix (Replace s (str " ") []) signV4Algorithm))).
    + apply (Split_within _ _ ","%char). rewrite E. set_solver.
    + eapply within_trans; [apply TrimSpace_within|]. eapply within_trans; [apply TrimPrefix_within|apply strip_within].
  - apply parseCredentialHeader_within in Ec as (H1 & H2 & H3). split_and!; try done.
    eapply within_trans; [exact H1|]. eapply within_trans; [apply TrimSpace_within|].
    eapply within_trans; [apply TrimPrefix_within|]. apply (within_trans _ (utf8.TrimSpace s)); [|apply TrimSpace_within].
    destruct (strings.Split (utf8.TrimSpace s) ","%char) as [|p ps] eqn:Es; [by intros x ?%elem_of_nil|].
    apply (Split_within _ _ ","%char). rewrite Es. by left.
Qed.

(** ** Hexadecimal text *)
Lemma hex_clean src : clean (str ",=;/") (hex.EncodeToString src).
Proof.
  unfold hex.EncodeToString. induction src as [|c src IH]; [constructor|]. cbn [flat_map]. apply clean_app; [|done].
  refine (bool_decide_eq_true_1 _ _). revert c. apply all_bytes. vm_compute. reflexivity.
Qed.
Lemma clean_line seps s : clean seps s -> line_ok s.
Proof. intros Hc Hin. unfold clean in Hc. rewrite Forall_forall in Hc. by apply Hc in Hin as []. Qed.
Lemma hex_inj src src' : hex.EncodeToString src = hex.EncodeToString src' -> src = src'.
Proof. intros E. apply (f_equal hex.DecodeString) in E. rewrite !hex.Decode_Encode in E. by injection E. Qed.

Lemma Format_iso8601_clean t : clean [] (Format_iso8601 t).
Proof.
  unfold Format_iso8601. cbv zeta. apply clean_app; [by apply Format_yyyymmdd_clean|].
  apply (clean_app _ ["T"%char]); [clean_lit|]. apply clean_app; [by apply digits_clean|].
  apply clean_app; [by apply digits_clean|]. apply clean_app; [by apply digits_clean|clean_lit].
Qed.

(** ** Acceptance *)
Section acceptance.
Context `{UnicodeEnv}.
Variable EncodePath : bytes -> bytes.
Context `{SigEnv} `{KeyStore}.

(** What the server takes from a request: the parsed header, the signed headers,
    the credentials and the date. *)
Record reads (r : Request) (region stype : bytes) (sv : signValues) (headers : multimap)
  (cred : Credentials) (owner : bool) (t : time) : Prop := {
  rd_auth : parseSignV4 (Header_Get (Header r) Authorization) region stype = inl sv;
  rd_headers : extractSignedHeaders (sv_SignedHeaders sv) r = inl headers;
  rd_key : checkKeyValid (ch_accessKey (sv_Credential sv)) = inl (cred, owner);
  rd_date : request_date r = inl t }.

Lemma doesSignatureMatch_iff payload r region stype :
  doesSignatureMatch EncodePath payload r region stype = ErrNone <->
  ∃ sv headers cred owner t, reads r region stype sv headers cred owner t /\
    sv_Signature sv = header_signature EncodePath cred sv headers payload r t stype.
Proof.
  unfold doesSignatureMatch. cbv zeta. split.
  - pose proof (parseSignV4_fails (Header_Get (Header r) Authorization) region stype) as H3.
    destruct (parseSignV4 _ _ _) as [sv|e] eqn:E1; [|intros ->; by destruct H3].
    pose proof (extractSignedHeaders_fails (sv_SignedHeaders sv) r) as H4.
    destruct (extractSignedHeaders _ _) as [h|e] eqn:E2; [|intros ->; by destruct H4].
    pose proof (checkKeyValid_fails (ch_accessKey (sv_Credential sv))) as H5.
    destruct (checkKeyValid _) as [[cred owner]|e] eqn:E3; [|intros ->; by destruct H5].
    pose proof (request_date_fails r) as H6. destruct (request_date r) as [t|e] eqn:E4; [|intros ->; by destruct H6].
    unfold compareSignatureV4. case_bool_decide as Hs; [|done]. intros _. by exists sv, h, cred, owner, t.
  - intros (sv & h & cred & owner & t & [-> -> -> ->] & Hs). unfold compareSignatureV4. by rewrite bool_decide_true.
Qed.

(** The two texts that are hashed. *)
Definition canonical_of (headers : multimap) (payload : bytes) (r : Request) : bytes :=
  getCanonicalRequest EncodePath headers payload (Values_Encode (URL_Query r)) (URL_Path r) (Method r).
Definition string_of (sv : signValues) (headers : multimap) (payload : bytes) (r : Request) (t : time) : bytes :=
  getStringToSign (canonical_of headers payload r) t (credentialHeader_getScope (sv_Credential sv)).
Definition key_of (cred : Credentials) (sv : signValues) (stype : bytes) : bytes :=
  getSigningKey (SecretKey cred) (scope_date (sv_Credential sv)) (scope_region (sv_Credential sv)) stype.

(** A request as it comes over the wire: the header is printable ASCII, and
    neither the method nor the payload's hash has a line break. *)
Record wire_ok (r : Request) (payload : bytes) : Prop := {
  wo_auth : Forall (λ c, utf8.inr c 32 126 = true) (Header_Get (Header r) Authorization);
  wo_header : no_empty_values (Header r);
  wo_method : line_ok (Method r);
  wo_payload : line_ok payload }.

Lemma printable_within s t : Forall (λ c, utf8.inr c 32 126 = true) t -> within s t -> line_ok s /\ ascii_only s.
Proof.
  rewrite Forall_forall. intros Ht Hw. split; [by intros Hin%Hw%Ht|].
  unfold ascii_only. rewrite forallb_forall. intros c Hc. apply list_elem_of_In, Hw, Ht in Hc.
  unfold is_ascii, utf8.inr in *. apply andb_prop in Hc as [H3 H4]. apply N.leb_le in H3, H4.
  apply andb_true_intro. rewrite !N.leb_le. lia.
Qed.

Lemma reads_names_ok r payload region stype sv headers cred owner t :
  wire_ok r payload -> reads r region stype sv headers cred owner t -> names_ok (signed_view headers).
Proof.
  intros [Ha Hh _ _] [Hp He _ _]. apply parseSignV4_within in Hp as [Hn _]. rewrite Forall_forall in Hn.
  unfold extractSignedHeaders in He. case_decide as Hhost; [|done].
  destruct (extract_all r _ ∅) as [h|] eqn:E; [|done]. injection He as <-. split.
  - pose proof (extract_all_host _ _ _ _ Hh Hhost E) as Hd. apply elem_of_dom in Hd as [v Hv].
    apply elem_of_map_to_list in Hv. intros Hnil. apply fmap_nil_inv in Hnil.
    pose proof (sort_Strings_perm ((λ e : bytes * list bytes, ToLower e.1) <$> map_to_list h)) as Hs.
    rewrite Hnil in Hs. apply Permutation_nil_l in Hs. symmetry in Hs. apply fmap_nil_inv in Hs.
    rewrite Hs in Hv. by apply elem_of_nil in Hv.
  - apply Forall_forall. intros p Hin. unfold signed_view, signed_view_of in Hin.
    apply list_elem_of_fmap in Hin as (k & -> & Hk). cbn [fst snd].
    rewrite (sort_Strings_perm _), list_elem_of_fmap in Hk. destruct Hk as ([j v] & -> & Hj). cbn [fst].
    apply elem_of_map_to_list in Hj. assert (j ∈ dom h) as Hd by (apply elem_of_dom; by eexists).
    destruct (extract_all_keys _ _ _ _ _ E Hd) as [He|(x & Hx & ->)]; [by rewrite dom_empty_L in He|].
    destruct (Hn _ Hx) as [Hw Hsemi]. destruct (printable_within _ _ Ha Hw) as [Hl Hasc].
    split_and!; [| |apply trimmed_line]; apply ToLower_not_in;
      first [by left|by right|by apply canonical_ascii|apply canonical_not_in; [by left|done]|apply canonical_not_in; [by right|done]].
Qed.

Lemma reads_scope_line r payload region stype sv headers cred owner t :
  wire_ok r payload -> line_ok stype -> reads r region stype sv headers cred owner t ->
  line_ok (credentialHeader_getScope (sv_Credential sv)).
Proof.
  intros [Ha _ _ _] Hst [Hp _ _ _]. apply parseSignV4_within in Hp as (_ & Hr & Hs & Hq).
  destruct (printable_within _ _ Ha Hr) as [Hl _]. unfold credentialHeader_getScope. rewrite Hs, Hq.
  apply Join_line; [|clean_lit]. repeat constructor; try done; [|clean_lit].
  eapply clean_line, (Format_yyyymmdd_clean []). done.
Qed.

Lemma getStringToSign_inj cr t scope cr' t' scope' :
  line_ok scope -> line_ok scope' -> getStringToSign cr t scope = getStringToSign cr' t' scope' ->
  Format_iso8601 t = Format_iso8601 t' /\ scope = scope' /\ sha256_Sum cr = sha256_Sum cr'.
Proof.
  intros Hs Hs' E.
  assert (∀ c u s, getStringToSign c u s =
            strings.Join [signV4Algorithm; Format_iso8601 u; s; hex.EncodeToString (sha256_Sum c)] [newline]) as Hj by done.
  assert (∀ c u s, line_ok s -> Forall (λ p, newline ∉ p)
            [signV4Algorithm; Format_iso8601 u; s; hex.EncodeToString (sha256_Sum c)]) as Hok.
  { intros c u s Hl. repeat constructor; try done; [clean_lit|eapply clean_line, Format_iso8601_clean|eapply clean_line, hex_clean]. }
  rewrite !Hj in E. apply (f_equal (λ s, strings.Split s newline)) in E.
  rewrite !strings.Split_Join in E by (done || by apply Hok).
  pose proof (f_equal (λ l, l !! 1%nat) E) as E1. pose proof (f_equal (λ l, l !! 2%nat) E) as E2.
  pose proof (f_equal (λ l, l !! 3%nat) E) as E3. apply (inj Some) in E1, E2, E3.
  split_and!; [exact E1|exact E2|]. by apply hex_inj.
Qed.

(** What two requests share: the method, the path, the query, the payload's hash,
    the signed headers with their values, and the date. *)
Record same_signed (sv : signValues) (r1 r2 : Request) (h1 h2 : multimap) (p1 p2 : bytes) (t1 t2 : time) : Prop := {
  sm_method : Method r1 = Method r2;
  sm_path : EncodePath (URL_Path r1) = EncodePath (URL_Path r2);
  sm_query : URL_Query r1 = URL_Query r2;
  sm_headers : signed_view h1 = signed_view h2;
  sm_payload : p1 = p2;
  sm_date : Format_iso8601 t1 = Format_iso8601 t2 }.

Lemma canonical_of_inj region stype sv r1 r2 h1 h2 p1 p2 cred owner t1 t2 :
  (∀ p, line_ok (EncodePath p)) -> wire_ok r1 p1 -> wire_ok r2 p2 ->
  reads r1 region stype sv h1 cred owner t1 -> reads r2 region stype sv h2 cred owner t2 ->
  Format_iso8601 t1 = Format_iso8601 t2 ->
  canonical_of h1 p1 r1 = canonical_of h2 p2 r2 -> same_signed sv r1 r2 h1 h2 p1 p2 t1 t2.
Proof.
  intros Hp W1 W2 R1 R2 Ht E. unfold canonical_of in E. rewrite !getCanonicalRequest_lines in E.
  apply request_lines_inj in E as (Hm & He & Hq & Hv & Hpl).
  - split; try done. apply raw_query_inj; [apply ParseQuery_nonempty..|done].
  - by eapply (reads_names_ok r1 p1).
  - by eapply (reads_names_ok r2 p2).
  - destruct W1. repeat constructor; auto. apply raw_query_line.
  - destruct W2. repeat constructor; auto. apply raw_query_line.
Qed.

(** A collision: two different texts with one value. *)
Definition collide (f : bytes -> bytes) (x y : bytes) : Prop := x <> y /\ f x = f y.

(** C16. A signature cannot be replayed for another request: two requests that
    carry the same Authorization header and are both accepted have the same
    method, path, query, payload hash, signed headers (names and values) and
    date of the request, unless their two canonical requests collide under SHA-256
    or their two strings to sign collide under HMAC-SHA256 with the signing key.
    Headers, credentials, key and dates are those that the server takes from the
    two requests ([reads]). *)
Theorem replayed_signature p1 p2 r1 r2 region stype :
  (∀ p, line_ok (EncodePath p)) -> line_ok stype -> wire_ok r1 p1 -> wire_ok r2 p2 ->
  Header_Get (Header r1) Authorization = Header_Get (Header r2) Authorization ->
  doesSignatureMatch EncodePath p1 r1 region stype = ErrNone ->
  doesSignatureMatch EncodePath p2 r2 region stype = ErrNone ->
  ∃ sv h1 h2 cred owner t1 t2,
    reads r1 region stype sv h1 cred owner t1 /\ reads r2 region stype sv h2 cred owner t2 /\
    (same_signed sv r1 r2 h1 h2 p1 p2 t1 t2 \/
     collide sha256_Sum (canonical_of h1 p1 r1) (canonical_of h2 p2 r2) \/
     collide (hmac_sha256 (key_of cred sv stype)) (string_of sv h1 p1 r1 t1) (string_of sv h2 p2 r2 t2)).
Proof.
  intros Hp Hst W1 W2 Ha A1 A2.
  apply doesSignatureMatch_iff in A1 as (sv & h1 & cred & owner & t1 & R1 & S1).
  apply doesSignatureMatch_iff in A2 as (sv2 & h2 & cred2 & owner2 & t2 & R2 & S2).
  assert (sv2 = sv) as ->. { destruct R1 as [P1 _ _ _], R2 as [P2 _ _ _]. rewrite Ha in P1. congruence. }
  assert (cred2 = cred /\ owner2 = owner) as [-> ->].
  { destruct R1 as [_ _ K1 _], R2 as [_ _ K2 _]. rewrite K1 in K2. by simplify_eq. }
  exists sv, h1, h2, cred, owner, t1, t2. split; [exact R1|]. split; [exact R2|].
  rewrite S1 in S2. apply hex_inj in S2.
  change (hmac_sha256 (key_of cred sv stype) (string_of sv h1 p1 r1 t1) =
          hmac_sha256 (key_of cred sv stype) (string_of sv h2 p2 r2 t2)) in S2.
  destruct (decide (string_of sv h1 p1 r1 t1 = string_of sv h2 p2 r2 t2)) as [Es|Es]; [|right; right; done].
  apply getStringToSign_inj in Es as (Et & _ & Eh); [|by eapply (reads_scope_line r1 p1)|by eapply (reads_scope_line r2 p2)].
  destruct (decide (canonical_of h1 p1 r1 = canonical_of h2 p2 r2)) as [Ec|Ec]; [|right; left; done].
  left. by eapply canonical_of_inj.
Qed.

(** ** The client's side *)

(** The canonical request of the AWS reference for the headers [hs], given by
    their names in small letters, sorted. *)
Definition aws_request (method path : bytes) (query : multimap) (hs : list (bytes * bytes)) (payload : bytes) : bytes :=
  strings.Join
    [method; EncodePath path; strings.Join (encode_pair (str "%20") <$> encode_pairs query) (str "&");
     flat_map (λ h, h.1 ++ ":"%char :: signV4TrimAll h.2 ++ [newline]) hs;
     strings.Join hs.*1 (str ";"); payload] [newline].

(** The signature a client computes with its secret key. *)
Definition client_signature (secretKey : bytes) (method path : bytes) (query : multimap) (hs : list (bytes * bytes))
  (payload : bytes) (t : time) (region : bytes) : bytes :=
  getSignature (getSigningKey secretKey t region serviceS3)
    (getStringToSign (aws_request method path query hs payload) t (scope_string t region serviceS3)).

(** The request carries these headers. *)
Record carries (r : Request) (hs : list (bytes * bytes)) : Prop := {
  ca_names : Forall (λ h, lower_token h.1) hs;
  ca_sorted : Sorted ble hs.*1;
  ca_distinct : NoDup hs.*1;
  ca_host : (str "host", Host r) ∈ hs;
  ca_no_host : Header r !! str "Host" = None /\ URL_Query r !! str "host" = None;
  ca_values : Forall (λ h, h.1 = str "host" \/ Header r !! CanonicalHeaderKey h.1 = Some [h.2]) hs }.

Definition server_entries (hs : list (bytes * bytes)) : list (bytes * list bytes) :=
  (λ h, (CanonicalHeaderKey h.1, [h.2])) <$> hs.

Lemma server_entries_lower hs :
  Forall (λ h, lower_token h.1) hs -> (λ e, ToLower e.1) <$> server_entries hs = hs.*1.
Proof.
  intros Hf. unfold server_entries. rewrite <- list_fmap_compose. apply list_fmap_ext. intros i h Hh. cbn.
  apply ToLower_canonical. rewrite Forall_forall in Hf. by apply Hf, list_elem_of_lookup_2 with i.
Qed.

Lemma server_entries_NoDup hs :
  Forall (λ h, lower_token h.1) hs -> NoDup hs.*1 -> NoDup (server_entries hs).*1.
Proof.
  intros Hf Hnd. rewrite <- (server_entries_lower hs Hf) in Hnd.
  rewrite (list_fmap_compose fst ToLower _ : (λ e : bytes * list bytes, ToLower e.1) <$> _ = _) in Hnd.
  by apply NoDup_fmap_1 in Hnd.
Qed.

Lemma foldl_insert_union (l : list (bytes * list bytes)) (acc : multimap) :
  NoDup l.*1 -> foldl (λ m e, <[e.1 := e.2]> m) acc l = list_to_map l ∪ acc.
Proof.
  revert acc. induction l as [|[k v] l IH]; intros acc Hnd; cbn [foldl].
  - rewrite list_to_map_nil. by rewrite (left_id_L ∅ (∪)).
  - cbn [fmap list_fmap fst] in Hnd. apply NoDup_cons in Hnd as [Hk Hnd]. rewrite IH by done. cbn [fst snd].
    rewrite list_to_map_cons, <- insert_union_l. symmetry. apply insert_union_r. by apply not_elem_of_list_to_map_1.
Qed.

Lemma extract_one_client r h v acc :
  Header r !! str "Host" = None -> URL_Query r !! str "host" = None ->
  (h, v) = (str "host", Host r) \/ (h <> str "host" /\ Header r !! CanonicalHeaderKey h = Some [v]) ->
  acc !! CanonicalHeaderKey h = None ->
  extract_one r h acc = Some (<[CanonicalHeaderKey h := [v]]> acc).
Proof.
  intros Hh Hq Hv Ha. unfold extract_one. destruct Hv as [E|[_ ->]].
  - injection E as -> ->. change (CanonicalHeaderKey (str "host")) with (str "Host"). rewrite Hh, Hq.
    rewrite decide_False, decide_True by done. done.
  - cbn [foldl]. unfold Header_Add, multimap_add. by rewrite Ha.
Qed.

Lemma extract_all_client r hs acc :
  Header r !! str "Host" = None -> URL_Query r !! str "host" = None ->
  Forall (λ h, h = (str "host", Host r) \/ (h.1 <> str "host" /\ Header r !! CanonicalHeaderKey h.1 = Some [h.2])) hs ->
  NoDup (server_entries hs).*1 -> Forall (λ h, acc !! CanonicalHeaderKey h.1 = None) hs ->
  extract_all r hs.*1 acc = Some (foldl (λ m e, <[e.1 := e.2]> m) acc (server_entries hs)).
Proof.
  intros Hh Hq Hf. revert acc. induction Hf as [|[h v] hs Hv Hf IH]; intros acc Hnd Ha; [done|].
  cbn [fmap list_fmap extract_all server_entries fst snd] in *. apply NoDup_cons in Hnd as [Hk Hnd].
  inversion_clear Ha as [|? ? Ha1 Ha2]. rewrite (extract_one_client r h v) by done. cbn [mbind option_bind foldl fst snd].
  apply IH; [done|]. apply Forall_forall. intros [h' v'] Hin. rewrite Forall_forall in Ha2. rewrite lookup_insert_ne; [by apply Ha2|].
  intros E. apply Hk. cbn [fst] in E. rewrite E. apply list_elem_of_fmap. exists (CanonicalHeaderKey h', [v']). split; [done|].
  apply list_elem_of_fmap. by exists (h', v').
Qed.

Lemma NoDup_keys_eq (hs : list (bytes * bytes)) k v w : NoDup hs.*1 -> (k, v) ∈ hs -> (k, w) ∈ hs -> v = w.
Proof.
  induction hs as [|[j x] hs IH]; cbn [fmap list_fmap fst]; intros Hnd H3 H4; [by apply elem_of_nil in H3|].
  apply NoDup_cons in Hnd as [Hj Hnd]. apply elem_of_cons in H3 as [E3|H3], H4 as [E4|H4]; simplify_eq; [done|..|auto].
  - destruct Hj. apply list_elem_of_fmap. by exists (j, w).
  - destruct Hj. apply list_elem_of_fmap. by exists (j, v).
Qed.

Lemma carries_extract r hs :
  carries r hs -> extractSignedHeaders hs.*1 r = inl (list_to_map (server_entries hs)).
Proof.
  intros [Hn Hs Hd Hh [Hh1 Hh2] Hv]. unfold extractSignedHeaders. rewrite decide_True.
  2: { apply list_elem_of_fmap. by exists (str "host", Host r). }
  rewrite extract_all_client; try done.
  - rewrite foldl_insert_union by (by apply server_entries_NoDup). by rewrite (right_id_L ∅ (∪)).
  - rewrite Forall_forall in *. intros [h v] Hin. destruct (decide (h = str "host")) as [->|Hne].
    + left. f_equal. by apply (NoDup_keys_eq hs (str "host")).
    + right. split; [done|]. by destruct (Hv _ Hin).
  - by apply server_entries_NoDup.
  - apply Forall_true. intros x. apply lookup_empty.
Qed.

(** The server sees the client's headers, trimmed. *)
Lemma carries_view r hs :
  carries r hs -> signed_view (list_to_map (server_entries hs)) = (λ h, (h.1, signV4TrimAll h.2)) <$> hs.
Proof.
  intros [Hn Hs Hd _ _ _]. pose proof (server_entries_NoDup _ Hn Hd) as Hnd.
  pose proof (server_entries_lower _ Hn) as Hl. unfold signed_view.
  rewrite (signed_view_perm (map_to_list (list_to_map (server_entries hs))) (server_entries hs)).
  - unfold signed_view_of. rewrite Hl, sort_Strings_id by done. rewrite <- list_fmap_compose. apply list_fmap_ext.
    intros i [h v] Hi. apply list_elem_of_lookup_2 in Hi. cbn. f_equal.
    assert (lower_values (server_entries hs) !! h = Some [v]) as ->; [|done].
    rewrite Forall_forall in Hn. rewrite <- (ToLower_canonical h) at 1 by (by apply (Hn _ Hi)).
    apply lower_values_lookup; [by rewrite Hl|]. apply list_elem_of_fmap. by exists (h, v).
  - rewrite (map_to_list_to_map (server_entries hs)) by done. by rewrite Hl.
  - by apply map_to_list_to_map.
Qed.

(** The server's canonical request is that of the AWS reference. *)
Lemma canonical_of_aws r hs payload :
  carries r hs ->
  canonical_of (list_to_map (server_entries hs)) payload r =
    aws_request (Method r) (URL_Path r) (URL_Query r) hs payload.
Proof.
  intros Hc. unfold canonical_of, getCanonicalRequest, aws_request. cbv zeta. fold (raw_query (Values_Encode (URL_Query r))).
  rewrite raw_query_encode, getCanonicalHeaders_view, getSignedHeaders_view, (carries_view r hs Hc).
  rewrite <- (list_fmap_compose _ fst hs).
  assert (flat_map (λ y, y ++ [newline]) (header_line <$> ((λ h, (h.1, signV4TrimAll h.2)) <$> hs)) =
          flat_map (λ h, h.1 ++ ":"%char :: signV4TrimAll h.2 ++ [newline]) hs) as ->; [|done].
  clear Hc. induction hs as [|h hs IH]; [done|]. cbn [fmap list_fmap flat_map]. rewrite IH.
  unfold header_line. cbn [fst snd]. rewrite <- !app_assoc. cbn [app]. by rewrite <- !app_assoc.
Qed.

(** ** A request signed by the reference is accepted *)
Lemma floor_div t d : 0 < d -> t / d * d / d = t / d.
Proof. intros. apply Z.div_mul. lia. Qed.

Lemma Format_yyyymmdd_floor t : Format_yyyymmdd (t / day_ns * day_ns) = Format_yyyymmdd t.
Proof. unfold Format_yyyymmdd. by rewrite floor_div. Qed.

Lemma Format_iso8601_floor t : Format_iso8601 (t / 10 ^ 9 * 10 ^ 9) = Format_iso8601 t.
Proof.
  unfold Format_iso8601, Format_yyyymmdd. cbv zeta. rewrite floor_div by lia.
  assert (∀ u, u / day_ns = u / 10 ^ 9 / 86400) as Hd.
  { intros u. unfold day_ns. rewrite Z.mul_comm. symmetry. apply Z.div_div; lia. }
  by rewrite !Hd, floor_div by lia.
Qed.

Lemma four_digit_date t : four_digit_year t -> Format_iso8601 t <> [].
Proof. intros _ E. apply (f_equal length) in E. unfold Format_iso8601 in E. rewrite length_app in E. simpl in E. lia. Qed.

(** What the server reads of a request that a client has signed, and that the
    signature is the one it computes. *)
Lemma client_reads r hs payload cred owner t region serverRegion :
  let sv := mkSignValues (mkCredentialHeader (AccessKey cred) (t / day_ns * day_ns) region serviceS3 aws4_request)
              hs.*1 (client_signature (SecretKey cred) (Method r) (URL_Path r) (URL_Query r) hs payload t region) in
  carries r hs -> writable (AccessKey cred) region serviceS3 hs.*1 (sv_Signature sv) ->
  region_ok serverRegion region -> four_digit_year t ->
  checkKeyValid (AccessKey cred) = inl (cred, owner) ->
  Header_Get (Header r) AmzDate = Format_iso8601 t ->
  Header_Get (Header r) Authorization =
    authorization (AccessKey cred) (scope_string t region serviceS3) hs.*1 (sv_Signature sv) ->
  reads r serverRegion serviceS3 sv (list_to_map (server_entries hs)) cred owner (t / 10 ^ 9 * 10 ^ 9) /\
  sv_Signature sv = header_signature EncodePath cred sv (list_to_map (server_entries hs)) payload r
                      (t / 10 ^ 9 * 10 ^ 9) serviceS3.
Proof.
  intros sv Hc Hw Hr Ht Hk Hd Ha. split.
  - split.
    + rewrite Ha. by apply parseSignV4_authorization.
    + cbn [sv sv_SignedHeaders]. by apply carries_extract.
    + done.
    + unfold request_date. rewrite Hd. cbv zeta. pose proof (four_digit_date t Ht).
      rewrite !decide_False by done. by rewrite Parse_Format_iso8601.
  - unfold sv. cbn [sv_Signature]. unfold header_signature, client_signature. cbv zeta. cbn [sv_Credential scope_date scope_region].
    fold (canonical_of (list_to_map (server_entries hs)) payload r). rewrite (canonical_of_aws r hs) by done.
    unfold getSigningKey, getStringToSign, credentialHeader_getScope, scope_string. cbn [scope_date scope_region scope_service scope_request].
    by rewrite !Format_yyyymmdd_floor, Format_iso8601_floor.
Qed.

(** C21. A request signed as the AWS reference prescribes is accepted: when its
    Authorization header is the one a client writes with the secret key of a
    user the server knows, over the canonical request of the reference for the
    headers the request carries, [doesSignatureMatch] returns [ErrNone]. *)
Theorem client_request_accepted r hs payload cred owner t region serverRegion :
  carries r hs ->
  writable (AccessKey cred) region serviceS3 hs.*1
    (client_signature (SecretKey cred) (Method r) (URL_Path r) (URL_Query r) hs payload t region) ->
  region_ok serverRegion region -> four_digit_year t ->
  checkKeyValid (AccessKey cred) = inl (cred, owner) ->
  Header_Get (Header r) AmzDate = Format_iso8601 t ->
  Header_Get (Header r) Authorization =
    authorization (AccessKey cred) (scope_string t region serviceS3) hs.*1
      (client_signature (SecretKey cred) (Method r) (URL_Path r) (URL_Query r) hs payload t region) ->
  doesSignatureMatch EncodePath payload r serverRegion serviceS3 = ErrNone.
Proof.
  intros Hc Hw Hr Ht Hk Hd Ha. apply doesSignatureMatch_iff.
  destruct (client_reads r hs payload cred owner t region serverRegion) as [Hrd Hs]; try done.
  by eexists _, _, cred, owner, _.
Qed.
End acceptance.

(** ** The client's header is printable *)
Lemma clean_printable seps s : clean seps s -> Forall (λ c, utf8.inr c 32 126 = true) s.
Proof.
  intros Hc. eapply Forall_impl; [exact Hc|]. intros c [Hg _]. unfold graphic, utf8.inr in *.
  apply andb_prop in Hg as [H1 H2]. apply N.leb_le in H1, H2. apply andb_true_intro. rewrite !N.leb_le. lia.
Qed.

Lemma authorization_printable accessKey date region service headers signature :
  writable accessKey region service headers signature ->
  Forall (λ c, utf8.inr c 32 126 = true)
    (authorization accessKey (scope_string date region service) headers signature).
Proof.
  intros [Hk _ Hr Hs Hn Hh [_ Hg]]. destruct (Join_clean_nonempty _ Hn Hh) as [Hj _].
  pose proof (credential_clean accessKey date region service Hk Hr Hs) as Hc.
  apply clean_printable in Hc, Hj, Hg. unfold authorization. cbn [strings.Join].
  apply Forall_app. split; [apply Forall_app; split; [clean_lit|by constructor]|].
  constructor; [done|]. constructor; [done|]. apply Forall_app. split; [apply Forall_app; split; [clean_lit|done]|].
  constructor; [done|]. constructor; [done|]. apply Forall_app. split; [clean_lit|done].
Qed.

(** ** A client and its requests *)
Module SignScenario.
#[export] Instance ref_unicode : UnicodeEnv := {| unicode_ToLower := λ s, s |}.
#[export] Instance ref_float : FloatEnv := {| fraction_ns := λ _ _, 0 |}.
#[export] Existing Instance StreamScenario.ref_sig.
Definition root : Credentials :=
  mkCredentials (str "AKIDEXAMPLE") (str "wJalrXUtnFEMI") timeSentinel [] (str "on").
#[export] Instance ref_keys : KeyStore := {| globalActiveCred := root; GetUser := None |}.

(** Each element of the path escaped. *)
Definition encode_path (p : bytes) : bytes :=
  flat_map (λ c, if decide (c = "/"%char) then [c] else escape (str "%20") c) p.
Lemma encode_path_line p : line_ok (encode_path p).
Proof.
  unfold encode_path, line_ok. induction p as [|c p IH]; [by apply not_elem_of_nil|]. cbn [flat_map].
  rewrite elem_of_app. intros [Hc|Hc]; [|done]. revert Hc. case_decide; [intros E%list_elem_of_singleton; by subst|].
  pose proof (escaped_not_in (str "%20") [c] newline ltac:(by right) eq_refl) as He. cbn [flat_map] in He.
  by rewrite app_nil_r in He.
Qed.

Definition t : time := 1369353600 * 10 ^ 9.
Definition hs (payload : bytes) : list (bytes * bytes) :=
  [(str "host", str "example.com"); (str "x-amz-content-sha256", payload);
   (str "x-amz-date", Format_iso8601 t)].

(** A request with everything but the signature, and the signed request. *)
Definition unsigned (method : bytes) (payload auth : bytes) (extra : multimap) : Request :=
  mkRequest method (str "/b/my object") (str "x=1+2")
    (<[Authorization := [auth]]> (<[AmzContentSha256 := [payload]]> (<[AmzDate := [Format_iso8601 t]]> extra)))
    (str "example.com") [] 0 (str "/b/my%20object?x=1+2") (str "10.0.0.1:4000") false.
Definition signature (method payload : bytes) : bytes :=
  let r := unsigned method payload [] ∅ in
  client_signature encode_path (SecretKey root) method (URL_Path r) (URL_Query r) (hs payload) payload t (str "us-east-1").
Definition auth (method payload : bytes) : bytes :=
  authorization (AccessKey root) (scope_string t (str "us-east-1") serviceS3) (hs payload).*1 (signature method payload).
Definition get : Request := unsigned (str "GET") emptySHA256 (auth (str "GET") emptySHA256) ∅.
(** The same request with one more header, which is not signed. *)
Definition get' : Request :=
  unsigned (str "GET") emptySHA256 (auth (str "GET") emptySHA256) {[ str "Accept" := [str "*/*"] ]}.

Lemma carries_unsigned method payload auth extra :
  extra !! str "Host" = None -> carries (unsigned method payload auth extra) (hs payload).
Proof.
  intros He. split.
  - repeat constructor.
  - repeat constructor; vm_compute; done.
  - apply (bool_decide_eq_true_1 _). vm_compute. reflexivity.
  - left.
  - split; [|vm_compute; reflexivity]. cbn [Header unsigned]. by rewrite !lookup_insert_ne by (by vm_compute).
  - unfold hs. rewrite !Forall_cons. split_and!; [by left|right|right|constructor]; cbn [Header unsigned fst snd].
    + change (CanonicalHeaderKey (str "x-amz-content-sha256")) with AmzContentSha256.
      rewrite lookup_insert_ne by (by vm_compute). apply lookup_insert_eq.
    + change (CanonicalHeaderKey (str "x-amz-date")) with AmzDate.
      rewrite !lookup_insert_ne by (by vm_compute). apply lookup_insert_eq.
Qed.

Lemma header_unsigned method payload auth extra :
  let h := Header (unsigned method payload auth extra) in
  Header_Get h Authorization = auth /\ Header_Get h AmzDate = Format_iso8601 t /\
  Header_Get h AmzContentSha256 = payload.
Proof.
  cbn [Header unsigned]. unfold Header_Get, Values_Get.
  change (CanonicalHeaderKey Authorization) with Authorization. change (CanonicalHeaderKey AmzDate) with AmzDate.
  change (CanonicalHeaderKey AmzContentSha256) with AmzContentSha256.
  split_and!; rewrite ?lookup_insert_ne by (by vm_compute); by rewrite lookup_insert_eq.
Qed.

Lemma year_ok : four_digit_year t.
Proof. vm_compute. by split. Qed.
Lemma key_ok : checkKeyValid (AccessKey root) = inl (root, true).
Proof. reflexivity. Qed.

(** A signature is hexadecimal, so any client's header can be written. *)
Lemma writable_hex payload key s :
  writable (AccessKey root) (str "us-east-1") serviceS3 (hs payload).*1 (getSignature key s).
Proof.
  split; [clean_lit|simpl; lia|clean_lit|clean_lit|done|clean_lit|].
  pose proof (hex_clean (sumHMAC key s)) as Hc. split; [|eapply clean_weaken; [exact Hc|set_solver]].
  unfold getSignature, sumHMAC. intros E. pose proof (hmac_sha256_length key s) as Hl.
  by destruct (hmac_sha256 key s).
Qed.

Lemma accepted_unsigned method payload extra :
  extra !! str "Host" = None ->
  doesSignatureMatch encode_path payload (unsigned method payload (auth method payload) extra) [] serviceS3 = ErrNone.
Proof.
  intros He. apply doesSignatureMatch_iff.
  destruct (client_reads encode_path (unsigned method payload (auth method payload) extra) (hs payload) payload root true t
              (str "us-east-1") []) as [Hr Hs];
    [by apply carries_unsigned|apply writable_hex|by left|exact year_ok|exact key_ok|apply header_unsigned..|].
  by eexists _, _, root, true, _.
Qed.

Lemma wire_unsigned method payload extra :
  extra !! str "Host" = None -> no_empty_values extra -> line_ok method -> line_ok payload ->
  wire_ok (unsigned method payload (auth method payload) extra) payload.
Proof.
  intros He Hne Hm Hp. split; [|..|done|done].
  - destruct (header_unsigned method payload (auth method payload) extra) as [-> _].
    apply authorization_printable, writable_hex.
  - intros k l. cbn [Header unsigned]. rewrite !lookup_insert_Some.
    intros [[_ <-]|[_ [[_ <-]|[_ [[_ <-]|[_ Hl]]]]]]; [done..|by eapply Hne].
Qed.
End SignScenario.
Import SignScenario.

Lemma client_request_accepted_witness :
  doesSignatureMatch encode_path emptySHA256 get [] serviceS3 = ErrNone.
Proof.
  apply (client_request_accepted encode_path get (hs emptySHA256) emptySHA256 root true t (str "us-east-1") []).
  - by apply carries_unsigned.
  - apply writable_hex.
  - by left.
  - exact year_ok.
  - exact key_ok.
  - exact (proj1 (proj2 (header_unsigned (str "GET") emptySHA256 (auth (str "GET") emptySHA256) ∅))).
  - exact (proj1 (header_unsigned (str "GET") emptySHA256 (auth (str "GET") emptySHA256) ∅)).
Defined.

Lemma replayed_signature_witness :
  ∃ sv h1 h2 cred owner t1 t2,
    reads get [] serviceS3 sv h1 cred owner t1 /\ reads get' [] serviceS3 sv h2 cred owner t2 /\
    (same_signed encode_path sv get get' h1 h2 emptySHA256 emptySHA256 t1 t2 \/
     collide sha256_Sum (canonical_of encode_path h1 emptySHA256 get) (canonical_of encode_path h2 emptySHA256 get') \/
     collide (hmac_sha256 (key_of cred sv serviceS3)) (string_of encode_path sv h1 emptySHA256 get t1)
       (string_of encode_path sv h2 emptySHA256 get' t2)).
Proof.
  apply (replayed_signature encode_path emptySHA256 emptySHA256 get get' [] serviceS3).
  - exact encode_path_line.
  - clean_lit.
  - apply wire_unsigned; try done; clean_lit.
  - apply wire_unsigned; [done|by intros k l [_ <-]%lookup_singleton_Some|clean_lit|clean_lit].
  - exact (eq_trans (proj1 (header_unsigned (str "GET") emptySHA256 (auth (str "GET") emptySHA256) ∅))
             (eq_sym (proj1 (header_unsigned (str "GET") emptySHA256 (auth (str "GET") emptySHA256)
                               {[ str "Accept" := [str "*/*"] ]})))).
  - by apply accepted_unsigned.
  - by apply accepted_unsigned.
Defined.
