(* ===== verification/SignedUpload.v ===== *)
(** * Signed uploads and presigned requests

    The signature of a request and those of its chunks together, from the
    client's keys to the bytes the server reads; and the time in which a
    presigned request is accepted. *)
From S2P Require Import Prelude GoLib IncStr GoText Errors APIErrors Metadata GoTime Credentials Bufio Streaming StreamingSpec.
From S2P Require Import SignV4 SignV4Parse SignV4Canon SignV4Spec.
Import strconv.

Section upload.
Context `{UnicodeEnv}.
Variable EncodePath : bytes -> bytes.
Context `{SigEnv} `{KeyStore}.

(** The seed is the signature of a request whose payload is announced as a
    stream of chunks. *)
Lemma calculateSeedSignature_iff region r cred seed reg date :
  calculateSeedSignature EncodePath region r = inl (cred, seed, reg, date) <->
  ∃ sv headers owner, reads r region serviceS3 sv headers cred owner date /\
    Header_Get (Header r) AmzContentSha256 = streamingContentSHA256 /\
    seed = header_signature EncodePath cred sv headers streamingContentSHA256 r date serviceS3 /\
    sv_Signature sv = seed /\ reg = scope_region (sv_Credential sv).
Proof.
  unfold calculateSeedSignature. cbv zeta. split.
  - destruct (parseSignV4 _ _ _) as [sv|e] eqn:E1; [|done]. case_decide as Hp; [done|].
    destruct (extractSignedHeaders _ _) as [h|e] eqn:E2; [|done].
    destruct (checkKeyValid _) as [[c owner]|e] eqn:E3; [|done].
    destruct (request_date r) as [t|e] eqn:E4; [|done].
    unfold compareSignatureV4. case_bool_decide as Hs; [|done]. cbn [negb]. intros E. injection E as <- <- <- <-.
    exists sv, h, owner. split_and!; try done.
  - intros (sv & h & owner & [-> -> -> ->] & -> & -> & Hs & ->). rewrite decide_False by tauto.
    unfold compareSignatureV4. by rewrite bool_decide_true.
Qed.

(** The seed is computed for exactly the requests whose signature matches for
    the announced payload. *)
Lemma seed_of_match region r :
  doesSignatureMatch EncodePath streamingContentSHA256 r region serviceS3 = ErrNone ->
  Header_Get (Header r) AmzContentSha256 = streamingContentSHA256 ->
  ∃ sv headers cred owner date, reads r region serviceS3 sv headers cred owner date /\
    calculateSeedSignature EncodePath region r = inl (cred, sv_Signature sv, scope_region (sv_Credential sv), date).
Proof.
  intros Hm Hp. apply doesSignatureMatch_iff in Hm as (sv & h & cred & owner & t & Hr & Hs).
  exists sv, h, cred, owner, t. split; [done|]. apply calculateSeedSignature_iff. by exists sv, h, owner.
Qed.

(** C15. A chunked upload from end to end: a client signs a request as the AWS
    reference prescribes, announces a chunked payload and sends the chunks
    [cs], each signed over the signature before it, starting from the request's;
    the server accepts the request, and reading its body to the end, with a
    buffer of any size, returns the chunks and the end of the stream, whatever
    the pieces in which the body arrives. *)
Theorem chunked_upload r hs cred owner t region serverRegion cs rest src k fuel :
  let seed := client_signature EncodePath (SecretKey cred) (Method r) (URL_Path r) (URL_Query r) hs
                streamingContentSHA256 t region in
  carries r hs -> writable (AccessKey cred) region serviceS3 hs.*1 seed ->
  region_ok serverRegion region -> four_digit_year t -> t mod 10 ^ 9 = 0 ->
  checkKeyValid (AccessKey cred) = inl (cred, owner) ->
  Header_Get (Header r) AmzDate = Format_iso8601 t ->
  Header_Get (Header r) AmzContentSha256 = streamingContentSHA256 ->
  Header_Get (Header r) Authorization =
    authorization (AccessKey cred) (scope_string t region serviceS3) hs.*1 seed ->
  Forall (λ c, c <> [] /\ Z.of_nat (length c) < 2 ^ 64) cs ->
  concat (s_pieces src) = encode_stream (SecretKey cred) region t seed cs ++ rest -> steady_src src ->
  (0 < k)%nat -> (length (concat cs) < fuel)%nat ->
  ∃ reader cr', newSignV4ChunkedReader_request EncodePath serverRegion r src = inl reader /\
    ReadAll fuel k [] reader = Some (concat cs, io_EOF, cr') /\ rest_of (cr_reader cr') = rest.
Proof.
  intros seed Hc Hw Hreg Ht Hts Hk Hd Hp Ha Hcs Hb Hst Hk0 Hf.
  pose proof (chunked_roundtrip (SecretKey cred) region t seed cs rest src k fuel Hcs Hb Hst Hk0 Hf) as (cr' & Hr & Hrest).
  exists (newSignV4ChunkedReader src (SecretKey cred) seed region t), cr'. split; [|done].
  destruct (client_reads EncodePath r hs streamingContentSHA256 cred owner t region serverRegion) as [Hrd Hs]; try done.
  unfold newSignV4ChunkedReader_request.
  assert (t / 10 ^ 9 * 10 ^ 9 = t) as Hfl by (pose proof (Z.div_mod t (10 ^ 9)); lia). rewrite Hfl in *.
  rewrite (proj2 (calculateSeedSignature_iff serverRegion r cred seed region t)); [done|].
  eexists _, _, owner. split; [exact Hrd|]. by rewrite <- Hs.
Qed.

(** ** Presigned requests *)
Context `{FloatEnv}.

Lemma parsePreSignV4_bounds q region stype psv :
  parsePreSignV4 q region stype = inl psv -> 0 <= psv_Expires psv <= 604800 * 10 ^ 9.
Proof.
  unfold parsePreSignV4. intros E. do 2 (case_match; [done|]).
  destruct (parseCredentialHeader _ _ _); [|done]. destruct (Parse_iso8601 _); [|done].
  destruct (ParseDuration _) as [d|]; [|done].
  destruct (Z.ltb_spec d 0); [done|]. destruct (Z.ltb_spec (604800 * 10 ^ 9) d); [done|].
  destruct (parseSignedHeader _); [|done]. destruct (parseSignature _); [|done]. injection E as <-. done.
Qed.

Lemma parsePreSignV4_fails q region stype : fails (parsePreSignV4 q region stype).
Proof.
  unfold fails, parsePreSignV4. do 2 (case_match; [done|]).
  pose proof (parseCredentialHeader_fails (str "Credential=" ++ Values_Get q AmzCredential) region stype) as Hc.
  destruct (parseCredentialHeader _ _ _); [|by intros [= ->]]. destruct (Parse_iso8601 _); [|done].
  destruct (ParseDuration _) as [d|]; [|done]. do 2 (case_match; [done|]).
  pose proof (parse_tagged_fails (str "SignedHeaders") ErrMissingSignHeadersTag
                (str "SignedHeaders=" ++ Values_Get q AmzSignedHeaders) ltac:(done)) as Hh.
  unfold parseSignedHeader. destruct (parse_tagged _ _ _); [|by intros [= ->]].
  pose proof (parse_tagged_fails (str "Signature") ErrMissingSignTag
                (str "Signature=" ++ Values_Get q AmzSignature) ltac:(done)) as Hg.
  unfold parseSignature. destruct (parse_tagged _ _ _); [done|by intros [= ->]].
Qed.

Lemma time_Sub_le t u d : 0 <= d < int64_max -> (d <? time_Sub t u) = false <-> t - u <= d.
Proof.
  intros Hd. unfold time_Sub, clamp64. rewrite Z.ltb_ge. unfold int64_min, int64_max in *.
  destruct (Z.ltb_spec (t - u) (- 2 ^ 63)); cbn [fst]; [lia|].
  destruct (Z.ltb_spec (2 ^ 63 - 1) (t - u)); cbn [fst]; lia.
Qed.

(** A presigned request is accepted in its time and only then: if it is
    accepted at some time, then at any other time it is accepted exactly when
    the server's clock is not more than fifteen minutes before its date and not
    later than its date plus its period, which is at most seven days. *)
Theorem presigned_window now1 now2 payload r region stype :
  doesPresignedSignatureMatch EncodePath now1 now2 payload r region stype = ErrNone ->
  ∃ psv, parsePreSignV4 (URL_Query r) region stype = inl psv /\ psv_Expires psv <= 604800 * 10 ^ 9 /\
    ∀ t1 t2, doesPresignedSignatureMatch EncodePath t1 t2 payload r region stype = ErrNone <->
             psv_Date psv <= t1 + 15 * 60 * 10 ^ 9 /\ t2 <= psv_Date psv + psv_Expires psv.
Proof.
  unfold doesPresignedSignatureMatch. cbv zeta.
  destruct (parsePreSignV4 (URL_Query r) region stype) as [psv|e] eqn:E1; [|by intros ->; destruct (parsePreSignV4_fails _ _ _ E1)].
  pose proof (parsePreSignV4_bounds _ _ _ _ E1) as Hb.
  destruct (checkKeyValid _) as [[cred owner]|e] eqn:E2; [|intros ->; by apply checkKeyValid_fails in E2].
  destruct (extractSignedHeaders _ _) as [h|e] eqn:E3; [|intros ->; by apply extractSignedHeaders_fails in E3].
  destruct (now1 + globalMaxSkewTime <? psv_Date psv); [done|].
  destruct (psv_Expires psv <? time_Sub now2 (psv_Date psv)); [done|]. intros Hok.
  exists psv. split; [done|]. split; [lia|]. intros t1 t2.
  pose proof (time_Sub_le t2 (psv_Date psv) (psv_Expires psv)) as Hsub. unfold int64_max in Hsub.
  destruct (Z.ltb_spec (t1 + globalMaxSkewTime) (psv_Date psv)) as [Hlt|Hge]; unfold globalMaxSkewTime in *.
  { split; [done|]. lia. }
  destruct (psv_Expires psv <? time_Sub t2 (psv_Date psv)) eqn:Es.
  - split; [done|]. intros [_ Hle]. assert (t2 - psv_Date psv <= psv_Expires psv) as Hd by lia.
    apply Hsub in Hd; [congruence|lia].
  - rewrite Hok. split; [|done]. intros _. destruct Hsub as [Hs _]; [lia|]. specialize (Hs eq_refl). lia.
Qed.
End upload.

(** ** Requests to run the theorems on *)
Import SignScenario.

(** An upload in two chunks. *)
Module UploadScenario.
Definition put : Request :=
  unsigned (str "PUT") streamingContentSHA256 (auth (str "PUT") streamingContentSHA256) ∅.
Definition stream : bytes :=
  encode_stream (SecretKey root) (str "us-east-1") t (signature (str "PUT") streamingContentSHA256)
    [str "hello "; str "world"].
Definition body : source := mkSource [take 50 stream; drop 50 stream] io_EOF true.

(** A presigned download; the signature is over the query without itself. *)
Definition params (sig : bytes) : multimap :=
  {[ AmzAlgorithm := [signV4Algorithm];
     AmzCredential := [AccessKey root ++ "/"%char :: scope_string t (str "us-east-1") serviceS3];
     AmzDate := [Format_iso8601 t]; AmzExpires := [str "86400"]; AmzSignedHeaders := [str "host"];
     AmzSignature := [sig] ]}.
Definition presigned (sig : bytes) : Request :=
  mkRequest (str "GET") (str "/b/o") (Values_Encode (params sig)) ∅ (str "example.com") [] 0
    (str "/b/o?" ++ Values_Encode (params sig)) (str "10.0.0.1:4000") false.
Definition presigned_signature : bytes :=
  let headers : multimap := {[ str "Host" := [str "example.com"] ]} in
  let psv := mkPreSignValues
               (mkSignValues (mkCredentialHeader (AccessKey root) t (str "us-east-1") serviceS3 aws4_request)
                  [str "host"] []) t (86400 * 10 ^ 9) in
  let query := presign_query psv root headers unsignedPayload (params []) in
  getSignature (getSigningKey (SecretKey root) t (str "us-east-1") serviceS3)
    (getStringToSign
       (getCanonicalRequest encode_path headers unsignedPayload (Values_Encode query) (str "/b/o") (str "GET"))
       t (scope_string t (str "us-east-1") serviceS3)).
End UploadScenario.
Import UploadScenario.

Lemma chunked_upload_witness :
  ∃ reader cr', newSignV4ChunkedReader_request encode_path [] put body = inl reader /\
    ReadAll 20 4 [] reader = Some (str "hello world", io_EOF, cr') /\ rest_of (cr_reader cr') = [].
Proof.
  pose proof (header_unsigned (str "PUT") streamingContentSHA256 (auth (str "PUT") streamingContentSHA256) ∅)
    as (Ha & Hd & Hp).
  apply (chunked_upload encode_path put (hs streamingContentSHA256) root true t (str "us-east-1") []
           [str "hello "; str "world"] [] body 4 20).
  - by apply carries_unsigned.
  - apply writable_hex.
  - by left.
  - exact year_ok.
  - reflexivity.
  - exact key_ok.
  - exact Hd.
  - exact Hp.
  - exact Ha.
  - repeat constructor; done.
  - unfold body. cbn [s_pieces concat]. rewrite app_nil_r, take_drop, app_nil_r. reflexivity.
  - repeat constructor; vm_compute; discriminate.
  - lia.
  - apply Nat.ltb_lt. vm_compute. reflexivity.
Defined.

Lemma presigned_window_witness :
  ∃ psv, parsePreSignV4 (URL_Query (presigned presigned_signature)) [] serviceS3 = inl psv /\
    psv_Expires psv <= 604800 * 10 ^ 9 /\
    ∀ t1 t2, doesPresignedSignatureMatch encode_path t1 t2 unsignedPayload (presigned presigned_signature) [] serviceS3
               = ErrNone <-> psv_Date psv <= t1 + 15 * 60 * 10 ^ 9 /\ t2 <= psv_Date psv + psv_Expires psv.
Proof.
  apply (presigned_window encode_path t t unsignedPayload (presigned presigned_signature) [] serviceS3).
  vm_compute. reflexivity.
Defined.
