(* ===== verification/IamPolicy.v ===== *)
(** * pkg/iam/policy: policies of users and groups

    The policies of identity and access management: like bucket policies, but
    without principals, with patterns for actions and with the administration's
    actions.  [None] is a panic of a condition. *)
From S2P Require Import Prelude GoLib IncStr GoText Wildcard Condition Policy.

(** ** action.go and admin-action.go *)

(** The constants that differ from those of bucket policies. *)
Definition iam_PutBucketLifecycleAction : bytes := str "s3:PutBucketLifecycle".
Definition iam_GetBucketLifecycleAction : bytes := str "s3:GetBucketLifecycle".
Definition iam_AllActions : bytes := str "s3:*".

Definition iam_supportedActions : list bytes :=
  [iam_AllActions; AbortMultipartUploadAction; CreateBucketAction; DeleteBucketAction;
   DeleteBucketPolicyAction; DeleteObjectAction; GetBucketLocationAction;
   GetBucketNotificationAction; GetBucketPolicyAction; GetObjectAction; HeadBucketAction;
   ListAllMyBucketsAction; ListBucketAction; ListBucketMultipartUploadsAction;
   ListenBucketNotificationAction; ListMultipartUploadPartsAction; PutBucketNotificationAction;
   PutBucketPolicyAction; PutObjectAction; iam_GetBucketLifecycleAction;
   iam_PutBucketLifecycleAction; PutObjectRetentionAction; GetObjectRetentionAction;
   GetObjectLegalHoldAction; PutObjectLegalHoldAction; PutBucketObjectLockConfigurationAction;
   GetBucketObjectLockConfigurationAction; BypassGovernanceModeAction;
   BypassGovernanceRetentionAction; GetObjectTaggingAction; PutObjectTaggingAction;
   DeleteObjectTaggingAction; PutBucketEncryptionAction; GetBucketEncryptionAction].
Definition iam_supportedObjectActions : list bytes :=
  [iam_AllActions; AbortMultipartUploadAction; DeleteObjectAction; GetObjectAction;
   ListMultipartUploadPartsAction; PutObjectAction; BypassGovernanceModeAction;
   BypassGovernanceRetentionAction; PutObjectRetentionAction; GetObjectRetentionAction;
   PutObjectLegalHoldAction; GetObjectLegalHoldAction; GetObjectTaggingAction;
   PutObjectTaggingAction; DeleteObjectTaggingAction].

Definition HealAdminAction : bytes := str "admin:Heal".
Definition StorageInfoAdminAction : bytes := str "admin:StorageInfo".
Definition AccountingUsageInfoAdminAction : bytes := str "admin:AccountingUsageInfo".
Definition DataUsageInfoAdminAction : bytes := str "admin:DataUsageInfo".
Definition PerfInfoAdminAction : bytes := str "admin:PerfInfo".
Definition TopLocksAdminAction : bytes := str "admin:TopLocksInfo".
Definition ProfilingAdminAction : bytes := str "admin:Profiling".
Definition TraceAdminAction : bytes := str "admin:ServerTrace".
Definition ConsoleLogAdminAction : bytes := str "admin:ConsoleLog".
Definition KMSKeyStatusAdminAction : bytes := str "admin:KMSKeyStatus".
Definition ServerHardwareInfoAdminAction : bytes := str "admin:HardwareInfo".
Definition ServerInfoAdminAction : bytes := str "admin:ServerInfo".
Definition ServerUpdateAdminAction : bytes := str "admin:ServerUpdate".
Definition ConfigUpdateAdminAction : bytes := str "admin:ConfigUpdate".
Definition CreateUserAdminAction : bytes := str "admin:CreateUser".
Definition DeleteUserAdminAction : bytes := str "admin:DeleteUser".
Definition ListUsersAdminAction : bytes := str "admin:ListUsers".
Definition EnableUserAdminAction : bytes := str "admin:EnableUser".
Definition DisableUserAdminAction : bytes := str "admin:DisableUser".
Definition GetUserAdminAction : bytes := str "admin:GetUser".
Definition AddUserToGroupAdminAction : bytes := str "admin:AddUserToGroup".
Definition RemoveUserFromGroupAdminAction : bytes := str "admin:RemoveUserFromGroup".
Definition GetGroupAdminAction : bytes := str "admin:GetGroup".
Definition ListGroupsAdminAction : bytes := str "admin:ListGroups".
Definition EnableGroupAdminAction : bytes := str "admin:EnableGroup".
Definition DisableGroupAdminAction : bytes := str "admin:DisableGroup".
Definition CreatePolicyAdminAction : bytes := str "admin:CreatePolicy".
Definition DeletePolicyAdminAction : bytes := str "admin:DeletePolicy".
Definition GetPolicyAdminAction : bytes := str "admin:GetPolicy".
Definition AttachPolicyAdminAction : bytes := str "admin:AttachUserOrGroupPolicy".
Definition ListUserPoliciesAdminAction : bytes := str "admin:ListUserPolicies".
Definition AllAdminActions : bytes := str "admin:*".

(** [GetGroupAdminAction] and [AccountingUsageInfoAdminAction] are not in the list. *)
Definition supportedAdminActions : list bytes :=
  [AllAdminActions; HealAdminAction; ServerInfoAdminAction; StorageInfoAdminAction;
   DataUsageInfoAdminAction; PerfInfoAdminAction; TopLocksAdminAction; ProfilingAdminAction;
   TraceAdminAction; ConsoleLogAdminAction; KMSKeyStatusAdminAction; ServerHardwareInfoAdminAction;
   ServerUpdateAdminAction; ConfigUpdateAdminAction; CreateUserAdminAction; DeleteUserAdminAction;
   ListUsersAdminAction; EnableUserAdminAction; DisableUserAdminAction; GetUserAdminAction;
   AddUserToGroupAdminAction; RemoveUserFromGroupAdminAction; ListGroupsAdminAction;
   EnableGroupAdminAction; DisableGroupAdminAction; CreatePolicyAdminAction;
   DeletePolicyAdminAction; GetPolicyAdminAction; AttachPolicyAdminAction;
   ListUserPoliciesAdminAction].

Definition iam_isObjectAction (action : bytes) : bool := bool_decide (action ∈ iam_supportedObjectActions).
Definition iam_Action_IsValid (action : bytes) : bool := bool_decide (action ∈ iam_supportedActions).
Definition AdminAction_IsValid (action : bytes) : bool := bool_decide (action ∈ supportedAdminActions).
Definition iam_Action_Match (action a : bytes) : bool := matches action a.

(** [parseAction]: an action of either kind. *)
Definition iam_parseAction (s : bytes) : option bytes :=
  if AdminAction_IsValid s then Some s else if iam_Action_IsValid s then Some s else None.

Definition AllSupportedAdminKeys : list bytes :=
  [AWSReferer; AWSSourceIP; AWSUserAgent; AWSSecureTransport; AWSCurrentTime; AWSEpochTime].
Definition adminActionConditionKeyMap (action : bytes) : gset bytes :=
  if AdminAction_IsValid action then list_to_set AllSupportedAdminKeys else ∅.

Definition iam_common_only : list bytes :=
  [AbortMultipartUploadAction; CreateBucketAction; DeleteBucketPolicyAction; DeleteObjectAction;
   GetBucketLocationAction; GetBucketNotificationAction; GetBucketPolicyAction; HeadBucketAction;
   ListAllMyBucketsAction; ListBucketMultipartUploadsAction; ListenBucketNotificationAction;
   ListMultipartUploadPartsAction; PutBucketNotificationAction; PutBucketPolicyAction;
   PutObjectRetentionAction; GetObjectRetentionAction; PutObjectLegalHoldAction;
   GetObjectLegalHoldAction; BypassGovernanceModeAction; BypassGovernanceRetentionAction;
   GetBucketObjectLockConfigurationAction; PutBucketObjectLockConfigurationAction;
   PutObjectTaggingAction; GetObjectTaggingAction; DeleteObjectTaggingAction].
Definition iam_actionConditionKeyMap (action : bytes) : gset bytes :=
  if decide (action = iam_AllActions) then list_to_set AllSupportedKeys
  else if decide (action ∈ iam_common_only) then list_to_set CommonKeys
  else if decide (action = GetObjectAction) then
    list_to_set ([S3XAmzServerSideEncryption; S3XAmzServerSideEncryptionCustomerAlgorithm;
                  S3XAmzStorageClass] ++ CommonKeys)
  else if decide (action = ListBucketAction) then
    list_to_set ([S3Prefix; S3Delimiter; S3MaxKeys] ++ CommonKeys)
  else if decide (action = PutObjectAction) then
    list_to_set ([S3XAmzCopySource; S3XAmzServerSideEncryption;
                  S3XAmzServerSideEncryptionCustomerAlgorithm; S3XAmzMetadataDirective;
                  S3XAmzStorageClass] ++ CommonKeys)
  else ∅.

(** ** resource.go and resourceset.go *)
Definition iam_isBucketPattern (r : Resource) : bool :=
  negb (bool_decide ("/"%char ∈ Pattern r)) || bool_decide (Pattern r = str "*").
Definition iam_isObjectPattern (r : Resource) : bool :=
  bool_decide ("/"%char ∈ Pattern r) || bool_decide ("*"%char ∈ BucketName r) || bool_decide (Pattern r = str "*/*").
Definition iam_Resource_IsValid (r : Resource) : bool := bool_decide (Pattern r <> []).
Definition iam_Resource_Match (r : Resource) (resource : bytes) (vals : values) : option bool :=
  pattern ← subst_keys CommonKeys vals (Pattern r);
  Some (bool_decide (path.Clean resource = pattern) || matches pattern resource).
Definition iam_ResourceSet_Match (rs : list Resource) (resource : bytes) (vals : values) : option bool :=
  any_match (λ r, iam_Resource_Match r resource vals) rs.
Definition iam_bucketResourceExists (rs : list Resource) : bool := existsb iam_isBucketPattern rs.
Definition iam_objectResourceExists (rs : list Resource) : bool := existsb iam_isObjectPattern rs.
Definition iam_ResourceSet_Validate (rs : list Resource) : option policy_error :=
  if forallb iam_Resource_IsValid rs then None else Some invalidResource.
Definition iam_ActionSet_Match (actions : list bytes) (action : bytes) : bool :=
  existsb (λ a, iam_Action_Match a action) actions.

(** ** The claims of a session token *)
Inductive claim : Type :=
  | claim_string (s : bytes)
  | claim_strings (l : list bytes)             (* []string *)
  | claim_list (l : list (option bytes))       (* []interface{}, [None] for what is not a string *)
  | claim_number (n : Z)                       (* float64, its integer part *)
  | claim_other.
Abbreviation claims_map := (gmap bytes claim).

Section iampolicy.
Context `{PolicyEnv}.

Record iam_Args := mkIamArgs {
  ia_AccountName : bytes; ia_Action : bytes; ia_BucketName : bytes; ia_ConditionValues : values;
  ia_IsOwner : bool; ia_ObjectName : bytes; ia_Claims : claims_map }.

Definition GetPolicies (a : iam_Args) (policyClaimName : bytes) : option (list bytes) :=
  match ia_Claims a !! policyClaimName with
  | Some (claim_string s) => Some (strings.Split s ","%char)
  | Some (claim_strings l) => Some l
  | _ => None
  end.

(** ** statement.go *)
Record iam_Statement := mkIamStatement {
  is_SID : bytes; is_Effect : bytes; is_Actions : list bytes; is_Resources : list Resource;
  is_Conditions : list Function }.

Definition iam_isAdmin (s : iam_Statement) : bool := forallb AdminAction_IsValid (is_Actions s).

Definition iam_resource (args : iam_Args) : bytes :=
  ia_BucketName args ++
  (if decide (ia_ObjectName args = []) then str "/"
   else if HasPrefix (ia_ObjectName args) (str "/") then ia_ObjectName args
   else str "/" ++ ia_ObjectName args).

Definition iam_statement_check (s : iam_Statement) (args : iam_Args) : option bool :=
  if negb (iam_ActionSet_Match (is_Actions s) (ia_Action args)) then Some false
  else
    r ← iam_ResourceSet_Match (is_Resources s) (iam_resource args) (ia_ConditionValues args);
    if negb r && negb (iam_isAdmin s) then Some false
    else Evaluate (is_Conditions s) (ia_ConditionValues args).
Definition iam_Statement_IsAllowed (s : iam_Statement) (args : iam_Args) : option bool :=
  b ← iam_statement_check s args; Some (Effect_IsAllowed (is_Effect s) b).

Definition iam_keys_supported (keys : bytes -> gset bytes) (s : iam_Statement) (action : bytes) : option policy_error :=
  if decide (Functions_Keys (is_Conditions s) ∖ keys action = ∅) then None else Some (unsupportedKeys action).
Definition iam_action_supported (s : iam_Statement) (action : bytes) : option policy_error :=
  if negb (iam_objectResourceExists (is_Resources s)) && negb (iam_bucketResourceExists (is_Resources s))
  then Some (unsupportedResource action)
  else iam_keys_supported iam_actionConditionKeyMap s action.

Definition iam_Statement_isValid (s : iam_Statement) : option policy_error :=
  if negb (Effect_IsValid (is_Effect s)) then Some invalidEffect
  else if decide (is_Actions s = []) then Some emptyActions
  else if iam_isAdmin s then first_error (iam_keys_supported adminActionConditionKeyMap s) (is_Actions s)
  else if decide (is_Resources s = []) then Some emptyResources
  else match iam_ResourceSet_Validate (is_Resources s) with
       | Some e => Some e
       | None => first_error (iam_action_supported s) (is_Actions s)
       end.

(** ** policy.go *)
Record iam_Policy := mkIamPolicy { ip_ID : bytes; ip_Version : bytes; ip_Statements : list iam_Statement }.

Fixpoint iam_none_denies (ss : list iam_Statement) (args : iam_Args) : option bool :=
  match ss with
  | [] => Some true
  | s :: ss' =>
      if decide (is_Effect s = Deny) then
        b ← iam_Statement_IsAllowed s args;
        if negb b then Some false else iam_none_denies ss' args
      else iam_none_denies ss' args
  end.
Fixpoint iam_some_allows (ss : list iam_Statement) (args : iam_Args) : option bool :=
  match ss with
  | [] => Some false
  | s :: ss' =>
      if decide (is_Effect s = Allow) then
        b ← iam_Statement_IsAllowed s args;
        if (b : bool) then Some true else iam_some_allows ss' args
      else iam_some_allows ss' args
  end.
Definition iam_Policy_IsAllowed (p : iam_Policy) (args : iam_Args) : option bool :=
  ok ← iam_none_denies (ip_Statements p) args;
  if negb ok then Some false
  else if ia_IsOwner args then Some true
  else iam_some_allows (ip_Statements p) args.

Definition iam_Policy_IsEmpty (p : iam_Policy) : bool := bool_decide (length (ip_Statements p) = 0%nat).

Definition iam_same_statement (s1 s2 : iam_Statement) : bool :=
  bool_decide (is_Effect s1 = is_Effect s2)
  && set_Equals (is_Actions s1) (is_Actions s2)
  && set_Equals (is_Resources s1) (is_Resources s2)
  && bool_decide (Functions_String (is_Conditions s1) = Functions_String (is_Conditions s2)).
Fixpoint iam_has_duplicate (ss : list iam_Statement) : bool :=
  match ss with
  | [] => false
  | s :: ss' => existsb (iam_same_statement s) ss' || iam_has_duplicate ss'
  end.
Definition iam_Policy_isValid (p : iam_Policy) : option policy_error :=
  if negb (bool_decide (ip_Version p = DefaultVersion)) && negb (bool_decide (ip_Version p = []))
  then Some invalidVersion
  else match first_error iam_Statement_isValid (ip_Statements p) with
       | Some e => Some e
       | None => if iam_has_duplicate (ip_Statements p) then Some duplicateStatements else None
       end.
Definition iam_Policy_Validate (p : iam_Policy) : option policy_error :=
  match iam_Policy_isValid p with
  | Some e => Some e
  | None => first_error iam_Statement_isValid (ip_Statements p)
  end.

(** ** constants.go: the canned policies *)
Definition SessionPolicyName : bytes := str "sessionPolicy".
Definition canned (actions : list bytes) : iam_Policy :=
  mkIamPolicy [] DefaultVersion [mkIamStatement [] Allow actions [NewResource (str "*") []] []].
Definition ReadWrite : iam_Policy := canned [iam_AllActions].
Definition ReadOnly : iam_Policy := canned [GetBucketLocationAction; GetObjectAction].
Definition WriteOnly : iam_Policy := canned [PutObjectAction].
Definition AdminDiagnostics : iam_Policy :=
  canned [PerfInfoAdminAction; ProfilingAdminAction; TraceAdminAction; ConsoleLogAdminAction;
          ServerInfoAdminAction; ServerHardwareInfoAdminAction; TopLocksAdminAction].

(** ** The meaning of a policy *)

(** The request is in the scope of the statement. *)
Definition iam_applies (s : iam_Statement) (args : iam_Args) : Prop :=
  (∃ pat, pat ∈ is_Actions s /\ wild (runes pat) (runes (ia_Action args))) /\
  (iam_isAdmin s = true \/
   ∃ r pat, r ∈ is_Resources s /\ subst_keys CommonKeys (ia_ConditionValues args) (Pattern r) = Some pat /\
     (path.Clean (iam_resource args) = pat \/ wild (runes pat) (runes (iam_resource args)))) /\
  Forall (λ f, evaluate f (ia_ConditionValues args) = Some true) (is_Conditions s).

(** The request and the statement do not make the code panic. *)
Definition iam_well_posed (args : iam_Args) (s : iam_Statement) : Prop :=
  no_empty_lists (ia_ConditionValues args) /\
  Forall (λ f, answers f (ia_ConditionValues args)) (is_Conditions s).

Lemma iam_statement_check_spec s args :
  iam_well_posed args s -> ∃ b, iam_statement_check s args = Some b /\ (b = true <-> iam_applies s args).
Proof.
  intros [Hne Hc]. unfold iam_statement_check, iam_applies.
  assert (iam_ActionSet_Match (is_Actions s) (ia_Action args) = true <->
          ∃ pat, pat ∈ is_Actions s /\ wild (runes pat) (runes (ia_Action args))) as Ha.
  { unfold iam_ActionSet_Match, iam_Action_Match. rewrite existsb_exists.
    split; intros (x & Hx & Hm); exists x; rewrite list_elem_of_In, matches_spec in *; done. }
  destruct (iam_ActionSet_Match _ _); cbn [negb];
    [|exists false; split; [done|]; split; [done|]; intros (Hx & _); by apply Ha in Hx].
  destruct (any_match_spec (λ r, iam_Resource_Match r (iam_resource args) (ia_ConditionValues args))
              (λ r, ∃ pat, subst_keys CommonKeys (ia_ConditionValues args) (Pattern r) = Some pat /\
                 (path.Clean (iam_resource args) = pat \/ wild (runes pat) (runes (iam_resource args))))
              (is_Resources s)) as (r & Er & HR).
  { apply Forall_forall. intros r _. unfold iam_Resource_Match.
    destruct (subst_keys_total CommonKeys (ia_ConditionValues args) (Pattern r) Hne) as [pat ->].
    eexists. split; [done|]. rewrite orb_true_iff, bool_decide_eq_true, matches_spec.
    split; [intros Hw; by exists pat|by intros (pat' & [= <-] & Hw)]. }
  unfold iam_ResourceSet_Match. rewrite Er. cbn [mbind option_bind].
  assert (negb r && negb (iam_isAdmin s) = false <->
          iam_isAdmin s = true \/ ∃ x pat, x ∈ is_Resources s /\
            subst_keys CommonKeys (ia_ConditionValues args) (Pattern x) = Some pat /\
            (path.Clean (iam_resource args) = pat \/ wild (runes pat) (runes (iam_resource args)))) as Hr.
  { transitivity (r = true \/ iam_isAdmin s = true); [by destruct r, (iam_isAdmin s); simpl; intuition|].
    rewrite HR. split.
    - intros [(x & Hx & pat & Hp)|Hadm]; [right; by exists x, pat|by left].
    - intros [Hadm|(x & pat & Hx & Hp)]; [by right|left]. exists x. split; [done|]. by exists pat. }
  destruct (negb r && negb (iam_isAdmin s));
    [exists false; split; [done|]; split; [done|]; intros (_ & Hx & _); by apply Hr in Hx|].
  rewrite Evaluate_total by (eapply Forall_impl; [exact Hc|]; intros f; by apply evaluate_total).
  eexists. split; [done|]. rewrite bool_decide_eq_true. split; [|tauto]. intros HE.
  split; [by apply Ha|]. split; [by apply Hr|done].
Qed.

Lemma iam_none_denies_spec ss args :
  Forall (iam_well_posed args) ss ->
  ∃ b, iam_none_denies ss args = Some b /\
    (b = true <-> ∀ s, s ∈ ss -> is_Effect s = Deny -> ~ iam_applies s args).
Proof.
  induction 1 as [|s ss Hs Hss (b & IH & HB)]; cbn [iam_none_denies].
  { exists true. split; [done|]. split; [|done]. intros _ s Hs. by apply elem_of_nil in Hs. }
  case_decide as E; [|exists b; split; [done|]; rewrite HB; set_solver].
  unfold iam_Statement_IsAllowed. destruct (iam_statement_check_spec s args Hs) as (c & -> & HC).
  cbn [mbind option_bind]. unfold Effect_IsAllowed. rewrite E, decide_False by done.
  destruct c; cbn [negb].
  - exists false. split; [done|]. split; [done|]. intros HH. exfalso. apply (HH s); [set_solver|done|tauto].
  - exists b. split; [done|]. rewrite HB. split; [|set_solver].
    intros HH s' [->|]%elem_of_cons; [naive_solver|auto].
Qed.

Lemma iam_some_allows_spec ss args :
  Forall (iam_well_posed args) ss ->
  ∃ b, iam_some_allows ss args = Some b /\
    (b = true <-> ∃ s, s ∈ ss /\ is_Effect s = Allow /\ iam_applies s args).
Proof.
  induction 1 as [|s ss Hs Hss (b & IH & HB)]; cbn [iam_some_allows].
  { exists false. split; [done|]. split; [done|]. intros (s & Hs & _). by apply elem_of_nil in Hs. }
  case_decide as E; [|exists b; split; [done|]; rewrite HB; set_solver].
  unfold iam_Statement_IsAllowed. destruct (iam_statement_check_spec s args Hs) as (c & -> & HC).
  cbn [mbind option_bind]. unfold Effect_IsAllowed. rewrite E, decide_True by done.
  destruct c.
  - exists true. split; [done|]. split; [|done]. intros _. exists s. split; [set_solver|tauto].
  - exists b. split; [done|]. rewrite HB. split; [set_solver|].
    intros (s' & [->|]%elem_of_cons & ? & ?); naive_solver.
Qed.

(** What the statements together say. *)
Definition iam_grants (ss : list iam_Statement) (args : iam_Args) : Prop :=
  (∀ s, s ∈ ss -> is_Effect s = Deny -> ~ iam_applies s args) /\
  (ia_IsOwner args = true \/ ∃ s, s ∈ ss /\ is_Effect s = Allow /\ iam_applies s args).

Lemma iam_policy_decision p args :
  Forall (iam_well_posed args) (ip_Statements p) ->
  ∃ b, iam_Policy_IsAllowed p args = Some b /\ (b = true <-> iam_grants (ip_Statements p) args).
Proof.
  intros Hp. unfold iam_Policy_IsAllowed, iam_grants.
  destruct (iam_none_denies_spec _ args Hp) as (d & -> & HD). cbn [mbind option_bind].
  destruct d; cbn [negb]; [|exists false; naive_solver].
  destruct (ia_IsOwner args); [exists true; naive_solver|].
  destruct (iam_some_allows_spec _ args Hp) as (a & -> & HA). exists a. naive_solver.
Qed.
End iampolicy.
