(* ===== verification/Iam.v ===== *)
(** * cmd/iam.go and cmd/iam-object-store.go: users, groups and their policies

    The in-memory maps of the identity system, the files that persist them, and
    the operations on both.  An operation takes the state and returns an error
    or [None], with the new state.  The maps are those after the first load.
    [StringSet] of minio-go is a finite set whose slice has some order. *)
From S2P Require Import Prelude GoLib IncStr GoText Errors Metadata Credentials NsLock Wildcard Condition Policy IamPolicy.

Class StringSetEnv := {
  ToSlice : gset bytes -> list bytes;
  ToSlice_perm s : ToSlice s ≡ₚ elements s }.

Inductive UsersSysType : Type := MinIOUsersSysType | LDAPUsersSysType.
#[export] Instance UsersSysType_eq_dec : EqDecision UsersSysType.
Proof. solve_decision. Defined.

Definition statusEnabled : bytes := str "enabled".
Definition statusDisabled : bytes := str "disabled".
Definition AccountEnabled : bytes := str "enabled".
Definition AccountDisabled : bytes := str "disabled".
Definition EnableOn : bytes := str "on".
Definition EnableOff : bytes := str "off".

Record UserIdentity := mkUserIdentity { ui_Version : Z; ui_Credentials : Credentials }.
Definition newUserIdentity (creds : Credentials) : UserIdentity := mkUserIdentity 1 creds.
Record GroupInfo := mkGroupInfo { gi_Version : Z; gi_Status : bytes; gi_Members : list bytes }.
Definition newGroupInfo (members : list bytes) : GroupInfo := mkGroupInfo 1 statusEnabled members.
Record MappedPolicy := mkMappedPolicy { mp_Version : Z; mp_Policy : bytes }.
Definition newMappedPolicy (policy : bytes) : MappedPolicy := mkMappedPolicy 1 policy.

(** madmin.UserInfo *)
Record UserInfo := mkUserInfo {
  uinfo_SecretKey : bytes; uinfo_PolicyName : bytes; uinfo_Status : bytes; uinfo_MemberOf : list bytes }.

(** ** The files *)
Definition iamConfigPrefix : bytes := str "config/iam".
Definition iamConfigUsersPrefix : bytes := iamConfigPrefix ++ str "/users/".
Definition iamConfigGroupsPrefix : bytes := iamConfigPrefix ++ str "/groups/".
Definition iamConfigPoliciesPrefix : bytes := iamConfigPrefix ++ str "/policies/".
Definition iamConfigSTSPrefix : bytes := iamConfigPrefix ++ str "/sts/".
Definition iamConfigPolicyDBPrefix : bytes := iamConfigPrefix ++ str "/policydb/".
Definition iamConfigPolicyDBUsersPrefix : bytes := iamConfigPolicyDBPrefix ++ str "users/".
Definition iamConfigPolicyDBSTSUsersPrefix : bytes := iamConfigPolicyDBPrefix ++ str "sts-users/".
Definition iamConfigPolicyDBGroupsPrefix : bytes := iamConfigPolicyDBPrefix ++ str "groups/".

Definition getUserIdentityPath (user : bytes) (isSTS : bool) : bytes :=
  pathJoin [if isSTS then iamConfigSTSPrefix else iamConfigUsersPrefix; user; str "identity.json"].
Definition getGroupInfoPath (group : bytes) : bytes :=
  pathJoin [iamConfigGroupsPrefix; group; str "members.json"].
Definition getPolicyDocPath (name : bytes) : bytes :=
  pathJoin [iamConfigPoliciesPrefix; name; str "policy.json"].
Definition getMappedPolicyPath (name : bytes) (isSTS isGroup : bool) : bytes :=
  pathJoin [if isSTS then iamConfigPolicyDBSTSUsersPrefix
            else if isGroup then iamConfigPolicyDBGroupsPrefix else iamConfigPolicyDBUsersPrefix;
            name ++ str ".json"].

Section iam.
Context `{PolicyEnv} `{StringSetEnv}.

(** One map of files per kind, by path.  [st_fault] is the error of a write or
    delete at a path, and [st_missing] the one of deleting what is not there,
    which differs between object layers. *)
Record IAMObjectStore := mkStore {
  st_policies : gmap bytes iam_Policy;
  st_users : gmap bytes UserIdentity;
  st_groups : gmap bytes GroupInfo;
  st_mapped : gmap bytes MappedPolicy;
  st_fault : bytes -> option error;
  st_missing : error }.

Record IAMSys := mkIAMSys {
  objectAPI : bool;                       (* the object layer is initialised *)
  usersSysType : UsersSysType;
  iamPolicyDocsMap : gmap bytes iam_Policy;
  iamUsersMap : gmap bytes Credentials;
  iamGroupsMap : gmap bytes GroupInfo;
  iamUserGroupMemberships : gmap bytes (gset bytes);
  iamUserPolicyMap : gmap bytes MappedPolicy;
  iamGroupPolicyMap : gmap bytes MappedPolicy;
  store : option IAMObjectStore }.

Definition set_docs (f : gmap bytes iam_Policy -> gmap bytes iam_Policy) (s : IAMSys) : IAMSys :=
  let 'mkIAMSys a t d u g m up gp st := s in mkIAMSys a t (f d) u g m up gp st.
Definition set_users (f : gmap bytes Credentials -> gmap bytes Credentials) (s : IAMSys) : IAMSys :=
  let 'mkIAMSys a t d u g m up gp st := s in mkIAMSys a t d (f u) g m up gp st.
Definition set_groups (f : gmap bytes GroupInfo -> gmap bytes GroupInfo) (s : IAMSys) : IAMSys :=
  let 'mkIAMSys a t d u g m up gp st := s in mkIAMSys a t d u (f g) m up gp st.
Definition set_memberships (f : gmap bytes (gset bytes) -> gmap bytes (gset bytes)) (s : IAMSys) : IAMSys :=
  let 'mkIAMSys a t d u g m up gp st := s in mkIAMSys a t d u g (f m) up gp st.
Definition set_user_policy (f : gmap bytes MappedPolicy -> gmap bytes MappedPolicy) (s : IAMSys) : IAMSys :=
  let 'mkIAMSys a t d u g m up gp st := s in mkIAMSys a t d u g m (f up) gp st.
Definition set_group_policy (f : gmap bytes MappedPolicy -> gmap bytes MappedPolicy) (s : IAMSys) : IAMSys :=
  let 'mkIAMSys a t d u g m up gp st := s in mkIAMSys a t d u g m up (f gp) st.
Definition set_store (st : IAMObjectStore) (s : IAMSys) : IAMSys :=
  let 'mkIAMSys a t d u g m up gp _ := s in mkIAMSys a t d u g m up gp (Some st).

(** *** iam-object-store.go *)
Definition savePolicyDoc (name : bytes) (p : iam_Policy) (st : IAMObjectStore) : option error * IAMObjectStore :=
  let 'mkStore ps us gs ms fault miss := st in
  match fault (getPolicyDocPath name) with
  | Some e => (Some e, st)
  | None => (None, mkStore (<[getPolicyDocPath name := p]> ps) us gs ms fault miss)
  end.
Definition saveUserIdentity (name : bytes) (isSTS : bool) (u : UserIdentity) (st : IAMObjectStore)
  : option error * IAMObjectStore :=
  let 'mkStore ps us gs ms fault miss := st in
  match fault (getUserIdentityPath name isSTS) with
  | Some e => (Some e, st)
  | None => (None, mkStore ps (<[getUserIdentityPath name isSTS := u]> us) gs ms fault miss)
  end.
Definition saveGroupInfo (name : bytes) (gi : GroupInfo) (st : IAMObjectStore) : option error * IAMObjectStore :=
  let 'mkStore ps us gs ms fault miss := st in
  match fault (getGroupInfoPath name) with
  | Some e => (Some e, st)
  | None => (None, mkStore ps us (<[getGroupInfoPath name := gi]> gs) ms fault miss)
  end.
Definition saveMappedPolicy (name : bytes) (isSTS isGroup : bool) (mp : MappedPolicy) (st : IAMObjectStore)
  : option error * IAMObjectStore :=
  let 'mkStore ps us gs ms fault miss := st in
  match fault (getMappedPolicyPath name isSTS isGroup) with
  | Some e => (Some e, st)
  | None => (None, mkStore ps us gs (<[getMappedPolicyPath name isSTS isGroup := mp]> ms) fault miss)
  end.

(** [deleteIAMConfig]: the error for a path that is there or not. *)
Definition deleteIAMConfig (st : IAMObjectStore) (present : bool) (path : bytes) : option error :=
  match st_fault st path with
  | Some e => Some e
  | None => if present then None
            else Some match st_missing st with ObjectNotFound _ _ => errConfigNotFound | e => e end
  end.
(** The four deletions rename the error of a missing file. *)
Definition rename_missing (name : error) (err : option error) : option error :=
  match err with Some errConfigNotFound => Some name | e => e end.

Definition deletePolicyDoc (name : bytes) (st : IAMObjectStore) : option error * IAMObjectStore :=
  let 'mkStore ps us gs ms fault miss := st in
  let path := getPolicyDocPath name in
  match rename_missing errNoSuchPolicy (deleteIAMConfig st (bool_decide (is_Some (ps !! path))) path) with
  | Some e => (Some e, st)
  | None => (None, mkStore (delete path ps) us gs ms fault miss)
  end.
Definition deleteMappedPolicy (name : bytes) (isSTS isGroup : bool) (st : IAMObjectStore)
  : option error * IAMObjectStore :=
  let 'mkStore ps us gs ms fault miss := st in
  let path := getMappedPolicyPath name isSTS isGroup in
  match rename_missing errNoSuchPolicy (deleteIAMConfig st (bool_decide (is_Some (ms !! path))) path) with
  | Some e => (Some e, st)
  | None => (None, mkStore ps us gs (delete path ms) fault miss)
  end.
Definition deleteUserIdentity (name : bytes) (isSTS : bool) (st : IAMObjectStore)
  : option error * IAMObjectStore :=
  let 'mkStore ps us gs ms fault miss := st in
  let path := getUserIdentityPath name isSTS in
  match rename_missing errNoSuchUser (deleteIAMConfig st (bool_decide (is_Some (us !! path))) path) with
  | Some e => (Some e, st)
  | None => (None, mkStore ps (delete path us) gs ms fault miss)
  end.
Definition deleteGroupInfo (name : bytes) (st : IAMObjectStore) : option error * IAMObjectStore :=
  let 'mkStore ps us gs ms fault miss := st in
  let path := getGroupInfoPath name in
  match rename_missing errNoSuchGroup (deleteIAMConfig st (bool_decide (is_Some (gs !! path))) path) with
  | Some e => (Some e, st)
  | None => (None, mkStore ps us (delete path gs) ms fault miss)
  end.

(** Loading one item into a map. *)
Definition loadPolicyDoc (policy : bytes) (st : IAMObjectStore) (m : gmap bytes iam_Policy)
  : option error * gmap bytes iam_Policy :=
  match st_policies st !! getPolicyDocPath policy with
  | None => (Some errNoSuchPolicy, m)
  | Some p => (None, <[policy := p]> m)
  end.
Definition loadGroup (group : bytes) (st : IAMObjectStore) (m : gmap bytes GroupInfo)
  : option error * gmap bytes GroupInfo :=
  match st_groups st !! getGroupInfoPath group with
  | None => (Some errNoSuchGroup, m)
  | Some g => (None, <[group := g]> m)
  end.
Definition loadMappedPolicy (name : bytes) (isSTS isGroup : bool) (st : IAMObjectStore) (m : gmap bytes MappedPolicy)
  : option error * gmap bytes MappedPolicy :=
  match st_mapped st !! getMappedPolicyPath name isSTS isGroup with
  | None => (Some errNoSuchPolicy, m)
  | Some mp => (None, <[name := mp]> m)
  end.

(** An identity that has expired is deleted, with its policy, errors ignored. *)
Definition loadUser (now : time) (user : bytes) (isSTS : bool) (st : IAMObjectStore) (m : gmap bytes Credentials)
  : option error * gmap bytes Credentials * IAMObjectStore :=
  match st_users st !! getUserIdentityPath user isSTS with
  | None => (Some errNoSuchUser, m, st)
  | Some u =>
      let cred := ui_Credentials u in
      if IsExpired now cred then
        let '(_, st) := deleteUserIdentity user isSTS st in
        let '(_, st) := deleteMappedPolicy user isSTS false st in
        (None, m, st)
      else
        let cred := if decide (AccessKey cred = []) then
                      mkCredentials user (SecretKey cred) (Expiration cred) (SessionToken cred) (Status cred)
                    else cred in
        (None, <[user := cred]> m, st)
  end.

(** *** Listing and loading everything *)

(** The items below a prefix that [listIAMConfigItems] gives: the names up to the
    next slash when directories are asked for, else the files themselves. *)
Definition item_of (pathPrefix : bytes) (dirs : bool) (path : bytes) : option bytes :=
  if HasPrefix path pathPrefix then
    let rest := TrimPrefix path pathPrefix in
    match SplitN2 rest "/"%char with
    | [d; _] => if dirs then Some d else None
    | _ => if dirs then None else Some rest
    end
  else None.
Definition listIAMConfigItems (paths : list bytes) (pathPrefix : bytes) (dirs : bool) : list bytes :=
  sort_Strings (remove_dups (omap (item_of pathPrefix dirs) paths)).
Definition all_paths (st : IAMObjectStore) : list bytes :=
  (map_to_list (st_policies st)).*1 ++ (map_to_list (st_users st)).*1 ++
  (map_to_list (st_groups st)).*1 ++ (map_to_list (st_mapped st)).*1.

(** Loading the items of a list in turn, to the first error. *)
Fixpoint load_each {A} (load : bytes -> A -> option error * A) (items : list bytes) (a : A) : option error * A :=
  match items with
  | [] => (None, a)
  | x :: items' =>
      match load x a with
      | (Some e, a') => (Some e, a')
      | (None, a') => load_each load items' a'
      end
  end.

Definition loadPolicyDocs (st : IAMObjectStore) (m : gmap bytes iam_Policy) : option error * gmap bytes iam_Policy :=
  load_each (λ name m, loadPolicyDoc name st m) (listIAMConfigItems (all_paths st) iamConfigPoliciesPrefix true) m.
Definition loadUsers (now : time) (isSTS : bool) (ms : gmap bytes Credentials * IAMObjectStore)
  : option error * (gmap bytes Credentials * IAMObjectStore) :=
  load_each (λ user '(m, st), let '(err, m, st) := loadUser now user isSTS st m in (err, (m, st)))
    (listIAMConfigItems (all_paths ms.2) (if isSTS then iamConfigSTSPrefix else iamConfigUsersPrefix) true) ms.
Definition loadGroups (st : IAMObjectStore) (m : gmap bytes GroupInfo) : option error * gmap bytes GroupInfo :=
  load_each (λ group m, loadGroup group st m) (listIAMConfigItems (all_paths st) iamConfigGroupsPrefix true) m.
Definition loadMappedPolicies (isSTS isGroup : bool) (st : IAMObjectStore) (m : gmap bytes MappedPolicy)
  : option error * gmap bytes MappedPolicy :=
  load_each (λ file m, loadMappedPolicy (TrimSuffix file (str ".json")) isSTS isGroup st m)
    (listIAMConfigItems (all_paths st)
       (if isSTS then iamConfigPolicyDBSTSUsersPrefix
        else if isGroup then iamConfigPolicyDBGroupsPrefix else iamConfigPolicyDBUsersPrefix) false) m.

Definition setDefault (name : bytes) (p : iam_Policy) (policies : gmap bytes iam_Policy) : gmap bytes iam_Policy :=
  match policies !! name with Some _ => policies | None => <[name := p]> policies end.
Definition setDefaultCannedPolicies (policies : gmap bytes iam_Policy) : gmap bytes iam_Policy :=
  setDefault (str "diagnostics") AdminDiagnostics
    (setDefault (str "readwrite") ReadWrite
       (setDefault (str "readonly") ReadOnly (setDefault (str "writeonly") WriteOnly policies))).

(** *** The memberships of users *)
Definition add_membership (group : bytes) (m : gmap bytes (gset bytes)) (member : bytes) : gmap bytes (gset bytes) :=
  <[member := {[ group ]} ∪ default ∅ (m !! member)]> m.
Definition updateGroupMembershipsMap (group : bytes) (gi : GroupInfo) (m : gmap bytes (gset bytes))
  : gmap bytes (gset bytes) := foldl (add_membership group) m (gi_Members gi).
Definition removeGroupFromMembershipsMap (group : bytes) (m : gmap bytes (gset bytes)) : gmap bytes (gset bytes) :=
  (λ groups : gset bytes, groups ∖ {[ group ]}) <$> m.
(** The groups in the order of the loop; the result does not depend on it. *)
Definition buildUserGroupMemberships (groups : gmap bytes GroupInfo) (m : gmap bytes (gset bytes))
  : gmap bytes (gset bytes) :=
  foldl (λ m '(group, gi), updateGroupMembershipsMap group gi m) m (map_to_list groups).

Definition stop (e : error) (s : IAMSys) : option error * IAMSys := (Some e, s).

(** [loadAll]: the maps are replaced together, at the end; the memberships are
    added to those there are. *)
Definition loadAll (now : time) (s : IAMSys) : option error * IAMSys :=
  match store s with
  | None => stop errServerNotInitialized s
  | Some st =>
      if negb (objectAPI s) then stop errServerNotInitialized s
      else
        let minio := bool_decide (usersSysType s = MinIOUsersSysType) in
        match loadPolicyDocs st ∅ with
        | (Some e, _) => stop e s
        | (None, docs) =>
            match loadUsers now true (∅, st) with
            | (Some e, (_, st)) => stop e (set_store st s)
            | (None, (users, st)) =>
                match (if minio then loadUsers now false (users, st) else (None, (users, st))) with
                | (Some e, (_, st)) => stop e (set_store st s)
                | (None, (users, st)) =>
                    let s := set_store st s in
                    match (if minio then loadGroups st ∅ else (None, ∅)) with
                    | (Some e, _) => stop e s
                    | (None, groups) =>
                        match (if minio then loadMappedPolicies false false st ∅ else (None, ∅)) with
                        | (Some e, _) => stop e s
                        | (None, userPolicies) =>
                            match loadMappedPolicies true false st userPolicies with
                            | (Some e, _) => stop e s
                            | (None, userPolicies) =>
                                match loadMappedPolicies false true st ∅ with
                                | (Some e, _) => stop e s
                                | (None, groupPolicies) =>
                                    (None, mkIAMSys (objectAPI s) (usersSysType s) (setDefaultCannedPolicies docs)
                                             users groups
                                             (buildUserGroupMemberships groups (iamUserGroupMemberships s))
                                             userPolicies groupPolicies (Some st))
                                end
                            end
                        end
                    end
                end
            end
        end
  end.

(** ** iam.go: operations *)

(** A call of the store, which must be there; an error ends the operation. *)
Definition on_store (f : IAMObjectStore -> option error * IAMObjectStore) (k : IAMSys -> option error * IAMSys)
  (s : IAMSys) : option error * IAMSys :=
  match store s with
  | None => stop errServerNotInitialized s
  | Some st =>
      match f st with
      | (Some e, st) => stop e (set_store st s)
      | (None, st) => k (set_store st s)
      end
  end.
Definition finish (s : IAMSys) : option error * IAMSys := (None, s).

(** The first lines of most operations. *)
Definition initialized (s : IAMSys) (k : option error * IAMSys) : option error * IAMSys :=
  if objectAPI s then k else stop errServerNotInitialized s.
Definition minio_users (s : IAMSys) (k : option error * IAMSys) : option error * IAMSys :=
  if decide (usersSysType s = MinIOUsersSysType) then k else stop errIAMActionNotAllowed s.

(** *** Reloading single items, without etcd *)
Definition LoadGroup (group : bytes) (s : IAMSys) : option error * IAMSys :=
  initialized s match store s with
  | None => stop errServerNotInitialized s
  | Some st =>
      match loadGroup group st (iamGroupsMap s) with
      | (Some errConfigNotFound, groups) =>
          finish (set_memberships (removeGroupFromMembershipsMap group)
                    (set_groups (λ _, delete group groups) (set_group_policy (delete group) s)))
      | (Some e, _) => stop e s
      | (None, groups) =>
          let s := set_groups (λ _, groups) s in
          let gi := default (mkGroupInfo 0 [] []) (groups !! group) in
          finish (set_memberships (λ m, updateGroupMembershipsMap group gi (removeGroupFromMembershipsMap group m)) s)
      end
  end.
Definition LoadPolicy (policyName : bytes) (s : IAMSys) : option error * IAMSys :=
  initialized s match store s with
  | None => stop errServerNotInitialized s
  | Some st => let '(err, docs) := loadPolicyDoc policyName st (iamPolicyDocsMap s) in
               (err, set_docs (λ _, docs) s)
  end.
Definition ignore_config_not_found (err : option error) : option error :=
  match err with Some errConfigNotFound => None | e => e end.
Definition LoadPolicyMapping (userOrGroup : bytes) (isGroup : bool) (s : IAMSys) : option error * IAMSys :=
  initialized s match store s with
  | None => stop errServerNotInitialized s
  | Some st =>
      if isGroup then
        let '(err, m) := loadMappedPolicy userOrGroup false isGroup st (iamGroupPolicyMap s) in
        (ignore_config_not_found err, set_group_policy (λ _, m) s)
      else
        let '(err, m) := loadMappedPolicy userOrGroup false isGroup st (iamUserPolicyMap s) in
        (ignore_config_not_found err, set_user_policy (λ _, m) s)
  end.
Definition LoadUser (now : time) (accessKey : bytes) (isSTS : bool) (s : IAMSys) : option error * IAMSys :=
  initialized s match store s with
  | None => stop errServerNotInitialized s
  | Some st =>
      match loadUser now accessKey isSTS st (iamUsersMap s) with
      | (Some e, _, st) => stop e (set_store st s)
      | (None, users, st) =>
          let s := set_store st (set_users (λ _, users) s) in
          let '(err, m) := loadMappedPolicy accessKey isSTS false st (iamUserPolicyMap s) in
          (ignore_config_not_found err, set_user_policy (λ _, m) s)
      end
  end.

(** *** Policies *)
Definition SetPolicy (policyName : bytes) (p : iam_Policy) (s : IAMSys) : option error * IAMSys :=
  initialized s
    (if iam_Policy_IsEmpty p || bool_decide (policyName = []) then stop errInvalidArgument s
     else on_store (savePolicyDoc policyName p) (λ s, finish (set_docs <[policyName := p]> s)) s).

Definition policyDBSet (name policy : bytes) (isSTS isGroup : bool) (s : IAMSys) : option error * IAMSys :=
  match store s with
  | None => stop errServerNotInitialized s
  | Some _ =>
      if decide (name = []) then stop errInvalidArgument s
      else if bool_decide (iamPolicyDocsMap s !! policy = None) && bool_decide (policy <> [])
      then (Some errNoSuchPolicy, s)
      else if bool_decide (usersSysType s = MinIOUsersSysType) && negb isGroup
              && bool_decide (iamUsersMap s !! name = None) then stop errNoSuchUser s
      else if bool_decide (usersSysType s = MinIOUsersSysType) && isGroup
              && bool_decide (iamGroupsMap s !! name = None) then stop errNoSuchGroup s
      else if decide (policy = []) then
        on_store (deleteMappedPolicy name isSTS isGroup)
          (λ s, finish (if isGroup then set_group_policy (delete name) s else set_user_policy (delete name) s)) s
      else
        let mp := newMappedPolicy policy in
        on_store (saveMappedPolicy name isSTS isGroup mp)
          (λ s, finish (if isGroup then set_group_policy <[name := mp]> s else set_user_policy <[name := mp]> s)) s
  end.
Definition PolicyDBSet (name policy : bytes) (isGroup : bool) (s : IAMSys) : option error * IAMSys :=
  initialized s (policyDBSet name policy false isGroup s).

(** The names mapped to a policy. *)
Definition mapped_to (policyName : bytes) (m : gmap bytes MappedPolicy) : list bytes :=
  (filter (λ e : bytes * MappedPolicy, mp_Policy e.2 = policyName) (map_to_list m)).*1.

Definition DeletePolicy (policyName : bytes) (s : IAMSys) : option error * IAMSys :=
  initialized s
    (if decide (policyName = []) then stop errInvalidArgument s
     else
       match store s with
       | None => stop errServerNotInitialized s
       | Some st =>
           let '(err, st) := deletePolicyDoc policyName st in
           let err := match err with Some (ObjectNotFound _ _) => None | e => e end in
           let s := set_docs (delete policyName) (set_store st s) in
           let usersToDel := mapped_to policyName (iamUserPolicyMap s) in
           if negb (forallb (λ u, bool_decide (is_Some (iamUsersMap s !! u))) usersToDel)
           then stop errNoSuchUser s
           else
             let isSTS u := match iamUsersMap s !! u with Some cr => IsTemp cr | None => false end in
             let s := foldl (λ s u, (policyDBSet u [] (isSTS u) false s).2) s usersToDel in
             let groupsToDel := mapped_to policyName (iamGroupPolicyMap s) in
             let s := foldl (λ s g, (policyDBSet g [] false true s).2) s groupsToDel in
             (err, s)
       end).

(** *** Groups *)

(** The members must be long-term users. *)
Fixpoint check_members (members : list bytes) (s : IAMSys) : option error :=
  match members with
  | [] => None
  | m :: ms =>
      match iamUsersMap s !! m with
      | None => Some errNoSuchUser
      | Some cr => if IsTemp cr then Some errIAMActionNotAllowed else check_members ms s
      end
  end.

Definition AddUsersToGroup (group : bytes) (members : list bytes) (s : IAMSys) : option error * IAMSys :=
  initialized s
    (if decide (group = []) then stop errInvalidArgument s
     else minio_users s
       match check_members members s with
       | Some e => stop e s
       | None =>
           let gi := match iamGroupsMap s !! group with
                     | None => newGroupInfo members
                     | Some gi => mkGroupInfo (gi_Version gi) (gi_Status gi)
                                    (ToSlice (list_to_set (gi_Members gi ++ members)))
                     end in
           on_store (saveGroupInfo group gi)
             (λ s, finish (set_memberships (λ m, foldl (add_membership group) m members)
                             (set_groups <[group := gi]> s))) s
       end).

Definition remove_membership (group : bytes) (m : gmap bytes (gset bytes)) (member : bytes) : gmap bytes (gset bytes) :=
  match m !! member with
  | None => m
  | Some gset => <[member := gset ∖ {[ group ]}]> m
  end.

Definition RemoveUsersFromGroup (group : bytes) (members : list bytes) (s : IAMSys) : option error * IAMSys :=
  initialized s
    (if decide (group = []) then stop errInvalidArgument s
     else minio_users s
       match check_members members s with
       | Some e => stop e s
       | None =>
           match iamGroupsMap s !! group with
           | None => stop errNoSuchGroup s
           | Some gi =>
               if bool_decide (members = []) && bool_decide (gi_Members gi <> []) then stop errGroupNotEmpty s
               else
                 match store s with
                 | None => stop errServerNotInitialized s
                 | Some st =>
                     if decide (members = []) then
                       let '(err, st) := deleteMappedPolicy group false true st in
                       let s := set_store st s in
                       match ignore_config_not_found err with
                       | Some e => stop e s
                       | None =>
                           on_store (deleteGroupInfo group)
                             (λ s, finish (set_group_policy (delete group) (set_groups (delete group) s))) s
                       end
                     else
                       let gi := mkGroupInfo (gi_Version gi) (gi_Status gi)
                                   (ToSlice (list_to_set (gi_Members gi) ∖ list_to_set members)) in
                       on_store (saveGroupInfo group gi)
                         (λ s, finish (set_memberships (λ m, foldl (remove_membership group) m members)
                                         (set_groups <[group := gi]> s))) s
                 end
           end
       end).

Definition SetGroupStatus (group : bytes) (enabled : bool) (s : IAMSys) : option error * IAMSys :=
  initialized s match store s with
  | None => stop errServerNotInitialized s
  | Some _ =>
      minio_users s
        (if decide (group = []) then stop errInvalidArgument s
         else match iamGroupsMap s !! group with
              | None => stop errNoSuchGroup s
              | Some gi =>
                  let gi := mkGroupInfo (gi_Version gi) (if enabled then statusEnabled else statusDisabled)
                              (gi_Members gi) in
                  on_store (saveGroupInfo group gi) (λ s, finish (set_groups <[group := gi]> s)) s
              end)
  end.

(** *** Users *)
Definition mapped_policy (m : gmap bytes MappedPolicy) (name : bytes) : bytes :=
  match m !! name with Some mp => mp_Policy mp | None => [] end.
Definition member_of (s : IAMSys) (name : bytes) : list bytes :=
  ToSlice (default ∅ (iamUserGroupMemberships s !! name)).

Definition GetUserInfo (now : time) (name : bytes) (s : IAMSys) : UserInfo + error :=
  if negb (objectAPI s) then inr errServerNotInitialized
  else if decide (usersSysType s <> MinIOUsersSysType)
  then inl (mkUserInfo [] (mapped_policy (iamUserPolicyMap s) name) [] (member_of s name))
  else
    match iamUsersMap s !! name with
    | None => inr errNoSuchUser
    | Some creds =>
        if IsTemp creds then inr errIAMActionNotAllowed
        else inl (mkUserInfo [] (mapped_policy (iamUserPolicyMap s) name)
                    (if IsValid now creds then AccountEnabled else AccountDisabled) (member_of s name))
    end.

(** The user leaves each group in turn, to the first error. *)
Fixpoint leave_groups (groups : list bytes) (accessKey : bytes) (s : IAMSys) : option error * IAMSys :=
  match groups with
  | [] => (None, s)
  | g :: gs =>
      match RemoveUsersFromGroup g [accessKey] s with
      | (Some e, s) => (Some e, s)
      | (None, s) => leave_groups gs accessKey s
      end
  end.

Definition DeleteUser (now : time) (accessKey : bytes) (s : IAMSys) : option error * IAMSys :=
  initialized s
    match GetUserInfo now accessKey s with
    | inr e => stop e s
    | inl userInfo =>
        match leave_groups (uinfo_MemberOf userInfo) accessKey s with
        | (Some e, s) => stop e s
        | (None, s) =>
            minio_users s
              match store s with
              | None => stop errServerNotInitialized s
              | Some st =>
                  let '(_, st) := deleteMappedPolicy accessKey false false st in
                  let '(err, st) := deleteUserIdentity accessKey false st in
                  let err := match err with Some (ObjectNotFound _ _) => None | e => e end in
                  (err, set_user_policy (delete accessKey) (set_users (delete accessKey) (set_store st s)))
              end
        end
    end.

Definition SetUserStatus (accessKey status : bytes) (s : IAMSys) : option error * IAMSys :=
  initialized s
    (if bool_decide (status <> AccountEnabled) && bool_decide (status <> AccountDisabled)
     then stop errInvalidArgument s
     else minio_users s
       match iamUsersMap s !! accessKey with
       | None => stop errNoSuchUser s
       | Some cred =>
           if IsTemp cred then stop errIAMActionNotAllowed s
           else
             let uinfo := newUserIdentity
               (mkCredentials accessKey (SecretKey cred) zeroTime []
                  (if decide (status = AccountEnabled) then EnableOn else EnableOff)) in
             on_store (saveUserIdentity accessKey false uinfo)
               (λ s, finish (set_users <[accessKey := ui_Credentials uinfo]> s)) s
       end).

Definition SetUser (accessKey : bytes) (uinfo : UserInfo) (s : IAMSys) : option error * IAMSys :=
  initialized s
    (let u := newUserIdentity (mkCredentials accessKey (uinfo_SecretKey uinfo) zeroTime [] (uinfo_Status uinfo)) in
     minio_users s
       match store s with
       | None => stop errServerNotInitialized s
       | Some _ =>
           if match iamUsersMap s !! accessKey with Some cr => IsTemp cr | None => false end
           then stop errIAMActionNotAllowed s
           else on_store (saveUserIdentity accessKey false u)
             (λ s, let s := set_users <[accessKey := ui_Credentials u]> s in
                   if decide (uinfo_PolicyName uinfo = []) then finish s
                   else policyDBSet accessKey (uinfo_PolicyName uinfo) false false s) s
       end).

Definition SetUserSecretKey (accessKey secretKey : bytes) (s : IAMSys) : option error * IAMSys :=
  initialized s
    (minio_users s
       match iamUsersMap s !! accessKey with
       | None => stop errNoSuchUser s
       | Some cred =>
           let cred := mkCredentials (AccessKey cred) secretKey (Expiration cred) (SessionToken cred) (Status cred) in
           on_store (saveUserIdentity accessKey false (newUserIdentity cred))
             (λ s, finish (set_users <[accessKey := cred]> s)) s
       end).

Definition IAM_GetUser (now : time) (s : IAMSys) (accessKey : bytes) : option Credentials :=
  match iamUsersMap s !! accessKey with
  | Some cred => if IsValid now cred then Some cred else None
  | None => None
  end.
Definition IsTempUser (name : bytes) (s : IAMSys) : bool + error :=
  if negb (objectAPI s) then inr errServerNotInitialized
  else match iamUsersMap s !! name with None => inr errNoSuchUser | Some creds => inl (IsTemp creds) end.

(** The entries of the users that are not temporary. *)
Definition ListUsers (now : time) (s : IAMSys) : gmap bytes UserInfo + error :=
  if negb (objectAPI s) then inr errServerNotInitialized
  else if decide (usersSysType s <> MinIOUsersSysType) then inr errIAMActionNotAllowed
  else inl (map_imap (λ k v,
              if IsTemp v then None
              else Some (mkUserInfo [] (mapped_policy (iamUserPolicyMap s) k)
                           (if IsValid now v then AccountEnabled else AccountDisabled) [])) (iamUsersMap s)).
Definition ListGroups (s : IAMSys) : list bytes + error :=
  if decide (usersSysType s <> MinIOUsersSysType) then inr errIAMActionNotAllowed
  else inl (map_to_list (iamGroupsMap s)).*1.

(** *** The policies of a user *)
Definition enabled_group_policy (s : IAMSys) (group : bytes) : option bytes :=
  match iamGroupsMap s !! group with
  | None => None
  | Some gi =>
      if decide (gi_Status gi = statusDisabled) then None
      else match iamGroupPolicyMap s !! group with
           | Some p => if decide (mp_Policy p = []) then None else Some (mp_Policy p)
           | None => None
           end
  end.

Definition policyDBGet (name : bytes) (isGroup : bool) (s : IAMSys) : list bytes + error :=
  if isGroup then
    match iamGroupsMap s !! name with
    | None => inr errNoSuchGroup
    | Some _ => let policy := mapped_policy (iamGroupPolicyMap s) name in
                inl (if decide (policy = []) then [] else [policy])
    end
  else
    match iamUsersMap s !! name with
    | None => inr errNoSuchUser
    | Some u =>
        if decide (Status u = statusDisabled) then inl []
        else
          let policy := mapped_policy (iamUserPolicyMap s) name in
          inl ((if decide (policy = []) then [] else [policy])
               ++ omap (enabled_group_policy s) (member_of s name))
    end.
Definition PolicyDBGet (name : bytes) (isGroup : bool) (s : IAMSys) : list bytes + error :=
  if decide (name = []) then inr errInvalidArgument
  else if negb (objectAPI s) then inr errServerNotInitialized
  else policyDBGet name isGroup s.

Record GroupDesc := mkGroupDesc { gd_Name : bytes; gd_Status : bytes; gd_Members : list bytes; gd_Policy : bytes }.
Definition GetGroupDescription (group : bytes) (s : IAMSys) : GroupDesc + error :=
  match PolicyDBGet group true s with
  | inr e => inr e
  | inl ps =>
      let policy := default [] (head ps) in
      if decide (usersSysType s <> MinIOUsersSysType) then inl (mkGroupDesc group [] [] policy)
      else match iamGroupsMap s !! group with
           | None => inr errNoSuchGroup
           | Some gi => inl (mkGroupDesc group (gi_Status gi) (gi_Members gi) policy)
           end
  end.

(** ** Decisions *)

(** Open Policy Agent, the claim that names the policy, and the parser of a
    session policy (encoding/json). *)
Class IamEnv := {
  globalPolicyOPA : option (iam_Args -> bool);
  iamPolicyClaimName : bytes;
  iam_ParseConfig : bytes -> option iam_Policy }.
Context `{!IamEnv}.

Definition SetTempUser (accessKey : bytes) (cred : Credentials) (policyName : bytes) (s : IAMSys)
  : option error * IAMSys :=
  initialized s
    (let save := on_store (saveUserIdentity accessKey true (newUserIdentity cred))
                   (λ s, finish (set_users <[accessKey := cred]> s)) in
     if bool_decide (is_Some globalPolicyOPA) || bool_decide (policyName = []) then save s
     else
       match iamPolicyDocsMap s !! policyName with
       | None => stop errInvalidArgument s
       | Some p =>
           if iam_Policy_IsEmpty p then finish (set_user_policy (delete accessKey) s)
           else
             let mp := newMappedPolicy policyName in
             on_store (saveMappedPolicy accessKey true false mp)
               (λ s, save (set_user_policy <[accessKey := mp]> s)) s
       end).

(** The statements of several policies put together. *)
Definition combine (ps : list iam_Policy) : option iam_Policy :=
  match ps with
  | [] => None
  | p :: ps' => Some (mkIamPolicy (ip_ID p) (ip_Version p) (ip_Statements p ++ flat_map ip_Statements ps'))
  end.
Definition decide_by (ps : list iam_Policy) (args : iam_Args) : option bool :=
  match combine ps with
  | None => Some false
  | Some p => iam_Policy_IsAllowed p args
  end.
Definition docs_of (s : IAMSys) (names : list bytes) : list iam_Policy := omap (λ n, iamPolicyDocsMap s !! n) names.

Definition ldapUser : bytes := str "ldapUser".
Definition ldapGroups : bytes := str "ldapGroups".

Definition IsAllowedLDAP (user : claim) (args : iam_Args) (s : IAMSys) : option bool :=
  match user, ia_Claims args !! ldapGroups with
  | claim_string user, Some (claim_list groups) =>
      let names := (match iamUserPolicyMap s !! user with Some mp => [mp_Policy mp] | None => [] end)
                   ++ omap (λ g, mp_Policy <$> iamGroupPolicyMap s !! g) (omap id groups) in
      decide_by (docs_of s names) args
  | _, _ => Some false
  end.

Definition IsAllowedSTS (args : iam_Args) (s : IAMSys) : option bool :=
  match ia_Claims args !! ldapUser with
  | Some user => IsAllowedLDAP user args s
  | None =>
      match GetPolicies args iamPolicyClaimName with
      | None | Some [] => Some false
      | Some (pname :: _) =>
          match iamUserPolicyMap s !! ia_AccountName args with
          | None => Some false
          | Some mp =>
              if decide (pname <> mp_Policy mp) then Some false
              else
                let top := match iamPolicyDocsMap s !! pname with
                           | None => Some false
                           | Some p => iam_Policy_IsAllowed p args
                           end in
                match ia_Claims args !! SessionPolicyName with
                | None => top
                | Some (claim_string spolicy) =>
                    match iam_ParseConfig spolicy with
                    | None => Some false
                    | Some subPolicy =>
                        if decide (ip_Version subPolicy = []) then Some false
                        else b ← top; if (b : bool) then iam_Policy_IsAllowed subPolicy args else Some false
                    end
                | Some _ => Some false
                end
          end
      end
  end.

Definition IAM_IsAllowed (args : iam_Args) (s : IAMSys) : option bool :=
  match globalPolicyOPA with
  | Some opa => Some (opa args)
  | None =>
      if ia_IsOwner args then Some true
      else
        match IsTempUser (ia_AccountName args) s with
        | inr _ => Some false
        | inl true => IsAllowedSTS args s
        | inl false =>
            match PolicyDBGet (ia_AccountName args) false s with
            | inr _ => Some false
            | inl names => decide_by (docs_of s names) args
            end
        end
  end.

(** *** GetAccountAccess *)
Definition iamAccountReadAccessActions : list bytes :=
  [ListMultipartUploadPartsAction; ListBucketMultipartUploadsAction; ListBucketAction; HeadBucketAction;
   GetObjectAction; GetBucketLocationAction].
Definition iamAccountWriteAccessActions : list bytes :=
  [AbortMultipartUploadAction; CreateBucketAction; PutObjectAction; DeleteObjectAction; DeleteBucketAction].
Definition iamAccountOtherAccessActions : list bytes :=
  [BypassGovernanceModeAction; BypassGovernanceRetentionAction; PutObjectRetentionAction;
   GetObjectRetentionAction; GetObjectLegalHoldAction; PutObjectLegalHoldAction;
   GetBucketObjectLockConfigurationAction; PutBucketObjectLockConfigurationAction;
   ListenBucketNotificationAction; iam_PutBucketLifecycleAction; iam_GetBucketLifecycleAction;
   PutBucketNotificationAction; GetBucketNotificationAction; PutBucketPolicyAction;
   DeleteBucketPolicyAction; GetBucketPolicyAction; PutBucketEncryptionAction; GetBucketEncryptionAction].
Definition intersects (l1 l2 : list bytes) : bool := existsb (λ a, bool_decide (a ∈ l2)) l1.

Fixpoint account_access (ss : list iam_Statement) (acc : bool * bool * bool) : bool * bool * bool :=
  match ss with
  | [] => acc
  | st :: ss' =>
      if decide (is_Effect st <> Allow) then account_access ss' acc
      else if intersects (is_Actions st) [iam_AllActions] then (true, true, true)
      else
        let '(rd, wr, o) := acc in
        account_access ss' (rd || intersects (is_Actions st) iamAccountReadAccessActions,
                            wr || intersects (is_Actions st) iamAccountWriteAccessActions,
                            o || intersects (is_Actions st) iamAccountOtherAccessActions)
  end.
Definition GetAccountAccess (accountName : bytes) (s : IAMSys) : bool * bool * bool :=
  match PolicyDBGet accountName false s with
  | inr _ => (false, false, false)
  | inl names =>
      match combine (docs_of s names) with
      | None => (false, false, false)
      | Some p => account_access (ip_Statements p) (false, false, false)
      end
  end.
End iam.
