(* ===== verification/IamSpec.v ===== *)
(** * Properties of the identity system

    The cached memberships agree with the groups whatever operations run, and a
    decision is the one the statements of the user's own policy and of its
    enabled groups give. *)
From S2P Require Import Prelude GoLib IncStr GoText Errors Metadata Credentials NsLock Wildcard Condition Policy IamPolicy Iam.

Section spec.
Context `{PolicyEnv} `{StringSetEnv}.

Lemma elem_of_ToSlice (x : bytes) (X : gset bytes) : x ∈ ToSlice X <-> x ∈ X.
Proof. by rewrite (ToSlice_perm X), elem_of_elements. Qed.

(** ** The memberships *)
Definition groups_of (m : gmap bytes (gset bytes)) (u : bytes) : gset bytes := default ∅ (m !! u).

(** A user is recorded in a group exactly when the group lists the user. *)
Definition memberships_ok (s : IAMSys) : Prop :=
  ∀ u g, g ∈ groups_of (iamUserGroupMemberships s) u <->
         ∃ gi, iamGroupsMap s !! g = Some gi /\ u ∈ gi_Members gi.

Lemma groups_of_insert m u v X : groups_of (<[u := X]> m) v = if decide (u = v) then X else groups_of m v.
Proof. unfold groups_of. rewrite lookup_insert. by case_decide. Qed.

Lemma foldl_add_membership group members m u g :
  g ∈ groups_of (foldl (add_membership group) m members) u <->
  g ∈ groups_of m u \/ (g = group /\ u ∈ members).
Proof.
  revert m. induction members as [|x members IH]; intros m; cbn [foldl].
  { rewrite elem_of_nil. tauto. }
  rewrite IH. unfold add_membership. rewrite groups_of_insert, elem_of_cons. fold (groups_of m x).
  case_decide as E; [subst x; set_solver|]. assert (u <> x) by congruence. tauto.
Qed.

Lemma foldl_remove_membership group members m u g :
  g ∈ groups_of (foldl (remove_membership group) m members) u <->
  g ∈ groups_of m u /\ ~ (g = group /\ u ∈ members).
Proof.
  revert m. induction members as [|x members IH]; intros m; cbn [foldl].
  { rewrite elem_of_nil. tauto. }
  rewrite IH, elem_of_cons. unfold remove_membership. destruct (m !! x) as [X|] eqn:E.
  - rewrite groups_of_insert. case_decide as Eq.
    + subst x. assert (groups_of m u = X) as -> by (unfold groups_of; by rewrite E). set_solver.
    + assert (u <> x) by congruence. tauto.
  - destruct (decide (u = x)) as [->|]; [|tauto]. unfold groups_of. rewrite E. set_solver.
Qed.

Lemma groups_of_remove_group group m u : groups_of (removeGroupFromMembershipsMap group m) u = groups_of m u ∖ {[ group ]}.
Proof.
  unfold groups_of, removeGroupFromMembershipsMap. rewrite lookup_fmap. destruct (m !! u); simpl; set_solver.
Qed.

(** ** Operations that leave the groups as they are *)
Definition same_groups (s s' : IAMSys) : Prop :=
  iamGroupsMap s' = iamGroupsMap s /\ iamUserGroupMemberships s' = iamUserGroupMemberships s.

#[local] Instance same_groups_refl : Reflexive same_groups.
Proof. by intros s. Qed.
#[local] Instance same_groups_trans : Transitive same_groups.
Proof. intros s1 s2 s3 [] []. split; congruence. Qed.

Lemma same_groups_ok s s' : same_groups s s' -> memberships_ok s -> memberships_ok s'.
Proof. intros [E1 E2]. unfold memberships_ok. by rewrite E1, E2. Qed.

Lemma same_docs f s : same_groups s (set_docs f s).
Proof. by destruct s. Qed.
Lemma same_users f s : same_groups s (set_users f s).
Proof. by destruct s. Qed.
Lemma same_user_policy f s : same_groups s (set_user_policy f s).
Proof. by destruct s. Qed.
Lemma same_group_policy f s : same_groups s (set_group_policy f s).
Proof. by destruct s. Qed.
Lemma same_store st s : same_groups s (set_store st s).
Proof. by destruct s. Qed.
#[local] Hint Resolve same_docs same_users same_user_policy same_group_policy same_store : go.

(** What holds of every outcome of an operation. *)
Definition keeps (R : IAMSys -> IAMSys -> Prop) (s : IAMSys) (r : option error * IAMSys) : Prop := R s r.2.

Lemma keeps_stop (R : IAMSys -> IAMSys -> Prop) `{!Reflexive R} e s : keeps R s (stop e s).
Proof. unfold keeps. simpl. reflexivity. Qed.
Lemma keeps_initialized (R : IAMSys -> IAMSys -> Prop) `{!Reflexive R} s k : keeps R s k -> keeps R s (initialized s k).
Proof. intros. unfold initialized. case_match; [done|by apply keeps_stop]. Qed.
Lemma keeps_minio_users (R : IAMSys -> IAMSys -> Prop) `{!Reflexive R} s k : keeps R s k -> keeps R s (minio_users s k).
Proof. intros. unfold minio_users. case_match; [done|by apply keeps_stop]. Qed.
Lemma keeps_on_store f k s :
  (∀ s', same_groups s s' -> same_groups s (k s').2) -> same_groups s (on_store f k s).2.
Proof.
  intros Hk. unfold on_store. destruct (store s) as [st|]; [|done]. destruct (f st) as [[e|] st'].
  - simpl. apply same_store.
  - apply Hk, same_store.
Qed.

Lemma policyDBSet_same name policy isSTS isGroup s : same_groups s (policyDBSet name policy isSTS isGroup s).2.
Proof.
  unfold policyDBSet. repeat (case_match; try done); apply keeps_on_store; intros s' Hs; cbn [finish snd];
    (etransitivity; [exact Hs|]); auto with go.
Qed.

Lemma foldl_same {A} (f : IAMSys -> A -> IAMSys) l s :
  (∀ s x, same_groups s (f s x)) -> same_groups s (foldl f s l).
Proof.
  intros Hf. revert s. induction l as [|x l IH]; intros s; [done|]. cbn [foldl].
  etransitivity; [apply Hf|apply IH].
Qed.

Lemma DeletePolicy_same name s : same_groups s (DeletePolicy name s).2.
Proof.
  unfold DeletePolicy, initialized. destruct (objectAPI s); [|done]. case_decide; [done|].
  destruct (store s) as [st|]; [|done]. destruct (deletePolicyDoc name st) as [err st'].
  assert (same_groups s (set_docs (delete name) (set_store st' s))) as Hs
    by (etransitivity; [apply same_store|apply same_docs]).
  cbv zeta. case_match; [done|]. cbn [snd].
  etransitivity; [exact Hs|]. etransitivity; [|apply foldl_same; intros; apply policyDBSet_same].
  apply foldl_same. intros. apply policyDBSet_same.
Qed.

Lemma SetPolicy_same name p s : same_groups s (SetPolicy name p s).2.
Proof.
  apply (keeps_initialized same_groups). unfold keeps. case_match; [done|]. apply keeps_on_store.
  intros s' Hs. cbn [finish snd]. etransitivity; [exact Hs|auto with go].
Qed.
Lemma SetUserStatus_same k st s : same_groups s (SetUserStatus k st s).2.
Proof.
  apply (keeps_initialized same_groups). unfold keeps. case_match; [done|].
  apply (keeps_minio_users same_groups). unfold keeps. do 2 (case_match; try done). apply keeps_on_store.
  intros s' Hs. cbn [finish snd]. etransitivity; [exact Hs|auto with go].
Qed.
Lemma SetUserSecretKey_same k sec s : same_groups s (SetUserSecretKey k sec s).2.
Proof.
  apply (keeps_initialized same_groups). apply (keeps_minio_users same_groups). unfold keeps. case_match; [|done].
  apply keeps_on_store. intros s' Hs. cbn [finish snd]. etransitivity; [exact Hs|auto with go].
Qed.
Lemma SetUser_same k u s : same_groups s (SetUser k u s).2.
Proof.
  apply (keeps_initialized same_groups). apply (keeps_minio_users same_groups). unfold keeps.
  destruct (store s); [|done]. case_match; [done|]. apply keeps_on_store.
  intros s' Hs. cbv zeta. case_decide; cbn [finish snd].
  - etransitivity; [exact Hs|auto with go].
  - etransitivity; [exact Hs|]. etransitivity; [|apply policyDBSet_same]. auto with go.
Qed.
Lemma SetTempUser_same `{!IamEnv} k cred p s : same_groups s (SetTempUser k cred p s).2.
Proof.
  apply (keeps_initialized same_groups). unfold keeps. cbv zeta.
  assert (∀ s', same_groups s' (on_store (saveUserIdentity k true (newUserIdentity cred))
                   (λ s, finish (set_users <[k := cred]> s)) s').2) as Hsave.
  { intros s'. apply keeps_on_store. intros s2 Hs. cbn [finish snd]. etransitivity; [exact Hs|auto with go]. }
  case_match; [done|]. case_match; [|done]. case_match; [cbn; auto with go|]. apply keeps_on_store.
  intros s' Hs. etransitivity; [exact Hs|]. etransitivity; [|apply Hsave]. auto with go.
Qed.
Lemma LoadPolicy_same p s : same_groups s (LoadPolicy p s).2.
Proof.
  apply (keeps_initialized same_groups). unfold keeps. case_match; [|done]. destruct (loadPolicyDoc _ _ _). cbn. auto with go.
Qed.
Lemma LoadPolicyMapping_same p b s : same_groups s (LoadPolicyMapping p b s).2.
Proof.
  apply (keeps_initialized same_groups). unfold keeps. case_match; [|done].
  destruct b; destruct (loadMappedPolicy _ _ _ _ _); cbn; auto with go.
Qed.
Lemma LoadUser_same now k b s : same_groups s (LoadUser now k b s).2.
Proof.
  apply (keeps_initialized same_groups). unfold keeps. case_match; [|done].
  destruct (loadUser _ _ _ _ _) as [[[e|] m] st]; cbn; [auto with go|].
  destruct (loadMappedPolicy _ _ _ _ _). cbn.
  etransitivity; [apply same_users|]. etransitivity; [apply same_store|apply same_user_policy].
Qed.

(** ** Operations on groups *)
Lemma memberships_change s s' (P : bytes -> bytes -> Prop) (add : bool) :
  memberships_ok s ->
  (∀ u g, g ∈ groups_of (iamUserGroupMemberships s') u <->
          if add then g ∈ groups_of (iamUserGroupMemberships s) u \/ P u g
          else g ∈ groups_of (iamUserGroupMemberships s) u /\ ~ P u g) ->
  (∀ u g, (∃ gi, iamGroupsMap s' !! g = Some gi /\ u ∈ gi_Members gi) <->
          if add then (∃ gi, iamGroupsMap s !! g = Some gi /\ u ∈ gi_Members gi) \/ P u g
          else (∃ gi, iamGroupsMap s !! g = Some gi /\ u ∈ gi_Members gi) /\ ~ P u g) ->
  memberships_ok s'.
Proof. intros Hs Hm Hg u g. rewrite Hm, Hg. destruct add; by rewrite (Hs u g). Qed.

Lemma AddUsersToGroup_ok group members s : memberships_ok s -> memberships_ok (AddUsersToGroup group members s).2.
Proof.
  intros Hs. unfold AddUsersToGroup, initialized, minio_users. destruct (objectAPI s); [|done].
  case_decide; [done|]. case_decide; [|done]. destruct (check_members members s); [done|]. cbv zeta.
  set (gi := match iamGroupsMap s !! group with
             | None => newGroupInfo members
             | Some gi => mkGroupInfo (gi_Version gi) (gi_Status gi) (ToSlice (list_to_set (gi_Members gi ++ members)))
             end).
  unfold on_store. destruct (store s) as [st|]; [|done].
  destruct (saveGroupInfo group gi st) as [[e|] st']; cbn [stop finish snd];
    [eapply same_groups_ok; [apply same_store|done]|].
  apply (memberships_change s _ (λ u g, g = group /\ u ∈ members) true); [done|..]; intros u g.
  - destruct s. cbn. apply foldl_add_membership.
  - destruct s as [a t d us gs m up gp sto]. cbn in *. rewrite lookup_insert. case_decide as E; [subst g|naive_solver].
    assert (∀ x, x ∈ gi_Members gi <-> (∃ gi0, gs !! group = Some gi0 /\ x ∈ gi_Members gi0) \/ x ∈ members) as Hm.
    { intros x. unfold gi. destruct (gs !! group) as [gi0|]; cbn.
      - rewrite elem_of_ToSlice, elem_of_list_to_set, elem_of_app. naive_solver.
      - naive_solver. }
    split; [intros (gi' & [= <-] & Hu)|intros Hu; exists gi; split; [done|]]; rewrite ?Hm in *; tauto.
Qed.

Lemma RemoveUsersFromGroup_ok group members s :
  memberships_ok s -> memberships_ok (RemoveUsersFromGroup group members s).2.
Proof.
  intros Hs. unfold RemoveUsersFromGroup, initialized, minio_users.
  destruct (objectAPI s); [|done]. case_decide; [done|]. case_decide; [|done].
  destruct (check_members members s); [done|]. destruct (iamGroupsMap s !! group) as [gi|] eqn:Eg; [|done].
  destruct (bool_decide (members = []) && bool_decide (gi_Members gi <> [])) eqn:Ene; [done|].
  destruct (store s) as [st|] eqn:Est; [|done]. case_decide as Em.
  - assert (gi_Members gi = []) as Hnil.
    { rewrite Em in Ene. simpl in Ene. rewrite bool_decide_eq_false in Ene. by apply dec_stable. }
    destruct (deleteMappedPolicy group false true st) as [err st1]. cbv zeta.
    destruct (ignore_config_not_found err); [eapply same_groups_ok; [apply same_store|done]|].
    unfold on_store. destruct (store (set_store st1 s)) as [st2|]; [|eapply same_groups_ok; [apply same_store|done]].
    destruct (deleteGroupInfo group st2) as [[e|] st3]; cbn [stop finish snd].
    { eapply same_groups_ok; [etransitivity; apply same_store|done]. }
    intros u g. destruct s as [a t d us gs m up gp sto]. cbn in *. rewrite (Hs u g). cbn. split.
    + intros (gi' & Hg & Hu). exists gi'. split; [|done]. rewrite lookup_delete_ne; [done|]. intros <-.
      rewrite Eg in Hg. injection Hg as <-. rewrite Hnil in Hu. by apply elem_of_nil in Hu.
    + intros (gi' & Hg & Hu). apply lookup_delete_Some in Hg as [_ Hg]. by exists gi'.
  - unfold on_store. rewrite Est. set (gi' := mkGroupInfo _ _ _).
    destruct (saveGroupInfo group gi' st) as [[e|] st']; cbn [stop finish snd];
      [eapply same_groups_ok; [apply same_store|done]|].
    apply (memberships_change s _ (λ u g, g = group /\ u ∈ members) false); [done|..]; intros u g.
    + destruct s. cbn. apply foldl_remove_membership.
    + destruct s as [a t d us gs m up gp sto]. cbn in *. rewrite lookup_insert. case_decide as E; [subst g|naive_solver].
      assert (∀ x, x ∈ gi_Members gi' <-> x ∈ gi_Members gi /\ x ∉ members) as Hm.
      { intros x. unfold gi'. cbn. rewrite elem_of_ToSlice, elem_of_difference, !elem_of_list_to_set. done. }
      split.
      * intros (g2 & [= <-] & Hu). apply Hm in Hu as [Hu1 Hu2]. split; [by exists gi|tauto].
      * intros [(g2 & Hg2 & Hu) Hn]. rewrite Eg in Hg2. injection Hg2 as <-. exists gi'. split; [done|].
        apply Hm. split; [done|]. tauto.
Qed.

Lemma SetGroupStatus_ok group b s : memberships_ok s -> memberships_ok (SetGroupStatus group b s).2.
Proof.
  intros Hs. unfold SetGroupStatus, initialized, minio_users. destruct (objectAPI s); [|done].
  destruct (store s) as [st|] eqn:Est; [|done]. case_decide; [|done]. case_decide; [done|].
  destruct (iamGroupsMap s !! group) as [gi|] eqn:Eg; [|done]. unfold on_store. rewrite Est.
  destruct (saveGroupInfo _ _ st) as [[e|] st']; cbn [stop finish snd]; [eapply same_groups_ok; [apply same_store|done]|].
  intros u g. destruct s as [a t d us gs m up gp sto]. cbn in *. rewrite (Hs u g). cbn. rewrite lookup_insert.
  case_decide as E; [subst g; rewrite Eg|done]. split; intros (g2 & [= <-] & Hu); by eexists.
Qed.

Lemma leave_groups_ok gs k s : memberships_ok s -> memberships_ok (leave_groups gs k s).2.
Proof.
  revert s. induction gs as [|g gs IH]; intros s Hs; [done|]. cbn [leave_groups].
  pose proof (RemoveUsersFromGroup_ok g [k] s Hs) as Hr. destruct (RemoveUsersFromGroup g [k] s) as [[e|] s']; [done|].
  by apply IH.
Qed.

Lemma DeleteUser_ok now k s : memberships_ok s -> memberships_ok (DeleteUser now k s).2.
Proof.
  intros Hs. unfold DeleteUser, initialized. destruct (objectAPI s); [|done]. destruct (GetUserInfo now k s); [|done].
  pose proof (leave_groups_ok (uinfo_MemberOf u) k s Hs) as Hl. destruct (leave_groups _ _ s) as [[e|] s']; [done|].
  cbn [snd] in Hl. unfold minio_users. case_decide; [|done]. destruct (store s') as [st|]; [|done].
  destruct (deleteMappedPolicy k false false st) as [e1 st1]. destruct (deleteUserIdentity k false st1) as [e2 st2].
  cbn [snd]. eapply same_groups_ok; [|exact Hl].
  etransitivity; [apply same_store|]. etransitivity; [apply same_users|apply same_user_policy].
Qed.

Lemma LoadGroup_ok group s : memberships_ok s -> memberships_ok (LoadGroup group s).2.
Proof.
  intros Hs. unfold LoadGroup, initialized. destruct (objectAPI s); [|done]. destruct (store s) as [st|]; [|done].
  unfold loadGroup. destruct (st_groups st !! getGroupInfoPath group) as [gi|]; [|done]. cbn [finish snd].
  intros u g. destruct s as [a t d us gs m up gp sto]. cbn in *. rewrite lookup_insert_eq. cbn.
  unfold updateGroupMembershipsMap. rewrite foldl_add_membership, groups_of_remove_group, elem_of_difference,
    elem_of_singleton, lookup_insert.
  pose proof (Hs u g) as Hug. cbn in Hug. rewrite Hug. case_decide as E; [subst g; naive_solver|].
  assert (g <> group) by congruence. naive_solver.
Qed.

Context `{!IamEnv}.

(** One operation of the identity system, whatever its arguments and outcome.
    [loadAll] is not one of them: it does not drop memberships that have ended
    ([stale_membership] in AccessFindings). *)
Inductive iam_step (now : time) (s : IAMSys) : IAMSys -> Prop :=
  | step_SetPolicy n p : iam_step now s (SetPolicy n p s).2
  | step_DeletePolicy n : iam_step now s (DeletePolicy n s).2
  | step_PolicyDBSet n p b : iam_step now s (PolicyDBSet n p b s).2
  | step_SetUser k u : iam_step now s (SetUser k u s).2
  | step_SetUserStatus k st : iam_step now s (SetUserStatus k st s).2
  | step_SetUserSecretKey k sec : iam_step now s (SetUserSecretKey k sec s).2
  | step_SetTempUser k cred p : iam_step now s (SetTempUser k cred p s).2
  | step_DeleteUser k : iam_step now s (DeleteUser now k s).2
  | step_AddUsersToGroup g ms : iam_step now s (AddUsersToGroup g ms s).2
  | step_RemoveUsersFromGroup g ms : iam_step now s (RemoveUsersFromGroup g ms s).2
  | step_SetGroupStatus g b : iam_step now s (SetGroupStatus g b s).2
  | step_LoadGroup g : iam_step now s (LoadGroup g s).2
  | step_LoadPolicy p : iam_step now s (LoadPolicy p s).2
  | step_LoadPolicyMapping n b : iam_step now s (LoadPolicyMapping n b s).2
  | step_LoadUser k b : iam_step now s (LoadUser now k b s).2.

Lemma iam_step_ok now s s' : iam_step now s s' -> memberships_ok s -> memberships_ok s'.
Proof.
  intros Hstep Hs. destruct Hstep;
    first [ by apply AddUsersToGroup_ok | by apply RemoveUsersFromGroup_ok | by apply SetGroupStatus_ok
          | by apply DeleteUser_ok | by apply LoadGroup_ok
          | eapply same_groups_ok; [|exact Hs];
            first [ apply SetPolicy_same | apply DeletePolicy_same | apply SetUser_same | apply SetUserStatus_same
                  | apply SetUserSecretKey_same | apply SetTempUser_same | apply LoadPolicy_same
                  | apply LoadPolicyMapping_same | apply LoadUser_same
                  | apply (keeps_initialized same_groups), policyDBSet_same ] ].
Qed.

(** Operations one after the other, each at its own time. *)
Inductive iam_reachable (s : IAMSys) : IAMSys -> Prop :=
  | reach_here : iam_reachable s s
  | reach_step now s1 s2 : iam_reachable s s1 -> iam_step now s1 s2 -> iam_reachable s s2.

(** ** Decisions *)

(** The statements that count for a user: those of its own policy and of the
    policies of the enabled groups that list it. *)
Definition user_policy_name (s : IAMSys) (u name : bytes) : Prop :=
  name <> [] /\
  (mapped_policy (iamUserPolicyMap s) u = name \/
   ∃ g gi, iamGroupsMap s !! g = Some gi /\ u ∈ gi_Members gi /\ gi_Status gi <> statusDisabled /\
           mapped_policy (iamGroupPolicyMap s) g = name).
Definition user_statement (s : IAMSys) (u : bytes) (st : iam_Statement) : Prop :=
  ∃ name p, user_policy_name s u name /\ iamPolicyDocsMap s !! name = Some p /\ st ∈ ip_Statements p.

Lemma enabled_group_policy_spec s g name :
  enabled_group_policy s g = Some name <->
  name <> [] /\ ∃ gi, iamGroupsMap s !! g = Some gi /\ gi_Status gi <> statusDisabled /\
                      mapped_policy (iamGroupPolicyMap s) g = name.
Proof.
  unfold enabled_group_policy, mapped_policy. destruct (iamGroupsMap s !! g) as [gi|]; [|naive_solver].
  case_decide; [naive_solver|]. destruct (iamGroupPolicyMap s !! g) as [mp|]; [|naive_solver].
  case_decide; naive_solver.
Qed.

Lemma policyDBGet_names s u cred names :
  memberships_ok s -> iamUsersMap s !! u = Some cred -> Status cred <> statusDisabled ->
  policyDBGet u false s = inl names -> ∀ n, n ∈ names <-> user_policy_name s u n.
Proof.
  intros Hs Hu Hst E n. unfold policyDBGet in E. rewrite Hu, decide_False in E by done. injection E as <-.
  unfold user_policy_name. rewrite elem_of_app, list_elem_of_omap.
  assert (n ∈ (if decide (mapped_policy (iamUserPolicyMap s) u = []) then [] else [mapped_policy (iamUserPolicyMap s) u])
          <-> n <> [] /\ mapped_policy (iamUserPolicyMap s) u = n) as ->.
  { case_decide; [rewrite elem_of_nil|rewrite list_elem_of_singleton]; naive_solver. }
  assert ((∃ g, g ∈ member_of s u /\ enabled_group_policy s g = Some n) <->
          n <> [] /\ ∃ g gi, iamGroupsMap s !! g = Some gi /\ u ∈ gi_Members gi /\ gi_Status gi <> statusDisabled /\
           mapped_policy (iamGroupPolicyMap s) g = n) as ->; [|tauto].
  setoid_rewrite enabled_group_policy_spec. unfold member_of. setoid_rewrite elem_of_ToSlice.
  split.
  - intros (g & Hg & Hn & gi & Egi & Hd & Hp). split; [done|]. exists g, gi. split_and!; try done.
    apply (Hs u g) in Hg as (gi' & Egi' & Hm). congruence.
  - intros (Hn & g & gi & Egi & Hm & Hd & Hp). exists g. split; [|split; [done|by exists gi]].
    apply (Hs u g). by exists gi.
Qed.

Lemma decide_by_spec ps args :
  Forall (λ p, Forall (iam_well_posed args) (ip_Statements p)) ps -> ia_IsOwner args = false ->
  ∃ b, decide_by ps args = Some b /\
    (b = true <->
      (∀ p st, p ∈ ps -> st ∈ ip_Statements p -> is_Effect st = Deny -> ~ iam_applies st args) /\
      ∃ p st, p ∈ ps /\ st ∈ ip_Statements p /\ is_Effect st = Allow /\ iam_applies st args).
Proof.
  intros Hp Ho. unfold decide_by, combine. destruct ps as [|p ps].
  { exists false. split; [done|]. split; [done|]. intros (_ & p & st & Hin & _). by apply elem_of_nil in Hin. }
  set (ss := ip_Statements p ++ flat_map ip_Statements ps).
  assert (∀ st, st ∈ ss <-> ∃ q, q ∈ p :: ps /\ st ∈ ip_Statements q) as Hss.
  { intros st. unfold ss. rewrite elem_of_app. split.
    - intros [Hst|Hst]; [exists p; split; [by left|done]|]. apply list_elem_of_In, in_flat_map in Hst as (q & Hq & Hst).
      exists q. split; [right|]; by apply list_elem_of_In.
    - intros (q & [->|Hq]%elem_of_cons & Hst); [by left|]. right. apply list_elem_of_In, in_flat_map. exists q.
      split; by apply list_elem_of_In. }
  destruct (iam_policy_decision (mkIamPolicy (ip_ID p) (ip_Version p) ss) args) as (b & -> & Hb).
  { cbn [ip_Statements]. apply Forall_forall. intros st Hst. apply Hss in Hst as (q & Hq & Hst).
    rewrite Forall_forall in Hp. specialize (Hp q Hq). rewrite Forall_forall in Hp. by apply Hp. }
  exists b. split; [done|]. rewrite Hb. unfold iam_grants. cbn [ip_Statements]. rewrite Ho.
  setoid_rewrite Hss. split.
  - intros [Hd [?|(st & (q & Hq & Hst) & Ha)]]; [done|]. split; [|by exists q, st]. intros q' st' Hq' Hst'. apply Hd. by exists q'.
  - intros [Hd (q & st & Hq & Hst & Ha)]. split; [|right; exists st; split; [by exists q|done]].
    intros st' (q' & Hq' & Hst'). by eapply Hd.
Qed.

Lemma iam_decision_here s args cred :
  memberships_ok s -> objectAPI s = true -> globalPolicyOPA = None -> ia_IsOwner args = false ->
  ia_AccountName args <> [] -> iamUsersMap s !! ia_AccountName args = Some cred -> IsTemp cred = false ->
  (∀ st, user_statement s (ia_AccountName args) st -> iam_well_posed args st) ->
  ∃ b, IAM_IsAllowed args s = Some b /\
    (b = true <->
      Status cred <> statusDisabled /\
      (∀ st, user_statement s (ia_AccountName args) st -> is_Effect st = Deny -> ~ iam_applies st args) /\
      ∃ st, user_statement s (ia_AccountName args) st /\ is_Effect st = Allow /\ iam_applies st args).
Proof.
  intros Hs Hapi Hopa Ho Hn Hu Ht Hw. unfold IAM_IsAllowed, IsTempUser, PolicyDBGet.
  rewrite Hopa, Ho, Hapi, Hu, Ht. cbn [negb]. rewrite decide_False by done.
  destruct (decide (Status cred = statusDisabled)) as [Hd|Hd].
  { unfold policyDBGet. rewrite Hu, decide_True by done. exists false. split; [done|]. naive_solver. }
  destruct (policyDBGet (ia_AccountName args) false s) as [names|e] eqn:E;
    [|unfold policyDBGet in E; rewrite Hu, decide_False in E by done; done].
  pose proof (policyDBGet_names _ _ _ _ Hs Hu Hd E) as Hnames.
  assert (∀ p st, p ∈ docs_of s names /\ st ∈ ip_Statements p -> user_statement s (ia_AccountName args) st) as Hdocs.
  { intros p st [Hp Hst]. unfold docs_of in Hp. apply list_elem_of_omap in Hp as (n & Hin & Hp). exists n, p.
    by rewrite <- Hnames. }
  assert (∀ st, user_statement s (ia_AccountName args) st -> ∃ p, p ∈ docs_of s names /\ st ∈ ip_Statements p) as Hdocs'.
  { intros st (n & p & Hin & Hp & Hst). apply Hnames in Hin. exists p. split; [|done]. unfold docs_of.
    apply list_elem_of_omap. by exists n. }
  destruct (decide_by_spec (docs_of s names) args) as (b & -> & Hb); [|done|].
  { apply Forall_forall. intros p Hp. apply Forall_forall. intros st Hst. apply Hw. by eapply Hdocs. }
  exists b. split; [done|]. rewrite Hb. split.
  - intros [Hno (p & st & Hp & Hst & Ha)]. split; [done|]. split.
    + intros st' Hst'. destruct (Hdocs' _ Hst') as (q & Hq & Hin). by eapply Hno.
    + exists st. split; [by eapply Hdocs|done].
  - intros (_ & Hno & st & Hst & Ha). split.
    + intros p st' Hp Hst'. apply Hno. by eapply Hdocs.
    + destruct (Hdocs' _ Hst) as (q & Hq & Hin). by exists q, st.
Qed.

(** C9. The decision on a long-term user's request, after any operations on users,
    groups and policies: it is allowed exactly when the user is not disabled, no
    Deny statement applies and some Allow statement applies, among the
    statements of the user's own policy and of the policies of the enabled
    groups that list the user as a member. *)
Theorem iam_decision s0 s args cred :
  memberships_ok s0 -> iam_reachable s0 s ->
  objectAPI s = true -> globalPolicyOPA = None -> ia_IsOwner args = false ->
  ia_AccountName args <> [] -> iamUsersMap s !! ia_AccountName args = Some cred -> IsTemp cred = false ->
  (∀ st, user_statement s (ia_AccountName args) st -> iam_well_posed args st) ->
  ∃ b, IAM_IsAllowed args s = Some b /\
    (b = true <->
      Status cred <> statusDisabled /\
      (∀ st, user_statement s (ia_AccountName args) st -> is_Effect st = Deny -> ~ iam_applies st args) /\
      ∃ st, user_statement s (ia_AccountName args) st /\ is_Effect st = Allow /\ iam_applies st args).
Proof.
  intros Hs0 Hr. apply iam_decision_here. induction Hr as [|now s1 s2 Hr IH Hstep]; [done|].
  by eapply iam_step_ok.
Qed.

(** *** Temporary credentials *)

(** The documents together allow a request: no Deny statement in them applies and
    some Allow statement does. *)
Definition allowed_by (D : iam_Policy -> Prop) (args : iam_Args) : Prop :=
  (∀ p st, D p -> st ∈ ip_Statements p -> is_Effect st = Deny -> ~ iam_applies st args) /\
  ∃ p st, D p /\ st ∈ ip_Statements p /\ is_Effect st = Allow /\ iam_applies st args.

(** The documents of a user of LDAP and of the groups that its token names. *)
Definition ldap_document (s : IAMSys) (user : bytes) (groups : list (option bytes)) (p : iam_Policy) : Prop :=
  ∃ mp, iamPolicyDocsMap s !! mp_Policy mp = Some p /\
    (iamUserPolicyMap s !! user = Some mp \/ ∃ g, Some g ∈ groups /\ iamGroupPolicyMap s !! g = Some mp).
(** The document that the server remembers for the credential, and the one of
    its session. *)
Definition role_document (s : IAMSys) (args : iam_Args) (p : iam_Policy) : Prop :=
  ∃ mp, iamUserPolicyMap s !! ia_AccountName args = Some mp /\ iamPolicyDocsMap s !! mp_Policy mp = Some p.
Definition session_document (args : iam_Args) (p : iam_Policy) : Prop :=
  ∃ text, ia_Claims args !! SessionPolicyName = Some (claim_string text) /\ iam_ParseConfig text = Some p.

(** What a temporary credential may do.  The token of a user of LDAP has the rights
    of that user and of its groups; any other token has those of the policy that
    the server remembers for its credential, which has to be the first that the
    token claims, cut down to those of the session's policy, if there is one. *)
Definition sts_allows (s : IAMSys) (args : iam_Args) : Prop :=
  match ia_Claims args !! ldapUser with
  | Some user => ∃ u groups, user = claim_string u /\ ia_Claims args !! ldapGroups = Some (claim_list groups) /\
                   allowed_by (ldap_document s u groups) args
  | None =>
      (∃ name rest mp, GetPolicies args iamPolicyClaimName = Some (name :: rest) /\
         iamUserPolicyMap s !! ia_AccountName args = Some mp /\ mp_Policy mp = name) /\
      allowed_by (role_document s args) args /\
      (is_Some (ia_Claims args !! SessionPolicyName) ->
       (∃ sub, session_document args sub /\ ip_Version sub <> []) /\ allowed_by (session_document args) args)
  end.

(** The conditions of the documents that count can be evaluated. *)
Definition sts_posed (s : IAMSys) (args : iam_Args) : Prop :=
  ∀ p st, (role_document s args p \/ session_document args p \/ ∃ u groups, ldap_document s u groups p) ->
    st ∈ ip_Statements p -> iam_well_posed args st.

Lemma decide_by_allowed ps (D : iam_Policy -> Prop) args :
  (∀ p, p ∈ ps <-> D p) -> (∀ p st, D p -> st ∈ ip_Statements p -> iam_well_posed args st) ->
  ia_IsOwner args = false ->
  ∃ b, decide_by ps args = Some b /\ (b = true <-> allowed_by D args).
Proof.
  intros HD Hp Ho. destruct (decide_by_spec ps args) as (b & Hb & Hi); [|done|].
  { apply Forall_forall. intros p Hin. apply Forall_forall. intros st. apply Hp. by apply HD. }
  exists b. split; [done|]. rewrite Hi. unfold allowed_by. by setoid_rewrite HD.
Qed.

Lemma policy_allowed (D : iam_Policy -> Prop) p args :
  (∀ q, q = p <-> D q) -> (∀ q st, D q -> st ∈ ip_Statements q -> iam_well_posed args st) ->
  ia_IsOwner args = false ->
  ∃ b, iam_Policy_IsAllowed p args = Some b /\ (b = true <-> allowed_by D args).
Proof.
  intros HD Hp Ho. destruct (decide_by_allowed [p] D args) as (b & Hb & Hi); [|done|done|].
  { intros q. by rewrite list_elem_of_singleton. }
  exists b. split; [|done]. unfold decide_by, combine in Hb. cbn [flat_map] in Hb. rewrite app_nil_r in Hb. by destruct p.
Qed.

Lemma ldap_decision s args user :
  sts_posed s args -> ia_IsOwner args = false -> ia_Claims args !! ldapUser = Some user ->
  ∃ b, IsAllowedLDAP user args s = Some b /\ (b = true <-> sts_allows s args).
Proof.
  intros Hp Ho Hu. unfold IsAllowedLDAP, sts_allows. rewrite Hu.
  destruct user as [u| | | |]; try (exists false; naive_solver).
  destruct (ia_Claims args !! ldapGroups) as [[| |groups| |]|]; try (exists false; naive_solver).
  set (names := _ ++ _). destruct (decide_by_allowed (docs_of s names) (ldap_document s u groups) args) as (b & Hb & Hi);
    [| |done|exists b; split; [done|]; rewrite Hi; naive_solver].
  - intros p. unfold docs_of, names, ldap_document. rewrite list_elem_of_omap. setoid_rewrite elem_of_app.
    split.
    + intros (n & [Hn|(g & Hg & Hn)%list_elem_of_omap] & Hd).
      * destruct (iamUserPolicyMap s !! u) as [mp|]; [|by apply elem_of_nil in Hn].
        apply list_elem_of_singleton in Hn as ->. exists mp. auto.
      * apply fmap_Some in Hn as (mp & Hmp & ->). exists mp. split; [done|]. right. exists g. split; [|done].
        apply list_elem_of_omap in Hg as (o & Hin & Ho'). unfold id in Ho'. by subst o.
    + intros (mp & Hd & [Hm|(g & Hg & Hm)]); exists (mp_Policy mp); (split; [|done]).
      * left. rewrite Hm. set_solver.
      * right. apply list_elem_of_omap. exists g. split; [apply list_elem_of_omap; by exists (Some g)|]. by rewrite Hm.
  - intros p st Hd. apply Hp. right. right. by exists u, groups.
Qed.

Lemma sts_decision s args :
  sts_posed s args -> ia_IsOwner args = false ->
  ∃ b, IsAllowedSTS args s = Some b /\ (b = true <-> sts_allows s args).
Proof.
  intros Hp Ho. unfold IsAllowedSTS. destruct (ia_Claims args !! ldapUser) as [user|] eqn:El; [by apply ldap_decision|].
  unfold sts_allows. rewrite El.
  destruct (GetPolicies args iamPolicyClaimName) as [[|pname rest]|]; try (exists false; naive_solver).
  destruct (iamUserPolicyMap s !! ia_AccountName args) as [mp|] eqn:Em; [|exists false; naive_solver].
  case_decide as Hn; [exists false; naive_solver|]. subst pname. cbv zeta.
  assert (∃ t, match iamPolicyDocsMap s !! mp_Policy mp with Some p => iam_Policy_IsAllowed p args | None => Some false end = Some t
            /\ (t = true <-> allowed_by (role_document s args) args)) as (t & -> & Ht).
  { destruct (iamPolicyDocsMap s !! mp_Policy mp) as [p|] eqn:Ed.
    - apply policy_allowed; [unfold role_document; naive_solver|intros q st Hq; apply Hp; by left|done].
    - exists false. split; [done|]. split; [done|]. intros (_ & q & st & (mp' & Hm' & Hd) & _). congruence. }
  assert (∃ name rest0 mp0, Some (mp_Policy mp :: rest) = Some (name :: rest0) /\ Some mp = Some mp0 /\ mp_Policy mp0 = name)
    as Hname by eauto 10.
  destruct (ia_Claims args !! SessionPolicyName) as [c|] eqn:Ec.
  2: { exists t. split; [done|]. rewrite Ht. split; [|naive_solver]. intros Ha. split; [done|]. split; [done|]. by intros []. }
  destruct c as [text| | | |]; try (exists false; split; [done|]; split; [done|];
    intros (_ & _ & Hs); destruct (Hs ltac:(eauto)) as [(sub & (text & Ht' & _) & _) _]; congruence).
  assert (∀ sub, iam_ParseConfig text = Some sub <-> session_document args sub) as Hsub.
  { intros sub. unfold session_document. rewrite Ec. naive_solver. }
  destruct (iam_ParseConfig text) as [sub|] eqn:Es.
  2: { exists false. split; [done|]. split; [done|]. intros (_ & _ & Hs).
       destruct (Hs ltac:(eauto)) as [(sub & Hd%Hsub & _) _]. done. }
  case_decide as Hv.
  { exists false. split; [done|]. split; [done|]. intros (_ & _ & Hs).
    destruct (Hs ltac:(eauto)) as [(sub' & Hd%Hsub & Hv') _]. congruence. }
  destruct (policy_allowed (session_document args) sub args) as (b & Hb & Hi);
    [intros q; rewrite <- Hsub; naive_solver|intros q st Hq; apply Hp; by right; left|done|].
  exists (t && b). split; [destruct t; [exact Hb|done]|]. rewrite andb_true_iff, Ht, Hi. split.
  - intros [H5 H6]. split; [done|]. split; [done|]. intros _. split; [|done]. exists sub. by rewrite <- Hsub.
  - intros (_ & H5 & H6). split; [done|]. apply H6. eauto.
Qed.

(** C22. What a temporary credential may do, decided by [IsAllowed] on every
    branch: the token of a user of LDAP exactly what the documents of the user and
    of the groups it names allow together; any other token exactly what both the
    policy that the server remembers for the credential, and that the token claims
    first, and the policy of the session, if the token has one, allow.  So a
    session policy takes rights away and never adds any; with LDAP it is not
    looked at. *)
Theorem session_decision s args cred :
  objectAPI s = true -> globalPolicyOPA = None -> ia_IsOwner args = false ->
  iamUsersMap s !! ia_AccountName args = Some cred -> IsTemp cred = true -> sts_posed s args ->
  ∃ b, IAM_IsAllowed args s = Some b /\ (b = true <-> sts_allows s args).
Proof.
  intros Hapi Hopa Ho Hu Ht Hp. unfold IAM_IsAllowed, IsTempUser. rewrite Hopa, Ho, Hapi, Hu, Ht. cbn [negb].
  by apply sts_decision.
Qed.
End spec.

(** ** A small system *)
Module IamScenario.
#[export] Existing Instance PolicyScenario.env.
#[export] Instance ref_set : StringSetEnv := {| ToSlice := elements; ToSlice_perm s := reflexivity _ |}.
#[export] Instance ref_iam : IamEnv := {|
  globalPolicyOPA := None; iamPolicyClaimName := str "policy";
  iam_ParseConfig text := if decide (text = str "read") then Some ReadOnly else None |}.

Definition now : time := 1.
Definition no_files : IAMObjectStore := mkStore ∅ ∅ ∅ ∅ (λ _, None) (ObjectNotFound [] []).
(** After the first load of an empty store. *)
Definition fresh : IAMSys :=
  mkIAMSys true MinIOUsersSysType (setDefaultCannedPolicies ∅) ∅ ∅ ∅ ∅ ∅ (Some no_files).
Definition ann : bytes := str "annie".
Definition bob : bytes := str "bobby".
Definition add_ann (s : IAMSys) : IAMSys := (SetUser ann (mkUserInfo (str "secret-of-ann") [] AccountEnabled []) s).2.
Definition add_bob (s : IAMSys) : IAMSys := (SetUser bob (mkUserInfo (str "secret-of-bob") [] AccountEnabled []) s).2.
Definition readers (s : IAMSys) : IAMSys := (AddUsersToGroup (str "readers") [ann] s).2.
Definition readable (s : IAMSys) : IAMSys := (PolicyDBSet (str "readers") (str "readonly") true s).2.
Definition system : IAMSys := readable (readers (add_bob (add_ann fresh))).

Definition asks (u action : bytes) (claims : claims_map) : iam_Args :=
  mkIamArgs u action (str "docs") ∅ false (str "letter") claims.

Example ann_reads : IAM_IsAllowed (asks ann GetObjectAction ∅) system = Some true.
Proof. vm_compute. reflexivity. Qed.
Example ann_does_not_write : IAM_IsAllowed (asks ann PutObjectAction ∅) system = Some false.
Proof. vm_compute. reflexivity. Qed.
Example bob_does_not_read : IAM_IsAllowed (asks bob GetObjectAction ∅) system = Some false.
Proof. vm_compute. reflexivity. Qed.
Example disabled_group :
  IAM_IsAllowed (asks ann GetObjectAction ∅) (SetGroupStatus (str "readers") false system).2 = Some false.
Proof. vm_compute. reflexivity. Qed.

Lemma fresh_ok : memberships_ok fresh.
Proof.
  intros u g. unfold groups_of. cbn. rewrite lookup_empty. cbn. split; [set_solver|].
  intros (gi & Hg & _). by rewrite lookup_empty in Hg.
Qed.
Lemma system_reachable : iam_reachable fresh system.
Proof.
  unfold system. eapply (reach_step _ now), step_PolicyDBSet. eapply (reach_step _ now), step_AddUsersToGroup.
  eapply (reach_step _ now), step_SetUser. eapply (reach_step _ now), step_SetUser. apply reach_here.
Qed.

Lemma canned_no_conditions :
  forallb (λ e : bytes * iam_Policy, forallb (λ st, bool_decide (length (is_Conditions st) = 0%nat)) (ip_Statements e.2))
    (map_to_list (iamPolicyDocsMap system)) = true.
Proof. vm_compute. reflexivity. Qed.

Lemma system_posed u action claims st : user_statement system u st -> iam_well_posed (asks u action claims) st.
Proof.
  intros (n & p & _ & Hp & Hst). pose proof canned_no_conditions as Hc. rewrite forallb_forall in Hc.
  apply elem_of_map_to_list, list_elem_of_In, Hc in Hp. rewrite forallb_forall in Hp.
  apply list_elem_of_In, Hp in Hst. apply bool_decide_eq_true, nil_length_inv in Hst. split.
  - intros k l. cbn. by rewrite lookup_empty.
  - by rewrite Hst.
Qed.

(** A temporary credential of the policy "readwrite" with a session policy. *)
Definition token : claims_map :=
  <[str "policy" := claim_string (str "readwrite")]> {[ SessionPolicyName := claim_string (str "read") ]}.
Definition temp : IAMSys :=
  (SetTempUser (str "temporary") (mkCredentials (str "temporary") (str "secret-of-temp") 100 (str "token") (str "on"))
     (str "readwrite") fresh).2.
Example session_reads : IAM_IsAllowed (asks (str "temporary") GetObjectAction token) temp = Some true.
Proof. vm_compute. reflexivity. Qed.
Example session_does_not_write : IAM_IsAllowed (asks (str "temporary") PutObjectAction token) temp = Some false.
Proof. vm_compute. reflexivity. Qed.

Lemma temp_no_conditions :
  forallb (λ e : bytes * iam_Policy, forallb (λ st, bool_decide (length (is_Conditions st) = 0%nat)) (ip_Statements e.2))
    (map_to_list (iamPolicyDocsMap temp)) = true /\
  forallb (λ st, bool_decide (length (is_Conditions st) = 0%nat)) (ip_Statements ReadOnly) = true.
Proof. split; vm_compute; reflexivity. Qed.

Lemma temp_posed action claims : sts_posed temp (asks (str "temporary") action claims).
Proof.
  destruct temp_no_conditions as [Hdocs Hread]. rewrite forallb_forall in Hdocs.
  assert (∀ n p, iamPolicyDocsMap temp !! n = Some p ->
    forallb (λ st, bool_decide (length (is_Conditions st) = 0%nat)) (ip_Statements p) = true) as Hd.
  { intros n p Hp. by apply elem_of_map_to_list, list_elem_of_In, Hdocs in Hp. }
  intros p st Hp Hst.
  assert (forallb (λ st, bool_decide (length (is_Conditions st) = 0%nat)) (ip_Statements p) = true) as Hf.
  { destruct Hp as [(mp & _ & Hp)|[(text & _ & Hp)|(u & groups & mp & Hp & _)]]; [by eapply Hd| |by eapply Hd].
    cbn in Hp. case_decide; [by injection Hp as <-|done]. }
  rewrite forallb_forall in Hf. apply list_elem_of_In, Hf, bool_decide_eq_true, nil_length_inv in Hst. split.
  - intros k l. cbn. by rewrite lookup_empty.
  - by rewrite Hst.
Qed.
End IamScenario.
Import IamScenario.

Lemma iam_decision_witness :
  ∃ b, IAM_IsAllowed (asks ann GetObjectAction ∅) system = Some b /\
    (b = true -> ∃ st, user_statement system ann st /\ is_Effect st = Allow /\
                       iam_applies st (asks ann GetObjectAction ∅)).
Proof.
  destruct (iam_decision fresh system (asks ann GetObjectAction ∅)
              (mkCredentials ann (str "secret-of-ann") zeroTime [] AccountEnabled)) as (b & Hb & Hiff).
  - exact fresh_ok.
  - exact system_reachable.
  - reflexivity.
  - reflexivity.
  - reflexivity.
  - discriminate.
  - vm_compute. reflexivity.
  - reflexivity.
  - exact (system_posed ann GetObjectAction ∅).
  - exists b. split; [exact Hb|]. intros Ht. apply (proj1 Hiff Ht).
Defined.

Lemma session_decision_witness :
  ∃ b, IAM_IsAllowed (asks (str "temporary") GetObjectAction token) temp = Some b /\
    (b = true <-> sts_allows temp (asks (str "temporary") GetObjectAction token)).
Proof.
  apply (session_decision temp (asks (str "temporary") GetObjectAction token)
           (mkCredentials (str "temporary") (str "secret-of-temp") 100 (str "token") (str "on"))).
  - reflexivity.
  - reflexivity.
  - reflexivity.
  - vm_compute. reflexivity.
  - vm_compute. reflexivity.
  - exact (temp_posed GetObjectAction token).
Defined.
