(* ===== verification/AuthHeader.v ===== *)
(** * The access key of an Authorization header

    [parseSignV4], which verifies a header, and [getReqAccessKeyV4], which says
    whose request it is, cut the header in different ways: one splits at the
    commas and then strips the algorithm, the other the other way round, and each
    trims spaces in between.  They find the same credential. *)
From S2P Require Import Prelude GoLib GoText Errors APIErrors Metadata GoTime Credentials Bufio Streaming SignV4 SignV4Parse.

(** ** Trimming *)
Definition trim (sps : list bytes) (s : bytes) : bytes := utf8.trim_left (length s) sps s.
Definition leading : list bytes := utf8.space_encodings.
Definition trailing : list bytes := reverse <$> utf8.space_encodings.
Definition trim_right (s : bytes) : bytes := reverse (trim trailing (reverse s)).

Lemma TrimSpace_trims s : utf8.TrimSpace s = trim_right (trim leading s).
Proof. unfold utf8.TrimSpace, trim_right, trim, leading, trailing. by rewrite length_reverse. Qed.

Definition nonempty (sps : list bytes) : Prop := Forall (λ sp, sp <> []) sps.
Lemma nonempty_leading : nonempty leading.
Proof. apply (bool_decide_eq_true_1 _). reflexivity. Qed.
Lemma nonempty_trailing : nonempty trailing.
Proof. apply (bool_decide_eq_true_1 _). reflexivity. Qed.

Lemma trim_one_Some sps s s' : utf8.trim_one sps s = Some s' -> ∃ sp, sp ∈ sps /\ s = sp ++ s'.
Proof.
  induction sps as [|sp sps IH]; [done|]. cbn. destruct (HasPrefix s sp) eqn:E.
  - intros [= <-]. exists sp. split; [left|]. apply HasPrefix_spec in E as [k ->]. by rewrite drop_app_length.
  - intros (sp' & ? & ?)%IH. exists sp'. split; [by right|done].
Qed.
Lemma trim_one_None sps s sp : utf8.trim_one sps s = None -> sp ∈ sps -> HasPrefix s sp = false.
Proof.
  induction sps as [|x sps IH]; [by intros _ ?%elem_of_nil|]. cbn. destruct (HasPrefix s x) eqn:E; [done|].
  intros H [->|Hs]%elem_of_cons; [done|by apply IH].
Qed.
Lemma trim_one_none sps s : (∀ sp, sp ∈ sps -> HasPrefix s sp = false) -> utf8.trim_one sps s = None.
Proof.
  induction sps as [|x sps IH]; [done|]. intros H. cbn. rewrite (H x) by left. apply IH. intros. apply H. by right.
Qed.

Lemma trim_one_shorter sps s s' : nonempty sps -> utf8.trim_one sps s = Some s' -> (length s' < length s)%nat.
Proof.
  intros Hn (sp & Hs & ->)%trim_one_Some. eapply Forall_forall in Hn; [|exact Hs].
  rewrite length_app. destruct sp; [done|cbn; lia].
Qed.

(** More rounds change nothing. *)
Lemma trim_enough sps f s : nonempty sps -> (length s <= f)%nat -> utf8.trim_left f sps s = trim sps s.
Proof.
  intros Hn. unfold trim. enough (∀ f g s, (length s <= f)%nat -> (length s <= g)%nat ->
    utf8.trim_left f sps s = utf8.trim_left g sps s) as H by (intros; by apply H).
  clear f s. induction f as [|f IH]; intros [|g] s Hf Hg; cbn; [done| | |].
  - destruct s; [|cbn in Hf; lia]. destruct (utf8.trim_one sps []) eqn:E; [|done].
    apply trim_one_shorter in E; [cbn in E; lia|done].
  - destruct s; [|cbn in Hg; lia]. destruct (utf8.trim_one sps []) eqn:E; [|done].
    apply trim_one_shorter in E; [cbn in E; lia|done].
  - destruct (utf8.trim_one sps s) eqn:E; [|done]. apply trim_one_shorter in E; [|done]. apply IH; lia.
Qed.

Lemma trim_step sps s :
  nonempty sps -> trim sps s = match utf8.trim_one sps s with Some s' => trim sps s' | None => s end.
Proof.
  intros Hn. rewrite <- (trim_enough sps (S (length s))) by (done || lia). cbn.
  destruct (utf8.trim_one sps s) as [s'|] eqn:E; [|done]. apply trim_one_shorter in E; [|done].
  apply trim_enough; [done|lia].
Qed.

(** Induction on the rounds of a trim. *)
Lemma trim_ind sps (P : bytes -> Prop) :
  nonempty sps -> (∀ s, utf8.trim_one sps s = None -> P s) ->
  (∀ sp s, sp ∈ sps -> utf8.trim_one sps (sp ++ s) = Some s -> P s -> P (sp ++ s)) -> ∀ s, P s.
Proof.
  intros Hn H0 H1 s. induction s as [s IH] using (induction_ltof1 _ length).
  destruct (utf8.trim_one sps s) as [s'|] eqn:E; [|by apply H0].
  destruct (trim_one_Some _ _ _ E) as (sp & Hs & ->). apply H1; [done|done|]. apply IH. by eapply trim_one_shorter.
Qed.

Lemma trim_done sps s : nonempty sps -> utf8.trim_one sps (trim sps s) = None.
Proof.
  intros Hn. revert s. refine (trim_ind sps _ Hn _ _); intros; rewrite trim_step by done.
  - by rewrite H.
  - by rewrite H0.
Qed.
Lemma trim_suffix sps s : nonempty sps -> ∃ k, s = k ++ trim sps s /\ Forall (λ c, ∃ sp, sp ∈ sps /\ c ∈ sp) k.
Proof.
  intros Hn. revert s. refine (trim_ind sps _ Hn _ _).
  - intros s E. exists []. rewrite trim_step, E by done. by split; [|constructor].
  - intros sp s Hs E (k & Hk & Hc). exists (sp ++ k). rewrite trim_step, E by done. split.
    + by rewrite <- (assoc_L (++)), <- Hk.
    + apply Forall_app. split; [|done]. apply Forall_forall. eauto.
Qed.

(** Bytes that follow what is trimmed matter only if an encoding can begin in
    front of them and end among them. *)
Definition apart (sps : list bytes) (e : bytes) : Prop :=
  Forall (λ sp, Forall (λ k, HasPrefix e (drop k sp) = false) (seq 1 (length sp - 1))) sps.
Lemma trim_one_app sps s e :
  apart sps e -> s <> [] -> utf8.trim_one sps (s ++ e) = (λ x, x ++ e) <$> utf8.trim_one sps s.
Proof.
  intros Ha Hs. induction Ha as [|sp sps Hsp _ IH]; [done|]. cbn.
  destruct (HasPrefix s sp) eqn:E.
  - apply HasPrefix_spec in E as [k ->]. rewrite <- (assoc_L (++)), HasPrefix_app, !drop_app_length. done.
  - destruct (HasPrefix (s ++ e) sp) eqn:E'; [|done]. exfalso. apply HasPrefix_spec in E'.
    destruct (prefix_weak_total sp s (s ++ e) E' ltac:(by apply prefix_app_r)) as [E2|[u ->]].
    { apply HasPrefix_spec in E2. congruence. }
    apply prefix_app_inv in E' as Hu.
    assert (u <> []) by (intros ->; rewrite app_nil_r in E; pose proof (HasPrefix_app s []) as H'; rewrite app_nil_r in H'; congruence).
    rewrite Forall_forall in Hsp. specialize (Hsp (length s)). rewrite drop_app_length in Hsp.
    rewrite elem_of_seq, length_app in Hsp. destruct s, u; [done..|]. cbn in Hsp.
    pose proof (Hsp ltac:(lia)) as Hc. apply HasPrefix_spec in Hu. congruence.
Qed.

Lemma trim_app sps s e : nonempty sps -> apart sps e -> trim sps s <> [] -> trim sps (s ++ e) = trim sps s ++ e.
Proof.
  intros Hn Ha. revert s. refine (trim_ind sps _ Hn _ _).
  - intros s E. rewrite (trim_step sps s), E by done. intros Hs. rewrite trim_step by done. by rewrite trim_one_app, E.
  - intros sp s Hsp E IH. rewrite (trim_step sps (sp ++ s)), E by done. intros Hs. rewrite <- IH by done.
    rewrite trim_step by done. rewrite trim_one_app, E; [done|done|]. eapply Forall_forall in Hn; [|exact Hsp]. by destruct sp.
Qed.

(** ** The first field of a header *)
Definition first_field (s : bytes) : bytes := default [] (head (strings.Split s ","%char)).

Lemma first_field_app e s : ","%char ∉ e -> first_field (e ++ s) = e ++ first_field s.
Proof.
  unfold first_field. induction e as [|c e IH]; [done|]. intros [Hc He]%not_elem_of_cons. cbn.
  rewrite decide_False by done. specialize (IH He).
  destruct (strings.Split (e ++ s) ","%char) eqn:E; [by apply strings.Split_nonempty in E|]. cbn in *. by rewrite IH.
Qed.

Lemma leading_no_comma : Forall (λ sp, ","%char ∉ sp) leading.
Proof. apply (bool_decide_eq_true_1 _). reflexivity. Qed.
Lemma trailing_no_comma : Forall (λ sp, ","%char ∉ sp) trailing.
Proof. apply (bool_decide_eq_true_1 _). reflexivity. Qed.

Lemma leading_one sp s : sp ∈ leading -> utf8.trim_one leading (sp ++ s) = Some s.
Proof.
  intros H. assert (Forall (λ sp, ∀ s, utf8.trim_one leading (sp ++ s) = Some s) leading) as Hall.
  { unfold leading, utf8.space_encodings. cbn. repeat constructor; intros x; reflexivity. }
  rewrite Forall_forall in Hall. by apply Hall.
Qed.
Lemma trim_leading sp s : sp ∈ leading -> trim leading (sp ++ s) = trim leading s.
Proof. intros H. by rewrite trim_step, leading_one by (done || apply nonempty_leading). Qed.

Lemma apart_leading sp : sp ∈ leading -> apart trailing (reverse sp).
Proof.
  assert (Forall (λ sp, apart trailing (reverse sp)) leading) as H.
  { apply (bool_decide_eq_true_1 (Forall _ _)). vm_compute. reflexivity. }
  rewrite Forall_forall in H. apply H.
Qed.
Lemma apart_algorithm : apart trailing (reverse signV4Algorithm).
Proof. apply (bool_decide_eq_true_1 (Forall _ _)). vm_compute. reflexivity. Qed.

Lemma trim_right_app e s : apart trailing (reverse e) -> trim_right s <> [] -> trim_right (e ++ s) = e ++ trim_right s.
Proof.
  unfold trim_right. intros Ha Hs. rewrite reverse_app, trim_app, reverse_app, reverse_involutive; try done.
  - apply nonempty_trailing.
  - intros E. by rewrite E in Hs.
Qed.

(** Trimming keeps the commas. *)
Lemma comma_trim_right s : ","%char ∈ s <-> ","%char ∈ trim_right s.
Proof.
  unfold trim_right. rewrite elem_of_reverse.
  assert (","%char ∈ s <-> ","%char ∈ reverse s) as -> by (by rewrite elem_of_reverse).
  destruct (trim_suffix trailing (reverse s) nonempty_trailing) as (k & E & Hk).
  rewrite E at 1. rewrite elem_of_app. split; [|by right]. intros [H|H]; [|done]. exfalso.
  rewrite Forall_forall in Hk. destruct (Hk _ H) as (sp & Hs & Hc). pose proof trailing_no_comma as Hn.
  rewrite Forall_forall in Hn. by apply (Hn sp).
Qed.
Lemma comma_nonempty s : ","%char ∈ s -> trim_right s <> [].
Proof. intros H E. apply comma_trim_right in H. rewrite E in H. by apply elem_of_nil in H. Qed.

(** Trimming the left of the whole, or only of its first field. *)
Lemma first_field_trimmed s :
  ","%char ∈ trim leading s ->
  utf8.TrimSpace (first_field (trim_right s)) = utf8.TrimSpace (first_field (trim_right (trim leading s))).
Proof.
  revert s. refine (trim_ind leading _ nonempty_leading _ _).
  - intros s E. by rewrite trim_step, E by apply nonempty_leading.
  - intros sp s Hsp E IH. rewrite trim_leading by done. intros Hc. rewrite <- IH by done.
    assert (","%char ∈ s) as Hs.
    { destruct (trim_suffix leading s nonempty_leading) as (k & -> & _). rewrite elem_of_app. by right. }
    rewrite trim_right_app by (by apply apart_leading || apply comma_nonempty).
    pose proof leading_no_comma as Hn. rewrite Forall_forall in Hn.
    by rewrite first_field_app, !TrimSpace_trims, trim_leading by auto.
Qed.

Lemma TrimSpace_twice s : utf8.TrimSpace (utf8.TrimSpace s) = utf8.TrimSpace s.
Proof.
  rewrite (TrimSpace_trims s). set (l := trim leading s). rewrite TrimSpace_trims.
  assert (trim leading (trim_right l) = trim_right l) as ->.
  { rewrite trim_step by apply nonempty_leading.
    rewrite (trim_one_none leading); [done|]. intros sp Hsp. destruct (HasPrefix _ sp) eqn:E; [|done]. exfalso.
    pose proof (trim_done leading s nonempty_leading) as Hd. fold l in Hd.
    pose proof (trim_one_None _ _ _ Hd Hsp) as Hf. apply HasPrefix_spec in E.
    destruct (trim_suffix trailing (reverse l) nonempty_trailing) as (k & Ek & _).
    apply (f_equal reverse) in Ek. rewrite reverse_involutive, reverse_app in Ek.
    assert (HasPrefix l sp = true) by (apply HasPrefix_spec; rewrite Ek; by apply prefix_app_r). congruence. }
  unfold trim_right at 1. unfold trim_right at 1. rewrite reverse_involutive, trim_step by apply nonempty_trailing.
  by rewrite trim_done by apply nonempty_trailing.
Qed.

Lemma parseCredentialHeader_trimmed s region stype :
  parseCredentialHeader (utf8.TrimSpace s) region stype = parseCredentialHeader s region stype.
Proof. unfold parseCredentialHeader. by rewrite TrimSpace_twice. Qed.
Lemma parseCredentialHeader_same s1 s2 region stype :
  utf8.TrimSpace s1 = utf8.TrimSpace s2 -> parseCredentialHeader s1 region stype = parseCredentialHeader s2 region stype.
Proof. unfold parseCredentialHeader. by intros ->. Qed.

(** ** The two ways to the credential *)
Lemma header_credential v4Auth region stype :
  HasPrefix v4Auth signV4Algorithm = true ->
  (2 <= length (strings.Split (utf8.TrimSpace (TrimPrefix v4Auth signV4Algorithm)) ","%char))%nat ->
  parseCredentialHeader (first_field (utf8.TrimSpace (TrimPrefix v4Auth signV4Algorithm))) region stype =
  parseCredentialHeader (utf8.TrimSpace (TrimPrefix (first_field (utf8.TrimSpace v4Auth)) signV4Algorithm)) region stype.
Proof.
  intros [rest ->]%HasPrefix_spec. rewrite parseCredentialHeader_trimmed.
  assert (TrimPrefix (signV4Algorithm ++ rest) signV4Algorithm = rest) as ->
    by (unfold TrimPrefix; by rewrite HasPrefix_app, drop_app_length).
  rewrite !TrimSpace_trims. intros Hl.
  assert (","%char ∈ trim leading rest) as Hc.
  { apply comma_trim_right, dec_stable. intros Hn. rewrite strings.Split_no_sep in Hl by done. cbn in Hl. lia. }
  assert (trim leading (signV4Algorithm ++ rest) = signV4Algorithm ++ rest) as -> by reflexivity.
  assert (","%char ∈ rest) as Hr.
  { destruct (trim_suffix leading rest nonempty_leading) as (k & -> & _). rewrite elem_of_app. by right. }
  rewrite trim_right_app by (apply apart_algorithm || by apply comma_nonempty).
  rewrite first_field_app by (apply (bool_decide_eq_true_1 _); reflexivity).
  assert (∀ x, TrimPrefix (signV4Algorithm ++ x) signV4Algorithm = x) as ->
    by (intros; unfold TrimPrefix; by rewrite HasPrefix_app, drop_app_length).
  apply parseCredentialHeader_same. symmetry. by apply first_field_trimmed.
Qed.
