(* ===== verification/SignV2.v ===== *)
(** * cmd/signature-v2.go: AWS signature version 2

    Signatures in the Authorization header, in the query of presigned requests
    and in forms; [getResource] of cmd/handler-utils.go, which names the
    resource of a virtual-host-style request.  HMAC-SHA1 is an interface. *)
From S2P Require Import Prelude GoLib GoText Base64 Errors APIErrors Metadata GoTime NsLock Credentials Bufio Streaming SignV4.
Import strconv.

(** [net.SplitHostPort]. *)
Definition SplitHostPort (hostport : bytes) : option (bytes * bytes) :=
  i ← strings.LastIndex hostport ":"%char;
  '(host, j, k) ←
    match hostport with
    | "["%char :: _ =>
        e ← strings.Index hostport "]"%char;
        if decide (S e = i) then Some (take (e - 1) (drop 1 hostport), 1%nat, S e) else None
    | _ =>
        let host := take i hostport in
        if decide (":"%char ∈ host) then None else Some (host, 0%nat, 0%nat)
    end;
  if decide ("["%char ∈ drop j hostport) then None
  else if decide ("]"%char ∈ drop k hostport) then None
  else Some (host, drop (S i) hostport).

Example SplitHostPort_ex :
  SplitHostPort (str "b.example.com:9000") = Some (str "b.example.com", str "9000") /\
  SplitHostPort (str "[::1]:9000") = Some (str "::1", str "9000") /\
  SplitHostPort (str "::1:9000") = None /\ SplitHostPort (str "b") = None.
Proof. vm_compute. auto. Qed.

(** handler-utils.go: [None] is an error of [SplitHostPort]. *)
Fixpoint domain_resource (path host : bytes) (domains : list bytes) : bytes :=
  match domains with
  | [] => path
  | domain :: domains' =>
      if HasSuffix host ("."%char :: domain)
      then str "/" ++ pathJoin [TrimSuffix host ("."%char :: domain); path]
      else domain_resource path host domains'
  end.
Definition getResource (path host : bytes) (domains : list bytes) : option bytes :=
  if decide (domains = []) then Some path
  else
    host ← (if strings.Contains host (str ":") then fst <$> SplitHostPort host else Some host);
    Some (domain_resource path host domains).

Definition signV2Algorithm : bytes := str "AWS".
Definition AmzSignatureV2 : bytes := str "Signature".
Definition Expires : bytes := str "Expires".
Definition ContentMD5 : bytes := str "Content-Md5".

Definition resourceList : list bytes :=
  str <$> ["acl"; "delete"; "lifecycle"; "location"; "logging"; "notification"; "partNumber"; "policy";
           "requestPayment"; "response-cache-control"; "response-content-disposition";
           "response-content-encoding"; "response-content-language"; "response-content-type";
           "response-expires"; "torrent"; "uploadId"; "uploads"; "versionId"; "versioning"; "versions";
           "website"]%string.

Definition unescapeQueries (encodedQuery : bytes) : option (list bytes) :=
  mapM QueryUnescape (strings.Split encodedQuery "&"%char).

(** The two decoders accept line breaks and unused bits, so several strings
    stand for one signature. *)
Definition compareSignatureV2 (sig1 sig2 : bytes) : bool :=
  match base64.DecodeString false sig1, base64.DecodeString false sig2 with
  | Some s1, Some s2 => bool_decide (s1 = s2)
  | _, _ => false
  end.

(** The names and values of a query, the last value of a name. *)
Definition query_keyval (queries : list bytes) : gmap bytes bytes :=
  foldl (λ m query, match SplitN2 query "="%char with
                    | [key; val] => <[key := val]> m
                    | _ => <[query := []]> m
                    end) ∅ queries.
Definition canonicalizedResourceV2 (encodedResource encodedQuery : bytes) : bytes :=
  let keyval := query_keyval (strings.Split encodedQuery "&"%char) in
  let canonicalQueries :=
    omap (λ key, val ← keyval !! key; Some (if decide (val = []) then key else key ++ "="%char :: val)) resourceList in
  let canonicalQuery := strings.Join canonicalQueries (str "&") in
  if decide (canonicalQuery <> []) then encodedResource ++ "?"%char :: canonicalQuery else encodedResource.

(** The path of a request target and its query. *)
Definition split_uri (uri : bytes) : bytes * bytes :=
  match SplitN2 uri "?"%char with [path; query] => (path, query) | _ => (uri, []) end.

Class SignV2Env := {
  (* [hmac.New(sha1.New, key)] after one [Write] *)
  hmac_sha1 : bytes -> bytes -> bytes;
  globalDomainNames : list bytes }.

(** The parameters of a presigned query: access key, signature, expiry, and the
    others in their order; a later parameter replaces an earlier one. *)
Record presignV2 := mkPresignV2 { v2_accessKey : bytes; v2_signature : bytes; v2_expires : bytes; v2_filtered : list bytes }.
Definition presignV2_add (p : presignV2) (query : bytes) : option presignV2 :=
  match SplitN2 query "="%char with
  | [key; val] =>
      Some (if decide (key = AmzAccessKeyID)
            then mkPresignV2 val (v2_signature p) (v2_expires p) (v2_filtered p)
            else if decide (key = AmzSignatureV2)
            then mkPresignV2 (v2_accessKey p) val (v2_expires p) (v2_filtered p)
            else if decide (key = Expires)
            then mkPresignV2 (v2_accessKey p) (v2_signature p) val (v2_filtered p)
            else mkPresignV2 (v2_accessKey p) (v2_signature p) (v2_expires p) (v2_filtered p ++ [query]))
  | _ => None
  end.
Fixpoint presignV2_params (p : presignV2) (queries : list bytes) : option presignV2 :=
  match queries with
  | [] => Some p
  | q :: qs => p' ← presignV2_add p q; presignV2_params p' qs
  end.

Section v2.
Context `{UnicodeEnv} `{SignV2Env}.

Definition calculateSignatureV2 (stringToSign secret : bytes) : bytes :=
  base64.EncodeToString (hmac_sha1 secret stringToSign).

(** The headers of the loop in the order of the map. *)
Definition canonicalizedAmzHeadersV2 (headers : multimap) : bytes :=
  let amz := filter (λ e : bytes * list bytes, HasPrefix (ToLower e.1) (str "x-amz-")) (map_to_list headers) in
  let keyval := foldl (λ (m : gmap bytes bytes) e, <[ToLower e.1 := strings.Join e.2 (str ",")]> m) ∅ amz in
  strings.Join ((λ key, key ++ ":"%char :: default [] (keyval !! key)) <$> sort_Strings ((λ e, ToLower e.1) <$> amz))
    [newline].

Definition getStringToSignV2 (method encodedResource encodedQuery : bytes) (headers : multimap) (expires : bytes)
  : bytes :=
  let canonicalHeaders := canonicalizedAmzHeadersV2 headers in
  let canonicalHeaders := if decide (canonicalHeaders <> []) then canonicalHeaders ++ [newline] else canonicalHeaders in
  let date := if decide (expires = []) then Header_Get headers Date else expires in
  strings.Join [method; Header_Get headers ContentMD5; Header_Get headers ContentType; date; canonicalHeaders] [newline]
  ++ canonicalizedResourceV2 encodedResource encodedQuery.

Definition preSignatureV2 (cred : Credentials) (method encodedResource encodedQuery : bytes) (headers : multimap)
  (expires : bytes) : bytes :=
  calculateSignatureV2 (getStringToSignV2 method encodedResource encodedQuery headers expires) (SecretKey cred).
Definition signatureV2 (cred : Credentials) (method encodedResource encodedQuery : bytes) (headers : multimap) : bytes :=
  calculateSignatureV2 (getStringToSignV2 method encodedResource encodedQuery headers []) (SecretKey cred).

Context `{keys : KeyStore}.

Definition getReqAccessKeyV2 (r : Request) : (Credentials * bool) + APIErrorCode :=
  let accessKey := Values_Get (URL_Query r) AmzAccessKeyID in
  if decide (accessKey <> []) then checkKeyValid accessKey
  else
    match strings.Split (Header_Get (Header r) Authorization) " "%char with
    | [_; field] =>
        match strings.Split (utf8.TrimSpace field) ":"%char with
        | [key; _] => checkKeyValid key
        | _ => inr ErrMissingFields
        end
    | _ => inr ErrMissingFields
    end.

Definition validateV2AuthHeader (r : Request) : Credentials + APIErrorCode :=
  let v2Auth := Header_Get (Header r) Authorization in
  if decide (v2Auth = []) then inr ErrAuthHeaderEmpty
  else if negb (HasPrefix v2Auth signV2Algorithm) then inr ErrSignatureVersionNotSupported
  else match getReqAccessKeyV2 r with inr e => inr e | inl (cred, _) => inl cred end.

Definition doesSignV2Match (r : Request) : APIErrorCode :=
  let v2Auth := Header_Get (Header r) Authorization in
  match validateV2AuthHeader r with
  | inr e => e
  | inl cred =>
      let '(encodedResource, encodedQuery) := split_uri (RequestURI r) in
      match unescapeQueries encodedQuery with
      | None => ErrInvalidQueryParams
      | Some unescapedQueries =>
          match getResource encodedResource (Host r) globalDomainNames with
          | None => ErrInvalidRequest
          | Some encodedResource =>
              let prefix := signV2Algorithm ++ str " " ++ AccessKey cred ++ str ":" in
              if negb (HasPrefix v2Auth prefix) then ErrSignatureDoesNotMatch
              else
                let v2Auth := drop (length prefix) v2Auth in
                let expectedAuth := signatureV2 cred (Method r) encodedResource
                                      (strings.Join unescapedQueries (str "&")) (Header r) in
                if negb (compareSignatureV2 v2Auth expectedAuth) then ErrSignatureDoesNotMatch else ErrNone
          end
      end
  end.

Definition doesPresignV2SignatureMatch (now : time) (r : Request) : APIErrorCode :=
  let '(encodedResource, encodedQuery) := split_uri (RequestURI r) in
  match unescapeQueries encodedQuery with
  | None => ErrInvalidQueryParams
  | Some unescapedQueries =>
      match presignV2_params (mkPresignV2 [] [] [] []) unescapedQueries with
      | None => ErrInvalidQueryParams
      | Some p =>
          if decide (v2_accessKey p = [] \/ v2_signature p = [] \/ v2_expires p = []) then ErrInvalidQueryParams
          else
            match checkKeyValid (v2_accessKey p) with
            | inr e => e
            | inl (cred, _) =>
                match ParseInt (v2_expires p) with
                | (_, true) => ErrMalformedExpires
                | (expiresInt, false) =>
                    if expiresInt <? now / 10 ^ 9 then ErrExpiredPresignRequest
                    else
                      match getResource encodedResource (Host r) globalDomainNames with
                      | None => ErrInvalidRequest
                      | Some encodedResource =>
                          let expectedSignature := preSignatureV2 cred (Method r) encodedResource
                            (strings.Join (v2_filtered p) (str "&")) (Header r) (v2_expires p) in
                          if negb (compareSignatureV2 (v2_signature p) expectedSignature)
                          then ErrSignatureDoesNotMatch else ErrNone
                      end
                end
            end
      end
  end.

Definition doesPolicySignatureV2Match (formValues : multimap) : APIErrorCode :=
  match checkKeyValid (Header_Get formValues AmzAccessKeyID) with
  | inr e => e
  | inl (cred, _) =>
      let policy := Header_Get formValues (str "Policy") in
      let signature := Header_Get formValues AmzSignatureV2 in
      if negb (compareSignatureV2 signature (calculateSignatureV2 policy (SecretKey cred)))
      then ErrSignatureDoesNotMatch else ErrNone
  end.

(** ** What an accepted signature covers *)

(** A signature compares equal to what the server computes only if it decodes
    to the code of the string. *)
Lemma compareSignatureV2_code sig msg secret :
  compareSignatureV2 sig (calculateSignatureV2 msg secret) = true <->
  base64.DecodeString false sig = Some (hmac_sha1 secret msg).
Proof.
  unfold compareSignatureV2, calculateSignatureV2. rewrite base64.Std_Decode_Encode.
  destruct (base64.DecodeString false sig) as [s|]; [|by split]. rewrite bool_decide_eq_true. naive_solver.
Qed.

(** What is signed in the header: the name of the key of the credentials that
    verify. *)
Lemma doesSignV2Match_signed r :
  doesSignV2Match r = ErrNone ->
  ∃ cred owner resource queries sig,
    getReqAccessKeyV2 r = inl (cred, owner) /\
    unescapeQueries (split_uri (RequestURI r)).2 = Some queries /\
    getResource (split_uri (RequestURI r)).1 (Host r) globalDomainNames = Some resource /\
    Header_Get (Header r) Authorization = signV2Algorithm ++ str " " ++ AccessKey cred ++ str ":" ++ sig /\
    base64.DecodeString false sig =
      Some (hmac_sha1 (SecretKey cred)
              (getStringToSignV2 (Method r) resource (strings.Join queries (str "&")) (Header r) [])).
Proof.
  unfold doesSignV2Match, validateV2AuthHeader. destruct (split_uri (RequestURI r)) as [p q].
  case_decide; [done|]. destruct (HasPrefix _ signV2Algorithm); [|done]. cbn [negb].
  destruct (getReqAccessKeyV2 r) as [[cred owner]|e] eqn:Ek; [|intros ->; unfold getReqAccessKeyV2, checkKeyValid in Ek; repeat case_match; simplify_eq].
  destruct (unescapeQueries q) as [qs|] eqn:Eq; [|done]. destruct (getResource _ _ _) as [res|] eqn:Er; [|done].
  destruct (HasPrefix _ _) eqn:Ep in |- *; [|done]. cbn [negb]. destruct (compareSignatureV2 _ _) eqn:Es; [|done]. intros _.
  apply HasPrefix_spec in Ep as [sig Esig]. rewrite Esig, drop_app_length in Es.
  apply compareSignatureV2_code in Es. exists cred, owner, res, qs, sig. split_and!; try done.
  rewrite Esig. by rewrite <- !(assoc_L (++)).
Qed.
End v2.
