(* ===== verification/PolicySys.v ===== *)
(** * cmd/policy.go and pkg/handlers/proxy.go: the bucket policies of a server

    The map from buckets to their policies, the decision for a request, and the
    values of a request that the conditions of policies test, among them the
    address the request comes from. *)
From S2P Require Import Prelude GoLib GoText Errors Metadata GoTime Credentials Wildcard Condition Policy IamPolicy Bufio Streaming NsLock SignV4 SignV2.
Import strconv.

(** ** proxy.go: the source of a request *)
Definition xForwardedFor : bytes := str "X-Forwarded-For".
Definition xForwardedProto : bytes := str "X-Forwarded-Proto".
Definition xForwardedScheme : bytes := str "X-Forwarded-Scheme".
Definition xRealIP : bytes := CanonicalHeaderKey (str "X-Real-IP").
Definition forwarded : bytes := str "Forwarded".

(** What precedes the first ", ". *)
Fixpoint before_comma (fwd : bytes) : bytes :=
  match fwd with
  | [] => []
  | c :: fwd' => if HasPrefix fwd (str ", ") then [] else c :: before_comma fwd'
  end.

(** [strings.Trim] of double quotes. *)
Fixpoint drop_dquotes (s : bytes) : bytes :=
  match s with
  | c :: s' => if decide (c = ascii_of_N 34) then drop_dquotes s' else s
  | [] => []
  end.
Definition trim_quotes (s : bytes) : bytes := reverse (drop_dquotes (reverse (drop_dquotes s))).

(** [forRegex]: "for=" in any case and the longest run, not empty, of
    characters outside its set; the run and what follows it. *)
Definition for_excluded (c : ascii) : Prop := c ∈ str "(;|, )".
#[global] Instance for_excluded_dec c : Decision (for_excluded c).
Proof. unfold for_excluded. apply _. Defined.
Fixpoint run_of (s : bytes) : bytes * bytes :=
  match s with
  | [] => ([], [])
  | c :: s' => if decide (for_excluded c) then ([], s) else let '(a, b) := run_of s' in (c :: a, b)
  end.
Definition ascii_lower (c : ascii) : ascii := if is_upper c then ascii_of_N (N_of_ascii c + 32) else c.
Definition fold_prefix (s p : bytes) : option bytes :=
  if decide ((ascii_lower <$> take (length p) s) = p) then Some (drop (length p) s) else None.
Fixpoint forRegex (s : bytes) : option (bytes * bytes) :=
  let here := rest ← fold_prefix s (str "for="); let '(a, b) := run_of rest in if decide (a = []) then None else Some (a, b) in
  match here with
  | Some m => Some m
  | None => match s with [] => None | _ :: s' => forRegex s' end
  end.

(** [protoRegex] matches at the start only: separators, "proto=", and the
    scheme. *)
Fixpoint drop_separators (s : bytes) : option bytes :=
  match s with
  | c :: s' => if decide (c ∈ str ";, ") then Some (default s' (drop_separators s')) else None
  | [] => None
  end.
Definition protoRegex (s : bytes) : option bytes :=
  rest ← drop_separators s;
  rest ← fold_prefix rest (str "proto=");
  match fold_prefix rest (str "https") with
  | Some _ => Some (take 5 rest)
  | None => match fold_prefix rest (str "http") with Some _ => Some (take 4 rest) | None => None end
  end.

Section source.
Context `{UnicodeEnv}.

Definition GetSourceScheme (r : Request) : bytes :=
  let proto := Header_Get (Header r) xForwardedProto in
  if decide (proto <> []) then ToLower proto
  else
    let proto := Header_Get (Header r) xForwardedScheme in
    if decide (proto <> []) then ToLower proto
    else
      let proto := Header_Get (Header r) forwarded in
      if decide (proto <> []) then
        match forRegex proto with
        | Some (_, rest) => match protoRegex rest with Some scheme => ToLower scheme | None => [] end
        | None => []
        end
      else [].
End source.

Definition GetSourceIP (r : Request) : bytes :=
  let addr :=
    let fwd := Header_Get (Header r) xForwardedFor in
    if decide (fwd <> []) then before_comma fwd
    else
      let fwd := Header_Get (Header r) xRealIP in
      if decide (fwd <> []) then fwd
      else
        let fwd := Header_Get (Header r) forwarded in
        if decide (fwd <> []) then match forRegex fwd with Some (m, _) => trim_quotes m | None => [] end
        else [] in
  if decide (addr <> []) then addr
  else match SplitHostPort (RemoteAddr r) with Some (host, _) => host | None => [] end.

Example source_ex :
  before_comma (str "192.168.0.1, 10.1.1.1") = str "192.168.0.1" /\
  forRegex (str "by=x;For=192.0.2.60;proto=https") = Some (str "192.0.2.60", str ";proto=https") /\
  protoRegex (str ";proto=https") = Some (str "https").
Proof. vm_compute. auto. Qed.

(** ** getConditionValues *)
Definition Format_amz (t : time) : bytes :=
  let '(y, m, d) := civil (t / day_ns) in
  let s := (t / 10 ^ 9) mod 86400 in
  digits 4 y ++ str "-" ++ digits 2 m ++ str "-" ++ digits 2 d ++ str "T" ++ digits 2 (s / 3600) ++ str ":" ++
  digits 2 (s / 60 mod 60) ++ str ":" ++ digits 2 (s mod 60) ++ str "Z".

(** The values of [vs] added to those there are. *)
Definition append_values (args vs : values) : values := union_with (λ a b, Some (a ++ b)) args vs.

Definition getConditionValues (currTime : time) (request : Request) (locationConstraint username : bytes)
  (claims : claims_map) : values :=
  let principalType := if decide (username <> []) then str "User" else str "Anonymous" in
  let args : values :=
    {[ str "CurrenTime" := [Format_amz currTime];
       str "EpochTime" := [FormatInt (currTime / 10 ^ 9)];
       str "principaltype" := [principalType];
       str "SecureTransport" := [if TLS request then str "true" else str "false"];
       str "SourceIp" := [GetSourceIP request];
       str "UserAgent" := [Header_Get (Header request) (str "User-Agent")];
       str "Referer" := [Header_Get (Header request) (str "Referer")];
       str "userid" := [username];
       str "username" := [username] ]} in
  let args := append_values args (Header request) in
  let args := append_values args (URL_Query request) in
  let args := if decide (locationConstraint <> []) then <[str "LocationConstraint" := [locationConstraint]]> args else args in
  omap (λ v, match v with claim_string s => Some [s] | _ => None end) claims ∪ args.

(** ** PolicySys *)
Section sys.
Context `{PolicyEnv}.
(** In gateway mode the policies are those of the object layer. *)
Variable globalIsGateway : bool.
Variable GetBucketPolicy : bytes -> Policy + error.
Variable savePolicyConfig : bytes -> Policy -> option error.

Definition PolicySys : Type := gmap bytes Policy.
Definition NewPolicySys : PolicySys := ∅.

Definition Policy_IsEmpty (p : Policy) : bool := bool_decide (length (Statements p) = 0%nat).

Definition PolicySys_Set (bucketName : bytes) (p : Policy) (sys : PolicySys) : PolicySys :=
  if globalIsGateway then sys
  else if Policy_IsEmpty p then delete bucketName sys else <[bucketName := p]> sys.
Definition PolicySys_Remove (bucketName : bytes) (sys : PolicySys) : PolicySys := delete bucketName sys.

(** A result of [None] is a panic, as for a policy. *)
Definition PolicySys_IsAllowed (args : Args) (sys : PolicySys) : option bool :=
  if globalIsGateway then
    match GetBucketPolicy (args_BucketName args) with
    | inl config => Policy_IsAllowed config args
    | inr _ => Some (IsOwner args)
    end
  else
    match sys !! args_BucketName args with
    | Some p => Policy_IsAllowed p args
    | None => Some (IsOwner args)
    end.

Fixpoint PolicySys_load (buckets : list bytes) (sys : PolicySys) : option error * PolicySys :=
  match buckets with
  | [] => (None, sys)
  | bucket :: buckets' =>
      match GetBucketPolicy bucket with
      | inr (BucketPolicyNotFound _) => PolicySys_load buckets' (PolicySys_Remove bucket sys)
      | inr _ => PolicySys_load buckets' sys
      | inl config =>
          if decide (policy_Version config = []) then
            let config := mkPolicy (policy_ID config) DefaultVersion (Statements config) in
            match savePolicyConfig bucket config with
            | Some e => (Some e, sys)
            | None => PolicySys_load buckets' (PolicySys_Set bucket config sys)
            end
          else PolicySys_load buckets' (PolicySys_Set bucket config sys)
      end
  end.
Definition PolicySys_Init (buckets : list bytes) (objAPI : bool) (sys : PolicySys) : option error * PolicySys :=
  if negb objAPI then (Some errInvalidArgument, sys)
  else if globalIsGateway then (None, sys)
  else PolicySys_load buckets sys.

(** Without a policy only the owner gets through. *)
Lemma PolicySys_IsAllowed_none args sys :
  globalIsGateway = false -> sys !! args_BucketName args = None ->
  PolicySys_IsAllowed args sys = Some (IsOwner args).
Proof. unfold PolicySys_IsAllowed. by intros -> ->. Qed.
End sys.
