(* ===== verification/Jwt.v ===== *)
(** * cmd/jwt/parser.go and cmd/jwt.go: signed tokens

    The parsing and verification of JSON web tokens signed with an HMAC, which
    carry the claims of temporary credentials and the sessions of the browser and
    of the other nodes.  JSON, the hash functions and the library jwt-go are an
    interface.  A result of [None] is a panic: a segment that does not fit the
    buffer it is decoded into. *)
From S2P Require Import Prelude GoLib GoText Base64 Errors Metadata Credentials Wildcard Condition Policy IamPolicy Iam.

Inductive SigningMethodHMAC : Type := SigningMethodHS256 | SigningMethodHS384 | SigningMethodHS512.
Definition signer_Name (s : SigningMethodHMAC) : bytes :=
  match s with
  | SigningMethodHS256 => str "HS256" | SigningMethodHS384 => str "HS384" | SigningMethodHS512 => str "HS512"
  end.
Definition hmacSigners : list SigningMethodHMAC := [SigningMethodHS256; SigningMethodHS384; SigningMethodHS512].

Record StandardClaims := mkStandardClaims {
  sc_AccessKey : bytes; sc_Audience : bytes; sc_ExpiresAt : Z; sc_Id : bytes; sc_IssuedAt : Z;
  sc_Issuer : bytes; sc_NotBefore : Z; sc_Subject : bytes }.
Definition NewStandardClaims : StandardClaims := mkStandardClaims [] [] 0 [] 0 [] 0 [].
Definition time_Unix (t : time) : Z := t / 10 ^ 9.

(** The setters of the two kinds of claims. *)
Definition StandardClaims_SetExpiry (t : time) (c : StandardClaims) : StandardClaims :=
  mkStandardClaims (sc_AccessKey c) (sc_Audience c) (time_Unix t) (sc_Id c) (sc_IssuedAt c) (sc_Issuer c)
    (sc_NotBefore c) (sc_Subject c).
Definition StandardClaims_SetAudience (aud : bytes) (c : StandardClaims) : StandardClaims :=
  mkStandardClaims (sc_AccessKey c) aud (sc_ExpiresAt c) (sc_Id c) (sc_IssuedAt c) (sc_Issuer c)
    (sc_NotBefore c) (sc_Subject c).
Definition StandardClaims_SetAccessKey (accessKey : bytes) (c : StandardClaims) : StandardClaims :=
  mkStandardClaims accessKey (sc_Audience c) (sc_ExpiresAt c) (sc_Id c) (sc_IssuedAt c) (sc_Issuer c)
    (sc_NotBefore c) accessKey.
Definition MapClaims_SetExpiry (t : time) (c : claims_map) : claims_map :=
  <[str "exp" := claim_number (time_Unix t)]> c.
Definition MapClaims_SetAccessKey (accessKey : bytes) (c : claims_map) : claims_map :=
  <[str "accessKey" := claim_string accessKey]> (<[str "sub" := claim_string accessKey]> c).

(** Only a string is found. *)
Definition MapClaims_Lookup (c : claims_map) (key : bytes) : option bytes :=
  match c !! key with Some (claim_string s) => Some s | _ => None end.

Inductive jwt_error : Type :=
  | ErrSignatureInvalid
  | ValidationErrorMalformed
  | ValidationErrorUnverifiable
  | ValidationErrorClaimsInvalid
  | CorruptInputError
  | KeyFuncError (e : error).

Class JwtEnv := {
  hmac_sum : SigningMethodHMAC -> bytes -> bytes -> bytes;
  (* json.Unmarshal of the header, its "alg", and of the claims *)
  json_header_alg : bytes -> option bytes;
  json_map_claims : bytes -> option claims_map;
  json_standard_claims : bytes -> option StandardClaims;
  (* jwt-go: the registered claims (expiry and the like) at a time, and
     [NewWithClaims(SigningMethodHS512, claims).SignedString(key)] *)
  jwtgo_MapClaims_Valid : time -> claims_map -> bool;
  jwtgo_StandardClaims_Valid : time -> StandardClaims -> bool;
  SignedString : claims_map -> bytes -> bytes + error;
  StandardSignedString : StandardClaims -> bytes -> bytes + error;
  (* [AuthorizationHeaderExtractor.ExtractToken]; [None] is [ErrNoTokenInRequest] *)
  ExtractToken : multimap -> option (bytes + error) }.

(** The size of the buffers of [base64BufPool]. *)
Definition base64_buffer : nat := 64 * 128.
Definition base64Decode (s : bytes) : base64.decoded := base64.DecodeRaw base64_buffer s.

(** cmd/jwt.go *)
Definition errInvalidAccessKeyID : error :=
  errText (str "The access key ID you provided does not exist in our records").
Definition errNoAuthToken : error := errText (str "JWT token missing").

Section jwt.
Context `{JwtEnv}.

(** A segment decoded, or the error, or the panic. *)
Definition segment (s : bytes) (bad : jwt_error) : option (bytes + jwt_error) :=
  match base64Decode s with
  | base64.decoded_ok b => Some (inl b)
  | base64.decoded_corrupt => Some (inr bad)
  | base64.decoded_overflow => None
  end.

(** [ParseUnverifiedStandardClaims] and [ParseUnverifiedMapClaims], which
    differ in the claims they decode. *)
Definition ParseUnverified {C} (json_claims : bytes -> option C) (tokenString : bytes)
  : option ((C * SigningMethodHMAC) + jwt_error) :=
  match strings.Split tokenString "."%char with
  | [h; p; _] =>
      b ← segment h ValidationErrorMalformed;
      match b with
      | inr e => Some (inr e)
      | inl b =>
          match json_header_alg b with
          | None => Some (inr ValidationErrorMalformed)
          | Some alg =>
              b ← segment p ValidationErrorMalformed;
              match b with
              | inr e => Some (inr e)
              | inl b =>
                  match json_claims b with
                  | None => Some (inr ValidationErrorMalformed)
                  | Some claims =>
                      match find (λ s, bool_decide (alg = signer_Name s)) hmacSigners with
                      | Some signer => Some (inl (claims, signer))
                      | None => Some (inr ValidationErrorUnverifiable)
                      end
                  end
              end
          end
      end
  | _ => Some (inr ErrSignatureInvalid)
  end.

(** What stands before the last dot, and after it. *)
Definition split_signature (token : bytes) : option (bytes * bytes) :=
  i ← strings.LastIndex token "."%char; Some (take i token, drop (S i) token).

Definition StandardClaims_Valid (now : time) (c : StandardClaims) : bool :=
  jwtgo_StandardClaims_Valid now c && negb (bool_decide (sc_AccessKey c = [] /\ sc_Subject c = [])).

(** [key] is [None] for a nil key. *)
Definition ParseWithStandardClaims (now : time) (tokenStr : bytes) (key : option bytes)
  : option (StandardClaims + jwt_error) :=
  match key with
  | None => Some (inr ValidationErrorUnverifiable)
  | Some key =>
      u ← ParseUnverified json_standard_claims tokenStr;
      match u with
      | inr e => Some (inr e)
      | inl (claims, signer) =>
          match split_signature tokenStr with
          | None => Some (inr ErrSignatureInvalid)
          | Some (signed, sig) =>
              b ← segment sig CorruptInputError;
              match b with
              | inr e => Some (inr e)
              | inl b =>
                  if decide (b <> hmac_sum signer key signed) then Some (inr ErrSignatureInvalid)
                  else if decide (sc_AccessKey claims = [] /\ sc_Subject claims = [])
                  then Some (inr ValidationErrorClaimsInvalid)
                  else if StandardClaims_Valid now claims then Some (inl claims)
                  else Some (inr ValidationErrorClaimsInvalid)
              end
          end
      end
  end.

(** The claims with their access key. *)
Record MapClaims := mkMapClaims { mc_AccessKey : bytes; mc_Map : claims_map }.
Definition MapClaims_Valid (now : time) (c : MapClaims) : bool :=
  jwtgo_MapClaims_Valid now (mc_Map c) && negb (bool_decide (mc_AccessKey c = [])).

Definition claims_access_key (c : claims_map) : option bytes :=
  match MapClaims_Lookup c (str "accessKey") with
  | Some k => Some k
  | None => MapClaims_Lookup c (str "sub")
  end.

Definition ParseWithClaims (now : time) (tokenStr : bytes) (fn : MapClaims -> bytes + error)
  : option (MapClaims + jwt_error) :=
  u ← ParseUnverified json_map_claims tokenStr;
  match u with
  | inr e => Some (inr e)
  | inl (m, signer) =>
      match split_signature tokenStr with
      | None => Some (inr ErrSignatureInvalid)
      | Some (signed, sig) =>
          b ← segment sig CorruptInputError;
          match b with
          | inr e => Some (inr e)
          | inl b =>
              match claims_access_key m with
              | None => Some (inr ValidationErrorClaimsInvalid)
              | Some accessKey =>
                  let claims := mkMapClaims accessKey m in
                  match fn claims with
                  | inr e => Some (inr (KeyFuncError e))
                  | inl key =>
                      if decide (b <> hmac_sum signer key signed) then Some (inr ErrSignatureInvalid)
                      else if MapClaims_Valid now claims then Some (inl claims)
                      else Some (inr ValidationErrorClaimsInvalid)
                  end
              end
          end
      end
  end.

(** ** cmd/jwt.go *)
Definition defaultJWTExpiry : Z := 24 * 3600 * 10 ^ 9.
Definition defaultInterNodeJWTExpiry : Z := 15 * 60 * 10 ^ 9.
Definition defaultURLJWTExpiry : Z := 60 * 10 ^ 9.

Context `{PolicyEnv}.
(** The credentials of the server, and its users: [None] is a nil
    [globalIAMSys]. *)
Variable globalActiveCred : Credentials.
Variable globalIAMSys : option IAMSys.

(** The token for credentials that are those of the server or of a user; the
    clock is read when the user is looked up and when the credentials are
    compared. *)
Definition authenticateJWTUsersWithCredentials (now : time) (credentials : Credentials) (expiresAt : time)
  : option (bytes + error) :=
  serverCred ←
    (if decide (AccessKey globalActiveCred <> AccessKey credentials) then
       sys ← globalIAMSys;   (* a nil system is dereferenced *)
       Some (match IAM_GetUser now sys (AccessKey credentials) with Some c => inl c | None => inr errInvalidAccessKeyID end)
     else Some (inl globalActiveCred));
  match serverCred with
  | inr e => Some (inr e)
  | inl serverCred =>
      if negb (Credentials_Equal now serverCred credentials) then Some (inr errAuthentication)
      else
        let claims := MapClaims_SetAccessKey (AccessKey credentials) (MapClaims_SetExpiry expiresAt ∅) in
        Some (SignedString claims (SecretKey serverCred))
  end.
Definition authenticateJWTUsers (now : time) (accessKey secretKey : bytes) (expiry : Z) : option (bytes + error) :=
  match CreateCredentials accessKey secretKey with
  | inr e => Some (inr e)
  | inl cred => authenticateJWTUsersWithCredentials now cred (now + expiry)
  end.
Definition authenticateNode (now : time) (accessKey secretKey audience : bytes) : bytes + error :=
  let claims := StandardClaims_SetAudience audience
                  (StandardClaims_SetAccessKey accessKey
                     (StandardClaims_SetExpiry (now + defaultInterNodeJWTExpiry) NewStandardClaims)) in
  StandardSignedString claims secretKey.
Definition authenticateWeb (now : time) (accessKey secretKey : bytes) : option (bytes + error) :=
  authenticateJWTUsers now accessKey secretKey defaultJWTExpiry.
Definition authenticateURL (now : time) (accessKey secretKey : bytes) : option (bytes + error) :=
  authenticateJWTUsers now accessKey secretKey defaultURLJWTExpiry.
Definition newAuthToken (now : time) (audience : bytes) : bytes + error :=
  authenticateNode now (AccessKey globalActiveCred) (SecretKey globalActiveCred) audience.

Definition webTokenCallback (now : time) (claims : MapClaims) : bytes + error :=
  if decide (mc_AccessKey claims = AccessKey globalActiveCred) then inl (SecretKey globalActiveCred)
  else
    match globalIAMSys with
    | None => inr errInvalidAccessKeyID
    | Some sys =>
        match IsTempUser (mc_AccessKey claims) sys with
        | inr e => if decide (e = errNoSuchUser) then inr errInvalidAccessKeyID else inr e
        | inl true => inl (SecretKey globalActiveCred)
        | inl false =>
            match IAM_GetUser now sys (mc_AccessKey claims) with
            | None => inr errInvalidAccessKeyID
            | Some cred => inl (SecretKey cred)
            end
        end
    end.

(** The claims and whether they are the owner's. *)
Definition web_authenticate (now : time) (token : bytes) : option ((MapClaims * bool) + error) :=
  r ← ParseWithClaims now token (webTokenCallback now);
  match r with
  | inr _ => Some (inr errAuthentication)
  | inl claims => Some (inl (claims, bool_decide (mc_AccessKey claims = AccessKey globalActiveCred)))
  end.
Definition webTokenAuthenticate (now : time) (token : bytes) : option ((MapClaims * bool) + error) :=
  if decide (token = []) then Some (inr errNoAuthToken) else web_authenticate now token.
Definition isAuthTokenValid (now : time) (token : bytes) : option bool :=
  r ← webTokenAuthenticate now token; Some (match r with inl _ => true | inr _ => false end).
Definition webRequestAuthenticate (now : time) (header : multimap) : option ((MapClaims * bool) + error) :=
  match ExtractToken header with
  | None => Some (inr errNoAuthToken)
  | Some (inr e) => Some (inr e)
  | Some (inl token) => web_authenticate now token
  end.

(** ** Tokens that verify *)

(** The documented form of a signed token: the encoded header and claims, and
    the encoded code of both. *)
Definition token_form (signer : SigningMethodHMAC) (key header claims : bytes) : bytes :=
  let signed := base64.EncodeRaw header ++ "."%char :: base64.EncodeRaw claims in
  signed ++ "."%char :: base64.EncodeRaw (hmac_sum signer key signed).

Lemma encoded_no_dot b : "."%char ∉ base64.EncodeRaw b.
Proof. intros Hc. pose proof (base64.encode_raw_chars b) as Hf. rewrite Forall_forall in Hf. by apply (Hf _ Hc). Qed.

Lemma LastIndex_app s t c : c ∉ t -> strings.LastIndex (s ++ c :: t) c = Some (length s).
Proof.
  intros Ht. induction s as [|d s IH]; cbn.
  - assert (strings.LastIndex t c = None) as ->; [|by rewrite decide_True].
    induction t as [|d t IHt]; [done|]. apply not_elem_of_cons in Ht as [Hd Ht]. cbn. rewrite IHt by done.
    by rewrite decide_False by congruence.
  - by rewrite IH.
Qed.

Lemma split_token signer key header claims :
  let signed := base64.EncodeRaw header ++ "."%char :: base64.EncodeRaw claims in
  split_signature (token_form signer key header claims) = Some (signed, base64.EncodeRaw (hmac_sum signer key signed)).
Proof.
  intros signed. unfold split_signature, token_form. fold signed.
  rewrite LastIndex_app by apply encoded_no_dot. cbn [mbind option_bind]. rewrite take_app_length.
  by rewrite drop_app_ge, Nat.sub_succ_l, Nat.sub_diag by lia.
Qed.

Lemma unverified_token {C} (json : bytes -> option C) signer key header claims alg c :
  (length header <= base64_buffer)%nat -> (length claims <= base64_buffer)%nat ->
  json_header_alg header = Some (signer_Name alg) -> json claims = Some c ->
  ParseUnverified json (token_form signer key header claims) = Some (inl (c, alg)).
Proof.
  intros Hh Hc Ea Ej. unfold ParseUnverified, token_form. rewrite <- (assoc_L (++)). cbn [app].
  rewrite strings.Split_app_sep, strings.Split_app_sep, strings.Split_no_sep by apply encoded_no_dot.
  unfold segment, base64Decode. rewrite !base64.DecodeRaw_EncodeRaw by done. cbn. rewrite Ea, Ej. by destruct alg.
Qed.

(** A token signed with the key that the callback names is accepted. *)
Lemma ParseWithClaims_token now alg key header payload m fn :
  (length header <= base64_buffer)%nat -> (length payload <= base64_buffer)%nat ->
  (∀ k d, (length (hmac_sum alg k d) <= base64_buffer)%nat) ->
  json_header_alg header = Some (signer_Name alg) -> json_map_claims payload = Some m ->
  ∀ accessKey, claims_access_key m = Some accessKey -> fn (mkMapClaims accessKey m) = inl key ->
  ParseWithClaims now (token_form alg key header payload) fn =
    Some (if MapClaims_Valid now (mkMapClaims accessKey m) then inl (mkMapClaims accessKey m)
          else inr ValidationErrorClaimsInvalid).
Proof.
  intros Hh Hp Hs Ea Ej accessKey Ek Ef. unfold ParseWithClaims.
  rewrite (unverified_token json_map_claims alg key header payload alg m) by done. cbn [mbind option_bind].
  rewrite split_token. unfold segment, base64Decode. rewrite base64.DecodeRaw_EncodeRaw by done. cbn [mbind option_bind].
  rewrite Ek, Ef, decide_False by (intros Hn; by apply Hn). by case_match.
Qed.

(** What an accepted token proves. *)
Lemma ParseWithClaims_sound now token fn claims :
  ParseWithClaims now token fn = Some (inl claims) ->
  ∃ signer key signed sig,
    split_signature token = Some (signed, sig) /\ fn claims = inl key /\
    base64Decode sig = base64.decoded_ok (hmac_sum signer key signed) /\
    claims_access_key (mc_Map claims) = Some (mc_AccessKey claims) /\ MapClaims_Valid now claims = true.
Proof.
  unfold ParseWithClaims, segment. intros (u & Hu & E)%bind_Some. destruct u as [[m signer]|]; [|done].
  destruct (split_signature token) as [[signed sig]|] eqn:Es; [|done].
  apply bind_Some in E as (b & Hb & E). destruct b as [b|]; [|done].
  destruct (base64Decode sig) as [b'| |] eqn:Ed; simplify_eq. destruct (claims_access_key m) as [k|] eqn:Ek; [|done].
  destruct (fn _) as [key|] eqn:Ef; [|done]. case_decide as Hd; [done|]. subst b.
  case_match; [|done]. simplify_eq. by exists signer, key, signed, sig.
Qed.
End jwt.
