(* ===== verification/JwtSpec.v ===== *)
(** * Tokens: issued, accepted and refused *)
From S2P Require Import Prelude GoLib GoText Base64 Errors Metadata Credentials Wildcard Condition Policy IamPolicy Iam Jwt.

Section tokens.
Context `{JwtEnv} `{PolicyEnv}.
Variable active : Credentials.
Variable sys : IAMSys.

(** The claims of a token for an access key that is good until [expiresAt]. *)
Definition session_claims (accessKey : bytes) (expiresAt : time) : claims_map :=
  MapClaims_SetAccessKey accessKey (MapClaims_SetExpiry expiresAt ∅).

Lemma session_key accessKey expiresAt : claims_access_key (session_claims accessKey expiresAt) = Some accessKey.
Proof.
  unfold claims_access_key, session_claims, MapClaims_SetAccessKey, MapClaims_Lookup. by rewrite lookup_insert_eq.
Qed.

(** What it takes to be given a token: the secret of the key, which is the
    server's or that of a user with lasting credentials. *)
Lemma issued_to now accessKey secretKey expiry token :
  authenticateJWTUsers active (Some sys) now accessKey secretKey expiry = Some (inl token) ->
  accessKey <> [] /\ SignedString (session_claims accessKey (now + expiry)) secretKey = inl token /\
  ((accessKey = AccessKey active /\ secretKey = SecretKey active) \/
   (accessKey <> AccessKey active /\ ∃ cred, IAM_GetUser now sys accessKey = Some cred /\
      IsTemp cred = false /\ secretKey = SecretKey cred)).
Proof.
  unfold authenticateJWTUsers, CreateCredentials. destruct (IsAccessKeyValid accessKey) eqn:Ev; [|done].
  destruct (IsSecretKeyValid secretKey); [|done]. cbn [negb].
  assert (accessKey <> []) as Hn by (by intros ->).
  unfold authenticateJWTUsersWithCredentials. cbn [AccessKey SecretKey]. fold (session_claims accessKey (now + expiry)).
  destruct (decide _) as [Ha|Ha]; cbn [mbind option_bind].
  - destruct (IAM_GetUser now sys accessKey) as [cred|]; [|done].
    unfold Credentials_Equal. cbn [AccessKey SecretKey SessionToken]. destruct (IsValid now _); [|done]. cbn [negb].
    destruct (bool_decide (AccessKey cred = accessKey)); [|done].
    case_bool_decide as Hs; [|done]. case_bool_decide as Ht; [|done]. cbn. intros [= E]. rewrite Hs in E.
    split_and!; try done. right. split; [done|]. exists cred. split_and!; try done.
    unfold IsTemp. by rewrite bool_decide_false by tauto.
  - apply dec_stable in Ha. unfold Credentials_Equal. cbn [AccessKey SecretKey SessionToken]. destruct (IsValid now _); [|done]. cbn [negb].
    rewrite bool_decide_true by done. case_bool_decide as Hs; [|done]. case_bool_decide as Ht; [|done]. cbn.
    intros [= E]. rewrite Hs in E. split_and!; try done. by left.
Qed.

(** The key that verifies a token of an access key. *)
Lemma callback_key now accessKey secretKey m :
  objectAPI sys = true ->
  (accessKey = AccessKey active /\ secretKey = SecretKey active) \/
  (accessKey <> AccessKey active /\ ∃ cred, IAM_GetUser now sys accessKey = Some cred /\
     IsTemp cred = false /\ secretKey = SecretKey cred) ->
  webTokenCallback active (Some sys) now (mkMapClaims accessKey m) = inl secretKey.
Proof.
  intros Hobj [[-> ->]|(Hn & cred & Hu & Ht & ->)]; unfold webTokenCallback; cbn [mc_AccessKey].
  - by rewrite decide_True.
  - rewrite decide_False by done. unfold IsTempUser. rewrite Hobj. cbn [negb].
    unfold IAM_GetUser in *. destruct (iamUsersMap sys !! accessKey) as [c|]; [|done].
    destruct (IsValid now c); [|done]. simplify_eq. by rewrite Ht.
Qed.

(** C25. A token is good for its user until it expires: when the server issues a
    token for an access key and its secret, authenticating with it gives the
    claims of that access key, with the rights of the owner exactly for the
    server's own key, as long as the user remains and the expiry has not passed,
    and fails afterwards.  jwt-go and encoding/json are assumed to write the
    token in its documented form and to honour the expiry. *)
Theorem issued_token now now' accessKey secretKey expiry token header payload :
  let claims := session_claims accessKey (now + expiry) in
  (∀ key, SignedString claims key = inl (token_form SigningMethodHS512 key header payload)) ->
  json_header_alg header = Some (signer_Name SigningMethodHS512) -> json_map_claims payload = Some claims ->
  (length header <= base64_buffer)%nat -> (length payload <= base64_buffer)%nat ->
  (∀ k d, (length (hmac_sum SigningMethodHS512 k d) <= base64_buffer)%nat) ->
  (∀ t, jwtgo_MapClaims_Valid t claims = (time_Unix t <=? time_Unix (now + expiry))) ->
  objectAPI sys = true -> IAM_GetUser now' sys accessKey = IAM_GetUser now sys accessKey ->
  authenticateJWTUsers active (Some sys) now accessKey secretKey expiry = Some (inl token) ->
  webTokenAuthenticate active (Some sys) now' token =
    Some (if time_Unix now' <=? time_Unix (now + expiry)
          then inl (mkMapClaims accessKey claims, bool_decide (accessKey = AccessKey active))
          else inr errAuthentication).
Proof.
  intros claims Hs Hh Hj Lh Lp Lm Hv Hobj Hsame Hi. apply issued_to in Hi as (Hn & Htok & Hwho).
  fold claims in Htok. rewrite Hs in Htok. injection Htok as <-. rewrite <- Hsame in Hwho.
  unfold webTokenAuthenticate. rewrite decide_False.
  2: { unfold token_form. intros E%(f_equal length). rewrite !length_app in E. cbn in E. lia. }
  unfold web_authenticate.
  rewrite (ParseWithClaims_token now' SigningMethodHS512 secretKey header payload claims _ Lh Lp Lm Hh Hj accessKey
             (session_key accessKey (now + expiry)) (callback_key now' accessKey secretKey claims Hobj Hwho)).
  unfold MapClaims_Valid. cbn [mbind option_bind mc_Map mc_AccessKey]. rewrite Hv, bool_decide_false by done.
  rewrite andb_true_r. by destruct (_ <=? _).
Qed.

(** A token that is accepted was signed with the secret that the server holds
    for the access key it names: its own for its own key and for temporary
    credentials, the user's otherwise. *)
Lemma accepted_token now token claims owner :
  webTokenAuthenticate active (Some sys) now token = Some (inl (claims, owner)) ->
  ∃ signer key signed sig, webTokenCallback active (Some sys) now claims = inl key /\
    split_signature token = Some (signed, sig) /\
    base64Decode sig = base64.decoded_ok (hmac_sum signer key signed) /\
    owner = bool_decide (mc_AccessKey claims = AccessKey active).
Proof.
  unfold webTokenAuthenticate, web_authenticate. destruct (decide _); [done|].
  intros (r & Hr & E)%bind_Some. destruct r as [c|]; [|done]. simplify_eq.
  apply ParseWithClaims_sound in Hr as (signer & key & signed & sig & H1 & H2 & H3 & _). by exists signer, key, signed, sig.
Qed.
End tokens.

(** ** A session of the browser *)
Module TokenScenario.
#[export] Existing Instance PolicyScenario.env.
Definition root : Credentials := mkCredentials (str "minio") (str "minio123") timeSentinel [] (str "on").
Definition users : IAMSys := mkIAMSys true MinIOUsersSysType ∅ ∅ ∅ ∅ ∅ ∅ None.
Definition until : time := 0 + defaultJWTExpiry.
Definition claims : claims_map := session_claims (AccessKey root) until.
#[export] Instance ref_jwt : JwtEnv :=
  let sum (_ : SigningMethodHMAC) (k d : bytes) : bytes := take 64 (k ++ d) in
  {| hmac_sum := sum;
     json_header_alg b := if decide (b = str "header") then Some (str "HS512") else None;
     json_map_claims b := if decide (b = str "claims") then Some claims else None;
     json_standard_claims _ := None;
     jwtgo_MapClaims_Valid now c :=
       match c !! str "exp" with Some (claim_number n) => time_Unix now <=? n | _ => true end;
     jwtgo_StandardClaims_Valid _ _ := false;
     SignedString _ key :=
       let signed := base64.EncodeRaw (str "header") ++ "."%char :: base64.EncodeRaw (str "claims") in
       inl (signed ++ "."%char :: base64.EncodeRaw (sum SigningMethodHS512 key signed));
     StandardSignedString _ _ := inr errUnexpected;
     ExtractToken _ := None |}.
Definition token : bytes := token_form SigningMethodHS512 (SecretKey root) (str "header") (str "claims").
End TokenScenario.
Import TokenScenario.

Lemma issued_token_witness :
  webTokenAuthenticate root (Some users) 5 token = Some (inl (mkMapClaims (str "minio") claims, true)).
Proof.
  rewrite (issued_token root users 0 5 (str "minio") (str "minio123") defaultJWTExpiry token (str "header") (str "claims")).
  - reflexivity.
  - intros key. reflexivity.
  - reflexivity.
  - reflexivity.
  - apply Nat.leb_le. vm_compute. reflexivity.
  - apply Nat.leb_le. vm_compute. reflexivity.
  - intros k d. cbn [hmac_sum ref_jwt]. rewrite length_take. unfold base64_buffer. lia.
  - intros t. reflexivity.
  - reflexivity.
  - reflexivity.
  - vm_compute. reflexivity.
Defined.
