(* ===== verification/Auth.v ===== *)
(** * cmd/auth-handler.go: who may do what

    The kind of authentication of a request, the verification of its signature
    and of its session token, and the decision by the bucket policies or by the
    policies of its user; the two middlewares of cmd/generic-handlers.go and
    cmd/auth-handler.go that every request passes.  A result of [None] is a
    panic. *)
From S2P Require Import Prelude GoLib GoText Base64 Errors APIErrors Metadata GoTime NsLock Pool Drive World HashReader Names Credentials Wildcard Condition Policy IamPolicy Iam Bufio Streaming SignV4 SignV2 PolicySys Jwt.

Definition jwtAlgorithm : bytes := str "Bearer".
Definition http_Action : bytes := str "Action".

(** ** The kind of a request *)
Definition isRequestJWT (r : Request) : bool := HasPrefix (Header_Get (Header r) Authorization) jwtAlgorithm.
Definition isRequestSignatureV4 (r : Request) : bool := HasPrefix (Header_Get (Header r) Authorization) signV4Algorithm.
Definition isRequestSignatureV2 (r : Request) : bool :=
  negb (HasPrefix (Header_Get (Header r) Authorization) signV4Algorithm)
  && HasPrefix (Header_Get (Header r) Authorization) signV2Algorithm.
Definition isRequestPresignedSignatureV4 (r : Request) : bool := bool_decide (is_Some (URL_Query r !! AmzCredential)).
Definition isRequestPresignedSignatureV2 (r : Request) : bool := bool_decide (is_Some (URL_Query r !! AmzAccessKeyID)).
Definition isRequestPostPolicySignatureV4 (r : Request) : bool :=
  strings.Contains (Header_Get (Header r) ContentType) (str "multipart/form-data") && bool_decide (Method r = str "POST").
Definition isRequestSignStreamingV4 (r : Request) : bool :=
  bool_decide (Header_Get (Header r) AmzContentSha256 = streamingContentSHA256) && bool_decide (Method r = str "PUT").

Inductive authType : Type :=
  | authTypeUnknown | authTypeAnonymous | authTypePresigned | authTypePresignedV2 | authTypePostPolicy
  | authTypeStreamingSigned | authTypeSigned | authTypeSignedV2 | authTypeJWT | authTypeSTS.
#[export] Instance authType_eq_dec : EqDecision authType.
Proof. solve_decision. Defined.

Definition getRequestAuthType (r : Request) : authType :=
  if isRequestSignatureV2 r then authTypeSignedV2
  else if isRequestPresignedSignatureV2 r then authTypePresignedV2
  else if isRequestSignStreamingV4 r then authTypeStreamingSigned
  else if isRequestSignatureV4 r then authTypeSigned
  else if isRequestPresignedSignatureV4 r then authTypePresigned
  else if isRequestJWT r then authTypeJWT
  else if isRequestPostPolicySignatureV4 r then authTypePostPolicy
  else if bool_decide (is_Some (URL_Query r !! http_Action)) then authTypeSTS
  else if bool_decide (Header r !! Authorization = None) then authTypeAnonymous
  else authTypeUnknown.

Definition supportedS3AuthTypes : list authType :=
  [authTypeAnonymous; authTypePresigned; authTypePresignedV2; authTypeSigned; authTypeSignedV2;
   authTypePostPolicy; authTypeStreamingSigned].
Definition isSupportedS3AuthType (aType : authType) : bool := bool_decide (aType ∈ supportedS3AuthTypes).

(** ** signature-v4-utils.go: the checksum of the content *)

(** The values under X-Amz-Content-Sha256: the query first for a presigned
    request.  A header and a query that were parsed have no empty lists. *)
Definition content_sha256_values (r : Request) : option (list bytes) :=
  if isRequestPresignedSignatureV4 r then
    match URL_Query r !! AmzContentSha256 with
    | Some v => Some v
    | None => Header r !! AmzContentSha256
    end
  else Header r !! AmzContentSha256.
Definition skipContentSha256Cksum (r : Request) : bool :=
  match content_sha256_values r with
  | Some v => negb (bool_decide (default [] (head v) <> unsignedPayload))
  | None => true
  end.

Definition stsRequestBodyLimit : nat := 10 * 1024 * 1024.

(** ** generic-handlers.go *)
Definition hasMultipleAuth (r : Request) : bool :=
  (1 <? length (filter (λ f : Request -> bool, f r = true)
     [isRequestSignatureV2; isRequestPresignedSignatureV2; isRequestSignatureV4; isRequestPresignedSignatureV4;
      isRequestJWT; isRequestPostPolicySignatureV4]))%nat.

(** [requestValidityHandler]: the error it answers with, or [None] when the
    next handler is called. *)
Definition requestValidityHandler (r : Request) : option APIErrorCode :=
  if hasBadPathComponent (URL_Path r) then Some ErrInvalidResourceName
  else if existsb (λ e : bytes * list bytes, existsb hasBadPathComponent e.2) (map_to_list (URL_Query r))
  then Some ErrInvalidResourceName
  else if hasMultipleAuth r then Some ErrInvalidRequest
  else None.

Definition checkValidMD5 (h : multimap) : bytes + error :=
  match h !! ContentMD5 with
  | Some v =>
      let md5B64 := default [] (head v) in
      if decide (md5B64 = []) then inr (errText (str "Content-Md5 header set to empty value"))
      else match base64.DecodeString true md5B64 with
           | Some b => inl b
           | None => inr (errText (str "illegal base64 data"))
           end
  | None => inl []
  end.

Definition getReqAccessKeyV4 `{keys : KeyStore} (r : Request) (region stype : bytes) : (Credentials * bool) + APIErrorCode :=
  match parseCredentialHeader (str "Credential=" ++ Values_Get (URL_Query r) AmzCredential) region stype with
  | inl ch => checkKeyValid (ch_accessKey ch)
  | inr _ =>
      let v4Auth := TrimPrefix (Header_Get (Header r) Authorization) signV4Algorithm in
      match strings.Split (utf8.TrimSpace v4Auth) ","%char with
      | [field; _; _] =>
          match parseCredentialHeader field region stype with
          | inr e => inr e
          | inl ch => checkKeyValid (ch_accessKey ch)
          end
      | _ => inr ErrMissingFields
      end
  end.

Definition getSessionToken (r : Request) : bytes :=
  let token := Header_Get (Header r) AmzSecurityToken in
  if decide (token <> []) then token else Values_Get (URL_Query r) AmzSecurityToken.

(** The configuration of the server, and the decoding of the XML of a new
    bucket's location. *)
Class AuthEnv := {
  globalServerRegion : bytes;
  StrictS3Compat : bool;
  xml_location : bytes -> Z -> option bytes }.

(** The state a request meets. *)
Record Server `{PolicyEnv} := mkServer {
  srv_activeCred : Credentials;
  srv_iam : IAMSys;
  srv_policies : PolicySys }.

Definition keys_at `{PolicyEnv} (srv : Server) (now : time) : KeyStore :=
  {| globalActiveCred := srv_activeCred srv; GetUser := Some (IAM_GetUser now (srv_iam srv)) |}.

(** A body: its bytes, and whether the end comes with the last of them. *)
Inductive Body : Type :=
  | body_raw (src : bytes) (eofWithData : bool)
  | body_hashed (r : Reader).

Section auth.
Context `{UnicodeEnv} `{SigEnv} `{FloatEnv} `{SignV2Env} `{JwtEnv} `{PolicyEnv} `{StringSetEnv} `{!IamEnv} `{OSEnv} `{ScanEnv} `{AuthEnv}.
Variable EncodePath : bytes -> bytes.
Variable globalIsGateway : bool.
Variable GetBucketPolicy : bytes -> Policy + error.

(** [ioutil.ReadAll(io.LimitReader(body, limit))]: the sums are verified when
    the end of the body is reached within the limit. *)
Definition read_limited (b : Body) (limit : nat) : bytes + error :=
  match b with
  | body_raw src _ => inl (take limit src)
  | body_hashed r =>
      let n := length (r_src r) in
      if (n <? limit)%nat || (r_eofWithData r && (n =? limit)%nat)
      then match Verify (advance r n) with Some e => inr e | None => inl (r_src r) end
      else inl (take limit (r_src r))
  end.

(** For the STS service the body is read and put back. *)
Definition getContentSha256Cksum (r : Request) (body : bytes) (stype : bytes) : bytes :=
  if decide (stype = serviceSTS) then hex.EncodeToString (sha256_Sum (take stsRequestBodyLimit body))
  else
    match content_sha256_values r with
    | Some v => default [] (head v)
    | None => if isRequestPresignedSignatureV4 r then unsignedPayload else emptySHA256
    end.

(** The clock is read several times while a request is checked; [clock] gives
    its successive values. *)
Variable srv : Server.
Variable clock : nat -> time.

Definition reqSignatureV4Verify (r : Request) (body : bytes) (region stype : bytes) : APIErrorCode :=
  let sha256sum := getContentSha256Cksum r body stype in
  if isRequestSignatureV4 r then
    doesSignatureMatch (keys := keys_at srv (clock 0)) EncodePath sha256sum r region stype
  else if isRequestPresignedSignatureV4 r then
    doesPresignedSignatureMatch (keys := keys_at srv (clock 0)) EncodePath (clock 1) (clock 2) sha256sum r region stype
  else ErrAccessDenied.

(** The body is wrapped in a reader that verifies the sums the client gave. *)
Definition content_sha256 (r : Request) : bytes + APIErrorCode :=
  let skipSHA256 := skipContentSha256Cksum r in
  if negb skipSHA256 && isRequestPresignedSignatureV4 r then
    match URL_Query r !! AmzContentSha256 with
    | Some (sha256Sum :: _) =>
        match hex.DecodeString sha256Sum with Some b => inl b | None => inr ErrContentSHA256Mismatch end
    | _ => inl []
    end
  else if negb skipSHA256 && bool_decide (is_Some (Header r !! AmzContentSha256)) then
    match hex.DecodeString (Header_Get (Header r) AmzContentSha256) with
    | None | Some [] => inr ErrContentSHA256Mismatch
    | Some b => inl b
    end
  else inl [].

Definition isReqAuthenticated (r : Request) (body : bytes) (eofWithData : bool) (region stype : bytes)
  : Reader + APIErrorCode :=
  let errCode := reqSignatureV4Verify r body region stype in
  if decide (errCode <> ErrNone) then inr errCode
  else
    match checkValidMD5 (Header r) with
    | inr _ => inr ErrInvalidDigest
    | inl contentMD5 =>
        match content_sha256 r with
        | inr e => inr e
        | inl contentSHA256 =>
            match NewReader body (-1) (hex.EncodeToString contentMD5) (hex.EncodeToString contentSHA256) (-1)
                    StrictS3Compat eofWithData with
            | inr e => inr (toAPIErrorCode (Some e))
            | inl reader => inl reader
            end
        end
    end.

Definition isReqAuthenticatedV2 (r : Request) : APIErrorCode :=
  if isRequestSignatureV2 r then doesSignV2Match (keys := keys_at srv (clock 0)) r
  else doesPresignV2SignatureMatch (keys := keys_at srv (clock 0)) (clock 1) r.

(** ** Session tokens *)
Definition getClaimsFromToken (r : Request) : option (claims_map + error) :=
  let token := getSessionToken r in
  if decide (token = []) then Some (inl ∅)
  else
    p ← ParseWithClaims (clock 4) token (λ _, inl (SecretKey (srv_activeCred srv)));
    match p with
    | inr _ => Some (inr errAuthentication)
    | inl claims =>
        let m := mc_Map claims in
        if bool_decide (is_Some globalPolicyOPA) then Some (inl m)
        else
          match MapClaims_Lookup m ldapUser with
          | Some _ => Some (inl m)
          | None =>
              match MapClaims_Lookup m iamPolicyClaimName with
              | None => Some (inr errAuthentication)
              | Some _ =>
                  match MapClaims_Lookup m SessionPolicyName with
                  | None => Some (inl m)
                  | Some sp =>
                      match base64.DecodeString false sp with
                      | None => Some (inr errAuthentication)
                      | Some spBytes => Some (inl (<[SessionPolicyName := claim_string spBytes]> m))
                      end
                  end
              end
          end
    end.
Definition mustGetClaimsFromToken (r : Request) : option claims_map :=
  c ← getClaimsFromToken r; Some (match c with inl m => m | inr _ => ∅ end).

Definition checkClaimsFromToken (r : Request) (cred : Credentials) : option (claims_map + APIErrorCode) :=
  let token := getSessionToken r in
  if decide (token <> [] /\ AccessKey cred = []) then Some (inr ErrNoAccessKey)
  else if decide (token <> SessionToken cred) then Some (inr ErrInvalidToken)
  else
    c ← getClaimsFromToken r;
    Some (match c with inl m => inl m | inr err => inr (toAPIErrorCode (Some err)) end).

(** ** Decisions *)

(** The request of a user, and one without credentials. *)
Definition iam_args (r : Request) (cred : Credentials) (owner : bool) (claims : claims_map)
  (action bucketName objectName : bytes) : iam_Args :=
  mkIamArgs (AccessKey cred) action bucketName (getConditionValues (clock 5) r [] (AccessKey cred) claims)
    owner objectName claims.
Definition anonymous_args (r : Request) (locationConstraint action bucketName objectName : bytes) : Args :=
  mkArgs [] action bucketName (getConditionValues (clock 5) r locationConstraint [] ∅) false objectName.

(** What [checkRequestAuthTypeToAccessKey] returns, and the body it leaves; after
    an error the body is not read any more. *)
Record AuthResult := mkAuthResult {
  ar_accessKey : bytes; ar_owner : bool; ar_err : APIErrorCode; ar_body : Body }.

Definition maxLocationConstraintSize : nat := 3 * 1024 * 1024.

Definition parseLocationConstraint (payload : bytes) (contentLength : Z) : bytes + APIErrorCode :=
  match xml_location payload contentLength with
  | None => if decide (contentLength <> 0) then inr ErrMalformedXML else inl globalServerRegion
  | Some location => inl (if decide (location = []) then globalServerRegion else location)
  end.

(** The location a new bucket asks for; the payload is put back. *)
Definition read_location (r : Request) (body : Body) (action : bytes) : (bytes * Body) + APIErrorCode :=
  if decide (action = CreateBucketAction) then
    match read_limited body maxLocationConstraintSize with
    | inr _ => inr ErrMalformedXML
    | inl payload =>
        match parseLocationConstraint payload (ContentLength r) with
        | inr e => inr e
        | inl location => inl (location, body_raw payload false)
        end
    end
  else inl ([], body).

(** The switch on the kind of the request: the credentials, whether they are
    the owner's, and the body. *)
Definition authenticate_request (r : Request) (src : bytes) (eofWithData : bool) (action : bytes)
  : ((Credentials * bool) * Body) + APIErrorCode :=
  match getRequestAuthType r with
  | authTypeUnknown | authTypeStreamingSigned => inr ErrAccessDenied
  | authTypePresignedV2 | authTypeSignedV2 =>
      let s3Err := isReqAuthenticatedV2 r in
      if decide (s3Err <> ErrNone) then inr s3Err
      else match getReqAccessKeyV2 (keys := keys_at srv (clock 3)) r with
           | inr e => inr e
           | inl c => inl (c, body_raw src eofWithData)
           end
  | authTypeSigned | authTypePresigned =>
      let region := if decide (action = GetBucketLocationAction \/ action = ListAllMyBucketsAction)
                    then [] else globalServerRegion in
      match isReqAuthenticated r src eofWithData region serviceS3 with
      | inr e => inr e
      | inl reader =>
          match getReqAccessKeyV4 (keys := keys_at srv (clock 3)) r region serviceS3 with
          | inr e => inr e
          | inl c => inl (c, body_hashed reader)
          end
      end
  | _ => inl ((noCredentials, false), body_raw src eofWithData)
  end.

Definition checkRequestAuthTypeToAccessKey (r : Request) (src : bytes) (eofWithData : bool)
  (action bucketName objectName : bytes) : option AuthResult :=
  let failed owner e body := Some (mkAuthResult [] owner e body) in
  match authenticate_request r src eofWithData action with
  | inr e => failed false e (body_raw src eofWithData)
  | inl ((cred, owner), body) =>
      claims ← checkClaimsFromToken r cred;
      match claims with
      | inr e => failed owner e body
      | inl claims =>
          match read_location r body action with
          | inr e => failed owner e body
          | inl (locationConstraint, body) =>
              if decide (AccessKey cred = []) then
                allowed ← PolicySys_IsAllowed globalIsGateway GetBucketPolicy
                            (anonymous_args r locationConstraint action bucketName objectName) (srv_policies srv);
                if (allowed : bool) then Some (mkAuthResult (AccessKey cred) owner ErrNone body)
                else failed owner ErrAccessDenied body
              else
                allowed ← IAM_IsAllowed (iam_args r cred owner claims action bucketName objectName) (srv_iam srv);
                if (allowed : bool) then Some (mkAuthResult (AccessKey cred) owner ErrNone body)
                else failed owner ErrAccessDenied body
          end
      end
  end.
Definition checkRequestAuthType (r : Request) (src : bytes) (eofWithData : bool) (action bucketName objectName : bytes)
  : option APIErrorCode :=
  ar_err <$> checkRequestAuthTypeToAccessKey r src eofWithData action bucketName objectName.

(** The error of the verification is logged and then lost: the check of the
    token sets it again. *)
Definition checkAdminRequestAuthType (r : Request) (src : bytes) (eofWithData : bool) (action region : bytes)
  : option (Credentials * APIErrorCode * Body) :=
  let continue_with cred owner body :=
    claims ← checkClaimsFromToken r cred;
    match claims with
    | inr e => Some (cred, e, body)
    | inl claims =>
        allowed ← IAM_IsAllowed (iam_args r cred owner claims action [] []) (srv_iam srv);
        Some (cred, if (allowed : bool) then ErrNone else ErrAccessDenied, body)
    end in
  if bool_decide (is_Some (Header r !! AmzContentSha256))
     && bool_decide (getRequestAuthType r = authTypeSigned) && negb (skipContentSha256Cksum r)
  then
    match getReqAccessKeyV4 (keys := keys_at srv (clock 3)) r region serviceS3 with
    | inr e => Some (noCredentials, e, body_raw src eofWithData)
    | inl (cred, owner) =>
        continue_with cred owner
          (match isReqAuthenticated r src eofWithData region serviceS3 with
           | inl reader => body_hashed reader
           | inr _ => body_raw src eofWithData
           end)
    end
  else continue_with noCredentials false (body_raw src eofWithData).

(** An anonymous request is asked for [PutObjectAction] whatever the action. *)
Definition isPutActionAllowed (atype : authType) (bucketName objectName : bytes) (r : Request) (action : bytes)
  : option APIErrorCode :=
  let key :=
    match atype with
    | authTypeUnknown => inr ErrAccessDenied
    | authTypeSignedV2 | authTypePresignedV2 => getReqAccessKeyV2 (keys := keys_at srv (clock 3)) r
    | authTypeStreamingSigned | authTypePresigned | authTypeSigned =>
        getReqAccessKeyV4 (keys := keys_at srv (clock 3)) r globalServerRegion serviceS3
    | _ => inl (noCredentials, false)
    end in
  match key with
  | inr e => Some e
  | inl (cred, owner) =>
      claims ← checkClaimsFromToken r cred;
      match claims with
      | inr e => Some e
      | inl claims =>
          allowed ←
            (if decide (AccessKey cred = []) then
               PolicySys_IsAllowed globalIsGateway GetBucketPolicy
                 (anonymous_args r [] PutObjectAction bucketName objectName) (srv_policies srv)
             else IAM_IsAllowed (iam_args r cred owner claims action bucketName objectName) (srv_iam srv));
          Some (if (allowed : bool) then ErrNone else ErrAccessDenied)
      end
  end.

(** [authHandler.ServeHTTP]. *)
Inductive handler_outcome : Type :=
  | next_handler
  | status_unauthorized
  | error_response (e : APIErrorCode).
Definition authHandler (r : Request) : option handler_outcome :=
  let aType := getRequestAuthType r in
  if isSupportedS3AuthType aType then Some next_handler
  else if decide (aType = authTypeJWT) then
    a ← webRequestAuthenticate (srv_activeCred srv) (Some (srv_iam srv)) (clock 0) (Header r);
    Some (match a with inl _ => next_handler | inr _ => status_unauthorized end)
  else if decide (aType = authTypeSTS) then Some next_handler
  else Some (error_response ErrSignatureVersionNotSupported).
End auth.
