(* ===== verification/AuthSpec.v ===== *)
(** * Authentication: whose request it is, and what its signature covers

    Behind [requestValidityHandler], the identity that the policies are asked
    about is the one whose secret key verified the signature; requests without
    credentials get what the bucket policy allows and nothing else. *)
From S2P Require Import Prelude GoLib GoText Base64 Errors APIErrors Metadata GoTime NsLock Pool Drive World HashReader Names Credentials Wildcard Condition Policy IamPolicy Iam Bufio Streaming SignV4 SignV4Parse SignV4Canon StreamingSpec SignV4Spec SignedUpload AuthHeader SignV2 PolicySys Jwt Auth IamSpec Reference.

(** ** One kind of authentication *)
Lemma single_auth r :
  hasMultipleAuth r = false ->
  (isRequestSignatureV4 r = true -> isRequestPresignedSignatureV4 r = false /\ isRequestPresignedSignatureV2 r = false) /\
  (isRequestSignatureV2 r = true -> isRequestPresignedSignatureV2 r = false) /\
  (isRequestPresignedSignatureV4 r = true -> isRequestSignatureV4 r = false).
Proof.
  unfold hasMultipleAuth. intros E.
  destruct (isRequestSignatureV2 r) eqn:E1, (isRequestPresignedSignatureV2 r) eqn:E2, (isRequestSignatureV4 r) eqn:E3,
    (isRequestPresignedSignatureV4 r) eqn:E4; try done; exfalso; revert E; cbn;
    rewrite ?E1, ?E2, ?E3, ?E4; cbn; repeat case_decide; done.
Qed.

Lemma parseSignV4_credential v region stype sv :
  parseSignV4 v region stype = inl sv ->
  parseCredentialHeader (utf8.TrimSpace (TrimPrefix (first_field (utf8.TrimSpace v)) signV4Algorithm)) region stype
    = inl (sv_Credential sv).
Proof.
  unfold parseSignV4, parse_elements, first_field. cbv zeta. intros E.
  destruct (decide _); [done|]. destruct (HasPrefix _ _); [|done]. cbn [negb] in E.
  destruct (strings.Split (utf8.TrimSpace (TrimPrefix (Replace _ _ _) _)) _) as [|a [|b [|c [|]]]]; try done.
  destruct (parseCredentialHeader _ region stype) as [ch|]; [|done].
  destruct (parseSignedHeader b) as [hs|]; [|done]. destruct (parseSignature c); [|done]. by simplify_eq.
Qed.

(** ** The same key is verified and authorised *)
Section keys.
Context `{PolicyEnv}.

(** A key names the same credentials at any time it names any. *)
Lemma same_credentials srv t1 t2 k c1 c2 :
  checkKeyValid (keys := keys_at srv t1) k = inl c1 -> checkKeyValid (keys := keys_at srv t2) k = inl c2 -> c1 = c2.
Proof.
  unfold checkKeyValid, keys_at, globalActiveCred, GetUser, IAM_GetUser. cbn. case_decide; [|intros; by simplify_eq].
  destruct (iamUsersMap (srv_iam srv) !! k) as [cred|]; [|done].
  destruct (IsValid t1 cred), (IsValid t2 cred); intros; by simplify_eq.
Qed.

Lemma header_key (keys : KeyStore) r region stype sv c :
  isRequestPresignedSignatureV4 r = false -> isRequestSignatureV4 r = true ->
  parseSignV4 (Header_Get (Header r) Authorization) region stype = inl sv ->
  getReqAccessKeyV4 r region stype = inl c -> checkKeyValid (ch_accessKey (sv_Credential sv)) = inl c.
Proof.
  intros Hp Hv Es. unfold getReqAccessKeyV4.
  apply bool_decide_eq_false in Hp. rewrite <- eq_None_not_Some in Hp. unfold Values_Get. rewrite Hp. cbn [mbind option_bind default app].
  assert (∀ region stype, ∃ e, parseCredentialHeader (str "Credential=" ++ []) region stype = inr e) as Hno
    by (intros; eexists; reflexivity).
  destruct (Hno region stype) as [e ->]. clear Hno.
  set (auth := Header_Get (Header r) Authorization) in *. unfold isRequestSignatureV4 in Hv. fold auth in Hv.
  destruct (strings.Split (utf8.TrimSpace (TrimPrefix auth signV4Algorithm)) ","%char) as [|f [|f2 [|f3 [|]]]] eqn:Ef; try done.
  pose proof (header_credential auth region stype Hv) as Hc. rewrite Ef in Hc. specialize (Hc ltac:(cbn; lia)).
  unfold first_field at 1 in Hc. rewrite Ef in Hc. cbn in Hc.
  rewrite Hc, (parseSignV4_credential _ _ _ _ Es). done.
Qed.

Lemma presigned_key `{FloatEnv} (keys : KeyStore) r region stype psv c :
  parsePreSignV4 (URL_Query r) region stype = inl psv ->
  getReqAccessKeyV4 r region stype = inl c -> checkKeyValid (ch_accessKey (sv_Credential (psv_sign psv))) = inl c.
Proof.
  unfold parsePreSignV4, getReqAccessKeyV4. intros E. repeat case_match; simplify_eq. done.
Qed.
End keys.

(** ** Verification by one key *)

(** A server whose only key is [cred]. *)
Definition only (cred : Credentials) : KeyStore := {| globalActiveCred := cred; GetUser := None |}.

Lemma only_key cred k : AccessKey cred = k -> checkKeyValid (keys := only cred) k = inl (cred, true).
Proof. intros <-. unfold checkKeyValid, only, globalActiveCred. by rewrite decide_False by tauto. Qed.

Section identity.
Context `{UnicodeEnv} `{SigEnv} `{FloatEnv} `{SignV2Env} `{JwtEnv} `{PolicyEnv} `{StringSetEnv} `{!IamEnv} `{OSEnv} `{ScanEnv} `{AuthEnv}.
Variable EncodePath : bytes -> bytes.
Variable globalIsGateway : bool.
Variable GetBucketPolicy : bytes -> Policy + error.
Variable srv : Server.
Variable clock : nat -> time.

(** Every user is kept under its access key, and the server's key is usable. *)
Definition named_users : Prop :=
  (∀ k c, iamUsersMap (srv_iam srv) !! k = Some c -> AccessKey c = k) /\
  IsAccessKeyValid (AccessKey (srv_activeCred srv)) = true.

Lemma key_named now k cred owner :
  named_users -> checkKeyValid (keys := keys_at srv now) k = inl (cred, owner) ->
  AccessKey cred = k /\ AccessKey cred <> [].
Proof.
  intros [Hu Ha]. unfold checkKeyValid, keys_at, globalActiveCred, GetUser, IAM_GetUser. cbn. case_decide as Hk.
  - destruct (iamUsersMap (srv_iam srv) !! k) as [c|] eqn:E; [|done]. destruct (IsValid now c) eqn:Ev; [|done].
    intros [= <- <-]. split; [by apply Hu|]. unfold IsValid in Ev. case_decide; [done|].
    intros En. rewrite En in Ev. done.
  - intros [= <- <-]. split; [done|]. intros En. by rewrite En in Ha.
Qed.

(** Whether a request verifies on a server whose only key is [cred]. *)
Definition verified_by (cred : Credentials) (r : Request) (body region : bytes) : Prop :=
  match getRequestAuthType r with
  | authTypeSigned =>
      doesSignatureMatch (keys := only cred) EncodePath (getContentSha256Cksum r body serviceS3) r region serviceS3 = ErrNone
  | authTypePresigned =>
      doesPresignedSignatureMatch (keys := only cred) EncodePath (clock 1) (clock 2)
        (getContentSha256Cksum r body serviceS3) r region serviceS3 = ErrNone
  | authTypeSignedV2 => doesSignV2Match (keys := only cred) r = ErrNone
  | _ => False
  end.

Lemma signed_by_key now1 now2 payload r region c :
  named_users -> isRequestPresignedSignatureV4 r = false -> isRequestSignatureV4 r = true ->
  doesSignatureMatch (keys := keys_at srv now1) EncodePath payload r region serviceS3 = ErrNone ->
  getReqAccessKeyV4 (keys := keys_at srv now2) r region serviceS3 = inl c ->
  doesSignatureMatch (keys := only c.1) EncodePath payload r region serviceS3 = ErrNone.
Proof.
  intros Hu Hp Hv Hm Hc. apply doesSignatureMatch_iff in Hm as (sv & h & cred & owner & t & [R1 R2 R3 R4] & Hs).
  pose proof (header_key _ _ _ _ _ _ Hp Hv R1 Hc) as Hk. pose proof (same_credentials _ _ _ _ _ _ R3 Hk) as <-.
  apply doesSignatureMatch_iff. exists sv, h, cred, true, t. split; [|done]. split; [done..| |done].
  by eapply only_key, key_named.
Qed.

Lemma presigned_by_key now0 now1 now2 now3 payload r region c :
  named_users ->
  doesPresignedSignatureMatch (keys := keys_at srv now0) EncodePath now1 now2 payload r region serviceS3 = ErrNone ->
  getReqAccessKeyV4 (keys := keys_at srv now3) r region serviceS3 = inl c ->
  doesPresignedSignatureMatch (keys := only c.1) EncodePath now1 now2 payload r region serviceS3 = ErrNone.
Proof.
  intros Hu Hm Hc. unfold doesPresignedSignatureMatch in *. cbv zeta in *.
  destruct (parsePreSignV4 _ _ _) as [psv|e] eqn:Ep; [|done].
  pose proof (presigned_key _ _ _ _ _ _ Ep Hc) as Hk.
  pose proof (@checkKeyValid_fails (keys_at srv now0) (ch_accessKey (sv_Credential (psv_sign psv)))) as Hf.
  destruct (checkKeyValid (keys := keys_at srv now0) _) as [[cred owner]|e] eqn:E0; [|by subst e; destruct Hf].
  pose proof (same_credentials _ _ _ _ _ _ E0 Hk) as <-.
  by rewrite (only_key cred) by (by eapply key_named).
Qed.

(** The key a request names does not depend on who knows it. *)
Lemma v2_key r (keys : KeyStore) c :
  getReqAccessKeyV2 r = inl c -> ∃ k, checkKeyValid k = inl c /\
    ∀ keys' : KeyStore, getReqAccessKeyV2 (keys := keys') r = checkKeyValid (keys := keys') k.
Proof.
  unfold getReqAccessKeyV2. case_decide; [eauto|].
  destruct (strings.Split (Header_Get _ _) _) as [|a [|b [|]]]; try done.
  destruct (strings.Split (utf8.TrimSpace b) _) as [|d [|e [|]]]; try done. eauto.
Qed.

Lemma v2_by_key now0 now3 r c :
  named_users -> doesSignV2Match (keys := keys_at srv now0) r = ErrNone ->
  getReqAccessKeyV2 (keys := keys_at srv now3) r = inl c -> doesSignV2Match (keys := only c.1) r = ErrNone.
Proof.
  intros Hu Hm Hc. destruct (v2_key _ _ _ Hc) as (k & Hk & Hall).
  unfold doesSignV2Match, validateV2AuthHeader in *. rewrite Hall in *.
  destruct (split_uri (RequestURI r)) as [p q]. case_decide; [done|]. destruct (HasPrefix _ signV2Algorithm); [|done].
  cbn [negb] in *.
  pose proof (@checkKeyValid_fails (keys_at srv now0) k) as Hf.
  destruct (checkKeyValid (keys := keys_at srv now0) k) as [[cred owner]|e] eqn:E0; [|by subst e; destruct Hf].
  pose proof (same_credentials _ _ _ _ _ _ E0 Hk) as <-.
  by rewrite (only_key cred) by (by eapply key_named).
Qed.

(** The errors are errors. *)
Lemma getReqAccessKeyV4_fails (keys : KeyStore) r region stype : getReqAccessKeyV4 r region stype <> inr ErrNone.
Proof.
  unfold getReqAccessKeyV4. pose proof checkKeyValid_fails. pose proof parseCredentialHeader_fails. unfold fails in *.
  repeat case_match; try done; congruence.
Qed.
Lemma getReqAccessKeyV2_fails (keys : KeyStore) r : getReqAccessKeyV2 r <> inr ErrNone.
Proof. unfold getReqAccessKeyV2. pose proof checkKeyValid_fails. unfold fails in *. repeat case_match; done. Qed.

Lemma isReqAuthenticated_fails r src eof region stype :
  isReqAuthenticated EncodePath srv clock r src eof region stype <> inr ErrNone.
Proof.
  unfold isReqAuthenticated. cbv zeta. destruct (decide _) as [He|_]; [congruence|].
  destruct (checkValidMD5 _) as [md5|]; [|done]. unfold content_sha256, NewReader. rewrite hex.Decode_Encode.
  assert (∀ x : bytes, x = x) by done. repeat case_match; simplify_eq; try done;
    rewrite hex.Decode_Encode; done.
Qed.

Lemma authenticate_fails r src eof action : authenticate_request EncodePath srv clock r src eof action <> inr ErrNone.
Proof.
  unfold authenticate_request. destruct (getRequestAuthType r); try done.
  - pose proof (isReqAuthenticated_fails r src eof) as Hf. destruct (isReqAuthenticated _ _ _ _ _ _ _ _) eqn:E; [|by intros [= ->]; eapply Hf].
    pose proof (getReqAccessKeyV4_fails (keys_at srv (clock 3)) r) as Hk.
    destruct (getReqAccessKeyV4 _ _ _) eqn:Ek; [done|]. by intros [= ->]; eapply Hk.
  - destruct (decide _) as [?|_]; [congruence|]. pose proof (getReqAccessKeyV2_fails (keys_at srv (clock 3)) r) as Hk.
    destruct (getReqAccessKeyV2 _); [done|]. by intros [= ->].
  - pose proof (isReqAuthenticated_fails r src eof) as Hf. destruct (isReqAuthenticated _ _ _ _ _ _ _ _) eqn:E; [|by intros [= ->]; eapply Hf].
    pose proof (getReqAccessKeyV4_fails (keys_at srv (clock 3)) r) as Hk.
    destruct (getReqAccessKeyV4 _ _ _) eqn:Ek; [done|]. by intros [= ->]; eapply Hk.
  - destruct (decide _) as [?|_]; [congruence|]. pose proof (getReqAccessKeyV2_fails (keys_at srv (clock 3)) r) as Hk.
    destruct (getReqAccessKeyV2 _); [done|]. by intros [= ->].
Qed.

Lemma claims_checked r cred cl :
  checkClaimsFromToken srv clock r cred = Some cl ->
  (∀ claims, cl = inl claims -> getSessionToken r = SessionToken cred /\ getClaimsFromToken srv clock r = Some (inl claims))
  /\ cl <> inr ErrNone.
Proof.
  unfold checkClaimsFromToken. cbv zeta. destruct (decide _); [by intros [= <-]|].
  destruct (decide _) as [|Ht]; [by intros [= <-]|]. apply dec_stable in Ht.
  intros (c & -> & Ec)%bind_Some. apply (inj Some) in Ec. subst cl. destruct c as [m|err]; split; try done.
  - intros claims [= <-]. done.
  - intros E. pose proof (f_equal (λ x : claims_map + APIErrorCode, match x with inr c => c | _ => ErrNone end) E) as E'.
    by apply toAPIErrorCode_None in E'.
Qed.

Lemma read_location_fails r body action : read_location r body action <> inr ErrNone.
Proof. unfold read_location, parseLocationConstraint. repeat case_match; simplify_eq; done. Qed.

(** The region a signature must be for. *)
Definition region_of (action : bytes) : bytes :=
  if decide (action = GetBucketLocationAction \/ action = ListAllMyBucketsAction) then [] else globalServerRegion.

Abbreviation check := (checkRequestAuthTypeToAccessKey EncodePath globalIsGateway GetBucketPolicy srv clock).
Abbreviation authentic := (authenticate_request EncodePath srv clock).

(** What the switch on the kind of a request establishes. *)
Lemma authenticate_verified r src eof action cred owner body :
  named_users -> hasMultipleAuth r = false -> getRequestAuthType r <> authTypePresignedV2 ->
  authentic r src eof action = inl ((cred, owner), body) ->
  (cred = noCredentials /\ owner = false /\ body = body_raw src eof /\
     getRequestAuthType r ∈ [authTypeAnonymous; authTypePostPolicy; authTypeJWT; authTypeSTS]) \/
  (AccessKey cred <> [] /\ checkKeyValid (keys := keys_at srv (clock 3)) (AccessKey cred) = inl (cred, owner) /\
     verified_by cred r src (region_of action)).
Proof.
  intros Hu Hm Hv2. destruct (single_auth r Hm) as (S1 & S2 & S3). unfold authenticate_request, verified_by.
  assert (∀ k, checkKeyValid (keys := keys_at srv (clock 3)) k = inl (cred, owner) ->
    AccessKey cred <> [] /\ checkKeyValid (keys := keys_at srv (clock 3)) (AccessKey cred) = inl (cred, owner)) as Hkey.
  { intros k Hk. destruct (key_named _ _ _ _ Hu Hk) as [Ek Hn]. by subst k. }
  destruct (getRequestAuthType r) eqn:Et; try done;
    try (intros [= <- <- <-]; left; split_and!; try done; rewrite ?list_elem_of_In; cbn; tauto).
  - (* presigned *)
    fold (region_of action). unfold isReqAuthenticated, reqSignatureV4Verify.
    assert (isRequestSignatureV4 r = false /\ isRequestPresignedSignatureV4 r = true) as [-> ->].
    { unfold getRequestAuthType in Et. repeat case_match; done. }
    intros E. right. destruct (decide _) as [?|Hs]; [done|]. apply dec_stable in Hs.
    destruct (checkValidMD5 _) as [md5|]; [|done]. destruct (content_sha256 r) as [sha|]; [|done].
    destruct (NewReader _ _ _ _ _ _ _) as [rd|]; [|done].
    destruct (getReqAccessKeyV4 _ _ _) as [c|] eqn:Ec; [|done]. injection E as -> <-.
    pose proof (presigned_by_key _ _ _ _ _ _ _ _ Hu Hs Ec) as Hv.
    unfold doesPresignedSignatureMatch in Hs. pose proof (parsePreSignV4_fails (URL_Query r) (region_of action) serviceS3) as Hf.
    destruct (parsePreSignV4 _ _ _) as [psv|] eqn:Ep; [|by subst; destruct Hf].
    pose proof (presigned_key _ _ _ _ _ _ Ep Ec) as Hk. by apply Hkey in Hk as [? ?].
  - (* signed in the header *)
    fold (region_of action). unfold isReqAuthenticated, reqSignatureV4Verify.
    assert (isRequestSignatureV4 r = true) as Hv4 by (unfold getRequestAuthType in Et; repeat case_match; done).
    rewrite Hv4. destruct (S1 Hv4) as [Hp _].
    intros E. right. destruct (decide _) as [?|Hs]; [done|]. apply dec_stable in Hs.
    destruct (checkValidMD5 _) as [md5|]; [|done]. destruct (content_sha256 r) as [sha|]; [|done].
    destruct (NewReader _ _ _ _ _ _ _) as [rd|]; [|done].
    destruct (getReqAccessKeyV4 _ _ _) as [c|] eqn:Ec; [|done]. injection E as -> <-.
    pose proof (signed_by_key _ _ _ _ _ _ Hu Hp Hv4 Hs Ec) as Hv.
    apply doesSignatureMatch_iff in Hs as (sv & h & c0 & o0 & t & [R1 _ _ _] & _).
    pose proof (header_key _ _ _ _ _ _ Hp Hv4 R1 Ec) as Hk. by apply Hkey in Hk as [? ?].
  - (* version 2 *)
    assert (isRequestSignatureV2 r = true) as Hv by (unfold getRequestAuthType in Et; repeat case_match; done).
    unfold isReqAuthenticatedV2. rewrite Hv. intros E. right. destruct (decide _) as [?|Hs]; [done|]. apply dec_stable in Hs.
    destruct (getReqAccessKeyV2 _) as [c|] eqn:Ec; [|done]. injection E as -> <-.
    pose proof (v2_by_key _ _ _ _ Hu Hs Ec) as Hok. destruct (v2_key _ _ _ Ec) as (k & Hk & _).
    by apply Hkey in Hk as [? ?].
Qed.

(** C2. Whose request it is: a request that passed [requestValidityHandler] and
    that [checkRequestAuthTypeToAccessKey] lets through either carries no
    credentials, no session token, and is allowed to everybody by the policy of
    its bucket; or it verifies on a server that knows one key only, and that key,
    with its session token, is the one returned and the one whose IAM policies
    allow the action.  (Presigned requests of version 2 are excepted.) *)
Theorem authenticated_identity r src eof action bucket object res :
  named_users -> requestValidityHandler r = None -> getRequestAuthType r <> authTypePresignedV2 ->
  check r src eof action bucket object = Some res -> ar_err res = ErrNone ->
  (ar_accessKey res = [] /\ ar_owner res = false /\ getSessionToken r = [] /\
     getRequestAuthType r ∈ [authTypeAnonymous; authTypePostPolicy; authTypeJWT; authTypeSTS] /\
     ∃ location, PolicySys_IsAllowed globalIsGateway GetBucketPolicy
                   (anonymous_args clock r location action bucket object) (srv_policies srv) = Some true) \/
  ∃ cred claims, ar_accessKey res = AccessKey cred /\ AccessKey cred <> [] /\
    checkKeyValid (keys := keys_at srv (clock 3)) (AccessKey cred) = inl (cred, ar_owner res) /\
    verified_by cred r src (region_of action) /\ getSessionToken r = SessionToken cred /\
    getClaimsFromToken srv clock r = Some (inl claims) /\
    IAM_IsAllowed (iam_args clock r cred (ar_owner res) claims action bucket object) (srv_iam srv) = Some true.
Proof.
  intros Hu Hval Hv2. assert (hasMultipleAuth r = false) as Hm.
  { unfold requestValidityHandler in Hval. by repeat case_match. }
  unfold checkRequestAuthTypeToAccessKey. cbv zeta.
  destruct (authentic r src eof action) as [[[cred owner] body]|e] eqn:Ea.
  2: { intros [= <-] He. cbn in He. subst e. by apply authenticate_fails in Ea. }
  pose proof (authenticate_verified _ _ _ _ _ _ _ Hu Hm Hv2 Ea) as Hver.
  intros (cl & Hcl & E)%bind_Some Herr. apply claims_checked in Hcl as (Hcl & Hce).
  destruct cl as [claims|e]; [|by simplify_eq; cbn in Herr; subst e]. destruct (Hcl _ eq_refl) as [Htok Hget].
  destruct (read_location _ _ _) as [[location body']|e] eqn:El.
  2: { simplify_eq. cbn in Herr. subst e. by apply read_location_fails in El. }
  destruct Hver as [(-> & -> & -> & Hty)|(Hn & Hk & Hv)].
  - left. rewrite decide_True in E by done. apply bind_Some in E as ([] & Hal & E); simplify_eq. cbn in *.
    split_and!; try done. by exists location.
  - right. rewrite decide_False in E by done. apply bind_Some in E as ([] & Hal & E); simplify_eq. cbn in *.
    exists cred, claims. split_and!; done.
Qed.

(** C17. What a signed body is: for a request signed in its header that announces
    the SHA-256 of its content, the announced sum is the payload line of the
    request that the signature was verified for, and a handler that reads the
    body it is given to the end without an error has read the bytes sent, and
    they have that sum. *)
Theorem authenticated_body r src eof action bucket object res h data limit :
  requestValidityHandler r = None -> getRequestAuthType r = authTypeSigned -> action <> CreateBucketAction ->
  Header r !! AmzContentSha256 = Some [h] -> h <> unsignedPayload ->
  check r src eof action bucket object = Some res -> ar_err res = ErrNone ->
  (length src < limit)%nat -> read_limited (ar_body res) limit = inl data ->
  getContentSha256Cksum r src serviceS3 = h /\ data = src /\ hex.DecodeString h = Some (sha256_sum src).
Proof.
  intros Hval Ht Hact Hh Hun. assert (hasMultipleAuth r = false) as Hm.
  { unfold requestValidityHandler in Hval. by repeat case_match. }
  assert (isRequestSignatureV4 r = true) as Hv4 by (unfold getRequestAuthType in Ht; repeat case_match; done).
  destruct (single_auth r Hm) as (S1 & _ & _). destruct (S1 Hv4) as [Hp _].
  assert (content_sha256_values r = Some [h]) as Hcv by (unfold content_sha256_values; by rewrite Hp).
  unfold checkRequestAuthTypeToAccessKey. cbv zeta.
  destruct (authentic r src eof action) as [[[cred owner] body]|e] eqn:Ea.
  2: { intros [= <-] He. cbn in He. subst e. by apply authenticate_fails in Ea. }
  intros (cl & Hcl & E)%bind_Some Herr Hlim Hread.
  destruct cl as [claims|e]; [|by apply claims_checked in Hcl as [_ ?]; simplify_eq; cbn in Herr; subst e].
  unfold read_location in E. rewrite decide_False in E by done.
  assert (ar_body res = body) as Hb.
  { destruct (decide _) in E; apply bind_Some in E as ([] & _ & E); by simplify_eq. }
  rewrite Hb in Hread. clear E Hb. unfold authenticate_request in Ea. rewrite Ht in Ea.
  destruct (isReqAuthenticated _ _ _ _ _ _ _ _) as [reader|] eqn:Er; [|done].
  destruct (getReqAccessKeyV4 _ _ _) as [c|]; [|done]. injection Ea as -> <-.
  split; [unfold getContentSha256Cksum; by rewrite decide_False, Hcv|].
  unfold isReqAuthenticated in Er. destruct (decide _) in Er; [done|].
  destruct (checkValidMD5 _) as [md5|]; [|done].
  unfold content_sha256, skipContentSha256Cksum in Er. rewrite Hcv, Hp in Er. cbn [head default] in Er.
  rewrite bool_decide_true in Er by done. cbn [negb andb] in Er. rewrite bool_decide_true in Er by (by rewrite Hh).
  assert (Header_Get (Header r) AmzContentSha256 = h) as Hg.
  { unfold Header_Get, Values_Get. change (CanonicalHeaderKey AmzContentSha256) with AmzContentSha256. by rewrite Hh. }
  rewrite Hg in Er. destruct (hex.DecodeString h) as [[|c0 sum]|]; [done| |done].
  unfold NewReader in Er. rewrite !hex.Decode_Encode in Er. injection Er as <-.
  unfold read_limited in Hread. cbn [r_src r_eofWithData] in Hread. change (0 <=? -1) with false in Hread. cbn match in Hread.
  rewrite (proj2 (Nat.ltb_lt _ _) Hlim) in Hread. cbn [orb] in Hread.
  destruct (Verify _) as [e|] eqn:Ev; [done|]. injection Hread as <-. split; [done|].
  unfold Verify, advance in Ev. cbn [r_src r_sha256Hash r_sha256sum r_consumed app] in Ev.
  rewrite firstn_all in Ev. rewrite bool_decide_true in Ev by done. cbn [andb] in Ev.
  case_bool_decide as Hs; [|done]. by rewrite Hs.
Qed.
End identity.

(** ** A server and its requests *)
Module AuthScenario.
Export SignScenario IamSpec.IamScenario.
#[export] Instance ref_v2 : SignV2Env := {| hmac_sha1 k d := take 20 (k ++ d); globalDomainNames := [] |}.
(** One token, of a temporary credential. *)
Definition session : claims_map :=
  <[str "accessKey" := claim_string (str "temporary")]> {[ str "policy" := claim_string (str "readwrite") ]}.
#[export] Instance ref_jwt : JwtEnv := {|
  hmac_sum _ k d := take 8 (k ++ d);
  json_header_alg b := if decide (b = str "header") then Some (str "HS512") else None;
  json_map_claims b := if decide (b = str "claims") then Some session else None;
  json_standard_claims _ := None;
  jwtgo_MapClaims_Valid now _ := now <=? 100;
  jwtgo_StandardClaims_Valid _ _ := false;
  SignedString _ _ := inr errUnexpected;
  StandardSignedString _ _ := inr errUnexpected;
  ExtractToken _ := None |}.
#[export] Existing Instance Ref.os.
#[export] Instance ref_scan : ScanEnv := {| scan_short_body _ := None |}.
#[export] Instance ref_auth : AuthEnv := {|
  globalServerRegion := []; StrictS3Compat := false; xml_location _ _ := Some [] |}.

Definition server : Server := mkServer PolicyScenario.env root system {[ str "docs" := PolicyScenario.docs_policy ]}.
Definition clock (_ : nat) : time := SignScenario.t.
Definition checked := checkRequestAuthTypeToAccessKey encode_path false (λ _, inr errUnexpected) server clock.

Lemma server_named : named_users server.
Proof.
  split; [|reflexivity]. intros k c Hk.
  assert (forallb (λ e : bytes * Credentials, bool_decide (AccessKey e.2 = e.1)) (map_to_list (iamUsersMap system)) = true) as Hall
    by (vm_compute; reflexivity).
  rewrite forallb_forall in Hall. apply elem_of_map_to_list, list_elem_of_In, Hall in Hk. by apply bool_decide_eq_true in Hk.
Qed.
Example root_gets :
  (λ a, (ar_accessKey a, ar_owner a, ar_err a)) <$> checked get [] true GetObjectAction (str "b") (str "my object")
  = Some (AccessKey root, true, ErrNone).
Proof. vm_compute. reflexivity. Qed.
(** A request that announces the sum of its body. *)
Definition body_sum : bytes := hex.EncodeToString (sha256_sum (str "hello")).
Definition announced : Request := unsigned (str "POST") body_sum (auth (str "POST") body_sum) ∅.
Example root_posts :
  ar_err <$> checked announced (str "hello") true PutObjectAction (str "b") (str "my object") = Some ErrNone.
Proof. vm_compute. reflexivity. Qed.
Example root_reads :
  match checked announced (str "hello") true PutObjectAction (str "b") (str "my object") with
  | Some res => read_limited (ar_body res) 100 = inl (str "hello")
  | None => False
  end.
Proof. vm_compute. reflexivity. Qed.
End AuthScenario.
Import AuthScenario.

Lemma authenticated_identity_witness :
  ∃ cred, AccessKey cred = AccessKey root /\ verified_by encode_path clock cred get [] [].
Proof.
  pose proof root_gets as Hg.
  destruct (checked get [] true GetObjectAction (str "b") (str "my object")) as [res|] eqn:E; [|discriminate Hg].
  injection Hg as Ha Ho He.
  destruct (authenticated_identity encode_path false (λ _, inr errUnexpected) server clock get [] true GetObjectAction
              (str "b") (str "my object") res server_named) as [(Hn & _)|(cred & claims & Hk & _ & _ & Hv & _)].
  - vm_compute. reflexivity.
  - vm_compute. discriminate.
  - exact E.
  - exact He.
  - rewrite Ha in Hn. discriminate Hn.
  - exists cred. split; [by rewrite <- Hk|exact Hv].
Defined.

Lemma authenticated_body_witness :
  getContentSha256Cksum announced (str "hello") serviceS3 = body_sum /\ hex.DecodeString body_sum = Some (sha256_sum (str "hello")).
Proof.
  pose proof root_posts as Hp. pose proof root_reads as Hr.
  destruct (checked announced (str "hello") true PutObjectAction (str "b") (str "my object")) as [res|] eqn:E; [|destruct Hr].
  injection Hp as He.
  destruct (authenticated_body encode_path false (λ _, inr errUnexpected) server clock announced (str "hello") true
              PutObjectAction (str "b") (str "my object") res body_sum (str "hello") 100) as (H1 & _ & H2).
  - vm_compute. reflexivity.
  - vm_compute. reflexivity.
  - vm_compute. discriminate.
  - vm_compute. reflexivity.
  - vm_compute. discriminate.
  - exact E.
  - exact He.
  - apply Nat.ltb_lt. vm_compute. reflexivity.
  - exact Hr.
  - split; [exact H1|exact H2].
Defined.
