(* ===== verification/AccessFindings.v ===== *)
(** * Findings: authentication and access

    Behaviours of the code that its comments, its documentation or the rest of
    the code contradict, each shown by a run of the model or by a short lemma. *)
From S2P Require Import Prelude GoLib GoText Base64 Errors APIErrors Metadata GoTime NsLock Pool Drive World HashReader Names Credentials Wildcard Condition Policy IamPolicy Iam Bufio Streaming SignV4 SignV4Parse SignV4Canon StreamingSpec SignV4Spec SignedUpload SignV2 PolicySys Jwt Auth IamSpec Reference AuthHeader AuthSpec.
Import AuthScenario.

(** ** The administration interface does not need a signature *)
Section admin.
Context `{UnicodeEnv} `{SigEnv} `{FloatEnv} `{SignV2Env} `{JwtEnv} `{PolicyEnv} `{StringSetEnv} `{!IamEnv} `{OSEnv} `{ScanEnv} `{AuthEnv}.
Variable EncodePath : bytes -> bytes.
Variable srv : Server.
Variable clock : nat -> time.

(** Whoever names the access key of the server in an Authorization header of
    version 4 passes [checkAdminRequestAuthType] as the server's owner: nothing
    in the conclusion mentions the signature. *)
Lemma admin_signature_ignored r src eof action region :
  is_Some (Header r !! AmzContentSha256) -> getRequestAuthType r = authTypeSigned -> skipContentSha256Cksum r = false ->
  getReqAccessKeyV4 (keys := keys_at srv (clock 3)) r region serviceS3 = inl (srv_activeCred srv, true) ->
  getSessionToken r = [] -> SessionToken (srv_activeCred srv) = [] -> globalPolicyOPA = None ->
  ∃ body, checkAdminRequestAuthType EncodePath srv clock r src eof action region = Some (srv_activeCred srv, ErrNone, body).
Proof.
  intros Hh Ht Hs Hk Htok Hst Hopa. unfold checkAdminRequestAuthType. cbv zeta.
  rewrite !bool_decide_true, Hs by done. cbn [negb andb]. rewrite Hk. eexists.
  unfold checkClaimsFromToken, getClaimsFromToken. cbv zeta. rewrite Htok, Hst, decide_False by tauto.
  rewrite decide_False by tauto. rewrite decide_True by done. cbn [mbind option_bind].
  unfold IAM_IsAllowed. rewrite Hopa. reflexivity.
Qed.

(** A first segment of more than 8192 bytes makes the parser of tokens panic. *)
Lemma long_token_panics now header rest fn :
  (base64_buffer < length header)%nat -> "."%char ∉ rest ->
  ParseWithClaims now (base64.EncodeRaw header ++ "."%char :: rest ++ "."%char :: rest) fn = None.
Proof.
  intros Hl Hr. unfold ParseWithClaims, ParseUnverified.
  rewrite strings.Split_app_sep, strings.Split_app_sep, strings.Split_no_sep by (done || apply encoded_no_dot).
  unfold segment, base64Decode. by rewrite base64.DecodeRaw_overflow.
Qed.
End admin.

Definition forged : Request :=
  unsigned (str "GET") emptySHA256
    (authorization (AccessKey root) (scope_string SignScenario.t (str "us-east-1") serviceS3) (hs emptySHA256).*1 (str "00")) ∅.
Example forged_admin_request :
  isReqAuthenticated encode_path server clock forged [] true [] serviceS3 = inr ErrSignatureDoesNotMatch /\
  option_map fst (checkAdminRequestAuthType encode_path server clock forged [] true DeleteUserAdminAction [])
    = Some (root, ErrNone).
Proof. vm_compute. split; reflexivity. Qed.

(** ** A presigned request of version 2 that names two keys *)

(** The signature is checked for the last key, and the first one is authorised:
    a user acts as the owner. *)
Definition v2_query (signature : bytes) : bytes :=
  str "AWSAccessKeyId=AKIDEXAMPLE&AWSAccessKeyId=bobby&Expires=2000000000&Signature=" ++ QueryEscape signature.
Definition v2_signature_of_bob : bytes :=
  calculateSignatureV2 (getStringToSignV2 (str "DELETE") (str "/docs/letter") [] ∅ (str "2000000000")) (str "secret-of-bob").
Definition two_keys : Request :=
  mkRequest (str "DELETE") (str "/docs/letter") (v2_query v2_signature_of_bob) ∅ (str "example.com") [] 0
    (str "/docs/letter?" ++ v2_query v2_signature_of_bob) (str "10.0.0.1:4000") false.
Example two_keys_escalate :
  requestValidityHandler two_keys = None /\
  (λ a, (ar_accessKey a, ar_owner a, ar_err a)) <$> checked two_keys [] true DeleteObjectAction (str "docs") (str "letter")
    = Some (AccessKey root, true, ErrNone).
Proof. vm_compute. split; reflexivity. Qed.

(** ** A signed request without X-Amz-Content-Sha256 *)

(** The signature is over the sum of an empty body, and the body is not checked. *)
Definition no_sum_headers : list (bytes * bytes) :=
  [(str "host", str "example.com"); (str "x-amz-date", Format_iso8601 SignScenario.t)].
Definition no_sum_request (auth : bytes) : Request :=
  mkRequest (str "POST") (str "/b/o") [] (<[Authorization := [auth]]> {[ AmzDate := [Format_iso8601 SignScenario.t] ]})
    (str "example.com") [] 5 (str "/b/o") (str "10.0.0.1:4000") false.
Definition no_sum : Request :=
  no_sum_request
    (authorization (AccessKey root) (scope_string SignScenario.t (str "us-east-1") serviceS3) no_sum_headers.*1
       (client_signature encode_path (SecretKey root) (str "POST") (str "/b/o") ∅ no_sum_headers emptySHA256
          SignScenario.t (str "us-east-1"))).
Example any_body :
  match checked no_sum (str "anything") true PutObjectAction (str "b") (str "o") with
  | Some res => ar_err res = ErrNone /\ read_limited (ar_body res) 100 = inl (str "anything")
  | None => False
  end.
Proof. vm_compute. split; reflexivity. Qed.

(** ** The values of conditions *)
Definition spoofed : Request :=
  mkRequest (str "GET") (str "/docs/letter") [] {[ str "Sourceip" := [str "10.9.9.9"] ]} (str "example.com") [] 0
    (str "/docs/letter") (str "192.0.2.1:4000") false.
(** A header of the client replaces the address that conditions on
    aws:SourceIp test, and aws:CurrentTime has no value. *)
Example condition_values :
  GetSourceIP spoofed = str "192.0.2.1" /\
  request_value (str "aws:SourceIp") (getConditionValues 0 spoofed [] [] ∅) = [str "10.9.9.9"] /\
  request_value (str "aws:CurrentTime") (getConditionValues 0 spoofed [] [] ∅) = [].
Proof. vm_compute. auto. Qed.

(** ** Actions that cannot be granted by name *)
Example lifecycle_action : iam_Action_IsValid PutBucketLifecycleAction = false /\ iam_Action_IsValid GetBucketLifecycleAction = false.
Proof. vm_compute. auto. Qed.
Example group_action : AdminAction_IsValid GetGroupAdminAction = false /\ AdminAction_IsValid AccountingUsageInfoAdminAction = false.
Proof. vm_compute. auto. Qed.

(** ** Users and groups *)

(** A user that is created disabled can authenticate. *)
Definition disabled_user : IAMSys :=
  (SetUser (str "carol") (mkUserInfo (str "secret-of-carol") [] AccountDisabled []) fresh).2.
Example disabled_user_authenticates : is_Some (IAM_GetUser now disabled_user (str "carol")).
Proof. vm_compute. eauto. Qed.

(** An empty group without a policy cannot be removed. *)
Definition empty_group : IAMSys :=
  (RemoveUsersFromGroup (str "readers") [ann] (AddUsersToGroup (str "readers") [ann] (add_ann fresh)).2).2.
Example empty_group_stays : (RemoveUsersFromGroup (str "readers") [] empty_group).1 = Some errNoSuchPolicy.
Proof. vm_compute. reflexivity. Qed.

(** A node that is told to reload a group that was deleted reports an error and
    keeps it. *)
Definition deleted_elsewhere : IAMSys := set_store no_files system.
Example deleted_group_stays :
  let '(err, s) := LoadGroup (str "readers") deleted_elsewhere in
  err = Some errNoSuchGroup /\ is_Some (iamGroupsMap s !! str "readers").
Proof. vm_compute. eauto. Qed.

(** After a reload from a store in which a user has left a group, the user is
    still counted as its member. *)
Definition left_elsewhere : IAMSys :=
  match store (RemoveUsersFromGroup (str "readers") [ann] system).2 with Some st => set_store st system | None => system end.
Example stale_membership :
  let '(err, s) := loadAll now left_elsewhere in
  err = None /\ (gi_Members <$> iamGroupsMap s !! str "readers") = Some [] /\
  IAM_IsAllowed (asks ann GetObjectAction ∅) s = Some true.
Proof. vm_compute. auto. Qed.

(** Deleting a policy that is not there fails, although the code means to ignore
    that. *)
Example delete_missing_policy : (DeletePolicy (str "nothing") fresh).1 = Some errNoSuchPolicy.
Proof. vm_compute. reflexivity. Qed.

(** The policy of a session does not restrict a user of LDAP, for whom
    docs/sts/ldap.md promises the intersection: with a session policy that only
    reads, such a token writes. *)
Definition ldap_token : claims_map :=
  <[ldapUser := claim_string ann]> (<[ldapGroups := claim_list []]> {[ SessionPolicyName := claim_string (str "read") ]}).
Definition ldap_system : IAMSys :=
  (SetTempUser (str "temporary") (mkCredentials (str "temporary") (str "secret-of-temp") 100 (str "token") (str "on")) []
     (PolicyDBSet ann (str "readwrite") false (add_ann fresh)).2).2.
Example ldap_session_policy_ignored :
  iam_ParseConfig (str "read") = Some ReadOnly /\
  iam_Policy_IsAllowed ReadOnly (asks (str "temporary") PutObjectAction ldap_token) = Some false /\
  IAM_IsAllowed (asks (str "temporary") PutObjectAction ldap_token) ldap_system = Some true.
Proof. vm_compute. auto. Qed.

(** ** Anonymous uploads *)

(** Without credentials the bucket policy is asked for s3:PutObject, whatever
    the action is. *)
Definition anonymous : Request :=
  mkRequest (str "PUT") (str "/docs/letter") [] ∅ (str "example.com") [] 0 (str "/docs/letter") (str "10.0.0.1:4000") false.
Definition put_policy : Policy :=
  mkPolicy [] DefaultVersion [mkStatement [] Allow [str "*"] [PutObjectAction] [NewResource (str "docs") (str "*")] []].
Definition open_server : Server := mkServer PolicyScenario.env root system {[ str "docs" := put_policy ]}.
Example anonymous_any_action :
  isPutActionAllowed false (λ _, inr errUnexpected) open_server clock authTypeAnonymous (str "docs") (str "letter") anonymous
    PutObjectRetentionAction = Some ErrNone.
Proof. vm_compute. reflexivity. Qed.
