(* ===== verification/ObjectLock.v ===== *)
(** * Object locking: pkg/bucket/object/lock/lock.go, cmd/object-lock.go

    An object may be on legal hold, or retained until a date in one of two modes.
    Both are entries of the metadata of the object.  A bucket that was created
    with locking has an entry in the table [BucketObjectLockConfig], which may
    hold a default retention.  [enforceRetentionBypassForDelete],
    [enforceRetentionBypassForPut] and [checkPutObjectLockAllowed] decide whether
    a request may delete an object, change its retention, or overwrite it.

    [UTCNowNTP] may ask a time server and fail: its answers are arguments of type
    [option time].  The decoder of encoding/xml is not modelled: the functions
    that decode a document take the fields that the decoder filled in, or its
    error. *)
From S2P Require Import Prelude GoLib GoText Errors APIErrors Metadata GoTime GoDate.

(** ** Names of headers (cmd/http/headers.go) *)
Definition AmzObjectLockMode : bytes := str "X-Amz-Object-Lock-Mode".
Definition AmzObjectLockRetainUntilDate : bytes := str "X-Amz-Object-Lock-Retain-Until-Date".
Definition AmzObjectLockLegalHold : bytes := str "X-Amz-Object-Lock-Legal-Hold".
Definition AmzObjectLockBypassGovernance : bytes := str "X-Amz-Bypass-Governance-Retention".

(** ** Modes and the status of a legal hold *)
Definition Mode := bytes.
Definition Governance : Mode := str "GOVERNANCE".
Definition Compliance : Mode := str "COMPLIANCE".
Definition Invalid : Mode := [].

Definition LegalHoldStatus := bytes.
Definition ON : LegalHoldStatus := str "ON".
Definition OFF : LegalHoldStatus := str "OFF".

(** [strings.ToUpper], with the tables of Unicode as an interface. *)
Class UpperEnv := { unicode_ToUpper : bytes -> bytes }.
Definition ToUpper `{UpperEnv} (s : bytes) : bytes :=
  if forallb is_ascii s then to_upper <$> s else unicode_ToUpper s.

(** ** Retention of a bucket *)
Definition Duration := Z.
Record Retention := mkRetention { ret_Mode : Mode; ret_Validity : Duration }.
Definition zeroRetention : Retention := mkRetention [] 0.

Definition Retention_IsEmpty (r : Retention) : bool :=
  bool_decide (ret_Mode r = []) || (ret_Validity r =? 0).
Definition Retain (r : Retention) (created : time) (now : option time) : bool :=
  match now with
  | None => true
  | Some t => t <? created + ret_Validity r
  end.

(** [BucketObjectLockConfig]: every operation holds the lock of the table. *)
Definition BucketObjectLockConfig := gmap bytes Retention.
Definition NewBucketObjectLockConfig : BucketObjectLockConfig := ∅.
Definition Config_Set (bucketName : bytes) (retention : Retention) (c : BucketObjectLockConfig) : BucketObjectLockConfig :=
  <[bucketName := retention]> c.
Definition Config_Get (bucketName : bytes) (c : BucketObjectLockConfig) : Retention * bool :=
  (default zeroRetention (c !! bucketName), bool_decide (is_Some (c !! bucketName))).
Definition Config_Remove (bucketName : bytes) (c : BucketObjectLockConfig) : BucketObjectLockConfig :=
  delete bucketName c.

(** ** The lock configuration of a bucket *)
Record DefaultRetention := mkDefaultRetention {
  dr_Mode : Mode; dr_Days : option Z; dr_Years : option Z }.
Definition maximumRetentionDays : Z := 36500.
Definition maximumRetentionYears : Z := 100.

(** [DefaultRetention.UnmarshalXML], with the fields that were decoded. *)
Definition unmarshal_DefaultRetention (decoded : DefaultRetention + error) : DefaultRetention + error :=
  match decoded with
  | inr err => inr err
  | inl retention =>
      if negb (bool_decide (dr_Mode retention = str "GOVERNANCE" \/ dr_Mode retention = str "COMPLIANCE"))
      then inr (errText (str "unknown retention mode " ++ dr_Mode retention))
      else
        match dr_Days retention, dr_Years retention with
        | None, None => inr (errText (str "either Days or Years must be specified"))
        | Some _, Some _ => inr (errText (str "either Days or Years must be specified, not both"))
        | Some days, None =>
            if days =? 0 then inr (errText (str "Default retention period must be a positive integer value for 'Days'"))
            else if maximumRetentionDays <? days
            then inr (errText (str "Default retention period too large for 'Days' " ++ strconv.FormatInt days))
            else inl retention
        | None, Some years =>
            if years =? 0 then inr (errText (str "Default retention period must be a positive integer value for 'Years'"))
            else if maximumRetentionYears <? years
            then inr (errText (str "Default retention period too large for 'Years' " ++ strconv.FormatInt years))
            else inl retention
        end
  end.

Record Config := mkConfig { ObjectLockEnabled : bytes; Rule : option DefaultRetention }.

(** [Config.UnmarshalXML]; the rule was decoded by the function above. *)
Definition unmarshal_Config (decoded : Config + error) : Config + error :=
  match decoded with
  | inr err => inr err
  | inl parsedConfig =>
      if decide (ObjectLockEnabled parsedConfig = str "Enabled") then inl parsedConfig
      else inr (errText (str "only 'Enabled' value is allowd to ObjectLockEnabled element"))
  end.

(** What the decoder found in a document: the text of the element
    ObjectLockEnabled, and the fields of the rule. *)
Record config_document := mkConfigDocument { doc_Enabled : bytes; doc_Rule : option (DefaultRetention + error) }.
Definition ParseObjectLockConfig (decoded : config_document + error) : Config + error :=
  unmarshal_Config
    match decoded with
    | inr err => inr err
    | inl doc =>
        match doc_Rule doc with
        | None => inl (mkConfig (doc_Enabled doc) None)
        | Some rule =>
            match unmarshal_DefaultRetention rule with
            | inr err => inr err
            | inl r => inl (mkConfig (doc_Enabled doc) (Some r))
            end
        end
    end.
Definition NewObjectLockConfig : Config := mkConfig (str "Enabled") None.

(** [time.Sub]: the difference is held to the range of a [Duration]. *)
Definition Sub (t u : time) : Duration := Z.max (- 2 ^ 63) (Z.min (2 ^ 63 - 1) (t - u)).

(** A rule without days has years: [Days] and [Years] were checked when the
    configuration was read; a nil pointer is a panic, [None]. *)
Definition ToRetention (config : Config) (now : option time) : option Retention :=
  match Rule config with
  | None => Some zeroRetention
  | Some rule =>
      match now with
      | None => Some (mkRetention (dr_Mode rule) 0)
      | Some t =>
          match dr_Days rule with
          | Some days => Some (mkRetention (dr_Mode rule) (Sub (AddDate t 0 0 (wrap_s 64 days)) t))
          | None =>
              years ← dr_Years rule;
              Some (mkRetention (dr_Mode rule) (Sub (AddDate t (wrap_s 64 years) 0 0) t))
          end
      end
  end.

(** ** The lock of an object *)
Record ObjectRetention := mkObjectRetention { or_Mode : Mode; or_RetainUntilDate : time }.
Record ObjectLegalHold := mkLegalHold { lh_Status : LegalHoldStatus }.
Definition zeroLegalHold : ObjectLegalHold := mkLegalHold [].
Definition LegalHold_IsEmpty (l : ObjectLegalHold) : bool :=
  negb (bool_decide (lh_Status l = ON)) && negb (bool_decide (lh_Status l = OFF)).

(** [RetentionDate.UnmarshalXML] *)
Definition unmarshal_RetentionDate (decoded : bytes + error) : time + error :=
  match decoded with
  | inr err => inr err
  | inl dateStr =>
      match Parse_RFC3339 dateStr with
      | Some t => inl t
      | None => inr objectlock_ErrInvalidRetentionDate
      end
  end.
(** [RetentionDate.MarshalXML]: the text of the element, if it is written. *)
Definition marshal_RetentionDate (t : time) : option bytes :=
  if t =? zeroTime then None else Some (Format_RFC3339 t).

(** The elements Mode and RetainUntilDate of a document, if they are there. *)
Record retention_document := mkRetentionDocument { doc_Mode : bytes; doc_Date : option bytes }.
Definition decode_ObjectRetention (doc : retention_document) : ObjectRetention + error :=
  match doc_Date doc with
  | None => inl (mkObjectRetention (doc_Mode doc) zeroTime)
  | Some d =>
      match unmarshal_RetentionDate (inl d) with
      | inr err => inr err
      | inl t => inl (mkObjectRetention (doc_Mode doc) t)
      end
  end.
Definition ParseObjectRetention (decoded : retention_document + error) (now : option time) : ObjectRetention + error :=
  match decoded with
  | inr err => inr err
  | inl doc =>
      match decode_ObjectRetention doc with
      | inr err => inr err
      | inl ret =>
          if negb (bool_decide (or_Mode ret = Compliance)) && negb (bool_decide (or_Mode ret = Governance))
          then inr objectlock_ErrUnknownWORMModeDirective
          else
            match now with
            | None => inr objectlock_ErrPastObjectLockRetainDate
            | Some t => if or_RetainUntilDate ret <? t then inr objectlock_ErrPastObjectLockRetainDate else inl ret
            end
      end
  end.

(** The element Status of a document. *)
Definition ParseObjectLegalHold (decoded : bytes + error) : ObjectLegalHold + error :=
  match decoded with
  | inr err => inr err
  | inl status =>
      if negb (bool_decide (status = ON)) && negb (bool_decide (status = OFF))
      then inr objectlock_ErrMalformedXML
      else inl (mkLegalHold status)
  end.

(** ** What a request asks for *)
Definition IsObjectLockRetentionRequested (h : multimap) : bool :=
  bool_decide (is_Some (h !! AmzObjectLockMode)) || bool_decide (is_Some (h !! AmzObjectLockRetainUntilDate)).
Definition IsObjectLockLegalHoldRequested (h : multimap) : bool :=
  bool_decide (is_Some (h !! AmzObjectLockLegalHold)).
Definition IsObjectLockRequested (h : multimap) : bool :=
  IsObjectLockLegalHoldRequested h || IsObjectLockRetentionRequested h.
Definition IsObjectLockGovernanceBypassSet `{UnicodeEnv} (h : multimap) : bool :=
  bool_decide (ToLower (Header_Get h AmzObjectLockBypassGovernance) = str "true").

(** The keys of the metadata are the names in small letters. *)
Definition metaMode : bytes := str "x-amz-object-lock-mode".
Definition metaRetainUntilDate : bytes := str "x-amz-object-lock-retain-until-date".
Definition metaLegalHold : bytes := str "x-amz-object-lock-legal-hold".
Lemma meta_keys `{UnicodeEnv} :
  ToLower AmzObjectLockMode = metaMode /\ ToLower AmzObjectLockRetainUntilDate = metaRetainUntilDate /\
  ToLower AmzObjectLockLegalHold = metaLegalHold.
Proof. by vm_compute. Qed.

Section lock.
Context `{UpperEnv} `{UnicodeEnv} `{ScanEnv}.

Definition parseMode (modeStr : bytes) : Mode :=
  if decide (ToUpper modeStr = str "GOVERNANCE") then Governance
  else if decide (ToUpper modeStr = str "COMPLIANCE") then Compliance
  else Invalid.
Definition parseLegalHoldStatus (holdStr : bytes) : LegalHoldStatus :=
  if decide (ToUpper holdStr = str "ON") then ON
  else if decide (ToUpper holdStr = str "OFF") then OFF
  else [].

Definition ParseObjectLockRetentionHeaders (h : multimap) (now : option time) : (Mode * time) + error :=
  let retMode := Header_Get h AmzObjectLockMode in
  let dateStr := Header_Get h AmzObjectLockRetainUntilDate in
  if decide (retMode = [] \/ dateStr = []) then inr objectlock_ErrObjectLockInvalidHeaders
  else if decide (parseMode retMode = Invalid) then inr objectlock_ErrUnknownWORMModeDirective
  else
    match Parse_RFC3339 dateStr with
    | None => inr objectlock_ErrInvalidRetentionDate
    | Some retDate =>
        match now with
        | None => inr objectlock_ErrPastObjectLockRetainDate
        | Some t =>
            if retDate <? t then inr objectlock_ErrPastObjectLockRetainDate
            else inl (parseMode retMode, retDate)
        end
    end.

Definition GetObjectRetentionMeta (meta : option strmap) : ObjectRetention :=
  let meta := default ∅ meta in
  let mode := match meta !! ToLower AmzObjectLockMode with
              | Some modeStr => parseMode modeStr
              | None => []
              end in
  let retainTill := match meta !! ToLower AmzObjectLockRetainUntilDate with
                    | Some tillStr => default zeroTime (Parse_RFC3339 tillStr)
                    | None => zeroTime
                    end in
  mkObjectRetention mode retainTill.

Definition GetObjectLegalHoldMeta (meta : option strmap) : ObjectLegalHold :=
  match default ∅ meta !! ToLower AmzObjectLockLegalHold with
  | Some holdStr => mkLegalHold (parseLegalHoldStatus holdStr)
  | None => zeroLegalHold
  end.

Definition ParseObjectLockLegalHoldHeaders (h : multimap) : ObjectLegalHold * option error :=
  match h !! AmzObjectLockLegalHold with
  | None => (zeroLegalHold, None)
  | Some holdStatus =>
      let lh := parseLegalHoldStatus (strings.Join holdStatus []) in
      if decide (lh <> ON /\ lh <> OFF) then (zeroLegalHold, Some objectlock_ErrUnknownWORMModeDirective)
      else (mkLegalHold lh, None)
  end.

(** The map is copied before the first key is removed, so the map of the caller
    stays as it is. *)
Definition delKey (metadata : strmap) (key : bytes) (dst : strmap) : strmap :=
  match metadata !! key with None => dst | Some _ => delete key dst end.
Definition FilterObjectLockMetadata (metadata : strmap) (filterRetention filterLegalHold : bool) : strmap :=
  let dst := metadata in
  let legalHold := GetObjectLegalHoldMeta (Some metadata) in
  let dst := if bool_decide (lh_Status legalHold = []) || filterLegalHold
             then delKey metadata AmzObjectLockLegalHold dst else dst in
  let ret := GetObjectRetentionMeta (Some metadata) in
  if bool_decide (or_Mode ret = Invalid) || filterRetention
  then delKey metadata AmzObjectLockRetainUntilDate (delKey metadata AmzObjectLockMode dst)
  else dst.

(** ** cmd/object-lock.go

    [info] is the answer of [getOpts] and, when that succeeds, of
    [getObjectInfoFn].  [globalWORMEnabled] and the table of the buckets are the
    global variables of these names. *)
Section enforcement.
Context (globalWORMEnabled : bool) (globalBucketObjectLockConfig : BucketObjectLockConfig).

Definition no_user_defined (oi : ObjectInfo) : ObjectInfo :=
  mkObjectInfo (oi_Bucket oi) (oi_Name oi) (oi_ModTime oi) (oi_Size oi) (oi_IsDir oi) (oi_ETag oi)
    (oi_ContentType oi) (oi_ContentEncoding oi) (oi_Expires oi) (oi_StorageClass oi) (Some ∅) (oi_UserTags oi)
    (oi_Parts oi) (oi_metadataOnly oi) (oi_Hidden oi).

Definition enforceRetentionBypassForDelete (h : multimap) (info : (ObjectInfo * option error) + error)
    (govBypassPerm : APIErrorCode) (now : option time) : ObjectInfo * APIErrorCode :=
  if globalWORMEnabled then (zeroObjectInfo, ErrObjectLocked)
  else
    match info with
    | inr err => (zeroObjectInfo, toAPIErrorCode (Some err))
    | inl (oi, Some err) =>
        if decide (Code (toAPIError (Some err)) = str "NoSuchKey") then (no_user_defined oi, ErrNone)
        else (oi, toAPIErrorCode (Some err))
    | inl (oi, None) =>
        let ret := GetObjectRetentionMeta (oi_UserDefined oi) in
        let lhold := GetObjectLegalHoldMeta (oi_UserDefined oi) in
        if decide (lh_Status lhold = ON) then (oi, ErrObjectLocked)
        else if decide (or_Mode ret = Invalid) then (oi, ErrNone)
        else if decide (or_Mode ret <> Compliance /\ or_Mode ret <> Governance) then (oi, ErrUnknownWORMModeDirective)
        else
          match now with
          | None => (oi, ErrObjectLocked)
          | Some t =>
              if or_RetainUntilDate ret <? t then (oi, ErrNone)
              else if IsObjectLockGovernanceBypassSet h && bool_decide (or_Mode ret = Governance)
                      && bool_decide (govBypassPerm = ErrNone)
              then (oi, ErrNone)
              else (oi, ErrObjectLocked)
          end
    end.

Definition enforceRetentionBypassForPut (h : multimap) (bucket : bytes) (info : (ObjectInfo * option error) + error)
    (govBypassPerm : APIErrorCode) (objRetention : ObjectRetention) (now : option time) : ObjectInfo * APIErrorCode :=
  if globalWORMEnabled then (zeroObjectInfo, ErrObjectLocked)
  else
    match info with
    | inr err => (zeroObjectInfo, toAPIErrorCode (Some err))
    | inl (oi, Some err) =>
        if decide (Code (toAPIError (Some err)) = str "NoSuchKey") then (no_user_defined oi, ErrNone)
        else (oi, toAPIErrorCode (Some err))
    | inl (oi, None) =>
        let ret := GetObjectRetentionMeta (oi_UserDefined oi) in
        if decide (or_Mode ret = Invalid) then
          (oi, if (Config_Get bucket globalBucketObjectLockConfig).2 then ErrNone
               else ErrInvalidBucketObjectLockConfiguration)
        else
          match now with
          | None => (oi, ErrObjectLocked)
          | Some t =>
              if decide (or_Mode ret = Compliance) then
                if bool_decide (or_Mode objRetention <> Compliance)
                   || (or_RetainUntilDate objRetention <? or_RetainUntilDate ret)
                then (oi, ErrObjectLocked)
                else if or_RetainUntilDate objRetention <? t then (oi, ErrInvalidRetentionDate)
                else (oi, ErrNone)
              else if decide (or_Mode ret = Governance) then
                if negb (IsObjectLockGovernanceBypassSet h) then
                  if or_RetainUntilDate objRetention <? t then (oi, ErrInvalidRetentionDate)
                  else if or_RetainUntilDate objRetention <? or_RetainUntilDate ret then (oi, ErrObjectLocked)
                  else (oi, ErrNone)
                else (oi, govBypassPerm)
              else (oi, ErrNone)
          end
    end.

(** The result of [checkPutObjectLockAllowed]. *)
Record put_lock := mkPutLock {
  pl_Mode : Mode; pl_Date : time; pl_LegalHold : ObjectLegalHold; pl_Err : APIErrorCode }.

(** The part that reads the object: the lock it has, or that it may not be
    overwritten. *)
Definition existing_lock (found : ObjectInfo * option error) : (bool * Mode * time * ObjectLegalHold) + put_lock :=
  match found with
  | (_, Some _) => inl (false, [], zeroTime, zeroLegalHold)
  | (objInfo, None) =>
      let r := GetObjectRetentionMeta (oi_UserDefined objInfo) in
      if globalWORMEnabled || bool_decide (or_Mode r = Compliance)
      then inr (mkPutLock [] zeroTime zeroLegalHold ErrObjectLocked)
      else
        let legalHold := GetObjectLegalHoldMeta (oi_UserDefined objInfo) in
        if decide (lh_Status legalHold = str "ON")
        then inr (mkPutLock (or_Mode r) (or_RetainUntilDate r) legalHold ErrObjectLocked)
        else inl (true, or_Mode r, or_RetainUntilDate r, legalHold)
  end.

(** The branch for a request with retention headers: [now0] and [now1] are two
    readings of the clock. *)
Definition put_requested_retention (h : multimap) (isWORMBucket objExists : bool) (mode : Mode) (retainDate : time)
    (legalHold : ObjectLegalHold) (retentionPermErr : APIErrorCode) (now0 now1 : option time) : put_lock :=
  if negb isWORMBucket then mkPutLock mode retainDate legalHold ErrInvalidBucketObjectLockConfiguration
  else
    match ParseObjectLockLegalHoldHeaders h with
    | (legalHold, Some err) => mkPutLock mode retainDate legalHold (toAPIErrorCode (Some err))
    | (legalHold, None) =>
        match ParseObjectLockRetentionHeaders h now0 with
        | inr err => mkPutLock mode retainDate legalHold (toAPIErrorCode (Some err))
        | inl (rMode, rDate) =>
            match now1 with
            | None => mkPutLock mode retainDate legalHold ErrObjectLocked
            | Some t =>
                if objExists && (t <? retainDate) then mkPutLock mode retainDate legalHold ErrObjectLocked
                else if decide (rMode = Invalid)
                then mkPutLock mode retainDate legalHold (toAPIErrorCode (Some objectlock_ErrObjectLockInvalidHeaders))
                else if negb (bool_decide (retentionPermErr = ErrNone))
                then mkPutLock mode retainDate legalHold retentionPermErr
                else mkPutLock rMode rDate legalHold ErrNone
            end
        end
    end.

(** The branch for a request without them, in a bucket with locking. *)
Definition put_default_retention (retention : Retention) (legalHoldRequested objExists : bool) (mode : Mode)
    (retainDate : time) (legalHold : ObjectLegalHold) (retentionPermErr : APIErrorCode) (now0 : option time) : put_lock :=
  if Retention_IsEmpty retention && bool_decide (mode = Compliance \/ mode = Governance)
  then mkPutLock mode retainDate legalHold ErrObjectLocked
  else if negb (bool_decide (retentionPermErr = ErrNone)) then mkPutLock mode retainDate legalHold retentionPermErr
  else
    match now0 with
    | None => mkPutLock mode retainDate legalHold ErrObjectLocked
    | Some t =>
        if objExists && (t <? retainDate) then mkPutLock mode retainDate legalHold ErrObjectLocked
        else if negb legalHoldRequested
        then mkPutLock (ret_Mode retention) (t + ret_Validity retention) legalHold ErrNone
        else mkPutLock mode retainDate legalHold ErrNone
    end.

(** A header that is not a status ends the check with the code of [err], which
    is nil here: the error of the header is in [lerr]. *)
Definition checkPutObjectLockAllowed (h : multimap) (bucket : bytes) (info : (ObjectInfo * option error) + error)
    (retentionPermErr legalHoldPermErr : APIErrorCode) (now0 now1 : option time) : put_lock :=
  let '(retention, isWORMBucket) := Config_Get bucket globalBucketObjectLockConfig in
  let retentionRequested := IsObjectLockRetentionRequested h in
  let legalHoldRequested := IsObjectLockLegalHoldRequested h in
  match info with
  | inr err => mkPutLock [] zeroTime zeroLegalHold (toAPIErrorCode (Some err))
  | inl found =>
      match existing_lock found with
      | inr refused => refused
      | inl (objExists, mode, retainDate, legalHold) =>
          let continue_with legalHold :=
            if retentionRequested
            then put_requested_retention h isWORMBucket objExists mode retainDate legalHold retentionPermErr now0 now1
            else if isWORMBucket
            then put_default_retention retention legalHoldRequested objExists mode retainDate legalHold retentionPermErr now0
            else mkPutLock mode retainDate legalHold ErrNone in
          if legalHoldRequested then
            if negb isWORMBucket then mkPutLock mode retainDate legalHold ErrInvalidBucketObjectLockConfiguration
            else
              match ParseObjectLockLegalHoldHeaders h with
              | (legalHold, Some lerr) => mkPutLock mode retainDate legalHold (toAPIErrorCode None)
              | (legalHold, None) => continue_with legalHold
              end
          else continue_with legalHold
      end
  end.
End enforcement.

(** The entries that [PutObjectHandler] adds to the metadata of an upload that
    is let through. *)
Definition lock_entries (pl : put_lock) (metadata : strmap) : strmap :=
  let metadata :=
    if bool_decide (pl_Err pl = ErrNone) && negb (bool_decide (pl_Mode pl = [])) then
      <[ToLower AmzObjectLockRetainUntilDate := Format_RFC3339 (pl_Date pl)]>
        (<[ToLower AmzObjectLockMode := pl_Mode pl]> metadata)
    else metadata in
  if bool_decide (pl_Err pl = ErrNone) && negb (bool_decide (lh_Status (pl_LegalHold pl) = []))
  then <[ToLower AmzObjectLockLegalHold := lh_Status (pl_LegalHold pl)]> metadata
  else metadata.
End lock.
