(* ===== verification/ObjectLockSpec.v ===== *)
(** * What object locking guarantees

    When a delete, an overwrite or a change of retention is let through; the
    period of a default retention; and that a lock written by a PUT is the lock a
    later request finds. *)
From S2P Require Import Prelude GoLib GoText Errors APIErrors Metadata GoTime GoDate ObjectLock.

(** ** Calendar arithmetic of the default retention *)
Lemma AddDate_days t n : AddDate t 0 0 n = t + n * day_ns.
Proof.
  unfold AddDate. pose proof (civil_days (t / day_ns)) as Hc. destruct (civil (t / day_ns)) as [[y m] d].
  destruct Hc as (Hd & Hm & _). rewrite !Z.add_0_r.
  rewrite (Z.div_small (m - 1)), (Z.mod_small (m - 1)) by lia.
  replace (y + 0) with y by lia. replace (m - 1 + 1) with m by lia.
  assert (days_of y m 1 + (d - 1 + n) = t / day_ns + n) as -> by (rewrite <- Hd; unfold days_of; lia).
  pose proof (Z.div_mod t day_ns). unfold day_ns in *. lia.
Qed.

(** The days of a number of years. *)
Lemma days_of_years y n m d : 0 <= n -> 365 * n <= days_of (y + n) m d - days_of y m d <= 366 * n.
Proof.
  intros Hn. unfold days_of. set (doy := (153 * ((m + 9) mod 12) + 2) / 5 + d - 1).
  assert (∀ a, 365 * n <= (a + n) / 400 * 146097 + ((a + n) mod 400 * 365 + (a + n) mod 400 / 4 - (a + n) mod 400 / 100)
                          - (a / 400 * 146097 + (a mod 400 * 365 + a mod 400 / 4 - a mod 400 / 100)) <= 366 * n) as Hk.
  { intros a. pose proof (Z.div_mod a 400). pose proof (Z.mod_pos_bound a 400).
    pose proof (Z.div_mod (a + n) 400). pose proof (Z.mod_pos_bound (a + n) 400).
    set (q := a / 400) in *. set (r := a mod 400) in *. set (q' := (a + n) / 400) in *. set (r' := (a + n) mod 400) in *.
    pose proof (Z.div_mod r 4). pose proof (Z.mod_pos_bound r 4). pose proof (Z.div_mod r 100). pose proof (Z.mod_pos_bound r 100).
    pose proof (Z.div_mod r' 4). pose proof (Z.mod_pos_bound r' 4). pose proof (Z.div_mod r' 100). pose proof (Z.mod_pos_bound r' 100).
    lia. }
  destruct (m <=? 2).
  - specialize (Hk (y - 1)). replace (y - 1 + n) with (y + n - 1) in Hk by lia. lia.
  - specialize (Hk y). lia.
Qed.

Lemma AddDate_years t n : 0 <= n -> t + 365 * n * day_ns <= AddDate t n 0 0 <= t + 366 * n * day_ns.
Proof.
  intros Hn. unfold AddDate. pose proof (civil_days (t / day_ns)) as Hc. destruct (civil (t / day_ns)) as [[y m] d].
  destruct Hc as (Hd & Hm & _). rewrite !Z.add_0_r.
  rewrite (Z.div_small (m - 1)), (Z.mod_small (m - 1)) by lia.
  replace (m - 1 + 1) with m by lia. replace (y + n + 0) with (y + n) by lia.
  pose proof (days_of_years y n m d Hn) as Hk.
  assert (days_of (y + n) m 1 + (d - 1) = days_of (y + n) m d) as -> by (unfold days_of; lia).
  rewrite Hd in Hk. pose proof (Z.div_mod t day_ns). unfold day_ns in *. lia.
Qed.

(** A rule that was read from a document. *)
Definition rule_ok (r : DefaultRetention) : Prop :=
  (dr_Mode r = Governance \/ dr_Mode r = Compliance) /\
  match dr_Days r, dr_Years r with
  | Some d, None => 0 < d <= maximumRetentionDays
  | None, Some y => 0 < y <= maximumRetentionYears
  | _, _ => False
  end.
(** The decoder gives unsigned numbers. *)
Definition decoded_unsigned (r : DefaultRetention) : Prop :=
  (∀ d, dr_Days r = Some d -> 0 <= d < 2 ^ 64) /\ (∀ y, dr_Years r = Some y -> 0 <= y < 2 ^ 64).

Lemma unmarshal_rule_ok d r :
  (∀ x, d = inl x -> decoded_unsigned x) -> unmarshal_DefaultRetention d = inl r -> rule_ok r.
Proof.
  intros Hu. unfold unmarshal_DefaultRetention, rule_ok. destruct d as [x|e]; [|done].
  destruct (Hu x eq_refl) as [Hd Hy]. case_bool_decide as Hm; [|done]. cbn [negb].
  destruct (dr_Days x) as [days|] eqn:E1, (dr_Years x) as [years|] eqn:E2; try done.
  - destruct (Z.eqb_spec days 0); [done|]. destruct (Z.ltb_spec maximumRetentionDays days); [done|].
    intros [= <-]. rewrite E1, E2. split; [by destruct Hm; auto|]. specialize (Hd days eq_refl). lia.
  - destruct (Z.eqb_spec years 0); [done|]. destruct (Z.ltb_spec maximumRetentionYears years); [done|].
    intros [= <-]. rewrite E1, E2. split; [by destruct Hm; auto|]. specialize (Hy years eq_refl). lia.
Qed.

Lemma Sub_add t d : 0 <= d < 2 ^ 63 -> Sub (t + d) t = d.
Proof. unfold Sub. lia. Qed.

Lemma wrap_s_small n : 0 <= n < 2 ^ 63 -> wrap_s 64 n = n.
Proof. intros Hn. apply wrap_s_id; lia. Qed.

(** A lock configuration that is accepted gives a retention that is not
    empty: its mode is one of the two modes, and its period is that number of
    days, or at least 365 and at most 366 days for each year, without overflow of
    the duration; a clock that cannot be read leaves the period empty. *)
Theorem default_retention_period doc config now rule :
  (∀ x, doc_Rule doc = Some (inl x) -> decoded_unsigned x) ->
  ParseObjectLockConfig (inl doc) = inl config -> Rule config = Some rule ->
  ∃ r, ToRetention config now = Some r /\ (ret_Mode r = Governance \/ ret_Mode r = Compliance) /\
    match now with
    | None => Retention_IsEmpty r = true
    | Some _ =>
        Retention_IsEmpty r = false /\
        match dr_Days rule, dr_Years rule with
        | Some d, _ => ret_Validity r = d * day_ns
        | None, Some y => 365 * y * day_ns <= ret_Validity r <= 366 * y * day_ns
        | None, None => False
        end
    end.
Proof.
  intros Hu Hp Hr. assert (rule_ok rule) as [Hmode Hok].
  { unfold ParseObjectLockConfig, unmarshal_Config in Hp. destruct (doc_Rule doc) as [d|] eqn:E.
    - destruct (unmarshal_DefaultRetention d) as [r|] eqn:Er; [|done]. case_decide; [|done].
      injection Hp as <-. injection Hr as ->. eapply unmarshal_rule_ok; [|exact Er]. intros x ->. by apply Hu.
    - case_decide; [|done]. by injection Hp as <-. }
  unfold ToRetention. rewrite Hr. destruct now as [t|].
  2: { eexists. split; [done|]. split; [exact Hmode|]. unfold Retention_IsEmpty. cbn. by rewrite orb_true_r. }
  assert (∀ v, 0 < v -> Retention_IsEmpty (mkRetention (dr_Mode rule) v) = false) as Hne.
  { intros v Hv. unfold Retention_IsEmpty. cbn. apply orb_false_iff. split; [|by apply Z.eqb_neq; lia].
    apply bool_decide_eq_false_2. by destruct Hmode as [-> | ->]. }
  unfold maximumRetentionDays, maximumRetentionYears in Hok.
  destruct (dr_Days rule) as [d|], (dr_Years rule) as [y|]; try done.
  - rewrite wrap_s_small by lia. eexists. split; [done|]. split; [exact Hmode|]. rewrite AddDate_days.
    rewrite Sub_add by (unfold day_ns; lia). split; [apply Hne; unfold day_ns; lia|done].
  - cbn [mbind option_bind]. rewrite wrap_s_small by lia. eexists. split; [done|]. split; [exact Hmode|].
    pose proof (AddDate_years t y ltac:(lia)) as Ha.
    assert (∃ v, AddDate t y 0 0 = t + v) as [v Hv] by (exists (AddDate t y 0 0 - t); lia).
    rewrite Hv in Ha |- *. rewrite Sub_add by (unfold day_ns in *; lia). split; [apply Hne; unfold day_ns in *; lia|].
    cbn. lia.
Qed.

Lemma default_retention_period_witness :
  ∃ r, ToRetention (mkConfig (str "Enabled") (Some (mkDefaultRetention Governance None (Some 100)))) (Some 0) = Some r /\
    (ret_Mode r = Governance \/ ret_Mode r = Compliance) /\ Retention_IsEmpty r = false /\
    365 * 100 * day_ns <= ret_Validity r <= 366 * 100 * day_ns.
Proof.
  refine (default_retention_period (mkConfigDocument (str "Enabled") (Some (inl (mkDefaultRetention Governance None (Some 100)))))
            _ (Some 0) (mkDefaultRetention Governance None (Some 100)) _ _ _).
  - intros x [= <-]. split; [done|]. intros y [= <-]. lia.
  - reflexivity.
  - reflexivity.
Defined.

Section guarantees.
Context `{UpperEnv} `{UnicodeEnv} `{ScanEnv}.

(** ** The lock of an object *)
Definition on_hold (meta : option strmap) : Prop := lh_Status (GetObjectLegalHoldMeta meta) = ON.
(** Retained at the time [t]. *)
Definition retained (meta : option strmap) (t : time) : Prop :=
  or_Mode (GetObjectRetentionMeta meta) <> Invalid /\ t <= or_RetainUntilDate (GetObjectRetentionMeta meta).

Lemma parseMode_cases s : parseMode s = Governance \/ parseMode s = Compliance \/ parseMode s = Invalid.
Proof. unfold parseMode. repeat case_decide; auto. Qed.
Lemma meta_mode_cases meta :
  let m := or_Mode (GetObjectRetentionMeta meta) in m = Governance \/ m = Compliance \/ m = Invalid.
Proof. unfold GetObjectRetentionMeta. cbn [or_Mode]. destruct (_ !! _); [apply parseMode_cases|by auto]. Qed.

(** C31. An existing object may be deleted exactly when the server is not
    write-once, the object is not on legal hold, and it has no retention, or the
    clock can be read and the retention is over, or the retention is in governance
    mode and the request asks to bypass it with the permission to do so. *)
Theorem delete_allowed worm h oi perm now :
  (enforceRetentionBypassForDelete worm h (inl (oi, None)) perm now).2 = ErrNone <->
  worm = false /\ ~ on_hold (oi_UserDefined oi) /\
  (or_Mode (GetObjectRetentionMeta (oi_UserDefined oi)) = Invalid \/
   ∃ t, now = Some t /\
     (~ retained (oi_UserDefined oi) t \/
      IsObjectLockGovernanceBypassSet h = true /\ perm = ErrNone /\
      or_Mode (GetObjectRetentionMeta (oi_UserDefined oi)) = Governance)).
Proof.
  unfold enforceRetentionBypassForDelete, on_hold, retained. destruct worm; [naive_solver|].
  pose proof (meta_mode_cases (oi_UserDefined oi)) as Hc. cbv zeta in Hc. cbv zeta.
  destruct (GetObjectRetentionMeta (oi_UserDefined oi)) as [m d]. cbn [or_Mode or_RetainUntilDate] in *.
  case_decide as Hh; [naive_solver|]. case_decide as Hi; [naive_solver|].
  rewrite decide_False by tauto. destruct now as [t|]; [|naive_solver].
  destruct (Z.ltb_spec d t) as [Hd|Hd].
  - cbn. split; [|done]. intros _. do 2 (split; [done|]). right. exists t. split; [done|]. left. intros [_ ?]. lia.
  - destruct (IsObjectLockGovernanceBypassSet h), (bool_decide (m = Governance)) eqn:E1, (bool_decide (perm = ErrNone)) eqn:E2;
      rewrite ?bool_decide_eq_true, ?bool_decide_eq_false in E1, E2; cbn; naive_solver lia.
Qed.

(** ** Overwriting *)

(** An existing object is overwritten only when the server is not
    write-once and the object is neither in compliance mode nor on legal hold; and,
    in a bucket with locking and with a hold header that is absent or well formed,
    only when its retention date is not after a reading of the clock. *)
Theorem overwrite_allowed worm config h bucket oi permR permH now0 now1 :
  pl_Err (checkPutObjectLockAllowed worm config h bucket (inl (oi, None)) permR permH now0 now1) = ErrNone ->
  worm = false /\ ~ on_hold (oi_UserDefined oi) /\
  or_Mode (GetObjectRetentionMeta (oi_UserDefined oi)) <> Compliance /\
  (is_Some (config !! bucket) -> (ParseObjectLockLegalHoldHeaders h).2 = None ->
   permR = ErrNone /\
   ∃ t, (now0 = Some t \/ now1 = Some t) /\ or_RetainUntilDate (GetObjectRetentionMeta (oi_UserDefined oi)) <= t).
Proof.
  unfold checkPutObjectLockAllowed, Config_Get, existing_lock, on_hold.
  destruct worm; [done|]. cbn [orb]. cbv zeta.
  destruct (GetObjectRetentionMeta (oi_UserDefined oi)) as [m d]. cbn [or_Mode or_RetainUntilDate].
  case_bool_decide as Hc; [done|]. case_decide as Hh; [done|]. intros E. do 3 (split; [done|]).
  intros Hb Hp. rewrite (bool_decide_eq_true_2 _ Hb) in E. cbn [negb] in E.
  assert (∀ lh, pl_Err (if IsObjectLockRetentionRequested h
            then put_requested_retention h true true m d lh permR now0 now1
            else put_default_retention (default zeroRetention (config !! bucket)) (IsObjectLockLegalHoldRequested h) true m d lh permR now0)
          = ErrNone -> permR = ErrNone /\ ∃ t, (now0 = Some t \/ now1 = Some t) /\ d <= t) as Hk.
  { intros lh. unfold put_requested_retention, put_default_retention. cbn [negb andb].
    destruct (IsObjectLockRetentionRequested h).
    - destruct (ParseObjectLockLegalHoldHeaders h) as [l [e|]]; [done|].
      destruct (ParseObjectLockRetentionHeaders h now0) as [[rm rd]|e]; [|by cbn [pl_Err]; intros ?%toAPIErrorCode_None].
      destruct now1 as [t|]; [|done]. destruct (Z.ltb_spec t d); [done|]. case_decide; [done|].
      case_bool_decide; cbn; [|done]. intros _. split; [done|]. exists t. auto.
    - destruct (Retention_IsEmpty _ && _); [done|]. case_bool_decide; cbn; [|done]. destruct now0 as [t|]; [|done].
      destruct (Z.ltb_spec t d); [done|]. intros _. split; [done|]. exists t. auto. }
  destruct (IsObjectLockLegalHoldRequested h); [|by apply (Hk _ E)].
  destruct (ParseObjectLockLegalHoldHeaders h) as [l [e|]]; [done|]. by apply (Hk _ E).
Qed.

(** ** Changing a retention *)

(** What [PutObjectHandler] and [PutObjectRetentionHandler] write. *)
Definition set_retention (mode : Mode) (date : time) (meta : strmap) : strmap :=
  <[metaRetainUntilDate := Format_RFC3339 date]> (<[metaMode := mode]> meta).

Lemma parseMode_id m : m = Governance \/ m = Compliance -> parseMode m = m.
Proof. intros [-> | ->]; vm_compute; reflexivity. Qed.

Lemma set_retention_get mode date meta :
  mode = Governance \/ mode = Compliance -> four_digit_year date ->
  GetObjectRetentionMeta (Some (set_retention mode date meta)) = mkObjectRetention mode (date / 10 ^ 9 * 10 ^ 9).
Proof.
  intros Hm Hy. destruct meta_keys as (K1 & K2 & _). unfold GetObjectRetentionMeta, set_retention. cbn [from_option id].
  rewrite K1, K2. rewrite lookup_insert_ne by done. rewrite !lookup_insert_eq. rewrite parseMode_id by done.
  by rewrite Parse_Format_RFC3339.
Qed.

Definition with_meta (meta : strmap) (oi : ObjectInfo) : ObjectInfo :=
  mkObjectInfo (oi_Bucket oi) (oi_Name oi) (oi_ModTime oi) (oi_Size oi) (oi_IsDir oi) (oi_ETag oi)
    (oi_ContentType oi) (oi_ContentEncoding oi) (oi_Expires oi) (oi_StorageClass oi) (Some meta) (oi_UserTags oi)
    (oi_Parts oi) (oi_metadataOnly oi) (oi_Hidden oi).

(** What a document asks for, at the time [now]: a mode and a date that has not
    passed. *)
Definition asked_retention (doc : retention_document + error) (now : option time) (r : ObjectRetention) : Prop :=
  ∃ d t, doc = inl d /\ decode_ObjectRetention d = inl r /\ (or_Mode r = Governance \/ or_Mode r = Compliance) /\
    now = Some t /\ t <= or_RetainUntilDate r.

Lemma ParseObjectRetention_asked doc now r :
  ParseObjectRetention doc now = inl r <-> asked_retention doc now r.
Proof.
  unfold ParseObjectRetention, asked_retention. split.
  - destruct doc as [d|]; [|done]. destruct (decode_ObjectRetention d) as [r'|] eqn:Ed; [|done].
    destruct (negb _ && negb _) eqn:E; [done|]. destruct now as [t|]; [|done]. destruct (Z.ltb_spec (or_RetainUntilDate r') t); [done|].
    intros [= <-]. exists d, t. split_and!; try done. apply andb_false_iff in E. rewrite !negb_false_iff, !bool_decide_eq_true in E. tauto.
  - intros (d & t & -> & -> & Hm & -> & Ht). destruct (Z.ltb_spec (or_RetainUntilDate r) t); [lia|].
    destruct Hm as [-> | ->]; reflexivity.
Qed.

(** The retention [ret] of an object may give way to [r]: an object without
    retention takes any; compliance mode stays and its date does not move back;
    governance mode ends with the header and the permission to bypass it, and
    without the header its date does not move back. *)
Definition change_allowed (ret r : ObjectRetention) (bypass : bool) (perm : APIErrorCode) (now : option time) : Prop :=
  or_Mode ret = Invalid \/
  ∃ t, now = Some t /\
    (or_Mode ret = Compliance /\ or_Mode r = Compliance /\
       or_RetainUntilDate ret <= or_RetainUntilDate r /\ t <= or_RetainUntilDate r \/
     or_Mode ret = Governance /\
       (if bypass then perm = ErrNone else or_RetainUntilDate ret <= or_RetainUntilDate r /\ t <= or_RetainUntilDate r)).

Lemma bypass_for_put config h bucket oi perm r now :
  is_Some (config !! bucket) ->
  enforceRetentionBypassForPut false config h bucket (inl (oi, None)) perm r now
  = (oi, (enforceRetentionBypassForPut false config h bucket (inl (oi, None)) perm r now).2) /\
  ((enforceRetentionBypassForPut false config h bucket (inl (oi, None)) perm r now).2 = ErrNone <->
   change_allowed (GetObjectRetentionMeta (oi_UserDefined oi)) r (IsObjectLockGovernanceBypassSet h) perm now).
Proof.
  intros Hc. unfold enforceRetentionBypassForPut, change_allowed, Config_Get. pose proof (meta_mode_cases (oi_UserDefined oi)) as Hm. cbv zeta.
  destruct (GetObjectRetentionMeta (oi_UserDefined oi)) as [m d]. cbn [or_Mode or_RetainUntilDate snd] in *.
  case_decide as Hi; [rewrite bool_decide_eq_true_2 by done; naive_solver|]. destruct now as [t|]; [|naive_solver].
  case_decide as Hmc.
  - subst m. case_bool_decide; cbn [orb]; [naive_solver|].
    destruct (Z.ltb_spec (or_RetainUntilDate r) d); [naive_solver lia|].
    destruct (Z.ltb_spec (or_RetainUntilDate r) t); [naive_solver lia|]. split; [done|]. split; [|done]. intros _. right. exists t.
    split; [done|]. left. split_and!; try done.
  - rewrite decide_True by (destruct Hm as [?|[?|?]]; done). destruct (IsObjectLockGovernanceBypassSet h); cbn [negb]; [naive_solver|].
    destruct (Z.ltb_spec (or_RetainUntilDate r) t); [naive_solver lia|].
    destruct (Z.ltb_spec (or_RetainUntilDate r) d); naive_solver lia.
Qed.

(** ** A lock that was asked for holds *)

(** The modes in the table of the buckets come from lock configurations. *)
Definition config_ok (config : BucketObjectLockConfig) : Prop :=
  ∀ b r, config !! b = Some r -> ret_Mode r = Governance \/ ret_Mode r = Compliance \/ ret_Mode r = [].

Lemma put_lock_mode worm config h bucket info permR permH now0 now1 :
  let pl := checkPutObjectLockAllowed worm config h bucket info permR permH now0 now1 in
  config_ok config -> pl_Err pl = ErrNone -> pl_Mode pl = Governance \/ pl_Mode pl = Compliance \/ pl_Mode pl = [].
Proof.
  intros pl Hc. subst pl. unfold checkPutObjectLockAllowed, Config_Get.
  destruct info as [found|e]; [|by auto]. destruct (existing_lock worm found) as [[[[ex m] d] lh]|r] eqn:E.
  2: { unfold existing_lock in E. destruct found as [oi [e|]]; [done|]. cbv zeta in E.
       destruct (worm || _); [by injection E as <-|]. case_decide; [by injection E as <-|done]. }
  assert (m = Governance \/ m = Compliance \/ m = []) as Hm.
  { unfold existing_lock in E. destruct found as [oi [e|]]; [injection E as <- <- <- <-; auto|]. cbv zeta in E.
    destruct (worm || _); [done|]. case_decide; [done|]. injection E as <- <- <- <-. apply meta_mode_cases. }
  set (R := default zeroRetention (config !! bucket)).
  assert (ret_Mode R = Governance \/ ret_Mode R = Compliance \/ ret_Mode R = []) as HR.
  { subst R. destruct (config !! bucket) as [r|] eqn:Eb; [by eapply Hc|by auto]. }
  unfold put_requested_retention, put_default_retention, ParseObjectLockRetentionHeaders.
  repeat (case_match; cbn [pl_Err pl_Mode]; try done; simplify_eq; auto using parseMode_cases).
Qed.

Lemma lock_entries_get pl metadata :
  pl_Err pl = ErrNone -> pl_Mode pl = Governance \/ pl_Mode pl = Compliance -> four_digit_year (pl_Date pl) ->
  GetObjectRetentionMeta (Some (lock_entries pl metadata)) = mkObjectRetention (pl_Mode pl) (pl_Date pl / 10 ^ 9 * 10 ^ 9).
Proof.
  intros He Hm Hy. destruct meta_keys as (K1 & K2 & K3).
  unfold lock_entries. rewrite K1, K2, K3, He. rewrite (bool_decide_eq_true_2 (ErrNone = ErrNone)) by done.
  rewrite (bool_decide_eq_false_2 (pl_Mode pl = [])) by (destruct Hm as [-> | ->]; done). cbn [andb negb].
  rewrite <- (set_retention_get (pl_Mode pl) (pl_Date pl) metadata Hm Hy). destruct (negb _); [|done].
  unfold GetObjectRetentionMeta, set_retention. cbn [from_option id]. rewrite K1, K2.
  by rewrite !(lookup_insert_ne _ metaLegalHold) by done.
Qed.

(** An upload that is let through with a retention stores it: until the
    second of its date a request to delete the object is let through only with
    governance mode, the header that asks to bypass it, and the permission. *)
Theorem retention_is_kept worm config h bucket info permR permH now0 now1 metadata h' oi perm t :
  let pl := checkPutObjectLockAllowed worm config h bucket info permR permH now0 now1 in
  config_ok config -> pl_Err pl = ErrNone -> pl_Mode pl <> [] -> four_digit_year (pl_Date pl) ->
  t <= pl_Date pl / 10 ^ 9 * 10 ^ 9 ->
  (enforceRetentionBypassForDelete worm h' (inl (with_meta (lock_entries pl metadata) oi, None)) perm (Some t)).2 = ErrNone ->
  pl_Mode pl = Governance /\ IsObjectLockGovernanceBypassSet h' = true /\ perm = ErrNone.
Proof.
  intros pl Hc He Hm Hy Ht Hd.
  destruct (put_lock_mode worm config h bucket info permR permH now0 now1 Hc He) as [Hg|[Hg|Hg]]; fold pl in Hg; [| |done].
  all: unfold enforceRetentionBypassForDelete in Hd; destruct worm; [done|]; cbn [oi_UserDefined with_meta] in Hd;
    rewrite lock_entries_get in Hd by auto; cbn [or_Mode or_RetainUntilDate] in Hd; rewrite Hg in *.
  all: case_decide; [done|]; rewrite decide_False in Hd by done; case_decide; [naive_solver|];
    destruct (Z.ltb_spec (pl_Date pl / 10 ^ 9 * 10 ^ 9) t); [lia|].
  - destruct (IsObjectLockGovernanceBypassSet h'); [|done]. cbn [andb] in Hd.
    destruct (bool_decide (perm = ErrNone)) eqn:Ep; [|done]. by apply bool_decide_eq_true in Ep.
  - rewrite (bool_decide_eq_false_2 (Compliance = Governance)) in Hd by done. by rewrite andb_false_r in Hd.
Qed.
End guarantees.

(** ** A concrete server *)
Module LockScenario.
#[export] Instance upper : UpperEnv := {| unicode_ToUpper s := s |}.
#[export] Instance lower : UnicodeEnv := {| unicode_ToLower s := s |}.
#[export] Instance scan : ScanEnv := {| scan_short_body _ := None |}.

(** 2013-05-24T00:00:00Z and a year later. *)
Definition now : time := 1369353600 * 10 ^ 9.
Definition later : time := now + 365 * day_ns.
Definition bucket : bytes := str "bucket".
Definition config : BucketObjectLockConfig := {[ bucket := mkRetention Governance (30 * day_ns) ]}.
Definition plain : ObjectInfo := with_meta ∅ zeroObjectInfo.

Lemma config_modes : config_ok config.
Proof.
  intros b r E. assert (bucket = b /\ mkRetention Governance (30 * day_ns) = r) as [_ <-]; [|by left].
  apply (proj1 (lookup_singleton_Some (M := gmap bytes) bucket b _ r)). exact E.
Qed.

Lemma overwrite_allowed_witness :
  false = false /\ ~ on_hold (oi_UserDefined plain) /\
  or_Mode (GetObjectRetentionMeta (oi_UserDefined plain)) <> Compliance /\
  (is_Some (config !! bucket) -> (ParseObjectLockLegalHoldHeaders ∅).2 = None ->
   ErrNone = ErrNone /\
   ∃ t, (Some now = Some t \/ Some now = Some t) /\ or_RetainUntilDate (GetObjectRetentionMeta (oi_UserDefined plain)) <= t).
Proof. apply (overwrite_allowed false config ∅ bucket plain ErrNone ErrNone). vm_compute. reflexivity. Defined.

(** An upload into the bucket without headers gets the retention of the bucket. *)
Definition uploaded : put_lock :=
  checkPutObjectLockAllowed false config ∅ bucket (inl (zeroObjectInfo, Some (ObjectNotFound bucket (str "o")))) ErrNone ErrNone
    (Some now) None.
Definition bypass : multimap := {[ AmzObjectLockBypassGovernance := [str "TRUE"] ]}.

Lemma retention_is_kept_witness :
  pl_Mode uploaded = Governance /\ IsObjectLockGovernanceBypassSet bypass = true /\ ErrNone = ErrNone.
Proof.
  apply (retention_is_kept false config ∅ bucket (inl (zeroObjectInfo, Some (ObjectNotFound bucket (str "o")))) ErrNone ErrNone
           (Some now) None ∅ bypass plain ErrNone (now + day_ns)).
  - exact config_modes.
  - vm_compute. reflexivity.
  - vm_compute. discriminate.
  - vm_compute. split; congruence.
  - vm_compute. congruence.
  - vm_compute. reflexivity.
Defined.
End LockScenario.
