(* ===== verification/LockHandlers.v ===== *)
(** * Handlers of object locking: cmd/config-common.go, cmd/object-lock.go,
      cmd/object-handlers.go, cmd/bucket-handlers.go

    The requests that delete an object, put or read its lock, and put or read the
    lock configuration of a bucket, over the Kinetic object layer.  A handler
    answers with an error of the interface or with its result.

    [checkAuth] is [checkRequestAuthType] applied to the request, and [putAllowed]
    is [isPutActionAllowed] ([Auth]); [None] is a panic of theirs.  The options
    that [getOpts] makes are not used by the object layer: its error is an
    argument.  There is no cache of objects ([CacheAPI] is nil), and messages to
    other servers and to event targets are left out. *)
From S2P Require Import Prelude GoLib GoText IncStr Errors APIErrors Metadata NsLock Pool Drive World HashReader.
From S2P Require Import HttpRange Client Names Buckets Objects Multipart GoTime GoDate Policy SignV2 ObjectLock.


Definition hasContentMD5 (h : multimap) : bool := bool_decide (is_Some (h !! ContentMD5)).

Definition bucketConfigPrefix : bytes := str "buckets".
Definition objectLockConfig : bytes := str "object-lock.xml".
Definition bucketObjectLockEnabledConfigFile : bytes := str "object-lock-enabled.json".
Definition bucketObjectLockEnabledConfig : bytes :=
  "{"%char :: quote :: str "x-amz-bucket-object-lock-enabled" ++ quote :: str ":true}".

(** encoding/xml for the lock configuration of a bucket. *)
Class LockXML := {
  xml_Marshal : Config -> bytes;
  xml_Decode : bytes -> config_document + error }.
(** A configuration that was written is read back. *)
Class LockXMLLaws (X : LockXML) : Prop := {
  xml_nonempty c : xml_Marshal c <> [];
  xml_roundtrip c : xml_Decode (xml_Marshal c) = inl (mkConfigDocument (ObjectLockEnabled c) (inl <$> Rule c)) }.

(** The texts of the errors of the package. *)
Definition lock_error_text (e : error) : bytes :=
  match e with
  | objectlock_ErrInvalidRetentionDate => str "date must be provided in ISO 8601 format"
  | objectlock_ErrPastObjectLockRetainDate => str "the retain until date must be in the future"
  | objectlock_ErrUnknownWORMModeDirective => str "unknown WORM mode directive"
  | errText msg => msg
  | _ => []
  end.

(** The answer of a handler. *)
Definition reply (A : Type) : Type := A + APIError.
Definition with_description (e : APIError) (d : bytes) : APIError := mkAPIError (Code e) d (HTTPStatusCode e).

Section handlers.
Context `{KineticDrive} `{LRWMutex} `{MetaCodec} `{MetaEnv} `{OSEnv} `{UpperEnv} `{UnicodeEnv} `{ScanEnv} `{LockXML}.
(** [globalCLIContext.StrictS3Compat] *)
Context (StrictS3Compat : bool).

Definition lift {A} (o : option A) : M A := match o with Some a => mret a | None => panic end.

(** ** Configuration files: objects of the server's own bucket *)
Definition isErrObjectNotFound (e : error) : bool := match e with ObjectNotFound _ _ => true | _ => false end.

Definition readConfig (configFile : bytes) : M (bytes + error) :=
  '(buffer, err) ← GetObject minioMetaBucket configFile 0 (-1) true;
  match err with
  | Some e => mret (inr (if isErrObjectNotFound e then errConfigNotFound else e))
  | None => if decide (buffer = []) then mret (inr errConfigNotFound) else mret (inl buffer)
  end.
Definition deleteConfig (configFile : bytes) : M (option error) := DeleteObject minioMetaBucket configFile.
Definition saveConfig (configFile data : bytes) : M (option error) :=
  match NewReader data (Z.of_nat (length data)) [] (hex.EncodeToString (sha256_sum data)) (Z.of_nat (length data)) StrictS3Compat false with
  | inr e => mret (Some e)
  | inl hashReader =>
      '(_, err) ← PutObject minioMetaBucket configFile hashReader None;
      mret err
  end.
Definition checkConfig (configFile : bytes) : M (option error) :=
  '(_, err) ← GetObjectInfo minioMetaBucket configFile;
  mret (match err with Some _ => Some errConfigNotFound | None => None end).

Definition config_file (bucket name : bytes) : bytes := path.Join [bucketConfigPrefix; bucket; name].

(** ** Loading the lock configurations of all buckets: the table, and the error
    that ended it.  [now] gives the readings of the clock. *)
Fixpoint initBucketObjectLockConfig (now : nat -> option time) (buckets : list BucketInfo) (table : BucketObjectLockConfig)
  : M (BucketObjectLockConfig * option error) :=
  match buckets with
  | [] => mret (table, None)
  | bucket :: rest =>
      let next := initBucketObjectLockConfig (now ∘ S) rest in
      bucketObjLockData ← readConfig (config_file (bi_Name bucket) bucketObjectLockEnabledConfigFile);
      match bucketObjLockData with
      | inr e => if decide (e = errConfigNotFound) then next table else mret (table, Some e)
      | inl data =>
          if decide (data <> bucketObjectLockEnabledConfig) then next table
          else
            configData ← readConfig (config_file (bi_Name bucket) objectLockConfig);
            match configData with
            | inr e =>
                if decide (e = errConfigNotFound) then next (Config_Set (bi_Name bucket) zeroRetention table)
                else mret (table, Some e)
            | inl configData =>
                match ParseObjectLockConfig (xml_Decode configData) with
                | inr e => mret (table, Some e)
                | inl config =>
                    retention ← match Rule config with
                                | Some _ => lift (ToRetention config (now 0%nat))
                                | None => mret zeroRetention
                                end;
                    next (Config_Set (bi_Name bucket) retention table)
                end
            end
      end
  end.

(** ** The requests *)
Section requests.
Context (initialized globalWORMEnabled : bool) (checkAuth : bytes -> bytes -> bytes -> option APIErrorCode)
        (putAllowed : bytes -> bytes -> bytes -> option APIErrorCode) (header : multimap) (optsErr : option error).

(** [getOpts] and then the object layer. *)
Definition getObjectInfoFn (bucket object : bytes) : M ((ObjectInfo * option error) + error) :=
  match optsErr with
  | Some e => mret (inr e)
  | None => p ← GetObjectInfo bucket object; mret (inl p)
  end.
(** The object is not looked up when the server is write-once. *)
Definition retention_info (bucket object : bytes) : M ((ObjectInfo * option error) + error) :=
  if globalWORMEnabled then mret (inl (zeroObjectInfo, None)) else getObjectInfoFn bucket object.

Definition is_version (versionId : bytes) : bool := negb (bool_decide (versionId = [])) && negb (bool_decide (versionId = str "null")).

(** [DeleteObjectHandler]: the name of the object or the error of unescaping it,
    the version of the query, and the directory of a federation, if there is one. *)
Definition DeleteObjectHandler (bucket : bytes) (object : bytes + error) (versionId : bytes)
    (globalDNSConfig : option (bytes -> option error)) (now : option time) : M (reply unit) :=
  match object with
  | inr e => mret (inr (toAPIError (Some e)))
  | inl object =>
      if negb initialized then mret (inr (ToAPIErr ErrServerNotInitialized))
      else
        s3Error ← lift (checkAuth DeleteObjectAction bucket object);
        if decide (s3Error <> ErrNone) then mret (inr (ToAPIErr s3Error))
        else if is_version versionId then mret (inr (ToAPIErr ErrNoSuchVersion))
        else
          govBypassPerms ← lift (checkAuth BypassGovernanceRetentionAction bucket object);
          info ← retention_info bucket object;
          let err := (enforceRetentionBypassForDelete globalWORMEnabled header info govBypassPerms now).2 in
          if decide (err <> ErrNone) then mret (inr (ToAPIErr err))
          else
            match globalDNSConfig ≫= (λ get, get bucket) with
            | Some e => mret (inr (toAPIError (Some e)))
            | None =>
                err ← DeleteObject bucket object;
                if decide (err = Some errFileNotFound) then mret (inr (toAPIError err))
                else mret (inl tt)
            end
  end.

(** What [PutObjectLegalHoldHandler] and [PutObjectRetentionHandler] check before
    they read the document. *)
Definition lock_request (table : BucketObjectLockConfig) (action bucket : bytes) (object : bytes + error)
    (versionId : bytes) : M (reply bytes) :=
  match object with
  | inr e => mret (inr (toAPIError (Some e)))
  | inl object =>
      if is_version versionId then mret (inr (ToAPIErr ErrNoSuchVersion))
      else if negb initialized then mret (inr (ToAPIErr ErrServerNotInitialized))
      else
        s3Err ← lift (checkAuth action bucket object);
        if decide (s3Err <> ErrNone) then mret (inr (ToAPIErr s3Err))
        else
          '(_, err) ← GetBucketInfo bucket;
          match err with
          | Some e => mret (inr (toAPIError (Some e)))
          | None =>
              if negb (hasContentMD5 header) then mret (inr (ToAPIErr ErrMissingContentMD5))
              else if negb (Config_Get bucket table).2
              then mret (inr (ToAPIErr ErrInvalidBucketObjectLockConfiguration))
              else mret (inl object)
          end
  end.

(** The metadata of the object with new entries, marked as a change of metadata
    only; writing into a nil map panics. *)
Definition set_entries (entries : list (bytes * bytes)) (oi : ObjectInfo) : option ObjectInfo :=
  m ← oi_UserDefined oi;
  Some (mkObjectInfo (oi_Bucket oi) (oi_Name oi) (oi_ModTime oi) (oi_Size oi) (oi_IsDir oi) (oi_ETag oi)
    (oi_ContentType oi) (oi_ContentEncoding oi) (oi_Expires oi) (oi_StorageClass oi)
    (Some (foldl (λ m e, <[e.1 := e.2]> m) m entries)) (oi_UserTags oi) (oi_Parts oi) true (oi_Hidden oi)).
(** The reader of the copy, which is nil here: a copy of metadata does not read. *)
Definition no_reader : Reader := mkReader [] 0 0 [] [] false false [] true.
Definition copy_metadata (bucket object : bytes) (objInfo : ObjectInfo) : M (reply unit) :=
  '(_, err) ← CopyObject bucket object bucket object objInfo no_reader;
  mret (match err with Some e => inr (toAPIError (Some e)) | None => inl tt end).

Definition PutObjectLegalHoldHandler (table : BucketObjectLockConfig) (bucket : bytes) (object : bytes + error)
    (versionId : bytes) (document : bytes + error) : M (reply unit) :=
  object ← lock_request table PutObjectLegalHoldAction bucket object versionId;
  match object with
  | inr e => mret (inr e)
  | inl object =>
      match ParseObjectLegalHold document with
      | inr e => mret (inr (toAPIError (Some e)))
      | inl legalHold =>
          info ← getObjectInfoFn bucket object;
          match info with
          | inr e | inl (_, Some e) => mret (inr (toAPIError (Some e)))
          | inl (objInfo, None) =>
              objInfo ← lift (set_entries [(ToLower AmzObjectLockLegalHold, ToUpper (lh_Status legalHold))] objInfo);
              copy_metadata bucket object objInfo
          end
      end
  end.

Definition PutObjectRetentionHandler (table : BucketObjectLockConfig) (bucket : bytes) (object : bytes + error)
    (versionId : bytes) (document : retention_document + error) (now0 now1 : option time) : M (reply unit) :=
  object ← lock_request table PutObjectRetentionAction bucket object versionId;
  match object with
  | inr e => mret (inr e)
  | inl object =>
      match ParseObjectRetention document now0 with
      | inr e => mret (inr (with_description (ToAPIErr ErrMalformedXML) (lock_error_text e)))
      | inl objRetention =>
          govBypassPerms ← lift (putAllowed BypassGovernanceRetentionAction bucket object);
          info ← retention_info bucket object;
          let '(objInfo, s3Err) :=
            enforceRetentionBypassForPut globalWORMEnabled table header bucket info govBypassPerms objRetention now1 in
          if decide (s3Err <> ErrNone) then mret (inr (ToAPIErr s3Err))
          else
            objInfo ← lift (set_entries [(ToLower AmzObjectLockMode, or_Mode objRetention);
                                         (ToLower AmzObjectLockRetainUntilDate, Format_RFC3339 (or_RetainUntilDate objRetention))] objInfo);
            copy_metadata bucket object objInfo
      end
  end.

(** The two requests that read: the object and its metadata. *)
Definition read_request (action bucket : bytes) (object : bytes + error) (versionId : bytes) : M (reply ObjectInfo) :=
  match object with
  | inr e => mret (inr (toAPIError (Some e)))
  | inl object =>
      if is_version versionId then mret (inr (ToAPIErr ErrNoSuchVersion))
      else if negb initialized then mret (inr (ToAPIErr ErrServerNotInitialized))
      else
        s3Error ← lift (checkAuth action bucket object);
        if decide (s3Error <> ErrNone) then mret (inr (ToAPIErr s3Error))
        else
          info ← getObjectInfoFn bucket object;
          match info with
          | inr e | inl (_, Some e) => mret (inr (toAPIError (Some e)))
          | inl (objInfo, None) => mret (inl objInfo)
          end
  end.

Definition GetObjectLegalHoldHandler (table : BucketObjectLockConfig) (bucket : bytes) (object : bytes + error)
    (versionId : bytes) : M (reply ObjectLegalHold) :=
  info ← read_request GetObjectLegalHoldAction bucket object versionId;
  mret match info with
       | inr e => inr e
       | inl objInfo =>
           if negb (Config_Get bucket table).2 then inr (ToAPIErr ErrInvalidBucketObjectLockConfiguration)
           else
             let legalHold := GetObjectLegalHoldMeta (oi_UserDefined objInfo) in
             if LegalHold_IsEmpty legalHold then inr (ToAPIErr ErrNoSuchObjectLockConfiguration) else inl legalHold
       end.

Definition GetObjectRetentionHandler (bucket : bytes) (object : bytes + error) (versionId : bytes) : M (reply ObjectRetention) :=
  info ← read_request GetObjectRetentionAction bucket object versionId;
  mret match info with
       | inr e => inr e
       | inl objInfo => inl (GetObjectRetentionMeta (oi_UserDefined objInfo))
       end.

(** The configuration of a bucket: the answer and the table afterwards. *)
Definition PutBucketObjectLockConfigHandler (table : BucketObjectLockConfig) (bucket : bytes)
    (document : config_document + error) (now : option time) : M (reply unit * BucketObjectLockConfig) :=
  if negb initialized then mret (inr (ToAPIErr ErrServerNotInitialized), table)
  else if globalWORMEnabled then mret (inr (ToAPIErr ErrMethodNotAllowed), table)
  else
    s3Error ← lift (checkAuth PutBucketObjectLockConfigurationAction bucket []);
    if decide (s3Error <> ErrNone) then mret (inr (ToAPIErr s3Error), table)
    else
      match ParseObjectLockConfig document with
      | inr e => mret (inr (with_description (ToAPIErr ErrMalformedXML) (lock_error_text e)), table)
      | inl config =>
          configData ← readConfig (config_file bucket bucketObjectLockEnabledConfigFile);
          match configData with
          | inr e =>
              mret (inr (if decide (e = errConfigNotFound) then ToAPIErr ErrObjectLockConfigurationNotAllowed
                         else toAPIError (Some e)), table)
          | inl data =>
              if decide (data <> bucketObjectLockEnabledConfig) then mret (inr (ToAPIErr ErrInternalError), table)
              else
                err ← saveConfig (config_file bucket objectLockConfig) (xml_Marshal config);
                match err with
                | Some e => mret (inr (toAPIError (Some e)), table)
                | None =>
                    match Rule config with
                    | Some _ =>
                        retention ← lift (ToRetention config now);
                        mret (inl tt, Config_Set bucket retention table)
                    | None => mret (inl tt, Config_Remove bucket table)
                    end
                end
          end
      end.

Definition GetBucketObjectLockConfigHandler (bucket : bytes) : M (reply bytes) :=
  if negb initialized then mret (inr (ToAPIErr ErrServerNotInitialized))
  else
    s3Error ← lift (checkAuth GetBucketObjectLockConfigurationAction bucket []);
    if decide (s3Error <> ErrNone) then mret (inr (ToAPIErr s3Error))
    else
      configData ← readConfig (config_file bucket bucketObjectLockEnabledConfigFile);
      match configData with
      | inr e => mret (inr (if decide (e = errConfigNotFound) then ToAPIErr ErrMethodNotAllowed else toAPIError (Some e)))
      | inl data =>
          if decide (data <> bucketObjectLockEnabledConfig) then mret (inr (ToAPIErr ErrInternalError))
          else
            configData ← readConfig (config_file bucket objectLockConfig);
            match configData with
            | inr e =>
                if decide (e <> errConfigNotFound) then mret (inr (toAPIError (Some e)))
                else mret (inl (xml_Marshal NewObjectLockConfig))
            | inl configData => mret (inl configData)
            end
      end.
End requests.
End handlers.
