(* ===== verification/LockHandlersSpec.v ===== *)
(** * Locked objects and the object layer

    A request to delete a locked object leaves the drive as it is, also right
    after the upload that locked it.  A request for the retention of an object is
    decided by the retention the object has; neither it nor the request for a legal
    hold writes to the drive.  A configuration file that was
    saved is read back, and a restart restores the retention of a bucket. *)
From S2P Require Import Prelude GoLib GoText IncStr Errors APIErrors Metadata NsLock Pool Drive World HashReader.
From S2P Require Import HttpRange Client Names Buckets Reference Objects ObjectsSpec Multipart Encodable ReadSpec GetSpec RoundTrip.
From S2P Require Import Session Scenario GoTime GoDate Policy SignV2 ObjectLock ObjectLockSpec LockHandlers.

Section spec.
Context `{KineticDrive} `{LRWMutex} `{MetaCodec} `{MetaEnv} `{OSEnv} `{UpperEnv} `{UnicodeEnv} `{ScanEnv} `{LockXML}.
Context `{!KineticDriveSpec _} `{!LRWMutexLaws _} `{!MetaCodecLaws _} `{!LockXMLLaws _}.

Lemma runs_lift {A} (o : option A) (a : A) R w :
  ready w -> o = Some a -> R a (w_drive w) (w_tick w) -> runs (lift o) R w.
Proof. intros Hw -> HR. by apply runs_ret. Qed.

Lemma runs_lift_bind {A B} (o : option A) (a : A) (f : A -> M B) R w :
  o = Some a -> runs (f a) R w -> runs (lift o ≫= f) R w.
Proof. by intros -> Hf. Qed.

(** ** Deleting *)

(** The lock of the object stands against a request at the time [t]. *)
Definition stands (meta : option strmap) (h : multimap) (perm : APIErrorCode) (t : time) : Prop :=
  on_hold meta \/
  retained meta t /\
  ~ (IsObjectLockGovernanceBypassSet h = true /\ perm = ErrNone /\ or_Mode (GetObjectRetentionMeta meta) = Governance).

Lemma stands_refused worm h oi perm t :
  stands (oi_UserDefined oi) h perm t ->
  (enforceRetentionBypassForDelete worm h (inl (oi, None)) perm (Some t)).2 <> ErrNone.
Proof.
  unfold stands, on_hold, retained, enforceRetentionBypassForDelete. destruct worm; [done|]. cbv zeta.
  destruct (GetObjectRetentionMeta (oi_UserDefined oi)) as [m d]. cbn [or_Mode or_RetainUntilDate].
  intros [Hh|[[Hm Hd] Hb]].
  - by rewrite decide_True.
  - case_decide; [done|]. rewrite decide_False by done. case_decide; [done|].
    destruct (Z.ltb_spec d t); [lia|].
    destruct (IsObjectLockGovernanceBypassSet h); [|done]. destruct (bool_decide (m = Governance)) eqn:E1; [|done].
    destruct (bool_decide (perm = ErrNone)) eqn:E2; [|done]. rewrite bool_decide_eq_true in E1, E2. naive_solver.
Qed.

Lemma runs_retention_info worm optsErr b o oi err w :
  ready w -> small_meta (view (w_drive w)) -> lockable w b o true ->
  info_result (view (w_drive w)) b o = (oi, err) -> err <> Some errCorruptedFormat -> err <> Some io_EOF ->
  runs (retention_info worm optsErr b o) (λ r d t, d = w_drive w /\ t = w_tick w /\
    (worm = false -> r = match optsErr with Some e => inr e | None => inl (oi, toObjectErr err [b; o]) end)) w.
Proof.
  intros Hw Hm Hl Hi He1 He2. unfold retention_info, getObjectInfoFn. destruct worm; [by apply runs_ret|].
  destruct optsErr as [e|]; [by apply runs_ret|].
  eapply runs_bind; [done|by apply (runs_GetObjectInfo b o oi err)|].
  intros r w1 Hw1 _ (Ed & Et & ->). apply runs_ret; [done|]. by rewrite Ed, Et.
Qed.

(** The request is answered with an error and the drive is as it was. *)
Lemma runs_delete_locked init worm checkAuth h optsErr b o vid dns oi perm t w :
  ready w -> small_meta (view (w_drive w)) -> lockable w b o true ->
  info_result (view (w_drive w)) b o = (oi, None) ->
  is_Some (checkAuth DeleteObjectAction b o) -> checkAuth BypassGovernanceRetentionAction b o = Some perm ->
  stands (oi_UserDefined oi) h perm t ->
  runs (DeleteObjectHandler init worm checkAuth h optsErr b (inl o) vid dns (Some t))
    (λ res d _, d = w_drive w /\ exists e, res = inr e) w.
Proof.
  intros Hw Hm Hl Hi [s Hs] Hp Hst. unfold DeleteObjectHandler.
  destruct init; [|apply runs_ret; eauto]. cbn [negb]. eapply runs_lift_bind; [exact Hs|].
  case_decide; [apply runs_ret; eauto|]. destruct (is_version vid); [apply runs_ret; eauto|].
  eapply runs_lift_bind; [exact Hp|].
  eapply runs_bind; [done|by apply (runs_retention_info _ _ _ _ oi None)|].
  intros info w1 Hw1 _ (Ed & _ & Hinfo). rewrite <- Ed.
  assert ((enforceRetentionBypassForDelete worm h info perm (Some t)).2 <> ErrNone) as Hne.
  { destruct worm; [done|]. rewrite Hinfo by done. destruct optsErr as [e|]; [by cbn [snd enforceRetentionBypassForDelete]; intros ?%toAPIErrorCode_None|].
    by apply stands_refused. }
  cbv zeta. rewrite decide_True by done. apply runs_ret; eauto.
Qed.

(** ** The lock of an object that was put *)
Definition lock_keys : list bytes := [metaMode; metaRetainUntilDate; metaLegalHold].
Definition same_lock (m m' : option strmap) : Prop := ∀ k, k ∈ lock_keys -> default ∅ m !! k = default ∅ m' !! k.

Lemma same_lock_meta m m' :
  same_lock m m' ->
  GetObjectRetentionMeta m = GetObjectRetentionMeta m' /\ GetObjectLegalHoldMeta m = GetObjectLegalHoldMeta m'.
Proof.
  intros Hs. destruct meta_keys as (K1 & K2 & K3). unfold GetObjectRetentionMeta, GetObjectLegalHoldMeta.
  rewrite K1, K2, K3. cbv zeta. by rewrite !Hs by compute_done.
Qed.
Lemma same_lock_stands m m' h perm t : same_lock m m' -> stands m h perm t -> stands m' h perm t.
Proof. intros Hs. unfold stands, on_hold, retained. by destruct (same_lock_meta _ _ Hs) as [-> ->]. Qed.

(** The entries survive the conversion to [ObjectInfo], and the entries that a
    PUT adds are others. *)
Lemma info_same_lock fm b o : same_lock (oi_UserDefined (info_of fm b o)) (Meta fm).
Proof.
  intros k Hk. unfold info_of, KVInfoToObjectInfo. cbn [oi_UserDefined from_option id]. unfold cleanMetadata, cleanMetadataKeys.
  assert ((k ∉ [str "md5Sum"; str "etag"; str "expires"; AmzObjectTagging]) /\ k <> AmzStorageClass /\
          k <> str "content-type" /\ k <> str "etag") as (N1 & N2 & N3 & N4).
  { revert k Hk. apply Forall_forall. unfold lock_keys. repeat constructor; compute_done. }
  transitivity (removeStandardStorageClass (objectMeta (Meta fm) o) !! k).
  - apply option_eq. intros x. rewrite map_lookup_filter_Some. cbn. tauto.
  - unfold removeStandardStorageClass. case_decide; rewrite ?lookup_delete_ne by done; apply objectMeta_lookup; auto.
Qed.

Lemma put_same_lock o ud size version etag now :
  same_lock (Meta (put_fsMeta o (default ∅ ud) size version etag now)) ud.
Proof.
  intros k Hk. unfold put_fsMeta. cbn [Meta set_KoInfo set_Meta from_option id].
  assert (k <> str "size" /\ k <> str "etag" /\ k <> str "version") as (N1 & N2 & N3).
  { revert k Hk. apply Forall_forall. unfold lock_keys. repeat constructor; compute_done. }
  by rewrite !lookup_insert_ne by congruence.
Qed.

Lemma same_lock_trans m1 m2 m3 : same_lock m1 m2 -> same_lock m2 m3 -> same_lock m1 m3.
Proof. intros H12 H23 k Hk. by rewrite H12, H23. Qed.
Lemma same_lock_sym m1 m2 : same_lock m1 m2 -> same_lock m2 m1.
Proof. intros H12 k Hk. by rewrite H12. Qed.

Lemma entry_lock m b o fm v :
  b <> [] -> json_encodable fm -> m !! CString (b ++ str "/" ++ o) = Some (mkEntry (json_Marshal fm) v) ->
  exists oi, object_info m b o = (oi, None) /\ same_lock (oi_UserDefined oi) (Meta fm) /\ is_Some (oi_UserDefined oi).
Proof.
  intros Hb He Hm. exists (info_of (json_overlay fm (set_Meta zeroFsMeta (Some ∅))) b o).
  unfold object_info, info_key. rewrite decide_False by done. rewrite Hm. cbn [e_meta].
  rewrite json_roundtrip by auto. split; [done|]. split; [|by eexists]. eapply same_lock_trans; [apply info_same_lock|].
  intros k _. destruct (json_overlay_fresh fm (set_Meta zeroFsMeta (Some ∅)) eq_refl eq_refl) as (E & _).
  exact (f_equal (λ m : strmap, m !! k) E).
Qed.

Lemma stored_lock m b o fm v :
  b <> [] -> stored_object m (b ++ str "/" ++ o) fm v ->
  exists oi, object_info m b o = (oi, None) /\ same_lock (oi_UserDefined oi) (Meta fm).
Proof. intros Hb []. destruct (entry_lock m b o fm v) as (oi & Hoi & Hl & _); eauto. Qed.

(** C6. A locked object survives a request to delete it, through the whole
    server: when the PUT of an object succeeds with metadata whose lock stands, a
    DELETE that follows is refused with an error, whoever makes it, and the drive
    still holds the object. *)
Theorem locked_object_survives init worm checkAuth h optsErr b o vid dns perm t r ud w :
  clock_ok -> ready w -> small_meta (view (w_drive w)) ->
  request_ok w (ReqPut b o r ud) -> checkGetObjArgs b o = None ->
  is_Some (checkAuth DeleteObjectAction b o) -> checkAuth BypassGovernanceRetentionAction b o = Some perm ->
  stands ud h perm t ->
  runs (put_then b o r ud (DeleteObjectHandler init worm checkAuth h optsErr b (inl o) vid dns (Some t)))
    (λ res d _, match res with
     | (p, None) => p.2 <> None /\ view d = view (w_drive w)
     | (p, Some answer) => p.2 = None /\ oi_Size p.1 = r_size r /\
         (exists e, answer = inr e) /\ (e_value <$> view d !! CString (b ++ str "/" ++ o)) = Some (r_src r)
     end) w.
Proof.
  intros Hcl Hw Hm (Hb & Ho & Hr & Hu & Hfit) Hck Hd Hp Hst. pose proof Hr as [Hlen _].
  apply (runs_put_then b o r ud _ (λ answer d, (exists e, answer = inr e) /\
    (e_value <$> view d !! CString (b ++ str "/" ++ o)) = Some (r_src r))); try done.
  { by apply object_key_no_nul. }
  intros w1 Hw1 _ Hm1 Hl [[Hbk Hname] _] Hsz Hrec Hv.
  assert (stored_object (view (w_drive w1)) (b ++ str "/" ++ o) (next_meta (view (w_drive w)) (w_tick w) b o r ud) (r_src r)) as Hso.
  { apply next_meta_stored; [done|by eapply put_name_utf8|done|lia|lia|done|]. rewrite Hv. apply lookup_insert_eq. }
  destruct (stored_lock _ _ _ _ _ (proj1 Hb) Hso) as (oi & Hoi & Hlock).
  eapply runs_mono; [eapply (runs_delete_locked init worm checkAuth h optsErr b o vid dns oi perm t w1); try done|].
  - unfold info_result. rewrite Hck. apply proj2 in Hbk as [rec Hrec0]. by rewrite Hrec, Hrec0.
  - eapply same_lock_stands; [|exact Hst]. apply same_lock_sym. eapply same_lock_trans; [exact Hlock|]. apply put_same_lock.
  - intros answer d t' [-> He]. split; [done|]. by rewrite Hv, lookup_insert_eq.
Qed.

(** ** Changing a retention *)

(** A copy of metadata reads the metadata of the object, and writes nothing. *)
Lemma runs_copy_metadata b o oi fm v w :
  ready w -> small_meta (view (w_drive w)) -> bucket_ok w b -> oi_metadataOnly oi = true ->
  json_encodable fm -> view (w_drive w) !! CString (b ++ str "/" ++ o) = Some (mkEntry (json_Marshal fm) v) ->
  runs (copy_metadata b o oi) (λ answer d _, d = w_drive w /\ answer = inl tt) w.
Proof.
  intros Hw Hm [_ [bi Hb]] Ho He Hv. unfold copy_metadata, CopyObject. rewrite bool_decide_eq_true_2, Ho by done. cbn [andb].
  eapply (runs_bind _ _ (λ r d _, d = w_drive w /\ r.2 = None)); [done| |].
  2: { intros [oi' err] w1 Hw1 _ [Ed E]. cbn in E. subst err. by apply runs_ret. }
  apply runs_counted; [done|]. intros w1 Hw1 Ed1 _ _ _. rewrite <- Ed1 in *.
  eapply runs_bind; [done|by apply runs_statBucketDir|]. intros [kv err] w2 Hw2 _ (Ed2 & _ & E).
  rewrite Hb in E. injection E as -> ->. rewrite <- Ed2 in *. unfold makeKey.
  change (str "/") with SlashSeparator in Hv. wp_steps; rewrite Hv in Emeta; simplify_eq.
  apply wp_cslice; [by apply (Hm _ _ Hv)|]. apply wp_ret. cbn [e_meta]. rewrite json_roundtrip by auto. wp_steps. split; [same_now|done].
Qed.

(** The conditions on a request before its document is read. *)
Definition request_admitted (init : bool) (vid : bytes) (auth : APIErrorCode) (h : multimap) (table : BucketObjectLockConfig) (b : bytes) : Prop :=
  init = true /\ is_version vid = false /\ auth = ErrNone /\ hasContentMD5 h = true /\ is_Some (table !! b).

Lemma runs_lock_request init checkAuth h table action b o vid auth w :
  ready w -> small_meta (view (w_drive w)) -> bucket_ok w b -> checkAuth action b o = Some auth ->
  runs (lock_request init checkAuth h table action b (inl o) vid) (λ r d t, d = w_drive w /\ t = w_tick w /\
    (request_admitted init vid auth h table b /\ r = inl o \/
     ~ request_admitted init vid auth h table b /\ ∃ e, r = inr e)) w.
Proof.
  intros Hw Hm [Hl [bi Hb]] Ha. unfold lock_request, request_admitted, Config_Get.
  destruct (is_version vid); [apply runs_ret; naive_solver|]. destruct init; [|apply runs_ret; naive_solver]. cbn [negb].
  eapply runs_lift_bind; [exact Ha|]. case_decide; [apply runs_ret; naive_solver|].
  eapply runs_bind; [done|by apply runs_GetBucketInfo|]. intros [bi' err] w1 Hw1 _ [Hyes _].
  destruct (Hyes Hl) as (Ed & Et & E). rewrite Hb in E. injection E as -> ->. rewrite <- Ed, <- Et.
  destruct (hasContentMD5 h); [|apply runs_ret; naive_solver]. cbn [negb snd].
  case_bool_decide; cbn [negb]; apply runs_ret; try done; [|naive_solver].
  do 2 (split; [done|]). left. split_and!; try done.
Qed.


(** ** Configuration files *)
Definition config_key (f : bytes) : bytes := CString (minioMetaBucket ++ str "/" ++ f).
(** The name of a configuration file can be used. *)
Definition config_name (w : World) (f : bytes) : Prop :=
  checkGetObjArgs minioMetaBucket f = None /\ object_name_ok f /\ lockable w minioMetaBucket f false.

Definition read_result (m : gmap bytes entry) (f : bytes) : bytes + error :=
  match get_spec m minioMetaBucket f 0 (-1) with
  | (_, Some e) => inr (if isErrObjectNotFound e then errConfigNotFound else e)
  | (buf, None) => if decide (buf = []) then inr errConfigNotFound else inl buf
  end.

Lemma runs_readConfig f w :
  ready w -> small_meta (view (w_drive w)) -> readable (view (w_drive w)) (minioMetaBucket ++ str "/" ++ f) ->
  config_name w f ->
  runs (readConfig f) (λ r d t, d = w_drive w /\ t = w_tick w /\ r = read_result (view (w_drive w)) f) w.
Proof.
  intros Hw Hm Hr (Hc & _ & Hl). unfold readConfig, read_result.
  eapply runs_bind; [done|by apply runs_GetObject|].
  intros [buf err] w1 Hw1 _ (Ed & Et & E). rewrite Hc in E. destruct E as [E _].
  rewrite <- E by (by apply lockable_write_read). rewrite <- Ed, <- Et.
  destruct err; [by apply runs_ret|]. case_decide; by apply runs_ret.
Qed.

Lemma read_stored m f e :
  is_Some (bucket_record m minioMetaBucket) -> object_name_ok f -> m !! config_key f = Some e ->
  e_value e <> [] -> Z.of_nat (length (e_value e)) < 2 ^ 62 -> read_result m f = inl (e_value e).
Proof.
  intros [bi Hb] [_ Hs] He Hne Hlen. unfold read_result, get_spec. rewrite Hb. cbn [Z.ltb Z.compare]. rewrite Hs.
  unfold config_key in He. rewrite He. cbn [Z.ltb Z.compare]. cbv zeta.
  rewrite Z.sub_0_r, Z.add_0_l, wrap_s_small by lia. rewrite Z.ltb_irrefl, orb_false_r.
  destruct (Z.ltb_spec (Z.of_nat (length (e_value e))) 0); [lia|]. by rewrite decide_False.
Qed.

(** The reader that [saveConfig] makes. *)
Definition config_reader (strict : bool) (data : bytes) : Reader :=
  mkReader data (Z.of_nat (length data)) (Z.of_nat (length data)) [] (sha256_sum data) strict
    (bool_decide (sha256_sum data <> [])) [] false.

Lemma NewReader_config strict data :
  NewReader data (Z.of_nat (length data)) [] (hex.EncodeToString (sha256_sum data)) (Z.of_nat (length data)) strict false
  = inl (config_reader strict data).
Proof.
  unfold NewReader, config_reader. rewrite hex.Decode_Encode. cbn [hex.DecodeString].
  destruct (Z.leb_spec 0 (Z.of_nat (length data))); [|lia]. rewrite Nat2Z.id, firstn_all.
  by rewrite (bool_decide_eq_false_2 ([] <> [])), orb_false_r by tauto.
Qed.

Lemma config_reader_ok strict data : reader_ok (config_reader strict data).
Proof.
  split; [done|]. unfold Verify, config_reader, advance. cbn [r_src r_sha256Hash r_sha256sum r_md5Hash r_md5sum r_consumed].
  rewrite app_nil_l, firstn_all, (bool_decide_eq_true_2 (sha256_sum data = sha256_sum data)) by done.
  rewrite andb_false_r. by rewrite (bool_decide_eq_false_2 ([] <> [])), andb_false_r by tauto.
Qed.

Definition config_fits (strict : bool) (w : World) (f data : bytes) : Prop :=
  put_fits w minioMetaBucket f (config_reader strict data) None.

Lemma runs_saveConfig strict f data w :
  ready w -> small_meta (view (w_drive w)) -> config_fits strict w f data ->
  runs (saveConfig strict f data) (λ err d t,
    err <> None /\ view d = view (w_drive w) \/
    err = None /\ is_Some (bucket_record (view (w_drive w)) minioMetaBucket) /\
      Z.of_nat (length data) <= blockSizeV1 /\
      exists meta, Z.of_nat (length meta) <= 2 ^ 16 /\
        view d = <[config_key f := mkEntry meta data]> (view (w_drive w))) w.
Proof.
  intros Hw Hm Hf. unfold saveConfig. rewrite NewReader_config.
  eapply runs_bind; [done|apply (put_outcome w minioMetaBucket f (config_reader strict data) None); try done; apply config_reader_ok|].
  intros [oi err] w1 Hw1 _ Hp. apply runs_ret; [done|].
  destruct Hp as [(e & E & Hv)|([[[_ Hb] _] _] & Hsz & E & _ & Hv)].
  - left. by injection E as -> ->.
  - right. cbn [snd] in E. split_and!; [done|done|done|]. eexists. split; [exact Hf|exact Hv].
Qed.

Lemma system_bucket_name : bucket_name_ok minioMetaBucket.
Proof. unfold bucket_name_ok. split_and!; [done|compute_done|compute_done|reflexivity]. Qed.

(** Saving one file keeps the bucket and the other files. *)
Lemma saved_frame m f meta data b :
  object_name_ok f -> bucket_name_ok b ->
  bucket_record (<[config_key f := mkEntry meta data]> m) b = bucket_record m b.
Proof.
  intros Hf Hb. unfold bucket_record, config_key. rewrite lookup_insert_ne; [done|].
  intros E. symmetry in E. eapply keys_distinct; [exact Hb| |exact E]. apply object_key_no_nul; [apply system_bucket_name|done].
Qed.

Lemma saved_readable m f g meta data :
  readable m (minioMetaBucket ++ str "/" ++ g) -> data <> [] -> Z.of_nat (length data) <= blockSizeV1 ->
  readable (<[config_key f := mkEntry meta data]> m) (minioMetaBucket ++ str "/" ++ g).
Proof.
  intros Hr Hd Hl e. rewrite lookup_insert. case_decide; [|apply Hr]. intros [= <-]. cbn. unfold blockSizeV1 in Hl.
  split; [done|lia].
Qed.

Lemma read_saved m f meta data :
  is_Some (bucket_record m minioMetaBucket) -> object_name_ok f -> data <> [] -> Z.of_nat (length data) <= blockSizeV1 ->
  read_result (<[config_key f := mkEntry meta data]> m) f = inl data.
Proof.
  intros Hb Hf Hd Hl. unfold blockSizeV1 in Hl. apply (read_stored _ f (mkEntry meta data)); try done.
  - by rewrite saved_frame by (done || apply system_bucket_name).
  - apply lookup_insert_eq.
  - cbn. lia.
Qed.

Lemma read_saved_other m f g meta data :
  object_name_ok f -> object_name_ok g -> f <> g ->
  read_result (<[config_key f := mkEntry meta data]> m) g = read_result m g.
Proof.
  intros Hf Hg Hne. unfold read_result, get_spec. rewrite saved_frame by (done || apply system_bucket_name).
  unfold config_key. rewrite lookup_insert_ne; [done|]. rewrite !CString_id by (apply object_key_no_nul; done || apply system_bucket_name).
  intros E. by simplify_list_eq.
Qed.

(** ** The lock configuration of a bucket and a restart *)
Lemma unmarshal_again d r : unmarshal_DefaultRetention d = inl r -> unmarshal_DefaultRetention (inl r) = inl r.
Proof.
  unfold unmarshal_DefaultRetention. destruct d as [x|]; [|done]. intros E.
  assert (x = r) as ->; [|exact E]. repeat (case_match; try done); by injection E.
Qed.

Lemma parse_again doc config :
  ParseObjectLockConfig doc = inl config ->
  ParseObjectLockConfig (inl (mkConfigDocument (ObjectLockEnabled config) (inl <$> Rule config))) = inl config.
Proof.
  unfold ParseObjectLockConfig, unmarshal_Config. destruct doc as [doc|]; [|done].
  destruct (doc_Rule doc) as [d|] eqn:Ed; [destruct (unmarshal_DefaultRetention d) as [r|] eqn:Er; [|done]|].
  all: case_decide; [|done]; intros [= <-]; cbn [doc_Enabled doc_Rule ObjectLockEnabled Rule fmap option_fmap option_map].
  - rewrite (unmarshal_again d r Er). by rewrite decide_True.
  - by rewrite decide_True.
Qed.

Lemma parsed_retention doc config now :
  ParseObjectLockConfig doc = inl config -> is_Some (ToRetention config now).
Proof.
  unfold ParseObjectLockConfig, unmarshal_Config, ToRetention. destruct doc as [doc|]; [|done].
  destruct (doc_Rule doc) as [d|]; [destruct (unmarshal_DefaultRetention d) as [r|] eqn:Er; [|done]|];
    (case_decide; [|done]); intros [= <-]; cbn [Rule]; [|by eauto].
  destruct now; [|by eauto]. unfold unmarshal_DefaultRetention in Er. destruct d as [x|]; [|done].
  destruct (dr_Days r) eqn:E1; [by eauto|]. destruct (dr_Years r) eqn:E2; [by eauto|].
  destruct (negb _); [done|]. exfalso. repeat (case_match; try done); simplify_eq.
Qed.

(** The file that marks the bucket as one with locking. *)
Definition lock_enabled (m : gmap bytes entry) (b : bytes) : Prop :=
  read_result m (config_file b bucketObjectLockEnabledConfigFile) = inl bucketObjectLockEnabledConfig.

Definition put_config_then_restart strict init worm checkAuth table b doc now0 now1
  : M (reply unit * BucketObjectLockConfig * option (BucketObjectLockConfig * option error)) :=
  p ← PutBucketObjectLockConfigHandler strict init worm checkAuth table b doc now0;
  match p.1 with
  | inr _ => mret (p, None)
  | inl _ => q ← initBucketObjectLockConfig now1 [mkBucketInfo b zeroTime] ∅; mret (p, Some q)
  end.

Lemma config_name_same w w' f : same w w' -> config_name w f -> config_name w' f.
Proof. intros Hs (H1' & H2' & Hl). split_and!; try done. by apply (lockable_same _ _ _ _ _ Hs). Qed.

Lemma runs_load_config now b config w :
  let f1 := config_file b bucketObjectLockEnabledConfigFile in
  let f2 := config_file b objectLockConfig in
  ready w -> small_meta (view (w_drive w)) ->
  readable (view (w_drive w)) (minioMetaBucket ++ str "/" ++ f1) -> readable (view (w_drive w)) (minioMetaBucket ++ str "/" ++ f2) ->
  config_name w f1 -> config_name w f2 -> lock_enabled (view (w_drive w)) b ->
  read_result (view (w_drive w)) f2 = inl (xml_Marshal config) ->
  (∃ doc, ParseObjectLockConfig doc = inl config) ->
  runs (initBucketObjectLockConfig now [mkBucketInfo b zeroTime] ∅) (λ r _ _,
    r.2 = None /\ r.1 !! b = match Rule config with Some _ => ToRetention config (now 0%nat) | None => Some zeroRetention end) w.
Proof.
  intros f1 f2 Hw Hm Hr1 Hr2 Hn1 Hn2 He Hc [doc Hp]. cbn [initBucketObjectLockConfig bi_Name].
  eapply runs_bind; [done|by apply runs_readConfig|]. intros r1 w1 Hw1 Hs1 (Ed1 & _ & ->).
  rewrite He. cbn [decide]. rewrite decide_False by tauto. rewrite <- Ed1 in Hm, Hr2, Hc.
  eapply runs_bind; [done|apply runs_readConfig; try done; by eapply config_name_same|].
  intros r2 w2 Hw2 _ (_ & _ & ->). fold f2. rewrite Hc, xml_roundtrip, (parse_again _ _ Hp).
  destruct (Rule config) eqn:Er.
  - destruct (parsed_retention doc config (now 0%nat) Hp) as [ret Hret]. rewrite Hret.
    cbn [lift]. apply runs_ret_bind, runs_ret; [done|]. split; [done|]. apply (lookup_insert_eq (M := gmap bytes)).
  - apply runs_ret_bind, runs_ret; [done|]. split; [done|]. apply (lookup_insert_eq (M := gmap bytes)).
Qed.

(** C33. The lock configuration of a bucket survives a restart: a configuration
    with a rule that is put and answered with success gives the bucket its
    retention, and loading the configurations afterwards gives the retention of
    the same rule, mode and period; a request that fails leaves the table as it
    was.  A configuration without a rule takes the bucket out of the table of the
    running server, and the restarted one has it with an empty retention. *)
Theorem lock_config_survives_restart strict init worm checkAuth table b doc now0 now1 w :
  let f1 := config_file b bucketObjectLockEnabledConfigFile in
  let f2 := config_file b objectLockConfig in
  ready w -> small_meta (view (w_drive w)) ->
  readable (view (w_drive w)) (minioMetaBucket ++ str "/" ++ f1) -> readable (view (w_drive w)) (minioMetaBucket ++ str "/" ++ f2) ->
  config_name w f1 -> config_name w f2 -> f1 <> f2 ->
  (∀ config, ParseObjectLockConfig doc = inl config -> config_fits strict w f2 (xml_Marshal config)) ->
  is_Some (checkAuth PutBucketObjectLockConfigurationAction b []) ->
  runs (put_config_then_restart strict init worm checkAuth table b doc now0 now1) (λ res _ _,
    match res with
    | (p, None) => p.2 = table
    | (p, Some q) =>
        ∃ config, ParseObjectLockConfig doc = inl config /\ q.2 = None /\
          match Rule config with
          | Some rule => p.2 !! b = ToRetention config now0 /\ q.1 !! b = ToRetention config (now1 0%nat)
          | None => p.2 !! b = None /\ q.1 !! b = Some zeroRetention
          end
    end) w.
Proof.
  intros f1 f2 Hw Hm Hr1 Hr2 Hn1 Hn2 Hne Hfit [s Hs]. unfold put_config_then_restart, PutBucketObjectLockConfigHandler.
  destruct init; [|by apply runs_ret]. destruct worm; [by apply runs_ret|]. cbn [negb].
  apply runs_assoc. eapply runs_lift_bind; [exact Hs|].
  case_decide; [by apply runs_ret|]. destruct (ParseObjectLockConfig doc) as [config|e] eqn:Hp; [|by apply runs_ret].
  apply runs_assoc. eapply runs_bind; [done|by apply runs_readConfig|].
  intros r1 w1 Hw1 Hs1 (Ed1 & Et1 & ->). destruct (read_result _ _) as [data|e] eqn:He; [|by apply runs_ret].
  case_decide as Hdata; [by apply runs_ret|]. subst data.
  specialize (Hfit config eq_refl). unfold config_fits, put_fits in Hfit. rewrite <- Ed1 in Hm, Hr1, Hr2, He, Hfit. rewrite <- Et1 in Hfit.
  apply runs_assoc. eapply runs_bind; [done|by apply runs_saveConfig|].
  intros err w2 Hw2 Hs2 [[Hf Hv]|(-> & Hbk & Hsz & meta & Hmeta & Hv)]; [destruct err; [by apply runs_ret|done]|].
  assert (config_name w2 f1 /\ config_name w2 f2) as [Hn1' Hn2'] by
    (split; eapply config_name_same; try done; by eapply config_name_same).
  assert (xml_Marshal config <> []) as Hnil by apply xml_nonempty.
  assert (runs (initBucketObjectLockConfig now1 [mkBucketInfo b zeroTime] ∅) (λ r _ _,
    r.2 = None /\ r.1 !! b = match Rule config with Some _ => ToRetention config (now1 0%nat) | None => Some zeroRetention end) w2) as Hload.
  { apply runs_load_config; rewrite ?Hv; try done.
    - by apply small_meta_insert.
    - by apply saved_readable.
    - by apply saved_readable.
    - unfold lock_enabled. rewrite read_saved_other; [exact He|apply Hn2|apply Hn1|]. intros E. by apply Hne.
    - apply read_saved; [done|apply Hn2|done|done].
    - eauto. }
  destruct (Rule config) eqn:Er.
  - destruct (parsed_retention doc config now0 Hp) as [ret Hret]. apply runs_assoc. eapply runs_lift_bind; [exact Hret|].
    apply runs_ret_bind. cbn [fst]. eapply runs_bind; [done|exact Hload|]. intros q w3 Hw3 _ [Hq1 Hq2].
    apply runs_ret; [done|]. exists config. rewrite Er. split_and!; try done. rewrite Hret. apply (lookup_insert_eq (M := gmap bytes)).
  - apply runs_ret_bind. cbn [fst]. eapply runs_bind; [done|exact Hload|]. intros q w3 Hw3 _ [Hq1 Hq2].
    apply runs_ret; [done|]. exists config. rewrite Er. split_and!; try done. apply (lookup_delete_eq (M := gmap bytes)).
Qed.
End spec.

(** ** A concrete server *)
Module LockServer.
Import LockScenario Scenario.

#[global] Instance retention_eq_dec : EqDecision DefaultRetention.
Proof. solve_decision. Defined.
#[global] Instance retention_countable : Countable DefaultRetention.
Proof. refine (inj_countable' (λ r, (dr_Mode r, dr_Days r, dr_Years r)) (λ '(m, d, y), mkDefaultRetention m d y) _). by intros []. Defined.
#[export] Instance ref_xml : LockXML := {|
  xml_Marshal c := bytes_of_pos (encode (ObjectLockEnabled c, Rule c));
  xml_Decode s :=
    match pos_of_bytes s ≫= decode with
    | Some (enabled, rule) => inl (mkConfigDocument enabled (inl <$> rule))
    | None => inr (errText (str "EOF"))
    end |}.
#[export] Instance ref_xml_laws : LockXMLLaws ref_xml.
Proof.
  split; cbn [xml_Marshal xml_Decode ref_xml].
  - intros c. apply bytes_of_pos_nonempty.
  - intros c. rewrite pos_of_bytes_of_pos. cbn [mbind option_bind]. by rewrite decode_encode.
Qed.

Definition allow_all (action bucket object : bytes) : option APIErrorCode := Some ErrNone.
Definition locked_meta : strmap := lock_entries uploaded ∅.

Lemma locked_meta_ok : user_meta_ok (Some locked_meta).
Proof.
  split.
  - intros k x. revert k x. change (map_Forall (λ k x, utf8_ok k /\ utf8_ok x) locked_meta).
    apply (bool_decide_eq_true_1 _). vm_compute. reflexivity.
  - intros k Hk. revert k Hk. apply Forall_forall. apply (bool_decide_eq_true_1 _). vm_compute. reflexivity.
Qed.

Lemma locked_object_survives_witness :
  runs (put_then bkt obj hello (Some locked_meta)
          (DeleteObjectHandler true false allow_all ∅ None bkt (inl obj) [] None (Some (now + day_ns))))
    (λ res d _, match res with
     | (p, None) => p.2 <> None /\ view d = view (w_drive w_empty)
     | (p, Some answer) => p.2 = None /\ oi_Size p.1 = r_size hello /\
         (exists e, answer = inr e) /\ (e_value <$> view d !! CString (bkt ++ str "/" ++ obj)) = Some (r_src hello)
     end) w_empty.
Proof.
  apply (locked_object_survives true false allow_all ∅ None bkt obj [] None ErrNone (now + day_ns) hello (Some locked_meta) w_empty).
  - apply clock.
  - apply start_ready.
  - apply w_empty_small.
  - split; [apply bkt_ok|]. split; [apply obj_ok|]. split; [apply hello_ok|]. split; [apply locked_meta_ok|].
    unfold put_fits. apply Z.leb_le. vm_compute. reflexivity.
  - vm_compute. reflexivity.
  - eexists. reflexivity.
  - reflexivity.
  - right. split; [vm_compute; split; discriminate|]. intros [E _]. vm_compute in E. discriminate.
Defined.

(** A server whose bucket was created with locking. *)
Definition enabled_file : bytes := config_file bkt bucketObjectLockEnabledConfigFile.
Definition config_xml : bytes := config_file bkt objectLockConfig.
Definition w_lock : World :=
  start [bucket_entry minioMetaBucket; bucket_entry bkt;
         (minioMetaBucket ++ str "/" ++ enabled_file,
          mkEntry (json_Marshal (put_fsMeta enabled_file ∅ 41 (str "00001") (str "etag") 0)) bucketObjectLockEnabledConfig)].
Definition days30 : config_document := mkConfigDocument (str "Enabled") (Some (inl (mkDefaultRetention Governance (Some 30) None))).

Lemma start_config_name es f : checkGetObjArgs minioMetaBucket f = None -> object_name_ok f -> config_name (start es) f.
Proof. intros Hc Ho. split; [done|]. split; [done|]. vm_compute. done. Qed.

Lemma lock_config_survives_restart_witness :
  runs (put_config_then_restart true true false allow_all ∅ bkt (inl days30) (Some now) (λ _, Some later)) (λ res _ _,
    match res with
    | (p, None) => p.2 = ∅
    | (p, Some q) =>
        ∃ config, ParseObjectLockConfig (inl days30) = inl config /\ q.2 = None /\
          match Rule config with
          | Some rule => p.2 !! bkt = ToRetention config (Some now) /\ q.1 !! bkt = ToRetention config (Some later)
          | None => p.2 !! bkt = None /\ q.1 !! bkt = Some zeroRetention
          end
    end) w_lock.
Proof.
  apply (lock_config_survives_restart true true false allow_all ∅ bkt (inl days30) (Some now) (λ _, Some later) w_lock).
  - apply start_ready.
  - apply start_small. vm_compute. reflexivity.
  - intros e He. vm_compute in He. injection He as <-. split; [discriminate|vm_compute; discriminate].
  - intros e He. vm_compute in He. discriminate.
  - apply start_config_name; [vm_compute; reflexivity|]. split; [compute_done|reflexivity].
  - apply start_config_name; [vm_compute; reflexivity|]. split; [compute_done|reflexivity].
  - vm_compute. discriminate.
  - intros config E. vm_compute in E. injection E as <-. unfold config_fits, put_fits. apply Z.leb_le. vm_compute. reflexivity.
  - eexists. reflexivity.
Defined.

(** An object in compliance mode for another year, in a bucket with locking. *)
Definition bkt_table : BucketObjectLockConfig := {[ bkt := mkRetention Governance (30 * day_ns) ]}.
Definition compliant_meta : fsMetaV1 := put_fsMeta obj (set_retention Compliance later ∅) 5 (str "00001") (str "etag") 0.
Definition w_compliant : World :=
  start [bucket_entry bkt; (bkt ++ str "/" ++ obj, mkEntry (json_Marshal compliant_meta) (str "hello"))].
Definition md5_header : multimap := {[ ContentMD5 := [str "x"] ]}.
Definition bypass_header : multimap := <[AmzObjectLockBypassGovernance := [str "true"]]> md5_header.
Definition two_years : retention_document := mkRetentionDocument Compliance (Some (str "2015-05-24T00:00:00Z")).
Definition put_retention (h : multimap) (doc : retention_document) : M (reply unit) :=
  PutObjectRetentionHandler true false allow_all allow_all h None bkt_table bkt (inl obj) [] (inl doc) (Some now) (Some now).


(** The extension is let through; a change to governance mode is not, with the
    bypass header and the permission, and neither is an earlier date. *)
Example compliance_requests :
  match put_retention md5_header two_years w_compliant,
        put_retention bypass_header (mkRetentionDocument Governance (Some (str "2015-05-24T00:00:00Z"))) w_compliant,
        put_retention bypass_header (mkRetentionDocument Compliance (Some (str "2014-01-01T00:00:00Z"))) w_compliant with
  | ROk a1 _, ROk a2 _, ROk a3 _ => a1 = inl tt /\ a2 = inr (ToAPIErr ErrObjectLocked) /\ a3 = inr (ToAPIErr ErrObjectLocked)
  | _, _, _ => False
  end.
Proof. vm_compute. auto. Qed.

(** The period in days does not depend on the clock. *)
Example restart_same_retention :
  match put_config_then_restart true true false allow_all ∅ bkt (inl days30) (Some now) (λ _, Some later) w_lock with
  | ROk ((inl _, table), Some (table', None)) _ => table !! bkt = table' !! bkt /\ table !! bkt = Some (mkRetention Governance (30 * day_ns))
  | _ => False
  end.
Proof. vm_compute. auto. Qed.
End LockServer.

(** ** Findings

    Behaviours of object locking that its comments or the rest of the code
    contradict, each shown by a run of the model or by a short lemma. *)
From S2P Require Import Prelude GoLib GoText Errors APIErrors Metadata NsLock Pool Drive World HashReader Client Names Buckets Reference Objects Multipart Session Scenario GoTime GoDate SignV2 ObjectLock ObjectLockSpec LockHandlers.

Module LockFindings.
Import LockScenario Scenario LockServer.

Definition info_of_meta (m : strmap) : (ObjectInfo * option error) + error := inl (with_meta m zeroObjectInfo, None).

(** An object that is retained for another month. *)
Definition governed : strmap := set_retention Governance (now + 30 * day_ns) ∅.
Definition bkt_config : BucketObjectLockConfig := {[ bkt := mkRetention Governance (30 * day_ns) ]}.
Definition bad_hold : multimap := {[ AmzObjectLockLegalHold := [str "MAYBE"] ]}.

(** A hold header that is not a status lets a retained object be overwritten. *)
Example bad_hold_header_overwrites :
  pl_Err (checkPutObjectLockAllowed false bkt_config ∅ bkt (info_of_meta governed) ErrNone ErrNone (Some now) (Some now)) = ErrObjectLocked /\
  pl_Err (checkPutObjectLockAllowed false bkt_config bad_hold bkt (info_of_meta governed) ErrNone ErrNone (Some now) (Some now)) = ErrNone.
Proof. vm_compute. auto. Qed.

(** The permission to put a legal hold is not looked at. *)
Lemma hold_permission_ignored `{UpperEnv} `{UnicodeEnv} `{ScanEnv} worm config h bucket info permR permH permH' now0 now1 :
  checkPutObjectLockAllowed worm config h bucket info permR permH now0 now1
  = checkPutObjectLockAllowed worm config h bucket info permR permH' now0 now1.
Proof. reflexivity. Qed.

(** The retention and the hold of an object stay in the metadata that is shown
    to a user without the permission to see them. *)
Example filter_keeps_lock :
  FilterObjectLockMetadata (<[metaLegalHold := ON]> governed) true true = <[metaLegalHold := ON]> governed.
Proof. vm_compute. reflexivity. Qed.

(** With a hold header, an upload does not get the retention of its bucket. *)
Example hold_header_drops_default :
  let hold : multimap := {[ AmzObjectLockLegalHold := [str "OFF"] ]} in
  let missing := inl (zeroObjectInfo, Some (ObjectNotFound bkt obj)) in
  pl_Mode (checkPutObjectLockAllowed false bkt_config ∅ bkt missing ErrNone ErrNone (Some now) (Some now)) = Governance /\
  pl_Mode (checkPutObjectLockAllowed false bkt_config hold bkt missing ErrNone ErrNone (Some now) (Some now)) = Invalid.
Proof. vm_compute. auto. Qed.

(** A configuration without a rule: the running server forgets that the bucket
    has locking, and lets a retained object be overwritten; the restarted server
    does not. *)
Definition no_rule : config_document := mkConfigDocument (str "Enabled") None.
Example no_rule_forgets_locking :
  match put_config_then_restart true true false allow_all bkt_config bkt (inl no_rule) (Some now) (λ _, Some now) w_lock with
  | ROk ((inl _, running), Some (restarted, None)) _ =>
      pl_Err (checkPutObjectLockAllowed false running ∅ bkt (info_of_meta governed) ErrNone ErrNone (Some now) (Some now)) = ErrNone /\
      pl_Err (checkPutObjectLockAllowed false restarted ∅ bkt (info_of_meta governed) ErrNone ErrNone (Some now) (Some now)) = ErrObjectLocked
  | _ => False
  end.
Proof. vm_compute. auto. Qed.

(** A legal hold that is put and answered with success is not there afterwards,
    and the object can be deleted. *)
Definition hold_then_delete : M (reply unit * reply ObjectLegalHold * reply unit) :=
  put ← PutObjectLegalHoldHandler true allow_all md5_header None bkt_config bkt (inl obj) [] (inl ON);
  hold ← GetObjectLegalHoldHandler true allow_all None bkt_config bkt (inl obj) [];
  del ← DeleteObjectHandler true false allow_all ∅ None bkt (inl obj) [] None (Some now);
  mret (put, hold, del).
Example hold_is_not_stored :
  match hold_then_delete w_object with
  | ROk (put, hold, del) w =>
      put = inl tt /\ hold = inr (ToAPIErr ErrNoSuchObjectLockConfiguration) /\ del = inl tt /\
      view (w_drive w) !! str "bkt/obj" = None
  | _ => False
  end.
Proof. vm_compute. auto. Qed.

(** A retention put on an object that does not exist is answered with success. *)
Example retention_of_missing_object :
  match PutObjectRetentionHandler true false allow_all allow_all md5_header None bkt_config bkt (inl obj) []
          (inl (mkRetentionDocument Compliance (Some (str "2014-05-24T00:00:00Z")))) (Some now) (Some now) w_empty with
  | ROk answer w => answer = inl tt /\ view (w_drive w) !! str "bkt/obj" = None
  | _ => False
  end.
Proof. vm_compute. auto. Qed.

(** A date whose year in UTC has five digits is accepted by an upload, and read
    back as no date at all: the object is not retained. *)
Definition year_10000 : multimap :=
  {[ AmzObjectLockMode := [Compliance]; AmzObjectLockRetainUntilDate := [str "9999-12-31T23:00:00-02:00"] ]}.
Example late_date_is_lost :
  let missing := inl (zeroObjectInfo, Some (ObjectNotFound bkt obj)) in
  let pl := checkPutObjectLockAllowed false bkt_config year_10000 bkt missing ErrNone ErrNone (Some now) (Some now) in
  let m := lock_entries pl ∅ in
  pl_Err pl = ErrNone /\ m !! metaMode = Some Compliance /\ or_RetainUntilDate (GetObjectRetentionMeta (Some m)) = zeroTime /\
  (enforceRetentionBypassForDelete false ∅ (info_of_meta m) ErrAccessDenied (Some now)).2 = ErrNone.
Proof. vm_compute. auto. Qed.

(** A retention that is put and answered with success is not there afterwards,
    and the object can be deleted. *)
Definition retention_then_delete : M (reply unit * reply ObjectRetention * reply unit) :=
  put ← PutObjectRetentionHandler true false allow_all allow_all md5_header None bkt_config bkt (inl obj) [] (inl two_years) (Some now) (Some now);
  ret ← GetObjectRetentionHandler true allow_all None bkt (inl obj) [];
  del ← DeleteObjectHandler true false allow_all ∅ None bkt (inl obj) [] None (Some now);
  mret (put, ret, del).
Example retention_is_not_stored :
  match retention_then_delete w_object with
  | ROk (put, ret, del) w =>
      put = inl tt /\ ret = inl (mkObjectRetention Invalid zeroTime) /\ del = inl tt /\ view (w_drive w) !! str "bkt/obj" = None
  | _ => False
  end.
Proof. vm_compute. auto. Qed.
End LockFindings.
