(* ===== verification/Lifecycle.v ===== *)
(** * Lifecycle of objects: pkg/bucket/lifecycle, pkg/bucket/object/tagging, cmd/lifecycle.go

    A lifecycle configuration is a list of rules; a rule selects objects by a
    prefix and by tags and says when they expire.  [Validate] checks a
    configuration, [ComputeAction] decides whether an object has expired, and
    [LifecycleSys] holds the configurations of the buckets.  The decoder of
    encoding/xml is not modelled: what it fills in is an argument. *)
From S2P Require Import Prelude GoLib IncStr GoText Errors Metadata GoTime GoDate.

(** [utf8.RuneCountInString]: a byte that does not begin a rune counts as one. *)
Fixpoint RuneCountInString (s : bytes) : nat :=
  match s with
  | [] => 0
  | a :: s1 =>
      S (if utf8.inr a 0 127 then RuneCountInString s1
         else match s1 with
         | [] => 0
         | b :: s2 =>
             if utf8.inr a 194 223 && utf8.cont b then RuneCountInString s2
             else match s2 with
             | [] => RuneCountInString s1
             | c :: s3 =>
                 if ((utf8.inr a 224 224 && utf8.inr b 160 191) || (utf8.inr a 225 236 && utf8.cont b)
                     || (utf8.inr a 237 237 && utf8.inr b 128 159) || (utf8.inr a 238 239 && utf8.cont b)) && utf8.cont c
                 then RuneCountInString s3
                 else match s3 with
                 | [] => RuneCountInString s1
                 | d :: s4 =>
                     if ((utf8.inr a 240 240 && utf8.inr b 144 191) || (utf8.inr a 241 243 && utf8.cont b)
                         || (utf8.inr a 244 244 && utf8.inr b 128 143)) && utf8.cont c && utf8.cont d
                     then RuneCountInString s4
                     else RuneCountInString s1
                 end
             end
         end)
  end.

(** ** Tags (pkg/bucket/object/tagging) *)
Definition maxTags : nat := 10.
Definition maxTagKeyLength : nat := 128.
Definition maxTagValueLength : nat := 256.
Definition ErrTooManyTags : error := tagging_Error (str "BadRequest") (str "Object tags cannot be greater than 10").
Definition ErrInvalidTagKey : error := tagging_Error (str "InvalidTag") (str "The TagKey you have provided is invalid").
Definition ErrInvalidTagValue : error := tagging_Error (str "InvalidTag") (str "The TagValue you have provided is invalid").
Definition ErrInvalidTag : error := tagging_Error (str "InvalidTag") (str "Cannot provide multiple Tags with the same key").

Record Tag := mkTag { tag_Key : bytes; tag_Value : bytes }.
Definition validateKey (t : Tag) : option error :=
  if (maxTagKeyLength <? RuneCountInString (tag_Key t))%nat then Some ErrInvalidTagKey
  else if decide (tag_Key t = []) then Some ErrInvalidTagKey
  else if strings.Contains (tag_Key t) (str "&") then Some ErrInvalidTagKey
  else None.
Definition validateValue (t : Tag) : option error :=
  if (maxTagValueLength <? RuneCountInString (tag_Value t))%nat then Some ErrInvalidTagValue
  else if strings.Contains (tag_Value t) (str "&") then Some ErrInvalidTagValue
  else None.
Definition Tag_Validate (t : Tag) : option error :=
  match validateKey t with
  | Some err => Some err
  | None => validateValue t
  end.
Definition Tag_IsEmpty (t : Tag) : bool := bool_decide (tag_Key t = []) && bool_decide (tag_Value t = []).
Definition Tag_String (t : Tag) : bytes := tag_Key t ++ str "=" ++ tag_Value t.

(** The loop of [TagSet.ContainsDuplicateTag] and of [And.ContainsDuplicateTag]:
    the keys seen so far. *)
Fixpoint duplicate_key (x : gset bytes) (tags : list Tag) : bool :=
  match tags with
  | [] => false
  | t :: tags' => if decide (tag_Key t ∈ x) then true else duplicate_key ({[tag_Key t]} ∪ x) tags'
  end.
Definition ContainsDuplicateTag (tags : list Tag) : bool := duplicate_key ∅ tags.

(** The first error of a list of tags. *)
Fixpoint validate_tags (tags : list Tag) : option error :=
  match tags with
  | [] => None
  | t :: tags' => match Tag_Validate t with Some err => Some err | None => validate_tags tags' end
  end.

Record Tagging := mkTagging { TagSet : list Tag }.
Definition Tagging_Validate (t : Tagging) : option error :=
  if (maxTags <? length (TagSet t))%nat then Some ErrTooManyTags
  else match validate_tags (TagSet t) with
       | Some err => Some err
       | None => if ContainsDuplicateTag (TagSet t) then Some ErrInvalidTag else None
       end.
(** Both [Tagging.String] and [Rule.Tags] write the tags with "&" between them:
    nothing is written before the first text that is not empty. *)
Definition tags_String (tags : list Tag) : bytes :=
  foldl (λ buf t, buf ++ (if decide (buf = []) then [] else str "&") ++ Tag_String t) [] tags.
Definition Tagging_String (t : Tagging) : bytes := tags_String (TagSet t).
Definition ParseTagging (decoded : Tagging + error) : Tagging + error :=
  match decoded with
  | inr err => inr err
  | inl t => match Tagging_Validate t with Some err => inr err | None => inl t end
  end.

(** ** Rules (pkg/bucket/lifecycle) *)
Definition errLifecycleTooManyRules : error := lifecycle_Error (str "Lifecycle configuration allows a maximum of 1000 rules").
Definition errLifecycleNoRule : error := lifecycle_Error (str "Lifecycle configuration should have at least one rule").
Definition errLifecycleOverlappingPrefix : error := lifecycle_Error (str "Lifecycle configuration has rules with overlapping prefix").
Definition errInvalidRuleID : error := lifecycle_Error (str "ID must be less than 255 characters").
Definition errEmptyRuleStatus : error := lifecycle_Error (str "Status should not be empty").
Definition errInvalidRuleStatus : error := lifecycle_Error (str "Status must be set to either Enabled or Disabled").
Definition errMissingExpirationAction : error := lifecycle_Error (str "No expiration action found").
Definition errInvalidFilter : error := lifecycle_Error (str "Filter must have exactly one of Prefix, Tag, or And specified").
Definition errDuplicateTagKey : error := lifecycle_Error (str "Duplicate Tag Keys are not allowed").
Definition errLifecycleInvalidDate : error := lifecycle_Error (str "Date must be provided in ISO 8601 format").
Definition errLifecycleInvalidDays : error := lifecycle_Error (str "Days must be positive integer when used with Expiration").
Definition errLifecycleDateNotMidnight : error := lifecycle_Error (str "'Date' must be at midnight GMT").

Record And := mkAnd { and_Prefix : bytes; and_Tags : list Tag }.
Definition And_isEmpty (a : And) : bool := bool_decide (and_Tags a = []) && bool_decide (and_Prefix a = []).
Definition And_Validate (a : And) : option error :=
  if ContainsDuplicateTag (and_Tags a) then Some errDuplicateTagKey else validate_tags (and_Tags a).

Record Filter := mkFilter { f_Prefix : bytes; f_And : And; f_Tag : Tag }.
Definition Filter_Validate (f : Filter) : option error :=
  let and_err :=
    if negb (And_isEmpty (f_And f)) then
      if decide (f_Prefix f <> []) then Some errInvalidFilter
      else if negb (Tag_IsEmpty (f_Tag f)) then Some errInvalidFilter
      else And_Validate (f_And f)
    else None in
  match and_err with
  | Some err => Some err
  | None =>
      if bool_decide (f_Prefix f <> []) && negb (Tag_IsEmpty (f_Tag f)) then Some errInvalidFilter
      else if negb (Tag_IsEmpty (f_Tag f)) then Tag_Validate (f_Tag f)
      else None
  end.

(** [exp_Named] is that the name of the element was set, that is, that the
    document has the element. *)
Record Expiration := mkExpiration { exp_Named : bool; exp_Days : Z; exp_Date : time }.
Definition zeroExpiration : Expiration := mkExpiration false 0 zeroTime.
#[export] Instance expiration_eq_dec : EqDecision Expiration.
Proof. solve_decision. Defined.
Definition IsDaysNull (e : Expiration) : bool := exp_Days e =? 0.
Definition IsDateNull (e : Expiration) : bool := exp_Date e =? zeroTime.

Definition unmarshal_ExpirationDays (decoded : Z + error) : Z + error :=
  match decoded with
  | inr err => inr err
  | inl numDays => if numDays <=? 0 then inr errLifecycleInvalidDays else inl numDays
  end.
(** A date with a numeric offset of zero is in a zone of the name UTC only when
    the zone of the server is the built-in default ([local_UTC]). *)
Definition unmarshal_ExpirationDate (local_UTC : bool) (decoded : bytes + error) : time + error :=
  match decoded with
  | inr err => inr err
  | inl dateStr =>
      match Parse_RFC3339 dateStr with
      | None => inr errLifecycleInvalidDate
      | Some expDate =>
          let utc := strings.HasSuffix dateStr (str "Z")
                     || local_UTC && (strings.HasSuffix dateStr (str "+00:00") || strings.HasSuffix dateStr (str "-00:00")) in
          if (expDate mod day_ns =? 0) && utc then inl expDate else inr errLifecycleDateNotMidnight
      end
  end.
Definition marshal_ExpirationDate (t : time) : option bytes := if t =? zeroTime then None else Some (Format_RFC3339 t).

Definition Enabled : bytes := str "Enabled".
Definition Disabled : bytes := str "Disabled".
Record Rule := mkRule { rule_ID : bytes; rule_Status : bytes; rule_Filter : Filter; rule_Expiration : Expiration }.

Definition validateID (r : Rule) : option error :=
  if (255 <? length (rule_ID r))%nat then Some errInvalidRuleID else None.
Definition validateStatus (r : Rule) : option error :=
  if decide (rule_Status r = []) then Some errEmptyRuleStatus
  else if decide (rule_Status r <> Enabled /\ rule_Status r <> Disabled) then Some errInvalidRuleStatus
  else None.
Definition validateAction (r : Rule) : option error :=
  if decide (rule_Expiration r = zeroExpiration) then Some errMissingExpirationAction else None.
Definition validateFilter (r : Rule) : option error := Filter_Validate (rule_Filter r).
Definition Rule_Validate (r : Rule) : option error :=
  match validateID r with
  | Some err => Some err
  | None =>
      match validateStatus r with
      | Some err => Some err
      | None =>
          match validateAction r with
          | Some err => Some err
          | None => validateFilter r
          end
      end
  end.
Definition Rule_Prefix (r : Rule) : bytes :=
  if decide (f_Prefix (rule_Filter r) <> []) then f_Prefix (rule_Filter r)
  else if decide (and_Prefix (f_And (rule_Filter r)) <> []) then and_Prefix (f_And (rule_Filter r))
  else [].
Definition Rule_Tags (r : Rule) : bytes :=
  if negb (Tag_IsEmpty (f_Tag (rule_Filter r))) then Tag_String (f_Tag (rule_Filter r))
  else if decide (and_Tags (f_And (rule_Filter r)) <> []) then tags_String (and_Tags (f_And (rule_Filter r)))
  else [].

(** ** Configurations *)
Record Lifecycle := mkLifecycle { Rules : list Rule }.

Fixpoint validate_rules (rs : list Rule) : option error :=
  match rs with
  | [] => None
  | r :: rs' => match Rule_Validate r with Some err => Some err | None => validate_rules rs' end
  end.
(** Every rule with every later one. *)
Definition overlap (r other : Rule) : bool :=
  strings.HasPrefix (Rule_Prefix r) (Rule_Prefix other) || strings.HasPrefix (Rule_Prefix other) (Rule_Prefix r).
Fixpoint overlapping (rs : list Rule) : bool :=
  match rs with
  | [] => false
  | r :: rs' => existsb (overlap r) rs' || overlapping rs'
  end.
Definition Lifecycle_Validate (lc : Lifecycle) : option error :=
  if (1000 <? length (Rules lc))%nat then Some errLifecycleTooManyRules
  else if decide (Rules lc = []) then Some errLifecycleNoRule
  else match validate_rules (Rules lc) with
       | Some err => Some err
       | None => if overlapping (Rules lc) then Some errLifecycleOverlappingPrefix else None
       end.
Definition ParseLifecycleConfig (decoded : Lifecycle + error) : Lifecycle + error :=
  match decoded with
  | inr err => inr err
  | inl lc => match Lifecycle_Validate lc with Some err => inr err | None => inl lc end
  end.

(** A rule applies to an object. *)
Definition rule_matches (objName objTags : bytes) (r : Rule) : bool :=
  negb (bool_decide (rule_Status r = Disabled))
  && strings.HasPrefix objName (Rule_Prefix r)
  && (bool_decide (Rule_Tags r = []) || strings.Contains objTags (Rule_Tags r)).
Fixpoint filter_rules (rs : list Rule) (objName objTags : bytes) : Expiration :=
  match rs with
  | [] => zeroExpiration
  | r :: rs' => if rule_matches objName objTags r then rule_Expiration r else filter_rules rs' objName objTags
  end.
(** The transition is always empty. *)
Definition FilterRuleActions (lc : Lifecycle) (objName objTags : bytes) : Expiration :=
  if decide (objName = []) then zeroExpiration else filter_rules (Rules lc) objName objTags.

Inductive Action := NoneAction | DeleteAction.
#[export] Instance action_eq_dec : EqDecision Action.
Proof. solve_decision. Defined.

(** [time.Duration(exp.Days) * 24 * time.Hour], of 64 bits. *)
Definition days_duration (days : Z) : Z := wrap_s 64 (wrap_s 64 (days * 24) * (3600 * 10 ^ 9)).
Definition ComputeAction (lc : Lifecycle) (objName objTags : bytes) (modTime : time) (now0 now1 : time) : Action :=
  if modTime =? zeroTime then NoneAction
  else
    let exp := FilterRuleActions lc objName objTags in
    let action := if negb (IsDateNull exp) && (exp_Date exp <? now0) then DeleteAction else NoneAction in
    if negb (IsDaysNull exp) && (modTime + days_duration (exp_Days exp) <? now1) then DeleteAction else action.

(** ** The configurations of the buckets (cmd/lifecycle.go) *)
Definition LifecycleSys := gmap bytes Lifecycle.
Definition NewLifecycleSys : LifecycleSys := ∅.
Definition LifecycleSys_Set (globalIsGateway : bool) (bucketName : bytes) (lc : Lifecycle) (sys : LifecycleSys) : LifecycleSys :=
  if globalIsGateway then sys else <[bucketName := lc]> sys.
Definition LifecycleSys_Remove (bucketName : bytes) (sys : LifecycleSys) : LifecycleSys := delete bucketName sys.

(** ** [lcp] (cmd/utils.go): the longest common prefix of a list *)
Definition min_max (l : list bytes) (s0 : bytes) : bytes * bytes :=
  foldl (λ '(mn, mx) s, if bytes_ltb s mn then (s, mx) else if bytes_ltb mx s then (mn, s) else (mn, mx)) (s0, s0) l.
(** The first index at which two strings differ. *)
Fixpoint first_difference (s t : bytes) : option nat :=
  match s, t with
  | a :: s', b :: t' => if decide (a = b) then S <$> first_difference s' t' else Some 0%nat
  | _, _ => None
  end.
Definition lcp (l : list bytes) : bytes :=
  match l with
  | [] => []
  | [s] => s
  | s :: l' =>
      let '(mn, mx) := min_max l' s in
      match first_difference mn mx with
      | Some i => take i mn
      | None => mn
      end
  end.
