(* ===== verification/LifecycleSpec.v ===== *)
(** * What the lifecycle of objects guarantees

    In a configuration that was accepted at most one rule selects an object, so
    the order of the rules does not matter; an object is deleted exactly when its
    rule says so; and the prefix under which the objects are walked is the longest
    one that covers all rules. *)
From S2P Require Import Prelude GoLib IncStr GoText Errors Metadata GoTime GoDate Lifecycle.

(** ** The longest common prefix *)
Lemma ble_lt s t : bytes_ltb s t = true -> ble s t.
Proof. intros Hs. apply ble_iff. by left. Qed.

(** What lies between two strings has their common prefixes. *)
Lemma between_prefix p s t u : p `prefix_of` s -> p `prefix_of` u -> ble s t -> ble t u -> p `prefix_of` t.
Proof.
  revert s t u. induction p as [|a p IH]; intros s t u [s' ->] [u' ->] Hst Htu; [by exists t|].
  unfold ble in *. destruct t as [|b t]; [by cbn in Hst|]. cbn in Hst, Htu. head_cases; try lia.
  apply prefix_cons. eapply (IH (p ++ s') t (p ++ u')); [by eexists|by eexists|done|done].
Qed.

Lemma min_max_spec l s0 mn mx :
  min_max l s0 = (mn, mx) ->
  mn ∈ s0 :: l /\ mx ∈ s0 :: l /\ ∀ s, s ∈ s0 :: l -> ble mn s /\ ble s mx.
Proof.
  unfold min_max. revert mn mx. induction l as [|x l IH] using rev_ind; intros mn mx.
  - cbn. intros [= <- <-]. split_and!; [set_solver|set_solver|].
    intros s ->%list_elem_of_singleton. split; reflexivity.
  - rewrite foldl_snoc. destruct (foldl _ _ l) as [mn' mx'] eqn:E. destruct (IH _ _ eq_refl) as (H1 & H2 & H3). clear IH E.
    assert (∀ s, s ∈ s0 :: l ++ [x] <-> s ∈ s0 :: l \/ s = x) as Hin by set_solver.
    pose proof (H3 _ H1) as [_ Hmm].
    destruct (bytes_ltb x mn') eqn:Ex; [|destruct (bytes_ltb mx' x) eqn:Ey]; intros [= <- <-]; (split_and!; [set_solver|set_solver|]);
      intros s [Hs| ->]%Hin.
    + destruct (H3 s Hs). split; [|done]. etrans; [by apply ble_lt|done].
    + split; [reflexivity|]. etrans; [by apply ble_lt|done].
    + destruct (H3 s Hs). split; [done|]. etrans; [done|by apply ble_lt].
    + split; [done|reflexivity].
    + by apply H3.
    + done.
Qed.

Lemma first_difference_some s t i :
  first_difference s t = Some i -> take i s `prefix_of` t /\ ∀ p, p `prefix_of` s -> p `prefix_of` t -> p `prefix_of` take i s.
Proof.
  revert t i. induction s as [|a s IH]; intros [|b t] i; cbn; try done. case_decide as E.
  - subst b. destruct (first_difference s t) as [j|] eqn:Ej; [|done]. intros [= <-]. cbn.
    destruct (IH t j Ej) as [H1 H2]. split; [by apply prefix_cons|].
    intros [|c p] Hs Ht; [apply prefix_nil|]. apply prefix_cons_inv_1 in Hs as Hc. subst c.
    apply prefix_cons. apply H2; by eapply prefix_cons_inv_2.
  - intros [= <-]. cbn. split; [apply prefix_nil|]. intros [|c p] Hs Ht; [done|].
    apply prefix_cons_inv_1 in Hs, Ht. congruence.
Qed.
Lemma first_difference_none s t : first_difference s t = None -> s `prefix_of` t \/ t `prefix_of` s.
Proof.
  revert t. induction s as [|a s IH]; intros [|b t]; cbn; auto using prefix_nil. case_decide; [|done]. subst b.
  destruct (first_difference s t) eqn:E; [done|]. intros _. destruct (IH t E); [left|right]; by apply prefix_cons.
Qed.

Lemma ble_prefix s t : ble s t -> t `prefix_of` s -> s = t.
Proof.
  intros Hle [u ->]. apply ble_iff in Hle as [Hlt|]; [|done]. exfalso. unfold blt in Hlt.
  rewrite <- (app_nil_r t) in Hlt at 2. rewrite bytes_ltb_app_same in Hlt. by destruct u.
Qed.

(** [lcp] gives the longest common prefix of the strings of a list. *)
Theorem lcp_longest l :
  l <> [] ->
  (∀ s, s ∈ l -> lcp l `prefix_of` s) /\ (∀ p, (∀ s, s ∈ l -> p `prefix_of` s) -> p `prefix_of` lcp l).
Proof.
  intros Hl. destruct l as [|s0 [|s1 l]]; [done| |].
  - cbn. split; [intros s ->%list_elem_of_singleton; done|]. intros p Hp. apply Hp. set_solver.
  - unfold lcp. set (rest := s1 :: l). destruct (min_max rest s0) as [mn mx] eqn:E.
    apply min_max_spec in E as (H1 & H2 & H3).
    destruct (first_difference mn mx) as [i|] eqn:Ed.
    + apply first_difference_some in Ed as [Hp Hm]. split; [|by intros p Hall; apply Hm; apply Hall].
      intros s Hs. destruct (H3 s Hs). eapply between_prefix; [apply prefix_take|exact Hp|done|done].
    + split; [|by intros p Hall; apply Hall]. assert (mn `prefix_of` mx) as Hp.
      { destruct (first_difference_none _ _ Ed) as [|Hp]; [done|]. by rewrite (ble_prefix mn mx (proj1 (H3 mx H2)) Hp). }
      intros s Hs. destruct (H3 s Hs). by apply (between_prefix mn mn s mx).
Qed.

Lemma lcp_longest_witness :
  (∀ s, s ∈ [str "logs/a"; str "logs/b"; str "log"] -> str "log" `prefix_of` s) /\
  (∀ p, (∀ s, s ∈ [str "logs/a"; str "logs/b"; str "log"] -> p `prefix_of` s) -> p `prefix_of` str "log").
Proof. apply (lcp_longest [str "logs/a"; str "logs/b"; str "log"]). discriminate. Defined.

(** ** Rules *)
Definition prefix_of_bool (s p : bytes) : strings.HasPrefix s p = true <-> p `prefix_of` s := bool_decide_eq_true _.

(** In a configuration without overlapping prefixes no name has two of them. *)
Lemma no_overlap rs i j r r' objName :
  overlapping rs = false -> rs !! i = Some r -> rs !! j = Some r' -> (i < j)%nat ->
  Rule_Prefix r `prefix_of` objName -> Rule_Prefix r' `prefix_of` objName -> False.
Proof.
  revert i j. induction rs as [|x rs IH]; intros i j Ho Hi Hj Hij Hp Hp'; [done|].
  cbn in Ho. apply orb_false_iff in Ho as [He Ho]. destruct j as [|j]; [lia|]. destruct i as [|i]; [|by eapply (IH i j); eauto; lia].
  injection Hi as ->. cbn in Hj. rewrite <- not_true_iff_false, existsb_exists in He. apply He. exists r'.
  split; [by eapply list_elem_of_In, list_elem_of_lookup_2|]. unfold overlap. rewrite orb_true_iff, !prefix_of_bool.
  destruct (prefix_weak_total (Rule_Prefix r) (Rule_Prefix r') objName); auto.
Qed.

Lemma filter_rules_none rs objName objTags :
  (∀ r, r ∈ rs -> rule_matches objName objTags r = false) -> filter_rules rs objName objTags = zeroExpiration.
Proof.
  induction rs as [|r rs IH]; [done|]. intros Hn. cbn. rewrite (Hn r) by set_solver. apply IH. set_solver.
Qed.

Lemma rule_matches_prefix objName objTags r : rule_matches objName objTags r = true -> Rule_Prefix r `prefix_of` objName.
Proof. unfold rule_matches. rewrite !andb_true_iff, prefix_of_bool. tauto. Qed.

Lemma filter_rules_unique rs objName objTags r :
  overlapping rs = false -> r ∈ rs -> rule_matches objName objTags r = true ->
  filter_rules rs objName objTags = rule_Expiration r.
Proof.
  induction rs as [|x rs IH]; [set_solver|]. intros Ho Hr Hm. cbn. destruct (rule_matches objName objTags x) eqn:Ex.
  - apply elem_of_cons in Hr as [->|Hr]; [done|]. apply list_elem_of_lookup_1 in Hr as [j Hj]. exfalso.
    eapply (no_overlap (x :: rs) 0 (S j) x r objName); eauto using rule_matches_prefix; lia.
  - apply elem_of_cons in Hr as [->|Hr]; [congruence|]. apply IH; [|done|done]. cbn in Ho. by apply orb_false_iff in Ho as [_ ?].
Qed.

(** The period of a rule: its days in nanoseconds, as a signed number of 64 bits. *)
Definition period (e : Expiration) : Z := wrap_s 64 (exp_Days e * day_ns).
(** The largest number of days whose nanoseconds fit. *)
Definition max_days : Z := 106751.

Lemma period_days e : 0 <= exp_Days e <= max_days -> period e = exp_Days e * day_ns.
Proof. unfold period, max_days, day_ns. intros Hd. by rewrite wrap_s_id by lia. Qed.

Lemma wrap_s_mul x y : wrap_s 64 (wrap_s 64 x * y) = wrap_s 64 (x * y).
Proof.
  unfold wrap_s at 2. assert (∃ k, (x + 2 ^ (64 - 1)) `mod` 2 ^ 64 = x + 2 ^ (64 - 1) + k * 2 ^ 64) as [k ->].
  { exists (- ((x + 2 ^ (64 - 1)) / 2 ^ 64)). pose proof (Z.div_mod (x + 2 ^ (64 - 1)) (2 ^ 64) ltac:(done)). lia. }
  unfold wrap_s. f_equal. rewrite <- (Z.mod_add (x * y + 2 ^ (64 - 1)) (k * y)) by done. f_equal. ring.
Qed.

Lemma days_duration_period e : days_duration (exp_Days e) = period e.
Proof. unfold days_duration, period. rewrite wrap_s_mul. f_equal. unfold day_ns. ring. Qed.

(** The expiration of a rule is due: its date is past, or its period since the
    modification of the object is. *)
Definition due (e : Expiration) (modTime now0 now1 : time) : Prop :=
  (exp_Date e <> zeroTime /\ exp_Date e < now0) \/ (exp_Days e <> 0 /\ modTime + period e < now1).

Lemma ParseLifecycleConfig_ok decoded lc :
  ParseLifecycleConfig decoded = inl lc -> decoded = inl lc /\ overlapping (Rules lc) = false /\ Rules lc <> [].
Proof.
  unfold ParseLifecycleConfig, Lifecycle_Validate. destruct decoded as [x|]; [|done].
  destruct (1000 <? _)%nat; [done|]. case_decide; [done|]. destruct (validate_rules _); [done|].
  destruct (overlapping _) eqn:E; [done|]. by intros [= <-].
Qed.

Lemma ComputeAction_due lc objName objTags modTime now0 now1 :
  modTime <> zeroTime ->
  ComputeAction lc objName objTags modTime now0 now1 = DeleteAction <->
  due (FilterRuleActions lc objName objTags) modTime now0 now1.
Proof.
  intros Hm. unfold ComputeAction, due, IsDateNull, IsDaysNull. rewrite days_duration_period.
  destruct (Z.eqb_spec modTime zeroTime); [done|]. cbv zeta. set (e := FilterRuleActions _ _ _) in *.
  destruct (Z.eqb_spec (exp_Days e) 0), (Z.eqb_spec (exp_Date e) zeroTime), (Z.ltb_spec (exp_Date e) now0),
    (Z.ltb_spec (modTime + period e) now1); cbn; naive_solver lia.
Qed.

(** No two rules of an accepted configuration select the same object. *)
Lemma selects_once rs i j r r' objName objTags :
  overlapping rs = false -> rs !! i = Some r -> rs !! j = Some r' ->
  rule_matches objName objTags r = true -> rule_matches objName objTags r' = true -> i = j.
Proof.
  intros Ho Hi Hj Hm Hm'. apply rule_matches_prefix in Hm, Hm'.
  destruct (Nat.lt_total i j) as [Hlt|[|Hlt]]; [exfalso|done|exfalso].
  - by eapply (no_overlap rs i j r r').
  - by eapply (no_overlap rs j i r' r).
Qed.


(** ** A concrete configuration *)
Module LifecycleScenario.
Definition no_and : And := mkAnd [] [].
Definition no_tag : Tag := mkTag [] [].
Definition days_rule (prefix : bytes) (days : Z) : Rule :=
  mkRule [] Enabled (mkFilter prefix no_and no_tag) (mkExpiration true days zeroTime).
Definition logs_tmp : Lifecycle := mkLifecycle [days_rule (str "logs/") 30; days_rule (str "tmp/") 1].

End LifecycleScenario.
