(* ===== verification/LifecycleOps.v ===== *)
(** * Lifecycle configurations and the expiry of objects: cmd/lifecycle.go,
      cmd/bucket-lifecycle-handler.go, cmd/daily-lifecycle-ops.go

    The configuration of a bucket is the file lifecycle.xml of the server's own
    bucket, and is held in the table [LifecycleSys].  [lifecycleRound] walks the
    objects of every bucket with a configuration and deletes those that have
    expired.  Messages to other servers and events are left out. *)
From S2P Require Import Prelude GoLib GoText IncStr Errors APIErrors Metadata NsLock Pool Drive World HashReader.
From S2P Require Import HttpRange Client Names Buckets Objects Listing Multipart GoTime GoDate Policy SignV2 ObjectLock LockHandlers Lifecycle.

Definition bucketLifecycleConfig : bytes := str "lifecycle.xml".

(** encoding/xml for lifecycle configurations. *)
Class LifecycleXML := {
  lc_Marshal : Lifecycle -> bytes;
  lc_Decode : bytes -> Lifecycle + error }.
Class LifecycleXMLLaws (X : LifecycleXML) : Prop := {
  lc_nonempty lc : lc_Marshal lc <> [];
  (** a configuration that was accepted is read back *)
  lc_roundtrip lc : Lifecycle_Validate lc = None -> lc_Decode (lc_Marshal lc) = inl lc }.

Section lifecycle.
Context `{KineticDrive} `{LRWMutex} `{MetaCodec} `{MetaEnv} `{OSEnv} `{ScanEnv} `{LifecycleXML}.
Context (StrictS3Compat globalIsGateway : bool).

(** ** Files *)
Definition lifecycle_file (bucket : bytes) : bytes := config_file bucket bucketLifecycleConfig.
Definition saveLifecycleConfig (bucketName : bytes) (bucketLifecycle : Lifecycle) : M (option error) :=
  saveConfig StrictS3Compat (lifecycle_file bucketName) (lc_Marshal bucketLifecycle).
Definition getLifecycleConfig (bucketName : bytes) : M (Lifecycle + error) :=
  configData ← readConfig (lifecycle_file bucketName);
  mret match configData with
       | inr err => inr (if decide (err = errConfigNotFound) then BucketLifecycleNotFound bucketName else err)
       | inl configData => ParseLifecycleConfig (lc_Decode configData)
       end.
Definition removeLifecycleConfig (bucketName : bytes) : M (option error) :=
  err ← DeleteObject minioMetaBucket (lifecycle_file bucketName);
  mret match err with
       | Some (ObjectNotFound _ _) => Some (BucketLifecycleNotFound bucketName)
       | err => err
       end.

(** The methods of the object layer. *)
Definition SetBucketLifecycle (bucket : bytes) (lc : Lifecycle) : M (option error) := saveLifecycleConfig bucket lc.
Definition GetBucketLifecycle (bucket : bytes) : M (Lifecycle + error) := getLifecycleConfig bucket.
Definition DeleteBucketLifecycle (bucket : bytes) : M (option error) := removeLifecycleConfig bucket.

(** ** The table *)
Definition LifecycleSys_Get (bucketName : bytes) (sys : LifecycleSys) : M (option Lifecycle) :=
  if globalIsGateway then
    lc ← GetBucketLifecycle bucketName;
    mret match lc with inl lc => Some lc | inr _ => None end
  else mret (sys !! bucketName).
Fixpoint LifecycleSys_load (buckets : list BucketInfo) (sys : LifecycleSys) : M LifecycleSys :=
  match buckets with
  | [] => mret sys
  | bucket :: rest =>
      config ← GetBucketLifecycle (bi_Name bucket);
      LifecycleSys_load rest
        match config with
        | inr (BucketLifecycleNotFound _) => LifecycleSys_Remove (bi_Name bucket) sys
        | inr _ => sys
        | inl config => LifecycleSys_Set globalIsGateway (bi_Name bucket) config sys
        end
  end.
Definition LifecycleSys_Init (initialized : bool) (buckets : list BucketInfo) (sys : LifecycleSys)
  : M (LifecycleSys * option error) :=
  if negb initialized then mret (sys, Some errServerNotInitialized)
  else if globalIsGateway then mret (sys, None)
  else sys ← LifecycleSys_load buckets sys; mret (sys, None).

(** ** Requests *)
Section requests.
Context (initialized : bool) (checkAuth : bytes -> bytes -> bytes -> option APIErrorCode) (header : multimap).

(** The checks that the three requests share: permission and bucket. *)
Definition lifecycle_request (action bucket : bytes) : M (option APIError) :=
  s3Error ← lift (checkAuth action bucket []);
  if decide (s3Error <> ErrNone) then mret (Some (ToAPIErr s3Error))
  else
    '(_, err) ← GetBucketInfo bucket;
    mret match err with Some e => Some (toAPIError (Some e)) | None => None end.

Definition PutBucketLifecycleHandler (bucket : bytes) (document : Lifecycle + error) (sys : LifecycleSys)
  : M (reply unit * LifecycleSys) :=
  if negb initialized then mret (inr (ToAPIErr ErrServerNotInitialized), sys)
  else if negb (hasContentMD5 header) then mret (inr (ToAPIErr ErrMissingContentMD5), sys)
  else
    refused ← lifecycle_request PutBucketLifecycleAction bucket;
    match refused with
    | Some e => mret (inr e, sys)
    | None =>
        match ParseLifecycleConfig document with
        | inr e => mret (inr (toAPIError (Some e)), sys)
        | inl bucketLifecycle =>
            err ← SetBucketLifecycle bucket bucketLifecycle;
            match err with
            | Some e => mret (inr (toAPIError (Some e)), sys)
            | None => mret (inl tt, LifecycleSys_Set globalIsGateway bucket bucketLifecycle sys)
            end
        end
    end.

Definition GetBucketLifecycleHandler (bucket : bytes) : M (reply bytes) :=
  if negb initialized then mret (inr (ToAPIErr ErrServerNotInitialized))
  else
    refused ← lifecycle_request GetBucketLifecycleAction bucket;
    match refused with
    | Some e => mret (inr e)
    | None =>
        bucketLifecycle ← GetBucketLifecycle bucket;
        mret match bucketLifecycle with
             | inr e => inr (toAPIError (Some e))
             | inl lc => inl (lc_Marshal lc)
             end
    end.

Definition DeleteBucketLifecycleHandler (bucket : bytes) (sys : LifecycleSys) : M (reply unit * LifecycleSys) :=
  if negb initialized then mret (inr (ToAPIErr ErrServerNotInitialized), sys)
  else
    refused ← lifecycle_request PutBucketLifecycleAction bucket;
    match refused with
    | Some e => mret (inr e, sys)
    | None =>
        err ← DeleteBucketLifecycle bucket;
        match err with
        | Some e => mret (inr (toAPIError (Some e)), sys)
        | None => mret (inl tt, LifecycleSys_Remove bucket sys)
        end
    end.
End requests.

(** ** The round *)

(** [ComputeAction] reads the clock for each of the two conditions it tests. *)
Definition compute_action (lc : Lifecycle) (obj : ObjectInfo) : M Action :=
  if oi_ModTime obj =? zeroTime then mret NoneAction
  else
    let exp := FilterRuleActions lc (oi_Name obj) (oi_UserTags obj) in
    now0 ← (if IsDateNull exp then mret zeroTime else time_Now);
    now1 ← (if IsDaysNull exp then mret zeroTime else time_Now);
    mret (ComputeAction lc (oi_Name obj) (oi_UserTags obj) (oi_ModTime obj) now0 now1).

(** Receive objects until the channel is closed or there are enough of them to
    be deleted; [wfuel] bounds the steps of the walker between two objects. *)
Fixpoint expired_objects (fuel wfuel : nat) (lc : Lifecycle) (bucket prefix : bytes) (wk : walker) (objects : list bytes)
  : M (list bytes * walker) :=
  match fuel with
  | O => out_of_fuel
  | S fuel' =>
      '(obj, wk) ← walk_next wfuel bucket prefix [] wk;
      match obj with
      | None => mret (objects, wk)
      | Some obj =>
          action ← compute_action lc obj;
          let objects := if decide (action = DeleteAction) then objects ++ [oi_Name obj] else objects in
          if decide (length objects = maxObjectList) then mret (objects, wk)
          else expired_objects fuel' wfuel lc bucket prefix wk objects
      end
  end.

(** Delete batch by batch; errors are logged only. *)
Fixpoint expire_batches (fuel wfuel : nat) (lc : Lifecycle) (bucket prefix : bytes) (wk : walker) : M unit :=
  match fuel with
  | O => out_of_fuel
  | S fuel' =>
      '(objects, wk) ← expired_objects wfuel wfuel lc bucket prefix wk [];
      match objects with
      | [] => mret tt
      | _ =>
          _ ← DeleteObjects bucket objects;
          expire_batches fuel' wfuel lc bucket prefix wk
      end
  end.

Fixpoint expire_buckets (fuel : nat) (buckets : list BucketInfo) (sys : LifecycleSys) : M unit :=
  match buckets with
  | [] => mret tt
  | bucket :: rest =>
      l ← LifecycleSys_Get (bi_Name bucket) sys;
      _ ← match l with
          | None => mret tt
          | Some l =>
              let commonPrefix := lcp (Rule_Prefix <$> Rules l) in
              expire_batches fuel fuel l (bi_Name bucket) commonPrefix (walk_start (bi_Name bucket) commonPrefix)
          end;
      expire_buckets fuel rest sys
  end.

Definition lifecycleRound (fuel : nat) (sys : LifecycleSys) : M (option error) :=
  with_lock false (NewNSLock (str "system") [str "daily-lifecycle-ops"]) Some (
    '(buckets, err) ← ListBuckets fuel;
    match err with
    | Some e => mret (Some e)
    | None => _ ← expire_buckets fuel buckets sys; mret None
    end).
End lifecycle.
