(* ===== verification/LifecycleOpsSpec.v ===== *)
(** * The lifecycle configurations of the server

    A configuration that was put is the one that a restarted server loads; and
    runs of the round that deletes expired objects. *)
From S2P Require Import Prelude GoLib GoText IncStr Errors APIErrors Metadata NsLock Pool Drive World HashReader.
From S2P Require Import HttpRange Client Names Buckets Reference Objects ObjectsSpec Listing Multipart Encodable ReadSpec GetSpec RoundTrip.
From S2P Require Import Session Scenario GoTime GoDate Policy SignV2 ObjectLock ObjectLockSpec LockHandlers LockHandlersSpec Lifecycle LifecycleSpec LifecycleOps.

Section spec.
Context `{KineticDrive} `{LRWMutex} `{MetaCodec} `{MetaEnv} `{OSEnv} `{ScanEnv} `{LifecycleXML}.
Context `{!KineticDriveSpec _} `{!LRWMutexLaws _} `{!MetaCodecLaws _} `{!LifecycleXMLLaws _}.

(** The shared checks only read. *)
Lemma runs_lifecycle_request checkAuth action b w :
  ready w -> small_meta (view (w_drive w)) -> is_Some (checkAuth action b []) ->
  runs (lifecycle_request checkAuth action b) (λ _ d t, d = w_drive w /\ t = w_tick w) w.
Proof.
  intros Hw Hm [s Hs]. unfold lifecycle_request. eapply runs_lift_bind; [exact Hs|]. case_decide; [by apply runs_ret|].
  eapply runs_bind; [done|by apply runs_GetBucketInfo|]. intros [bi err] w1 Hw1 _ [Hyes Hno]. apply runs_ret; [done|].
  destruct (decide (lockable w b [] true)) as [Hl|Hl]; [destruct (Hyes Hl) as (? & ? & _)|destruct (Hno Hl) as (_ & ? & ?)]; done.
Qed.

Definition put_lifecycle_then_restart strict init checkAuth h b doc sys
  : M (reply unit * LifecycleSys * option LifecycleSys) :=
  p ← PutBucketLifecycleHandler strict false init checkAuth h b doc sys;
  match p.1 with
  | inr _ => mret (p, None)
  | inl _ => q ← LifecycleSys_load false [mkBucketInfo b zeroTime] ∅; mret (p, Some q)
  end.

Lemma parse_lifecycle_again doc lc :
  ParseLifecycleConfig doc = inl lc -> ParseLifecycleConfig (lc_Decode (lc_Marshal lc)) = inl lc.
Proof.
  intros Hp. assert (Lifecycle_Validate lc = None) as Hv.
  { unfold ParseLifecycleConfig in Hp. destruct doc as [x|]; [|done]. destruct (Lifecycle_Validate x) eqn:E; [done|].
    by injection Hp as <-. }
  rewrite lc_roundtrip by done. unfold ParseLifecycleConfig. by rewrite Hv.
Qed.

(** The lifecycle configuration of a bucket survives a restart: when a
    request to put one succeeds, the table of the server holds the configuration
    of the document, and so does the table that a restarted server loads; a
    request that fails leaves the table as it was. *)
Theorem lifecycle_survives_restart strict init checkAuth h b doc sys w :
  let f := lifecycle_file b in
  ready w -> small_meta (view (w_drive w)) -> readable (view (w_drive w)) (minioMetaBucket ++ str "/" ++ f) ->
  config_name w f -> is_Some (checkAuth PutBucketLifecycleAction b []) ->
  (∀ lc, ParseLifecycleConfig doc = inl lc -> config_fits strict w f (lc_Marshal lc)) ->
  runs (put_lifecycle_then_restart strict init checkAuth h b doc sys) (λ res _ _,
    match res with
    | (p, None) => p.2 = sys
    | (p, Some q) => ∃ lc, ParseLifecycleConfig doc = inl lc /\ p.2 !! b = Some lc /\ q !! b = Some lc
    end) w.
Proof.
  intros f Hw Hm Hr Hn Hs Hfit. unfold put_lifecycle_then_restart, PutBucketLifecycleHandler.
  destruct init; [|by apply runs_ret]. destruct (hasContentMD5 h); [|by apply runs_ret]. cbn [negb].
  apply runs_assoc. eapply runs_bind; [done|by apply runs_lifecycle_request|].
  intros refused w1 Hw1 Hs1 [Ed Et]. destruct refused; [by apply runs_ret|].
  destruct (ParseLifecycleConfig doc) as [lc|e] eqn:Hp; [|by apply runs_ret].
  specialize (Hfit lc eq_refl). unfold config_fits, put_fits in Hfit. rewrite <- Ed in Hm, Hr, Hfit. rewrite <- Et in Hfit.
  apply runs_assoc. eapply runs_bind; [done|by apply runs_saveConfig|].
  intros err w2 Hw2 Hs2 [[Hf Hv]|(-> & Hbk & Hsz & meta & Hmeta & Hv)]; [destruct err; [by apply runs_ret|done]|].
  assert (lc_Marshal lc <> []) as Hnil by apply lc_nonempty.
  apply runs_ret_bind. cbn [fst LifecycleSys_load]. unfold GetBucketLifecycle, getLifecycleConfig. cbn [bi_Name].
  apply runs_assoc, runs_assoc. eapply runs_bind; [done|apply runs_readConfig|].
  - done.
  - rewrite Hv. by apply small_meta_insert.
  - rewrite Hv. by apply saved_readable.
  - eapply config_name_same; [exact Hs2|]. by eapply config_name_same.
  - intros data w3 Hw3 _ (_ & _ & ->). rewrite Hv, read_saved by (done || apply Hn).
    apply runs_ret_bind. rewrite (parse_lifecycle_again doc lc Hp). apply runs_ret_bind, runs_ret; [done|].
    exists lc. split_and!; [done| |]; apply (lookup_insert_eq (M := gmap bytes)).
Qed.
End spec.

(** ** A concrete server *)
Module LifecycleServer.
Import LockScenario Scenario LockServer LifecycleScenario.

Definition tag_tuple (t : Tag) := (tag_Key t, tag_Value t).
Definition rule_tuple (r : Rule) :=
  let f := rule_Filter r in let e := rule_Expiration r in
  ((rule_ID r, rule_Status r, f_Prefix f), (and_Prefix (f_And f), tag_tuple <$> and_Tags (f_And f), tag_tuple (f_Tag f)),
   (exp_Named e, exp_Days e, exp_Date e)).
Definition tuple_tag (t : bytes * bytes) : Tag := mkTag t.1 t.2.
Definition tuple_rule '(((id, st, pre), (apre, atags, tag), (named, days, date)) :
    (bytes * bytes * bytes) * (bytes * list (bytes * bytes) * (bytes * bytes)) * (bool * Z * Z)) : Rule :=
  mkRule id st (mkFilter pre (mkAnd apre (tuple_tag <$> atags)) (tuple_tag tag)) (mkExpiration named days date).
Lemma tuple_tags_of (ts : list Tag) : tuple_tag <$> (tag_tuple <$> ts) = ts.
Proof. induction ts as [|[k v] ts IH]; [done|]. cbn. by rewrite IH. Qed.
Lemma tuple_rule_of r : tuple_rule (rule_tuple r) = r.
Proof. destruct r as [i st [pre [apre atags] [k v]] [named days date]]. cbn. by rewrite tuple_tags_of. Qed.
Lemma tuple_rules_of (rs : list Rule) : tuple_rule <$> (rule_tuple <$> rs) = rs.
Proof. induction rs as [|r rs IH]; [done|]. cbn [fmap list_fmap]. by rewrite IH, tuple_rule_of. Qed.

#[export] Instance ref_lifecycle_xml : LifecycleXML := {|
  lc_Marshal lc := bytes_of_pos (encode (rule_tuple <$> Rules lc));
  lc_Decode s := match pos_of_bytes s ≫= decode with
                 | Some rs => inl (mkLifecycle (tuple_rule <$> rs))
                 | None => inr (xml_SyntaxError (str "EOF"))
                 end |}.
#[export] Instance ref_lifecycle_xml_laws : LifecycleXMLLaws ref_lifecycle_xml.
Proof.
  split; cbn [lc_Marshal lc_Decode ref_lifecycle_xml]; [intros; apply bytes_of_pos_nonempty|].
  intros [rs] _. rewrite pos_of_bytes_of_pos. cbn [mbind option_bind Rules]. by rewrite decode_encode, tuple_rules_of.
Qed.

Definition w_system : World := start [bucket_entry minioMetaBucket; bucket_entry bkt].
Definition md5 : multimap := {[ ContentMD5 := [str "x"] ]}.

Lemma lifecycle_survives_restart_witness :
  runs (put_lifecycle_then_restart true true allow_all md5 bkt (inl logs_tmp) ∅) (λ res _ _,
    match res with
    | (p, None) => p.2 = ∅
    | (p, Some q) => ∃ lc, ParseLifecycleConfig (inl logs_tmp) = inl lc /\ p.2 !! bkt = Some lc /\ q !! bkt = Some lc
    end) w_system.
Proof.
  apply (lifecycle_survives_restart true true allow_all md5 bkt (inl logs_tmp) ∅ w_system).
  - apply start_ready.
  - apply start_small. vm_compute. reflexivity.
  - intros e He. vm_compute in He. discriminate.
  - apply start_config_name; [vm_compute; reflexivity|]. split; [compute_done|reflexivity].
  - eexists. reflexivity.
  - intros lc E. vm_compute in E. injection E as <-. unfold config_fits, put_fits. apply Z.leb_le. vm_compute. reflexivity.
Defined.

(** ** A round *)

(** The clock of the reference environment starts at zero; an object that was
    put so many days before. *)
Definition aged (name : bytes) (meta : strmap) (days : Z) : bytes * entry :=
  (bkt ++ str "/" ++ name, mkEntry (json_Marshal (put_fsMeta name meta 5 (str "00001") (str "etag") (- days * day_ns))) (str "hello")).
Definition w_aged (meta : strmap) : World :=
  start [bucket_entry bkt; aged (str "keep/a") ∅ 100; aged (str "logs/new") ∅ 3; aged (str "logs/old") meta 40; aged (str "tmp/a") ∅ 3].
Definition sys_logs : LifecycleSys := {[ bkt := logs_tmp ]}.
Definition keys_left (r : res (option error)) : list bytes :=
  match r with ROk None w => filter (λ k, k <> bucket_key bkt) (map_to_list (view (w_drive w))).*1 | _ => [] end.

Example round_deletes_expired : keys_left (lifecycleRound false 20 sys_logs (w_aged ∅)) ≡ₚ [str "bkt/keep/a"; str "bkt/logs/new"].
Proof. apply (bool_decide_eq_true_1 _). vm_compute. reflexivity. Qed.
End LifecycleServer.

(** ** Findings

    Behaviours of the lifecycle that its comments or the rest of the code
    contradict, each shown by a run of the model or by a short lemma. *)
From S2P Require Import Prelude GoLib GoText IncStr Errors APIErrors Metadata NsLock Pool Drive World HashReader.
From S2P Require Import HttpRange Client Names Buckets Reference Objects ObjectsSpec Listing Multipart Session Scenario GoTime GoDate Policy SignV2 ObjectLock ObjectLockSpec LockHandlers LockHandlersSpec Lifecycle LifecycleSpec LifecycleOps.

Module LifecycleFindings.
Import LockScenario Scenario LockServer LifecycleScenario LifecycleServer.

(** From 106752 days on the period overflows, and a new object expires at once. *)
Example long_period_expires_now :
  ParseLifecycleConfig (inl (mkLifecycle [days_rule (str "a") 106752])) = inl (mkLifecycle [days_rule (str "a") 106752]) /\
  ComputeAction (mkLifecycle [days_rule (str "a") 106751]) (str "a") [] now now now = NoneAction /\
  ComputeAction (mkLifecycle [days_rule (str "a") 106752]) (str "a") [] now now now = DeleteAction.
Proof. vm_compute. auto. Qed.

(** Tags are compared as texts: a rule for the tag a=1 selects an object with
    the tag ca=10. *)
Definition tag_rule : Rule := mkRule [] Enabled (mkFilter [] no_and (mkTag (str "a") (str "1"))) (mkExpiration true 1 zeroTime).
Example tag_substring :
  ComputeAction (mkLifecycle [tag_rule]) (str "x") (str "ca=10") now (now + 2 * day_ns) (now + 2 * day_ns) = DeleteAction.
Proof. vm_compute. reflexivity. Qed.

(** The object layer gives no tags, so a rule with tags selects nothing. *)
Lemma Contains_nil t : t <> [] -> strings.Contains [] t = false.
Proof. by destruct t. Qed.
Lemma tag_rules_never_match `{MetaEnv} fm b o objName r :
  Rule_Tags r <> [] -> rule_matches objName (oi_UserTags (info_of fm b o)) r = false.
Proof.
  intros Hr. unfold rule_matches. cbn [oi_UserTags info_of KVInfoToObjectInfo]. rewrite Contains_nil, (bool_decide_eq_false_2 (Rule_Tags r = [])) by done.
  by rewrite andb_false_r.
Qed.

(** An expiration with days and a date, and one with neither, are accepted. *)
Example expiration_not_checked :
  let f := mkFilter (str "a") no_and no_tag in
  Lifecycle_Validate (mkLifecycle [mkRule [] Enabled f (mkExpiration true 1 now)]) = None /\
  Lifecycle_Validate (mkLifecycle [mkRule [] Enabled f (mkExpiration true 0 zeroTime)]) = None.
Proof. vm_compute. auto. Qed.

(** A round deletes an object that is on legal hold and retained. *)
Definition held_meta : strmap := <[metaLegalHold := ON]> (set_retention Compliance (1000 * day_ns) ∅).
Example round_deletes_locked :
  keys_left (lifecycleRound false 20 sys_logs (w_aged held_meta)) ≡ₚ [str "bkt/keep/a"; str "bkt/logs/new"] /\
  (enforceRetentionBypassForDelete false ∅ (inl (with_meta held_meta zeroObjectInfo, None)) ErrNone (Some 0)).2 = ErrObjectLocked.
Proof. split; [apply (bool_decide_eq_true_1 _)|]; vm_compute; reflexivity. Qed.

(** Removing a configuration that is not there: the object layer answers with
    an error that is not the one that is looked for. *)
Example remove_missing_lifecycle :
  match removeLifecycleConfig bkt w_system with
  | ROk err _ => err = Some errFileNotFound
  | _ => False
  end.
Proof. vm_compute. reflexivity. Qed.
End LifecycleFindings.
