(* ===== verification/Crypto.v ===== *)
(** * Server-side encryption: cmd/crypto, cmd/encryption-v1.go

    The headers by which a client asks for encryption, the metadata in which the
    key of an object is kept, the sealing of that key, and the key service with a
    single master key.  An object has a key of its own; the key is sealed with the
    client's key (SSE-C) or with a key of the key service (SSE-S3), and the sealed
    key is stored in the metadata of the object.

    [sio] is the library that encrypts streams in the DARE format; its random
    nonces are arguments.  Fixed arrays of bytes are byte strings. *)
From S2P Require Import Prelude GoLib GoText IncStr Errors Metadata NsLock Pool Drive World HttpRange Objects APIErrors Base64 Streaming ObjectLock.
Import base64.

(** ** github.com/minio/sio *)
Class SioEnv := {
  (** [sio.Encrypt] of a whole stream with a nonce *)
  sio_Encrypt : bytes -> bytes -> bytes -> bytes;
  (** [sio.Decrypt]: the oldest version accepted is 2.0; the bytes written and the error *)
  sio_Decrypt : bool -> bytes -> bytes -> bytes * option error }.
Class SioLaws (S : SioEnv) : Prop := {
  sio_roundtrip v20 nonce key data :
    length key = 32%nat -> sio_Decrypt v20 key (sio_Encrypt nonce key data) = (data, None);
  (** a package has a header of 16 bytes and a tag of 16 bytes *)
  sio_small nonce key data :
    0 < Z.of_nat (length data) <= 65536 -> length (sio_Encrypt nonce key data) = (length data + 32)%nat;
  (** what was encrypted with one key is authentic under no other: the ideal form
      of a property that AES-GCM has up to a small probability and up to keys that
      an attacker chooses *)
  sio_authentic v20 nonce key key' data out :
    length key = 32%nat -> length key' = 32%nat -> data <> [] ->
    sio_Decrypt v20 key' (sio_Encrypt nonce key data) = (out, None) -> key' = key }.

(** [copy] into an array of [n] bytes. *)
Definition zero_byte : ascii := ascii_of_N 0.
Definition to_array (n : nat) (b : bytes) : bytes := take n b ++ replicate (n - length b) zero_byte.
#[global] Arguments to_array : simpl never.

(** ** header.go *)
Definition SSEHeader : bytes := str "X-Amz-Server-Side-Encryption".
Definition SSEKmsID : bytes := SSEHeader ++ str "-Aws-Kms-Key-Id".
Definition SSEKmsContext : bytes := SSEHeader ++ str "-Context".
Definition SSECAlgorithm : bytes := SSEHeader ++ str "-Customer-Algorithm".
Definition SSECKey : bytes := SSEHeader ++ str "-Customer-Key".
Definition SSECKeyMD5 : bytes := SSEHeader ++ str "-Customer-Key-Md5".
Definition SSECopyAlgorithm : bytes := str "X-Amz-Copy-Source-Server-Side-Encryption-Customer-Algorithm".
Definition SSECopyKey : bytes := str "X-Amz-Copy-Source-Server-Side-Encryption-Customer-Key".
Definition SSECopyKeyMD5 : bytes := str "X-Amz-Copy-Source-Server-Side-Encryption-Customer-Key-Md5".
Definition SSEAlgorithmAES256 : bytes := str "AES256".
Definition SSEAlgorithmKMS : bytes := str "aws:kms".

Definition has_header (h : multimap) (k : bytes) : bool := bool_decide (is_Some (h !! k)).
Definition Header_Del (key : bytes) (h : multimap) : multimap := delete (CanonicalHeaderKey key) h.
Definition RemoveSensitiveHeaders (h : multimap) : multimap := Header_Del SSECopyKey (Header_Del SSECKey h).

Section headers.
Context `{UnicodeEnv} `{UpperEnv}.
Definition S3_IsRequested (h : multimap) : bool :=
  has_header h SSEHeader && negb (bool_decide (ToLower (Header_Get h SSEHeader) = SSEAlgorithmKMS)).
Definition S3_ParseHTTP (h : multimap) : option error :=
  if decide (Header_Get h SSEHeader = SSEAlgorithmAES256) then None else Some crypto_ErrInvalidEncryptionMethod.
Definition S3KMS_IsRequested (h : multimap) : bool :=
  has_header h SSEKmsID || has_header h SSEKmsContext
  || has_header h SSEHeader && negb (bool_decide (ToUpper (Header_Get h SSEHeader) = SSEAlgorithmAES256)).
Definition SSEC_IsRequested (h : multimap) : bool :=
  has_header h SSECAlgorithm || has_header h SSECKey || has_header h SSECKeyMD5.
Definition SSECopy_IsRequested (h : multimap) : bool :=
  has_header h SSECopyAlgorithm || has_header h SSECopyKey || has_header h SSECopyKeyMD5.
Definition crypto_IsRequested (h : multimap) : bool :=
  S3_IsRequested h || SSEC_IsRequested h || SSECopy_IsRequested h || S3KMS_IsRequested h.
End headers.

(** The two [ParseHTTP] of client keys, which differ in the names of the headers. *)
Definition parse_client_key `{OSEnv} (algorithm key keyMD5 : bytes) (h : multimap) : bytes + error :=
  if decide (Header_Get h algorithm <> SSEAlgorithmAES256) then inr crypto_ErrInvalidCustomerAlgorithm
  else if decide (Header_Get h key = []) then inr crypto_ErrMissingCustomerKey
  else if decide (Header_Get h keyMD5 = []) then inr crypto_ErrMissingCustomerKeyMD5
  else
    match DecodeString false (Header_Get h key) with
    | None => inr crypto_ErrInvalidCustomerKey
    | Some clientKey =>
        if decide (length clientKey <> 32%nat) then inr crypto_ErrInvalidCustomerKey
        else if decide (DecodeString false (Header_Get h keyMD5) = Some (md5_sum clientKey)) then inl clientKey
        else inr crypto_ErrCustomerKeyMD5Mismatch
    end.
Definition SSEC_ParseHTTP `{OSEnv} : multimap -> bytes + error := parse_client_key SSECAlgorithm SSECKey SSECKeyMD5.
Definition SSECopy_ParseHTTP `{OSEnv} : multimap -> bytes + error := parse_client_key SSECopyAlgorithm SSECopyKey SSECopyKeyMD5.

(** ** sse.go and metadata.go *)
Definition SSEMultipart : bytes := str "X-Minio-Internal-Encrypted-Multipart".
Definition SSEIV : bytes := str "X-Minio-Internal-Server-Side-Encryption-Iv".
Definition SSESealAlgorithm : bytes := str "X-Minio-Internal-Server-Side-Encryption-Seal-Algorithm".
Definition SSECSealedKey : bytes := str "X-Minio-Internal-Server-Side-Encryption-Sealed-Key".
Definition S3SealedKey : bytes := str "X-Minio-Internal-Server-Side-Encryption-S3-Sealed-Key".
Definition S3KMSKeyID : bytes := str "X-Minio-Internal-Server-Side-Encryption-S3-Kms-Key-Id".
Definition S3KMSSealedKey : bytes := str "X-Minio-Internal-Server-Side-Encryption-S3-Kms-Sealed-Key".
Definition SealAlgorithm : bytes := str "DAREv2-HMAC-SHA256".
Definition InsecureSealAlgorithm : bytes := str "DARE-SHA256".
Definition S3_String : bytes := str "SSE-S3".
Definition SSEC_String : bytes := str "SSE-C".

Definition S3_IsEncrypted (metadata : option strmap) : bool :=
  has_key metadata S3SealedKey || has_key metadata S3KMSKeyID || has_key metadata S3KMSSealedKey.
Definition SSEC_IsEncrypted (metadata : option strmap) : bool := has_key metadata SSECSealedKey.

Record SealedKey := mkSealedKey { sk_Key : bytes; sk_IV : bytes; sk_Algorithm : bytes }.

Definition errMissingInternalIV : error := crypto_Error (str "The object metadata is missing the internal encryption IV").
Definition errMissingInternalSealAlgorithm : error := crypto_Error (str "The object metadata is missing the internal seal algorithm").
Definition errInvalidInternalIV : error := crypto_Error (str "The internal encryption IV is malformed").
Definition errInvalidInternalSealAlgorithm : error := crypto_Error (str "The internal seal algorithm is invalid and not supported").

(** [CreateMultipartMetadata]; writing the entries of a sealed key.  [None] is the
    panic of [logger.CriticalIf] on a misuse. *)
Definition CreateMultipartMetadata (metadata : option strmap) : strmap := <[SSEMultipart := []]> (default ∅ metadata).
Definition S3_CreateMetadata (metadata : option strmap) (keyID kmsKey : bytes) (sealedKey : SealedKey) : option strmap :=
  if decide (sk_Algorithm sealedKey <> SealAlgorithm) then None
  else if decide (keyID = [] /\ kmsKey <> []) then None
  else if decide (keyID <> [] /\ kmsKey = []) then None
  else
    let metadata := <[S3SealedKey := EncodeToString (sk_Key sealedKey)]> (<[SSEIV := EncodeToString (sk_IV sealedKey)]>
      (<[SSESealAlgorithm := sk_Algorithm sealedKey]> (default ∅ metadata))) in
    Some (if decide (kmsKey <> [] /\ keyID <> [])
          then <[S3KMSSealedKey := EncodeToString kmsKey]> (<[S3KMSKeyID := keyID]> metadata) else metadata).
Definition SSEC_CreateMetadata (metadata : option strmap) (sealedKey : SealedKey) : option strmap :=
  if decide (sk_Algorithm sealedKey <> SealAlgorithm) then None
  else Some (<[SSECSealedKey := EncodeToString (sk_Key sealedKey)]> (<[SSEIV := EncodeToString (sk_IV sealedKey)]>
         (<[SSESealAlgorithm := SealAlgorithm]> (default ∅ metadata)))).

(** Reading them.  The two parsers agree on what is checked of the vector, the
    algorithm and the sealed key. *)
Definition parse_sealed (b64IV b64SealedKey algorithm : bytes) (algorithms : list bytes) (invalid : bytes) : SealedKey + error :=
  match DecodeString false b64IV with
  | None => inr errInvalidInternalIV
  | Some iv =>
      if decide (length iv <> 32%nat) then inr errInvalidInternalIV
      else if decide (algorithm ∉ algorithms) then inr errInvalidInternalSealAlgorithm
      else
        match DecodeString false b64SealedKey with
        | None => inr (crypto_Error invalid)
        | Some encryptedKey =>
            if decide (length encryptedKey <> 64%nat) then inr (crypto_Error invalid)
            else inl (mkSealedKey encryptedKey iv algorithm)
        end
  end.

Definition S3_ParseMetadata (metadata : option strmap) : (bytes * bytes * SealedKey) + error :=
  let m := default ∅ metadata in
  match m !! SSEIV with
  | None => inr errMissingInternalIV
  | Some b64IV =>
  match m !! SSESealAlgorithm with
  | None => inr errMissingInternalSealAlgorithm
  | Some algorithm =>
  match m !! S3SealedKey with
  | None => inr (crypto_Error (str "The object metadata is missing the internal sealed key for SSE-S3"))
  | Some b64SealedKey =>
      match m !! S3KMSKeyID, m !! S3KMSSealedKey with
      | None, Some _ => inr (crypto_Error (str "The object metadata is missing the internal KMS key-ID for SSE-S3"))
      | Some _, None => inr (crypto_Error (str "The object metadata is missing the internal sealed KMS data key for SSE-S3"))
      | keyID, b64KMSSealedKey =>
          match parse_sealed b64IV b64SealedKey algorithm [SealAlgorithm]
                  (str "The internal sealed key for SSE-S3 is invalid") with
          | inr e => inr e
          | inl sealedKey =>
              match b64KMSSealedKey with
              | None => inl (default [] keyID, [], sealedKey)
              | Some b64 =>
                  match DecodeString false b64 with
                  | None => inr (crypto_Error (str "The internal sealed KMS data key for SSE-S3 is invalid"))
                  | Some kmsKey => inl (default [] keyID, kmsKey, sealedKey)
                  end
              end
          end
      end
  end end end.

Definition SSEC_ParseMetadata (metadata : option strmap) : SealedKey + error :=
  let m := default ∅ metadata in
  match m !! SSEIV with
  | None => inr errMissingInternalIV
  | Some b64IV =>
  match m !! SSESealAlgorithm with
  | None => inr errMissingInternalSealAlgorithm
  | Some algorithm =>
  match m !! SSECSealedKey with
  | None => inr (crypto_Error (str "The object metadata is missing the internal sealed key for SSE-C"))
  | Some b64SealedKey =>
      parse_sealed b64IV b64SealedKey algorithm [SealAlgorithm; InsecureSealAlgorithm]
        (str "The internal sealed key for SSE-C is invalid")
  end end end.

Definition IsETagSealed (etag : bytes) : bool := (16 <? Z.of_nat (length etag)).

(** Removing entries. *)
Definition RemoveSensitiveEntries (m : strmap) : strmap := delete SSECopyKey (delete SSECKey m).
Definition RemoveSSEHeaders (m : strmap) : strmap := delete SSECAlgorithm (delete SSECKeyMD5 (delete SSEHeader m)).
Definition RemoveInternalEntries (m : strmap) : strmap :=
  delete S3KMSSealedKey (delete S3KMSKeyID (delete S3SealedKey (delete SSECSealedKey
    (delete SSESealAlgorithm (delete SSEIV (delete SSEMultipart m)))))).

(** ** key.go *)
Section keys.
Context `{SigEnv} `{SioEnv}.

(** [GenerateKey] and [GenerateIV] with the random bytes that were read. *)
Definition GenerateKey (extKey nonce : bytes) : bytes := sha256_Sum (extKey ++ nonce).
Definition GenerateIV (random : bytes) : bytes := random.

(** The key that seals, bound to the vector, the domain and the path. *)
Definition sealing_key (extKey iv domain bucket object : bytes) : bytes :=
  hmac_sha256 extKey (iv ++ domain ++ SealAlgorithm ++ path.Join [bucket; object]).

(** [None] is the panic of [logger.CriticalIf]. *)
Definition Seal (nonce key extKey iv domain bucket object : bytes) : option SealedKey :=
  let encryptedKey := sio_Encrypt nonce (sealing_key extKey iv domain bucket object) key in
  if decide (length encryptedKey <> 64%nat) then None
  else Some (mkSealedKey (to_array 64 encryptedKey) iv SealAlgorithm).

Definition Unseal (extKey : bytes) (sealedKey : SealedKey) (domain bucket object : bytes) : bytes + error :=
  let finish v20 k :=
    let '(decryptedKey, err) := sio_Decrypt v20 k (sk_Key sealedKey) in
    if decide (length decryptedKey <> 32%nat \/ err <> None) then inr crypto_ErrSecretKeyMismatch
    else inl (to_array 32 decryptedKey) in
  if decide (sk_Algorithm sealedKey = SealAlgorithm)
  then finish true (sealing_key extKey (sk_IV sealedKey) domain bucket object)
  else if decide (sk_Algorithm sealedKey = InsecureSealAlgorithm)
  then finish false (sha256_Sum (extKey ++ sk_IV sealedKey))
  else inr (crypto_Error (str "The sealing algorithm '" ++ sk_Algorithm sealedKey ++ str "' is not supported")).

Definition little_endian32 (n : Z) : bytes :=
  (λ i : nat, ascii_of_N (Z.to_N (Z.land (Z.shiftr (wrap_u 32 n) (8 * Z.of_nat i)) 255))) <$> [0; 1; 2; 3]%nat.
Definition DerivePartKey (key : bytes) (id : Z) : bytes := hmac_sha256 key (little_endian32 id).

(** The checksum of an object is sealed with a key derived from the object's; an
    empty one is not, and one of 16 bytes was not. *)
Definition etag_key (key : bytes) : bytes := hmac_sha256 key (str "SSE-etag").
Definition SealETag (nonce key etag : bytes) : bytes :=
  if decide (etag = []) then etag else sio_Encrypt nonce (etag_key key) etag.
Definition UnsealETag (key etag : bytes) : bytes + error :=
  if negb (IsETagSealed etag) then inl etag
  else match sio_Decrypt false (etag_key key) etag with
       | (_, Some e) => inr e
       | (out, None) => inl out
       end.

(** ** kms.go *)

(** The interface of a key service; [GenerateKey] reads the random bytes of the
    key and the nonce of its sealing; [None] is a panic. *)
Record KMS := mkKMS {
  kms_KeyID : bytes;
  kms_GenerateKey : bytes -> bytes -> bytes -> strmap -> option ((bytes * bytes) + error);
  kms_UnsealKey : bytes -> bytes -> strmap -> bytes + error;
  kms_UpdateKey : bytes -> bytes -> strmap -> bytes + error }.

(** [Context.WriteTo]: the pairs sorted by name, between braces. *)
Definition quoted (s : bytes) : bytes := quote :: s ++ [quote].
Definition WriteTo (c : strmap) : bytes :=
  str "{" ++ strings.Join ((λ k, quoted k ++ str ":" ++ quoted (default [] (c !! k))) <$> sort_Strings (map_to_list c).*1) (str ",") ++ str "}".

Definition deriveKey (masterKey keyID : bytes) (context : strmap) : bytes := hmac_sha256 masterKey (keyID ++ WriteTo context).

(** An error of decrypting is returned as it is; a key of another length comes
    back as the zero key and no error. *)
Definition masterKey_UnsealKey (masterKey keyID sealedKey : bytes) (context : strmap) : bytes + error :=
  let '(out, err) := sio_Decrypt false (deriveKey masterKey keyID context) sealedKey in
  match err with
  | Some e => inr e
  | None => if decide (length out <> 32%nat) then inl (replicate 32 zero_byte) else inl (to_array 32 out)
  end.
Definition masterKey_GenerateKey (masterKey random nonce keyID : bytes) (context : strmap) : option (bytes * bytes) :=
  let sealedKey := sio_Encrypt nonce (deriveKey masterKey keyID context) random in
  if decide (length sealedKey <> 64%nat) then None else Some (random, sealedKey).
Definition NewMasterKey (keyID key : bytes) : KMS := {|
  kms_KeyID := keyID;
  kms_GenerateKey random nonce id ctx := inl <$> masterKey_GenerateKey key random nonce id ctx;
  kms_UnsealKey id sealed ctx := masterKey_UnsealKey key id sealed ctx;
  kms_UpdateKey id sealed ctx :=
    match masterKey_UnsealKey key id sealed ctx with inr e => inr e | inl _ => inl sealed end |}.
End keys.

(** ** cmd/encryption-v1.go: the key of an object

    The key service is [GlobalKMS]; there is no cache of objects, and so no
    key service of the cache.  [random] stands for the bytes read from
    crypto/rand. *)
Record randomness := mkRandom { rnd_Key : bytes; rnd_KeyNonce : bytes; rnd_Object : bytes; rnd_IV : bytes; rnd_Nonce : bytes }.

Section objects.
Context `{SigEnv} `{SioEnv} `{UnicodeEnv} `{UpperEnv} `{OSEnv} (GlobalKMS : option KMS).

Definition ParseSSECopyCustomerRequest (h : multimap) (metadata : option strmap) : bytes + error :=
  if S3_IsEncrypted metadata && SSECopy_IsRequested h then inr crypto_ErrIncompatibleEncryptionMethod else SSECopy_ParseHTTP h.
Definition ParseSSECustomerHeader (h : multimap) : bytes + error :=
  if S3_IsRequested h && SSEC_IsRequested h then inr crypto_ErrIncompatibleEncryptionMethod else SSEC_ParseHTTP h.

Definition kms_context (bucket object : bytes) : strmap := {[ bucket := path.Join [bucket; object] ]}.

(** The key of a new object and its metadata; [None] is a panic. *)
Definition newEncryptMetadata (rnd : randomness) (key bucket object : bytes) (metadata : strmap) (sseS3 : bool)
  : option ((bytes * strmap) + error) :=
  if sseS3 then
    match GlobalKMS with
    | None => Some (inr errKMSNotConfigured)
    | Some kms =>
        g ← kms_GenerateKey kms (rnd_Key rnd) (rnd_KeyNonce rnd) (kms_KeyID kms) (kms_context bucket object);
        match g with
        | inr e => Some (inr e)
        | inl (key, encKey) =>
            let objectKey := GenerateKey key (rnd_Object rnd) in
            sealedKey ← Seal (rnd_Nonce rnd) objectKey key (GenerateIV (rnd_IV rnd)) S3_String bucket object;
            m ← S3_CreateMetadata (Some metadata) (kms_KeyID kms) encKey sealedKey;
            Some (inl (objectKey, m))
        end
    end
  else
    let extKey := to_array 32 key in
    let objectKey := GenerateKey extKey (rnd_Object rnd) in
    sealedKey ← Seal (rnd_Nonce rnd) objectKey extKey (GenerateIV (rnd_IV rnd)) SSEC_String bucket object;
    m ← SSEC_CreateMetadata (Some metadata) sealedKey;
    Some (inl (objectKey, m)).

(** The metadata of a request that asks for encryption. *)
Definition setEncryptionMetadata (rnd : randomness) (h : multimap) (bucket object : bytes) (metadata : strmap)
  : option (strmap + error) :=
  match (if SSEC_IsRequested h then ParseSSECustomerHeader h else inl []) with
  | inr e => Some (inr e)
  | inl key =>
      r ← newEncryptMetadata rnd key bucket object metadata (S3_IsRequested h);
      Some (match r with inr e => inr e | inl (_, m) => inl m end)
  end.

(** disk-cache-utils.go: an object of the cache. *)
Definition SSECacheEncrypted : bytes := str "X-Minio-Internal-Encrypted-Cache".
Definition isCacheEncrypted (meta : option strmap) : bool := has_key meta SSECacheEncrypted.

(** [decryptObjectInfo].  Without a cache [globalCacheKMS] is nil. *)
Definition unseal_S3 (kms : KMS) (bucket object : bytes) (metadata : option strmap) : bytes + error :=
  match S3_ParseMetadata metadata with
  | inr e => inr e
  | inl (keyID, kmsKey, sealedKey) =>
      match kms_UnsealKey kms keyID kmsKey (kms_context bucket object) with
      | inr e => inr e
      | inl extKey => Unseal extKey sealedKey S3_String bucket object
      end
  end.
Definition decryptObjectInfo (key bucket object : bytes) (metadata : option strmap) : bytes + error :=
  if S3_IsEncrypted metadata && isCacheEncrypted metadata then inr errKMSNotConfigured
  else if S3_IsEncrypted metadata then
    match GlobalKMS with None => inr errKMSNotConfigured | Some kms => unseal_S3 kms bucket object metadata end
  else if SSEC_IsEncrypted metadata then
    match SSEC_ParseMetadata metadata with
    | inr e => inr e
    | inl sealedKey => Unseal (to_array 32 key) sealedKey SSEC_String bucket object
    end
  else inr errObjectTampered.

(** [EncryptRequest]: the key of the stream and the metadata of the object. *)
Definition EncryptRequest (rnd : randomness) (h : multimap) (bucket object : bytes) (metadata : strmap)
  : option ((bytes * strmap) + error) :=
  if S3_IsRequested h && SSEC_IsRequested h then Some (inr crypto_ErrIncompatibleEncryptionMethod)
  else match (if SSEC_IsRequested h then ParseSSECustomerHeader h else inl []) with
       | inr e => Some (inr e)
       | inl key => newEncryptMetadata rnd key bucket object metadata (S3_IsRequested h)
       end.

(** The keys of [DecryptRequestWithSequenceNumberR] and [DecryptCopyRequestR]. *)
Definition request_object_key (h : multimap) (bucket object : bytes) (metadata : option strmap) : bytes + error :=
  if S3_IsEncrypted metadata then decryptObjectInfo [] bucket object metadata
  else match ParseSSECustomerHeader h with
       | inr e => inr e
       | inl key => decryptObjectInfo key bucket object metadata
       end.
Definition copy_object_key (h : multimap) (bucket object : bytes) (metadata : option strmap) : bytes + error :=
  match (if SSECopy_IsRequested h then ParseSSECopyCustomerRequest h metadata else inl []) with
  | inr e => inr e
  | inl key => decryptObjectInfo key bucket object metadata
  end.

(** [rotateKey]: the metadata sealed with a new key. *)
Definition rotateKey (rnd : randomness) (oldKey newKey bucket object : bytes) (metadata : strmap) : option (strmap + error) :=
  if SSEC_IsEncrypted (Some metadata) then
    match SSEC_ParseMetadata (Some metadata) with
    | inr e => Some (inr e)
    | inl sealedKey =>
        match Unseal (to_array 32 oldKey) sealedKey SSEC_String bucket object with
        | inr _ => Some (inr (if decide (oldKey = newKey) then errInvalidSSEParameters else crypto_ErrInvalidCustomerKey))
        | inl objectKey =>
            if decide (oldKey = newKey /\ sk_Algorithm sealedKey = SealAlgorithm) then Some (inl metadata)
            else
              sealedKey ← Seal (rnd_Nonce rnd) objectKey (to_array 32 newKey) (sk_IV sealedKey) SSEC_String bucket object;
              inl <$> SSEC_CreateMetadata (Some metadata) sealedKey
        end
    end
  else if S3_IsEncrypted (Some metadata) then
    match GlobalKMS with
    | None => Some (inr errKMSNotConfigured)
    | Some kms =>
        match unseal_S3 kms bucket object (Some metadata) with
        | inr e => Some (inr e)
        | inl objectKey =>
            g ← kms_GenerateKey kms (rnd_Key rnd) (rnd_KeyNonce rnd) (kms_KeyID kms) (kms_context bucket object);
            match g with
            | inr e => Some (inr e)
            | inl (newKey, encKey) =>
                sealedKey ← Seal (rnd_Nonce rnd) objectKey newKey (GenerateIV (rnd_IV rnd)) S3_String bucket object;
                inl <$> S3_CreateMetadata (Some metadata) (kms_KeyID kms) encKey sealedKey
            end
        end
    end
  else Some (inr errObjectTampered).
End objects.
