(* ===== verification/CryptoSpec.v ===== *)
(** * The key of an encrypted object

    The key of an object comes back from its metadata with the key that sealed
    it, through the headers of a client or the key service; changing the sealing
    key keeps it; and a sealed key opens for nothing but its own path. *)
From S2P Require Import Prelude GoLib GoText IncStr Errors Metadata NsLock Pool Drive World HttpRange Objects APIErrors Base64 Streaming ObjectLock Crypto.
Import base64.

Lemma to_array_id n b : length b = n -> to_array n b = b.
Proof. intros <-. unfold to_array. rewrite take_ge, Nat.sub_diag by lia. apply app_nil_r. Qed.
Lemma to_array_length n b : length (to_array n b) = n.
Proof. unfold to_array. rewrite length_app, length_take, length_replicate. lia. Qed.

Lemma has_key_spec m k : has_key m k = false <-> default ∅ m !! k = None.
Proof. unfold has_key. rewrite bool_decide_eq_false, eq_None_not_Some. done. Qed.

(** An object that is not encrypted has none of the entries of a sealed key. *)
Definition no_key_entries (m : strmap) : Prop :=
  m !! S3SealedKey = None /\ m !! S3KMSKeyID = None /\ m !! S3KMSSealedKey = None.
Lemma not_encrypted_entries m : IsEncrypted (Some m) = false -> no_key_entries m.
Proof. intros H. unfold IsEncrypted in H. zbool. repeat match goal with E : has_key _ _ = false |- _ => apply has_key_spec in E end. done. Qed.

Ltac distinct_keys :=
  repeat (rewrite lookup_insert_eq || rewrite lookup_insert_ne by (intros E; vm_compute in E; discriminate)).

Section seal.
Context `{SigEnv} `{SL : SioLaws}.

Lemma sealing_key_length extKey iv domain b o : length (sealing_key extKey iv domain b o) = 32%nat.
Proof. apply hmac_sha256_length. Qed.

(** A key of 32 bytes can be sealed, and what was sealed is opened with the same
    external key, domain and path. *)
Lemma Seal_ok nonce key extKey iv domain b o :
  length key = 32%nat -> ∃ sk, Seal nonce key extKey iv domain b o = Some sk /\
    sk_Algorithm sk = SealAlgorithm /\ sk_IV sk = iv /\ length (sk_Key sk) = 64%nat /\
    sk_Key sk = sio_Encrypt nonce (sealing_key extKey iv domain b o) key.
Proof.
  intros Hk. unfold Seal. assert (length (sio_Encrypt nonce (sealing_key extKey iv domain b o) key) = 64%nat) as Hl.
  { rewrite sio_small, Hk by (rewrite Hk; lia). done. }
  rewrite decide_False by tauto. eexists. split; [done|]. cbn. rewrite (to_array_id 64) by done. done.
Qed.

Lemma Seal_key nonce key extKey iv domain b o sk :
  length key = 32%nat -> Seal nonce key extKey iv domain b o = Some sk ->
  sk_Algorithm sk = SealAlgorithm /\ sk_IV sk = iv /\ length (sk_Key sk) = 64%nat /\
  sk_Key sk = sio_Encrypt nonce (sealing_key extKey iv domain b o) key.
Proof. intros Hk E. destruct (Seal_ok nonce key extKey iv domain b o Hk) as (sk' & E' & Hs). rewrite E in E'. by injection E' as <-. Qed.

Lemma Unseal_Seal nonce key extKey iv domain b o sk :
  length key = 32%nat -> Seal nonce key extKey iv domain b o = Some sk -> Unseal extKey sk domain b o = inl key.
Proof.
  intros Hk E. destruct (Seal_key _ _ _ _ _ _ _ _ Hk E) as (Ha & Hiv & _ & Hd). unfold Unseal.
  rewrite decide_True by done. rewrite Hd, Hiv, sio_roundtrip by apply sealing_key_length.
  rewrite decide_False by (rewrite Hk; intuition discriminate). by rewrite to_array_id.
Qed.

(** A sealed key opens only where the sealing keys are equal. *)
Lemma Unseal_bound nonce key extKey iv domain b o sk extKey' domain' b' o' key' :
  length key = 32%nat -> Seal nonce key extKey iv domain b o = Some sk -> Unseal extKey' sk domain' b' o' = inl key' ->
  sealing_key extKey' iv domain' b' o' = sealing_key extKey iv domain b o /\ key' = key.
Proof.
  intros Hk E U. destruct (Seal_key _ _ _ _ _ _ _ _ Hk E) as (Ha & Hiv & _ & Hd). unfold Unseal in U.
  rewrite decide_True, Hd, Hiv in U by done. destruct (sio_Decrypt _ _ _) as [out err] eqn:D. case_decide as Hc; [done|].
  assert (err = None) as -> by (apply dec_stable; tauto). injection U as <-.
  assert (sealing_key extKey' iv domain' b' o' = sealing_key extKey iv domain b o) as HE
    by (eapply (sio_authentic _ _ _ _ key); [apply sealing_key_length..|by intros ->|exact D]).
  split; [done|]. rewrite HE, sio_roundtrip in D by apply sealing_key_length. injection D as <-. by apply to_array_id.
Qed.

Lemma UnsealETag_SealETag nonce key etag :
  length etag = 16%nat -> UnsealETag key (SealETag nonce key etag) = inl etag.
Proof.
  intros Hl. unfold SealETag. rewrite decide_False by (by intros ->).
  assert (IsETagSealed (sio_Encrypt nonce (etag_key key) etag) = true) as Hs.
  { unfold IsETagSealed. rewrite sio_small, Hl by (rewrite Hl; lia). done. }
  unfold UnsealETag. rewrite Hs, sio_roundtrip by apply hmac_sha256_length. done.
Qed.

(** ** The entries of the metadata *)
Lemma parse_sealed_entries sk algorithms msg :
  length (sk_IV sk) = 32%nat -> length (sk_Key sk) = 64%nat -> sk_Algorithm sk ∈ algorithms ->
  parse_sealed (EncodeToString (sk_IV sk)) (EncodeToString (sk_Key sk)) (sk_Algorithm sk) algorithms msg = inl sk.
Proof.
  intros H1 H2 H3. unfold parse_sealed. rewrite !Std_Decode_Encode. rewrite decide_False by (rewrite H1; tauto).
  rewrite decide_False by tauto. rewrite decide_False by (rewrite H2; tauto). by destruct sk.
Qed.

Lemma SSEC_Parse_Create m sk m' :
  length (sk_IV sk) = 32%nat -> length (sk_Key sk) = 64%nat -> SSEC_CreateMetadata (Some m) sk = Some m' ->
  SSEC_ParseMetadata (Some m') = inl sk /\ SSEC_IsEncrypted (Some m') = true /\
  (no_key_entries m -> S3_IsEncrypted (Some m') = false).
Proof.
  intros H1 H2. unfold SSEC_CreateMetadata. case_decide as Ha; [done|]. intros [= <-]. split_and!.
  - unfold SSEC_ParseMetadata. cbn [default from_option id]. distinct_keys. rewrite <- Ha. apply parse_sealed_entries; [done..|].
    rewrite Ha. by left.
  - unfold SSEC_IsEncrypted, has_key. cbn [default from_option id]. apply bool_decide_eq_true. distinct_keys. eauto.
  - intros (E1 & E2 & E3). unfold S3_IsEncrypted. rewrite !orb_false_iff, !has_key_spec. cbn [default from_option id]. by distinct_keys.
Qed.

Lemma S3_Parse_Create m keyID kmsKey sk m' :
  length (sk_IV sk) = 32%nat -> length (sk_Key sk) = 64%nat -> keyID <> [] -> kmsKey <> [] ->
  S3_CreateMetadata (Some m) keyID kmsKey sk = Some m' ->
  S3_ParseMetadata (Some m') = inl (keyID, kmsKey, sk) /\ S3_IsEncrypted (Some m') = true /\
  isCacheEncrypted (Some m') = isCacheEncrypted (Some m).
Proof.
  intros H1 H2 Hid Hk. unfold S3_CreateMetadata. case_decide as Ha; [done|].
  do 2 (rewrite decide_False by tauto). rewrite decide_True by done. intros [= <-]. split_and!.
  - unfold S3_ParseMetadata. cbn [default from_option id]. distinct_keys. rewrite parse_sealed_entries, Std_Decode_Encode; [done..|].
    rewrite Ha. by left.
  - unfold S3_IsEncrypted. rewrite !orb_true_iff. left. left. apply bool_decide_eq_true. cbn [default from_option id]. distinct_keys. eauto.
  - unfold isCacheEncrypted, has_key. cbn [default from_option id]. by distinct_keys.
Qed.

(** ** The key service with a master key *)
Lemma masterKey_ok masterKey random nonce keyID ctx :
  length random = 32%nat -> ∃ sealed, masterKey_GenerateKey masterKey random nonce keyID ctx = Some (random, sealed) /\
    sealed <> [] /\ masterKey_UnsealKey masterKey keyID sealed ctx = inl random.
Proof.
  intros Hr. unfold masterKey_GenerateKey, masterKey_UnsealKey, deriveKey.
  set (k := hmac_sha256 masterKey (keyID ++ WriteTo ctx)).
  assert (length (sio_Encrypt nonce k random) = 64%nat) as Hl by (rewrite sio_small, Hr by (rewrite Hr; lia); done).
  rewrite decide_False by tauto. eexists. split_and!; [done|by intros E; rewrite E in Hl|].
  rewrite sio_roundtrip by apply hmac_sha256_length. rewrite decide_False by tauto. by rewrite to_array_id.
Qed.
End seal.

(** ** Requests *)
Section requests.
Context `{SigEnv} `{SL : SioLaws} `{UnicodeEnv} `{UpperEnv} `{OSEnv}.

(** A request that asks for SSE-S3, and one that presents a client key. *)
Definition asks_S3 (h : multimap) : Prop := S3_IsRequested h = true /\ SSEC_IsRequested h = false.
Definition presents (key : bytes) (h : multimap) : Prop :=
  S3_IsRequested h = false /\ SSEC_IsRequested h = true /\ Header_Get h SSECAlgorithm = SSEAlgorithmAES256 /\
  Header_Get h SSECKey = EncodeToString key /\ Header_Get h SSECKeyMD5 = EncodeToString (md5_sum key).

Lemma encode_nonempty b : b <> [] -> EncodeToString b <> [].
Proof. destruct b as [|x [|y [|z b]]]; done. Qed.

Lemma presented_key key h :
  length key = 32%nat -> md5_sum key <> [] -> presents key h -> ParseSSECustomerHeader h = inl key.
Proof.
  intros Hk Hm (E1 & E2 & E3 & E4 & E5). unfold ParseSSECustomerHeader, SSEC_ParseHTTP, parse_client_key.
  rewrite E1. cbn [andb]. rewrite E3, E4, E5. assert (key <> []) by (by intros ->).
  do 3 (rewrite decide_False; [|try apply encode_nonempty; tauto || done]). rewrite !Std_Decode_Encode.
  rewrite decide_False by tauto. by rewrite decide_True.
Qed.

Context (sha256_length : ∀ d, length (sha256_Sum d) = 32%nat).

Lemma GenerateKey_length k n : length (GenerateKey k n) = 32%nat.
Proof. apply sha256_length. Qed.

Lemma newEncrypt_SSEC kms rnd key b o m :
  length key = 32%nat -> length (rnd_IV rnd) = 32%nat -> IsEncrypted (Some m) = false ->
  ∃ objectKey m', newEncryptMetadata kms rnd key b o m false = Some (inl (objectKey, m')) /\ length objectKey = 32%nat /\
    S3_IsEncrypted (Some m') = false /\ decryptObjectInfo kms key b o (Some m') = inl objectKey.
Proof.
  intros Hk Hiv Hm. unfold newEncryptMetadata. rewrite to_array_id by done. unfold GenerateIV.
  destruct (Seal_ok (rnd_Nonce rnd) (GenerateKey key (rnd_Object rnd)) key (rnd_IV rnd) SSEC_String b o (GenerateKey_length _ _))
    as (sk & Hs & Ha & HIV & Hl & _). rewrite Hs. cbn [mbind option_bind].
  assert (∃ m', SSEC_CreateMetadata (Some m) sk = Some m') as [m' Hc] by (unfold SSEC_CreateMetadata; rewrite decide_False by tauto; eauto).
  rewrite Hc. cbn [mbind option_bind]. eexists _, _. split; [done|]. split; [apply GenerateKey_length|].
  rewrite <- HIV in Hiv. destruct (SSEC_Parse_Create _ _ _ Hiv Hl Hc) as (Hp & He & H3).
  specialize (H3 (not_encrypted_entries _ Hm)). split; [done|]. unfold decryptObjectInfo. rewrite H3, He, Hp, to_array_id by done.
  eapply Unseal_Seal; [apply GenerateKey_length|exact Hs].
Qed.

Lemma newEncrypt_S3 keyID masterKey rnd key b o m :
  isCacheEncrypted (Some m) = false -> length (rnd_Key rnd) = 32%nat -> length (rnd_IV rnd) = 32%nat -> keyID <> [] ->
  let kms := Some (NewMasterKey keyID masterKey) in
  ∃ objectKey m', newEncryptMetadata kms rnd key b o m true = Some (inl (objectKey, m')) /\ length objectKey = 32%nat /\
    S3_IsEncrypted (Some m') = true /\ decryptObjectInfo kms [] b o (Some m') = inl objectKey.
Proof.
  intros Hcache Hk Hiv Hid kms. unfold newEncryptMetadata, kms. cbn [NewMasterKey kms_GenerateKey kms_KeyID].
  destruct (masterKey_ok masterKey (rnd_Key rnd) (rnd_KeyNonce rnd) keyID (kms_context b o) Hk) as (sealed & -> & Hne & Hu).
  cbn [mbind option_bind fmap option_fmap option_map]. unfold GenerateIV.
  destruct (Seal_ok (rnd_Nonce rnd) (GenerateKey (rnd_Key rnd) (rnd_Object rnd)) (rnd_Key rnd) (rnd_IV rnd) S3_String b o (GenerateKey_length _ _))
    as (sk & Hs & Ha & HIV & Hl & _). rewrite Hs. cbn [mbind option_bind].
  assert (∃ m', S3_CreateMetadata (Some m) keyID sealed sk = Some m') as [m' Hc].
  { unfold S3_CreateMetadata. rewrite !decide_False by tauto. eauto. }
  rewrite Hc. cbn [mbind option_bind]. eexists _, _. split; [done|]. split; [apply GenerateKey_length|].
  rewrite <- HIV in Hiv. destruct (S3_Parse_Create _ _ _ _ _ Hiv Hl Hid Hne Hc) as (Hp & He & Hca). split; [done|].
  unfold decryptObjectInfo, unseal_S3. rewrite He, Hca, Hcache, Hp. cbn [kms_UnsealKey NewMasterKey]. rewrite Hu.
  eapply Unseal_Seal; [apply GenerateKey_length|exact Hs].
Qed.

(** The key that encrypts the stream of a PUT is the key that a GET finds. *)
Lemma object_key_recovered keyID masterKey rnd put get b o m :
  let kms := Some (NewMasterKey keyID masterKey) in
  keyID <> [] -> length (rnd_Key rnd) = 32%nat -> length (rnd_IV rnd) = 32%nat -> IsEncrypted (Some m) = false -> isCacheEncrypted (Some m) = false ->
  (asks_S3 put \/ ∃ key, length key = 32%nat /\ md5_sum key <> [] /\ presents key put /\ presents key get) ->
  ∃ objectKey m', EncryptRequest kms rnd put b o m = Some (inl (objectKey, m')) /\ length objectKey = 32%nat /\
    request_object_key kms get b o (Some m') = inl objectKey.
Proof.
  intros kms Hid Hk Hiv Hm Hcache Hreq. unfold EncryptRequest, request_object_key.
  destruct Hreq as [[E1 E2]|(key & Hl & Hmd & Hput & Hget)].
  - rewrite E1, E2. cbn [andb]. destruct (newEncrypt_S3 keyID masterKey rnd [] b o m Hcache Hk Hiv Hid) as (ok & m' & He & Hok & Hs & Hd).
    exists ok, m'. rewrite Hs. auto.
  - pose proof (presented_key _ _ Hl Hmd Hput) as Hp. destruct Hput as (E1 & E2 & _). rewrite E1, E2, Hp. cbn [andb].
    destruct (newEncrypt_SSEC kms rnd key b o m Hl Hiv Hm) as (ok & m' & He & Hok & Hs & Hd).
    exists ok, m'. rewrite Hs, (presented_key _ _ Hl Hmd Hget). auto.
Qed.

(** ** Changing the sealing key *)
Lemma Unseal_length extKey sk domain b o k : Unseal extKey sk domain b o = inl k -> length k = 32%nat.
Proof.
  unfold Unseal. intros E. repeat case_decide; try done; destruct (sio_Decrypt _ _ _); case_decide; try done;
    injection E as <-; apply to_array_length.
Qed.

Lemma parse_sealed_iv iv key alg algs msg sk : parse_sealed iv key alg algs msg = inl sk -> length (sk_IV sk) = 32%nat.
Proof.
  unfold parse_sealed. intros E. destruct (DecodeString false iv) as [v|]; [|done]. case_decide; [done|]. case_decide; [done|].
  destruct (DecodeString false key); [|done]. case_decide; [done|]. by injection E as <-.
Qed.
Lemma SSEC_Parse_iv m sk : SSEC_ParseMetadata m = inl sk -> length (sk_IV sk) = 32%nat.
Proof. unfold SSEC_ParseMetadata. repeat case_match; try done. apply parse_sealed_iv. Qed.

Lemma not_S3_entries m : S3_IsEncrypted (Some m) = false -> no_key_entries m.
Proof. intros E. unfold S3_IsEncrypted in E. rewrite !orb_false_iff, !has_key_spec in E. unfold no_key_entries. tauto. Qed.

Lemma rotate_SSEC kms rnd oldKey newKey b o m :
  length newKey = 32%nat -> S3_IsEncrypted (Some m) = false -> SSEC_IsEncrypted (Some m) = true ->
  match decryptObjectInfo kms oldKey b o (Some m) with
  | inl k => ∃ m', rotateKey kms rnd oldKey newKey b o m = Some (inl m') /\ decryptObjectInfo kms newKey b o (Some m') = inl k
  | inr _ => ∃ e, rotateKey kms rnd oldKey newKey b o m = Some (inr e)
  end.
Proof.
  intros Hn H3 Hc. unfold rotateKey. unfold decryptObjectInfo at 1. rewrite H3, Hc. cbn [andb].
  destruct (SSEC_ParseMetadata (Some m)) as [sk|e] eqn:Hp; [|eauto].
  destruct (Unseal _ sk _ _ _) as [k|e] eqn:U; [|eauto]. pose proof (Unseal_length _ _ _ _ _ _ U) as Hk.
  case_decide as Hsame.
  { destruct Hsame as [<- _]. exists m. split; [done|]. unfold decryptObjectInfo. by rewrite H3, Hc, Hp. }
  destruct (Seal_ok (rnd_Nonce rnd) k (to_array 32 newKey) (sk_IV sk) SSEC_String b o Hk) as (sk' & Hs & Ha & HIV & Hl & _).
  rewrite Hs. cbn [mbind option_bind].
  assert (∃ m', SSEC_CreateMetadata (Some m) sk' = Some m') as [m' Hm'] by (unfold SSEC_CreateMetadata; rewrite decide_False by tauto; eauto).
  rewrite Hm'. exists m'. split; [done|].
  assert (length (sk_IV sk') = 32%nat) as Hiv by (rewrite HIV; by eapply SSEC_Parse_iv).
  destruct (SSEC_Parse_Create _ _ _ Hiv Hl Hm') as (Hp' & He & H3'). unfold decryptObjectInfo.
  rewrite (H3' (not_S3_entries _ H3)), He, Hp'. by eapply Unseal_Seal.
Qed.

Lemma rotate_S3 keyID masterKey rnd oldKey newKey b o m :
  let kms := Some (NewMasterKey keyID masterKey) in
  keyID <> [] -> length (rnd_Key rnd) = 32%nat -> length (rnd_IV rnd) = 32%nat -> isCacheEncrypted (Some m) = false ->
  S3_IsEncrypted (Some m) = true -> SSEC_IsEncrypted (Some m) = false ->
  match decryptObjectInfo kms oldKey b o (Some m) with
  | inl k => ∃ m', rotateKey kms rnd oldKey newKey b o m = Some (inl m') /\ decryptObjectInfo kms newKey b o (Some m') = inl k
  | inr _ => ∃ e, rotateKey kms rnd oldKey newKey b o m = Some (inr e)
  end.
Proof.
  intros kms Hid Hr Hiv Hcache H3 Hc. unfold rotateKey. unfold decryptObjectInfo at 1, kms. rewrite H3, Hc, Hcache. cbn [andb].
  destruct (unseal_S3 _ _ _ _) as [k|e] eqn:U; [|eauto].
  assert (length k = 32%nat) as Hk.
  { unfold unseal_S3 in U. repeat case_match; try done. by eapply Unseal_length. }
  cbn [NewMasterKey kms_GenerateKey kms_KeyID].
  destruct (masterKey_ok masterKey (rnd_Key rnd) (rnd_KeyNonce rnd) keyID (kms_context b o) Hr) as (sealed & -> & Hne & Hu).
  cbn [mbind option_bind fmap option_fmap option_map]. unfold GenerateIV.
  destruct (Seal_ok (rnd_Nonce rnd) k (rnd_Key rnd) (rnd_IV rnd) S3_String b o Hk) as (sk & Hs & Ha & HIV & Hl & _).
  rewrite Hs. cbn [mbind option_bind].
  assert (∃ m', S3_CreateMetadata (Some m) keyID sealed sk = Some m') as [m' Hm'].
  { unfold S3_CreateMetadata. rewrite !decide_False by tauto. eauto. }
  rewrite Hm'. exists m'. split; [done|]. rewrite <- HIV in Hiv.
  destruct (S3_Parse_Create _ _ _ _ _ Hiv Hl Hid Hne Hm') as (Hp & He & Hca).
  unfold decryptObjectInfo, unseal_S3. rewrite He, Hca, Hcache, Hp. cbn [kms_UnsealKey NewMasterKey]. rewrite Hu. by eapply Unseal_Seal.
Qed.

(** C38. Changing the key of an encrypted object keeps its content readable: when
    the old key opens the object, the rotation succeeds and the new key finds the
    same object key; when it does not, the rotation fails. *)
Theorem rotation_keeps_key keyID masterKey rnd oldKey newKey b o m :
  let kms := Some (NewMasterKey keyID masterKey) in
  keyID <> [] -> length (rnd_Key rnd) = 32%nat -> length (rnd_IV rnd) = 32%nat -> length newKey = 32%nat ->
  isCacheEncrypted (Some m) = false -> S3_IsEncrypted (Some m) && SSEC_IsEncrypted (Some m) = false ->
  match decryptObjectInfo kms oldKey b o (Some m) with
  | inl k => ∃ m', rotateKey kms rnd oldKey newKey b o m = Some (inl m') /\ decryptObjectInfo kms newKey b o (Some m') = inl k
  | inr _ => ∃ e, rotateKey kms rnd oldKey newKey b o m = Some (inr e)
  end.
Proof.
  intros kms Hid Hr Hiv Hn Hcache Hb. destruct (S3_IsEncrypted (Some m)) eqn:H3, (SSEC_IsEncrypted (Some m)) eqn:Hc; try done.
  - by apply rotate_S3.
  - by apply rotate_SSEC.
  - unfold decryptObjectInfo, rotateKey. rewrite H3, Hc. cbn [andb]. eauto.
Qed.

(** C39. A sealed key is bound to its object: when the metadata of an object
    encrypted with a client key opens for any object with any key, then the two
    sealing keys are one value of HMAC-SHA256, and the object key is the one that
    was sealed. *)
Theorem sealed_key_bound kms rnd key b o m objectKey m' key' b' o' found :
  length key = 32%nat -> length (rnd_IV rnd) = 32%nat -> IsEncrypted (Some m) = false ->
  newEncryptMetadata kms rnd key b o m false = Some (inl (objectKey, m')) ->
  decryptObjectInfo kms key' b' o' (Some m') = inl found ->
  found = objectKey /\
  hmac_sha256 (to_array 32 key') (rnd_IV rnd ++ SSEC_String ++ SealAlgorithm ++ path.Join [b'; o'])
    = hmac_sha256 key (rnd_IV rnd ++ SSEC_String ++ SealAlgorithm ++ path.Join [b; o]).
Proof.
  intros Hk Hiv Hm E D. unfold newEncryptMetadata in E. rewrite to_array_id in E by done. unfold GenerateIV in E.
  destruct (Seal_ok (rnd_Nonce rnd) (GenerateKey key (rnd_Object rnd)) key (rnd_IV rnd) SSEC_String b o (GenerateKey_length _ _))
    as (sk & Hs & Ha & HIV & Hl & _). rewrite Hs in E. cbn [mbind option_bind] in E.
  destruct (SSEC_CreateMetadata (Some m) sk) as [m1|] eqn:Hc; [|done]. cbn [mbind option_bind] in E. injection E as <- <-.
  rewrite <- HIV in Hiv. destruct (SSEC_Parse_Create _ _ _ Hiv Hl Hc) as (Hp & He & H3).
  unfold decryptObjectInfo in D. rewrite (H3 (not_encrypted_entries _ Hm)), He, Hp in D.
  destruct (Unseal_bound _ _ _ _ _ _ _ _ _ _ _ _ _ (GenerateKey_length _ _) Hs D) as [HE ->]. done.
Qed.
End requests.
