(* ===== verification/Encryption.v ===== *)
(** * Reading encrypted and compressed objects: cmd/encryption-v1.go, cmd/object-api-utils.go

    An encrypted object is a stream of packages: 64 KiB of content, each with 32
    bytes of header and tag; an object uploaded in parts is one such stream for
    each part.  To read a range, whole packages are read, decrypted from their
    sequence number on, and cut.

    Sizes of objects are far below the bounds of 64 bits, so sums of sizes are
    sums of integers; the conversions of the code are written out. *)
From S2P Require Import Prelude GoLib GoText IncStr Errors Metadata NsLock Pool Drive World HttpRange Objects APIErrors Base64 Streaming ObjectLock Crypto.

Definition SSEDAREPackageBlockSize : Z := 64 * 1024.
Definition SSEDAREPackageMetaSize : Z := 32.
Definition sseDAREEncPackageBlockSize : Z := SSEDAREPackageBlockSize + SSEDAREPackageMetaSize.

(** The parts of sio for streams: the sizes, with [None] for an error, and
    [DecryptReader], which gives the content of a stream that starts at a package
    and then the error that ends it, [None] at the end of the last package. *)
Class DareEnv := {
  sio_EncryptedSize : Z -> option Z;
  sio_DecryptedSize : Z -> option Z;
  sio_DecryptReader : bytes -> Z -> bytes -> bytes * option error }.

Section ranges.
Context `{DareEnv}.

(** The Kinetic layer does not set the type of its back end. *)
Definition isEncryptedMultipart (o : ObjectInfo) : bool :=
  negb (bool_decide (oi_Parts o = [])) && IsMultiPart (oi_UserDefined o)
  && forallb (λ p, bool_decide (is_Some (sio_DecryptedSize (wrap_u 64 (part_Size p))))) (oi_Parts o).

(** The decrypted sizes of the parts. *)
Fixpoint part_sizes (parts : list ObjectPartInfo) : option (list Z) :=
  match parts with
  | [] => Some []
  | p :: parts' =>
      partSize ← sio_DecryptedSize (wrap_u 64 (part_Size p));
      sizes ← part_sizes parts';
      Some (wrap_s 64 partSize :: sizes)
  end.
Definition decrypted_sizes (o : ObjectInfo) : list Z + error :=
  if isEncryptedMultipart o
  then match part_sizes (oi_Parts o) with Some sizes => inl sizes | None => inr errObjectTampered end
  else match sio_DecryptedSize (wrap_u 64 (oi_Size o)) with
       | Some partSize => inl [wrap_s 64 partSize]
       | None => inr errObjectTampered
       end.

(** [DecryptedSize] *)
Definition DecryptedSize (o : ObjectInfo) : Z + error :=
  if negb (IsEncrypted (oi_UserDefined o)) then inr (errText (str "Cannot compute decrypted size of an unencrypted object"))
  else match decrypted_sizes o with inr e => inr e | inl sizes => inl (foldr Z.add 0 sizes) end.

(** The first part that ends behind an offset: its index, if there is one, and
    the sums of the sizes before it, decrypted and encrypted. *)
Definition encrypted_size (size : Z) : Z := wrap_s 64 (default 0 (sio_EncryptedSize (wrap_u 64 size))).
Fixpoint locate (off : Z) (i : nat) (cumulativeSum encCumulativeSum : Z) (sizes : list Z) : option nat * Z * Z :=
  match sizes with
  | [] => (None, cumulativeSum, encCumulativeSum)
  | size :: sizes' =>
      if off <? cumulativeSum + size then (Some i, cumulativeSum, encCumulativeSum)
      else locate off (S i) (cumulativeSum + size) (encCumulativeSum + encrypted_size size) sizes'
  end.

(** The range of the stream to read, the bytes to skip of what it decrypts to,
    the sequence number of its first package and the part it starts in. *)
Definition range_of_parts (off length : Z) (sizes : list Z) : Z * Z * Z * Z * nat :=
  let '(found, cumulativeSum, encCumulativeSum) := locate off 0 0 0 sizes in
  let partStart := default 0%nat found in
  let startPkgNum := Z.quot (off - cumulativeSum) SSEDAREPackageBlockSize in
  let skipLen := Z.rem (off - cumulativeSum) SSEDAREPackageBlockSize in
  let encOff := encCumulativeSum + startPkgNum * sseDAREEncPackageBlockSize in
  let endOffset := off + length - 1 in
  let '(found, cumulativeSum, encCumulativeSum) :=
    locate endOffset partStart cumulativeSum encCumulativeSum (drop partStart sizes) in
  let partEnd := default 0%nat found in
  let endPkgNum := Z.quot (endOffset - cumulativeSum) SSEDAREPackageBlockSize in
  let endEncOffset := encCumulativeSum + (endPkgNum + 1) * sseDAREEncPackageBlockSize in
  let lastPartSize := encrypted_size (default 0 (sizes !! partEnd)) in
  let endEncOffset := if encCumulativeSum + lastPartSize <? endEncOffset then encCumulativeSum + lastPartSize else endEncOffset in
  (encOff, endEncOffset - encOff, skipLen, wrap_u 32 startPkgNum, partStart).

Definition GetDecryptedRange (o : ObjectInfo) (rs : option HTTPRangeSpec) : (Z * Z * Z * Z * nat) + error :=
  if negb (IsEncrypted (oi_UserDefined o)) then inr (errText (str "Object is not encrypted"))
  else
    match rs with
    | None => inl (0, oi_Size o, 0, 0, 0%nat)
    | Some _ =>
        match decrypted_sizes o with
        | inr e => inr e
        | inl sizes =>
            match GetOffsetLength rs (foldr Z.add 0 sizes) with
            | (_, _, Some e) => inr e
            | (off, length, None) => inl (range_of_parts off length sizes)
            end
        end
    end.

(** ** [NewGetObjectReader] of an encrypted object: the range of the store to
    read, and how much of it goes to the client. *)
Definition encrypted_range (rs : option HTTPRangeSpec) (o : ObjectInfo) : (Z * Z * Z * Z * nat * Z) + error :=
  match GetDecryptedRange o rs with
  | inr e => inr e
  | inl (off, length, skipLen, seqNumber, partStart) =>
      match DecryptedSize o with
      | inr e => inr e
      | inl decSize =>
          match GetLength rs decSize with
          | (_, Some e) => inr e
          | (decRangeLength, None) => inl (off, length, skipLen, seqNumber, partStart, decRangeLength)
          end
      end
  end.

(** A stream read through [ioutil.NewSkipReader] and [io.LimitReader] to its end:
    an error shows only when the limit was not reached. *)
Definition skip_limit (skipLen limit : Z) (stream : bytes * option error) : bytes * option error :=
  let content := take (Z.to_nat limit) (drop (Z.to_nat skipLen) stream.1) in
  if skipLen + limit <=? Z.of_nat (List.length stream.1) then (content, None) else (content, stream.2).

(** The reader of an encrypted object that was put in one piece. *)
Definition decrypted_content `{SigEnv} `{SioEnv} `{UnicodeEnv} `{UpperEnv} `{OSEnv} (kms : option KMS) (h : multimap) (o : ObjectInfo)
    (skipLen seqNumber decRangeLength : Z) (inputReader : bytes) : (bytes * option error) + error :=
  let copySource := negb (bool_decide (Header_Get h SSECopyAlgorithm = [])) in
  match (if copySource then copy_object_key kms h (oi_Bucket o) (oi_Name o) (oi_UserDefined o)
         else request_object_key kms h (oi_Bucket o) (oi_Name o) (oi_UserDefined o)) with
  | inr e => inr e
  | inl objectKey => inl (skip_limit skipLen decRangeLength (sio_DecryptReader objectKey seqNumber inputReader))
  end.
End ranges.

(** ** DecryptBlocksReader: an object that was uploaded in parts

    The state: the input that is left, the decrypted content of the current part
    that is left with the error behind it, and the position.  A decrypter fills
    the buffer; at its end it gives what is left and the end, either together or
    in two reads ([eofWithData]). *)
Record DecryptBlocksReader := mkBlocks {
  db_reader : bytes; db_decrypter : bytes * option error; db_startSeqNum : Z; db_partIndex : nat;
  db_partDecRelOffset : Z; db_partEncRelOffset : Z }.

Section blocks.
Context `{DareEnv} `{SigEnv} (eofWithData : bool) (objectKey : bytes) (parts : list ObjectPartInfo).

Definition decrypter_Read (n : Z) (d : bytes * option error) : bytes * option error * (bytes * option error) :=
  let got := take (Z.to_nat n) d.1 in
  let rest := (drop (Z.to_nat n) d.1, d.2) in
  if n <=? Z.of_nat (length d.1) then (got, None, rest)
  else if bool_decide (got = []) || eofWithData then (got, Some (default io_EOF d.2), rest)
  else (got, None, rest).

(** [io.ReadFull] *)
Definition decrypter_ReadFull (n : Z) (d : bytes * option error) : bytes * option error * (bytes * option error) :=
  let got := take (Z.to_nat n) d.1 in
  let rest := (drop (Z.to_nat n) d.1, d.2) in
  if n <=? Z.of_nat (length d.1) then (got, None, rest)
  else (got, Some (match d.2 with
                   | Some e => if decide (e = io_EOF) then (if decide (got = []) then io_EOF else io_ErrUnexpectedEOF) else e
                   | None => if decide (got = []) then io_EOF else io_ErrUnexpectedEOF
                   end), rest).

(** The decrypter of a part reads no further than the part. *)
Definition buildDecrypter (part : ObjectPartInfo) (d : DecryptBlocksReader) : DecryptBlocksReader :=
  let partEncryptionKey := DerivePartKey objectKey (part_Number part) in
  let encLenToRead := part_Size part - db_partEncRelOffset d in
  mkBlocks (drop (Z.to_nat encLenToRead) (db_reader d))
    (sio_DecryptReader partEncryptionKey (db_startSeqNum d) (take (Z.to_nat encLenToRead) (db_reader d)))
    (db_startSeqNum d) (db_partIndex d) (db_partDecRelOffset d) (db_partEncRelOffset d).

(** [DecryptBlocksRequestR] of a multipart object; [None] is an index out of
    range. *)
Definition newBlocksReader (inputReader : bytes) (seqNumber : Z) (partStart : nat) : option DecryptBlocksReader :=
  part ← parts !! partStart;
  Some (buildDecrypter part (mkBlocks inputReader ([], None) seqNumber partStart
          (seqNumber * SSEDAREPackageBlockSize) (seqNumber * sseDAREEncPackageBlockSize))).

(** [Read] into a buffer of [n] bytes: the bytes in the buffer, the number that is
    returned and the error.  The buffer was zero. *)
Definition blocks_Read (n : Z) (d : DecryptBlocksReader) : option (bytes * Z * option error * DecryptBlocksReader) :=
  part ← parts !! db_partIndex d;
  let unreadPartLen := wrap_s 64 (default 0 (sio_DecryptedSize (wrap_u 64 (part_Size part)))) - db_partDecRelOffset d in
  if n <? unreadPartLen then
    let '(got, err, dec) := decrypter_Read n (db_decrypter d) in
    match err with
    | Some e => Some (got, 0, Some e, mkBlocks (db_reader d) dec (db_startSeqNum d) (db_partIndex d)
                (db_partDecRelOffset d) (db_partEncRelOffset d))
    | None => Some (got, n, None, mkBlocks (db_reader d) dec (db_startSeqNum d) (db_partIndex d)
                (db_partDecRelOffset d + Z.of_nat (length got)) (db_partEncRelOffset d))
    end
  else
    let '(got, err, dec) := decrypter_ReadFull unreadPartLen (db_decrypter d) in
    match err with
    | Some e => Some (got, 0, Some e, mkBlocks (db_reader d) dec (db_startSeqNum d) (db_partIndex d)
                (db_partDecRelOffset d) (db_partEncRelOffset d))
    | None =>
        let d' := mkBlocks (db_reader d) dec 0 (S (db_partIndex d)) 0 0 in
        match parts !! S (db_partIndex d) with
        | None => Some (got, Z.of_nat (length got), Some io_EOF, d')
        | Some next =>
            let d' := buildDecrypter next d' in
            let '(more, err, dec) := decrypter_Read (n - Z.of_nat (length got)) (db_decrypter d') in
            match err with
            | Some e => Some (got ++ more, 0, Some e, mkBlocks (db_reader d') dec 0 (db_partIndex d') 0 0)
            | None => Some (got ++ more, n, None, mkBlocks (db_reader d') dec 0 (db_partIndex d') (Z.of_nat (length more)) 0)
            end
        end
    end.
End blocks.

(** ** Compressed objects *)

(** [getCompressedOffsets]: the part the offset is in starts at the first result
    of the stream; the second is the offset in what follows from there. *)
Fixpoint compressed_from (offset cumulativeActualSize compressedOffset : Z) (parts : list ObjectPartInfo) : Z * Z :=
  match parts with
  | [] => (compressedOffset, 0)
  | part :: parts' =>
      let cumulativeActualSize := cumulativeActualSize + part_ActualSize part in
      if cumulativeActualSize <=? offset
      then compressed_from offset cumulativeActualSize (compressedOffset + part_Size part) parts'
      else (compressedOffset, cumulativeActualSize - part_ActualSize part)
  end.
Definition getCompressedOffsets (o : ObjectInfo) (offset : Z) : Z * Z :=
  let '(compressedOffset, skipLength) := compressed_from offset 0 0 (oi_Parts o) in
  (compressedOffset, offset - skipLength).

Definition GetActualSize (o : ObjectInfo) : Z :=
  match default ∅ (oi_UserDefined o) !! (ReservedMetadataPrefix ++ str "actual-size") with
  | Some sizeStr => let '(size, bad) := ParseInt sizeStr in if (bad : bool) then -1 else size
  | None => -1
  end.
Definition IsCompressed (o : ObjectInfo) : bool := has_key (oi_UserDefined o) (ReservedMetadataPrefix ++ str "compression").

(** The range of the store to read, the bytes to skip of what it decompresses
    to, and the bytes to send. *)
Definition compressed_range (rs : option HTTPRangeSpec) (o : ObjectInfo) : (Z * Z * Z * Z) + error :=
  let actualSize := GetActualSize o in
  if actualSize <? 0 then inr errInvalidDecompressedSize
  else
    match rs with
    | None => inl (0, oi_Size o, 0, actualSize)
    | Some _ =>
        match GetOffsetLength rs actualSize with
        | (_, _, Some e) => inr e
        | (off, length, None) =>
            let '(off, decOff) := getCompressedOffsets o off in
            let decLength := length in
            let length := oi_Size o - off in
            let decLength := if decLength <? 0 then actualSize - decOff else decLength in
            if (actualSize <? decOff) || (actualSize <? decOff + decLength) then inr errInvalidRange
            else inl (off, length, decOff, decLength)
        end
    end.

(** ** The checksum of an encrypted object *)
Section etags.
Context `{DareEnv} `{SigEnv} `{SioEnv} `{UnicodeEnv} `{UpperEnv} `{OSEnv} (kms : option KMS).

(** The last 32 bytes; a shorter checksum is an index out of range. *)
Definition last32 (etag : bytes) : option bytes :=
  if decide (length etag < 32)%nat then None else Some (drop (length etag - 32) etag).
Definition tryDecryptETag (key encryptedETag : bytes) (ssec : bool) : option bytes :=
  if ssec then last32 encryptedETag
  else Some match hex.DecodeString encryptedETag with
            | None => encryptedETag
            | Some encBytes =>
                match UnsealETag (to_array 32 key) encBytes with
                | inr _ => encryptedETag
                | inl etagBytes => hex.EncodeToString etagBytes
                end
            end.
Definition getDecryptedETag (h : multimap) (o : ObjectInfo) (copySource : bool) : option bytes :=
  if decide (length (oi_ETag o) = 32%nat) then Some (oi_ETag o)
  else if IsMultiPart (oi_UserDefined o) then Some (oi_ETag o)
  else
    match (if SSECopy_IsRequested h then SSECopy_ParseHTTP h else inl (replicate 32 zero_byte)) with
    | inr _ => Some (oi_ETag o)
    | inl key =>
        if SSEC_IsEncrypted (oi_UserDefined o) && negb copySource then last32 (oi_ETag o)
        else
          match decryptObjectInfo kms key (oi_Bucket o) (oi_Name o) (oi_UserDefined o) with
          | inr _ => Some (oi_ETag o)
          | inl objectKey => tryDecryptETag objectKey (oi_ETag o) false
          end
    end.

Definition set_ETag (etag : bytes) (o : ObjectInfo) : ObjectInfo :=
  mkObjectInfo (oi_Bucket o) (oi_Name o) (oi_ModTime o) (oi_Size o) (oi_IsDir o) etag (oi_ContentType o)
    (oi_ContentEncoding o) (oi_Expires o) (oi_StorageClass o) (oi_UserDefined o) (oi_UserTags o) (oi_Parts o)
    (oi_metadataOnly o) (oi_Hidden o).

(** [DecryptObjectInfo]: the information with its checksum decrypted, whether it
    is encrypted, and the error; [None] is a panic. *)
Definition DecryptObjectInfo (o : ObjectInfo) (h : multimap) : option (ObjectInfo * bool * option error) :=
  if oi_IsDir o then Some (o, false, None)
  else if S3_IsRequested h then Some (o, false, Some errInvalidEncryptionParameters)
  else
    let encrypted := IsEncrypted (oi_UserDefined o) in
    if negb encrypted then Some (o, false, if SSEC_IsRequested h then Some errInvalidEncryptionParameters else None)
    else if (SSEC_IsEncrypted (oi_UserDefined o) && negb (SSEC_IsRequested h))
            || (S3_IsEncrypted (oi_UserDefined o) && SSEC_IsRequested h)
    then Some (o, true, Some errEncryptedObject)
    else
      let err := match DecryptedSize o with inl _ => None | inr e => Some e end in
      if IsMultiPart (oi_UserDefined o) then Some (o, true, err)
      else etag ← getDecryptedETag h o false; Some (set_ETag etag o, true, err).
End etags.
