(* ===== verification/EncryptionSpec.v ===== *)
(** * Ranges of encrypted and compressed objects

    The range that is read of the store covers the range that was asked for with
    whole packages, in every part list; decrypting and cutting it gives the bytes
    of the content; and a PUT with encryption followed by a ranged GET with the
    same key returns the bytes that were put. *)
From S2P Require Import Prelude GoLib GoText IncStr Errors Metadata NsLock Pool Drive World HttpRange Objects APIErrors Base64 Streaming ObjectLock.
From S2P Require Import HashReader Client Names Buckets ObjectsSpec ReadSpec Crypto CryptoSpec Encryption.

(** The size of a stream: 32 bytes more for every package begun. *)
Definition dare_size (n : Z) : Z := n + 32 * ((n + 65535) / 65536).

(** The format: sizes, and that a run of whole packages decrypts to the content
    of these packages when it is started with the number of the first. *)
Class DareLaws (S : SioEnv) (D : DareEnv) : Prop := {
  dare_encrypted_size n : 0 <= n <= 2 ^ 48 -> sio_EncryptedSize n = Some (dare_size n);
  dare_decrypted_size n : 0 <= n <= 2 ^ 48 -> sio_DecryptedSize (dare_size n) = Some n;
  dare_length nonce key data :
    Z.of_nat (length data) <= 2 ^ 48 -> Z.of_nat (length (sio_Encrypt nonce key data)) = dare_size (Z.of_nat (length data));
  dare_packages nonce key data i n :
    length key = 32%nat -> 0 <= i -> 0 <= n ->
    ∃ err, sio_DecryptReader key i (slice (i * 65568) (n * 65568) (sio_Encrypt nonce key data))
           = (slice (i * 65536) (n * 65536) data, err) }.

Lemma dare_size_bounds n : 0 <= n <= 2 ^ 48 -> n <= dare_size n <= 2 ^ 49.
Proof. intros Hn. unfold dare_size. pose proof (Z.div_pos (n + 65535) 65536). pose proof (Z.div_le_upper_bound (n + 65535) 65536 (2 ^ 33)). lia. Qed.

(** ** Sums of sizes *)
Definition total (l : list Z) : Z := foldr Z.add 0 l.
Lemma total_app l1 l2 : total (l1 ++ l2) = total l1 + total l2.
Proof. unfold total. induction l1; simpl; lia. Qed.
Lemma total_take_S l i x : l !! i = Some x -> total (take (S i) l) = total (take i l) + x.
Proof. intros H. rewrite (take_S_r _ _ _ H), total_app. simpl. lia. Qed.
Lemma total_nonneg l : Forall (λ x, 0 <= x) l -> 0 <= total l.
Proof. induction 1; unfold total in *; simpl; lia. Qed.

Definition size_ok (n : Z) : Prop := 0 <= n <= 2 ^ 48.

Section ranges.
Context `{D : DareEnv} `{S0 : SioEnv} {DL : DareLaws S0 D}.

Lemma encrypted_size_dare n : size_ok n -> encrypted_size n = dare_size n.
Proof.
  intros Hn. unfold encrypted_size. rewrite wrap_u_id by (unfold size_ok in Hn; lia). rewrite dare_encrypted_size by done. cbn.
  pose proof (dare_size_bounds n Hn). apply wrap_s_id; unfold size_ok in Hn; lia.
Qed.

(** The sums before part [i]. *)
Definition before (sizes : list Z) (i : nat) : Z := total (take i sizes).
Definition enc_before (sizes : list Z) (i : nat) : Z := total (dare_size <$> take i sizes).

Lemma before_S sizes i n : sizes !! i = Some n -> before sizes (S i) = before sizes i + n.
Proof. apply total_take_S. Qed.
Lemma enc_before_S sizes i n : sizes !! i = Some n -> enc_before sizes (S i) = enc_before sizes i + dare_size n.
Proof. intros H. unfold enc_before. rewrite (take_S_r _ _ _ H), fmap_app, total_app. simpl. lia. Qed.

(** [locate] finds the part that an offset is in. *)
Lemma locate_spec sizes off i :
  Forall size_ok sizes -> before sizes i <= off < total sizes ->
  ∃ j n, locate off i (before sizes i) (enc_before sizes i) (drop i sizes) = (Some j, before sizes j, enc_before sizes j) /\
    sizes !! j = Some n /\ (i <= j)%nat /\ before sizes j <= off < before sizes j + n.
Proof.
  intros Hs. remember (drop i sizes) as rest eqn:Hr. revert i Hr. induction rest as [|n rest IH]; intros i Hr Ho.
  - exfalso. pose proof (f_equal length Hr) as Hl. rewrite length_drop in Hl. cbn in Hl.
    unfold before in Ho. rewrite take_ge in Ho by lia. lia.
  - assert (sizes !! i = Some n) as Hi. { rewrite <- (Nat.add_0_r i), <- lookup_drop, <- Hr. done. }
    assert (size_ok n) as Hn by (eapply Forall_lookup_1; done).
    cbn [locate]. destruct (Z.ltb_spec off (before sizes i + n)).
    + exists i, n. split_and!; done || lia.
    + rewrite encrypted_size_dare by done. rewrite <- (before_S _ _ _ Hi), <- (enc_before_S _ _ _ Hi) in *.
      destruct (IH (S i)) as (j & n' & E & Hj & Hij & Hb); [|lia|].
      * replace (S i) with (i + 1)%nat by lia. rewrite <- drop_drop, <- Hr. done.
      * exists j, n'. split_and!; done || lia.
Qed.

(** Package [seqNumber] of part [partStart] is the one in which the range begins,
    and package [e] of part [j] the one in which it ends. *)
Definition covers (sizes : list Z) (off len : Z) (r : Z * Z * Z * Z * nat) : Prop :=
  let '(encOff, encLength, skipLen, seqNumber, partStart) := r in
  ∃ n j m e,
    sizes !! partStart = Some n /\ sizes !! j = Some m /\ (partStart <= j)%nat /\
    encOff = enc_before sizes partStart + seqNumber * 65568 /\
    off = before sizes partStart + seqNumber * 65536 + skipLen /\ 0 <= skipLen < 65536 /\
    0 <= seqNumber /\ seqNumber * 65536 + skipLen < n /\
    encOff + encLength = enc_before sizes j + Z.min ((e + 1) * 65568) (dare_size m) /\ 0 <= e /\
    before sizes j + e * 65536 < off + len <= before sizes j + Z.min ((e + 1) * 65536) m.

Lemma range_covers sizes off len :
  Forall size_ok sizes -> 0 <= off -> 0 < len -> off + len <= total sizes -> covers sizes off len (range_of_parts off len sizes).
Proof.
  intros Hs Ho Hl Hb. unfold covers, range_of_parts, SSEDAREPackageBlockSize.
  destruct (locate_spec sizes off 0 Hs) as (i & n & E & Hi & _ & Hbi); [unfold before; simpl; lia|].
  change (before sizes 0) with 0 in E. change (enc_before sizes 0) with 0 in E. rewrite drop_0 in E. rewrite E. cbn [default from_option id].
  destruct (locate_spec sizes (off + len - 1) i Hs) as (j & m & E' & Hj & Hij & Hbj); [lia|].
  rewrite E'. cbn [default from_option id]. rewrite Hj. cbn [default from_option id].
  assert (size_ok n) as Hn by (eapply Forall_lookup_1; done). assert (size_ok m) as Hm by (eapply Forall_lookup_1; done).
  rewrite encrypted_size_dare by done. unfold size_ok in *.
  rewrite !Z.quot_div_nonneg, Z.rem_mod_nonneg by lia.
  pose proof (Z.div_mod (off - before sizes i) 65536 ltac:(lia)). pose proof (Z.mod_pos_bound (off - before sizes i) 65536 ltac:(lia)).
  pose proof (Z.div_mod (off + len - 1 - before sizes j) 65536 ltac:(lia)).
  pose proof (Z.mod_pos_bound (off + len - 1 - before sizes j) 65536 ltac:(lia)).
  pose proof (Z.div_pos (off - before sizes i) 65536). pose proof (Z.div_pos (off + len - 1 - before sizes j) 65536).
  change (64 * 1024) with 65536 in *.
  rewrite wrap_u_id by (split; [lia|apply Z.div_lt_upper_bound; lia]).
  unfold sseDAREEncPackageBlockSize, SSEDAREPackageBlockSize, SSEDAREPackageMetaSize.
  exists n, j, m, ((off + len - 1 - before sizes j) / 65536).
  destruct (Z.ltb_spec (enc_before sizes j + dare_size m) (enc_before sizes j + ((off + len - 1 - before sizes j) / 65536 + 1) * (64 * 1024 + 32)));
    split_and!; done || lia.
Qed.
End ranges.

(** ** Slices *)
Lemma slice_slice off n off' n' (v : bytes) :
  0 <= off -> 0 <= off' -> 0 <= n' -> off' + n' <= n -> slice off' n' (slice off n v) = slice (off + off') n' v.
Proof.
  intros Ho Ho' Hn' Hn. unfold slice. rewrite skipn_firstn_comm, drop_drop, take_take. f_equal; [lia|]. f_equal. lia.
Qed.
Lemma slice_clip off n n' (v : bytes) :
  0 <= off -> Z.of_nat (length v) - off <= n -> Z.of_nat (length v) - off <= n' -> slice off n v = slice off n' v.
Proof. intros. unfold slice. rewrite !take_ge; [done|rewrite length_drop; lia..]. Qed.

(** The decrypted range and its cut, for one stream. *)
Lemma skip_limit_slice off n skip limit (v : bytes) err :
  0 <= off -> 0 <= skip -> 0 <= limit -> skip + limit <= n -> off + skip + limit <= Z.of_nat (length v) ->
  skip_limit skip limit (slice off n v, err) = (slice (off + skip) limit v, None).
Proof.
  intros Ho Hs Hl Hn Hv. unfold skip_limit. cbn [fst snd].
  assert (skip + limit <= Z.of_nat (length (slice off n v))) as Hle.
  { unfold slice. rewrite length_take, length_drop. lia. }
  apply Z.leb_le in Hle as ->. f_equal. by apply (slice_slice off n skip limit).
Qed.

Section content.
Context `{D : DareEnv} `{S0 : SioEnv} {DL : DareLaws S0 D}.

(** Reading the range of packages that [range_of_parts] gives for one stream. *)
Lemma read_packages nonce key (body : bytes) off len :
  length key = 32%nat -> size_ok (Z.of_nat (length body)) -> 0 <= off -> 0 < len -> off + len <= Z.of_nat (length body) ->
  let stored := sio_Encrypt nonce key body in
  let '(encOff, encLength, skipLen, seqNumber, partStart) := range_of_parts off len [Z.of_nat (length body)] in
  partStart = 0%nat /\ 0 <= encOff /\ 0 <= encLength /\ encOff + encLength <= Z.of_nat (length stored) /\
  skip_limit skipLen len (sio_DecryptReader key seqNumber (slice encOff encLength stored)) = (slice off len body, None).
Proof.
  intros Hk Hsz Ho Hl Hb stored.
  assert (Forall size_ok [Z.of_nat (length body)]) as Hs by (by constructor).
  assert (off + len <= total [Z.of_nat (length body)]) as Ht by (unfold total; simpl; lia).
  pose proof (range_covers [Z.of_nat (length body)] off len Hs Ho Hl Ht) as H.
  destruct (range_of_parts _ _ _) as [[[[encOff encLength] skipLen] seq] ps].
  destruct H as (n & j & m & e & Hi & Hj & _ & HeO & HO & Hsk & Hq & Hqn & HeE & He & HE).
  destruct ps as [|ps]; [|done]. destruct j as [|j]; [|done]. injection Hi as <-. injection Hj as <-.
  unfold before, enc_before, total in *. cbn in HeO, HO, HeE, HE.
  assert (Z.of_nat (length stored) = dare_size (Z.of_nat (length body))) as Hlen by (apply dare_length; unfold size_ok in Hsz; lia).
  assert (seq <= e) as Hse by (assert (seq * 65536 < (e + 1) * 65536) by lia; nia).
  split; [done|]. split; [lia|].
  assert (encOff <= dare_size (Z.of_nat (length body))) as Hfit.
  { unfold dare_size. assert (seq <= (Z.of_nat (length body) + 65535) / 65536) by (apply Z.div_le_lower_bound; lia). lia. }
  split; [lia|]. split; [lia|].
  assert (slice encOff encLength stored = slice (seq * 65568) ((e + 1 - seq) * 65568) stored) as ->.
  { replace encOff with (seq * 65568) by lia. destruct (Z.le_gt_cases ((e + 1) * 65568) (dare_size (Z.of_nat (length body)))).
    - f_equal. lia.
    - apply slice_clip; lia. }
  destruct (dare_packages nonce key body seq (e + 1 - seq) Hk Hq ltac:(lia)) as [err Hd]. unfold stored. rewrite Hd.
  rewrite skip_limit_slice by lia. do 2 f_equal. lia.
Qed.

Lemma empty_package : range_of_parts 0 0 [0] = (0, 0, 0, 0, 0%nat).
Proof.
  assert (encrypted_size 0 = 0) as E0 by (rewrite encrypted_size_dare by (unfold size_ok; lia); done).
  lazy -[encrypted_size]. rewrite !E0. reflexivity.
Qed.

(** The whole stream. *)
Lemma read_whole nonce key (body : bytes) :
  length key = 32%nat -> size_ok (Z.of_nat (length body)) ->
  let stored := sio_Encrypt nonce key body in
  skip_limit 0 (Z.of_nat (length body)) (sio_DecryptReader key 0 (slice 0 (Z.of_nat (length stored)) stored))
  = (slice 0 (Z.of_nat (length body)) body, None).
Proof.
  intros Hk Hsz stored.
  assert (Z.of_nat (length stored) = dare_size (Z.of_nat (length body))) as Hlen by (apply dare_length; unfold size_ok in Hsz; lia).
  set (k := (Z.of_nat (length body) + 65535) / 65536).
  assert (Z.of_nat (length body) <= k * 65536) as Hk1.
  { pose proof (Z.mod_pos_bound (Z.of_nat (length body) + 65535) 65536 ltac:(lia)).
    pose proof (Z.div_mod (Z.of_nat (length body) + 65535) 65536 ltac:(lia)). lia. }
  assert (slice 0 (Z.of_nat (length stored)) stored = slice (0 * 65568) (k * 65568) stored) as ->.
  { apply slice_clip; [lia|lia|]. rewrite Hlen. unfold dare_size. fold k. lia. }
  destruct (dare_packages nonce key body 0 k Hk ltac:(lia) ltac:(lia)) as [err Hd]. unfold stored. rewrite Hd.
  rewrite skip_limit_slice by lia. done.
Qed.
End content.

(** C37. The encrypted range of a decrypted range, for an object in one piece and
    for any list of parts: it begins at a package of the part in which the range
    begins, whose number and part are the ones reported, less than a package is
    skipped, and it ends with the package that has the last byte. *)
Theorem encrypted_range_covers `{D : DareEnv} `{S0 : SioEnv} {DL : DareLaws S0 D} info s sizes off len :
  IsEncrypted (oi_UserDefined info) = true -> decrypted_sizes info = inl sizes -> Forall size_ok sizes ->
  total sizes <= int64_max -> range_wf s -> GetOffsetLength (Some s) (total sizes) = (off, len, None) -> 0 < len ->
  ∃ r, GetDecryptedRange info (Some s) = inl r /\ covers sizes off len r.
Proof.
  intros He Hd Hs Hmax Hwf Hg Hl. unfold GetDecryptedRange. rewrite He, Hd. cbn [negb]. fold (total sizes). rewrite Hg. eexists. split; [done|].
  assert (0 <= total sizes) by (apply total_nonneg; eapply Forall_impl; [exact Hs|]; unfold size_ok; lia).
  destruct (GetOffsetLength_bounds (Some s) (total sizes) off len ltac:(intros ? [= <-]; done) ltac:(lia) Hg) as (Ho & _ & Hb).
  by apply range_covers.
Qed.

(** ** Encrypted objects, from PUT to GET *)
Section requests.
Context `{D : DareEnv} `{SE : SigEnv} `{SL : SioLaws} {DL : DareLaws _ D} `{UnicodeEnv} `{UpperEnv} `{OSEnv}.
Context (sha256_length : ∀ d, length (sha256_Sum d) = 32%nat).

Lemma key_means_encrypted kms h b o m k : request_object_key kms h b o (Some m) = inl k -> IsEncrypted (Some m) = true.
Proof.
  assert (∀ key, decryptObjectInfo kms key b o (Some m) = inl k -> IsEncrypted (Some m) = true) as Hd.
  { intros key E. unfold decryptObjectInfo in E. change (IsEncrypted (Some m)) with
      (has_key (Some m) SSEIV || has_key (Some m) SSESealAlgorithm || IsMultiPart (Some m)
       || has_key (Some m) S3SealedKey || has_key (Some m) S3KMSKeyID || has_key (Some m) S3KMSSealedKey || SSEC_IsEncrypted (Some m)).
    destruct (SSEC_IsEncrypted (Some m)); [apply orb_true_r|]. unfold S3_IsEncrypted in E.
    destruct (has_key (Some m) S3SealedKey), (has_key (Some m) S3KMSKeyID), (has_key (Some m) S3KMSSealedKey);
      rewrite ?orb_true_r; done. }
  unfold request_object_key. destruct (S3_IsEncrypted (Some m)); [apply Hd|]. destruct (ParseSSECustomerHeader h); [apply Hd|done].
Qed.

Lemma GetLength_of_offset rs size off len :
  0 <= size -> GetOffsetLength rs size = (off, len, None) -> GetLength rs size = (len, None).
Proof.
  intros Hs. unfold GetOffsetLength. destruct rs as [s|].
  - destruct (GetLength (Some s) size) as [l [e|]]; [done|]. by intros [= _ <-].
  - intros [= <- <-]. unfold GetLength. by destruct (Z.ltb_spec size 0); [lia|].
Qed.

(** Only the range of an empty object is empty. *)
Lemma empty_range s size off :
  range_wf s -> 0 <= size <= int64_max -> GetOffsetLength (Some s) size = (off, 0, None) -> off = 0 /\ size = 0.
Proof.
  unfold range_wf, GetOffsetLength, GetLength, int64_max. intros Hwf Hs. destruct (Z.ltb_spec size 0); [lia|].
  destruct (IsSuffixLength s).
  - rewrite !wrap_s_id by lia. destruct (Z.ltb_spec size (- Start s)); intros [= <- ?]; lia.
  - destruct (Z.leb_spec size (Start s)); [done|]. destruct (Z.ltb_spec (-1) (End_ s)).
    + destruct (Z.leb_spec size (End_ s)); intros [= <- ?]; lia.
    + destruct (Z.eqb_spec (End_ s) (-1)); [intros [= <- ?]; lia|done].
Qed.

Lemma single_sizes o size :
  oi_Parts o = [] -> size_ok size -> oi_Size o = dare_size size -> decrypted_sizes o = inl [size].
Proof.
  intros Hp Hs Ho. unfold decrypted_sizes, isEncryptedMultipart. rewrite bool_decide_true by done. cbn [negb andb].
  pose proof (dare_size_bounds size Hs). unfold size_ok in Hs.
  rewrite Ho, wrap_u_id, dare_decrypted_size by lia. by rewrite wrap_s_id by lia.
Qed.

(** The information about an object that was put with metadata [m] and whose
    stored stream has [size] bytes; it has no other metadata. *)
Definition describes (o : ObjectInfo) (bucket object : bytes) (m : strmap) (size : Z) : Prop :=
  oi_Bucket o = bucket /\ oi_Name o = object /\ oi_UserDefined o = Some m /\ oi_Size o = size /\ oi_Parts o = [].

Lemma encrypted_read kms get b o m nonce key (body : bytes) rs off len info :
  length key = 32%nat -> request_object_key kms get b o (Some m) = inl key -> Header_Get get SSECopyAlgorithm = [] ->
  size_ok (Z.of_nat (length body)) -> (∀ s, rs = Some s -> range_wf s) ->
  GetOffsetLength rs (Z.of_nat (length body)) = (off, len, None) ->
  let stored := sio_Encrypt nonce key body in
  describes info b o m (Z.of_nat (length stored)) ->
  ∃ encOff encLength skipLen seqNumber,
    encrypted_range rs info = inl (encOff, encLength, skipLen, seqNumber, 0%nat, len) /\
    0 <= encOff /\ 0 <= encLength /\ encOff + encLength <= Z.of_nat (length stored) /\
    decrypted_content kms get info skipLen seqNumber len (slice encOff encLength stored) = inl (slice off len body, None).
Proof.
  intros Hk Hreq Hcopy Hsz Hwf Hg stored (Eb & Eo & Em & Es & Ep). pose proof (key_means_encrypted _ _ _ _ _ _ Hreq) as Henc.
  assert (Z.of_nat (length stored) = dare_size (Z.of_nat (length body))) as Hlen by (apply dare_length; unfold size_ok in Hsz; lia).
  pose proof (single_sizes info (Z.of_nat (length body)) Ep Hsz ltac:(lia)) as Hsizes.
  unfold encrypted_range, GetDecryptedRange, DecryptedSize, decrypted_content. rewrite Em, Henc, Eb, Eo, Hcopy, Hreq. cbn [negb].
  rewrite bool_decide_true by done. cbn [negb]. rewrite Hsizes. cbn [foldr]. rewrite !Z.add_0_r.
  rewrite (GetLength_of_offset rs (Z.of_nat (length body)) off len ltac:(lia) Hg).
  destruct (GetOffsetLength_bounds rs (Z.of_nat (length body)) off len Hwf ltac:(unfold size_ok, int64_max in *; lia) Hg) as (Ho & Hl & Hol).
  destruct rs as [s|].
  2:{ injection Hg as <- <-. rewrite Es. exists 0, (Z.of_nat (length stored)), 0, 0. split; [done|]. split_and!; [lia..|]. f_equal.
      by apply read_whole. }
  rewrite Hg. destruct (decide (len = 0)) as [->|Hlen0].
  - destruct (empty_range s (Z.of_nat (length body)) off (Hwf s eq_refl) ltac:(unfold size_ok, int64_max in *; lia) Hg) as [-> Hb0].
    rewrite Hb0 in *. rewrite empty_package. exists 0, 0, 0, 0. split; [done|]. split_and!; [done|done|lia|]. unfold skip_limit. by rewrite (proj2 (Z.leb_le _ _)) by lia.
  - pose proof (read_packages nonce key body off len Hk Hsz Ho ltac:(lia) Hol) as Hr. cbv zeta in Hr.
    destruct (range_of_parts _ _ _) as [[[[encOff encLength] skip] seq] ps]. destruct Hr as (-> & Hr1 & Hr2 & Hr3 & Hr4).
    exists encOff, encLength, skip, seq. split; [done|]. split_and!; [done..|]. unfold stored. by rewrite Hr4.
Qed.

(** C7. Encryption is transparent: when a body is put with server-side encryption,
    by the key service or with a key of the client, then for every range that the
    body satisfies, a GET with the same key reads packages within the stored stream
    and sends exactly the bytes of the range. *)
Theorem encrypted_put_get keyID masterKey rnd put get b o m nonce (body : bytes) rs off len :
  let kms := Some (NewMasterKey keyID masterKey) in
  keyID <> [] -> length (rnd_Key rnd) = 32%nat -> length (rnd_IV rnd) = 32%nat -> IsEncrypted (Some m) = false -> isCacheEncrypted (Some m) = false ->
  (asks_S3 put \/ ∃ key, length key = 32%nat /\ md5_sum key <> [] /\ presents key put /\ presents key get) ->
  Header_Get get SSECopyAlgorithm = [] ->
  size_ok (Z.of_nat (length body)) -> (∀ s, rs = Some s -> range_wf s) ->
  GetOffsetLength rs (Z.of_nat (length body)) = (off, len, None) ->
  ∃ objectKey m', EncryptRequest kms rnd put b o m = Some (inl (objectKey, m')) /\
    let stored := sio_Encrypt nonce objectKey body in
    ∀ info, describes info b o m' (Z.of_nat (length stored)) ->
    ∃ encOff encLength skipLen seqNumber,
      encrypted_range rs info = inl (encOff, encLength, skipLen, seqNumber, 0%nat, len) /\
      0 <= encOff /\ 0 <= encLength /\ encOff + encLength <= Z.of_nat (length stored) /\
      decrypted_content kms get info skipLen seqNumber len (slice encOff encLength stored) = inl (slice off len body, None).
Proof.
  intros kms Hid Hk Hiv Hm Hcache Hreq Hcopy Hsz Hwf Hg.
  destruct (object_key_recovered sha256_length keyID masterKey rnd put get b o m Hid Hk Hiv Hm Hcache Hreq) as (key & m' & He & Hl & Hr).
  exists key, m'. split; [exact He|]. intros stored info Hd. by eapply encrypted_read.
Qed.
End requests.

(** ** Compressed objects *)

(** The s2 format: streams one after the other decompress to their contents one
    after the other. *)
Class S2Env := {
  s2_Encode : bytes -> bytes;
  s2_Decode : bytes -> bytes * option error;
  s2_streams contents : s2_Decode (concat (s2_Encode <$> contents)) = (concat contents, None) }.

Section compressed.
Context `{S2Env}.

(** The parts of the information, if any, are those that were compressed. *)
Definition compressed_part (p : ObjectPartInfo) (content : bytes) : Prop :=
  part_Size p = Z.of_nat (length (s2_Encode content)) /\ part_ActualSize p = Z.of_nat (length content).
Definition stored_size (contents : list bytes) : Z := Z.of_nat (length (concat (s2_Encode <$> contents))).
Definition plain_size (contents : list bytes) : Z := Z.of_nat (length (concat contents)).

Lemma stored_size_cons c cs : stored_size (c :: cs) = Z.of_nat (length (s2_Encode c)) + stored_size cs.
Proof. unfold stored_size. cbn. rewrite length_app. lia. Qed.
Lemma plain_size_cons c cs : plain_size (c :: cs) = Z.of_nat (length c) + plain_size cs.
Proof. unfold plain_size. cbn. rewrite length_app. lia. Qed.

(** The part that is found, and the sizes of the parts before it; none is found
    for an offset behind the end. *)
Lemma compressed_from_spec parts contents offset cum comp :
  Forall2 compressed_part parts contents -> cum <= offset ->
  ∃ before after, contents = before ++ after /\
    compressed_from offset cum comp parts = (comp + stored_size before, if decide (after = []) then 0 else cum + plain_size before) /\
    cum + plain_size before <= offset /\ (after = [] -> cum + plain_size contents <= offset).
Proof.
  intros Hp. revert cum comp. induction Hp as [|p c parts contents [E1 E2] Hp IH]; intros cum comp Hc.
  - exists [], []. change (plain_size []) with 0. change (stored_size []) with 0. rewrite !Z.add_0_r. split_and!; done || lia.
  - cbn [compressed_from]. rewrite E2. destruct (Z.leb_spec (cum + Z.of_nat (length c)) offset).
    + destruct (IH (cum + Z.of_nat (length c)) (comp + part_Size p) ltac:(lia)) as (bef & aft & -> & E & Hb & Ha).
      exists (c :: bef), aft. rewrite E, E1, plain_size_cons, stored_size_cons. split_and!; [done| |lia|].
      * f_equal; [lia|]. case_decide; lia.
      * intros Hn. specialize (Ha Hn). cbn [app]. rewrite plain_size_cons. lia.
    + exists [], (c :: contents). change (plain_size []) with 0. change (stored_size []) with 0. rewrite decide_False by done.
      split_and!; [done|f_equal; lia|lia|done].
Qed.

(** Reading from the start of a part on. *)
Lemma read_streams bef aft decOff off len :
  0 <= decOff -> (aft <> [] -> Z.of_nat (length (concat bef)) + decOff = off) -> (aft = [] -> len = 0) ->
  let contents := bef ++ aft in
  skip_limit decOff len (s2_Decode (slice (stored_size bef) (stored_size contents - stored_size bef) (concat (s2_Encode <$> contents))))
  = (slice off len (concat contents), None).
Proof.
  intros Hd Hne He contents. unfold contents, stored_size.
  rewrite fmap_app, !concat_app, length_app, Nat2Z.inj_add, Z.add_simpl_l.
  assert (slice (Z.of_nat (length (concat (s2_Encode <$> bef)))) (Z.of_nat (length (concat (s2_Encode <$> aft))))
            (concat (s2_Encode <$> bef) ++ concat (s2_Encode <$> aft)) = concat (s2_Encode <$> aft)) as ->.
  { unfold slice. rewrite !Nat2Z.id, drop_app_length. by apply take_ge. }
  rewrite s2_streams. unfold skip_limit. cbn [fst snd].
  assert (take (Z.to_nat len) (drop (Z.to_nat decOff) (concat aft)) = slice off len (concat bef ++ concat aft)) as E.
  { destruct (decide (aft = [])) as [Hn|Hn]; [rewrite (He Hn); done|]. rewrite <- (Hne Hn). unfold slice. f_equal.
    rewrite Z2Nat.inj_add, Nat2Z.id, <- drop_drop, drop_app_length by lia. done. }
  rewrite E. by destruct (_ <=? _).
Qed.

(** C40. A range of a compressed object: what is read of the store decompresses, and
    cut it is the range of the content, for an object with and without parts. *)
Theorem compressed_range_get contents rs off len info :
  (oi_Parts info = [] \/ Forall2 compressed_part (oi_Parts info) contents) ->
  oi_Size info = stored_size contents -> GetActualSize info = plain_size contents -> plain_size contents <= int64_max ->
  (∀ s, rs = Some s -> range_wf s) -> GetOffsetLength rs (plain_size contents) = (off, len, None) ->
  let stored := concat (s2_Encode <$> contents) in
  ∃ cOff cLen decOff, compressed_range rs info = inl (cOff, cLen, decOff, len) /\
    0 <= cOff /\ 0 <= cLen /\ cOff + cLen = Z.of_nat (length stored) /\
    skip_limit decOff len (s2_Decode (slice cOff cLen stored)) = (slice off len (concat contents), None).
Proof.
  intros Hparts Hs Ha Hmax Hwf Hg stored. unfold plain_size in *.
  destruct (GetOffsetLength_bounds rs (Z.of_nat (length (concat contents))) off len Hwf ltac:(lia) Hg) as (Ho & Hl & Hol).
  unfold compressed_range. rewrite Ha. destruct (Z.ltb_spec (Z.of_nat (length (concat contents))) 0); [lia|].
  destruct rs as [s|].
  2:{ injection Hg as <- <-. exists 0, (oi_Size info), 0. split; [done|]. split_and!; [lia|unfold stored_size in Hs; lia| |].
      - rewrite Hs. done.
      - rewrite Hs. pose proof (read_streams [] contents 0 0 (Z.of_nat (length (concat contents))) ltac:(lia) ltac:(done)) as Hr.
        cbv zeta in Hr. change (stored_size []) with 0 in Hr. rewrite Z.sub_0_r in Hr. apply Hr. by intros ->. }
  rewrite Hg.
  assert (∃ bef aft decOff, contents = bef ++ aft /\ getCompressedOffsets info off = (stored_size bef, decOff) /\ 0 <= decOff <= off /\
            (aft <> [] -> Z.of_nat (length (concat bef)) + decOff = off) /\ (aft = [] -> len = 0)) as (bef & aft & decOff & -> & Hc & Hd & Hne & He).
  { unfold getCompressedOffsets. destruct Hparts as [Hparts|Hparts].
    - exists [], contents, off. rewrite Hparts. cbn. split_and!; [done|f_equal; lia|lia|lia|lia|]. intros ->. cbn in *. lia.
    - destruct (compressed_from_spec _ _ off 0 0 Hparts Ho) as (bef & aft & -> & E & Hb & Hafter). rewrite E.
      exists bef, aft, (off - (if decide (aft = []) then 0 else 0 + plain_size bef)). unfold plain_size in *.
      split_and!; [done|done|case_decide; lia|case_decide; lia| |].
      + intros Hn. rewrite decide_False by done. lia.
      + intros Hn. specialize (Hafter Hn). lia. }
  rewrite Hc. destruct (Z.ltb_spec len 0); [lia|].
  destruct (Z.ltb_spec (Z.of_nat (length (concat (bef ++ aft)))) decOff); [lia|].
  destruct (Z.ltb_spec (Z.of_nat (length (concat (bef ++ aft)))) (decOff + len)); [lia|]. cbn [orb].
  exists (stored_size bef), (oi_Size info - stored_size bef), decOff. split; [done|].
  assert (stored_size (bef ++ aft) = stored_size bef + stored_size aft) as Happ.
  { unfold stored_size. rewrite fmap_app, concat_app, length_app. lia. }
  rewrite Hs. split_and!; [unfold stored_size; lia|rewrite Happ; unfold stored_size; lia|unfold stored, stored_size; lia|].
  apply read_streams; done || lia.
Qed.
End compressed.
