(* ===== verification/GetHandler.v ===== *)
(** * GET and HEAD of an object: cmd/object-handlers.go, cmd/object-handlers-common.go, cmd/api-headers.go

    The two requests that read an object, from the checks of the request over the
    object layer and the preconditions to the response with its headers.

    [checkAuth] is [checkRequestAuthType] applied to the request ([Auth]), with
    [None] for a panic of its own, and [listAllowed] the decision of the bucket
    policy on listing the bucket for an anonymous request ([PolicySys]).  A Go map
    is iterated in any order: [order] is that of the entries of a metadata map.
    There is no cache of objects, and no gateway. *)
From S2P Require Import Prelude GoLib GoText IncStr Errors APIErrors Metadata NsLock Pool Drive World HashReader.
From S2P Require Import HttpRange Client Names Buckets Objects Multipart GoTime GoDate Base64 Credentials Wildcard Condition Policy IamPolicy Iam Bufio Streaming.
From S2P Require Import SignV4 SignV2 PolicySys Jwt Auth ObjectLock LockHandlers Crypto Encryption.

(** ** cmd/http/headers.go *)
Definition xhttp_LastModified : bytes := str "Last-Modified".
Definition xhttp_ETag : bytes := str "ETag".
Definition xhttp_Expires : bytes := str "Expires".
Definition xhttp_ContentLength : bytes := str "Content-Length".
Definition xhttp_ContentType : bytes := str "Content-Type".
Definition xhttp_ContentEncoding : bytes := str "Content-Encoding".
Definition xhttp_ContentLanguage : bytes := str "Content-Language".
Definition xhttp_ContentRange : bytes := str "Content-Range".
Definition xhttp_ContentDisposition : bytes := str "Content-Disposition".
Definition xhttp_CacheControl : bytes := str "Cache-Control".
Definition xhttp_AcceptRanges : bytes := str "Accept-Ranges".
Definition xhttp_AmzBucketRegion : bytes := str "X-Amz-Bucket-Region".
Definition xhttp_ServerInfo : bytes := str "Server".
Definition xhttp_RetryAfter : bytes := str "Retry-After".
Definition xhttp_Location : bytes := str "Location".
Definition xhttp_AmzTagCount : bytes := str "X-Amz-Tag-Count".
Definition xhttp_AmzMpPartsCount : bytes := str "x-amz-mp-parts-count".
Definition IfModifiedSince : bytes := str "If-Modified-Since".
Definition IfUnmodifiedSince : bytes := str "If-Unmodified-Since".
Definition IfMatch : bytes := str "If-Match".
Definition IfNoneMatch : bytes := str "If-None-Match".

Definition StatusOK : Z := 200.
Definition StatusPartialContent : Z := 206.
Definition StatusNotModified : Z := 304.
Definition StatusTemporaryRedirect : Z := 307.

(** A response: its status, its headers and the bytes of its body. *)
Record Response := mkResponse { resp_Status : Z; resp_Header : multimap; resp_Body : bytes }.

(** ** object-handlers-common.go: preconditions *)

(** Whether the object was modified after a time with the precision of seconds. *)
Definition ifModifiedSince (objTime givenTime : time) : bool := givenTime + 10 ^ 9 <? objTime.
Definition isETagEqual (left right : bytes) : bool := bool_decide (canonicalizeETag left = canonicalizeETag right).

(** What the preconditions of a GET or HEAD come to: the object is sent, or not
    because it is not modified, or because a condition fails. *)
Inductive precondition := Proceed | NotModified | PreconditionFailed.

Definition header_time (h : multimap) (key : bytes) : option time :=
  if decide (Header_Get h key = []) then None else Parse_http (Header_Get h key).

Definition checkPreconditions (method : bytes) (h : multimap) (objInfo : ObjectInfo) : precondition :=
  if negb (bool_decide (method = str "GET")) && negb (bool_decide (method = str "HEAD")) then Proceed
  else if decide (oi_ModTime objInfo = zeroTime \/ oi_ModTime objInfo = timeSentinel) then Proceed
  else if match header_time h IfModifiedSince with
          | Some givenTime => negb (ifModifiedSince (oi_ModTime objInfo) givenTime)
          | None => false
          end then NotModified
  else if match header_time h IfUnmodifiedSince with
          | Some givenTime => ifModifiedSince (oi_ModTime objInfo) givenTime
          | None => false
          end then PreconditionFailed
  else if negb (bool_decide (Header_Get h IfMatch = [])) && negb (isETagEqual (oi_ETag objInfo) (Header_Get h IfMatch))
  then PreconditionFailed
  else if negb (bool_decide (Header_Get h IfNoneMatch = [])) && isETagEqual (oi_ETag objInfo) (Header_Get h IfNoneMatch)
  then NotModified
  else Proceed.

(** [checkCopyObjectPreconditions]: whether the copy stops, from the information
    on its source and the encrypted checksum; [None] is an index out of range. *)
Definition AmzCopySourceIfModifiedSince : bytes := str "x-amz-copy-source-if-modified-since".
Definition AmzCopySourceIfUnmodifiedSince : bytes := str "x-amz-copy-source-if-unmodified-since".
Definition AmzCopySourceIfNoneMatch : bytes := str "x-amz-copy-source-if-none-match".
Definition AmzCopySourceIfMatch : bytes := str "x-amz-copy-source-if-match".
Definition checkCopyObjectPreconditions (method : bytes) (h : multimap) (objInfo : ObjectInfo) (encETag : bytes) : option bool :=
  if decide (method <> str "PUT") then Some false
  else
    let encETag := if decide (encETag = []) then oi_ETag objInfo else encETag in
    if decide (oi_ModTime objInfo = zeroTime \/ oi_ModTime objInfo = timeSentinel) then Some false
    else if match header_time h AmzCopySourceIfModifiedSince with
            | Some givenTime => negb (ifModifiedSince (oi_ModTime objInfo) givenTime)
            | None => false
            end then Some true
    else if match header_time h AmzCopySourceIfUnmodifiedSince with
            | Some givenTime => ifModifiedSince (oi_ModTime objInfo) givenTime
            | None => false
            end then Some true
    else
      let shouldDecryptEtag := SSECopy_IsRequested h && negb (IsMultiPart (oi_UserDefined objInfo)) in
      (* the comparison of a header that is present *)
      let matches key :=
        if decide (Header_Get h key = []) then Some None
        else etag ← (if shouldDecryptEtag then last32 encETag else Some (oi_ETag objInfo));
             Some (Some (isETagEqual etag (Header_Get h key))) in
      m ← matches AmzCopySourceIfMatch;
      if negb (bool_decide (oi_ETag objInfo = [])) && bool_decide (m = Some false) then Some true
      else
        n ← matches AmzCopySourceIfNoneMatch;
        Some (negb (bool_decide (oi_ETag objInfo = [])) && bool_decide (n = Some true)).

(** ** api-headers.go *)
Section handlers.
Context `{KineticDrive} `{LRWMutex} `{MetaCodec} `{MetaEnv} `{OSEnv} `{UpperEnv} `{UnicodeEnv} `{ScanEnv}.
Context `{DareEnv} `{SigEnv} `{SioEnv} (GlobalKMS : option KMS).
(** [ReleaseTag], [globalServerRegion], [globalBrowserEnabled], and the document
    of an error (encoding/xml). *)
Context (ReleaseTag globalServerRegion : bytes) (globalBrowserEnabled : bool) (errorDocument : APIError -> bytes).
Context (order : strmap -> list (bytes * bytes)).

Definition setCommonHeaders (h : multimap) : multimap :=
  let h := Header_Set xhttp_ServerInfo (str "MinIO/" ++ ReleaseTag) h in
  let h := if decide (globalServerRegion = []) then h else Header_Set xhttp_AmzBucketRegion globalServerRegion h in
  RemoveSensitiveHeaders (Header_Set xhttp_AcceptRanges (str "bytes") h).

(** The entries of the metadata as headers, internal ones apart. *)
Definition set_user_headers (entries : list (bytes * bytes)) (h : multimap) : multimap :=
  foldl (λ h e, if HasPrefix e.1 ReservedMetadataPrefix then h else Header_Set e.1 e.2 h) h entries.

Definition response_size (objInfo : ObjectInfo) : Z + error :=
  if IsEncrypted (oi_UserDefined objInfo) then DecryptedSize objInfo
  else if IsCompressed objInfo then
    let totalObjectSize := GetActualSize objInfo in
    if totalObjectSize <? 0 then inr errInvalidDecompressedSize else inl totalObjectSize
  else inl (oi_Size objInfo).

Definition set_if (c : bool) (k v : bytes) (h : multimap) : multimap := if c then Header_Set k v h else h.
Definition set_etag (etag : bytes) (h : multimap) : multimap :=
  if decide (etag = []) then h else <[xhttp_ETag := [quote :: etag ++ [quote]]]> h.

(** The headers that describe the object, before those of the range. *)
Definition set_info_headers (objInfo : ObjectInfo) (h : multimap) : multimap :=
  let h := setCommonHeaders h in
  let h := Header_Set xhttp_LastModified (Format_http (oi_ModTime objInfo)) h in
  let h := set_etag (oi_ETag objInfo) h in
  let h := set_if (strings.Contains (oi_ETag objInfo) (str "-") && negb (bool_decide (oi_Parts objInfo = [])))
             xhttp_AmzMpPartsCount (FormatInt (Z.of_nat (length (oi_Parts objInfo)))) h in
  let h := set_if (negb (bool_decide (oi_ContentType objInfo = []))) xhttp_ContentType (oi_ContentType objInfo) h in
  let h := set_if (negb (bool_decide (oi_ContentEncoding objInfo = []))) xhttp_ContentEncoding (oi_ContentEncoding objInfo) h in
  let h := set_if (negb (bool_decide (oi_Expires objInfo = zeroTime))) xhttp_Expires (Format_http (oi_Expires objInfo)) h in
  let tagCount := size (ParseQuery (oi_UserTags objInfo)) in
  let h := set_if (negb (Nat.eqb tagCount 0)) xhttp_AmzTagCount (FormatInt (Z.of_nat tagCount)) h in
  set_user_headers (order (default ∅ (oi_UserDefined objInfo))) h.

Definition content_range (start rangeLen total : Z) : bytes :=
  str "bytes " ++ FormatInt start ++ str "-" ++ FormatInt (start + rangeLen - 1) ++ str "/" ++ FormatInt total.

(** [setObjectHeaders]: the headers and the error; the headers are set even when
    there is an error. *)
Definition setObjectHeaders (objInfo : ObjectInfo) (rs : option HTTPRangeSpec) (h : multimap) : multimap * option error :=
  let h := set_info_headers objInfo h in
  match response_size objInfo with
  | inr e => (h, Some e)
  | inl totalObjectSize =>
      match GetOffsetLength rs totalObjectSize with
      | (_, _, Some e) => (h, Some e)
      | (start, rangeLen, None) =>
          let h := Header_Set xhttp_ContentLength (FormatInt rangeLen) h in
          (match rs with
           | Some _ => Header_Set xhttp_ContentRange (content_range start rangeLen totalObjectSize) h
           | None => h
           end, None)
      end
  end.

(** object-handlers.go: the parameters of the query that set headers of the
    response.  The headers of different parameters are different. *)
Definition supportedHeadGetReqParams : list (bytes * bytes) :=
  [(str "response-expires", xhttp_Expires); (str "response-content-type", xhttp_ContentType);
   (str "response-cache-control", xhttp_CacheControl); (str "response-content-encoding", xhttp_ContentEncoding);
   (str "response-content-language", xhttp_ContentLanguage); (str "response-content-disposition", xhttp_ContentDisposition)].
Definition setHeadGetRespHeaders (reqParams : multimap) (h : multimap) : multimap :=
  foldl (λ h p, match reqParams !! p.1 with Some v => <[p.2 := v]> h | None => h end) h supportedHeadGetReqParams.

(** ** api-response.go *)
Definition writeResponse (statusCode : Z) (response : option bytes) (mType : bytes) (h : multimap) : Response :=
  let h := setCommonHeaders h in
  let h := if decide (mType = []) then h else Header_Set xhttp_ContentType mType h in
  let body := default [] response in
  mkResponse statusCode (Header_Set xhttp_ContentLength (FormatInt (Z.of_nat (length body))) h) body.
Definition mimeXML : bytes := str "application/xml".
Definition writeErrorResponseHeadersOnly (err : APIError) (h : multimap) : Response := writeResponse (HTTPStatusCode err) None [] h.

Definition guessIsBrowserReq (r : Request) : bool :=
  strings.Contains (Header_Get (Header r) (str "User-Agent")) (str "Mozilla") && globalBrowserEnabled
  && (bool_decide (getRequestAuthType r = authTypeJWT) || bool_decide (getRequestAuthType r = authTypeAnonymous)).
Definition minioReservedBucketPath : bytes := str "/minio".
Definition writeErrorResponse (r : Request) (err : APIError) (h : multimap) : Response :=
  let slow := bool_decide (Code err ∈ [str "SlowDown"; str "XMinioServerNotInitialized"; str "XMinioReadQuorum"; str "XMinioWriteQuorum"]) in
  let h := if slow then Header_Set xhttp_RetryAfter (str "120") h else h in
  if bool_decide (Code err = str "AccessDenied") && guessIsBrowserReq r && globalBrowserEnabled
  then mkResponse StatusTemporaryRedirect (Header_Set xhttp_Location (minioReservedBucketPath ++ URL_Path r) h) []
  else writeResponse (HTTPStatusCode err) (Some (errorDocument err)) mimeXML h.

(** ** object-handlers.go *)

(** [CleanMinioInternalMetadataKeys] *)
Definition CleanMinioInternalMetadataKeys (metadata : option strmap) : strmap :=
  foldl (λ m e, if HasPrefix e.1 (str "X-Amz-Meta-X-Minio-Internal-")
                then <[TrimPrefix e.1 (str "X-Amz-Meta-") := e.2]> m else <[e.1 := e.2]> m) ∅ (order (default ∅ metadata)).

Definition set_UserDefined (m : strmap) (o : ObjectInfo) : ObjectInfo :=
  mkObjectInfo (oi_Bucket o) (oi_Name o) (oi_ModTime o) (oi_Size o) (oi_IsDir o) (oi_ETag o) (oi_ContentType o)
    (oi_ContentEncoding o) (oi_Expires o) (oi_StorageClass o) (Some m) (oi_UserTags o) (oi_Parts o)
    (oi_metadataOnly o) (oi_Hidden o).

(** The headers of a response without content. *)
Definition condition_headers (objInfo : ObjectInfo) (h : multimap) : multimap :=
  set_etag (oi_ETag objInfo) (Header_Set xhttp_LastModified (Format_http (oi_ModTime objInfo)) (setCommonHeaders h)).

(** The headers of encryption. *)
Definition set_sse_headers (objInfo : ObjectInfo) (req h : multimap) : multimap :=
  if negb (IsEncrypted (oi_UserDefined objInfo)) then h
  else if S3_IsEncrypted (oi_UserDefined objInfo) then Header_Set SSEHeader SSEAlgorithmAES256 h
  else if SSEC_IsEncrypted (oi_UserDefined objInfo)
  then Header_Set SSECKeyMD5 (Header_Get req SSECKeyMD5) (Header_Set SSECAlgorithm (Header_Get req SSECAlgorithm) h)
  else h.

(** [getOpts] without a gateway, of which only the error counts: a client key must
    be well-formed. *)
Definition getOpts (h : multimap) : option error :=
  if SSEC_IsRequested h then match SSEC_ParseHTTP h with inr e => Some e | inl _ => None end else None.

Section requests.
Context (initialized encryptionEnabled listAllowed : bool) (checkAuth : bytes -> bytes -> bytes -> option APIErrorCode).
(** The request, the bucket and the object of its path or the error of unescaping
    it, and the headers that the middlewares have set on the response. *)
Context (r : Request) (bucket : bytes) (object : bytes + error) (header : multimap).

(** The checks that come first; a failed one gives the error, and whether it is
    answered without a body by [HeadObjectHandler]. *)
Definition read_checks : (bytes * option error) + (APIError * bool) :=
  if negb initialized then inr (ToAPIErr ErrServerNotInitialized, true)
  else if S3_IsRequested (Header r) || S3KMS_IsRequested (Header r) then inr (ToAPIErr ErrBadRequest, true)
  else if negb encryptionEnabled && crypto_IsRequested (Header r) then inr (ToAPIErr ErrBadRequest, false)
  else
    match object with
    | inr e => inr (toAPIError (Some e), false)
    | inl object =>
        if is_version (Values_Get (URL_Query r) (str "versionId")) then inr (ToAPIErr ErrNoSuchVersion, true)
        else inl (object, getOpts (Header r))
    end.

(** Permission to read the object.  To an anonymous request for an object that
    does not exist the answer is that there is no such key, if the bucket may be
    listed. *)
Definition read_permission (object : bytes) : M (option APIError) :=
  s3Error ← lift (checkAuth GetObjectAction bucket object);
  if decide (s3Error = ErrNone) then mret None
  else if bool_decide (getRequestAuthType r = authTypeAnonymous) && listAllowed then
    '(_, err) ← GetObjectInfo bucket object;
    mret (Some (ToAPIErr (if decide (Code (toAPIError err) = str "NoSuchKey") then ErrNoSuchKey else s3Error)))
  else mret (Some (ToAPIErr s3Error)).

Definition request_range : option HTTPRangeSpec * option error :=
  let rangeHeader := Header_Get (Header r) (str "Range") in
  if decide (rangeHeader = []) then (None, None) else parseRequestRangeSpec rangeHeader.

(** The metadata of the object lock, unless the request may see it. *)
Definition filter_lock (object : bytes) (objInfo : ObjectInfo) : M ObjectInfo :=
  getRetPerms ← lift (checkAuth GetObjectRetentionAction bucket object);
  legalHoldPerms ← lift (checkAuth GetObjectLegalHoldAction bucket object);
  mret (set_UserDefined (FilterObjectLockMetadata (default ∅ (oi_UserDefined objInfo))
          (negb (bool_decide (getRetPerms = ErrNone))) (negb (bool_decide (legalHoldPerms = ErrNone)))) objInfo).

Definition precondition_response (objInfo : ObjectInfo) (h : multimap) : option Response :=
  match checkPreconditions (Method r) (Header r) objInfo with
  | Proceed => None
  | NotModified => Some (mkResponse StatusNotModified (condition_headers objInfo h) [])
  | PreconditionFailed => Some (writeErrorResponse r (ToAPIErr ErrPreconditionFailed) (condition_headers objInfo h))
  end.

(** What [GetObjectHandler] does before it copies the content: the response when
    there is one, or the headers. *)
Definition get_response (object : bytes) (rs : option HTTPRangeSpec) (objInfo : ObjectInfo) : M (Response + multimap) :=
  objInfo ← filter_lock object objInfo;
  let objInfo := set_UserDefined (CleanMinioInternalMetadataKeys (oi_UserDefined objInfo)) objInfo in
  '(objInfo, _, err) ← lift (DecryptObjectInfo GlobalKMS objInfo (Header r));
  match err with
  | Some e => mret (inl (writeErrorResponse r (toAPIError (Some e)) header))
  | None =>
      match precondition_response objInfo header with
      | Some resp => mret (inl resp)
      | None =>
          let '(h, err) := setObjectHeaders objInfo rs (set_sse_headers objInfo (Header r) header) in
          match err with
          | Some e => mret (inl (writeErrorResponse r (toAPIError (Some e)) h))
          | None => mret (inr (setHeadGetRespHeaders (URL_Query r) h))
          end
      end
  end.

(** Copying the content to the client through a buffer.  An error before the
    first byte of a response without a range panics after the error was written;
    any other error breaks the response off. *)
Definition send_content (fuel : nat) (rs : option HTTPRangeSpec) (g : GetObjectReader) (h : multimap) : M Response :=
  '(body, err) ← match gr_client g with
                 | Some ix => copy_limited fuel ix (gr_length g) (oi_Size (gr_ObjInfo g) + 1) []
                 | None => mret ([], None)
                 end;
  match err, rs, body with
  | Some _, None, [] => panic
  | _, _, _ => mret (mkResponse (match rs with Some _ => StatusPartialContent | None => StatusOK end) h body)
  end.

Definition GetObjectHandler (fuel : nat) : M Response :=
  match read_checks with
  | inr (e, _) => mret (writeErrorResponse r e header)
  | inl (object, Some e) => mret (writeErrorResponseHeadersOnly (toAPIError (Some e)) header)
  | inl (object, None) =>
      perm ← read_permission object;
      match perm with
      | Some e => mret (writeErrorResponse r e header)
      | None =>
          let '(rs, err) := request_range in
          if decide (err = Some errInvalidRange) then mret (writeErrorResponse r (ToAPIErr ErrInvalidRange) header)
          else
            '(gr, err) ← GetObjectNInfo bucket object rs readLock None;
            match gr with
            | None => mret (writeErrorResponse r (toAPIError err) header)
            | Some g =>
                defer (gr_Close g) (
                  resp ← get_response object rs (gr_ObjInfo g);
                  match resp with
                  | inl resp => mret resp
                  | inr h => send_content fuel rs g h
                  end)
            end
      end
  end.

(** HEAD decrypts the information first, and opens the key of an object that was
    encrypted by a client. *)
Definition head_response (object : bytes) (rs : option HTTPRangeSpec) (objInfo : ObjectInfo) : M Response :=
  objInfo ← filter_lock object objInfo;
  '(objInfo, _, err) ← lift (DecryptObjectInfo GlobalKMS objInfo (Header r));
  match err with
  | Some e => mret (writeErrorResponseHeadersOnly (toAPIError (Some e)) header)
  | None =>
      let objInfo := set_UserDefined (CleanMinioInternalMetadataKeys (oi_UserDefined objInfo)) objInfo in
      let key :=
        if IsEncrypted (oi_UserDefined objInfo) && negb (S3_IsEncrypted (oi_UserDefined objInfo)) && SSEC_IsEncrypted (oi_UserDefined objInfo)
        then match SSEC_ParseHTTP (Header r) with
             | inr e => Some e
             | inl clientKey =>
                 match SSEC_ParseMetadata (oi_UserDefined objInfo) with
                 | inr e => Some e
                 | inl sealedKey => match Unseal clientKey sealedKey SSEC_String bucket object with inr e => Some e | inl _ => None end
                 end
             end
        else None in
      match key with
      | Some e => mret (writeErrorResponseHeadersOnly (toAPIError (Some e)) header)
      | None =>
          let h := set_sse_headers objInfo (Header r) header in
          match precondition_response objInfo h with
          | Some resp => mret resp
          | None =>
              let '(h, err) := setObjectHeaders objInfo rs h in
              match err with
              | Some e => mret (writeErrorResponseHeadersOnly (toAPIError (Some e)) h)
              | None =>
                  mret (mkResponse (match rs with Some _ => StatusPartialContent | None => StatusOK end)
                          (setHeadGetRespHeaders (URL_Query r) h) [])
              end
          end
      end
  end.

Definition HeadObjectHandler : M Response :=
  match read_checks with
  | inr (e, true) => mret (writeErrorResponseHeadersOnly e header)
  | inr (e, false) => mret (writeErrorResponse r e header)
  | inl (object, Some e) => mret (writeErrorResponseHeadersOnly (toAPIError (Some e)) header)
  | inl (object, None) =>
      perm ← read_permission object;
      match perm with
      | Some e => mret (writeErrorResponseHeadersOnly e header)
      | None =>
          let '(rs, err) := request_range in
          if decide (err = Some errInvalidRange) then mret (writeErrorResponseHeadersOnly (ToAPIErr ErrInvalidRange) header)
          else
            '(objInfo, err) ← GetObjectInfo bucket object;
            match err with
            | Some e => mret (writeErrorResponseHeadersOnly (toAPIError (Some e)) header)
            | None => head_response object rs objInfo
            end
      end
  end.
End requests.
End handlers.
