(* ===== verification/GetHandlerSpec.v ===== *)
(** * What GET and HEAD answer

    For an object stored as one value, the responses of the two requests as
    functions of the object: status, headers and body; that HEAD has the headers
    of GET; and that a client which sends the validators of a response back is
    told that nothing has changed. *)
From S2P Require Import Prelude GoLib GoText IncStr Errors APIErrors Metadata NsLock Pool Drive World HashReader.
From S2P Require Import HttpRange Client Names Buckets Objects Multipart GoTime GoDate Base64 Credentials Wildcard Condition Policy IamPolicy Iam Bufio Streaming.
From S2P Require Import SignV4 SignV2 PolicySys Jwt Auth ObjectLock LockHandlers Crypto CryptoSpec Encryption GetHandler ObjectsSpec ReadSpec GetSpec.

(** ** Checksums and their quotes *)
Definition no_quotes (s : bytes) : Prop := Forall (λ c, ~ is_quote c) s.

Lemma split_unquoted_app s rest : no_quotes s -> (rest = [] \/ ∃ c l, rest = c :: l /\ is_quote c) -> split_unquoted (s ++ rest) = (s, rest).
Proof.
  intros Hs Hr. induction Hs as [|c s Hc Hs IH]; cbn [app].
  - destruct Hr as [->|(c & l & -> & Hc)]; [done|]. cbn. by rewrite decide_True.
  - cbn [split_unquoted]. by rewrite decide_False, IH.
Qed.
Lemma drop_quotes_head s : no_quotes s -> s <> [] -> ∀ rest, drop_quotes (s ++ rest) = s ++ rest.
Proof. intros Hs Hn rest. destruct Hs as [|c s Hc Hs]; [done|]. cbn. by rewrite decide_False. Qed.

Lemma canonical_plain e : no_quotes e -> canonicalizeETag e = e.
Proof.
  intros He. unfold canonicalizeETag. destruct (decide (e = [])) as [->|Hn]; [done|].
  assert (no_quotes (reverse e)) as Hr by (apply Forall_reverse; done).
  assert (reverse e <> []) by (intros E; apply Hn; by rewrite <- (reverse_involutive e), E).
  rewrite <- (app_nil_r (reverse e)), drop_quotes_head, split_unquoted_app by auto. cbn. apply reverse_involutive.
Qed.
Lemma canonical_quoted e : no_quotes e -> canonicalizeETag (quote :: e ++ [quote]) = e.
Proof.
  intros He. unfold canonicalizeETag. rewrite reverse_cons, reverse_app, reverse_singleton. cbn [app].
  assert (no_quotes (reverse e)) as Hr by (apply Forall_reverse; done).
  assert (∀ s, drop_quotes (quote :: s) = drop_quotes s) as Hd by (intros; cbn; by rewrite decide_True).
  rewrite Hd. destruct (decide (e = [])) as [->|Hn]; [done|].
  assert (reverse e <> []) by (intros E; apply Hn; by rewrite <- (reverse_involutive e), E).
  rewrite drop_quotes_head, split_unquoted_app by (done || (right; by exists quote, [])). rewrite Hd. cbn. apply reverse_involutive.
Qed.

(** ** Validators: the conditions a client makes of a response *)
Definition quoted_etag (o : ObjectInfo) : bytes := quote :: oi_ETag o ++ [quote].
Definition validators (o : ObjectInfo) (h : multimap) : Prop :=
  (Header_Get h IfModifiedSince = [] \/ Header_Get h IfModifiedSince = Format_http (oi_ModTime o)) /\
  (Header_Get h IfUnmodifiedSince = [] \/ Header_Get h IfUnmodifiedSince = Format_http (oi_ModTime o)) /\
  (Header_Get h IfMatch = [] \/ Header_Get h IfMatch = quoted_etag o) /\
  (Header_Get h IfNoneMatch = [] \/ Header_Get h IfNoneMatch = quoted_etag o).
(** The client wants the object only if it has changed. *)
Definition if_changed (h : multimap) : Prop := Header_Get h IfModifiedSince <> [] \/ Header_Get h IfNoneMatch <> [].
#[export] Instance if_changed_dec h : Decision (if_changed h).
Proof. unfold if_changed. apply _. Defined.

(** An object with a time and a checksum as a PUT makes them. *)
Definition valid_info (o : ObjectInfo) : Prop :=
  four_digit_year (oi_ModTime o) /\ oi_ModTime o <> zeroTime /\ oi_ModTime o <> timeSentinel /\ no_quotes (oi_ETag o).

Lemma header_time_validator h key t :
  four_digit_year t -> Header_Get h key = [] \/ Header_Get h key = Format_http t ->
  header_time h key = if decide (Header_Get h key = []) then None else Some (t / 10 ^ 9 * 10 ^ 9).
Proof. intros Ht [E|E]; unfold header_time; rewrite E; [done|]. case_decide; [done|]. by apply Parse_Format_http. Qed.

Lemma not_modified_since t : ifModifiedSince t (t / 10 ^ 9 * 10 ^ 9) = false.
Proof.
  unfold ifModifiedSince. apply Z.ltb_ge. pose proof (Z.div_mod t (10 ^ 9) ltac:(lia)). pose proof (Z.mod_pos_bound t (10 ^ 9) ltac:(lia)). lia.
Qed.

Lemma validators_decide method h o :
  method = str "GET" \/ method = str "HEAD" -> valid_info o -> validators o h ->
  checkPreconditions method h o = if decide (if_changed h) then NotModified else Proceed.
Proof.
  intros Hm (Ht & Hz & Hs & Hq) (E1 & E2 & E3 & E4). unfold checkPreconditions.
  assert (negb (bool_decide (method = str "GET")) && negb (bool_decide (method = str "HEAD")) = false) as ->.
  { destruct Hm as [->| ->]; done. }
  rewrite decide_False by tauto.
  rewrite (header_time_validator _ _ (oi_ModTime o) Ht E1), (header_time_validator _ _ (oi_ModTime o) Ht E2).
  assert (isETagEqual (oi_ETag o) (quoted_etag o) = true) as Heq.
  { unfold isETagEqual, quoted_etag. apply bool_decide_eq_true. by rewrite canonical_plain, canonical_quoted. }
  assert (quoted_etag o <> []) as Hq0 by done.
  destruct (decide (if_changed h)) as [Hc|Hc]; unfold if_changed in Hc;
    (destruct (decide (Header_Get h IfModifiedSince = [])) as [Hi|Hi]; [|rewrite not_modified_since; first [reflexivity|tauto]]);
    destruct (decide (Header_Get h IfUnmodifiedSince = [])); rewrite ?not_modified_since;
    destruct E3 as [E3|E3], E4 as [E4|E4]; rewrite ?E3, ?E4, ?Heq; repeat case_bool_decide;
    first [reflexivity | congruence | (destruct Hc; congruence) | (exfalso; apply Hc; right; congruence)].
Qed.

(** ** Headers *)
Lemma Header_Set_lookup k v h j : Header_Set k v h !! j = if decide (j = CanonicalHeaderKey k) then Some [v] else h !! j.
Proof. unfold Header_Set, Values_Set. case_decide as E; [rewrite E; apply lookup_insert_eq|by rewrite lookup_insert_ne]. Qed.
Lemma Header_Set_other k v h j : j <> CanonicalHeaderKey k -> Header_Set k v h !! j = h !! j.
Proof. intros Hj. rewrite Header_Set_lookup. by rewrite decide_False. Qed.
Lemma set_if_other c k v h j : j <> CanonicalHeaderKey k -> set_if c k v h !! j = h !! j.
Proof. intros Hj. unfold set_if. destruct c; [by apply Header_Set_other|done]. Qed.

(** No name becomes "ETag" by being made canonical: it would become "Etag". *)
Lemma to_lower_not_upper c : is_upper (to_lower c) = false.
Proof. revert c. assert (∀ c, negb (is_upper (to_lower c)) = true) as Ha by (apply all_bytes; vm_compute; reflexivity). intros c. by apply negb_true_iff, Ha. Qed.
Lemma canonical_not_ETag k : CanonicalHeaderKey k <> xhttp_ETag.
Proof.
  unfold CanonicalHeaderKey. destruct (forallb token_byte k) eqn:E; [|intros ->; vm_compute in E; discriminate].
  destruct k as [|c [|d k]]; [done|intros H; discriminate H|]. cbn [canonical_from]. intros H. injection H as H1 H2 _.
  destruct (decide (c = "-"%char)) as [->|Hc]; [vm_compute in H1; discriminate|].
  rewrite bool_decide_false in H2 by done. pose proof (to_lower_not_upper d) as Hd. rewrite H2 in Hd. vm_compute in Hd. discriminate.
Qed.

Lemma user_headers_other entries h k :
  (∀ e, e ∈ entries -> CanonicalHeaderKey e.1 <> k) -> set_user_headers entries h !! k = h !! k.
Proof.
  revert h. unfold set_user_headers. induction entries as [|e entries IH]; intros h Hk; [done|]. cbn [foldl].
  rewrite IH by (intros e' He'; apply Hk; by right). destruct (HasPrefix _ _); [done|].
  apply Header_Set_other. intros E. by apply (Hk e); [left|].
Qed.
Lemma resp_params_other params h k :
  k ∉ supportedHeadGetReqParams.*2 -> setHeadGetRespHeaders params h !! k = h !! k.
Proof.
  unfold setHeadGetRespHeaders. generalize supportedHeadGetReqParams. intros ps. revert h. induction ps as [|p ps IH]; intros h Hk; [done|].
  cbn [foldl]. cbn in Hk. apply not_elem_of_cons in Hk as [H1 H2]. rewrite IH by done.
  destruct (params !! p.1); [by rewrite lookup_insert_ne|done].
Qed.

(** ** Metadata *)

(** Keys that neither are internal in disguise nor name the time of the object. *)
Definition ordinary (m : strmap) : Prop :=
  ∀ k, is_Some (m !! k) -> HasPrefix k (str "X-Amz-Meta-X-Minio-Internal-") = false /\ CanonicalHeaderKey k <> xhttp_LastModified.

Lemma foldl_insert_lookup (l : list (bytes * bytes)) (m : strmap) k :
  NoDup l.*1 -> foldl (λ m e, <[e.1 := e.2]> m) m l !! k = match list_to_map (M := strmap) l !! k with Some v => Some v | None => m !! k end.
Proof.
  revert m. induction l as [|[k' v] l IH]; intros m Hn; [done|]. cbn [fmap list_fmap fst] in Hn. apply NoDup_cons in Hn as [Hk Hn].
  cbn [foldl fst snd]. rewrite IH by done. cbn [list_to_map foldr fst snd]. destruct (decide (k = k')) as [->|Hne].
  - rewrite lookup_insert_eq. rewrite not_elem_of_list_to_map_1 by done. by rewrite lookup_insert_eq.
  - rewrite lookup_insert_ne by done. by rewrite lookup_insert_ne.
Qed.
Lemma foldl_insert_perm (l : list (bytes * bytes)) (m : strmap) : l ≡ₚ map_to_list m -> foldl (λ m e, <[e.1 := e.2]> m) ∅ l = m.
Proof.
  intros Hp. assert (NoDup l.*1) as Hn by (rewrite Hp; apply NoDup_fst_map_to_list).
  apply map_eq. intros k. rewrite foldl_insert_lookup by done.
  rewrite (list_to_map_proper l (map_to_list m)), list_to_map_to_list by done. by destruct (m !! k).
Qed.

Section spec.
Context `{KineticDrive} `{LRWMutex} `{MetaCodec} `{MetaEnv} `{OSEnv} `{UpperEnv} `{UnicodeEnv} `{ScanEnv}.
Context `{DareEnv} `{SigEnv} `{SioEnv} (GlobalKMS : option KMS).
Context (ReleaseTag region : bytes) (browser : bool) (doc : APIError -> bytes) (order : strmap -> list (bytes * bytes)).
Context (order_perm : ∀ m, order m ≡ₚ map_to_list m).

Lemma clean_ordinary (m : strmap) : ordinary m -> CleanMinioInternalMetadataKeys order (Some m) = m.
Proof.
  intros Hm. unfold CleanMinioInternalMetadataKeys. cbn [default from_option id].
  rewrite <- (foldl_insert_perm (order m) m (order_perm m)) at 2.
  assert (∀ e, e ∈ order m -> HasPrefix e.1 (str "X-Amz-Meta-X-Minio-Internal-") = false) as Ho.
  { intros [k v] He. rewrite (order_perm m) in He. apply elem_of_map_to_list in He. apply Hm. by exists v. }
  revert Ho. generalize (∅ : strmap). generalize (order m). intros l. induction l as [|e l IH]; intros m0 Ho; [done|]. cbn [foldl].
  rewrite Ho by (by left). apply IH. intros e' He'. apply Ho. by right.
Qed.

Lemma filter_lock_subseteq (m : strmap) f1 f2 : FilterObjectLockMetadata m f1 f2 ⊆ m.
Proof.
  unfold FilterObjectLockMetadata. cbv zeta.
  assert (∀ k d, d ⊆ m -> delKey m k d ⊆ m) as Hd.
  { intros k d Hs. unfold delKey. case_match; [|done]. etrans; [apply delete_subseteq|done]. }
  repeat case_match; auto.
Qed.
Lemma ordinary_subseteq (m m' : strmap) : m' ⊆ m -> ordinary m -> ordinary m'.
Proof. intros Hs Hm k [v Hv]. apply Hm. exists v. by eapply lookup_weaken. Qed.
Lemma has_key_subseteq (m m' : strmap) k : m' ⊆ m -> has_key (Some m) k = false -> has_key (Some m') k = false.
Proof. intros Hs. rewrite !has_key_spec. cbn. intros E. destruct (m' !! k) eqn:E'; [|done]. by rewrite (lookup_weaken _ _ _ _ E' Hs) in E. Qed.

Lemma plain_subseteq (m m' : strmap) :
  m' ⊆ m -> IsEncrypted (Some m) = false -> IsEncrypted (Some m') = false.
Proof.
  intros Hs Hm. unfold IsEncrypted, IsMultiPart in *. rewrite !orb_false_iff in *.
  destruct Hm as [[[[[[? ?] ?] ?] ?] ?] ?]. split_and!; by eapply has_key_subseteq.
Qed.

(** ** The headers of an object *)
Abbreviation obj_headers := (setObjectHeaders ReleaseTag region order).
Abbreviation info_headers := (set_info_headers ReleaseTag region order).

Lemma info_headers_etag o h :
  oi_ETag o <> [] -> info_headers o h !! xhttp_ETag = Some [quoted_etag o].
Proof.
  intros He. unfold set_info_headers. rewrite user_headers_other by (intros; apply canonical_not_ETag).
  rewrite !set_if_other by (intros E; vm_compute in E; discriminate).
  unfold set_etag. rewrite decide_False by done. apply lookup_insert_eq.
Qed.
Lemma info_headers_time o h :
  ordinary (default ∅ (oi_UserDefined o)) -> info_headers o h !! xhttp_LastModified = Some [Format_http (oi_ModTime o)].
Proof.
  intros Ho. unfold set_info_headers. rewrite user_headers_other.
  2:{ intros [k v] He. rewrite (order_perm _) in He. apply elem_of_map_to_list in He. apply Ho. by exists v. }
  rewrite !set_if_other by (intros E; vm_compute in E; discriminate).
  unfold set_etag. case_decide; [|rewrite lookup_insert_ne by done]; rewrite Header_Set_lookup; by rewrite decide_True.
Qed.

(** The headers of a response with content. *)
Record describes_content (o : ObjectInfo) (rs : option HTTPRangeSpec) (off len total : Z) (h : multimap) : Prop := {
  dc_length : h !! xhttp_ContentLength = Some [FormatInt len];
  dc_range : rs <> None -> h !! xhttp_ContentRange = Some [content_range off len total];
  dc_etag : oi_ETag o <> [] -> h !! xhttp_ETag = Some [quoted_etag o];
  dc_time : h !! xhttp_LastModified = Some [Format_http (oi_ModTime o)] }.

Lemma content_headers o rs off len total params h :
  response_size o = inl total -> GetOffsetLength rs total = (off, len, None) -> ordinary (default ∅ (oi_UserDefined o)) ->
  ∃ h', obj_headers o rs h = (h', None) /\ describes_content o rs off len total (setHeadGetRespHeaders params h').
Proof.
  intros Ht Hg Ho. unfold setObjectHeaders. rewrite Ht, Hg. eexists. split; [reflexivity|].
  split; intros; rewrite resp_params_other by (apply (bool_decide_unpack _); vm_compute; exact I).
  - destruct rs; rewrite ?Header_Set_lookup; repeat case_decide as E; done || (vm_compute in E; discriminate).
  - destruct rs; [|done]. rewrite Header_Set_lookup. by rewrite decide_True.
  - destruct rs; rewrite ?Header_Set_other by (intros E; vm_compute in E; discriminate); by apply info_headers_etag.
  - destruct rs; rewrite ?Header_Set_other by (intros E; vm_compute in E; discriminate); by apply info_headers_time.
Qed.

(** ** The requests *)
Context `{!KineticDriveSpec _} `{!LRWMutexLaws _} `{!MetaCodecLaws _}.
Context (initialized encryptionEnabled listAllowed : bool) (checkAuth : bytes -> bytes -> bytes -> option APIErrorCode).

Abbreviation Get := (GetObjectHandler GlobalKMS ReleaseTag region browser doc order initialized encryptionEnabled listAllowed checkAuth).
Abbreviation Head := (HeadObjectHandler GlobalKMS ReleaseTag region browser doc order initialized encryptionEnabled listAllowed checkAuth).
Abbreviation error_response := (writeErrorResponse ReleaseTag region browser doc).
Abbreviation error_status := (writeErrorResponseHeadersOnly ReleaseTag region).
Abbreviation condition_response := (precondition_response ReleaseTag region browser doc).

(** A request without encryption headers that passes the first checks and may
    read the object. *)
Record may_read (r : Request) (b o : bytes) : Prop := {
  mr_checks : read_checks initialized encryptionEnabled r (inl o) = inl (o, None);
  mr_sse : S3_IsRequested (Header r) = false /\ SSEC_IsRequested (Header r) = false;
  mr_get : checkAuth GetObjectAction b o = Some ErrNone;
  mr_retention : is_Some (checkAuth GetObjectRetentionAction b o);
  mr_hold : is_Some (checkAuth GetObjectLegalHoldAction b o) }.

(** What the request may see of an object. *)
Definition denied (action b o : bytes) : bool := negb (bool_decide (checkAuth action b o = Some ErrNone)).
Definition shown (b o : bytes) (oi : ObjectInfo) : ObjectInfo :=
  set_UserDefined (FilterObjectLockMetadata (default ∅ (oi_UserDefined oi))
    (denied GetObjectRetentionAction b o) (denied GetObjectLegalHoldAction b o)) oi.

(** An object that is neither encrypted nor compressed, with ordinary metadata. *)
Definition plain_object (oi : ObjectInfo) : Prop :=
  oi_IsDir oi = false /\ is_Some (oi_UserDefined oi) /\ IsEncrypted (oi_UserDefined oi) = false /\ IsCompressed oi = false /\
  ordinary (default ∅ (oi_UserDefined oi)).

Lemma plain_shown b o oi :
  plain_object oi -> let v := shown b o oi in
  plain_object v /\ DecryptObjectInfo GlobalKMS v ∅ = Some (v, false, None) /\ response_size v = inl (oi_Size oi) /\
  set_UserDefined (CleanMinioInternalMetadataKeys order (oi_UserDefined v)) v = v.
Proof.
  intros (Hd & [m Hm] & He & Hc & Ho) v. assert (oi_UserDefined v = Some (FilterObjectLockMetadata m
    (denied GetObjectRetentionAction b o) (denied GetObjectLegalHoldAction b o))) as Ev by (unfold v, shown; rewrite Hm; done).
  rewrite Hm in *. cbn [default from_option id] in Ho.
  pose proof (filter_lock_subseteq m (denied GetObjectRetentionAction b o) (denied GetObjectLegalHoldAction b o)) as Hs.
  set (m' := FilterObjectLockMetadata _ _ _) in *.
  assert (IsEncrypted (Some m') = false) as He' by (by eapply plain_subseteq).
  assert (IsCompressed v = false) as Hc'. { unfold IsCompressed in *. rewrite Ev. rewrite Hm in Hc. by eapply has_key_subseteq. }
  assert (ordinary m') as Ho' by (by eapply ordinary_subseteq).
  split_and!.
  - unfold plain_object. rewrite Ev. cbn [default from_option id]. split_and!; eauto.
  - unfold DecryptObjectInfo. change (oi_IsDir v) with (oi_IsDir oi). rewrite Hd, Ev, He'. done.
  - unfold response_size. by rewrite Ev, He', Hc'.
  - rewrite Ev, clean_ordinary by done. unfold set_UserDefined. rewrite <- Ev. by destruct v.
Qed.

Lemma decrypt_plain (oi : ObjectInfo) h :
  plain_object oi -> S3_IsRequested h = false -> SSEC_IsRequested h = false ->
  DecryptObjectInfo GlobalKMS oi h = Some (oi, false, None).
Proof. intros (Hd & _ & He & _) Es Ec. unfold DecryptObjectInfo. by rewrite Hd, He, Es, Ec. Qed.

Lemma wp_filter_lock r b o oi (Q : ObjectInfo -> World -> Prop) w :
  may_read r b o -> Q (shown b o oi) w -> wp (filter_lock checkAuth b o oi) Q w.
Proof.
  intros [_ _ _ [c1 E1] [c2 E2]] HQ. unfold filter_lock, shown, denied in *. rewrite E1, E2 in *.
  assert (∀ c, bool_decide (Some c = Some ErrNone) = bool_decide (c = ErrNone)) as Hb.
  { intros c. apply bool_decide_ext. split; congruence. }
  rewrite !Hb in HQ. exact HQ.
Qed.

Lemma runs_read_permission r b o (k : option APIError -> M Response) R w :
  may_read r b o -> runs (k None) R w -> runs (read_permission listAllowed checkAuth r b o ≫= k) R w.
Proof. intros Hr Hk. unfold read_permission. rewrite (mr_get _ _ _ Hr). exact Hk. Qed.

(** The response with content for an object. *)
Definition content_response (r : Request) (rs : option HTTPRangeSpec) (info : ObjectInfo) (header : multimap) (body : bytes) : Response :=
  match condition_response r info header with
  | Some resp => resp
  | None => mkResponse (match rs with Some _ => StatusPartialContent | None => StatusOK end)
              (setHeadGetRespHeaders (URL_Query r) (obj_headers info rs header).1) body
  end.

Lemma wp_get_response (r : Request) (b o : bytes) (rs : option HTTPRangeSpec) (oi : ObjectInfo) (header : multimap) (off len : Z) (Q : (Response + multimap)%type -> World -> Prop) (w : World) :
  may_read r b o -> plain_object oi -> GetOffsetLength rs (oi_Size oi) = (off, len, None) ->
  (let v := shown b o oi in
   match condition_response r v header with
   | Some resp => Q (inl resp) w
   | None => Q (inr (setHeadGetRespHeaders (URL_Query r) (obj_headers v rs header).1)) w
   end) ->
  wp (get_response GlobalKMS ReleaseTag region browser doc order checkAuth r b header o rs oi) Q w.
Proof.
  intros Hr Hp Hg HQ. unfold get_response. apply wp_bind, (wp_filter_lock r); [done|].
  destruct (plain_shown b o oi Hp) as (Hv & _ & Hsize & Hclean). rewrite Hclean.
  destruct (mr_sse _ _ _ Hr) as [Es Ec]. rewrite (decrypt_plain _ _ Hv Es Ec).
  apply wp_bind. unfold lift. apply wp_ret. cbv beta iota zeta in HQ |- *.
  destruct (condition_response r (shown b o oi) header); [by apply wp_ret|].
  assert (set_sse_headers (shown b o oi) (Header r) header = header) as ->.
  { unfold set_sse_headers. destruct Hv as (_ & _ & -> & _). done. }
  destruct Hv as (_ & _ & _ & _ & Ho).
  destruct (content_headers (shown b o oi) rs off len (oi_Size oi) (URL_Query r) header Hsize Hg Ho) as (h' & E & _).
  rewrite E in HQ |- *. by apply wp_ret.
Qed.

(** The answers as functions of the object and its content. *)
Definition get_answer (r : Request) (b o : bytes) (oi : ObjectInfo) (v : bytes) (header : multimap) : Response :=
  let '(rs, err) := request_range r in
  if decide (err = Some errInvalidRange) then error_response r (ToAPIErr ErrInvalidRange) header
  else match GetOffsetLength rs (Z.of_nat (length v)) with
       | (_, _, Some e) => error_response r (toAPIError (Some e)) header
       | (off, len, None) => content_response r rs (shown b o oi) header (slice off len v)
       end.
Definition head_answer (r : Request) (b o : bytes) (oi : ObjectInfo) (size : Z) (header : multimap) : Response :=
  let '(rs, err) := request_range r in
  if decide (err = Some errInvalidRange) then error_status (ToAPIErr ErrInvalidRange) header
  else match GetOffsetLength rs size with
       | (_, _, Some e) =>
           match condition_response r (shown b o oi) header with
           | Some resp => resp
           | None => error_status (toAPIError (Some e)) (obj_headers (shown b o oi) rs header).1
           end
       | (off, len, None) => content_response r rs (shown b o oi) header []
       end.

Lemma wp_send_content (fuel : nat) (rs : option HTTPRangeSpec) (oi : ObjectInfo) (i : nat) (len : Z) (cs : list cleanup) (h : multimap) (fm : fsMetaV1) (v : bytes) (np : Z) (p0 : KConnsPool) (c : Client) (Q : Response -> World -> Prop) (w : World) :
  (2 <= fuel)%nat -> stored_object (view (w_drive w)) (c_Key c) fm v -> oi_Size oi = Z.of_nat (length v) ->
  0 <= c_DataOffset c -> 0 <= len -> c_DataOffset c + len <= Z.of_nat (length v) ->
  pool_at i np p0 (w_pool w) -> kcs (w_pool w) !! i = Some c ->
  (∀ p c', pool_at i np p0 p -> kcs p !! i = Some c' ->
     Q (mkResponse (match rs with Some _ => StatusPartialContent | None => StatusOK end) h (slice (c_DataOffset c) len v)) (set_pool p w)) ->
  wp (send_content fuel rs (mkGetObjectReader oi (Some i) len cs) h) Q w.
Proof.
  intros Hf Hso Hsz Ho Hl Hol Hp Hc HQ. unfold send_content. cbn [gr_client gr_length gr_ObjInfo]. rewrite Hsz. apply wp_bind.
  eapply wp_copy_single; [done|done|done|exact (so_entry _ _ _ _ Hso)|by eapply stored_single|lia|lia|cbn [e_value]; lia|].
  intros p c' Hp' Hc'. cbn [e_value]. apply wp_ret. by eapply HQ.
Qed.

Lemma request_range_wf (r : Request) (rs : option HTTPRangeSpec) (err : option error) :
  request_range r = (rs, err) -> err <> Some errInvalidRange -> ∀ h, rs = Some h -> range_wf h.
Proof. unfold request_range. apply header_wf. Qed.

Lemma runs_GetObjectHandler (fuel : nat) (r : Request) (b o : bytes) (header : multimap) (oi : ObjectInfo) (fm : fsMetaV1) (v : bytes) (w : World) :
  ready w -> small_meta (view (w_drive w)) -> (2 <= fuel)%nat -> b <> [] ->
  HasSuffix o SlashSeparator = false -> rwpool_ok b o -> checkGetObjArgs b o = None -> lockable w b o true ->
  stored_object (view (w_drive w)) (b ++ str "/" ++ o) fm v -> object_info (view (w_drive w)) b o = (oi, None) ->
  plain_object oi -> may_read r b o ->
  runs (Get r b (inl o) header fuel) (λ resp d t, d = w_drive w /\ resp = get_answer r b o oi v header) w.
Proof.
  intros Hw Hm Hf Hb Hdir Hrw Hck Hlk Hso Hinfo Hplain Hr. unfold GetObjectHandler, get_answer.
  rewrite (mr_checks _ _ _ Hr). apply (runs_read_permission r b o); [done|].
  destruct (request_range r) as [rs err] eqn:Err. destruct (decide (err = Some errInvalidRange)) as [He|He]; [by apply runs_ret|].
  pose proof (stored_plain _ _ _ _ _ Hb Hso) as Hps.
  assert (oi_Size oi = Z.of_nat (length v)) as Hsize by (destruct Hps as (fm' & E & _ & Es & _); rewrite Hinfo in E; injection E as ->; done).
  apply (runs_get_defer b o rs (Z.of_nat (length v)) (λ err, error_response r (toAPIError err) header)); try done.
  { by eapply request_range_wf. }
  { intros e ->. done. }
  intros oi' off len i np p0 c w1 cs Q Hinfo' _ Hg Ho Hl Hol Hp Hc Ed Hkey Hoff HQ.
  assert (oi' = oi) as -> by congruence. cbn [gr_ObjInfo]. apply wp_bind.
  eapply (wp_get_response r b o rs oi header off len); [done|done|by rewrite Hsize|]. cbv zeta.
  rewrite Hg in HQ. unfold content_response in HQ.
  destruct (condition_response r (shown b o oi) header) as [resp|] eqn:Ec.
  - apply wp_ret. specialize (HQ resp (w_pool w1) c eq_refl Hp Hc). by destruct w1.
  - eapply (wp_send_content fuel rs oi i len cs _ fm v np p0 c); [done| |done|lia|lia|lia|done|done|].
    + rewrite Ed, Hkey. done.
    + intros p c' Hp' Hc'. eapply HQ; [|done|done]. by rewrite Hoff.
Qed.

Lemma runs_HeadObjectHandler (r : Request) (b o : bytes) (header : multimap) (oi : ObjectInfo) (w : World) :
  ready w -> small_meta (view (w_drive w)) -> lockable w b o true ->
  info_result (view (w_drive w)) b o = (oi, None) -> plain_object oi -> may_read r b o ->
  runs (Head r b (inl o) header) (λ resp d t, d = w_drive w /\ resp = head_answer r b o oi (oi_Size oi) header) w.
Proof.
  intros Hw Hm Hlk Hinfo Hplain Hr. unfold HeadObjectHandler, head_answer.
  rewrite (mr_checks _ _ _ Hr). apply (runs_read_permission r b o); [done|].
  destruct (request_range r) as [rs err] eqn:Err. destruct (decide (err = Some errInvalidRange)) as [He|He]; [by apply runs_ret|].
  eapply runs_bind; [done|by apply (runs_GetObjectInfo b o oi None)|].
  intros [oi' err'] w1 Hw1 Hs1 (Ed & _ & E). injection E as -> ->. rewrite <- Ed.
  unfold head_response. apply wp_bind, (wp_filter_lock r); [done|].
  destruct (plain_shown b o oi Hplain) as (Hv & _ & Hsize & Hclean).
  destruct (mr_sse _ _ _ Hr) as [Es Ec]. rewrite (decrypt_plain _ _ Hv Es Ec). apply wp_bind. unfold lift. apply wp_ret.
  cbv beta iota zeta. rewrite Hclean. pose proof Hv as (_ & _ & Henc & _ & Ho). rewrite Henc. cbn [andb].
  assert (set_sse_headers (shown b o oi) (Header r) header = header) as -> by (unfold set_sse_headers; by rewrite Henc).
  unfold content_response. destruct (GetOffsetLength rs (oi_Size oi)) as [[off len] [e|]] eqn:Hg.
  - destruct (condition_response r (shown b o oi) header); [apply wp_ret; split; [by apply ready_refl|done]|].
    unfold setObjectHeaders. rewrite Hsize, Hg. apply wp_ret; split; [by apply ready_refl|done].
  - destruct (condition_response r (shown b o oi) header); [apply wp_ret; split; [by apply ready_refl|done]|].
    destruct (content_headers (shown b o oi) rs off len (oi_Size oi) (URL_Query r) header Hsize Hg Ho) as (h' & E & _).
    rewrite E. apply wp_ret; split; [by apply ready_refl|done].
Qed.

(** ** What a client sees *)

(** An object with one value that can be read. *)
Record readable (w : World) (b o : bytes) (v : bytes) (oi : ObjectInfo) : Prop := {
  rd_ready : ready w;
  rd_small : small_meta (view (w_drive w));
  rd_lockable : lockable w b o true;
  rd_bucket : b <> [];
  rd_name : HasSuffix o SlashSeparator = false /\ rwpool_ok b o;
  rd_stored : ∃ fm, stored_object (view (w_drive w)) (b ++ str "/" ++ o) fm v;
  rd_info : info_result (view (w_drive w)) b o = (oi, None);
  rd_plain : plain_object oi }.

Lemma readable_info (w : World) (b o v : bytes) (oi : ObjectInfo) :
  readable w b o v oi ->
  checkGetObjArgs b o = None /\ object_info (view (w_drive w)) b o = (oi, None) /\ oi_Size oi = Z.of_nat (length v).
Proof.
  intros [_ _ _ Hb _ [fm Hso] Hinfo _]. unfold info_result in Hinfo.
  destruct (checkGetObjArgs b o); [done|]. destruct (bucket_record _ _); [|done]. split_and!; [done|done|].
  destruct (stored_plain _ _ _ _ _ Hb Hso) as (fm' & E & _ & Es & _). rewrite Hinfo in E. by injection E as ->.
Qed.
Lemma readable_same (w w' : World) (b o v : bytes) (oi : ObjectInfo) :
  ready w' -> same w w' -> w_drive w' = w_drive w -> readable w b o v oi -> readable w' b o v oi.
Proof. intros Hw Hs Ed []. split; rewrite ?Ed; try done. by apply (lockable_same w w'). Qed.

Lemma runs_get (fuel : nat) (r : Request) (b o v : bytes) (header : multimap) (oi : ObjectInfo) (w : World) :
  (2 <= fuel)%nat -> readable w b o v oi -> may_read r b o ->
  runs (Get r b (inl o) header fuel) (λ resp d t, d = w_drive w /\ resp = get_answer r b o oi v header) w.
Proof.
  intros Hf Hrd Hr. destruct (readable_info _ _ _ _ _ Hrd) as (Hck & Hinfo & _). destruct Hrd as [? ? ? ? [? ?] [fm ?] ? ?].
  by eapply (runs_GetObjectHandler fuel r b o header oi fm v).
Qed.

(** A request whose range lies within the object. *)
Definition asks (r : Request) (rs : option HTTPRangeSpec) (size off len : Z) : Prop :=
  ∃ err, request_range r = (rs, err) /\ err <> Some errInvalidRange /\ GetOffsetLength rs size = (off, len, None).

Lemma get_answer_content (r : Request) (b o v : bytes) (oi : ObjectInfo) (header : multimap) (rs : option HTTPRangeSpec) (off len : Z) :
  asks r rs (Z.of_nat (length v)) off len ->
  get_answer r b o oi v header = content_response r rs (shown b o oi) header (slice off len v).
Proof. intros (err & E & He & Hg). unfold get_answer. rewrite E, decide_False, Hg by done. done. Qed.
Lemma head_answer_content (r : Request) (b o v : bytes) (oi : ObjectInfo) (header : multimap) (rs : option HTTPRangeSpec) (off len : Z) :
  asks r rs (Z.of_nat (length v)) off len ->
  head_answer r b o oi (Z.of_nat (length v)) header = content_response r rs (shown b o oi) header [].
Proof. intros (err & E & He & Hg). unfold head_answer. rewrite E, decide_False, Hg by done. done. Qed.

Definition content_status (rs : option HTTPRangeSpec) : Z := match rs with Some _ => StatusPartialContent | None => StatusOK end.

(** The response serves the part of the object from [off], with its headers. *)
Record serves (resp : Response) (info : ObjectInfo) (rs : option HTTPRangeSpec) (off len : Z) (v : bytes) : Prop := {
  sv_status : resp_Status resp = content_status rs;
  sv_body : resp_Body resp = slice off len v;
  sv_length : Z.of_nat (length (resp_Body resp)) = len;
  sv_headers : describes_content info rs off len (Z.of_nat (length v)) (resp_Header resp) }.

Lemma content_served (r : Request) (b o v : bytes) (header : multimap) (oi : ObjectInfo) (rs : option HTTPRangeSpec) (off len : Z) (w : World) :
  readable w b o v oi -> asks r rs (Z.of_nat (length v)) off len ->
  condition_response r (shown b o oi) header = None ->
  serves (content_response r rs (shown b o oi) header (slice off len v)) (shown b o oi) rs off len v.
Proof.
  intros Hrd Ha Hc. destruct (readable_info _ _ _ _ _ Hrd) as (_ & _ & Hsz).
  destruct (plain_shown b o oi (rd_plain _ _ _ _ _ Hrd)) as (Hv & _ & Hsize & _). destruct Hv as (_ & _ & _ & _ & Ho).
  destruct Ha as (err & E & He & Hg). rewrite Hsz in Hsize.
  assert (0 <= off /\ 0 <= len /\ off + len <= Z.of_nat (length v)) as (H1' & H2' & H3').
  { destruct (rd_stored _ _ _ _ _ Hrd) as [fm Hso]. pose proof (so_value _ _ _ _ Hso).
    eapply (GetOffsetLength_bounds rs); [by eapply request_range_wf|unfold int64_max; lia|done]. }
  destruct (content_headers (shown b o oi) rs off len _ (URL_Query r) header Hsize Hg Ho) as (h' & Eh & Hd).
  unfold content_response. rewrite Hc, Eh. split; cbn [resp_Status resp_Body resp_Header fst]; try done.
  by apply slice_length.
Qed.

(** C8. GET of an object that is stored as one value (not in parts), neither
    encrypted nor compressed, and that may be read, with a range within it or with
    none, and whose preconditions hold, answers 200, or 206 for a range, with
    the bytes of the range as body; Content-Length is the number of bytes of that
    body, Content-Range its place in the object, ETag and Last-Modified
    those of the object.  The drive is as it was. *)
Theorem get_describes_content (fuel : nat) (r : Request) (b o v : bytes) (header : multimap) (oi : ObjectInfo) (rs : option HTTPRangeSpec) (off len : Z) (w : World) :
  (2 <= fuel)%nat -> readable w b o v oi -> may_read r b o -> asks r rs (Z.of_nat (length v)) off len ->
  checkPreconditions (Method r) (Header r) oi = Proceed ->
  runs (Get r b (inl o) header fuel) (λ resp d t, d = w_drive w /\ serves resp (shown b o oi) rs off len v) w.
Proof.
  intros Hf Hrd Hr Ha Hp. eapply runs_mono; [by apply (runs_get fuel r b o v header oi w)|].
  cbn beta. intros resp d t [-> ->]. split; [done|]. erewrite get_answer_content by done.
  eapply content_served; [done|done|]. unfold precondition_response, shown. 
  change (checkPreconditions (Method r) (Header r) (set_UserDefined _ oi)) with (checkPreconditions (Method r) (Header r) oi). by rewrite Hp.
Qed.

(** HEAD instead of GET. *)
Definition head_request (r : Request) : Request :=
  mkRequest (str "HEAD") (URL_Path r) (URL_RawQuery r) (Header r) (Host r) (TransferEncoding r) (ContentLength r) (RequestURI r) (RemoteAddr r) (TLS r).
Definition without_content (resp : Response) : Response :=
  mkResponse (resp_Status resp) (resp_Header resp)
    (if bool_decide (resp_Status resp ∈ [StatusOK; StatusPartialContent]) then [] else resp_Body resp).

Lemma condition_head (r : Request) (info : ObjectInfo) (header : multimap) :
  Method r = str "GET" -> condition_response (head_request r) info header = condition_response r info header.
Proof. intros Hm. unfold precondition_response. rewrite Hm. reflexivity. Qed.

Lemma content_without (r : Request) (rs : option HTTPRangeSpec) (info : ObjectInfo) (header : multimap) (body : bytes) :
  Method r = str "GET" ->
  content_response (head_request r) rs info header [] = without_content (content_response r rs info header body).
Proof.
  intros Hm. unfold content_response. rewrite condition_head by done.
  change (URL_Query (head_request r)) with (URL_Query r). unfold precondition_response.
  destruct (checkPreconditions (Method r) (Header r) info); [by destruct rs|done..].
Qed.

(** C36. HEAD of an object that is stored as one value is GET without the
    content: for a range within the
    object, or none, and with the same permissions, the response to HEAD has the
    status and all the headers of the response to GET, and no content; when
    GET says that the object was not modified or that a precondition failed, HEAD
    says the same.  Neither changes the drive. *)
Theorem head_agrees (fuel : nat) (r : Request) (b o v : bytes) (header : multimap) (oi : ObjectInfo) (rs : option HTTPRangeSpec) (off len : Z) (w : World) :
  (2 <= fuel)%nat -> readable w b o v oi -> may_read r b o -> Method r = str "GET" -> asks r rs (Z.of_nat (length v)) off len ->
  ∃ resp, runs (Get r b (inl o) header fuel) (λ a d t, d = w_drive w /\ a = resp) w /\
    runs (Head (head_request r) b (inl o) header) (λ a d t, d = w_drive w /\ a = without_content resp) w.
Proof.
  intros Hf Hrd Hr Hm Ha. exists (get_answer r b o oi v header). split; [by apply runs_get|].
  destruct (readable_info _ _ _ _ _ Hrd) as (_ & _ & Hsz).
  assert (may_read (head_request r) b o) as Hr' by (by destruct Hr; split).
  rewrite (get_answer_content r b o v oi header rs off len) by done.
  rewrite <- (content_without r rs _ _ _ Hm), <- (head_answer_content (head_request r) b o v oi header rs off len), <- Hsz by done.
  destruct Hrd. by apply runs_HeadObjectHandler.
Qed.

(** The conditions of a request, each of them left out or a validator of the
    response. *)
Definition response_header (resp : Response) (k : bytes) : bytes := default [] (resp_Header resp !! k ≫= head).
Definition sends_back (resp : Response) (h : multimap) : Prop :=
  (Header_Get h IfModifiedSince = [] \/ Header_Get h IfModifiedSince = response_header resp xhttp_LastModified) /\
  (Header_Get h IfUnmodifiedSince = [] \/ Header_Get h IfUnmodifiedSince = response_header resp xhttp_LastModified) /\
  (Header_Get h IfMatch = [] \/ Header_Get h IfMatch = response_header resp xhttp_ETag) /\
  (Header_Get h IfNoneMatch = [] \/ Header_Get h IfNoneMatch = response_header resp xhttp_ETag).

Lemma sent_back_validators (resp : Response) (info : ObjectInfo) (rs : option HTTPRangeSpec) (off len : Z) (v : bytes) (h : multimap) :
  oi_ETag info <> [] -> serves resp info rs off len v -> sends_back resp h -> validators info h.
Proof.
  intros He Hs. unfold sends_back, response_header. rewrite (dc_time _ _ _ _ _ _ (sv_headers _ _ _ _ _ _ Hs)).
  by rewrite (dc_etag _ _ _ _ _ _ (sv_headers _ _ _ _ _ _ Hs) He).
Qed.

(** The answer to a request with validators of the object. *)
Lemma answer_validators (r : Request) (b o v : bytes) (header : multimap) (oi : ObjectInfo) (rs : option HTTPRangeSpec) (off len : Z) (w : World) :
  readable w b o v oi -> Method r = str "GET" -> valid_info oi -> validators (shown b o oi) (Header r) ->
  asks r rs (Z.of_nat (length v)) off len ->
  let resp := get_answer r b o oi v header in
  if decide (if_changed (Header r)) then resp_Status resp = StatusNotModified /\ resp_Body resp = []
  else serves resp (shown b o oi) rs off len v.
Proof.
  intros Hrd Hm Hv Hval Ha resp. unfold resp. erewrite get_answer_content by done.
  assert (checkPreconditions (Method r) (Header r) (shown b o oi) = if decide (if_changed (Header r)) then NotModified else Proceed) as Hp.
  { apply validators_decide; [by left|exact Hv|done]. }
  destruct (decide (if_changed (Header r))) as [Hc|Hc].
  - unfold content_response, precondition_response. rewrite Hp. done.
  - eapply content_served; [done|done|]. unfold precondition_response. by rewrite Hp.
Qed.

(** C35. A client may keep what it got: after a GET that served an object stored
    as one value, a
    second GET whose conditions are the ETag and the Last-Modified of
    that response (any of them, in If-Match, If-None-Match,
    If-Modified-Since or If-Unmodified-Since) is answered 304 without
    content if it asks for the object only if it has changed, and with the
    content otherwise. *)
Theorem revalidation (fuel : nat) (r : Request) (next : Response -> Request) (b o v : bytes) (header : multimap) (oi : ObjectInfo)
    (rs rs' : option HTTPRangeSpec) (off len off' len' : Z) (w : World) :
  (2 <= fuel)%nat -> readable w b o v oi -> valid_info oi -> oi_ETag oi <> [] ->
  may_read r b o -> asks r rs (Z.of_nat (length v)) off len -> checkPreconditions (Method r) (Header r) oi = Proceed ->
  (∀ resp, may_read (next resp) b o /\ Method (next resp) = str "GET" /\ sends_back resp (Header (next resp)) /\
           asks (next resp) rs' (Z.of_nat (length v)) off' len') ->
  runs (resp ← Get r b (inl o) header fuel; resp' ← Get (next resp) b (inl o) header fuel; mret (resp, resp'))
    (λ a d t, d = w_drive w /\ serves a.1 (shown b o oi) rs off len v /\
       if decide (if_changed (Header (next a.1))) then resp_Status a.2 = StatusNotModified /\ resp_Body a.2 = []
       else serves a.2 (shown b o oi) rs' off' len' v) w.
Proof.
  intros Hf Hrd Hv He Hr Ha Hp Hn. pose proof (rd_ready _ _ _ _ _ Hrd) as Hw.
  eapply runs_bind; [done|by apply (runs_get fuel r b o v header oi w)|]. cbn beta. intros resp w1 Hw1 Hs1 [Ed1 Er].
  assert (serves resp (shown b o oi) rs off len v) as Hserve.
  { rewrite Er. erewrite get_answer_content by done. eapply content_served; [done|done|].
    unfold precondition_response. change (checkPreconditions (Method r) (Header r) (shown b o oi)) with (checkPreconditions (Method r) (Header r) oi).
    by rewrite Hp. }
  destruct (Hn resp) as (Hr' & Hm' & Hsb & Ha').
  pose proof (readable_same _ _ _ _ _ _ Hw1 Hs1 Ed1 Hrd) as Hrd1.
  eapply runs_bind; [done|by apply (runs_get fuel (next resp) b o v header oi w1)|]. cbn beta. intros resp' w2 Hw2 Hs2 [Ed2 Er'].
  apply runs_ret; [done|]. cbn [fst snd]. split; [by rewrite Ed2|]. split; [done|]. rewrite Er'.
  eapply (answer_validators (next resp) b o v header oi rs' off' len' w1); try done.
  eapply sent_back_validators; [|exact Hserve|exact Hsb]. exact He.
Qed.
End spec.
