(* ===== verification/PutHandler.v ===== *)
(** * PUT of an object: cmd/object-handlers.go, cmd/handler-utils.go

    [PutObjectHandler], from the checks of the request over the metadata in its
    headers to the object layer and the response; and what a GET shows of an
    object that was put.

    [putAllowed] is [isPutActionAllowed] applied to the request and [opened] what
    the verification of its signature comes to ([Auth]): an error, or the bytes of
    the body, whether their end is reported with the last of them, and the
    announced sum.  [query_error] is the error of [url.ParseQuery], whose values
    are [ParseQuery]; [torder] the order in which its map is iterated.  The body of a
    request that is encrypted or compressed is a branch that is not modelled. *)
From S2P Require Import Prelude GoLib GoText IncStr Errors APIErrors Metadata NsLock Pool Drive World HashReader.
From S2P Require Import HttpRange Client Names Buckets Objects Multipart GoTime GoDate Base64 Credentials Wildcard Condition Policy IamPolicy Iam Bufio Streaming.
From S2P Require Import SignV4 SignV2 PolicySys Jwt Auth ObjectLock LockHandlers Lifecycle Crypto CryptoSpec Encryption GetHandler.
From S2P Require Import ObjectsSpec Encodable ReadSpec GetSpec RoundTrip Session LockHandlersSpec GetHandlerSpec.

(** ** handler-utils.go *)
Definition supportedHeaders : list bytes :=
  [str "content-type"; str "cache-control"; str "content-language"; str "content-encoding"; str "content-disposition";
   AmzStorageClass; AmzObjectTagging; str "expires"].
Definition userMetadataKeyPrefixes : list bytes := [str "X-Amz-Meta-"; str "X-Minio-Meta-"].

(** The first value under a key; a parsed header or query has no empty lists. *)
Definition first_value (vs : list bytes) : bytes := default [] (head vs).

Section metadata.
Context `{UnicodeEnv}.

(** The value of a supported header, under its canonical name or the name itself. *)
Definition supported_value (v : multimap) (name : bytes) : option bytes :=
  match v !! CanonicalHeaderKey name with
  | Some vs => Some (first_value vs)
  | None => first_value <$> v !! name
  end.
Definition extract_supported (v : multimap) (m : strmap) : strmap :=
  foldl (λ m name, match supported_value v name with Some x => <[name := x]> m | None => m end) m supportedHeaders.

Definition is_user_key (key : bytes) : bool :=
  existsb (λ prefix, HasPrefix (ToLower key) (ToLower prefix)) userMetadataKeyPrefixes.
(** Every key is set once, so the order of the map does not matter. *)
Definition user_entries (v : multimap) : strmap := (λ vs, strings.Join vs (str ",")) <$> filter (λ e, is_user_key e.1 = true) v.
Definition extractMetadataFromMap (v : multimap) (m : strmap) : strmap := user_entries v ∪ extract_supported v m.

(** The maps of a request are never nil, so there is no error. *)
Definition extractMetadata (r : Request) : strmap :=
  let metadata := extractMetadataFromMap (URL_Query r) ∅ in
  let metadata := extractMetadataFromMap (Header r) metadata in
  if decide (metadata !! str "content-type" = None)
  then <[str "content-type" := str "application/octet-stream"]> metadata else metadata.
End metadata.

Section tags.
Context (query_error : bytes -> option error) (torder : multimap -> list (bytes * list bytes)).
(** pkg/bucket/object/tagging *)
Definition tagging_FromString (tagStr : bytes) : Tagging + error :=
  match query_error tagStr with
  | Some e => inr e
  | None => inl (mkTagging ((λ e, mkTag e.1 (first_value e.2)) <$> torder (ParseQuery tagStr)))
  end.
Definition extractTags (tags : bytes) : bytes + error :=
  if decide (tags = []) then inl []
  else match tagging_FromString tags with
       | inr e => inr e
       | inl t => match Tagging_Validate t with Some e => inr e | None => inl (Tagging_String t) end
       end.
End tags.

Definition streamingContentEncoding : bytes := str "aws-chunked".
Definition trimAwsChunkedContentEncoding (contentEnc : bytes) : bytes :=
  if decide (contentEnc = []) then contentEnc
  else strings.Join (filter (λ enc, enc <> streamingContentEncoding) (strings.Split contentEnc ","%char)) (str ",").

(** ** utils.go and config/storageclass *)
Definition checkValidMD5 (h : multimap) : option bytes :=
  match h !! ContentMD5 with
  | Some vs => if decide (first_value vs = []) then None else base64.DecodeString true (first_value vs)
  | None => Some []
  end.
Definition globalMaxObjectSize : Z := 5 * 2 ^ 40.
Definition isMaxObjectSize (size : Z) : bool := globalMaxObjectSize <? size.
Definition RRS : bytes := str "REDUCED_REDUNDANCY".
Definition storageclass_IsValid (sc : bytes) : bool := bool_decide (sc = RRS) || bool_decide (sc = STANDARD).

(** ** object-api-utils.go: what is compressed *)
Record compress_Config := mkCompressConfig { Enabled : bool; Extensions : list bytes; MimeTypes : list bytes }.
Definition standardExcludeCompressExtensions : list bytes :=
  [str ".gz"; str ".bz2"; str ".rar"; str ".zip"; str ".7z"; str ".xz"; str ".mp4"; str ".mkv"; str ".mov"].
Definition standardExcludeCompressContentTypes : list bytes :=
  [str "video/*"; str "audio/*"; str "application/zip"; str "application/x-gzip"; str "application/x-zip-compressed";
   str " application/x-compress"; str "application/x-spoon"].
Definition hasStringSuffixInSlice `{UnicodeEnv} (s : bytes) (l : list bytes) : bool :=
  existsb (λ v, HasSuffix (ToLower s) (ToLower v)) l.
Fixpoint hasPattern (patterns : list bytes) (matchStr : bytes) : option bool :=
  match patterns with
  | [] => Some false
  | pattern :: patterns' => ok ← MatchSimple pattern matchStr; if (ok : bool) then Some true else hasPattern patterns' matchStr
  end.
Definition excludeForCompression `{UnicodeEnv} (h : multimap) (object : bytes) (cfg : compress_Config) : option bool :=
  let contentType := Header_Get h xhttp_ContentType in
  if negb (Enabled cfg) then Some true
  else
    std ← (if hasStringSuffixInSlice object standardExcludeCompressExtensions then Some true
           else hasPattern standardExcludeCompressContentTypes contentType);
    if (std : bool) then Some true
    else if decide (Extensions cfg = [] \/ MimeTypes cfg = []) then Some false
    else
      included ← (if hasStringSuffixInSlice object (Extensions cfg) then Some true else hasPattern (MimeTypes cfg) contentType);
      Some (negb included).
Definition isCompressible `{UnicodeEnv} `{UpperEnv} (h : multimap) (object : bytes) (cfg : compress_Config) : option bool :=
  if crypto_IsRequested h then Some false else negb <$> excludeForCompression h object cfg.

(** ** object-handlers.go *)
Definition AmzCopySource : bytes := str "X-Amz-Copy-Source".
Definition AmzDecodedContentLength : bytes := str "X-Amz-Decoded-Content-Length".

Section handler.
Context `{KineticDrive} `{LRWMutex} `{MetaCodec} `{MetaEnv} `{OSEnv} `{UpperEnv} `{UnicodeEnv} `{ScanEnv}.
Context `{DareEnv} `{SigEnv} `{SioEnv} (GlobalKMS : option KMS).
Context (ReleaseTag globalServerRegion : bytes) (globalBrowserEnabled : bool) (errorDocument : APIError -> bytes).
Context (query_error : bytes -> option error) (torder : multimap -> list (bytes * list bytes)).
(** The configuration of the server: object locking, encryption of everything or
    of this bucket, compression, [StrictS3Compat]. *)
Context (initialized encryptionEnabled allowSSEKMS globalWORMEnabled bucketEncryption StrictS3Compat : bool).
Context (table : BucketObjectLockConfig) (globalCompressConfig : compress_Config) (rnd : randomness).
Context (putAllowed : bytes -> option APIErrorCode) (opened : (bytes * bool * bytes) + APIErrorCode) (now0 now1 : option time).
Context (r : Request) (bucket : bytes) (object : bytes + error) (header : multimap).

(** The size of the object: that of the request, or of its decoded body. *)
Definition put_size : Z + APIError :=
  let size :=
    if decide (getRequestAuthType r = authTypeStreamingSigned) then
      match Header r !! AmzDecodedContentLength with
      | Some sizeStr =>
          if decide (first_value sizeStr = []) then inr (ToAPIErr ErrMissingContentLength)
          else let '(size, bad) := ParseInt (first_value sizeStr) in
               if (bad : bool) then inr (toAPIError (Some (errText []))) else inl size
      | None => inl (ContentLength r)
      end
    else inl (ContentLength r) in
  match size with
  | inr e => inr e
  | inl size =>
      if decide (size = -1) then inr (ToAPIErr ErrMissingContentLength)
      else if isMaxObjectSize size then inr (ToAPIErr ErrEntityTooLarge)
      else inl size
  end.

(** The metadata of the request; the encoding of a chunked body is not that of
    the object. *)
Definition put_metadata : strmap + APIError :=
  let metadata := extractMetadata r in
  let tags := Header_Get (Header r) (CanonicalHeaderKey AmzObjectTagging) in
  match (if decide (tags = []) then inl metadata
         else match extractTags query_error torder tags with
              | inr e => inr (toAPIError (Some e))
              | inl t => inl (<[AmzObjectTagging := t]> metadata)
              end) with
  | inr e => inr e
  | inl metadata =>
      inl (if decide (getRequestAuthType r = authTypeStreamingSigned) then
             match metadata !! str "content-encoding" with
             | Some contentEncoding =>
                 let trimmed := trimAwsChunkedContentEncoding contentEncoding in
                 if decide (trimmed = []) then delete (str "content-encoding") metadata
                 else <[str "content-encoding" := trimmed]> metadata
             | None => metadata
             end
           else metadata)
  end.

(** The checks that come before anything else: the object, its size, the
    announced checksum and the metadata. *)
Definition put_checks : (bytes * Z * bytes * strmap) + APIError :=
  if negb initialized then inr (ToAPIErr ErrServerNotInitialized)
  else if S3KMS_IsRequested (Header r) && negb allowSSEKMS then inr (ToAPIErr ErrNotImplemented)
  else if negb encryptionEnabled && crypto_IsRequested (Header r) then inr (ToAPIErr ErrNotImplemented)
  else
    match object with
    | inr e => inr (toAPIError (Some e))
    | inl object =>
        if has_header (Header r) AmzCopySource then inr (ToAPIErr ErrInvalidCopySource)
        else
          let sc := Header_Get (Header r) AmzStorageClass in
          if negb (bool_decide (sc = [])) && negb (storageclass_IsValid sc) then inr (ToAPIErr ErrInvalidStorageClass)
          else
            match checkValidMD5 (Header r) with
            | None => inr (ToAPIErr ErrInvalidDigest)
            | Some md5Bytes =>
                match put_size with
                | inr e => inr e
                | inl size => match put_metadata with inr e => inr e | inl metadata => inl (object, size, md5Bytes, metadata) end
                end
            end
    end.

(** The headers of the request once the encryption of the bucket is in them. *)
Definition put_header : multimap :=
  if bucketEncryption && negb (SSEC_IsRequested (Header r)) && negb (S3KMS_IsRequested (Header r))
  then Header_Add SSEHeader SSEAlgorithmAES256 (Header r) else Header r.

Definition error_answer (e : APIError) : Response :=
  writeErrorResponse ReleaseTag globalServerRegion globalBrowserEnabled errorDocument r e header.

(** The checks of object locking: the metadata with the lock, or the error. *)
Definition put_lock_check (object : bytes) (metadata : strmap) : M (strmap + APIError) :=
  retPerms ← lift (putAllowed PutObjectRetentionAction);
  holdPerms ← lift (putAllowed PutObjectLegalHoldAction);
  info ← match getOpts put_header with
         | Some e => mret (inr e)
         | None => p ← GetObjectInfo bucket object; mret (inl p)
         end;
  let pl := checkPutObjectLockAllowed globalWORMEnabled table put_header bucket info retPerms holdPerms now0 now1 in
  mret (if decide (pl_Err pl = ErrNone) then inl (lock_entries pl metadata) else inr (ToAPIErr (pl_Err pl))).

(** The answer to an object that was stored. *)
Definition put_response (h : multimap) (objInfo : ObjectInfo) : M Response :=
  etag ← lift (if IsCompressed objInfo then
                 Some (if HasSuffix (oi_ETag objInfo) (str "-1") then oi_ETag objInfo else oi_ETag objInfo ++ str "-1")
               else if crypto_IsRequested h then getDecryptedETag GlobalKMS h objInfo false
               else Some (oi_ETag objInfo));
  let resp := <[xhttp_ETag := [quote :: etag ++ [quote]]]> header in
  let resp :=
    if negb (IsEncrypted (oi_UserDefined objInfo)) then resp
    else if S3_IsEncrypted (oi_UserDefined objInfo) then Header_Set SSEHeader SSEAlgorithmAES256 resp
    else if SSEC_IsRequested h
    then Header_Set SSECKeyMD5 (Header_Get h SSECKeyMD5) (Header_Set SSECAlgorithm (Header_Get h SSECAlgorithm) resp)
    else resp in
  mret (writeResponse ReleaseTag globalServerRegion StatusOK None [] resp).

(** Storing the body: locks, encryption, the object layer. *)
Definition put_store (object : bytes) (hashReader : Reader) (metadata : strmap) : M Response :=
  if S3KMS_IsRequested put_header then unmodelled
  else
    match getOpts put_header with
    | Some e => mret (writeErrorResponseHeadersOnly ReleaseTag globalServerRegion (toAPIError (Some e)) header)
    | None =>
        locked ← put_lock_check object metadata;
        match locked with
        | inr e => mret (error_answer e)
        | inl metadata =>
            if crypto_IsRequested put_header && negb (HasSuffix object SlashSeparator) then
              if SSECopy_IsRequested put_header then mret (error_answer (toAPIError (Some errInvalidEncryptionParameters)))
              else
                enc ← lift (EncryptRequest GlobalKMS rnd put_header bucket object metadata);
                match enc with
                | inr e => mret (error_answer (toAPIError (Some e)))
                | inl _ => unmodelled
                end
            else
              '(objInfo, err) ← PutObject bucket object hashReader (Some (RemoveSensitiveEntries metadata));
              match err with
              | Some e => mret (error_answer (toAPIError (Some e)))
              | None => put_response put_header objInfo
              end
        end
    end.

Definition PutObjectHandler : M Response :=
  match put_checks with
  | inr e => mret (error_answer e)
  | inl (object, size, md5Bytes, metadata) =>
      s3Err ← lift (putAllowed PutObjectAction);
      if decide (s3Err <> ErrNone) then mret (error_answer (ToAPIErr s3Err))
      else
        match opened with
        | inr s3Err => mret (error_answer (ToAPIErr s3Err))
        | inl (body, eofWithData, sha256hex) =>
            compress ← lift (isCompressible put_header object globalCompressConfig);
            if compress && (0 <? size) then
              match NewReader body size (hex.EncodeToString md5Bytes) sha256hex size StrictS3Compat eofWithData with
              | inr e => mret (error_answer (toAPIError (Some e)))
              | inl _ => unmodelled
              end
            else
              match NewReader body size (hex.EncodeToString md5Bytes) sha256hex size StrictS3Compat eofWithData with
              | inr e => mret (error_answer (toAPIError (Some e)))
              | inl hashReader => put_store object hashReader metadata
              end
        end
  end.
End handler.

(** ** What comes back of an object that was put *)

(** No error is answered with the status of success. *)
Lemma ToAPIErr_failed c : HTTPStatusCode (ToAPIErr c) <> StatusOK.
Proof.
  pose proof (errorCodes_ok c) as Hc. unfold entry_ok in Hc. unfold ToAPIErr. destruct (errorCodes c) as [e|]; [|done].
  apply andb_prop in Hc as [_ Hc]. apply orb_prop in Hc. unfold StatusOK. lia.
Qed.
Lemma toAPIError_failed `{ScanEnv} e : HTTPStatusCode (toAPIError (Some e)) <> StatusOK.
Proof.
  unfold toAPIError. case_decide; [|apply ToAPIErr_failed].
  destruct (typed_APIError e) as [a|] eqn:Et; [|apply ToAPIErr_failed]. cbn [default from_option id].
  unfold typed_APIError in Et. destruct e; try done; injection Et as <-; cbn [HTTPStatusCode]; done.
Qed.

(** The name of a header with metadata of the client. *)
Definition client_key (k : bytes) : Prop := CanonicalHeaderKey k = k /\ HasPrefix k (str "X-Amz-Meta-") = true.

Lemma user_header_set (entries : list (bytes * bytes)) (h : multimap) (k x : bytes) :
  (∀ e, e ∈ entries -> CanonicalHeaderKey e.1 = k -> e = (k, x)) -> client_key k ->
  (k, x) ∈ entries \/ h !! k = Some [x] -> set_user_headers entries h !! k = Some [x].
Proof.
  intros Hu [Hk Hp]. assert (HasPrefix k ReservedMetadataPrefix = false) as Hr.
  { unfold HasPrefix in *. apply bool_decide_eq_false. apply bool_decide_eq_true in Hp as [s ->]. intros [t E]. vm_compute in E. discriminate. }
  revert h. unfold set_user_headers. induction entries as [|e entries IH]; intros h Hin.
  { destruct Hin as [Hin|Hin]; [by apply not_elem_of_nil in Hin|done]. }
  cbn [foldl]. apply IH; [intros e' He'; apply Hu; by right|].
  destruct (decide (CanonicalHeaderKey e.1 = k)) as [Ek|Ek].
  - rewrite (Hu e) by (done || by left). cbn [fst snd]. rewrite Hr. right. rewrite Header_Set_lookup, Hk. by rewrite decide_True.
  - destruct Hin as [Hin|Hin].
    + apply elem_of_cons in Hin as [<-|Hin]; [by cbn in Ek|by left].
    + right. destruct (HasPrefix e.1 _); [done|]. by rewrite Header_Set_other by congruence.
Qed.

(** Names that are not those of a client's metadata. *)
Lemma not_client_key (k c : bytes) : client_key k -> HasPrefix c (str "X-Amz-Meta-") = false -> k <> c.
Proof. intros [_ Hp] Hc ->. by rewrite Hp in Hc. Qed.
Ltac other_key := match goal with Hk : client_key ?k |- ?k <> _ => apply (not_client_key _ _ Hk); vm_compute; reflexivity end.

Lemma filter_lock_keeps `{UpperEnv} `{UnicodeEnv} `{ScanEnv} (m : strmap) (f1 f2 : bool) (k : bytes) : client_key k -> FilterObjectLockMetadata m f1 f2 !! k = m !! k.
Proof.
  intros Hk. unfold FilterObjectLockMetadata. cbv zeta.
  assert (∀ c d, c ∈ [AmzObjectLockMode; AmzObjectLockRetainUntilDate; AmzObjectLockLegalHold] -> delKey m c d !! k = d !! k) as Hd.
  { intros c d Hc. assert (k <> c) as Hne.
    { apply (not_client_key _ _ Hk). revert c Hc. apply Forall_forall. repeat constructor. }
    unfold delKey. case_match; [|done]. by apply lookup_delete_ne. }
  repeat case_match; rewrite ?Hd by set_solver; done.
Qed.

Lemma clean_keeps `{MetaEnv} (m : option strmap) (o k : bytes) :
  client_key k -> HasSuffix o SlashSeparator = false -> cleanMetadata (objectMeta m o) !! k = default ∅ m !! k.
Proof.
  intros Hk Ho. unfold cleanMetadata, cleanMetadataKeys.
  assert (k ∉ [str "md5Sum"; str "etag"; str "expires"; AmzObjectTagging]) as N1.
  { intros Hin. rewrite !elem_of_cons, elem_of_nil in Hin. destruct Hin as [E|[E|[E|[E|[]]]]]; apply (not_client_key _ _ Hk) in E; done. }
  assert (k <> AmzStorageClass) as N2 by other_key. assert (k <> str "content-type") as N3 by other_key.
  transitivity (removeStandardStorageClass (objectMeta m o) !! k).
  - apply option_eq. intros x. rewrite map_lookup_filter_Some. cbn. tauto.
  - unfold removeStandardStorageClass. case_decide; rewrite ?lookup_delete_ne by done; apply objectMeta_lookup; auto.
Qed.

(** The keys that a PUT and the conversion to [ObjectInfo] add are ordinary. *)
Lemma info_ordinary `{MetaEnv} (m : option strmap) (o : bytes) :
  HasSuffix o SlashSeparator = false -> ordinary (default ∅ m) -> ordinary (cleanMetadata (objectMeta m o)).
Proof.
  intros Ho Hm k [x Hx]. pose proof (lookup_weaken _ _ _ _ Hx (cleanMetadata_subseteq _)) as Hx'.
  destruct (decide (k = str "content-type")) as [->|Hk]; [by vm_compute|].
  rewrite objectMeta_lookup in Hx' by auto. apply Hm. eauto.
Qed.
Lemma put_ordinary (o : bytes) (m : strmap) (size : Z) (version etag : bytes) (now : time) :
  ordinary m -> ordinary (default ∅ (Meta (put_fsMeta o m size version etag now))).
Proof.
  intros Hm k Hx. unfold put_fsMeta in Hx. cbn [Meta set_KoInfo set_Meta default from_option id] in Hx.
  destruct (decide (k ∈ [str "size"; str "etag"; str "version"])) as [Hin|Hin].
  - clear Hx. revert k Hin. apply Forall_forall. repeat constructor; by vm_compute.
  - rewrite !not_elem_of_cons in Hin. apply Hm. rewrite !lookup_insert_ne in Hx by naive_solver. done.
Qed.

Section spec.
Context `{KineticDrive} `{LRWMutex} `{MetaCodec} `{MetaEnv} `{OSEnv} `{UpperEnv} `{UnicodeEnv} `{ScanEnv}.
Context `{DareEnv} `{SigEnv} `{SioEnv} (GlobalKMS : option KMS).
Context (ReleaseTag region : bytes) (browser : bool) (doc : APIError -> bytes) (order : strmap -> list (bytes * bytes)).
Context (order_perm : ∀ m, order m ≡ₚ map_to_list m).
Context `{!KineticDriveSpec _} `{!LRWMutexLaws _} `{!MetaCodecLaws _}.
(** The server. *)
Context (query_error : bytes -> option error) (torder : multimap -> list (bytes * list bytes)).
Context (initialized encryptionEnabled allowSSEKMS worm bucketEncryption strict listAllowed : bool).
Context (table : BucketObjectLockConfig) (cfg : compress_Config) (rnd : randomness).
Context (checkAuth : bytes -> bytes -> bytes -> option APIErrorCode) (putAllowed : bytes -> option APIErrorCode).

(** What a stored object shows. *)
Lemma stored_shown (m : gmap bytes entry) (b o : bytes) (fm : fsMetaV1) (v : bytes) :
  b <> [] -> HasSuffix o SlashSeparator = false -> stored_object m (b ++ str "/" ++ o) fm v -> ordinary (default ∅ (Meta fm)) ->
  ∃ oi, object_info m b o = (oi, None) /\ plain_object oi /\
    (∀ k, client_key k -> default ∅ (oi_UserDefined oi) !! k = default ∅ (Meta fm) !! k) /\
    (∀ k, is_Some (default ∅ (oi_UserDefined oi) !! k) -> k = str "content-type" \/ is_Some (default ∅ (Meta fm) !! k)).
Proof.
  intros Hb Ho Hso Hord. destruct Hso as [He _ _ Henc Hparts _ Hpl].
  exists (info_of (json_overlay fm (set_Meta zeroFsMeta (Some ∅))) b o).
  destruct (json_overlay_fresh fm (set_Meta zeroFsMeta (Some ∅)) eq_refl eq_refl) as (Em & _).
  unfold object_info, info_key. rewrite decide_False, He by done. cbn [e_meta]. rewrite json_roundtrip by auto.
  assert (plain_meta (Meta (json_overlay fm (set_Meta zeroFsMeta (Some ∅))))) as Hp2.
  { intros k Hk. specialize (Hpl k Hk). apply has_key_spec in Hpl. apply has_key_spec. exact (eq_trans (f_equal (λ m : strmap, m !! k) Em) Hpl). }
  destruct (plain_info _ b o Hp2) as [Hi Hc]. split; [done|]. split; [|split].
  - split_and!; [done|done|done| |apply info_ordinary; [done|intros k [x Hx]; apply Hord; exists x; rewrite <- Hx; exact (f_equal (λ m : strmap, m !! k) (eq_sym Em))]].
    unfold IsCompressedOK in Hc. unfold IsCompressed. apply has_key_spec. destruct (default ∅ _ !! _); [|done]. by repeat case_match.
  - intros k Hk. unfold info_of, KVInfoToObjectInfo. cbn [oi_UserDefined default from_option id].
    rewrite clean_keeps by done. exact (f_equal (λ m : strmap, m !! k) Em).
  - intros k [x Hx]. unfold info_of, KVInfoToObjectInfo in Hx. cbn [oi_UserDefined default from_option id] in Hx.
    pose proof (lookup_weaken _ _ _ _ Hx (cleanMetadata_subseteq _)) as Hx'.
    destruct (decide (k = str "content-type")) as [->|Hk]; [by left|right]. exists x.
    rewrite objectMeta_lookup in Hx' by auto. rewrite <- Hx'. exact (f_equal (λ m : strmap, m !! k) (eq_sym Em)).
Qed.

(** The metadata of a client in the headers of a response. *)
Lemma content_user_header (b o : bytes) (oi : ObjectInfo) (rs : option HTTPRangeSpec) (params h : multimap) (k x : bytes) :
  client_key k -> default ∅ (oi_UserDefined oi) !! k = Some x ->
  (∀ k', is_Some (default ∅ (oi_UserDefined oi) !! k') -> CanonicalHeaderKey k' = k -> k' = k) ->
  setHeadGetRespHeaders params (setObjectHeaders ReleaseTag region order (shown checkAuth b o oi) rs h).1 !! k = Some [x].
Proof.
  intros Hk Hx Hu. rewrite resp_params_other.
  2:{ intros Hin. unfold supportedHeadGetReqParams in Hin. cbn in Hin. rewrite !elem_of_cons, elem_of_nil in Hin.
      destruct Hin as [E|[E|[E|[E|[E|[E|[]]]]]]]; apply (not_client_key _ _ Hk) in E; done. }
  assert (set_info_headers ReleaseTag region order (shown checkAuth b o oi) h !! k = Some [x]) as Hi.
  { unfold set_info_headers. apply user_header_set; [|done|left].
    - intros [k' x'] Hin Ek. rewrite (order_perm _) in Hin. apply elem_of_map_to_list in Hin. cbn in Hin, Ek.
      pose proof (lookup_weaken _ _ _ _ Hin (filter_lock_subseteq _ _ _)) as Hin'.
      assert (k' = k) as -> by (apply Hu; eauto). rewrite filter_lock_keeps in Hin by done. congruence.
    - rewrite (order_perm _). apply elem_of_map_to_list. cbn. by rewrite filter_lock_keeps. }
  unfold setObjectHeaders. destruct (response_size _) as [total|e]; [|done].
  destruct (GetOffsetLength rs total) as [[start len] [e|]]; [done|]. cbn [fst].
  assert (k <> CanonicalHeaderKey xhttp_ContentRange) by other_key. assert (k <> CanonicalHeaderKey xhttp_ContentLength) by other_key.
  destruct rs; rewrite ?Header_Set_other by done; done.
Qed.

(** The headers of the request reach the metadata that is stored. *)
Lemma stored_user_key (r : Request) (metadata : strmap) (pl : put_lock) (k : bytes) (vs : list bytes) :
  put_metadata query_error torder r = inl metadata -> client_key k -> is_user_key k = true -> Header r !! k = Some vs ->
  RemoveSensitiveEntries (lock_entries pl metadata) !! k = Some (strings.Join vs (str ",")).
Proof.
  intros Hm Hk Hu Hv. assert (metadata !! k = Some (strings.Join vs (str ","))) as Hx.
  { assert (extractMetadata r !! k = Some (strings.Join vs (str ","))) as Ee.
    { unfold extractMetadata. cbv zeta. assert (str "content-type" <> k) by (apply not_eq_sym; other_key).
      assert (∀ m, extractMetadataFromMap (Header r) m !! k = Some (strings.Join vs (str ","))) as Hf.
      { intros m. unfold extractMetadataFromMap, user_entries. apply lookup_union_Some_l.
        rewrite lookup_fmap, fmap_Some. exists vs. split; [|done]. by apply map_lookup_filter_Some. }
      case_decide; rewrite ?lookup_insert_ne by done; apply Hf. }
    assert (AmzObjectTagging <> k) by (apply not_eq_sym; other_key). assert (str "content-encoding" <> k) by (apply not_eq_sym; other_key).
    unfold put_metadata in Hm. cbv zeta in Hm.
    repeat (case_decide || case_match); simplify_eq; rewrite ?lookup_delete_ne, ?lookup_insert_ne by done; done. }
  unfold RemoveSensitiveEntries. rewrite !lookup_delete_ne by (apply not_eq_sym; other_key). unfold lock_entries. cbv zeta.
  repeat case_match; rewrite ?lookup_insert_ne by (apply not_eq_sym; other_key); done.
Qed.

Abbreviation Put := (PutObjectHandler GlobalKMS ReleaseTag region browser doc query_error torder initialized encryptionEnabled allowSSEKMS worm bucketEncryption strict table cfg rnd putAllowed).
Abbreviation Get := (GetObjectHandler GlobalKMS ReleaseTag region browser doc order initialized encryptionEnabled listAllowed checkAuth).
Abbreviation put_headers := (put_header bucketEncryption).

(** A request with a good body that is neither encrypted nor compressed and may
    put the object. *)
Record may_put (r : Request) (o : bytes) (opened : (bytes * bool * bytes) + APIErrorCode) (metadata : strmap) (hr : Reader) : Prop := {
  mp_body : ∃ body eof sha size md5, opened = inl (body, eof, sha) /\
    put_checks query_error torder initialized encryptionEnabled allowSSEKMS r (inl o) = inl (o, size, md5, metadata) /\
    NewReader body size (hex.EncodeToString md5) sha size strict eof = inl hr;
  mp_reader : reader_ok hr;
  mp_plain : crypto_IsRequested (put_headers r) = false /\ isCompressible (put_headers r) o cfg = Some false;
  mp_allowed : putAllowed PutObjectAction = Some ErrNone;
  mp_retention : is_Some (putAllowed PutObjectRetentionAction);
  mp_hold : is_Some (putAllowed PutObjectLegalHoldAction) }.

Lemma mp_metadata (r : Request) (o : bytes) (opened : (bytes * bool * bytes) + APIErrorCode) (metadata : strmap) (hr : Reader) :
  may_put r o opened metadata hr -> put_metadata query_error torder r = inl metadata.
Proof.
  intros [(body & eof & sha & size & md5 & _ & Ec & _) _ _ _ _ _]. unfold put_checks in Ec. cbv zeta in Ec. by repeat case_match; simplify_eq.
Qed.

(** The lock of the new object, from what is there of the old one. *)
Definition put_lock_of (m : gmap bytes entry) (now0 now1 : option time) (r : Request) (b o : bytes) : put_lock :=
  let '(oi, err) := info_result m b o in
  checkPutObjectLockAllowed worm table (put_headers r) b (inl (oi, toObjectErr err [b; o]))
    (default ErrNone (putAllowed PutObjectRetentionAction)) (default ErrNone (putAllowed PutObjectLegalHoldAction)) now0 now1.
Definition put_stored (m : gmap bytes entry) (now0 now1 : option time) (r : Request) (b o : bytes) (metadata : strmap) : strmap :=
  RemoveSensitiveEntries (lock_entries (put_lock_of m now0 now1 r b o) metadata).

Lemma plain_opts (h : multimap) : crypto_IsRequested h = false -> getOpts h = None /\ S3KMS_IsRequested h = false.
Proof.
  unfold crypto_IsRequested. rewrite !orb_false_iff. intros (((_ & Hc) & _) & Hk). unfold getOpts. by rewrite Hc.
Qed.

Lemma error_answer_failed (r : Request) (e : APIError) (header : multimap) :
  HTTPStatusCode e <> StatusOK -> resp_Status (error_answer ReleaseTag region browser doc r header e) <> StatusOK.
Proof. intros He. unfold error_answer, writeErrorResponse. cbv zeta. by repeat case_match. Qed.

Lemma runs_put_lock_check (r : Request) (b o : bytes) (metadata : strmap) (now0 now1 : option time) (w : World) :
  ready w -> small_meta (view (w_drive w)) -> lockable w b o true ->
  (info_result (view (w_drive w)) b o).2 <> Some errCorruptedFormat -> (info_result (view (w_drive w)) b o).2 <> Some io_EOF ->
  crypto_IsRequested (put_headers r) = false ->
  is_Some (putAllowed PutObjectRetentionAction) -> is_Some (putAllowed PutObjectLegalHoldAction) ->
  runs (put_lock_check worm bucketEncryption table putAllowed now0 now1 r b o metadata)
    (λ a d t, d = w_drive w /\ t = w_tick w /\ let pl := put_lock_of (view (w_drive w)) now0 now1 r b o in
       a = if decide (pl_Err pl = ErrNone) then inl (lock_entries pl metadata) else inr (ToAPIErr (pl_Err pl))) w.
Proof.
  intros Hw Hm Hl He1 He2 Hc [rp Hrp] [hp Hhp]. unfold put_lock_check, put_lock_of. rewrite Hrp, Hhp. cbn [default from_option id].
  destruct (info_result (view (w_drive w)) b o) as [oi err] eqn:Hi. cbn [snd] in He1, He2.
  destruct (plain_opts _ Hc) as [-> _].
  apply wp_bind. unfold lift. apply wp_ret. apply wp_bind, wp_ret. apply wp_bind, wp_bind.
  eapply wp_mono; [by apply (runs_GetObjectInfo b o oi err)|]. cbn beta. intros p w1 (Hs & Ed & Et & ->). apply wp_ret, wp_ret. done.
Qed.

(** What is known of the object before the request. *)
Record putable (w : World) (b o : bytes) : Prop := {
  pu_ready : ready w;
  pu_small : small_meta (view (w_drive w));
  pu_lockable : lockable w b o true;
  pu_info : (info_result (view (w_drive w)) b o).2 <> Some errCorruptedFormat /\ (info_result (view (w_drive w)) b o).2 <> Some io_EOF }.

Lemma runs_PutObjectHandler (r : Request) (b o : bytes) (header : multimap) (opened : (bytes * bool * bytes) + APIErrorCode)
    (metadata : strmap) (hr : Reader) (now0 now1 : option time) (w : World) :
  let stored := put_stored (view (w_drive w)) now0 now1 r b o metadata in
  putable w b o -> may_put r o opened metadata hr -> put_fits w b o hr (Some stored) ->
  runs (Put opened now0 now1 r b (inl o) header) (λ resp d t,
    (resp_Status resp <> StatusOK /\ view d = view (w_drive w)) \/
    (resp_Status resp = StatusOK /\ put_allowed w b o (r_size hr) /\ r_size hr <= blockSizeV1 /\
     view d = <[CString (b ++ str "/" ++ o) :=
       mkEntry (json_Marshal (next_meta (view (w_drive w)) (w_tick w) b o hr (Some stored))) (r_src hr)]> (view (w_drive w)))) w.
Proof.
  intros stored [Hw Hm Hl [He1 He2]] [(body & eof & sha & size & md5 & Eo & Ec & Er) Hok [Hcr Hco] Ha Hrp Hhp] Hf.
  unfold PutObjectHandler. rewrite Ec, Eo. eapply runs_lift_bind; [exact Ha|]. rewrite decide_False by tauto.
  eapply runs_lift_bind; [exact Hco|]. cbn [andb]. rewrite Er. unfold put_store.
  destruct (plain_opts _ Hcr) as [-> ->]. eapply runs_bind; [done|by apply runs_put_lock_check|].
  cbn beta. intros locked w1 Hw1 Hs1 (Ed & Et & ->). cbv zeta. set (pl := put_lock_of _ _ _ _ _ _) in *.
  case_decide as Hpl.
  2:{ apply runs_ret; [done|]. left. split; [apply error_answer_failed, ToAPIErr_failed|by rewrite Ed]. }
  rewrite Hcr. cbn [andb]. fold stored. unfold put_fits in Hf. rewrite <- Ed, <- Et in Hf |- *.
  eapply runs_bind; [done|by apply (put_outcome w1 b o hr (Some stored)); rewrite ?Ed|]. cbn beta.
  intros [oi err] w2 Hw2 Hs2 [(e & E & Hv)|(Hal & Hbl & Hno & _ & Hv)]; cbn [fst snd] in *.
  - injection E as -> ->. apply runs_ret; [done|]. left. split; [apply error_answer_failed, toAPIError_failed|done].
  - subst err. unfold put_response. rewrite Hcr.
    destruct (IsCompressed oi); (eapply runs_lift_bind; [reflexivity|]; apply runs_ret; [done|]; right;
      split; [done|]; split; [|by split]; destruct Hal as [Hb Hlk]; split; [|by apply (lockable_same _ _ _ _ _ Hs1)];
      destruct Hb as [[Hb1 Hb2] Hn]; split; [split; [by apply (lockable_same _ _ _ _ _ Hs1)|by rewrite <- Ed]|done]).
Qed.

(** A request without preconditions. *)
Definition unconditional (h : multimap) : Prop :=
  Header_Get h IfModifiedSince = [] /\ Header_Get h IfUnmodifiedSince = [] /\ Header_Get h IfMatch = [] /\ Header_Get h IfNoneMatch = [].
Lemma unconditional_proceeds (method : bytes) (h : multimap) (oi : ObjectInfo) :
  unconditional h -> checkPreconditions method h oi = Proceed.
Proof.
  intros (E1 & E2 & E3 & E4). unfold checkPreconditions, header_time. rewrite E1, E2, E3, E4. by repeat case_match.
Qed.

(** The object that the PUT leaves can be read. *)
Lemma put_readable (w w1 : World) (b o : bytes) (hr : Reader) (stored : strmap) :
  clock_ok -> ready w -> ready w1 -> same w w1 -> small_meta (view (w_drive w)) -> put_fits w b o hr (Some stored) -> put_allowed w b o (r_size hr) ->
  bucket_name_ok b -> object_name_ok o -> rwpool_ok b o -> checkGetObjArgs b o = None -> r_size hr <= blockSizeV1 ->
  reader_ok hr -> user_meta_ok (Some stored) -> ordinary stored ->
  view (w_drive w1) = <[CString (b ++ str "/" ++ o) :=
    mkEntry (json_Marshal (next_meta (view (w_drive w)) (w_tick w) b o hr (Some stored))) (r_src hr)]> (view (w_drive w)) ->
  ∃ oi, readable w1 b o (r_src hr) oi /\
    ∀ k x, client_key k -> stored !! k = Some x -> (∀ k', is_Some (stored !! k') -> CanonicalHeaderKey k' = k -> k' = k) ->
      default ∅ (oi_UserDefined oi) !! k = Some x /\
      ∀ k', is_Some (default ∅ (oi_UserDefined oi) !! k') -> CanonicalHeaderKey k' = k -> k' = k.
Proof.
  intros Hcl Hw Hw1 Hs1 Hm Hf Hal Hb Ho Hrw Hck Hbl [Hlen _] Hu Hord Hv. pose proof Hal as [[[_ Hbk] Hname] Hlk].
  destruct (put_world w w1 b o hr (Some stored)) as (Hm1 & Hl1 & Hrec); try done; [by apply object_key_no_nul|].
  assert (stored_object (view (w_drive w1)) (b ++ str "/" ++ o) (next_meta (view (w_drive w)) (w_tick w) b o hr (Some stored)) (r_src hr)) as Hso.
  { apply next_meta_stored; [done|by eapply put_name_utf8|done|lia|lia|done|]. rewrite Hv. apply lookup_insert_eq. }
  destruct (stored_shown _ _ _ _ _ (proj1 Hb) (proj2 Ho) Hso) as (oi & Hoi & Hplain & Hkeys & Hin); [by apply put_ordinary|].
  exists oi. split.
  - split; try done; [apply Hb|by split; [apply Ho|]|eauto|]. unfold info_result. rewrite Hck, Hrec. by destruct Hbk as [? ->].
  - intros k x Hk Hx Huniq. split.
    + rewrite Hkeys by done. unfold next_meta, put_fsMeta. cbn [Meta set_KoInfo set_Meta default from_option id].
      rewrite !lookup_insert_ne by (apply not_eq_sym; other_key). done.
    + intros k' Hk' Ek. destruct (decide (k' ∈ [str "content-type"; str "size"; str "etag"; str "version"])) as [Hadd|Hadd].
      * exfalso. assert (CanonicalHeaderKey k' <> k) as Hne; [|done]. apply not_eq_sym. apply (not_client_key _ _ Hk).
        clear -Hadd. revert k' Hadd. apply Forall_forall. repeat constructor.
      * rewrite !not_elem_of_cons in Hadd. destruct (Hin k' Hk') as [->|Hm']; [naive_solver|]. apply Huniq; [|done].
        unfold next_meta, put_fsMeta in Hm'. cbn [Meta set_KoInfo set_Meta default from_option id] in Hm'.
        rewrite !lookup_insert_ne in Hm' by naive_solver. done.
Qed.

(** A PUT and then, if it is answered with success, a GET. *)
Definition put_and_get (fuel : nat) (r r' : Request) (b o : bytes) (header header' : multimap)
    (opened : (bytes * bool * bytes) + APIErrorCode) (now0 now1 : option time) : M (Response * option Response) :=
  resp ← Put opened now0 now1 r b (inl o) header;
  if decide (resp_Status resp = StatusOK) then resp' ← Get r' b (inl o) header' fuel; mret (resp, Some resp')
  else mret (resp, None).

(** The header of a response for a header of metadata in the request. *)
Definition metadata_back (r : Request) (stored : strmap) (resp : Response) : Prop :=
  ∀ k vs, client_key k -> is_user_key k = true -> Header r !! k = Some vs ->
    (∀ k', is_Some (stored !! k') -> CanonicalHeaderKey k' = k -> k' = k) ->
    resp_Header resp !! k = Some [strings.Join vs (str ",")].

End spec.
