(* ===== verification/HandlerFindings.v ===== *)
(** * Encryption, GET and PUT in a concrete server

    A reference instance of the stream format; the theorems on encrypted and
    compressed objects and on the requests that read and write an object, at
    concrete inputs; and evaluated examples of behaviours that the comments of the
    code or the rest of it contradict. *)
From S2P Require Import Prelude GoLib GoText IncStr Errors Metadata NsLock Pool Drive World HttpRange Objects APIErrors Base64 Streaming StreamingSpec ObjectLock ObjectLockSpec.
From S2P Require Import HashReader Client Names Buckets ObjectsSpec ReadSpec Crypto CryptoSpec Encryption EncryptionSpec Reference.
Import base64.

(** ** A reference instance of the stream format

    Blocks of content with a tag of 32 bytes in front of each, which is the key:
    it satisfies the laws that the library of encrypted streams is assumed to
    satisfy, and evaluates. *)
Section format.
Context (B : nat) (HB : (0 < B)%nat) (tag : bytes) (T : nat) (HT : length tag = T) (T0 : (0 < T)%nat).

Fixpoint enc_from (fuel : nat) (data : bytes) : bytes :=
  match fuel, data with
  | S f, _ :: _ => tag ++ take B data ++ enc_from f (drop B data)
  | _, _ => []
  end.
Fixpoint dec_from (fuel : nat) (s : bytes) : bytes * option error :=
  match fuel, s with
  | S f, _ :: _ =>
      if decide (take T s = tag) then
        let '(r, e) := dec_from f (drop (T + B) s) in (take B (drop T s) ++ r, e)
      else ([], Some crypto_ErrSecretKeyMismatch)
  | _, _ => ([], None)
  end.
Definition enc (data : bytes) : bytes := enc_from (length data) data.
Definition dec (s : bytes) : bytes * option error := dec_from (length s) s.

Lemma enc_fuel f data : (length data <= f)%nat -> enc_from f data = enc data.
Proof.
  unfold enc. revert data. induction f as [f IH] using lt_wf_ind. intros data Hf.
  destruct data as [|c data]; [by destruct f|]. destruct f as [|f]; [cbn in Hf; lia|]. cbn [length enc_from]. do 2 f_equal.
  assert (length (drop B (c :: data)) <= length data)%nat by (rewrite length_drop; cbn; lia). cbn in Hf.
  by rewrite (IH f), (IH (length data)) by lia.
Qed.
Lemma enc_step data : data <> [] -> enc data = tag ++ take B data ++ enc (drop B data).
Proof.
  intros Hd. destruct data as [|c data]; [done|]. unfold enc at 1. cbn [length enc_from]. do 2 f_equal. apply enc_fuel.
  rewrite length_drop. cbn. lia.
Qed.

Lemma dec_fuel f s : (length s <= f)%nat -> dec_from f s = dec s.
Proof.
  unfold dec. revert s. induction f as [f IH] using lt_wf_ind. intros s Hf.
  destruct s as [|c s]; [by destruct f|]. destruct f as [|f]; [cbn in Hf; lia|]. cbn [length dec_from]. case_decide; [|done].
  assert (length (drop (T + B) (c :: s)) <= length s)%nat by (rewrite length_drop; cbn; lia). cbn in Hf.
  by rewrite (IH f), (IH (length s)) by lia.
Qed.
Lemma dec_step c s : dec (c :: s) =
  if decide (take T (c :: s) = tag) then let '(r, e) := dec (drop (T + B) (c :: s)) in (take B (drop T (c :: s)) ++ r, e)
  else ([], Some crypto_ErrSecretKeyMismatch).
Proof.
  unfold dec at 1. cbn [length dec_from]. case_decide; [|done]. rewrite dec_fuel; [done|]. rewrite length_drop. cbn. lia.
Qed.

(** A block in front of a stream. *)
Lemma dec_block block rest :
  length block = B \/ rest = [] /\ (length block <= B)%nat ->
  dec (tag ++ block ++ rest) = (block ++ (dec rest).1, (dec rest).2).
Proof.
  intros Hb. assert (∃ c t, tag = c :: t) as (c & t & Et) by (pose proof HT as HT'; destruct tag; [cbn in HT'; lia|eauto]).
  assert (tag ++ block ++ rest = c :: t ++ block ++ rest) as Ec by (by rewrite Et).
  rewrite Ec, dec_step, <- Ec. rewrite <- HT, take_app_length, decide_True, <- drop_drop, drop_app_length by done.
  assert (drop B (block ++ rest) = rest /\ take B (block ++ rest) = block) as [-> ->].
  { destruct Hb as [<-|[-> Hb]]; [by rewrite drop_app_length, take_app_length|].
    rewrite app_nil_r. by rewrite drop_ge, take_ge by lia. }
  by destruct (dec rest).
Qed.

Lemma block_shape data : length (take B data) = B \/ enc (drop B data) = [] /\ (length (take B data) <= B)%nat.
Proof.
  rewrite length_take. destruct (decide (B <= length data)%nat); [left; lia|right]. split; [|lia].
  by rewrite drop_ge by lia.
Qed.

Lemma dec_enc data : dec (enc data) = (data, None).
Proof.
  induction (well_founded_ltof _ (@length ascii) data) as [data _ IH]. destruct (decide (data = [])) as [->|Hd]; [done|].
  rewrite enc_step, dec_block by (done || apply block_shape). rewrite IH.
  - cbn [fst snd]. by rewrite take_drop.
  - unfold ltof. destruct data; [done|]. rewrite length_drop. cbn. lia.
Qed.

Lemma enc_length data : length (enc data) = (length data + T * ((length data + (B - 1)) / B))%nat.
Proof.
  induction (well_founded_ltof _ (@length ascii) data) as [data _ IH]. destruct (decide (data = [])) as [->|Hd].
  { cbn. rewrite Nat.div_small by lia. lia. }
  assert (0 < length data)%nat as Hl by (destruct data; [done|cbn; lia]).
  rewrite enc_step, !length_app, IH, HT, length_take, length_drop by (done || (unfold ltof; rewrite length_drop; lia)).
  destruct (decide (B <= length data)%nat).
  - replace (length data + (B - 1))%nat with ((length data - B + (B - 1)) + 1 * B)%nat at 1 by lia.
    rewrite Nat.div_add by lia. lia.
  - replace (length data - B)%nat with 0%nat by lia. rewrite (Nat.div_small (0 + (B - 1))) by lia.
    assert ((length data + (B - 1)) / B = 1)%nat as ->; [|lia].
    replace (length data + (B - 1))%nat with ((length data - 1) + 1 * B)%nat by lia. rewrite Nat.div_add, Nat.div_small by lia. done.
Qed.

Lemma enc_one data : data <> [] -> (length data <= B)%nat -> length (enc data) = (length data + T)%nat.
Proof.
  intros Hd Hl. rewrite enc_step, drop_ge, take_ge by done. change (enc []) with (@nil ascii). rewrite app_nil_r, length_app. lia.
Qed.

Lemma drop_package data : drop (T + B) (enc data) = enc (drop B data).
Proof.
  destruct (decide (data = [])) as [->|Hd]; [rewrite drop_nil; change (enc []) with (@nil ascii); apply drop_nil|].
  rewrite enc_step by done. rewrite <- drop_drop, <- HT, drop_app_length.
  destruct (block_shape data) as [Hb|[-> Hb]]; [by apply drop_app_length'|].
  rewrite app_nil_r. by apply drop_ge.
Qed.
Lemma take_package data : take (T + B) (enc data) = enc (take B data).
Proof.
  destruct (decide (data = [])) as [->|Hd]; [rewrite take_nil; change (enc []) with (@nil ascii); apply take_nil|].
  assert (take B data <> []) by (destruct data, B; [done..|lia|done]).
  rewrite (enc_step data), (enc_step (take B data)) by done.
  rewrite take_take, Nat.min_id, (drop_ge (take B data)) by (rewrite length_take; lia). change (enc []) with (@nil ascii).
  rewrite app_nil_r, <- HT, take_app_add. f_equal.
  destruct (block_shape data) as [Hb|[-> Hb]]; [by apply take_app_length'|].
  rewrite app_nil_r. by apply take_ge.
Qed.

Lemma drop_packages i data : drop (i * (T + B)) (enc data) = enc (drop (i * B) data).
Proof.
  revert data. induction i as [|i IH]; intros data; [done|]. cbn [Nat.mul].
  rewrite <- (drop_drop (enc data) (i * (T + B)) (T + B)), <- (drop_drop data (i * B) B), drop_package. apply IH.
Qed.
Lemma take_packages n data : take (n * (T + B)) (enc data) = enc (take (n * B) data).
Proof.
  revert data. induction n as [|n IH]; intros data; [done|].
  destruct (decide (data = [])) as [->|Hd]; [rewrite take_nil; change (enc []) with (@nil ascii); apply take_nil|]. cbn [Nat.mul].
  rewrite <- (take_drop (T + B) (enc data)) at 1. rewrite take_package, drop_package.
  destruct (decide (B <= length data)%nat).
  - assert (take B data <> []) as Hne by (destruct data, B; [done..|lia|done]).
    assert (length (enc (take B data)) = T + B)%nat as Hl by (rewrite enc_one; rewrite ?length_take; lia || done).
    rewrite <- Hl at 1. rewrite take_app_add, IH.
    assert (take (B + n * B) data <> []) as Hne' by (destruct data; [done|]; destruct B; [lia|done]).
    rewrite (enc_step _ Hne), (enc_step _ Hne'). rewrite take_take, Nat.min_id, take_take, Nat.min_l, (drop_ge (take B data)) by (rewrite ?length_take; lia).
    change (enc []) with (@nil ascii). rewrite app_nil_r, <- app_assoc, skipn_firstn_comm. do 4 f_equal. lia.
  - rewrite (drop_ge data), (take_ge data B), (take_ge data) by lia. change (enc []) with (@nil ascii). rewrite app_nil_r.
    apply take_ge. destruct data; [done|]. rewrite enc_one by (done || lia). lia.
Qed.
End format.

(** ** The instance *)
Definition block : nat := Z.to_nat 65536.
Lemma block_pos : (0 < block)%nat.
Proof. unfold block. lia. Qed.
Lemma block_Z : Z.of_nat block = 65536.
Proof. unfold block. lia. Qed.
#[global] Opaque block.

#[export] Instance ref_sio : SioEnv := {|
  sio_Encrypt _ key data := enc block (to_array 32 key) data;
  sio_Decrypt _ key s := dec block (to_array 32 key) 32 s |}.
#[export] Instance ref_dare : DareEnv := {|
  sio_EncryptedSize n := Some (dare_size n);
  sio_DecryptedSize s := Some (s - 32 * ((s + 65567) / 65568));
  sio_DecryptReader key _ s := dec block (to_array 32 key) 32 s |}.

#[export] Instance ref_sio_laws : SioLaws ref_sio.
Proof.
  split; cbn [sio_Encrypt sio_Decrypt ref_sio].
  - intros _ nonce key data _. apply dec_enc; [apply block_pos|apply to_array_length|lia].
  - intros nonce key data Hl. apply enc_one; [apply block_pos|apply to_array_length|lia|intros ->; cbn in Hl; lia|].
    pose proof block_Z. lia.
  - intros _ nonce key key' data out Hk Hk' Hd E. rewrite (to_array_id 32 key), (to_array_id 32 key') in E by done.
    rewrite (enc_step _ block_pos _ 32 Hk) in E by (done || lia). destruct key as [|c key]; [done|]. cbn [app] in E.
    rewrite (dec_step _ block_pos _ 32 Hk') in E by lia. case_decide as Hc; [|done]. rewrite <- Hc.
    change (c :: key ++ ?x) with ((c :: key) ++ x). by rewrite <- Hk, take_app_length.
Qed.

#[export] Instance ref_dare_laws : DareLaws ref_sio ref_dare.
Proof.
  split; cbn [sio_Encrypt sio_EncryptedSize sio_DecryptedSize sio_DecryptReader ref_sio ref_dare].
  - done.
  - intros n Hn. f_equal. unfold dare_size. set (c := (n + 65535) / 65536).
    pose proof (Z.div_mod (n + 65535) 65536 ltac:(lia)). pose proof (Z.mod_pos_bound (n + 65535) 65536 ltac:(lia)).
    assert ((n + 32 * c + 65567) / 65568 = c) as ->; [|lia].
    symmetry. apply (Z.div_unique _ _ _ (n + 32 * c + 65567 - 65568 * c)); unfold c in *; lia.
  - intros nonce key data _. rewrite (enc_length block block_pos _ 32) by (apply to_array_length || lia).
    unfold dare_size. rewrite Nat2Z.inj_add, Nat2Z.inj_mul, Nat2Z.inj_div, Nat2Z.inj_add, Nat2Z.inj_sub, block_Z by (pose proof block_pos; lia). done.
  - intros nonce key data i n Hk Hi Hn. exists None. unfold slice.
    assert (∀ z, 0 <= z -> Z.to_nat (z * 65568) = (Z.to_nat z * (32 + block))%nat /\ Z.to_nat (z * 65536) = (Z.to_nat z * block)%nat) as Hz.
    { intros z Hz. rewrite !Z2Nat.inj_mul by lia. split; f_equal; pose proof block_Z; lia. }
    destruct (Hz i Hi) as [-> ->], (Hz n Hn) as [-> ->].
    rewrite (drop_packages block block_pos _ 32), (take_packages block block_pos _ 32) by (apply to_array_length || lia).
    apply dec_enc; [apply block_pos|apply to_array_length|lia].
Qed.

#[export] Instance ref_s2 : S2Env.
Proof. refine {| s2_Encode c := c; s2_Decode s := (s, None) |}. intros contents. by rewrite list_fmap_id. Defined.

Module EncryptionScenario.
Import LockScenario Ref.

#[export] Instance ref_mac : SigEnv.
Proof.
  refine {| sha256_Sum := to_array 32; hmac_sha256 := λ k d, to_array 32 (take 16 (reverse k) ++ reverse d) |}.
  intros. apply to_array_length.
Defined.

Definition bkt : bytes := str "bkt".
Definition obj : bytes := str "dir/obj".
Definition client_key : bytes := replicate 32 "k"%char.
Definition other_key : bytes := replicate 32 "o"%char.
Definition master : bytes := replicate 32 "M"%char.
Definition rnd : randomness := mkRandom (replicate 32 "d"%char) (str "n1") (str "n2") (replicate 32 "i"%char) (str "n3").
Definition headers (key : bytes) : multimap :=
  {[ SSECAlgorithm := [SSEAlgorithmAES256]; SSECKey := [EncodeToString key]; SSECKeyMD5 := [EncodeToString (md5_sum key)] ]}.
Definition user_meta : strmap := {[ str "content-type" := str "text/plain" ]}.
Definition kms : option KMS := Some (NewMasterKey (str "my-key") master).

(** The metadata of an object put with the client's key. *)
Definition sealed_meta : strmap :=
  match EncryptRequest kms rnd (headers client_key) bkt obj user_meta with Some (inl (_, m)) => m | _ => ∅ end.

Lemma rotation_keeps_key_witness :
  let kms := Some (NewMasterKey (str "my-key") master) in
  match decryptObjectInfo kms client_key bkt obj (Some sealed_meta) with
  | inl k => ∃ m', rotateKey kms rnd client_key other_key bkt obj sealed_meta = Some (inl m') /\
               decryptObjectInfo kms other_key bkt obj (Some m') = inl k
  | inr _ => ∃ e, rotateKey kms rnd client_key other_key bkt obj sealed_meta = Some (inr e)
  end.
Proof. apply (rotation_keeps_key (str "my-key") master rnd client_key other_key bkt obj sealed_meta); vm_compute; done. Defined.

Lemma sealed_key_bound_witness :
  ∃ objectKey m', newEncryptMetadata kms rnd client_key bkt obj user_meta false = Some (inl (objectKey, m')) /\
    decryptObjectInfo kms client_key bkt (str "dir//obj") (Some m') = inl objectKey /\
    hmac_sha256 (to_array 32 client_key) (rnd_IV rnd ++ SSEC_String ++ SealAlgorithm ++ path.Join [bkt; str "dir//obj"])
      = hmac_sha256 client_key (rnd_IV rnd ++ SSEC_String ++ SealAlgorithm ++ path.Join [bkt; obj]).
Proof.
  assert (match newEncryptMetadata kms rnd client_key bkt obj user_meta false with
          | Some (inl (k, m')) => bool_decide (decryptObjectInfo kms client_key bkt (str "dir//obj") (Some m') = inl k)
          | _ => false
          end = true) as Hr by (vm_compute; reflexivity).
  destruct (newEncryptMetadata kms rnd client_key bkt obj user_meta false) as [[[k m']|e]|] eqn:E; [|discriminate..].
  apply bool_decide_eq_true in Hr as D. exists k, m'. split; [reflexivity|]. split; [exact D|].
  assert (∀ d, length (sha256_Sum d) = 32%nat) as Hsha by (intros; apply to_array_length).
  apply (sealed_key_bound Hsha kms rnd client_key bkt obj user_meta k m' client_key bkt (str "dir//obj") k);
    [vm_compute; reflexivity..|exact E|exact D].
Defined.

(** Two parts, and a range over their border. *)
Definition two_parts : ObjectInfo :=
  mkObjectInfo bkt obj 0 (65664 + 70064) false [] [] [] zeroTime [] (Some (CreateMultipartMetadata (Some sealed_meta))) []
    [mkPart [] 1 65664 0; mkPart [] 2 70064 0] false false.

Lemma encrypted_range_covers_witness :
  decrypted_sizes two_parts = inl [65600; 70000] /\
  ∃ r, GetDecryptedRange two_parts (Some (mkRange false 65000 65999)) = inl r /\ covers [65600; 70000] 65000 1000 r.
Proof.
  split; [vm_compute; reflexivity|].
  apply (encrypted_range_covers two_parts (mkRange false 65000 65999) [65600; 70000] 65000 1000);
    [vm_compute; reflexivity|vm_compute; reflexivity| |vm_compute; discriminate| |vm_compute; reflexivity|lia].
  - repeat constructor; vm_compute; discriminate.
  - cbn. unfold int64_max. lia.
Defined.

Lemma client_presents : presents client_key (headers client_key).
Proof. vm_compute. split_and!; reflexivity. Qed.

Definition hello : bytes := str "hello, world".
Lemma encrypted_put_get_witness :
  let kms := Some (NewMasterKey (str "my-key") master) in
  ∃ objectKey m', EncryptRequest kms rnd (headers client_key) bkt obj user_meta = Some (inl (objectKey, m')) /\
    let stored := sio_Encrypt (str "n") objectKey hello in
    ∀ info, describes info bkt obj m' (Z.of_nat (length stored)) ->
    ∃ encOff encLength skipLen seqNumber,
      encrypted_range (Some (mkRange false 7 11)) info = inl (encOff, encLength, skipLen, seqNumber, 0%nat, 5) /\
      0 <= encOff /\ 0 <= encLength /\ encOff + encLength <= Z.of_nat (length stored) /\
      decrypted_content kms (headers client_key) info skipLen seqNumber 5 (slice encOff encLength stored)
        = inl (slice 7 5 hello, None).
Proof.
  assert (∀ d, length (sha256_Sum d) = 32%nat) as Hsha by (intros; apply to_array_length).
  apply (encrypted_put_get Hsha (str "my-key") master rnd (headers client_key) (headers client_key)
           bkt obj user_meta (str "n") hello (Some (mkRange false 7 11)) 7 5).
  - discriminate.
  - reflexivity.
  - reflexivity.
  - vm_compute. reflexivity.
  - vm_compute. reflexivity.
  - right. exists client_key. split_and!; [reflexivity|vm_compute; discriminate|apply client_presents..].
  - vm_compute. reflexivity.
  - vm_compute. split; discriminate.
  - intros s [= <-]. cbn. unfold int64_max. lia.
  - vm_compute. reflexivity.
Defined.

Definition compressed_info : ObjectInfo :=
  mkObjectInfo bkt obj 0 12 false [] [] [] zeroTime [] (Some {[ ReservedMetadataPrefix ++ str "actual-size" := str "12" ]}) []
    [mkPart [] 1 7 7; mkPart [] 2 5 5] false false.
Lemma compressed_range_get_witness :
  let stored := concat (s2_Encode <$> [str "hello, "; str "world"]) in
  ∃ cOff cLen decOff, compressed_range (Some (mkRange false 8 10)) compressed_info = inl (cOff, cLen, decOff, 3) /\
    0 <= cOff /\ 0 <= cLen /\ cOff + cLen = Z.of_nat (length stored) /\
    skip_limit decOff 3 (s2_Decode (slice cOff cLen stored)) = (slice 8 3 (concat [str "hello, "; str "world"]), None).
Proof.
  apply (compressed_range_get [str "hello, "; str "world"] (Some (mkRange false 8 10)) 8 3 compressed_info).
  - right. repeat constructor.
  - reflexivity.
  - vm_compute. reflexivity.
  - vm_compute. discriminate.
  - intros s [= <-]. cbn. unfold int64_max. lia.
  - vm_compute. reflexivity.
Defined.

(** ** Findings *)

(** Three parts with a block each, read by [GetObjectHandler], whose buffer has
    room for the whole object: the reader goes on to the second part, which does
    not fill the rest of the buffer.  When the library reports the end with the
    last bytes the read gives nothing at all; when it reports the end later, the
    read claims bytes that were never written. *)
Definition key0 : bytes := replicate 32 "0"%char.
Definition part_of (n : Z) (content : bytes) : bytes := sio_Encrypt [] (DerivePartKey key0 n) content.
Definition three : list ObjectPartInfo :=
  [mkPart [] 1 37 5; mkPart [] 2 37 5; mkPart [] 3 37 5].
Definition three_stream : bytes := part_of 1 (str "aaaaa") ++ part_of 2 (str "bbbbb") ++ part_of 3 (str "ccccc").
Definition first_read (eofWithData : bool) (n : Z) : option (bytes * Z * option error) :=
  d ← newBlocksReader key0 three three_stream 0 0; '(got, m, err, _) ← blocks_Read eofWithData key0 three n d; Some (got, m, err).

Example small_buffer_reads : first_read true 8 = Some (str "aaaaabbb", 8, None).
Proof. vm_compute. reflexivity. Qed.
Example big_buffer_loses_parts :
  first_read true 15 = Some (str "aaaaabbbbb", 0, Some io_EOF) /\ first_read false 15 = Some (str "aaaaabbbbb", 15, None).
Proof. split; vm_compute; reflexivity. Qed.

(** The context of a key is not escaped: two contexts have one canonical form. *)
Example contexts_collide :
  WriteTo {[ str "a" := str "1" ++ [quote] ++ str "," ++ quoted (str "b") ++ str ":" ++ [quote] ++ str "2" ]}
  = WriteTo {[ str "a" := str "1"; str "b" := str "2" ]}.
Proof. vm_compute. reflexivity. Qed.

(** A sealed key that decrypts to something of another length: no error, and the
    zero key. *)
Example short_key_is_zero :
  masterKey_UnsealKey master (str "id") (sio_Encrypt [] (deriveKey master (str "id") ∅) (str "short")) ∅ = inl (replicate 32 zero_byte).
Proof. vm_compute. reflexivity. Qed.
End EncryptionScenario.

(** ** GET, HEAD and PUT *)
From S2P Require Import Prelude GoLib GoText IncStr Errors APIErrors Metadata NsLock Pool Drive World HashReader.
From S2P Require Import HttpRange Client Names Buckets Reference Objects ObjectsSpec Multipart Encodable ReadSpec GetSpec RoundTrip Session Scenario.
From S2P Require Import GoTime GoDate Base64 Streaming StreamingSpec SignV4 Auth ObjectLock ObjectLockSpec LockHandlers Crypto CryptoSpec Encryption EncryptionSpec GetHandler GetHandlerSpec PutHandler.

Module GetScenario.
Import Scenario LockScenario EncryptionScenario.

Definition bkt : bytes := str "bkt".
Definition obj : bytes := str "obj".

(** "hello", put in May 2013 with the type of its content. *)
Definition get_meta : fsMetaV1 := put_fsMeta obj {[ str "content-type" := str "text/plain" ]} 5 (str "00001") (str "0123abcd") now.
Definition w_get : World :=
  start [bucket_entry bkt; (str "bkt/obj", mkEntry (json_Marshal get_meta) (str "hello"))].
Definition info : ObjectInfo := (info_result (view (w_drive w_get)) bkt obj).1.

Definition order : strmap -> list (bytes * bytes) := map_to_list.
Definition doc : APIError -> bytes := Code.
Definition permit : bytes -> bytes -> bytes -> option APIErrorCode := λ _ _ _, Some ErrNone.
Definition Get (r : Request) (fuel : nat) : M Response :=
  GetObjectHandler None (str "tag") [] true doc order true false true permit r bkt (inl obj) ∅ fuel.
Definition Head (r : Request) : M Response :=
  HeadObjectHandler None (str "tag") [] true doc order true false true permit r bkt (inl obj) ∅.

Definition request (h : multimap) : Request := mkRequest (str "GET") (str "/bkt/obj") [] h (str "host") [] 0 [] [] false.
Definition whole : Request := request ∅.
Definition middle : Request := request {[ str "Range" := [str "bytes=1-3"] ]}.

Lemma order_perm m : order m ≡ₚ map_to_list m.
Proof. done. Qed.

Lemma get_stored : stored_object (view (w_drive w_get)) (bkt ++ str "/" ++ obj) get_meta (str "hello").
Proof.
  split.
  - vm_compute. reflexivity.
  - apply Z.leb_le. vm_compute. reflexivity.
  - apply Z.leb_le. vm_compute. reflexivity.
  - apply put_fsMeta_encodable; try compute_done.
  - reflexivity.
  - vm_compute. reflexivity.
  - intros k Hk. revert k Hk. apply Forall_forall. apply (bool_decide_eq_true_1 _). vm_compute. reflexivity.
Qed.

Lemma ordinary_forall (m : strmap) :
  bool_decide (map_Forall (λ k _, HasPrefix k (str "X-Amz-Meta-X-Minio-Internal-") = false /\ CanonicalHeaderKey k <> xhttp_LastModified) m) = true ->
  ordinary m.
Proof. intros Hb%bool_decide_eq_true k [x Hx]. exact (Hb k x Hx). Qed.

Lemma info_found : info_result (view (w_drive w_get)) bkt obj = (info, None).
Proof.
  unfold info. assert ((info_result (view (w_drive w_get)) bkt obj).2 = None) as E by (vm_compute; reflexivity).
  destruct (info_result _ _ _) as [? ?]. cbn in E |- *. by rewrite E.
Qed.

Lemma start_lockable (es : list (bytes * entry)) (b o : bytes) (rd : bool) : lockable (start es) b o rd.
Proof. unfold lockable. assert (ns_abs (w_ns (start es)) = ∅) as -> by done. unfold spec_lock. by rewrite lookup_empty. Qed.

Lemma get_readable : readable w_get bkt obj (str "hello") info.
Proof.
  split.
  - apply start_ready.
  - apply start_small. vm_compute. reflexivity.
  - apply start_lockable.
  - discriminate.
  - split; [reflexivity|apply no_lock_file].
  - exists get_meta. exact get_stored.
  - exact info_found.
  - split; [vm_compute; reflexivity|]. split; [apply (bool_decide_eq_true_1 _); vm_compute; reflexivity|].
    split; [vm_compute; reflexivity|]. split; [vm_compute; reflexivity|]. apply ordinary_forall. vm_compute. reflexivity.
Qed.

Lemma permitted (r : Request) :
  read_checks true false r (inl obj) = inl (obj, None) -> S3_IsRequested (Header r) = false /\ SSEC_IsRequested (Header r) = false ->
  may_read true false permit r bkt obj.
Proof. by split. Qed.
Lemma asks_whole h : Header_Get h (str "Range") = [] -> asks (request h) None 5 0 5.
Proof. intros E. exists None. split; [|by vm_compute]. unfold request_range. cbn [Header request]. by rewrite E. Qed.

Lemma get_describes_content_witness :
  runs (Get middle 2) (λ resp d t, d = w_drive w_get /\
    serves resp (shown permit bkt obj info) (Some (mkRange false 1 3)) 1 3 (str "hello")) w_get.
Proof.
  apply (get_describes_content None (str "tag") [] true doc order order_perm true false true permit
           2 middle bkt obj (str "hello") ∅ info (Some (mkRange false 1 3)) 1 3 w_get).
  - lia.
  - exact get_readable.
  - apply permitted; [vm_compute; reflexivity|vm_compute; auto].
  - exists None. vm_compute. split_and!; [reflexivity|discriminate|reflexivity].
  - vm_compute. reflexivity.
Defined.

Lemma head_agrees_witness :
  ∃ resp, runs (Get middle 2) (λ a d t, d = w_drive w_get /\ a = resp) w_get /\
    runs (Head (head_request middle)) (λ a d t, d = w_drive w_get /\ a = without_content resp) w_get.
Proof.
  apply (head_agrees None (str "tag") [] true doc order order_perm true false true permit
           2 middle bkt obj (str "hello") ∅ info (Some (mkRange false 1 3)) 1 3 w_get).
  - lia.
  - exact get_readable.
  - apply permitted; [vm_compute; reflexivity|vm_compute; auto].
  - reflexivity.
  - exists None. vm_compute. split_and!; [reflexivity|discriminate|reflexivity].
Defined.

(** A second request with the checksum of the first response. *)
Definition revalidate (resp : Response) : Request := request {[ IfNoneMatch := [response_header resp xhttp_ETag] ]}.
Lemma revalidation_witness :
  runs (resp ← Get whole 2; resp' ← Get (revalidate resp) 2; mret (resp, resp'))
    (λ a d t, d = w_drive w_get /\ serves a.1 (shown permit bkt obj info) None 0 5 (str "hello") /\
       if decide (if_changed (Header (revalidate a.1))) then resp_Status a.2 = StatusNotModified /\ resp_Body a.2 = []
       else serves a.2 (shown permit bkt obj info) None 0 5 (str "hello")) w_get.
Proof.
  apply (revalidation None (str "tag") [] true doc order order_perm true false true permit
           2 whole revalidate bkt obj (str "hello") ∅ info None None 0 5 0 5 w_get).
  - lia.
  - exact get_readable.
  - split; [vm_compute; split; first [discriminate|reflexivity]|]. split; [vm_compute; discriminate|]. split; [vm_compute; discriminate|].
    unfold no_quotes. apply (bool_decide_eq_true_1 _). vm_compute. reflexivity.
  - vm_compute. discriminate.
  - apply permitted; [vm_compute; reflexivity|vm_compute; auto].
  - apply asks_whole. vm_compute. reflexivity.
  - vm_compute. reflexivity.
  - intros resp. unfold revalidate, sends_back. cbn [Header request]. generalize (response_header resp xhttp_ETag), (response_header resp xhttp_LastModified).
    intros etag date. split; [apply permitted; [vm_compute; reflexivity|vm_compute; auto]|]. split; [reflexivity|].
    split; [|apply asks_whole; vm_compute; reflexivity].
    split_and!; [left; vm_compute; reflexivity..|right; vm_compute; reflexivity].
Defined.

(** A PUT with metadata, and a GET of a range. *)
Definition put_req : Request :=
  mkRequest (str "PUT") (str "/bkt/obj") []
    {[ str "Content-Type" := [str "text/plain"]; str "X-Amz-Meta-Color" := [str "blue"; str "green"] ]} (str "host") [] 5 [] [] false.
Definition opened : (bytes * bool * bytes) + APIErrorCode := inl (str "hello", true, []).
Definition no_config : compress_Config := mkCompressConfig false [] [].
Definition no_query_error : bytes -> option error := λ _, None.
Definition torder : multimap -> list (bytes * list bytes) := map_to_list.
Definition permit_put : bytes -> option APIErrorCode := λ _, Some ErrNone.
Definition put_checked : (bytes * Z * bytes * strmap) + APIError := put_checks no_query_error torder true false false put_req (inl obj).
Definition put_meta : strmap := match put_checked with inl (_, _, _, m) => m | inr _ => ∅ end.
Definition put_reader : Reader := mkReader (str "hello") 5 5 [] [] true false [] true.
Definition put_entries : strmap :=
  put_stored false false ∅ permit_put (view (w_drive w_empty)) None None put_req bkt obj put_meta.
Definition put_get_run {E : OSEnv} : M (Response * option Response) :=
  put_and_get None (str "tag") [] true doc order no_query_error torder true false false false false true true ∅ no_config rnd
    permit permit_put 2 put_req middle bkt obj ∅ ∅ opened None None.

Lemma put_may_put :
  may_put no_query_error torder true false false false true no_config permit_put put_req obj opened put_meta put_reader.
Proof.
  split.
  - exists (str "hello"), true, [], 5, []. split; [reflexivity|]. split; [|vm_compute; reflexivity].
    unfold put_meta. change (put_checked = inl (obj, 5, [], match put_checked with inl (_, _, _, m) => m | inr _ => ∅ end)).
    assert (match put_checked with inl (o, n, d, _) => bool_decide (o = obj /\ n = 5 /\ d = []) | inr _ => false end = true) as Hc
      by (vm_compute; reflexivity).
    destruct put_checked as [[[[o n] d] m]|e]; [|done]. by apply bool_decide_eq_true in Hc as (-> & -> & ->).
  - split; vm_compute; reflexivity.
  - split; vm_compute; reflexivity.
  - reflexivity.
  - by exists ErrNone.
  - by exists ErrNone.
Qed.

Lemma put_entries_ok : user_meta_ok (Some put_entries).
Proof.
  split.
  - intros k x. revert k x. change (map_Forall (λ k x, utf8_ok k /\ utf8_ok x) put_entries).
    apply (bool_decide_eq_true_1 _). vm_compute. reflexivity.
  - intros k Hk. revert k Hk. apply Forall_forall. apply (bool_decide_eq_true_1 _). vm_compute. reflexivity.
Qed.


(** ** Findings *)

(** An object changed exactly one second after the time a client has is not
    modified for the code, though the time of the change reads as a second later. *)
Example second_later_unmodified :
  ifModifiedSince (now + 10 ^ 9) now = false /\ Format_http (now + 10 ^ 9) <> Format_http now.
Proof. vm_compute. split; [reflexivity|discriminate]. Qed.

(** Metadata of a client in the form of internal metadata is taken for internal:
    a stored object of five bytes, put with a header that says it is compressed
    and has another size, is answered with a length that is not that of the
    body. *)
Definition disguised_meta : fsMetaV1 :=
  put_fsMeta obj {[ str "X-Amz-Meta-X-Minio-Internal-compression" := str "klauspost/compress/s2";
                    str "X-Amz-Meta-X-Minio-Internal-actual-size" := str "3" ]} 5 (str "00001") (str "0123abcd") now.
Definition w_disguised : World :=
  start [bucket_entry bkt; (str "bkt/obj", mkEntry (json_Marshal disguised_meta) (str "hello"))].
Example disguised_metadata_length :
  match Get whole 2 w_disguised with
  | ROk resp _ => resp_Status resp = 200 /\ resp_Body resp = str "hello" /\ resp_Header resp !! xhttp_ContentLength = Some [str "3"]
  | _ => False
  end.
Proof. vm_compute. auto. Qed.

(** The size and the version that the store keeps with the metadata of an object
    become headers of the response. *)
Example store_keys_exposed :
  match Get whole 2 w_get with
  | ROk resp _ => resp_Header resp !! str "Size" = Some [str "5"] /\ resp_Header resp !! str "Version" = Some [str "00001"]
  | _ => False
  end.
Proof. vm_compute. auto. Qed.

(** The checksum in the answer to a PUT is not that of the object: the stored one
    is taken before the body has been read. *)
Definition other_sums : OSEnv := {|
  env_now := env_now (OSEnv := os);
  env_uuid := env_uuid (OSEnv := os);
  s3_CheckValidBucketName := s3_CheckValidBucketName (OSEnv := os);
  s3_CheckValidBucketNameStrict := s3_CheckValidBucketNameStrict (OSEnv := os);
  regexp_MatchString := regexp_MatchString (OSEnv := os);
  md5_sum := to_array 16;
  sha256_sum := sha256_sum (OSEnv := os);
  env_rand := env_rand (OSEnv := os);
  rwPool_Open := rwPool_Open (OSEnv := os);
  rwPool_Create := rwPool_Create (OSEnv := os);
  rwPool_WriteTo := rwPool_WriteTo (OSEnv := os);
  env_cap := env_cap (OSEnv := os);
  env_byte := env_byte (OSEnv := os) |}.
Example put_etag_differs :
  match put_get_run (E := other_sums) w_empty with
  | ROk (resp, Some resp') _ =>
      resp_Status resp = 200 /\ resp_Status resp' = 206 /\ resp_Body resp' = str "ell" /\
      resp_Header resp' !! str "X-Amz-Meta-Color" = Some [str "blue,green"] /\
      resp_Header resp !! xhttp_ETag <> resp_Header resp' !! xhttp_ETag
  | _ => False
  end.
Proof. vm_compute. split_and!; try reflexivity. discriminate. Qed.
End GetScenario.
