(* ===== verification/Findings.v ===== *)
(** * Behaviours of the code that its callers do not expect

    Each example runs the model on a small concrete state and shows a behaviour
    of the code that differs from what its name, its comments or the S3
    interface promise.  The first part runs the object layer in the reference
    environment of Reference.v, the second the protocol client and the simple
    wildcard matcher. *)
From S2P Require Import Prelude GoLib IncStr Errors Metadata NsLock Pool Drive World HashReader.
From S2P Require Import HttpRange Client Names Buckets Reference Objects ObjectsSpec Listing.
From S2P Require Import ListingSpec Multipart MultipartSpec Encodable ReadSpec GetSpec RoundTrip.
From S2P Require Import Session MultipartGet UploadSpec Scenario.
Import Scenario.

(** The answer of a run that returns, and the keys it leaves on the drive. *)
Definition answer {A} (r : res A) : option A := match r with ROk a _ => Some a | _ => None end.
Definition keys_after {A} (r : res A) : list bytes :=
  match r with ROk _ w => (map_to_list (view (w_drive w))).*1 | _ => [] end.
Definition panics {A} (r : res A) : bool := match r with RPanic _ => true | _ => false end.

(** ** The object layer *)
Definition object_entry (name v : bytes) : bytes * entry :=
  (str "bkt/" ++ name,
   mkEntry (json_Marshal (put_fsMeta name ∅ (Z.of_nat (length v)) (str "00001") (str "etag") 0)) v).
Definition w_two : World :=
  start [bucket_entry bkt; object_entry (str "a") (str "1"); object_entry (str "b") (str "2")].
Definition listed (r : res (ListObjectsInfo * option error)) : option (list bytes * bool) :=
  match r with ROk (l, None) _ => Some (map oi_Name (loi_Objects l), loi_IsTruncated l) | _ => None end.

(** The end of the key range is inclusive: the listing of the prefix "a" has the
    object "b". *)
Example list_beyond_prefix :
  listed (ListObjects 2 bkt (str "a") [] [] 10 w_two) = Some ([str "a"; str "b"], false).
Proof. vm_compute. reflexivity. Qed.

(** A listing cut at its limit is not marked as truncated. *)
Example list_cut_not_truncated :
  listed (ListObjects 2 bkt [] [] [] 1 w_two) = Some ([str "a"], false).
Proof. vm_compute. reflexivity. Qed.

(** The next marker of a full page is the increment of its last key: the keys that
    extend the last key are on no page. *)
Definition many : list bytes := (λ i, str "a" ++ Format5d (Z.of_nat i)) <$> seq 0 399.
Definition w_many : World :=
  start (bucket_entry bkt :: ((λ name, object_entry name (str "1")) <$> (many ++ [str "b"; str "b1"]))).
Definition page_of (r : res (ListObjectsInfo * option error)) : option (option bytes * bool * bytes) :=
  match r with
  | ROk (l, None) _ => Some (last (map oi_Name (loi_Objects l)), loi_IsTruncated l, loi_NextMarker l)
  | _ => None
  end.
Example next_marker_skips :
  page_of (ListObjects 500 bkt [] [] [] 1000 w_many) = Some (Some (str "b"), true, str "c") /\
  page_of (ListObjects 500 bkt [] (str "c") [] 1000 w_many) = Some (None, false, []).
Proof. split; vm_compute; reflexivity. Qed.

(** The offset of a range is applied to every part of a multipart object: of the
    object "abcdef" in two parts, the bytes 1 to 4 are served as "bcef". *)
Example range_over_parts :
  answer (GetObjectHandler_serve 5 bkt obj [] w_two_parts) = Some (str "abcdef", None) /\
  answer (GetObjectHandler_serve 5 bkt obj (str "bytes=1-4") w_two_parts) = Some (str "bcef", None).
Proof. split; vm_compute; reflexivity. Qed.

(** A range within the first part leaves the client at the second part, and the
    next GET of the whole object starts there. *)
Example client_left_at_part :
  answer ((_ ← GetObjectHandler_serve 5 bkt obj (str "bytes=0-1"); GetObjectHandler_serve 5 bkt obj []) w_two_parts)
  = Some (str "defabc", None).
Proof. vm_compute. reflexivity. Qed.

(** The record of an upload in progress is listed as an object. *)
Example upload_record_listed :
  listed (ListObjects 2 bkt [] [] [] 10 w_upload) = Some ([str "obj.fs.json.u1"], false).
Proof. vm_compute. reflexivity. Qed.

(** On a full drive a bucket is reported as created and is not there. *)
Definition w_full : World := init_world (mkRef (list_to_map [bucket_entry bkt]) 0 : @drive kd).
Example make_bucket_lost :
  answer (MakeBucketWithLocation (str "new") [] w_full) = Some None /\
  keys_after (MakeBucketWithLocation (str "new") [] w_full) = [str "bucket.bkt"].
Proof. split; vm_compute; reflexivity. Qed.

(** [GetBucketInfo] names the bucket by its key, [ListBuckets] by its name. *)
Example bucket_named_by_key :
  option_map (λ '(bi, _), bi_Name bi) (answer (GetBucketInfo bkt w_empty)) = Some (str "bucket.bkt") /\
  option_map (λ '(l, _), map bi_Name l) (answer (ListBuckets 2 w_empty)) = Some [bkt].
Proof. split; vm_compute; reflexivity. Qed.

(** A bucket whose first key is hidden counts as empty: its deletion deletes the
    object "b", and the part stays. *)
Definition w_hidden_first : World :=
  start [bucket_entry bkt; object_entry (str "b") (str "2");
         (str "bkt/a.00001.00001.e.5",
          mkEntry (json_Marshal (part_fsMeta (str "a") (str "e") 5 0)) (str "hello"))].
Example delete_bucket_with_objects :
  answer (DeleteBucket 3 bkt w_hidden_first) = Some None /\
  keys_after (DeleteBucket 3 bkt w_hidden_first) = [str "bkt/a.00001.00001.e.5"].
Proof. split; vm_compute; reflexivity. Qed.

(** [GetObject] writes the whole object whatever the range. *)
Example get_object_ignores_range :
  answer (GetObject bkt obj 1 2 true w_object) = Some (str "hello", None).
Proof. vm_compute. reflexivity. Qed.

(** An object name is cut at a NUL byte when it becomes a key. *)
Example put_object_cut_name :
  option_map snd (answer (PutObject bkt (str "a" ++ [ascii_of_N 0] ++ str "b") hello None w_empty))
    = Some None /\
  keys_after (PutObject bkt (str "a" ++ [ascii_of_N 0] ++ str "b") hello None w_empty)
    = [str "bucket.bkt"; str "bkt/a"].
Proof. split; vm_compute; reflexivity. Qed.

(** A stream of unknown size panics. *)
Example put_unknown_size :
  panics (PutObject bkt obj (mkReader (str "hello") (-1) (-1) [] [] true false [] true) None w_empty) = true.
Proof. vm_compute. reflexivity. Qed.

(** A new upload without metadata panics. *)
Example new_upload_no_metadata : panics (NewMultipartUpload bkt obj None w_empty) = true.
Proof. vm_compute. reflexivity. Qed.

(** The parts of an upload in progress are not listed: they are stored under the
    next version and looked for under the current one. *)
Example list_parts_empty :
  option_map (λ '(l, e), (lp_Parts l, e)) (answer (ListObjectParts bkt obj (str "u1") 0 10 w_upload))
    = Some ([], None).
Proof. vm_compute. reflexivity. Qed.

(** A copy of metadata onto the object itself succeeds for an object that does
    not exist, and writes nothing. *)
Definition metadata_copy : ObjectInfo :=
  mkObjectInfo bkt obj 0 0 false [] [] [] 0 [] None [] [] true false.
Example copy_metadata_writes_nothing :
  option_map snd (answer (CopyObject bkt obj bkt obj metadata_copy hello w_empty)) = Some None /\
  keys_after (CopyObject bkt obj bkt obj metadata_copy hello w_empty) = [str "bucket.bkt"].
Proof. split; vm_compute; reflexivity. Qed.

(** ** The protocol client *)
From S2P Require Import Proto Wire WireSpec Wildcard.
Import WireScenario.
#[local] Existing Instance ref_proto.

Definition returned {A} (r : wres A) : option A := match r with WOk a _ => Some a | _ => None end.
Definition unread {A} (r : wres A) : list bytes :=
  match r with WOk _ s => cn_in (ws_conn s) | _ => [] end.
Definition reply_of (messageType : Z) : bytes :=
  Marshal_Message (mkMessage (Some Message_HMACAUTH) None None (Marshal_Command
    (mkCommand (Some (mkHeader None (Some 9) None (Some 41) (Some messageType) None None None None None))
       None (Some (mkStatus (Some Command_Status_SUCCESS) None []))))).

(** Bytes that arrive in two pieces: the second piece overwrites the first. *)
Example read_pieces_overwrite :
  returned (Wire.Read (str "......") 6 (connected [str "ab"; str "cdef"])) = Some (str "cdef..", None).
Proof. vm_compute. reflexivity. Qed.

(** A frame without the magic byte is no error: an empty message. *)
Example header_bad_magic :
  returned (GetHeader (connected [str "G" ++ PutUint32 1 ++ PutUint32 2])) = Some (0, 0, None).
Proof. vm_compute. reflexivity. Qed.

(** [GetNext] returns no value and leaves it on the connection. *)
Example get_next_value_unread :
  let s := connected [frame (reply_of Command_GETNEXT_RESPONSE) (str "value")] in
  returned (GetNext hmac (str "k") (str "........") opts s) = Some (str "........", 0, None) /\
  unread (GetNext hmac (str "k") (str "........") opts s) = [str "value"].
Proof. split; vm_compute; reflexivity. Qed.

(** [NoOp] does not read its reply, which the next [Get] takes for its own: it
    returns no bytes and no error for a key that has a value. *)
Example no_op_then_get :
  match NoOp hmac opts (connected [frame (reply_of Command_NOOP_RESPONSE) [];
                                   frame (reply_of Command_GET_RESPONSE) (str "value")]) with
  | WOk err s => Some (err, returned (Wire.Get hmac (str "k") (str "........") opts s))
  | _ => None
  end = Some (None, Some (str "........", 0, None)).
Proof. vm_compute. reflexivity. Qed.

(** The PIN of [UnlockPin], [LockPin] and [ErasePin] is not sent: with different
    PINs the client writes the same bytes. *)
Definition written {A} (r : wres A) : bytes := cn_out (ws_conn (st r)).
Example pin_not_sent :
  written (UnlockPin hmac (str "1234") opts (connected [])) = written (UnlockPin hmac (str "0000") opts (connected [])) /\
  written (LockPin hmac (str "1234") opts (connected [])) = written (LockPin hmac (str "0000") opts (connected [])) /\
  written (ErasePin hmac (str "1234") opts (connected [])) = written (ErasePin hmac (str "0000") opts (connected [])).
Proof. split_and!; vm_compute; reflexivity. Qed.

(** [InstantSecureErase] asks for the operation of [ErasePin]. *)
Example secure_erase_is_erase :
  match parse_frame (written (InstantSecureErase hmac (str "1234") opts (connected []))) with
  | Some (sn, _) => cmd_Body (sn_command sn) = pin_body Command_PinOperation_ERASE_PINOP
  | None => False
  end.
Proof. vm_compute. reflexivity. Qed.

(** ** The simple matcher: a final question mark panics at the end of the name. *)
Example match_simple_panics :
  MatchSimple (str "a?") (str "a") = None /\ MatchSimple (str "a?") (str "ab") = Some true.
Proof. split; vm_compute; reflexivity. Qed.
